(* ===== verification/_CoqProject ===== *)
-Q . S2P
Prelude.v
Decimal.v
Utf8.v
Json.v
Ids.v
Bytes.v
Text.v
Access.v
ScopeKey.v
Capability.v
GroupForest.v
Publication.v
Errors.v
OwnerScope.v
Authz.v
Revalidation.v
Engine.v
Groups.v
Membership.v
Delegation.v
Quiesce.v
ToolArgs.v
Spaces.v
ScopeGate.v
Outbox.v
OutboxDelivery.v
Intake.v
Drain.v
DrainPostgres.v
Net.v
HttpSink.v
Serde.v
OidcConfig.v
MemoryUuid.v
CanonicalJson.v
Idempotency.v
Fingerprint.v
MemoryStore.v
Admission.v
MemoryLifecycle.v
MemorySeries.v
MemoryReplay.v
OidcKeys.v
JwksCache.v
Oidc.v
GoalWrite.v
GoalStore.v
GoalSteps.v
GoalTree.v
GoalTransactions.v
GoalInvariant.v
Goals.v
