(* ===== verification/Prelude.v ===== *)
(** * Proxiima: a verification of its authority core, outbox, memory and goal stores

    Proxiima is a memory engine for language-model agents: hosts serve tools and
    resources over MCP, each call acts under an authorization context, and an
    engine turns that context into typed proofs that storage demands.  This
    development models the path a call takes from its credentials to the permit
    of a write, what the Postgres adapter then does to the group, memory, goal
    and outbox tables, and how facts leave the system.

    ** The parts and how they meet

    A request is authenticated into an [AuthzContext] (Authz.v): identity,
    role per owner, caller scope, served surface, sealed owner scope.  The
    bundled authenticator verifies OIDC tokens (Oidc.v) with keys that are
    pinned or fetched (OidcKeys.v) and cached (JwksCache.v), and maps their
    subjects to users (OidcConfig.v).  A tool
    call first meets the scope gate (ScopeGate.v), which derives the one scope
    key of the call (ScopeKey.v) from the tool's declaration (Capability.v) and
    arguments (ToolArgs.v), resolves the memory space it names (Spaces.v) and
    checks the role there (Access.v).  Inside the engine every operation passes
    the authorization pipeline (Engine.v), which applies the host's veto hooks,
    tells its observers, and mints permits.  Work that outlives a request runs
    under a delegation (Delegation.v); long-lived streams are revalidated
    (Revalidation.v); background workers pause through a gate (Quiesce.v).
    Roles come from the group tables (Groups.v), which membership verbs change
    (Membership.v).  A write is fingerprinted (Idempotency.v, CanonicalJson.v,
    Fingerprint.v), given an id (MemoryUuid.v) and admitted into a series
    (Admission.v) over the memory tables (MemoryStore.v); versions are later
    forgotten, restored or erased, and series transferred (MemoryLifecycle.v).  Goals are versions of
    their own, set, moved through their states and decomposed into trees
    (GoalWrite.v) by transactions over the goal tables (GoalStore.v,
    GoalSteps.v) that also write lifecycle Facts.  Facts leave the system
    as sealed publications (Publication.v): captured in an outbox (Outbox.v),
    handed to consumers under leases by a drain (Drain.v), over HTTP
    (HttpSink.v), and read back by an intake (Intake.v).

    ** Files and sources (paths under [crates/core/src] unless given in full)

    - Prelude.v: results, strings, characters, clocks, sorting, and the tactics,
      hints and lemmas the components share.
    - Decimal.v, Utf8.v, Bytes.v, Json.v: what the code uses of integer text,
      UTF-8, big-endian bytes and [serde_json::Value].
    - Ids.v: [ids.rs], [owner.rs], the envelope of [error.rs].
    - Text.v: [text_bounds.rs]; the operator label of [tool.rs] and
      [mcp/types.rs].
    - Access.v: [access.rs]: [Role], [OwnerRoles], [OwnerAccessPort], relations.
    - ScopeKey.v: [authz/scope_key.rs], [mcp/names.rs].
    - Capability.v: [mcp/manifest.rs] and the descriptors of [mcp/tool.rs];
      [ToolScope], [ServedSurface], [CapabilitySet] of [authz.rs].
    - GroupForest.v: the role projection of group edges in
      [crates/storage-pg/definitions/functions.sql].
    - Publication.v: [publication.rs]: source, extensions, drafts, positions,
      sealing.
    - Errors.v: [storage.rs], [mcp/error.rs], [crates/storage-pg/src/error.rs].
    - OwnerScope.v: [owner_scope.rs].
    - Authz.v: [authz.rs] and [auth.rs]: every constructor and builder of
      [AuthzContext], delegated phases and engine authority.
    - Revalidation.v: [RevalidatedStream] of [authz.rs].
    - Engine.v: [engine/pipeline.rs], [authz/hooks.rs], the owner permits of
      [storage_ports/proof.rs], the hook runners of [verbs/schema.rs].
    - Groups.v: [crates/storage-pg/src/access], [ports/owners.rs],
      [owner_scope.rs] there, with the triggers and policies of the group tables
      and what [owner_erase.rs] deletes of them.
    - Membership.v: [engine/access_admin.rs], [engine/owner_inverse.rs],
      [owner_inverse.rs].
    - Delegation.v: [storage_ports/delegated_authority.rs] and its Postgres
      adapter [crates/storage-pg/src/delegated_authority.rs].
    - Quiesce.v: [quiesce.rs].
    - ToolArgs.v: argument handling of [mcp/tool.rs].
    - Spaces.v: [mcp/core_tools/memory_spaces.rs].
    - ScopeGate.v: [mcp/behavior.rs]; the resource table of [spiice/spiice0.rs]
      and resource keys of [spiice/contract.rs].
    - Outbox.v, OutboxDelivery.v: [storage_ports/publication.rs] and
      [crates/storage-pg/src/verbs/publication_outbox.rs], with the outbox legs
      of [forget.rs], [owner_erase.rs] and [fact_ingest.rs] beside it.
    - Intake.v: [publication/intake.rs].
    - Drain.v, DrainPostgres.v: [crates/proxiima/src/in_process_outbox.rs], over
      any outbox and over the tables of Outbox.v.
    - Net.v, HttpSink.v: [net.rs], [env.rs] and
      [crates/proxiima/src/outbox_http.rs].
    - Serde.v: what [derive(Deserialize)] makes of a JSON value.
    - OidcConfig.v: [config.rs], [authorized_party.rs] and [subject_map.rs] of
      [crates/auth-oidc/src].
    - OidcKeys.v, JwksCache.v: [keys.rs] there; the second is [key_for] of
      [HttpJwksResolver] with its cache.
    - Oidc.v: [authenticator.rs] and [binding_set.rs] there.
    - MemoryUuid.v: [memory_uuid.rs].
    - CanonicalJson.v: [canonical_json.rs].
    - Idempotency.v, Fingerprint.v: [verbs/idempotency.rs], and the request
      fingerprints of [mcp/core_tools/memory] and
      [crates/storage-pg/src/verbs/memory_fork.rs].
    - MemoryStore.v: the memory tables of [crates/storage-pg], with their
      constraints, triggers and row policies.
    - Admission.v: [crates/storage-pg/src/verbs/memory_timeseries.rs] and
      [request_keys.rs] beside it.
    - MemoryLifecycle.v: forget, restore and erase of
      [crates/storage-pg/src/verbs/forget.rs], the transfer of a series in
      [crates/storage-pg/src/access/owner_columns.rs], and the interleavings of
      these and of admissions on the memory tables.
    - MemorySeries.v, MemoryReplay.v: theorems about those interleavings.
    - GoalWrite.v: [verbs/goal_write.rs], [memory/payloads/goal_change.rs], and
      the pure part of [crates/storage-pg/src/verbs/goal_write].
    - GoalStore.v: the goal tables of [crates/storage-pg] with their triggers and
      policies, [goal_timeseries.rs] and the statements of [goal_write].
    - GoalSteps.v: [goal_write/commands.rs] and [insert.rs] as transactions in
      steps, with the goal part of [owner_erase.rs].
    - GoalTree.v, GoalTransactions.v, GoalInvariant.v, Goals.v: what one write
      and an erasure keep, what a transaction relies on, the invariant of every
      schedule, and the theorems.

    ** How the code is modelled

    A Rust type [T] is a record or an inductive type, and its methods live in a
    [Module T].  A [str] is the list of its code points; machine integers are
    [N] or [Z] with their bounds stated where the code meets them; a UUID is its
    128-bit number behind the source's newtype; a [SystemTime] is an integer of
    nanoseconds.  Each read of the clock is an argument of its own, so that no
    theorem assumes two reads agree.  [Result] and [Option] keep their
    constructors; a panic is [None].  A function that takes [&mut] returns what
    it leaves.  Observer calls are a log beside the answer.

    A table is a map by its key; a SQL statement is a function on the tables
    that applies row policies, triggers and constraints and answers the fault
    Postgres would raise.  A transaction is one step where the code's locks make
    it so; an admission, which prepares outside its locks, is two.  A goal
    transaction runs in steps, between which others commit: it reads what is
    committed, holds its advisory locks to its end, and its writes are its last
    step.

    Code of other crates and of the host is never given a definition: the
    authenticator, the role port, hooks and the owner resolver are functions in
    records; the delegation store, the watch channel, UUID text, the digest and
    the JSON printer are classes whose laws state the documented behaviour, each
    with an instance that shows the laws can hold (the delegation laws are
    proved of the Postgres adapter).  The [jsonwebtoken] crate is a class whose
    laws are the checks its decoding documents.  HTTP clients, files and RFC 3339
    text are arguments of the definitions that call them.

    ** What the theorems show

    - Access.v: roles form a lattice ordered by what they permit; a resolver's
      answer becomes exactly the join of the named roles per owner.
    - ScopeKey.v, Publication.v, Delegation.v, Spaces.v: parsers and printers are
      inverse, and stored or public spellings name one value.
    - Capability.v: intersecting capabilities is conjunction; a tool is listed
      iff one of its keys is admitted; dispatcher effects are joins.
    - Authz.v: an invariant of every context, by induction on the constructors
      and builders that can reach it; narrowing is permanent; restrictions
      survive; forwarding and authentication are characterised exactly.
    - Engine.v: the gate is sound and complete for role and veto, each decision
      is audited once, set reads are exact, entry reads do not disclose, and a
      permit's kind and lifetime are those of the authority behind it.
    - Groups.v: an invariant of the group tables under every write and erasure;
      the incrementally maintained projection is the recomputed one, and stored
      roles are what paths of edges grant; scopes confine writes.
    - Membership.v: which requests reach the store, with what permit; that
      administration leaves a managed group managed, and the one way it fails to.
    - Delegation.v: issuing, redeeming and revoking, each on every branch; a
      redeemed phase is exactly the grant; revocation is final under any
      schedule of store operations; an issued grant is redeemable.
    - Quiesce.v: a step system of one worker and any number of callers; an [Ok]
      means parked, answers are honest, and a pause can always complete.
    - Revalidation.v: exactly when a revalidated stream ends, that what a busy
      poll saw is not lost, and what it still delivers.
    - ToolArgs.v, Spaces.v, ScopeGate.v: argument resolution is exact, the gate
      admits exactly the permitted calls, and it judges the space the tool runs
      on.
    - OutboxDelivery.v: an invariant of the outbox under every schedule; a lane
      stays owed until marked; leases exclude and superseded claims are fenced;
      overtaking is bounded.
    - Intake.v, Drain.v, DrainPostgres.v: a captured event arrives in its sealed
      bytes and, without floats, reads back as captured; a drain refines the
      outbox's steps, accounts for every claim, marks only what it was handed,
      still held and had accepted, and loses no delivery.
    - Net.v, HttpSink.v: plaintext goes to loopback or named hosts only; the
      receiver's answer decides what becomes of an event.
    - OidcConfig.v: a configuration and a subject map are accepted exactly when
      they should be, and the map answers what its entries say.
    - OidcKeys.v: which entries are keys; a pinned set is all or nothing, a
      fetched one comes whole from a trusted endpoint.
    - JwksCache.v: over all interleavings of lookups, refetches are a cooldown
      apart, answers come from the cache of the call's time, and lookups end.
    - Oidc.v: an accepted token was signed for this issuer and audience; one
      binding alone answers; its context reads and writes at most what the mapped
      user does (of managing, see [rights_within]).
    - MemoryUuid.v: ids of a process increase, exceed their floors and carry
      what they should, until the layout is exhausted.
    - CanonicalJson.v, Fingerprint.v: canonical bytes and request fingerprints
      identify values and requests.
    - MemorySeries.v: in every reachable store heads name the newest live
      version, provenance is layered and acyclic, and erasure is final.
    - MemoryReplay.v: a keyed request is admitted once, until its version is
      erased or transferred; the search for a re-observation's key ends.
    - Goals.v: over all schedules of goal transactions, with retries, crashes and
      owner erasure, goals form trees that close from below, histories are
      legal, no update is lost, a committed command is replayed exactly, and
      transactions end unless a mint panics, which takes a clock before the epoch
      or an id at the end of its range.

    ** Bounds and fuel

    Four definitions are fuelled.  [digits_fuel], the digit loop of a number's
    [Display], runs on one more than the number of its binary digits, which
    [digits_fuel_spec] shows is enough.  The walks along group edges
    ([ancestors], [descendants], [paths_from]) run on the number of
    edges, which suffices in a forest.  [latest_observation] runs on one more
    than the number of ingest keys ([reobservation_search_ends]).  A drain's run
    ([run_rounds]) and a paged listing ([member_pages]) take the number of
    rounds as an argument, since the code loops until it is stopped.  Every
    other loop of the modelled code runs over a list or a string and is
    structural.  Runs of the quiesce gate, of the stores and of builders are
    inductive relations without a bound.  Loops that wait (a checkpoint, a
    quiesce call, a stream poll) are one step per iteration, and their progress
    is a theorem of its own.

    ** Not modelled

    The transports and sessions of [crates/mcp-server], the SQL of
    [crates/storage-pg] beyond the delegation, group, outbox, memory and goal
    tables, the S3 and model clients, and the composition in [crates/proxiima]
    and [apps] are I/O or library calls.  Within the core crate, goal
    collaboration, the engine's goal, ingest, erasure and query verbs,
    retention, payload projections and registry freeze are logic not covered
    here.  Of an admission and a goal write, sidecar payload tables, content and
    blob rows, sketches and the motivation index are parameters or left out;
    schema evolution, series erasure and, but for its outbox, group and goal
    parts, owner erasure are not modelled; so no step of the memory store erases
    an owner.  A transfer's blob, content and upload legs are parameters.  JSON schemas are kept as the names of their
    properties; the escape table of [Debug] for strings is an argument; failed
    connections of the delegation store, and tracing, are left out. *)

From Stdlib Require Export NArith ZArith Lia.
From Stdlib Require Ascii String.
From stdpp Require Export base gmap list sets strings sorting numbers.
Export Ascii.AsciiSyntax String.StringSyntax.
Delimit Scope char_scope with char.

(** ** Results *)

(** Rust's [Result<A, E>]. *)
Inductive result (A E : Type) : Type :=
| Ok (a : A)
| Err (e : E).
Arguments Ok {A E} a.
Arguments Err {A E} e.

Declare Scope rust_scope.
Delimit Scope rust_scope with rust.

(** The [?] operator on a [Result] and on an [Option]. *)
Notation "'let?' x ':=' c 'in' k" :=
  (match c with Ok x => k | Err e => Err e end)
  (at level 10, x pattern, c at level 100, k at level 200) : rust_scope.
Notation "'let*' x ':=' c 'in' k" :=
  (match c with Some x => k | None => None end)
  (at level 10, x pattern, c at level 100, k at level 200) : rust_scope.
Open Scope rust_scope.

(** [Result::is_ok], [Result::ok], [Result::map_err], [Option::ok_or]. *)
Definition is_ok {A E} (r : result A E) : bool :=
  match r with Ok _ => true | Err _ => false end.

Definition ok {A E} (r : result A E) : option A :=
  match r with Ok a => Some a | Err _ => None end.

Definition map_err {A E F} (f : E -> F) (r : result A E) : result A F :=
  match r with Ok a => Ok a | Err e => Err (f e) end.

Definition ok_or {A E} (o : option A) (e : E) : result A E :=
  match o with Some a => Ok a | None => Err e end.

(** [Option::is_some_and] and [Option::is_some]. *)
Definition is_some_and {A} (o : option A) (f : A -> bool) : bool :=
  match o with Some a => f a | None => false end.

Definition is_some {A} (o : option A) : bool :=
  match o with Some _ => true | None => false end.

(** ** Characters and strings

    A Rust [char] is a Unicode scalar value, kept as its code point; a [str]
    is the list of its characters.  [str::len] is the UTF-8 byte length, as in
    Rust; [chars().count()] is the length of the list. *)
Abbreviation char := N.
Abbreviation rstring := (list N).

(** A literal of the source. *)
Definition str (s : String.string) : rstring := Ascii.N_of_ascii <$> String.list_ascii_of_string s.
Arguments str s%_string.

(** A character literal of the source. *)
Definition chr (a : Ascii.ascii) : char := Ascii.N_of_ascii a.
Arguments chr a%_char.

Definition in_range (lo hi c : char) : bool := (lo <=? c)%N && (c <=? hi)%N.

(** [char::is_ascii_lowercase] and its siblings. *)
Definition is_ascii_lowercase (c : char) : bool := in_range 97 122 c.
Definition is_ascii_uppercase (c : char) : bool := in_range 65 90 c.
Definition is_ascii_digit (c : char) : bool := in_range 48 57 c.
Definition is_ascii_alphabetic (c : char) : bool := is_ascii_lowercase c || is_ascii_uppercase c.
Definition is_ascii_alphanumeric (c : char) : bool := is_ascii_alphabetic c || is_ascii_digit c.

(** [char::is_control]: general category Cc. *)
Definition is_control (c : char) : bool := in_range 0 31 c || in_range 127 159 c.

(** [char::is_whitespace]: the Unicode property White_Space. *)
Definition is_whitespace (c : char) : bool :=
  in_range 9 13 c || (c =? 32)%N || (c =? 133)%N || (c =? 160)%N || (c =? 5760)%N
  || in_range 8192 8202 c || in_range 8232 8233 c || (c =? 8239)%N || (c =? 8287)%N
  || (c =? 12288)%N.

(** Bytes of one character in UTF-8, and [str::len]. *)
Definition len_utf8 (c : char) : N :=
  if (c <? 128)%N then 1 else if (c <? 2048)%N then 2 else if (c <? 65536)%N then 3 else 4.
Definition len (s : rstring) : N := foldr (fun c n => len_utf8 c + n)%N 0%N s.

(** [str::bytes]: the UTF-8 encoding. *)
Definition encode_utf8 (c : char) : list N :=
  if (c <? 128)%N then [c]
  else if (c <? 2048)%N then [192 + c / 64; 128 + c mod 64]%N
  else if (c <? 65536)%N then [224 + c / 4096; 128 + c / 64 mod 64; 128 + c mod 64]%N
  else [240 + c / 262144; 128 + c / 4096 mod 64; 128 + c / 64 mod 64; 128 + c mod 64]%N.
Definition bytes (s : rstring) : list N := s ≫= encode_utf8.
Arguments bytes : simpl never.

(** [s.chars().count()]. *)
Definition chars_count (s : rstring) : N := N.of_nat (length s).

Definition is_empty {A} (l : list A) : bool := match l with [] => true | _ => false end.

(** [str::contains(char)], [slice::contains]. *)
Definition contains (c : char) (s : rstring) : bool := existsb (N.eqb c) s.
Definition slice_contains {A} `{EqDecision A} (x : A) (l : list A) : bool :=
  existsb (fun y => bool_decide (x = y)) l.

(** [str::strip_prefix] with a string pattern. *)
Fixpoint strip_prefix (p s : rstring) : option rstring :=
  match p, s with
  | [], _ => Some s
  | a :: p', b :: s' => if (a =? b)%N then strip_prefix p' s' else None
  | _ :: _, [] => None
  end.

Definition starts_with (p s : rstring) : bool := is_some (strip_prefix p s).

(** [str::split_once(char)]: around the first occurrence. *)
Fixpoint split_once (c : char) (s : rstring) : option (rstring * rstring) :=
  match s with
  | [] => None
  | a :: s' =>
      if (a =? c)%N then Some ([], s')
      else match split_once c s' with
           | Some (l, r) => Some (a :: l, r)
           | None => None
           end
  end.

(** [str::trim]. *)
Fixpoint trim_start (s : rstring) : rstring :=
  match s with
  | [] => []
  | c :: s' => if is_whitespace c then trim_start s' else s
  end.
Definition trim (s : rstring) : rstring := reverse (trim_start (reverse (trim_start s))).

(** [str::to_ascii_lowercase]. *)
Definition to_ascii_lowercase (s : rstring) : rstring :=
  (fun c => if is_ascii_uppercase c then (c + 32)%N else c) <$> s.

(** The decimal digits of a number, most significant first, no leading zero
    ([0] for zero): [Display] of an unsigned integer.  The fuel is the number
    of binary digits, which bounds the number of decimal ones. *)
Fixpoint digits_fuel (fuel : nat) (n : N) (acc : rstring) : rstring :=
  match fuel with
  | O => acc
  | S fuel' =>
      let acc := (48 + n mod 10)%N :: acc in
      if (n / 10 =? 0)%N then acc else digits_fuel fuel' (n / 10) acc
  end.
Definition display_u64 (n : N) : rstring := digits_fuel (S (N.size_nat n)) n [].

(** Lexicographic order of two byte or character sequences ([Iterator::cmp]). *)
Fixpoint lex_compare (s t : rstring) : comparison :=
  match s, t with
  | [], [] => Eq
  | [], _ :: _ => Lt
  | _ :: _, [] => Gt
  | a :: s', b :: t' => match (a ?= b)%N with Eq => lex_compare s' t' | c => c end
  end.

(** ** Sorting

    [slice::sort_by_key] and [slice::sort_unstable], by a boolean order. *)
Definition sort_by {A} (leb : A -> A -> bool) (l : list A) : list A :=
  @merge_sort A (fun a b => leb a b = true) (fun a b => decide (leb a b = true)) l.

(** The order of strings: that of their bytes. *)
Definition str_leb (a b : rstring) : bool :=
  match lex_compare (bytes a) (bytes b) with Gt => false | _ => true end.

(** [slice::join]. *)
Fixpoint join (sep : rstring) (l : list rstring) : rstring :=
  match l with
  | [] => []
  | [s] => s
  | s :: l => s ++ sep ++ join sep l
  end.

(** [Vec::dedup]: drop repeats of the element just kept. *)
Fixpoint dedup {A} `{EqDecision A} (l : list A) : list A :=
  match l with
  | [] => []
  | x :: rest =>
      match rest with
      | y :: _ => if bool_decide (x = y) then dedup rest else x :: dedup rest
      | [] => [x]
      end
  end.

(** ** Time *)

(** [SystemTime], in nanoseconds since the epoch.  Code that reads the clock
    takes the value it read as an argument. *)
Abbreviation SystemTime := Z.

(** [Duration], in nanoseconds. *)
Abbreviation Duration := Z.

(** [deadline <= SystemTime::now()] for an optional deadline. *)
Definition passed (deadline : option SystemTime) (now : SystemTime) : bool :=
  is_some_and deadline (fun d => d <=? now)%Z.

(** ** Automation *)

Create HintDb proxiima discriminated.
#[export] Hint Constants Opaque : proxiima.
#[export] Hint Variables Opaque : proxiima.

(** Split on the scrutinee of a [match] or [if], keeping its equation. *)
Ltac break_match_goal :=
  match goal with
  | |- context [match ?x with _ => _ end] => destruct x eqn:?
  end.
Ltac break_match_hyp :=
  match goal with
  | H : context [match ?x with _ => _ end] |- _ => destruct x eqn:?
  end.

(** Case analysis of a successful run: split the head match of each hypothesis
    [_ = Ok _] or [_ = Some _], dropping the branches that fail. *)
Ltac run_ok :=
  repeat match goal with
  | H : context [match ?x with _ => _ end] |- _ =>
      lazymatch type of H with
      | _ = Ok _ => destruct x eqn:?; try discriminate H
      | _ = Some _ => destruct x eqn:?; try discriminate H
      end
  | H : Ok _ = Ok _ |- _ => injection H as H; subst
  | H : Some _ = Some _ |- _ => injection H as H; subst
  end.

(** Turn boolean facts into propositions. *)
Ltac bools :=
  repeat match goal with
  | H : _ && _ = true |- _ => apply andb_prop in H as [? ?]
  | H : _ || _ = false |- _ => apply orb_false_iff in H as [? ?]
  | H : negb _ = true |- _ => apply negb_true_iff in H
  | H : negb _ = false |- _ => apply negb_false_iff in H
  | H : bool_decide _ = true |- _ => apply bool_decide_eq_true in H
  | H : bool_decide _ = false |- _ => apply bool_decide_eq_false in H
  | H : (_ =? _)%N = true |- _ => apply N.eqb_eq in H
  | H : (_ =? _)%N = false |- _ => apply N.eqb_neq in H
  end.

(** ** Results *)

Lemma ok_or_Ok {A E} (o : option A) (e : E) x : ok_or o e = Ok x <-> o = Some x.
Proof. destruct o; cbn; naive_solver. Qed.

Lemma map_err_Ok {A E F} (f : E -> F) (r : result A E) x : map_err f r = Ok x <-> r = Ok x.
Proof. destruct r; cbn; naive_solver. Qed.

Lemma Ok_inj {A E} (a b : A) : @Ok A E a = Ok b -> a = b.
Proof. by injection 1. Qed.

Lemma Some_pair_inj {A B} (a c : A) (b d : B) : Some (a, b) = Some (c, d) -> a = c /\ b = d.
Proof. by intros [= -> ->]. Qed.

Lemma Forall_elem {A} (P : A -> Prop) l x : Forall P l -> x ∈ l -> P x.
Proof. intros H. by apply list.Forall_forall. Qed.

(** ** Lemmas on sorting *)

Section sorting.
Context {A : Type} (leb : A -> A -> bool).
Context (leb_total : forall a b, leb a b = true \/ leb b a = true).
Context (leb_trans : forall a b c, leb a b = true -> leb b c = true -> leb a c = true).

Let le_total : Total (fun a b => leb a b = true) := leb_total.
Let le_trans : Transitive (fun a b => leb a b = true) := leb_trans.

Lemma sort_by_Permutation l : sort_by leb l ≡ₚ l.
Proof. apply merge_sort_Permutation. Qed.

Lemma sort_by_StronglySorted l : StronglySorted (fun a b => leb a b = true) (sort_by leb l).
Proof. apply StronglySorted_merge_sort; [exact le_trans | exact le_total]. Qed.

Lemma sort_by_elem_of x l : x ∈ sort_by leb l <-> x ∈ l.
Proof. by rewrite sort_by_Permutation. Qed.

Lemma sort_by_NoDup l : NoDup (sort_by leb l) <-> NoDup l.
Proof. by rewrite sort_by_Permutation. Qed.

End sorting.

(** ** Lemmas on strings *)

Lemma strip_prefix_Some p s r : strip_prefix p s = Some r <-> s = p ++ r.
Proof.
  revert s. induction p as [| a p IH]; intros s; cbn; [split; congruence |].
  destruct s as [| b s]; [by split |].
  destruct (N.eqb_spec a b) as [-> | Hne].
  - rewrite IH. split; congruence.
  - split; [done | congruence].
Qed.

Lemma strip_prefix_app p r : strip_prefix p (p ++ r) = Some r.
Proof. by apply strip_prefix_Some. Qed.

Lemma contains_true c s : contains c s = true <-> c ∈ s.
Proof.
  unfold contains. rewrite existsb_exists. split.
  - intros (x & Hin & Hx%N.eqb_eq). subst. by apply list_elem_of_In.
  - intros Hin. exists c. split; [by apply list_elem_of_In | apply N.eqb_refl].
Qed.

Lemma contains_false c s : contains c s = false <-> c ∉ s.
Proof. rewrite <- not_true_iff_false, contains_true. done. Qed.

Lemma split_once_Some c s l r :
  split_once c s = Some (l, r) <-> s = l ++ c :: r /\ c ∉ l.
Proof.
  revert l. induction s as [| a s IH]; intros l; cbn.
  - split; [done |]. intros [H _]. by destruct l.
  - destruct (N.eqb_spec a c) as [-> | Hne].
    + split.
      * intros [= <- <-]. split; [done | apply not_elem_of_nil].
      * intros [H Hl]. destruct l as [| b l]; cbn in H; simplify_eq; [done |].
        exfalso. apply Hl. left.
    + destruct (split_once c s) as [[l' r'] |] eqn:E.
      * split.
        -- intros [= <- <-]. pose proof (proj1 (IH l') eq_refl) as [-> Hl']. split; [done |].
           apply not_elem_of_cons. auto.
        -- intros [H Hl]. destruct l as [| b l]; cbn in H; simplify_eq.
           apply not_elem_of_cons in Hl as [_ Hl].
           assert (Some (l', r') = Some (l, r)) as [= -> ->] by (by apply IH). done.
      * split; [done |]. intros [H Hl]. destruct l as [| b l]; cbn in H; simplify_eq.
        apply not_elem_of_cons in Hl as [_ Hl].
        assert (None = Some (l, r)) by (by apply IH). done.
Qed.

Lemma split_once_None c s : split_once c s = None <-> c ∉ s.
Proof.
  split.
  - intros H Hin. apply list_elem_of_split in Hin as (l & r & ->).
    induction l as [| a l IH]; cbn in H; [by rewrite N.eqb_refl in H |].
    destruct (N.eqb_spec a c); [done |]. apply IH. by destruct (split_once c _) as [[] |].
  - intros Hnot. destruct (split_once c s) as [[l r] |] eqn:E; [| done].
    apply split_once_Some in E as [-> _]. exfalso. apply Hnot. set_solver.
Qed.

Lemma slice_contains_true {A} `{EqDecision A} (x : A) l : slice_contains x l = true <-> x ∈ l.
Proof.
  unfold slice_contains. rewrite existsb_exists. setoid_rewrite bool_decide_eq_true.
  setoid_rewrite <- list_elem_of_In. split; [by intros (? & ? & ->) | by exists x].
Qed.

(** [lex_compare] is a total order. *)
Lemma lex_compare_eq s t : lex_compare s t = Eq <-> s = t.
Proof.
  revert t. induction s as [| a s IH]; intros [| b t]; cbn; try by split.
  destruct (N.compare_spec a b) as [-> | Hlt | Hgt]; [rewrite IH | |]; split; try done.
  - congruence.
  - congruence.
  - intros [= -> _]. lia.
  - intros [= -> _]. lia.
Qed.

Lemma lex_compare_antisym s t : lex_compare t s = CompOpp (lex_compare s t).
Proof.
  revert t. induction s as [| a s IH]; intros [| b t]; cbn; try done.
  rewrite N.compare_antisym. by destruct (a ?= b)%N; cbn.
Qed.

Lemma lex_compare_lt_trans s t u :
  lex_compare s t = Lt -> lex_compare t u = Lt -> lex_compare s u = Lt.
Proof.
  revert t u. induction s as [| a s IH]; intros [| b t] [| c u]; cbn; try done.
  destruct (a ?= b)%N eqn:E1; try done; destruct (b ?= c)%N eqn:E2; try done; intros.
  - apply N.compare_eq in E1, E2. subst. rewrite N.compare_refl. eauto.
  - apply N.compare_eq in E1. subst. by rewrite E2.
  - apply N.compare_eq in E2. subst. by rewrite E1.
  - rewrite N.compare_lt_iff in E1, E2. assert ((a ?= c)%N = Lt) as -> by (apply N.compare_lt_iff; lia). done.
Qed.

Lemma list_filter_all {A} (P : A -> Prop) `{forall x, Decision (P x)} (l : list A) :
  (forall x, x ∈ l -> P x) -> filter P l = l.
Proof.
  induction l as [|x l IH]; [reflexivity|]. intros HP. rewrite filter_cons_True by (apply HP; left).
  f_equal. apply IH. intros y Hy. apply HP. by right.
Qed.

(** ASCII text is its own UTF-8 encoding. *)
Lemma bytes_ascii s : Forall (fun c => c < 128)%N s -> bytes s = s.
Proof.
  unfold bytes. induction 1 as [| c s Hc _ IH]; [done |]. cbn. rewrite IH.
  unfold encode_utf8. by rewrite (proj2 (N.ltb_lt _ _) Hc).
Qed.

Lemma len_ascii s : Forall (fun c => c < 128)%N s -> len s = N.of_nat (length s).
Proof.
  induction 1 as [|c s Hc _ IH]; [done|]. cbn [len foldr length]. fold (len s). rewrite IH.
  unfold len_utf8. rewrite (proj2 (N.ltb_lt _ _) Hc). lia.
Qed.

(** A string whose bytes are all ASCII is made of ASCII characters. *)
Lemma bytes_all_ascii s : Forall (fun b => b < 128)%N (bytes s) -> Forall (fun c => c < 128)%N s.
Proof.
  unfold bytes. induction s as [|c s IH]; [done|]. cbn. rewrite list.Forall_app. intros [Hc Hs].
  constructor; [|auto]. unfold encode_utf8 in Hc.
  destruct (N.ltb_spec c 128); [done|].
  repeat case_match; apply list.Forall_cons in Hc as [Hc _]; revert Hc;
    match goal with |- (_ + ?x < _)%N -> _ => generalize x end; lia.
Qed.

Lemma list_bind_ext_elem {A B} (f g : A -> list B) l :
  (forall x, x ∈ l -> f x = g x) -> l ≫= f = l ≫= g.
Proof. induction l as [|x l IH]; cbn; intros H; [done|]. rewrite H by left. f_equal. apply IH. set_solver. Qed.

Lemma omap_NoDup {A B} (f : A -> option B) l :
  (forall x y z, f x = Some z -> f y = Some z -> x = y) -> NoDup l -> NoDup (omap f l).
Proof.
  intros Hinj. induction 1 as [|x l Hx _ IH]; cbn; [constructor|].
  destruct (f x) as [z|] eqn:E; [|done]. constructor; [|done].
  intros (y & Hy & Hf)%list_elem_of_omap. by rewrite (Hinj x y z E Hf) in Hx.
Qed.

Lemma list_filter_none {A} (P : A -> Prop) `{forall x, Decision (P x)} l :
  (forall x, x ∈ l -> ~ P x) -> filter P l = [].
Proof.
  induction l as [|x l IH]; intros Hl; [done|].
  rewrite filter_cons_False by (apply Hl; left). apply IH. set_solver.
Qed.

Lemma NoDup_filter_fst {A B} (P : A * B -> Prop) `{forall x, Decision (P x)} (l : list (A * B)) :
  NoDup l.*1 -> NoDup (filter P l).*1.
Proof.
  induction l as [|[a b] l IH]; [done|]. cbn [fmap list_fmap fst]. rewrite list.NoDup_cons.
  intros [Ha Hl]. rewrite filter_cons. case_decide; [|by apply IH]. cbn. rewrite list.NoDup_cons.
  split; [|by apply IH]. intros ([a' b'] & -> & [_ Hin]%list_elem_of_filter)%list_elem_of_fmap.
  apply Ha. apply list_elem_of_fmap. by exists (a', b').
Qed.

(** A sum over fewer elements, each no larger. *)
Lemma sum_list_with_subset {A} (f g : A -> nat) (l k : list A) :
  NoDup l -> (forall x, x ∈ l -> x ∈ k /\ f x <= g x) -> sum_list_with f l <= sum_list_with g k.
Proof.
  intros Hnd Hsub.
  destruct (submseteq_Permutation l k) as [r ->];
    [apply NoDup_submseteq; [done|]; intros x Hx; by apply Hsub|].
  rewrite sum_list_with_app. assert (forall x, x ∈ l -> f x <= g x) as Hle by (intros x Hx; by apply Hsub).
  clear -Hle. induction l as [|x l IH]; cbn; [lia|].
  specialize (Hle x ltac:(left)) as Hx. specialize (IH ltac:(intros y Hy; apply Hle; by right)). lia.
Qed.

Lemma sum_list_with_subset_lt {A} (f g : A -> nat) (l k : list A) x :
  NoDup l -> (forall y, y ∈ l -> y ∈ k /\ f y <= g y) -> x ∈ l -> f x < g x ->
  sum_list_with f l < sum_list_with g k.
Proof.
  intros Hnd Hsub [l' Hl]%elem_of_Permutation Hlt. rewrite Hl in Hnd. setoid_rewrite Hl in Hsub. rewrite Hl.
  apply list.NoDup_cons in Hnd as [Hx Hnd].
  destruct (Hsub x) as [[k' Hk]%elem_of_Permutation _]; [left|]. rewrite Hk. cbn.
  enough (sum_list_with f l' <= sum_list_with g k') by lia.
  apply sum_list_with_subset; [done|]. intros y Hy. destruct (Hsub y) as [Hin Hle]; [by right|].
  rewrite Hk in Hin. apply elem_of_cons in Hin as [->|]; done.
Qed.

Lemma StronglySorted_filter {A} (R : relation A) (P : A -> Prop) `{forall x, Decision (P x)} (l : list A) :
  StronglySorted R l -> StronglySorted R (filter P l).
Proof.
  induction 1 as [|a l Hl IH Hall]; [constructor|]. rewrite filter_cons. case_decide; [|done]. constructor; [done|].
  apply list.Forall_forall. intros b [_ Hb]%list_elem_of_filter. by eapply list.Forall_forall in Hall.
Qed.

Lemma StronglySorted_lookup {A} (R : A -> A -> Prop) (l : list A) i j x y :
  StronglySorted R l -> i < j -> l !! i = Some x -> l !! j = Some y -> R x y.
Proof.
  intros Hs. revert i j. induction Hs as [|z l Hs IH Hz]; intros [|i] [|j] Hlt Hi Hj; try done; try lia.
  - injection Hi as ->. by eapply Forall_lookup_1.
  - eapply (IH i j); [lia|done|done].
Qed.
