(* ===== verification/Decimal.v ===== *)
(** * Decimal text

    What the code uses of [u64]'s [Display], zero-padded formatting and
    [FromStr], with the round trip and the order of fixed-width numerals. *)

From S2P Require Import Prelude.

(** [format!("{:0width$}", n)]. *)
Definition pad_zeros (width : nat) (s : rstring) : rstring :=
  replicate (width - length s) (chr "0") ++ s.

Definition U64_MAX : N := 2 ^ 64 - 1.

(** The digit loop of [u64::from_str]: it stops at the first character that is
    no digit and at the first overflow. *)
Fixpoint parse_digits (acc : N) (s : rstring) : option N :=
  match s with
  | [] => Some acc
  | c :: s' =>
      if is_ascii_digit c then
        let acc := (acc * 10 + (c - 48))%N in
        if (acc <=? U64_MAX)%N then parse_digits acc s' else None
      else None
  end.

(** [str::parse::<u64>()]: non-empty, an optional leading [+], then digits. *)
Definition parse_u64 (s : rstring) : option N :=
  match s with
  | [] => None
  | c :: rest =>
      if (c =? chr "+")%N then if is_empty rest then None else parse_digits 0 rest
      else parse_digits 0 s
  end.

(** ** Value of a numeral *)

(** The number a string of digits denotes. *)
Fixpoint numeral (s : rstring) : N :=
  match s with
  | [] => 0
  | c :: s' => (c - 48) * 10 ^ N.of_nat (length s') + numeral s'
  end.

Abbreviation all_digits := (forallb is_ascii_digit).

Lemma is_ascii_digit_bounds c : is_ascii_digit c = true <-> (48 <= c <= 57)%N.
Proof. unfold is_ascii_digit, in_range. rewrite andb_true_iff, !N.leb_le. tauto. Qed.

Lemma numeral_bound s : all_digits s = true -> (numeral s < 10 ^ N.of_nat (length s))%N.
Proof.
  induction s as [|c s IH]; cbn [forallb numeral length]; [cbn; lia|]. intros H. bools.
  apply is_ascii_digit_bounds in H. specialize (IH H0).
  rewrite Nat2N.inj_succ, N.pow_succ_r'. nia.
Qed.

Lemma numeral_app s t :
  numeral (s ++ t) = (numeral s * 10 ^ N.of_nat (length t) + numeral t)%N.
Proof.
  induction s as [|c s IH]; cbn [numeral app]; [lia|].
  rewrite IH, length_app, Nat2N.inj_add, N.pow_add_r. lia.
Qed.

Lemma parse_digits_spec s acc :
  (acc <= U64_MAX)%N ->
  parse_digits acc s
  = if all_digits s && (acc * 10 ^ N.of_nat (length s) + numeral s <=? U64_MAX)%N
    then Some (acc * 10 ^ N.of_nat (length s) + numeral s)%N else None.
Proof.
  revert acc. induction s as [|c s IH]; intros acc Hacc; cbn [parse_digits forallb numeral length].
  - rewrite N.mul_1_r, N.add_0_r. by rewrite (proj2 (N.leb_le _ _) Hacc).
  - destruct (is_ascii_digit c) eqn:Hc; [|done].
    replace (acc * 10 ^ N.of_nat (S (length s)) + ((c - 48) * 10 ^ N.of_nat (length s) + numeral s))%N
      with ((acc * 10 + (c - 48)) * 10 ^ N.of_nat (length s) + numeral s)%N
      by (rewrite Nat2N.inj_succ, N.pow_succ_r'; lia).
    destruct (N.leb_spec (acc * 10 + (c - 48)) U64_MAX) as [Hle|Hgt]; [by apply IH|].
    assert (1 <= 10 ^ N.of_nat (length s))%N by (pose proof (N.pow_nonzero 10 (N.of_nat (length s))); lia).
    cbn [andb]. rewrite (proj2 (N.leb_gt _ _)); [by rewrite andb_false_r|]. nia.
Qed.

Lemma parse_u64_digits s :
  s <> [] -> all_digits s = true ->
  parse_u64 s = if (numeral s <=? U64_MAX)%N then Some (numeral s) else None.
Proof.
  intros Hne Hd. destruct s as [|c s]; [done|]. unfold parse_u64.
  assert (Hc : is_ascii_digit c = true) by (cbn in Hd; by bools).
  apply is_ascii_digit_bounds in Hc. destruct (N.eqb_spec c (chr "+")) as [->|_]; [by cbn in Hc; lia|].
  rewrite parse_digits_spec by (cbn; lia). by rewrite Hd.
Qed.

(** ** Displayed numbers *)

Lemma digits_fuel_app fuel n acc : digits_fuel fuel n acc = digits_fuel fuel n [] ++ acc.
Proof.
  revert n acc. induction fuel as [|fuel IH]; intros n acc; cbn [digits_fuel]; [done|].
  case_match; [done|]. rewrite (IH (n / 10)%N (_ :: acc)), (IH (n / 10)%N [_]). by rewrite <-app_assoc.
Qed.

Lemma digit_of_mod n : is_ascii_digit (48 + n mod 10) = true.
Proof. apply is_ascii_digit_bounds. pose proof (N.mod_lt n 10 ltac:(done)) as H. revert H.
  generalize (n mod 10)%N. intros m Hm. split; lia. Qed.

Lemma digits_fuel_spec fuel n :
  (n < 10 ^ N.of_nat fuel)%N ->
  all_digits (digits_fuel fuel n []) = true /\ numeral (digits_fuel fuel n []) = n.
Proof.
  revert n. induction fuel as [|fuel IH]; intros n Hn; cbn [digits_fuel].
  { change (n < 1)%N in Hn. cbn. split; [done|lia]. }
  pose proof (N.div_mod n 10 ltac:(done)) as Hdm.
  destruct (N.eqb_spec (n / 10) 0) as [E|E].
  - cbn [forallb numeral length]. rewrite digit_of_mod, E in *. split; [done|].
    change (10 ^ N.of_nat 0)%N with 1%N. revert Hdm. generalize (n mod 10)%N. lia.
  - rewrite digits_fuel_app. rewrite Nat2N.inj_succ, N.pow_succ_r' in Hn.
    destruct (IH (n / 10)%N) as [Hd Hv]; [apply N.Div0.div_lt_upper_bound; lia|].
    rewrite forallb_app, numeral_app, Hd, Hv. cbn [forallb numeral length]. rewrite digit_of_mod.
    split; [done|]. change (10 ^ N.of_nat 1)%N with 10%N. change (10 ^ N.of_nat 0)%N with 1%N.
    revert Hdm. generalize (n / 10)%N (n mod 10)%N. lia.
Qed.

Lemma digits_fuel_length fuel n k :
  (0 < k)%nat -> (n < 10 ^ N.of_nat k)%N -> length (digits_fuel fuel n []) <= k.
Proof.
  revert n k. induction fuel as [|fuel IH]; intros n k Hk Hn; cbn [digits_fuel]; [cbn; lia|].
  destruct (N.eqb_spec (n / 10) 0) as [E|E]; [cbn; lia|].
  rewrite digits_fuel_app, length_app. destruct k as [|[|k]]; [lia| |].
  - exfalso. apply E, N.div_small. cbn in Hn. lia.
  - rewrite Nat2N.inj_succ, N.pow_succ_r' in Hn.
    assert (length (digits_fuel fuel (n / 10) []) <= S k)
      by (apply IH; [lia|apply N.Div0.div_lt_upper_bound; lia]). cbn. lia.
Qed.

Lemma size_nat_size n : N.of_nat (N.size_nat n) = N.size n.
Proof. destruct n as [|p]; [done|]. cbn. induction p; cbn; lia. Qed.

Lemma display_u64_spec n : all_digits (display_u64 n) = true /\ numeral (display_u64 n) = n.
Proof.
  apply digits_fuel_spec. rewrite Nat2N.inj_succ, N.pow_succ_r'.
  assert (n < 2 ^ N.of_nat (N.size_nat n))%N.
  { pose proof (N.size_gt n). by rewrite size_nat_size. }
  assert (2 ^ N.of_nat (N.size_nat n) <= 10 ^ N.of_nat (N.size_nat n))%N by (apply N.pow_le_mono_l; lia).
  lia.
Qed.

Lemma display_u64_length n k : (0 < k)%nat -> (n < 10 ^ N.of_nat k)%N -> length (display_u64 n) <= k.
Proof. apply digits_fuel_length. Qed.

(** ** Fixed-width numerals *)

Lemma numeral_zeros k s : numeral (replicate k (chr "0") ++ s) = numeral s.
Proof. induction k as [|k IH]; [done|]. cbn [replicate app numeral]. rewrite IH. cbn. lia. Qed.

Lemma all_digits_zeros k : all_digits (replicate k (chr "0")) = true.
Proof. induction k; done. Qed.

Lemma pad_zeros_spec width n :
  (0 < width)%nat -> (n < 10 ^ N.of_nat width)%N ->
  length (pad_zeros width (display_u64 n)) = width /\
  all_digits (pad_zeros width (display_u64 n)) = true /\
  numeral (pad_zeros width (display_u64 n)) = n.
Proof.
  intros Hw Hn. destruct (display_u64_spec n) as [Hd Hv].
  pose proof (display_u64_length n width Hw Hn). unfold pad_zeros.
  rewrite length_app, length_replicate, forallb_app, all_digits_zeros, numeral_zeros, Hd, Hv.
  split; [lia|done].
Qed.

(** On digit strings of one length the string order is the numeric order. *)
Lemma numeral_lex_compare s t :
  length s = length t -> all_digits s = true -> all_digits t = true ->
  lex_compare s t = (numeral s ?= numeral t)%N.
Proof.
  revert t. induction s as [|a s IH]; intros [|b t] Hlen Hs Ht; try discriminate; [done|].
  cbn [length forallb numeral lex_compare] in *. injection Hlen as Hlen. bools.
  apply is_ascii_digit_bounds in H, H1. rewrite (IH t Hlen H2 H0), Hlen.
  pose proof (numeral_bound s H2) as Bs. pose proof (numeral_bound t H0) as Bt. rewrite Hlen in Bs.
  destruct (N.compare_spec a b) as [->|Hlt|Hgt]; symmetry.
  - destruct (N.compare_spec (numeral s) (numeral t));
      [apply N.compare_eq_iff|apply N.compare_lt_iff|apply N.compare_gt_iff]; lia.
  - apply N.compare_lt_iff. nia.
  - apply N.compare_gt_iff. nia.
Qed.

Lemma numeral_inj s t :
  length s = length t -> all_digits s = true -> all_digits t = true -> numeral s = numeral t -> s = t.
Proof.
  intros Hl Hs Ht E. apply lex_compare_eq. rewrite numeral_lex_compare by done.
  by apply N.compare_eq_iff.
Qed.

Lemma all_digits_ascii s : all_digits s = true -> Forall (fun c => c < 128)%N s.
Proof.
  rewrite forallb_forall, list.Forall_forall. intros H c Hc%list_elem_of_In.
  apply H, is_ascii_digit_bounds in Hc. lia.
Qed.

(** The check [s.bytes().all(|b| b.is_ascii_digit())] is a check of the characters. *)
Lemma all_digits_bytes s : all_digits (bytes s) = all_digits s.
Proof.
  apply eq_bool_prop_intro. rewrite !Is_true_true. split; intros H.
  - apply all_digits_ascii in H as Ha. apply bytes_all_ascii in Ha. by rewrite bytes_ascii in H.
  - by rewrite bytes_ascii by by apply all_digits_ascii.
Qed.
