(* ===== verification/Utf8.v ===== *)
(** * UTF-8

    Strings are kept as code points and encoded by [bytes]; this file has the
    standard library's lossy decoder, and what encoding keeps apart. *)

From S2P Require Import Prelude.

(** ** [String::from_utf8_lossy] *)

Definition REPLACEMENT : char := 65533%N.

Definition continuation (b : N) : bool := in_range 128 191 b.

(** What may follow the lead byte of a three- or four-byte sequence. *)
Definition second_ok (lead b : N) : bool :=
  if (lead =? 224)%N then in_range 160 191 b
  else if (lead =? 237)%N then in_range 128 159 b
  else if (lead =? 240)%N then in_range 144 191 b
  else if (lead =? 244)%N then in_range 128 143 b
  else continuation b.

(** Each maximal prefix of a sequence that cannot go on becomes one replacement
    character. *)
Fixpoint from_utf8_lossy (l : list N) : rstring :=
  match l with
  | [] => []
  | a :: l1 =>
      if (a <? 128)%N then a :: from_utf8_lossy l1
      else if in_range 194 223 a then
        match l1 with
        | b :: l2 =>
            if continuation b then ((a - 192) * 64 + (b - 128))%N :: from_utf8_lossy l2
            else REPLACEMENT :: from_utf8_lossy l1
        | [] => [REPLACEMENT]
        end
      else if in_range 224 239 a then
        match l1 with
        | b :: l2 =>
            if second_ok a b then
              match l2 with
              | c :: l3 =>
                  if continuation c
                  then ((a - 224) * 4096 + (b - 128) * 64 + (c - 128))%N :: from_utf8_lossy l3
                  else REPLACEMENT :: from_utf8_lossy l2
              | [] => [REPLACEMENT]
              end
            else REPLACEMENT :: from_utf8_lossy l1
        | [] => [REPLACEMENT]
        end
      else if in_range 240 244 a then
        match l1 with
        | b :: l2 =>
            if second_ok a b then
              match l2 with
              | c :: l3 =>
                  if continuation c then
                    match l3 with
                    | d :: l4 =>
                        if continuation d
                        then ((a - 240) * 262144 + (b - 128) * 4096 + (c - 128) * 64 + (d - 128))%N
                               :: from_utf8_lossy l4
                        else REPLACEMENT :: from_utf8_lossy l3
                    | [] => [REPLACEMENT]
                    end
                  else REPLACEMENT :: from_utf8_lossy l2
              | [] => [REPLACEMENT]
              end
            else REPLACEMENT :: from_utf8_lossy l1
        | [] => [REPLACEMENT]
        end
      else REPLACEMENT :: from_utf8_lossy l1
  end.

(** ** Decoding what was encoded *)

(** [char]: a Unicode scalar value. *)
Definition scalar (c : char) : Prop := (c < 55296 \/ 57344 <= c < 1114112)%N.

Lemma in_range_true lo hi c : (lo <= c <= hi)%N -> in_range lo hi c = true.
Proof. intros [H1 H2]. unfold in_range. by rewrite (proj2 (N.leb_le _ _) H1), (proj2 (N.leb_le _ _) H2). Qed.

Lemma in_range_false lo hi c : (c < lo \/ hi < c)%N -> in_range lo hi c = false.
Proof.
  intros [Hc|Hc]; unfold in_range; rewrite (proj2 (N.leb_gt _ _) Hc); [done|]. by rewrite andb_false_r.
Qed.

(** The base-64 digits of a code point. *)
Lemma base64 c :
  exists q1 q2 q3 r1 r2 r3,
    (c / 64 = q1 /\ c / 4096 = q2 /\ c / 262144 = q3 /\ c mod 64 = r1 /\ q1 mod 64 = r2 /\ q2 mod 64 = r3
     /\ c = q1 * 64 + r1 /\ r1 < 64 /\ q1 = q2 * 64 + r2 /\ r2 < 64 /\ q2 = q3 * 64 + r3 /\ r3 < 64)%N.
Proof.
  do 6 eexists. do 6 (split; [reflexivity|]).
  assert (c / 4096 = c / 64 / 64)%N as E1 by (by rewrite N.Div0.div_div).
  assert (c / 262144 = c / 4096 / 64)%N as E2 by (by rewrite N.Div0.div_div).
  rewrite E2, E1, !(N.mul_comm _ 64). split_and!; try apply N.div_mod'; by apply N.mod_lt.
Qed.

Lemma lossy_encode c rest :
  scalar c -> from_utf8_lossy (encode_utf8 c ++ rest) = c :: from_utf8_lossy rest.
Proof.
  intros Hs. unfold scalar in Hs. destruct (base64 c) as (q1 & q2 & q3 & r1 & r2 & r3 & E1 & E2 & E3 & E4 & E5 & E6 & Hd).
  unfold encode_utf8. rewrite E1, E2, E3, E4, E5, E6. clear E1 E2 E3 E4 E5 E6.
  destruct (N.ltb_spec c 128) as [Hc|Hc]; [cbn; by rewrite (proj2 (N.ltb_lt _ _) Hc)|].
  destruct (N.ltb_spec c 2048) as [H2|H2]; [|destruct (N.ltb_spec c 65536) as [H3|H3]]; cbn [app from_utf8_lossy].
  - rewrite (proj2 (N.ltb_ge _ _)), in_range_true by lia. unfold continuation. rewrite in_range_true by lia. f_equal. lia.
  - rewrite (proj2 (N.ltb_ge _ _)), in_range_false, in_range_true by lia.
    assert (second_ok (224 + q2) (128 + r2) = true) as ->.
    { unfold second_ok. destruct (N.eqb_spec (224 + q2) 224); [apply in_range_true; lia|].
      destruct (N.eqb_spec (224 + q2) 237); [apply in_range_true; lia|].
      rewrite !(proj2 (N.eqb_neq (224 + q2) _)) by lia. apply in_range_true. lia. }
    unfold continuation. rewrite in_range_true by lia. f_equal. lia.
  - rewrite (proj2 (N.ltb_ge _ _)), !in_range_false, in_range_true by lia.
    assert (second_ok (240 + q3) (128 + r3) = true) as ->.
    { unfold second_ok. rewrite !(proj2 (N.eqb_neq (240 + q3) _)) by lia.
      destruct (N.eqb_spec (240 + q3) 240); [apply in_range_true; lia|].
      destruct (N.eqb_spec (240 + q3) 244); apply in_range_true; lia. }
    unfold continuation. rewrite !in_range_true by lia. f_equal. lia.
Qed.

Lemma lossy_bytes s : Forall scalar s -> from_utf8_lossy (bytes s) = s.
Proof.
  unfold bytes. induction 1 as [|c s Hc _ IH]; [done|]. cbn [mbind list_bind]. by rewrite lossy_encode, IH.
Qed.

(** Strings of characters are their bytes. *)
Lemma bytes_inj s t : Forall scalar s -> Forall scalar t -> bytes s = bytes t -> s = t.
Proof. intros Hs Ht E. by rewrite <-(lossy_bytes s Hs), <-(lossy_bytes t Ht), E. Qed.

(** ** The order of strings *)

Lemma str_leb_total a b : str_leb a b = true \/ str_leb b a = true.
Proof.
  unfold str_leb. rewrite (lex_compare_antisym (bytes a) (bytes b)).
  destruct (lex_compare (bytes a) (bytes b)); cbn; auto.
Qed.

Lemma str_leb_trans a b c : str_leb a b = true -> str_leb b c = true -> str_leb a c = true.
Proof.
  unfold str_leb. destruct (lex_compare (bytes a) (bytes b)) eqn:E1, (lex_compare (bytes b) (bytes c)) eqn:E2; try done.
  - apply lex_compare_eq in E1 as ->. by rewrite E2.
  - apply lex_compare_eq in E1 as ->. by rewrite E2.
  - apply lex_compare_eq in E2 as <-. by rewrite E1.
  - by rewrite (lex_compare_lt_trans _ _ _ E1 E2).
Qed.

Lemma str_leb_antisym a b :
  Forall scalar a -> Forall scalar b -> str_leb a b = true -> str_leb b a = true -> a = b.
Proof.
  intros Ha Hb. unfold str_leb. rewrite (lex_compare_antisym (bytes a) (bytes b)).
  destruct (lex_compare (bytes a) (bytes b)) eqn:E; try done. intros _ _. apply bytes_inj; [done..|].
  by apply lex_compare_eq.
Qed.

(** Sorting by a string key, where no key repeats, leaves nothing open. *)
Section by_key.
Context {A : Type} (key : A -> rstring).

Definition key_leb (a b : A) : bool := str_leb (key a) (key b).

Lemma by_key_total a b : key_leb a b = true \/ key_leb b a = true.
Proof. apply str_leb_total. Qed.
Lemma by_key_trans a b c : key_leb a b = true -> key_leb b c = true -> key_leb a c = true.
Proof. apply str_leb_trans. Qed.

Lemma sorted_by_key_unique l k :
  NoDup (key <$> l) -> Forall (fun a => Forall scalar (key a)) l -> l ≡ₚ k ->
  StronglySorted (fun a b => key_leb a b = true) l -> StronglySorted (fun a b => key_leb a b = true) k -> l = k.
Proof.
  intros Hnd Hs Hp Hl Hk. eapply StronglySorted_unique_strong; [|exact Hl|exact Hk|exact Hp].
  intros a b Ha Hb Hab Hba. rewrite <-Hp in Hb.
  assert (key a = key b) as E.
  { apply str_leb_antisym; [by apply (proj1 (list.Forall_forall _ _) Hs)..|done|done]. }
  apply list_elem_of_lookup_1 in Ha as [i Hi], Hb as [j Hj].
  assert (i = j) as <-.
  { eapply NoDup_lookup; [exact Hnd| |]; rewrite list_lookup_fmap; [by rewrite Hi|rewrite Hj; cbn; congruence]. }
  congruence.
Qed.

Lemma sort_by_key_unique l k :
  NoDup (key <$> l) -> Forall (fun a => Forall scalar (key a)) l -> l ≡ₚ k -> sort_by key_leb l = sort_by key_leb k.
Proof.
  intros Hnd Hs Hp. apply sorted_by_key_unique;
    [by rewrite sort_by_Permutation|by rewrite sort_by_Permutation|by rewrite !sort_by_Permutation
    |apply sort_by_StronglySorted; [apply by_key_total|apply by_key_trans]..].
Qed.
End by_key.

Lemma sort_by_key_fmap {A B} (key : A -> rstring) (key' : B -> rstring) (f : A -> B) l :
  (forall a, key' (f a) = key a) -> NoDup (key <$> l) -> Forall (fun a => Forall scalar (key a)) l ->
  sort_by (key_leb key') (f <$> l) = f <$> sort_by (key_leb key) l.
Proof.
  intros Hf Hnd Hs.
  assert (forall k, key' <$> (f <$> k) = key <$> k) as Hkeys
    by (intros k; rewrite <-list_fmap_compose; apply list_fmap_ext; intros ? ? _; apply Hf).
  apply (sorted_by_key_unique key').
  - by rewrite sort_by_Permutation, Hkeys.
  - rewrite sort_by_Permutation, Forall_fmap. eapply Forall_impl; [|exact Hs]. intros a. cbn. by rewrite Hf.
  - by rewrite !sort_by_Permutation.
  - apply sort_by_StronglySorted; [apply by_key_total|apply by_key_trans].
  - pose proof (sort_by_StronglySorted (key_leb key) (by_key_total key) (by_key_trans key) l) as Hsrt.
    induction Hsrt as [|a k Hk IH Ha]; cbn; constructor; [done|]. apply Forall_fmap.
    eapply Forall_impl; [|exact Ha]. intros b. cbn. unfold key_leb. by rewrite !Hf.
Qed.
