(* ===== verification/Json.v ===== *)
(** * JSON values

    [serde_json::Value] as the code inspects it.  A number is kept as its
    literal; an object is its list of members, read by key. *)

From S2P Require Import Prelude.

Inductive Json :=
| JNull
| JBool (b : bool)
| JNumber (literal : rstring)
| JString (s : rstring)
| JArray (items : list Json)
| JObject (members : list (rstring * Json)).

Module Json.

Definition as_object (v : Json) : option (list (rstring * Json)) :=
  match v with JObject m => Some m | _ => None end.
Definition as_array (v : Json) : option (list Json) :=
  match v with JArray l => Some l | _ => None end.
Definition as_str (v : Json) : option rstring :=
  match v with JString s => Some s | _ => None end.

(** [Map::get], [Map::contains_key], [Map::remove] and [Map::insert]. *)
Definition lookup (key : rstring) (m : list (rstring * Json)) : option Json :=
  snd <$> find (fun kv => bool_decide (kv.1 = key)) m.
Definition contains_key (key : rstring) (m : list (rstring * Json)) : bool :=
  is_some (lookup key m).
Definition remove (key : rstring) (m : list (rstring * Json)) : list (rstring * Json) :=
  filter (fun kv => kv.1 <> key) m.
Definition insert (key : rstring) (v : Json) (m : list (rstring * Json)) : list (rstring * Json) :=
  remove key m ++ [(key, v)].

(** [Value::get] with a string index: [None] on anything but an object. *)
Definition get (key : rstring) (v : Json) : option Json :=
  let* m := as_object v in lookup key m.

End Json.

(** A map has each key once. *)
Definition object_wf (m : list (rstring * Json)) : Prop := NoDup m.*1.

Lemma json_lookup_Some key m v : object_wf m -> Json.lookup key m = Some v <-> (key, v) ∈ m.
Proof.
  unfold Json.lookup, object_wf. induction m as [|[k w] m IH].
  - intros _. cbn. split; [discriminate|]. intros H. by apply elem_of_nil in H.
  - cbn [find fmap list_fmap]. rewrite list.NoDup_cons, elem_of_cons. cbn [fst].
    intros [Hk Hnd]. case_bool_decide as E.
    + subst k. cbn. split; [intros [= ->]; by left|]. intros [[= ->]|Hin]; [done|].
      destruct Hk. apply list_elem_of_fmap. by exists (key, v).
    + rewrite (IH Hnd). naive_solver.
Qed.

Lemma json_lookup_None key m : Json.lookup key m = None <-> key ∉ m.*1.
Proof.
  unfold Json.lookup. induction m as [|[k w] m IH]; [split; [by intros _ ?%elem_of_nil|done]|].
  cbn [find fmap list_fmap fst]. rewrite not_elem_of_cons. case_bool_decide as E.
  - subst. cbn. naive_solver.
  - rewrite IH. naive_solver.
Qed.

Lemma json_contains_key key m : Json.contains_key key m = true <-> key ∈ m.*1.
Proof.
  unfold Json.contains_key. destruct (Json.lookup key m) eqn:E; cbn.
  - split; [|done]. intros _. destruct (decide (key ∈ m.*1)) as [|Hn]; [done|].
    apply json_lookup_None in Hn. congruence.
  - apply json_lookup_None in E. split; done.
Qed.

Lemma json_remove_keys key m k : k ∈ (Json.remove key m).*1 <-> k <> key /\ k ∈ m.*1.
Proof.
  unfold Json.remove. rewrite !list_elem_of_fmap. setoid_rewrite list_elem_of_filter. naive_solver.
Qed.

Lemma json_remove_wf key m : object_wf m -> object_wf (Json.remove key m).
Proof.
  unfold object_wf, Json.remove. induction m as [|[k v] m IH]; [done|]. cbn [fmap list_fmap fst].
  rewrite list.NoDup_cons. intros [Hk Hnd]. rewrite filter_cons. case_decide; [|auto].
  cbn [fmap list_fmap fst]. rewrite list.NoDup_cons. split; [|auto].
  intros Hin%json_remove_keys. naive_solver.
Qed.

Lemma json_insert_wf key v m : object_wf m -> object_wf (Json.insert key v m).
Proof.
  intros H. unfold object_wf, Json.insert. rewrite fmap_app. apply list.NoDup_app.
  split; [by apply json_remove_wf|]. split; [|apply NoDup_singleton].
  intros k Hk%json_remove_keys. cbn. rewrite list_elem_of_singleton. naive_solver.
Qed.

Lemma json_insert_keys key v m k : k ∈ (Json.insert key v m).*1 <-> k = key \/ k ∈ m.*1.
Proof.
  unfold Json.insert. rewrite fmap_app, elem_of_app, json_remove_keys. cbn. rewrite list_elem_of_singleton.
  destruct (decide (k = key)); naive_solver.
Qed.

Lemma json_lookup_remove key m k :
  Json.lookup k (Json.remove key m) = if bool_decide (k = key) then None else Json.lookup k m.
Proof.
  case_bool_decide as Hk; [apply json_lookup_None; rewrite json_remove_keys; naive_solver|].
  unfold Json.lookup, Json.remove. f_equal. induction m as [|[a v] m IH]; [done|].
  rewrite filter_cons. case_decide as Ha; cbn; [by rewrite IH|]. rewrite bool_decide_false; [done|].
  cbn in Ha. intros ->. by destruct Ha.
Qed.

Lemma json_lookup_insert key v m k :
  Json.lookup k (Json.insert key v m) = if bool_decide (k = key) then Some v else Json.lookup k m.
Proof.
  assert (Happ : forall l r, Json.lookup k (l ++ r) = match Json.lookup k l with Some x => Some x | None => Json.lookup k r end).
  { intros l r. unfold Json.lookup. induction l as [|[a w] l IH]; [done|]. cbn. by case_bool_decide. }
  unfold Json.insert. rewrite Happ, json_lookup_remove. unfold Json.lookup at 2. cbn.
  repeat case_bool_decide; subst; try done. by destruct (Json.lookup k m).
Qed.

#[export] Hint Resolve json_remove_wf json_insert_wf : proxiima.

(** Induction through the items of arrays and the members of objects. *)
Lemma Json_nested_ind (P : Json -> Prop) :
  P JNull -> (forall b, P (JBool b)) -> (forall l, P (JNumber l)) -> (forall s, P (JString s)) ->
  (forall items, Forall P items -> P (JArray items)) ->
  (forall members, Forall (fun kv => P kv.2) members -> P (JObject members)) ->
  forall v, P v.
Proof.
  intros Hnull Hbool Hnum Hstr Harr Hobj. fix IH 1. intros [|b|l|s|items|members];
    [exact Hnull|apply Hbool|apply Hnum|apply Hstr| |].
  - apply Harr. induction items as [|v items IHl]; constructor; [apply IH|exact IHl].
  - apply Hobj. induction members as [|[k v] members IHl]; constructor; [apply IH|exact IHl].
Qed.
