(* ===== verification/Ids.v ===== *)
(** * Identifier newtypes

    [crates/core/src/ids.rs], [crates/core/src/owner.rs], and the error
    envelope of [crates/core/src/error.rs].  A UUID is its 128-bit value (the
    order of the 16 bytes is the order of the numbers); the newtypes stay
    distinct types, converted only where the source converts them. *)

From S2P Require Import Prelude.

Abbreviation Uuid := N.

Record UserId := mk_UserId { UserId_0 : Uuid }.
Record GroupId := mk_GroupId { GroupId_0 : Uuid }.
Record OwnerId := mk_OwnerId { OwnerId_0 : Uuid }.
Record MemoryId := mk_MemoryId { MemoryId_0 : Uuid }.
Record GoalId := mk_GoalId { GoalId_0 : Uuid }.
Record GoalHandle := mk_GoalHandle { GoalHandle_0 : Uuid }.

#[export] Instance UserId_eq_dec : EqDecision UserId.
Proof. solve_decision. Defined.
#[export] Instance GroupId_eq_dec : EqDecision GroupId.
Proof. solve_decision. Defined.
#[export] Instance OwnerId_eq_dec : EqDecision OwnerId.
Proof. solve_decision. Defined.
#[export] Instance OwnerId_countable : Countable OwnerId.
Proof. refine (inj_countable' OwnerId_0 mk_OwnerId _); by intros []. Defined.
#[export] Instance MemoryId_eq_dec : EqDecision MemoryId.
Proof. solve_decision. Defined.
#[export] Instance GoalId_eq_dec : EqDecision GoalId.
Proof. solve_decision. Defined.

Module OwnerId.

(** [From<UserId>] and [From<GroupId>] for [OwnerId]. *)
Definition from_user (user : UserId) : OwnerId := mk_OwnerId (UserId_0 user).
Definition from_group (group : GroupId) : OwnerId := mk_OwnerId (GroupId_0 group).

Definition as_user (o : OwnerId) : UserId := mk_UserId (OwnerId_0 o).
Definition as_group (o : OwnerId) : GroupId := mk_GroupId (OwnerId_0 o).
Definition into_inner (o : OwnerId) : Uuid := OwnerId_0 o.

End OwnerId.

(** [EntityId]: a memory or a goal. *)
Inductive EntityId :=
| EntityMemory (memory_id : MemoryId)
| EntityGoal (goal_id : GoalId).

#[export] Instance EntityId_eq_dec : EqDecision EntityId.
Proof. solve_decision. Defined.

(** The error envelope of the engine. *)
Inductive ErrorCode :=
| AuthRequired | Forbidden | UnknownSchema | AlreadyIngested | IdempotencyConflict | NotFound
| InvalidArgument | ToolNotRegistered | TriggerConflict | DuplicateTriggerInRequest | Suppressed
| CapacityExhausted | Internal.

Record ProtocolError := mk_ProtocolError {
  code : ErrorCode;
  message : rstring;
  request_id : option rstring;
  existing : option Uuid;
}.

Module ProtocolError.

Definition forbidden (m : rstring) : ProtocolError := mk_ProtocolError Forbidden m None None.
Definition internal (m : rstring) : ProtocolError := mk_ProtocolError Internal m None None.
Definition not_found (m : rstring) : ProtocolError := mk_ProtocolError NotFound m None None.
Definition capacity_exhausted (m : rstring) : ProtocolError :=
  mk_ProtocolError CapacityExhausted m None None.
Definition suppressed (m : rstring) : ProtocolError := mk_ProtocolError Suppressed m None None.
Definition invalid_argument (field reason : rstring) : ProtocolError :=
  mk_ProtocolError InvalidArgument
    (str "invalid argument " ++ field ++ str ": " ++ reason) None None.

End ProtocolError.

(** [user] and [owner] conversions are inverse. *)
Lemma as_user_from_user u : OwnerId.as_user (OwnerId.from_user u) = u.
Proof. by destruct u. Qed.

Lemma from_user_as_user o : OwnerId.from_user (OwnerId.as_user o) = o.
Proof. by destruct o. Qed.
