(* ===== verification/Bytes.v ===== *)
(** * Byte arrays

    Fixed-width big-endian integers ([to_be_bytes], [from_be_bytes]), the
    sixteen bytes of a UUID, and [copy_from_slice] on a range of an array. *)

From S2P Require Import Prelude Ids.

#[local] Open Scope N_scope.

Abbreviation byte_ok := (fun b : N => b < 256).

Fixpoint from_be (acc : N) (l : list N) : N :=
  match l with
  | [] => acc
  | b :: l => from_be (256 * acc + b) l
  end.
Definition from_be_bytes (l : list N) : N := from_be 0 l.

Fixpoint to_be_bytes (width : nat) (n : N) : list N :=
  match width with
  | O => []
  | S width => to_be_bytes width (n / 256) ++ [n mod 256]
  end.

(** [a[i..i + new.len()].copy_from_slice(new)]. *)
Definition copy_from_slice (i : nat) (new l : list N) : list N :=
  take i l ++ new ++ drop (i + length new) l.

Definition uuid_from_bytes (l : list N) : Uuid := from_be_bytes l.
Definition uuid_as_bytes (id : Uuid) : list N := to_be_bytes 16 id.

(** ** Lemmas *)

Lemma from_be_acc acc l : from_be acc l = acc * 256 ^ N.of_nat (length l) + from_be_bytes l.
Proof.
  unfold from_be_bytes. revert acc. induction l as [|b l IH]; intros acc; cbn [from_be length].
  - rewrite N.pow_0_r. lia.
  - rewrite (IH (256 * acc + b)), (IH (256 * 0 + b)), Nat2N.inj_succ, N.pow_succ_r'. lia.
Qed.

Lemma from_be_bytes_app a b :
  from_be_bytes (a ++ b) = from_be_bytes a * 256 ^ N.of_nat (length b) + from_be_bytes b.
Proof.
  unfold from_be_bytes at 1 2. generalize 0. induction a as [|x a IH]; intros acc; cbn [from_be app].
  - apply from_be_acc.
  - apply IH.
Qed.

Lemma from_be_bytes_cons x l :
  from_be_bytes (x :: l) = x * 256 ^ N.of_nat (length l) + from_be_bytes l.
Proof. exact (from_be_bytes_app [x] l). Qed.

Lemma from_be_bytes_bound l : Forall byte_ok l -> from_be_bytes l < 256 ^ N.of_nat (length l).
Proof.
  induction 1 as [|b l Hb _ IH]; [cbn; lia|].
  rewrite from_be_bytes_cons. cbn [length]. rewrite Nat2N.inj_succ, N.pow_succ_r'. nia.
Qed.

Lemma to_be_bytes_length w n : length (to_be_bytes w n) = w.
Proof. revert n. induction w as [|w IH]; intros n; [done|]. cbn. rewrite length_app, IH. cbn. lia. Qed.

Lemma to_be_bytes_ok w n : Forall byte_ok (to_be_bytes w n).
Proof.
  revert n. induction w as [|w IH]; intros n; [constructor|]. cbn. apply list.Forall_app. split; [apply IH|].
  apply Forall_singleton. by apply N.mod_lt.
Qed.

Lemma from_to_be_bytes w n : n < 256 ^ N.of_nat w -> from_be_bytes (to_be_bytes w n) = n.
Proof.
  revert n. induction w as [|w IH]; intros n Hn.
  - cbn in *. lia.
  - cbn [to_be_bytes]. rewrite from_be_bytes_app, IH.
    + cbn [length]. rewrite N.pow_1_r. cbn [from_be_bytes from_be].
      rewrite (N.div_mod n 256) at 3 by done. unfold from_be_bytes. cbn [from_be]. lia.
    + rewrite Nat2N.inj_succ, N.pow_succ_r' in Hn. apply N.Div0.div_lt_upper_bound; lia.
Qed.

Lemma to_from_be_bytes l : Forall byte_ok l -> to_be_bytes (length l) (from_be_bytes l) = l.
Proof.
  induction l as [|x l IH] using rev_ind; [done|]. rewrite list.Forall_app. intros [Hl [Hx _]%list.Forall_cons].
  rewrite length_app. replace (length l + length [x])%nat with (S (length l)) by (cbn; lia).
  cbn [to_be_bytes]. rewrite from_be_bytes_app. cbn [length]. rewrite N.pow_1_r.
  change (from_be_bytes [x]) with x. rewrite N.div_add_l, (N.div_small x 256), N.add_0_r, IH by done.
  rewrite N.add_comm, N.Div0.mod_add, N.mod_small by done. done.
Qed.

Lemma from_be_bytes_inj l k :
  length l = length k -> Forall byte_ok l -> Forall byte_ok k -> from_be_bytes l = from_be_bytes k -> l = k.
Proof. intros Hlen Hl Hk E. rewrite <-(to_from_be_bytes l Hl), <-(to_from_be_bytes k Hk), E. by rewrite Hlen. Qed.

Lemma to_be_bytes_inj w m n :
  m < 256 ^ N.of_nat w -> n < 256 ^ N.of_nat w -> to_be_bytes w m = to_be_bytes w n -> m = n.
Proof. intros Hm Hn E. by rewrite <-(from_to_be_bytes w m Hm), <-(from_to_be_bytes w n Hn), E. Qed.

Lemma copy_from_slice_length i new l :
  (i + length new <= length l)%nat -> length (copy_from_slice i new l) = length l.
Proof. unfold copy_from_slice. rewrite !length_app, length_take, length_drop. lia. Qed.

#[export] Hint Resolve to_be_bytes_ok : proxiima.
