(* ===== verification/Text.v ===== *)
(** * Bounded text and the recorded operator label

    The trimmed-length rule of [crates/core/src/text_bounds.rs], the bound on a
    trusted model identity and the operator-label precedence of
    [crates/core/src/tool.rs] and [crates/core/src/mcp/types.rs].  A refusal is
    kept as the typed cause its message is formatted from. *)

From S2P Require Import Prelude.

(** ** The one trimmed-length rule *)

Inductive TrimmedLenViolation :=
| Blank
| TooLong (max got : N).

Definition check_trimmed_len (value : rstring) (max : N) : result rstring TrimmedLenViolation :=
  let value := trim value in
  if is_empty value then Err Blank
  else
    let got := chars_count value in
    if (max <? got)%N then Err (TooLong max got) else Ok value.

Module TrimmedLenViolation.

Definition reason (self : TrimmedLenViolation) (field : rstring) : rstring :=
  match self with
  | Blank => field ++ str " must not be blank; it is empty after trimming whitespace"
  | TooLong max got =>
      field ++ str " must be at most " ++ display_u64 max ++ str " chars after trimming; got "
      ++ display_u64 got
  end.

End TrimmedLenViolation.

(** ** Operator labels *)

Definition MAX_OPERATOR_LABEL_CHARS : N := 120.
Definition UNKNOWN_OPERATOR_LABEL : rstring := str "unknown".
Definition OPERATOR_LABEL_FIELD : rstring := str "model_id".

(** [U+2026], the marker of a truncated echo. *)
Definition ELLIPSIS : char := 8230%N.

Inductive TrustedModelIdError :=
| ModelIdBlank
| ModelIdTooLong (chars max : N).

Definition validate_trusted_model_id (value : rstring) : result rstring TrustedModelIdError :=
  let trimmed := trim value in
  if is_empty trimmed then Err ModelIdBlank
  else
    let chars := chars_count trimmed in
    if (MAX_OPERATOR_LABEL_CHARS <? chars)%N
    then Err (ModelIdTooLong chars MAX_OPERATOR_LABEL_CHARS)
    else Ok trimmed.

Record OperatorLabelConflict := mk_OperatorLabelConflict {
  conflict_trusted : rstring;
  conflict_supplied : rstring;
}.

Definition bounded_for_echo (supplied : rstring) : rstring :=
  if (chars_count supplied <=? MAX_OPERATOR_LABEL_CHARS)%N then supplied
  else take (N.to_nat MAX_OPERATOR_LABEL_CHARS) supplied ++ [ELLIPSIS].

(** [value.map(str::trim).filter(|value| !value.is_empty())], the [claimed]
    helper of both resolvers. *)
Definition claimed (value : option rstring) : option rstring :=
  let* value := trim <$> value in
  if is_empty value then None else Some value.

Definition resolve_operator_label (trusted supplied : option rstring) :
    result rstring OperatorLabelConflict :=
  let supplied := claimed supplied in
  match trim <$> trusted, supplied with
  | Some trusted, Some supplied =>
      if bool_decide (supplied = trusted) then Ok trusted
      else Err (mk_OperatorLabelConflict trusted (bounded_for_echo supplied))
  | Some trusted, None => Ok trusted
  | None, Some supplied => Ok supplied
  | None, None => Ok UNKNOWN_OPERATOR_LABEL
  end.

Inductive LabelRefusal :=
| LabelConflict (field : rstring) (conflict : OperatorLabelConflict)
| LabelLength (field : rstring) (violation : TrimmedLenViolation).

Definition validate_trimmed_len (field value : rstring) (max : N) : result rstring LabelRefusal :=
  map_err (LabelLength field) (check_trimmed_len value max).

Definition resolve_recorded_operator_label (trusted context_label explicit : option rstring) :
    result rstring LabelRefusal :=
  let explicit := claimed explicit in
  let? bound := map_err (LabelConflict OPERATOR_LABEL_FIELD)
                  (resolve_operator_label trusted explicit) in
  let raw := match trusted, explicit with
             | Some _, _ | None, Some _ => bound
             | None, None => default bound (claimed context_label)
             end in
  validate_trimmed_len OPERATOR_LABEL_FIELD raw MAX_OPERATOR_LABEL_CHARS.

(** ** Trimming *)

(** Neither end is whitespace. *)
Definition trimmed (s : rstring) : Prop :=
  (forall c, hd_error s = Some c -> is_whitespace c = false) /\
  (forall c, list.last s = Some c -> is_whitespace c = false).

Lemma trim_start_spec s :
  exists pre, s = pre ++ trim_start s /\ forallb is_whitespace pre = true /\
    (forall c, hd_error (trim_start s) = Some c -> is_whitespace c = false).
Proof.
  induction s as [|c s (pre & Hs & Hpre & Hh)]; [by exists []|]. cbn.
  destruct (is_whitespace c) eqn:Hc.
  - exists (c :: pre). cbn. rewrite Hc. split; [by f_equal|done].
  - exists []. split; [done|]. split; [done|]. by intros ? [= <-].
Qed.

Lemma trim_start_fix s :
  (forall c, hd_error s = Some c -> is_whitespace c = false) -> trim_start s = s.
Proof. destruct s as [|c s]; [done|]. intros H. cbn. by rewrite (H c eq_refl). Qed.

Lemma forallb_reverse {A} (f : A -> bool) l : forallb f (reverse l) = forallb f l.
Proof.
  induction l as [|x l IH]; [done|]. rewrite reverse_cons, forallb_app, IH. cbn.
  rewrite andb_true_r. apply andb_comm.
Qed.

Lemma head_reverse {A} (l : list A) : hd_error (reverse l) = list.last l.
Proof. by rewrite <-(reverse_involutive l) at 2; rewrite last_reverse. Qed.

(** [str::trim] removes whitespace at both ends and nothing else. *)
Lemma trim_spec s :
  exists pre suf, s = pre ++ trim s ++ suf /\
    forallb is_whitespace pre = true /\ forallb is_whitespace suf = true /\ trimmed (trim s).
Proof.
  unfold trim. destruct (trim_start_spec s) as (pre & Hs & Hpre & Hh).
  destruct (trim_start_spec (reverse (trim_start s))) as (suf & Hr & Hsuf & Hl).
  set (m := trim_start (reverse (trim_start s))) in *.
  assert (Hm : trim_start s = reverse m ++ reverse suf)
    by (by rewrite <-reverse_app, <-Hr, reverse_involutive).
  exists pre, (reverse suf). rewrite <-Hm, forallb_reverse. split; [done|]. split; [done|].
  split; [done|]. split; intros c Hc.
  - apply Hh. rewrite Hm. destruct (reverse m); [discriminate|exact Hc].
  - apply Hl. by rewrite last_reverse in Hc.
Qed.

Lemma trim_fix s : trimmed s -> trim s = s.
Proof.
  intros [Hh Hl]. unfold trim. rewrite (trim_start_fix s Hh), trim_start_fix;
    [apply reverse_involutive|]. intros c. rewrite head_reverse. apply Hl.
Qed.

Lemma trim_trimmed s : trimmed (trim s).
Proof. by destruct (trim_spec s) as (? & ? & _ & _ & _ & ?). Qed.

Lemma trim_idemp s : trim (trim s) = trim s.
Proof. apply trim_fix, trim_trimmed. Qed.

Lemma trim_blank s : trim s = [] <-> forallb is_whitespace s = true.
Proof.
  destruct (trim_spec s) as (pre & suf & Hs & Hpre & Hsuf & Hh & _). split.
  - intros E. rewrite Hs, E, !forallb_app, Hpre, Hsuf. done.
  - intros E. rewrite Hs, !forallb_app, !andb_true_iff in E. destruct E as (_ & E & _).
    destruct (trim s) as [|c t]; [done|]. cbn in E. by rewrite (Hh c eq_refl) in E.
Qed.

#[export] Hint Resolve trim_trimmed : proxiima.

(** ** Properties *)

Lemma check_trimmed_len_Ok value max v :
  check_trimmed_len value max = Ok v <-> v = trim value /\ v <> [] /\ (chars_count v <= max)%N.
Proof.
  unfold check_trimmed_len. destruct (is_empty (trim value)) eqn:E.
  - destruct (trim value); [|discriminate]. split; [discriminate|]. by intros (-> & ? & _).
  - destruct (N.ltb_spec max (chars_count (trim value))).
    + split; [discriminate|]. intros (-> & _ & ?). lia.
    + split; [intros [= <-]; split_and!; [done| |done]|intros (-> & _ & _); done].
      by destruct (trim value).
Qed.

(** The trimmed-length rule accepts exactly the values whose trimmed text is
    non-empty and at most [max] characters, and returns that text, which is the
    value without whitespace at its ends and nothing else removed; it reports
    blank exactly for all-whitespace values and otherwise the length sent. *)
Theorem check_trimmed_len_correct (value : rstring) (max : N) :
  (exists pre suf, value = pre ++ trim value ++ suf /\
     forallb is_whitespace pre = true /\ forallb is_whitespace suf = true /\ trimmed (trim value)) /\
  (forall v, check_trimmed_len value max = Ok v <->
     v = trim value /\ v <> [] /\ (chars_count v <= max)%N) /\
  (check_trimmed_len value max = Err Blank <-> forallb is_whitespace value = true) /\
  (forall m got, check_trimmed_len value max = Err (TooLong m got) <->
     m = max /\ got = chars_count (trim value) /\ (max < got)%N) /\
  (forall v, check_trimmed_len value max = Ok v -> check_trimmed_len v max = Ok v).
Proof.
  split; [apply trim_spec|]. split; [intros v; apply check_trimmed_len_Ok|].
  split; [|split].
  - rewrite <-trim_blank. unfold check_trimmed_len.
    destruct (trim value); cbn [is_empty]; [done|]. case_match; done.
  - intros m got. unfold check_trimmed_len. destruct (trim value) eqn:E; cbn [is_empty].
    + split; [discriminate|]. intros (_ & -> & H). destruct (N.nlt_0_r _ H).
    + destruct (N.ltb_spec max (chars_count (n :: l))); split; try discriminate.
      * by intros [= <- <-].
      * by intros (-> & -> & _).
      * intros (_ & -> & ?). lia.
  - intros v (-> & Hne & Hlen)%check_trimmed_len_Ok. apply check_trimmed_len_Ok.
    by rewrite trim_idemp.
Qed.

Lemma check_trimmed_len_correct_witness :
  check_trimmed_len (str "  goal ") 4 = Ok (str "goal") /\
  check_trimmed_len (str "goal") 4 = Ok (str "goal").
Proof.
  destruct (check_trimmed_len_correct (str "  goal ") 4) as (_ & Hok & _ & _ & Hid).
  assert (H : check_trimmed_len (str "  goal ") 4 = Ok (str "goal"))
    by (vm_compute; reflexivity).
  split; [exact H|]. exact (Hid _ H).
Defined.

Lemma claimed_Some value v :
  claimed value = Some v <-> exists raw, value = Some raw /\ v = trim raw /\ v <> [].
Proof.
  unfold claimed. destruct value as [raw|]; cbn; [|naive_solver].
  destruct (trim raw) as [|c t] eqn:E; cbn; split.
  - discriminate.
  - intros (r & [= <-] & -> & Hne). by rewrite E in Hne.
  - intros [= <-]. exists raw. by rewrite E.
  - intros (r & [= <-] & -> & _). by rewrite E.
Qed.

Lemma claimed_trim value v : claimed value = Some v -> trim v = v.
Proof. intros (raw & -> & -> & _)%claimed_Some. apply trim_idemp. Qed.

Lemma claimed_idemp value : claimed (claimed value) = claimed value.
Proof.
  destruct (claimed value) as [v|] eqn:E; [|done]. apply claimed_Some in E as (raw & -> & -> & Hne).
  unfold claimed. cbn. rewrite trim_idemp. by destruct (trim raw).
Qed.

Lemma bounded_for_echo_length s : (chars_count (bounded_for_echo s) <= MAX_OPERATOR_LABEL_CHARS + 1)%N.
Proof.
  unfold bounded_for_echo. destruct (N.leb_spec (chars_count s) MAX_OPERATOR_LABEL_CHARS); [lia|].
  unfold chars_count in *. rewrite length_app, length_take. cbn [length]. lia.
Qed.

(** A value an authenticator may bind: what [with_trusted_model_id] stores. *)
Definition bindable (id : rstring) : Prop := validate_trusted_model_id id = Ok id.

Lemma validate_trusted_model_id_Ok value id :
  validate_trusted_model_id value = Ok id <->
  id = trim value /\ id <> [] /\ (chars_count id <= MAX_OPERATOR_LABEL_CHARS)%N.
Proof.
  rewrite <-check_trimmed_len_Ok. unfold validate_trusted_model_id, check_trimmed_len.
  repeat case_match; naive_solver.
Qed.

Lemma bindable_of_validate value id : validate_trusted_model_id value = Ok id -> bindable id.
Proof.
  intros (-> & Hne & Hlen)%validate_trusted_model_id_Ok. apply validate_trusted_model_id_Ok.
  by rewrite trim_idemp.
Qed.

(** Which operator label a write records.  When the credential binds a model
    identity, the label is that identity, unless the caller claims a different
    non-blank one, which is refused with an echo of at most 121 characters; no
    payload can make a bound write carry another label.  Without a binding the
    caller's own claim wins, then the context label, then "unknown"; the
    recorded label is always non-blank, trimmed and within the bound. *)
Theorem recorded_operator_label_correct (trusted context_label explicit : option rstring)
    (Hbound : forall id, trusted = Some id -> bindable id) :
  (forall id, trusted = Some id ->
     resolve_recorded_operator_label trusted context_label explicit
     = match claimed explicit with
       | Some claim =>
           if bool_decide (claim = id) then Ok id
           else Err (LabelConflict OPERATOR_LABEL_FIELD
                       (mk_OperatorLabelConflict id (bounded_for_echo claim)))
       | None => Ok id
       end) /\
  (trusted = None ->
     resolve_recorded_operator_label trusted context_label explicit
     = validate_trimmed_len OPERATOR_LABEL_FIELD
         (default (default UNKNOWN_OPERATOR_LABEL (claimed context_label)) (claimed explicit))
         MAX_OPERATOR_LABEL_CHARS) /\
  (forall label, resolve_recorded_operator_label trusted context_label explicit = Ok label ->
     bindable label) /\
  (forall field c, resolve_recorded_operator_label trusted context_label explicit
                   = Err (LabelConflict field c) ->
     (chars_count (conflict_supplied c) <= MAX_OPERATOR_LABEL_CHARS + 1)%N).
Proof.
  assert (Hval : forall id, bindable id ->
    validate_trimmed_len OPERATOR_LABEL_FIELD id MAX_OPERATOR_LABEL_CHARS = Ok id).
  { intros id Hid%validate_trusted_model_id_Ok. unfold validate_trimmed_len.
    by rewrite (proj2 (check_trimmed_len_Ok id _ id) Hid). }
  assert (Htrim : forall id, bindable id -> trim id = id)
    by (intros id (E & _)%validate_trusted_model_id_Ok; done).
  unfold resolve_recorded_operator_label, resolve_operator_label. rewrite claimed_idemp.
  split; [|split; [|split]].
  - intros id ->. specialize (Hbound id eq_refl). cbn. rewrite (Htrim id Hbound).
    destruct (claimed explicit); [case_bool_decide|]; cbn; rewrite ?Hval; done.
  - intros ->. cbn. destruct (claimed explicit); cbn; [done|]. by destruct (claimed context_label).
  - intros label. unfold validate_trimmed_len.
    destruct (match trim <$> trusted with Some _ => _ | None => _ end); [|discriminate]. cbn.
    destruct (check_trimmed_len _ _) eqn:E; [|discriminate]. intros [= ->].
    apply check_trimmed_len_Ok in E as (-> & Hne & Hlen). apply validate_trusted_model_id_Ok.
    by rewrite trim_idemp.
  - intros field c. unfold validate_trimmed_len.
    destruct (match trim <$> trusted with Some _ => _ | None => _ end) as [|c'] eqn:E; cbn.
    + by destruct (check_trimmed_len _ _).
    + intros [= _ <-]. destruct (trim <$> trusted), (claimed explicit); simplify_eq;
        case_bool_decide; simplify_eq. apply bounded_for_echo_length.
Qed.

Lemma recorded_operator_label_correct_witness :
  resolve_recorded_operator_label (Some (str "runner-7")) (Some (str "edge")) (Some (str "  "))
  = Ok (str "runner-7").
Proof.
  destruct (recorded_operator_label_correct (Some (str "runner-7")) (Some (str "edge")) (Some (str "  ")))
    as (H & _).
  - intros id [= <-]. vm_compute. reflexivity.
  - rewrite (H _ eq_refl). vm_compute. reflexivity.
Defined.
