(* ===== verification/Access.v ===== *)
(** * Owner roles

    [crates/core/src/access.rs]: the read and write ceilings of a role over
    Fact < Abstraction < Perspective < Goal, the role lattice, the role map of
    one subject, and the stored membership relations. *)

From S2P Require Import Prelude Ids.

(** ** Kinds and ceilings *)

Inductive AccessKind := KFact | KAbstraction | KPerspective | KGoal.

Inductive AccessCeiling := CNone | CFact | CAbstraction | CPerspective | CGoal.

#[export] Instance AccessKind_eq_dec : EqDecision AccessKind.
Proof. solve_decision. Defined.
#[export] Instance AccessCeiling_eq_dec : EqDecision AccessCeiling.
Proof. solve_decision. Defined.

Module AccessKind.

Definition ALL : list AccessKind := [KFact; KAbstraction; KPerspective; KGoal].

Definition rank (k : AccessKind) : nat :=
  match k with KFact => 1 | KAbstraction => 2 | KPerspective => 3 | KGoal => 4 end.

End AccessKind.

Module AccessCeiling.

Definition rank (c : AccessCeiling) : nat :=
  match c with CNone => 0 | CFact => 1 | CAbstraction => 2 | CPerspective => 3 | CGoal => 4 end.

Definition allows (c : AccessCeiling) (kind : AccessKind) : bool :=
  AccessKind.rank kind <=? rank c.

Definition top (c : AccessCeiling) : option AccessKind :=
  match c with
  | CNone => None
  | CFact => Some KFact
  | CAbstraction => Some KAbstraction
  | CPerspective => Some KPerspective
  | CGoal => Some KGoal
  end.

End AccessCeiling.

(** ** Roles *)

Inductive AccessError :=
| WriteExceedsRead
| DerivedOwnerOverride
| Resolution (reason : rstring)
| SubjectIsGroup (subject : UserId).

Record Role := mk_Role {
  role_read : AccessCeiling;
  role_write : AccessCeiling;
  role_manage : bool;
}.

#[export] Instance Role_eq_dec : EqDecision Role.
Proof. solve_decision. Defined.

Module Role.

Definition new (read write : AccessCeiling) (manage : bool) : result Role AccessError :=
  if AccessCeiling.rank read <? AccessCeiling.rank write then Err WriteExceedsRead
  else Ok (mk_Role read write manage).

Definition personal : Role := mk_Role CGoal CGoal false.
Definition viewer : Role := mk_Role CGoal CNone false.
Definition ingest : Role := mk_Role CFact CFact false.
Definition editor : Role := mk_Role CGoal CPerspective false.
Definition admin : Role := mk_Role CGoal CGoal true.

Definition may_read (r : Role) (kind : AccessKind) : bool := AccessCeiling.allows (role_read r) kind.
Definition may_write (r : Role) (kind : AccessKind) : bool := AccessCeiling.allows (role_write r) kind.
Definition manages (r : Role) : bool := role_manage r.
Definition administers (r : Role) : bool := may_write r KGoal.
Definition read_ceiling (r : Role) : AccessCeiling := role_read r.
Definition write_ceiling (r : Role) : AccessCeiling := role_write r.

Definition meet (self other : Role) : Role :=
  let read := if AccessCeiling.rank (role_read self) <=? AccessCeiling.rank (role_read other)
              then role_read self else role_read other in
  let write := if AccessCeiling.rank (role_write self) <=? AccessCeiling.rank (role_write other)
               then role_write self else role_write other in
  mk_Role read write (role_manage self && role_manage other).

Definition join (self other : Role) : Role :=
  let read := if AccessCeiling.rank (role_read other) <=? AccessCeiling.rank (role_read self)
              then role_read self else role_read other in
  let write := if AccessCeiling.rank (role_write other) <=? AccessCeiling.rank (role_write self)
               then role_write self else role_write other in
  mk_Role read write (role_manage self || role_manage other).

Definition dominates (self required : Role) : bool :=
  (AccessCeiling.rank (role_read (meet self required)) =? AccessCeiling.rank (role_read required))
  && (AccessCeiling.rank (role_write (meet self required)) =? AccessCeiling.rank (role_write required))
  && (negb (role_manage required) || role_manage self).

End Role.

(** ** The role map of one subject

    The [HashMap] is a finite map; iteration order is unspecified in Rust, and
    here the order of [map_to_list], which [ordered] sorts away. *)

Record OwnerRoles := mk_OwnerRoles {
  roles_subject : UserId;
  roles_map : gmap OwnerId Role;
}.

Module OwnerRoles.

Definition without_access (subject : UserId) : OwnerRoles := mk_OwnerRoles subject ∅.

(** The loop of [for_subject] over the resolver's pairs. *)
Fixpoint fold_group_roles (own : OwnerId) (roles : gmap OwnerId Role)
    (group_roles : list (OwnerId * Role)) : result (gmap OwnerId Role) AccessError :=
  match group_roles with
  | [] => Ok roles
  | (owner, role) :: rest =>
      if bool_decide (owner = own) then Err DerivedOwnerOverride
      else
        let entry := match roles !! owner with
                     | Some held => Role.join held role
                     | None => role
                     end in
        fold_group_roles own (<[owner := entry]> roles) rest
  end.

Definition for_subject (subject : UserId) (group_roles : list (OwnerId * Role)) :
    result OwnerRoles AccessError :=
  let own := OwnerId.from_user subject in
  let? roles := fold_group_roles own {[own := Role.personal]} group_roles in
  Ok (mk_OwnerRoles subject roles).

Definition with_group_role (self : OwnerRoles) (group : GroupId) (role : Role) : OwnerRoles :=
  let owner := OwnerId.from_group group in
  if bool_decide (owner = OwnerId.from_user (roles_subject self)) then self
  else mk_OwnerRoles (roles_subject self) (<[owner := role]> (roles_map self)).

Definition scoped_to (subject : UserId) (owner : OwnerId) (role : Role) : OwnerRoles :=
  mk_OwnerRoles subject {[owner := role]}.

Definition empty_for_subject (subject : UserId) : OwnerRoles :=
  mk_OwnerRoles subject {[OwnerId.from_user subject := Role.personal]}.

Definition is_own (self : OwnerRoles) (owner : OwnerId) : bool :=
  bool_decide (owner = OwnerId.from_user (roles_subject self)).

Definition role_for (self : OwnerRoles) (owner : OwnerId) : option Role := roles_map self !! owner.

Definition may_read (self : OwnerRoles) (owner : OwnerId) (kind : AccessKind) : bool :=
  is_some_and (role_for self owner) (fun role => Role.may_read role kind).

Definition may_write (self : OwnerRoles) (owner : OwnerId) (kind : AccessKind) : bool :=
  is_some_and (role_for self owner) (fun role => Role.may_write role kind).

Definition may_manage (self : OwnerRoles) (owner : OwnerId) : bool :=
  negb (is_own self owner) && is_some_and (role_for self owner) Role.manages.

(** The sort key [(!is_own, owner)]: [false] before [true], then the id. *)
Definition key_leb (self : OwnerRoles) (a b : OwnerId) : bool :=
  match is_own self a, is_own self b with
  | true, false => true
  | false, true => false
  | _, _ => (OwnerId_0 a <=? OwnerId_0 b)%N
  end.

Definition ordered (self : OwnerRoles) (keep : Role -> bool) : list OwnerId :=
  sort_by (key_leb self)
    (omap (fun '(owner, role) => if keep role then Some owner else None)
       (map_to_list (roles_map self))).

Definition readable_owners (self : OwnerRoles) (kind : AccessKind) : list OwnerId :=
  ordered self (fun role => Role.may_read role kind).

Definition writable_owners (self : OwnerRoles) (kind : AccessKind) : list OwnerId :=
  ordered self (fun role => Role.may_write role kind).

End OwnerRoles.

(** ** Forwarding ceilings and stored relations *)

Inductive ForwarderRole := FViewer | FIngest | FEditor.

Module ForwarderRole.

Definition role (f : ForwarderRole) : Role :=
  match f with FViewer => Role.viewer | FIngest => Role.ingest | FEditor => Role.editor end.

End ForwarderRole.

Inductive Relation := RAdmin | REditor | RViewer | RIngest.

Inductive RelationParseError := relation_parse_error.

Module Relation.

Definition role (r : Relation) : Role :=
  match r with
  | RAdmin => Role.admin
  | REditor => Role.editor
  | RViewer => Role.viewer
  | RIngest => Role.ingest
  end.

Definition as_str (r : Relation) : rstring :=
  match r with
  | RAdmin => str "admin"
  | REditor => str "editor"
  | RViewer => str "viewer"
  | RIngest => str "ingest"
  end.

Definition from_str (raw : rstring) : result Relation RelationParseError :=
  let raw := to_ascii_lowercase raw in
  if bool_decide (raw = str "admin") then Ok RAdmin
  else if bool_decide (raw = str "editor") then Ok REditor
  else if bool_decide (raw = str "viewer") then Ok RViewer
  else if bool_decide (raw = str "ingest") then Ok RIngest
  else Err relation_parse_error.

End Relation.

(** The port through which the host answers role questions: code outside this
    repository's core, so a record of functions. *)
Record OwnerAccessPort := mk_OwnerAccessPort {
  resolve_roles_for_subject : UserId -> result OwnerRoles AccessError;
  is_forwarder : UserId -> result bool AccessError;
  resolve_forwarded_owner_role : UserId -> OwnerId -> result (option ForwarderRole) AccessError;
  resolve_group_role : UserId -> GroupId -> result (option Role) AccessError;
}.

(** The trait's default bodies of the three optional methods. *)
Definition owner_access_port_default (resolve : UserId -> result OwnerRoles AccessError) :
    OwnerAccessPort :=
  {| resolve_roles_for_subject := resolve;
     is_forwarder := fun _ => Ok false;
     resolve_forwarded_owner_role := fun _ _ => Ok None;
     resolve_group_role := fun subject group =>
       let? roles := resolve subject in
       Ok (OwnerRoles.role_for roles (OwnerId.from_group group)) |}.

(** ** The role lattice *)

(** The type invariant of [Role]: the write ceiling is never above the read
    ceiling.  The field is private in Rust and every constructor keeps it. *)
Definition role_wf (r : Role) : Prop :=
  AccessCeiling.rank (role_write r) <= AccessCeiling.rank (role_read r).

#[export] Instance role_wf_dec r : Decision (role_wf r).
Proof. unfold role_wf. apply _. Defined.

(** Ceilings are their ranks. *)
Lemma ceiling_rank_inj a b : AccessCeiling.rank a = AccessCeiling.rank b -> a = b.
Proof. by destruct a, b. Qed.

(** A ceiling is at most another exactly when it allows at most its kinds. *)
Lemma ceiling_allows_mono a b :
  AccessCeiling.rank a <= AccessCeiling.rank b <->
  (forall k, AccessCeiling.allows a k = true -> AccessCeiling.allows b k = true).
Proof.
  split.
  - intros Hle k. unfold AccessCeiling.allows. rewrite !Nat.leb_le. lia.
  - intros H. destruct a, b; cbn; try lia;
      by (discriminate (H KFact eq_refl) || discriminate (H KAbstraction eq_refl)
          || discriminate (H KPerspective eq_refl) || discriminate (H KGoal eq_refl)).
Qed.

Lemma rank_min a b :
  AccessCeiling.rank (if AccessCeiling.rank a <=? AccessCeiling.rank b then a else b) =
  Nat.min (AccessCeiling.rank a) (AccessCeiling.rank b).
Proof. destruct (Nat.leb_spec (AccessCeiling.rank a) (AccessCeiling.rank b)); lia. Qed.

Lemma rank_max a b :
  AccessCeiling.rank (if AccessCeiling.rank b <=? AccessCeiling.rank a then a else b) =
  Nat.max (AccessCeiling.rank a) (AccessCeiling.rank b).
Proof. destruct (Nat.leb_spec (AccessCeiling.rank b) (AccessCeiling.rank a)); lia. Qed.

(** [dominates] is the pointwise order of the two ceilings and of management. *)
Lemma dominates_iff a b :
  Role.dominates a b = true <->
  AccessCeiling.rank (role_read b) <= AccessCeiling.rank (role_read a) /\
  AccessCeiling.rank (role_write b) <= AccessCeiling.rank (role_write a) /\
  (role_manage b = true -> role_manage a = true).
Proof.
  unfold Role.dominates, Role.meet. cbn [role_read role_write role_manage].
  rewrite !rank_min, !andb_true_iff, !Nat.eqb_eq.
  destruct (role_manage a), (role_manage b); cbn; intuition (try lia; try discriminate).
Qed.

(** Roles are equal when each dominates the other. *)
Lemma dominates_antisym a b :
  Role.dominates a b = true -> Role.dominates b a = true -> a = b.
Proof.
  rewrite !dominates_iff. intros (Hr & Hw & Hm) (Hr' & Hw' & Hm').
  destruct a as [ar aw am], b as [br bw bm]; cbn in *.
  rewrite (ceiling_rank_inj ar br) by lia. rewrite (ceiling_rank_inj aw bw) by lia.
  destruct am, bm; intuition congruence.
Qed.

Lemma dominates_refl a : Role.dominates a a = true.
Proof. rewrite dominates_iff. intuition lia. Qed.

Lemma dominates_trans a b c :
  Role.dominates a b = true -> Role.dominates b c = true -> Role.dominates a c = true.
Proof. rewrite !dominates_iff. intuition lia. Qed.

Lemma dominates_meet a b c :
  Role.dominates (Role.meet a b) c = true <->
  Role.dominates a c = true /\ Role.dominates b c = true.
Proof.
  rewrite !dominates_iff. unfold Role.meet; cbn [role_read role_write role_manage].
  rewrite !rank_min, andb_true_iff. intuition lia.
Qed.

Lemma join_dominated a b c :
  Role.dominates c (Role.join a b) = true <->
  Role.dominates c a = true /\ Role.dominates c b = true.
Proof.
  rewrite !dominates_iff. unfold Role.join; cbn [role_read role_write role_manage].
  rewrite !rank_max, orb_true_iff. intuition lia.
Qed.

#[export] Hint Resolve dominates_refl dominates_trans : proxiima.

(** A law of the lattice follows from its universal property. *)
Lemma role_eq_below a b :
  (forall c, Role.dominates c a = true <-> Role.dominates c b = true) -> a = b.
Proof. intros H. apply dominates_antisym; apply H, dominates_refl. Qed.

Lemma join_comm a b : Role.join a b = Role.join b a.
Proof. apply role_eq_below. intros c. rewrite !join_dominated. tauto. Qed.

Lemma join_assoc a b c : Role.join a (Role.join b c) = Role.join (Role.join a b) c.
Proof. apply role_eq_below. intros d. rewrite !join_dominated. tauto. Qed.

Lemma meet_wf a b : role_wf a -> role_wf b -> role_wf (Role.meet a b).
Proof. unfold role_wf, Role.meet; cbn. rewrite !rank_min. lia. Qed.

Lemma join_wf a b : role_wf a -> role_wf b -> role_wf (Role.join a b).
Proof. unfold role_wf, Role.join; cbn. rewrite !rank_max. lia. Qed.

Lemma relation_role_wf r : role_wf (Relation.role r).
Proof. destruct r; cbv; lia. Qed.

Lemma forwarder_role_wf f : role_wf (ForwarderRole.role f).
Proof. destruct f; cbv; lia. Qed.

#[export] Hint Resolve meet_wf join_wf relation_role_wf forwarder_role_wf : proxiima.

(** Roles are ordered by what they permit: a role dominates another exactly
    when it reads and writes every kind the other does and manages if the other
    manages.  For that order [join] is the least upper bound and [meet] the
    greatest lower bound, so a member of several groups holds exactly the union
    and a capped grant exactly the intersection. *)
Theorem role_lattice (a b : Role) :
  (Role.dominates a b = true <->
     (forall k, Role.may_read b k = true -> Role.may_read a k = true) /\
     (forall k, Role.may_write b k = true -> Role.may_write a k = true) /\
     (Role.manages b = true -> Role.manages a = true)) /\
  (forall c, Role.dominates c (Role.join a b) = true <->
     Role.dominates c a = true /\ Role.dominates c b = true) /\
  (forall c, Role.dominates (Role.meet a b) c = true <->
     Role.dominates a c = true /\ Role.dominates b c = true).
Proof.
  split; [| split; intros c; [apply join_dominated | apply dominates_meet]].
  rewrite dominates_iff, !ceiling_allows_mono. reflexivity.
Qed.

(** The type invariant of [Role]: [Role::new] succeeds exactly when the write
    ceiling is not above the read ceiling, every preset satisfies that, [meet]
    and [join] keep it, and it makes write access imply read access. *)
Theorem role_type_invariant :
  (forall read write manage role,
     Role.new read write manage = Ok role <->
     role = mk_Role read write manage /\ role_wf role) /\
  Forall role_wf [Role.personal; Role.viewer; Role.ingest; Role.editor; Role.admin] /\
  (forall a b, role_wf a -> role_wf b -> role_wf (Role.meet a b) /\ role_wf (Role.join a b)) /\
  (forall a k, role_wf a -> Role.may_write a k = true -> Role.may_read a k = true).
Proof.
  repeat split.
  - unfold Role.new in *. by case_match; simplify_eq.
  - unfold Role.new in *. case_match; simplify_eq.
    unfold role_wf; cbn. by apply Nat.ltb_ge.
  - intros [-> Hwf]. unfold Role.new, role_wf in *. cbn [role_read role_write] in Hwf.
    destruct (Nat.ltb_spec (AccessCeiling.rank read) (AccessCeiling.rank write)); [lia | done].
  - repeat constructor; cbv; lia.
  - by apply meet_wf.
  - by apply join_wf.
  - intros a k Hwf. by apply ceiling_allows_mono.
Qed.

(** ** Resolution of a subject's roles *)

(** What the resolver's pairs say about one owner: [r] is the least role
    holding every role named for it. *)
Definition joins_all (pairs : list (OwnerId * Role)) (owner : OwnerId) (r : Role) : Prop :=
  forall c, Role.dominates c r = true <->
    (forall role, (owner, role) ∈ pairs -> Role.dominates c role = true).

(** The loop invariant: an owner's entry is the join of the entry it had and of
    the roles still to come. *)
Lemma fold_group_roles_lookup own pairs m m' owner :
  OwnerRoles.fold_group_roles own m pairs = Ok m' ->
  owner <> own ->
  match m' !! owner with
  | None => m !! owner = None /\ owner ∉ pairs.*1
  | Some r =>
      (is_Some (m !! owner) \/ owner ∈ pairs.*1) /\
      (forall c, Role.dominates c r = true <->
         (forall h, m !! owner = Some h -> Role.dominates c h = true) /\
         (forall role, (owner, role) ∈ pairs -> Role.dominates c role = true))
  end.
Proof.
  intros Hrun Hne. revert m Hrun.
  induction pairs as [| [o r] rest IH]; intros m Hrun; cbn in Hrun.
  - injection Hrun as ->. destruct (m' !! owner) as [r |]; cbn.
    + split; [by left; eexists |]. intros c. split.
      * intros Hc. split; [congruence |]. by intros ? ?%not_elem_of_nil.
      * intros [Hh _]. by apply Hh.
    + split; [done | apply not_elem_of_nil].
  - destruct (bool_decide (o = own)); [discriminate |].
    specialize (IH _ Hrun). cbn [fmap list_fmap fst].
    destruct (decide (o = owner)) as [-> | Hoo].
    + rewrite lookup_insert_eq in IH. destruct (m' !! owner) as [r' |]; [| by destruct IH].
      destruct IH as [_ IH]. split; [by right; left |]. intros c. rewrite IH.
      split; intros [H1 H2].
      * specialize (H1 _ eq_refl). destruct (m !! owner) as [h |] eqn:Eh.
        -- apply join_dominated in H1 as [Hh Hr].
           split; [congruence |]. intros role [[= <-] | Hin]%elem_of_cons; auto.
        -- split; [done |]. intros role [[= <-] | Hin]%elem_of_cons; auto.
      * split; [| by intros role Hin; apply H2; right].
        intros h [= <-]. specialize (H2 r (list_elem_of_here _ _)).
        destruct (m !! owner) as [h |] eqn:Eh; [| done].
        apply join_dominated. split; [by apply H1 | done].
    + rewrite lookup_insert_ne in IH by done. destruct (m' !! owner) as [r' |].
      * destruct IH as [Hsome IH]. split; [rewrite elem_of_cons; tauto |].
        intros c. rewrite IH. split; intros [H1 H2]; split; auto.
        -- intros role [[= -> ->] | Hin]%elem_of_cons; [done | auto].
        -- intros role Hin. apply H2. by right.
      * destruct IH as [Hnone Hnotin]. split; [done |]. rewrite not_elem_of_cons. auto.
Qed.

Lemma fold_group_roles_own own pairs m m' :
  OwnerRoles.fold_group_roles own m pairs = Ok m' ->
  m' !! own = m !! own /\ own ∉ pairs.*1.
Proof.
  revert m. induction pairs as [| [o r] rest IH]; intros m Hrun; cbn in Hrun.
  - injection Hrun as ->. split; [done | apply not_elem_of_nil].
  - destruct (bool_decide_reflect (o = own)) as [| Hne]; [discriminate |].
    apply IH in Hrun as [-> Hnotin]. rewrite lookup_insert_ne by done.
    split; [done |]. cbn. rewrite not_elem_of_cons. auto.
Qed.

Lemma fold_group_roles_err own pairs m e :
  OwnerRoles.fold_group_roles own m pairs = Err e ->
  e = DerivedOwnerOverride /\ own ∈ pairs.*1.
Proof.
  revert m. induction pairs as [| [o r] rest IH]; intros m Hrun; cbn in Hrun; [discriminate |].
  destruct (bool_decide_reflect (o = own)) as [-> | Hne].
  - injection Hrun as <-. split; [done | left].
  - apply IH in Hrun as [-> Hin]. split; [done | by right].
Qed.

(** The one role rule.  [OwnerRoles::for_subject] refuses a resolver answer
    exactly when it names the subject's own id.  Otherwise the subject holds the
    personal role in its own id, no role in an owner the resolver does not name,
    and in any other owner the join of every role the resolver named for it. *)
Theorem for_subject_correct (subject : UserId) (group_roles : list (OwnerId * Role)) :
  let own := OwnerId.from_user subject in
  match OwnerRoles.for_subject subject group_roles with
  | Err e => e = DerivedOwnerOverride /\ own ∈ group_roles.*1
  | Ok roles =>
      (own ∉ group_roles.*1) /\
      roles_subject roles = subject /\
      OwnerRoles.role_for roles own = Some Role.personal /\
      (forall owner, owner <> own ->
         match OwnerRoles.role_for roles owner with
         | None => owner ∉ group_roles.*1
         | Some r => owner ∈ group_roles.*1 /\ joins_all group_roles owner r
         end)
  end.
Proof.
  cbn zeta. unfold OwnerRoles.for_subject.
  destruct (OwnerRoles.fold_group_roles _ _ _) as [m | e] eqn:Hrun;
    [| by apply fold_group_roles_err in Hrun].
  pose proof (fold_group_roles_own _ _ _ _ Hrun) as [Hown Hnotin].
  unfold OwnerRoles.role_for; cbn [roles_subject roles_map].
  rewrite Hown, lookup_singleton_eq. repeat split; auto.
  intros owner Hne. pose proof (fold_group_roles_lookup _ _ _ _ owner Hrun Hne) as Hl.
  rewrite lookup_singleton_ne in Hl by done.
  destruct (m !! owner) as [r |]; [| tauto].
  destruct Hl as [[[? ?] | Hin] Hl]; [discriminate |]. split; [done |].
  intros c. rewrite Hl. split; [tauto | split; [discriminate | done]].
Qed.

(** Two maps the loop builds from permuted answers agree everywhere. *)
Lemma fold_group_roles_perm own m l1 l2 m1 m2 :
  l1 ≡ₚ l2 ->
  OwnerRoles.fold_group_roles own m l1 = Ok m1 ->
  OwnerRoles.fold_group_roles own m l2 = Ok m2 -> m1 = m2.
Proof.
  intros Hp H1 H2. apply map_eq. intros o. destruct (decide (o = own)) as [-> | Hne].
  - apply fold_group_roles_own in H1 as [-> _], H2 as [-> _]. done.
  - pose proof (fold_group_roles_lookup _ _ _ _ o H1 Hne) as G1.
    pose proof (fold_group_roles_lookup _ _ _ _ o H2 Hne) as G2.
    destruct (m1 !! o) as [r1 |], (m2 !! o) as [r2 |]; try done.
    + f_equal. apply role_eq_below. intros c.
      rewrite (proj2 G1), (proj2 G2). by setoid_rewrite Hp.
    + destruct G1 as [[[? ?] | Hin] _], G2 as [? Hno]; [congruence |].
      by rewrite Hp in Hin.
    + destruct G2 as [[[? ?] | Hin] _], G1 as [? Hno]; [congruence |].
      by rewrite <- Hp in Hin.
Qed.

(** The answer does not depend on the order in which the resolver yields its
    relations: permuted answers give the same role map, or the same refusal. *)
Theorem for_subject_order_independent (subject : UserId) (l1 l2 : list (OwnerId * Role))
    (Hperm : l1 ≡ₚ l2) :
  OwnerRoles.for_subject subject l1 = OwnerRoles.for_subject subject l2.
Proof.
  unfold OwnerRoles.for_subject. cbn zeta.
  destruct (OwnerRoles.fold_group_roles _ _ l1) as [m1 | e1] eqn:H1,
    (OwnerRoles.fold_group_roles _ _ l2) as [m2 | e2] eqn:H2.
  - by rewrite (fold_group_roles_perm _ _ _ _ _ _ Hperm H1 H2).
  - apply fold_group_roles_own in H1 as [_ H1]. apply fold_group_roles_err in H2 as [_ H2].
    by rewrite Hperm in H1.
  - apply fold_group_roles_own in H2 as [_ H2]. apply fold_group_roles_err in H1 as [_ H1].
    by rewrite Hperm in H1.
  - apply fold_group_roles_err in H1 as [-> _], H2 as [-> _]. done.
Qed.

Lemma for_subject_order_independent_witness :
  OwnerRoles.for_subject (mk_UserId 1)
    [(mk_OwnerId 2, Role.viewer); (mk_OwnerId 2, Role.ingest); (mk_OwnerId 3, Role.admin)] =
  OwnerRoles.for_subject (mk_UserId 1)
    [(mk_OwnerId 2, Role.ingest); (mk_OwnerId 2, Role.viewer); (mk_OwnerId 3, Role.admin)].
Proof. apply for_subject_order_independent. apply Permutation_swap. Defined.

(** ** Listing order *)

Lemma key_leb_total self a b :
  OwnerRoles.key_leb self a b = true \/ OwnerRoles.key_leb self b a = true.
Proof.
  unfold OwnerRoles.key_leb.
  destruct (OwnerRoles.is_own self a), (OwnerRoles.is_own self b); auto;
    rewrite !N.leb_le; lia.
Qed.

Lemma key_leb_trans self a b c :
  OwnerRoles.key_leb self a b = true -> OwnerRoles.key_leb self b c = true ->
  OwnerRoles.key_leb self a c = true.
Proof.
  unfold OwnerRoles.key_leb.
  destruct (OwnerRoles.is_own self a), (OwnerRoles.is_own self b), (OwnerRoles.is_own self c);
    try discriminate; auto; rewrite !N.leb_le; lia.
Qed.

Lemma ordered_elem_of self keep owner :
  owner ∈ OwnerRoles.ordered self keep <->
  is_some_and (OwnerRoles.role_for self owner) keep = true.
Proof.
  unfold OwnerRoles.ordered, OwnerRoles.role_for. rewrite sort_by_elem_of, list_elem_of_omap.
  split.
  - intros ([o r] & Hin & Hk). apply elem_of_map_to_list in Hin.
    destruct (keep r) eqn:Ek; simplify_eq. by rewrite Hin.
  - intros H. destruct (roles_map self !! owner) as [r |] eqn:E; [| discriminate].
    exists (owner, r). split; [by apply elem_of_map_to_list |]. cbn in H. by rewrite H.
Qed.

Lemma omap_fst_NoDup (f : Role -> bool) (l : list (OwnerId * Role)) :
  NoDup l.*1 -> NoDup (omap (fun '(o, r) => if f r then Some o else None) l).
Proof.
  induction l as [| [o r] l IH]; cbn; [constructor |].
  intros [Hnotin Hnd]%list.NoDup_cons. destruct (f r); [| auto].
  constructor; [| auto]. intros ([o' r'] & Hin & Ho)%list_elem_of_omap.
  destruct (f r'); simplify_eq. apply Hnotin, list_elem_of_fmap. by exists (o, r').
Qed.

Lemma ordered_NoDup self keep : NoDup (OwnerRoles.ordered self keep).
Proof. unfold OwnerRoles.ordered. rewrite sort_by_NoDup. apply omap_fst_NoDup, NoDup_fst_map_to_list. Qed.

Lemma ordered_sorted self keep :
  StronglySorted (fun a b => OwnerRoles.key_leb self a b = true) (OwnerRoles.ordered self keep).
Proof. apply sort_by_StronglySorted; [apply key_leb_total | apply key_leb_trans]. Qed.

(** [readable_owners] and [writable_owners] list each owner the subject may
    act on exactly once and no other, the subject's own id first when it is
    listed and the others by increasing id, whatever order the map iterates in. *)
Theorem listed_owners_correct (self : OwnerRoles) (kind : AccessKind) :
  (forall owner, owner ∈ OwnerRoles.readable_owners self kind <->
     OwnerRoles.may_read self owner kind = true) /\
  (forall owner, owner ∈ OwnerRoles.writable_owners self kind <->
     OwnerRoles.may_write self owner kind = true) /\
  (forall keep,
     NoDup (OwnerRoles.ordered self keep) /\
     StronglySorted (fun a b => OwnerRoles.is_own self a = true \/
                       (OwnerRoles.is_own self b = false /\ (OwnerId_0 a < OwnerId_0 b)%N))
       (OwnerRoles.ordered self keep)).
Proof.
  split; [intros; apply ordered_elem_of |]. split; [intros; apply ordered_elem_of |].
  intros keep. pose proof (ordered_NoDup self keep) as Hnd. split; [done |].
  pose proof (ordered_sorted self keep) as Hs. revert Hnd Hs.
  generalize (OwnerRoles.ordered self keep) as l. induction l as [| x l IH]; [constructor |].
  intros [Hx Hnd]%list.NoDup_cons Hs. apply StronglySorted_inv in Hs as [Hs Hall].
  constructor; [auto |]. rewrite Forall_forall in Hall |- *. intros y Hy.
  specialize (Hall y Hy). unfold OwnerRoles.key_leb in Hall.
  destruct (OwnerRoles.is_own self x) eqn:Ex; [by left | right].
  destruct (OwnerRoles.is_own self y); [discriminate |]. split; [done |].
  apply N.leb_le in Hall. destruct (N.eq_dec (OwnerId_0 x) (OwnerId_0 y)) as [E |]; [| lia].
  exfalso. apply Hx. replace x with y; [by apply list_elem_of_In |]. destruct x, y; cbn in E; congruence.
Qed.

(** ** Relations *)

(** Membership relations print to their stored lowercase label and parse
    back from it; parsing accepts exactly the spellings that fold to a label. *)
Theorem relation_from_str_correct (raw : rstring) (r : Relation) :
  (Relation.from_str raw = Ok r <-> to_ascii_lowercase raw = Relation.as_str r) /\
  Relation.from_str (Relation.as_str r) = Ok r.
Proof.
  split; [| by destruct r].
  unfold Relation.from_str. split.
  - intros H. repeat case_bool_decide; simplify_eq; done.
  - intros ->. by destruct r.
Qed.
