(* ===== verification/ScopeKey.v ===== *)
(** * Typed tool-scope keys

    [crates/core/src/authz/scope_key.rs] with [provider_safe_tool_name] of
    [crates/core/src/mcp/names.rs]: the three key kinds, their one parser, their
    one printer and the order of their canonical spellings. *)

From S2P Require Import Prelude.

(** ** Provider-safe names *)

(** The character test of the loop in [provider_safe_tool_name]. *)
Definition safe_char (ch : char) : bool :=
  is_ascii_alphanumeric ch || (ch =? chr "_")%N || (ch =? chr "-")%N || (ch =? chr ".")%N.

(** The loop: [previous_dot] is the state it carries; the result is what it
    pushes for the rest of the text. *)
Fixpoint provider_safe_loop (previous_dot : bool) (canonical : rstring) : rstring :=
  match canonical with
  | [] => []
  | ch :: rest =>
      let mapped := if safe_char ch then ch else chr "_" in
      if (mapped =? chr ".")%N then
        if previous_dot then chr "_" :: provider_safe_loop false rest
        else mapped :: provider_safe_loop true rest
      else mapped :: provider_safe_loop false rest
  end.

Definition provider_safe_tool_name (canonical : rstring) : rstring :=
  provider_safe_loop false canonical.

Definition tool_name_matches (canonical request_name : rstring) : bool :=
  bool_decide (canonical = request_name)
  || bool_decide (provider_safe_tool_name canonical = request_name).

(** ** Keys *)

Inductive ScopeKeyPart := PTool | PAction | PResource.

Inductive ScopeKeyError :=
| Empty (part : ScopeKeyPart)
| Delimiter (part : ScopeKeyPart)
| NotProviderSafe (part : ScopeKeyPart)
| TooManyParts
| ReservedToolName.

Definition RESOURCE_PREFIX : rstring := str "resource".
Definition SEPARATOR : char := chr ":".

Definition validate_name (part : ScopeKeyPart) (text : rstring) : result unit ScopeKeyError :=
  if is_empty text then Err (Empty part)
  else if contains SEPARATOR text then Err (Delimiter part)
  else if bool_decide (provider_safe_tool_name text <> text) then Err (NotProviderSafe part)
  else Ok tt.

Record ToolName := mk_ToolName { ToolName_0 : rstring }.
Record ActionName := mk_ActionName { ActionName_0 : rstring }.
Record ResourceKey := mk_ResourceKey { ResourceKey_0 : rstring }.

Inductive ScopeKey :=
| KeyTool (tool : ToolName)
| KeyAction (tool : ToolName) (action : ActionName)
| KeyResource (resource : ResourceKey).

#[export] Instance ToolName_eq_dec : EqDecision ToolName.
Proof. solve_decision. Defined.
#[export] Instance ActionName_eq_dec : EqDecision ActionName.
Proof. solve_decision. Defined.
#[export] Instance ResourceKey_eq_dec : EqDecision ResourceKey.
Proof. solve_decision. Defined.
#[export] Instance ScopeKey_eq_dec : EqDecision ScopeKey.
Proof. solve_decision. Defined.

(** The two expansions of the [key_name!] macro, and [ResourceKey::parse]. *)
Module ToolName.
Definition parse (text : rstring) : result ToolName ScopeKeyError :=
  let? _ := validate_name PTool text in Ok (mk_ToolName text).
Definition as_str (t : ToolName) : rstring := ToolName_0 t.
End ToolName.

Module ActionName.
Definition parse (text : rstring) : result ActionName ScopeKeyError :=
  let? _ := validate_name PAction text in Ok (mk_ActionName text).
Definition as_str (a : ActionName) : rstring := ActionName_0 a.
End ActionName.

Module ResourceKey.
Definition parse (name : rstring) : result ResourceKey ScopeKeyError :=
  let? _ := validate_name PResource name in Ok (mk_ResourceKey name).
Definition name (r : ResourceKey) : rstring := ResourceKey_0 r.
Definition display (r : ResourceKey) : rstring := RESOURCE_PREFIX ++ [SEPARATOR] ++ ResourceKey_0 r.
End ResourceKey.

Module ScopeKey.

Definition action (tool : ToolName) (action : ActionName) : result ScopeKey ScopeKeyError :=
  if bool_decide (ToolName.as_str tool = RESOURCE_PREFIX) then Err ReservedToolName
  else Ok (KeyAction tool action).

Definition parse (text : rstring) : result ScopeKey ScopeKeyError :=
  match (let* rest := strip_prefix RESOURCE_PREFIX text in strip_prefix [SEPARATOR] rest) with
  | Some name =>
      let? r := ResourceKey.parse name in Ok (KeyResource r)
  | None =>
      match split_once SEPARATOR text with
      | None => let? t := ToolName.parse text in Ok (KeyTool t)
      | Some (tool, act) =>
          if contains SEPARATOR act then Err TooManyParts
          else
            let? t := ToolName.parse tool in
            let? a := ActionName.parse act in
            action t a
      end
  end.

Definition parts (key : ScopeKey) : list rstring :=
  match key with
  | KeyTool tool => [ToolName.as_str tool; []; []]
  | KeyAction tool action => [ToolName.as_str tool; str ":"; ActionName.as_str action]
  | KeyResource resource => [str "resource:"; ResourceKey.name resource; []]
  end.

Definition canonical_bytes (key : ScopeKey) : list N := parts key ≫= bytes.

(** [Display]: the parts written one after the other. *)
Definition display (key : ScopeKey) : rstring := concat (parts key).

(** [Ord]: the order of the canonical bytes. *)
Definition cmp (a b : ScopeKey) : comparison := lex_compare (canonical_bytes a) (canonical_bytes b).

End ScopeKey.

(** A validated name, and the keys the constructors can build. *)
Definition valid_name (text : rstring) : Prop := validate_name PTool text = Ok tt.

Definition key_wf (key : ScopeKey) : Prop :=
  match key with
  | KeyTool tool => valid_name (ToolName_0 tool)
  | KeyAction tool action =>
      valid_name (ToolName_0 tool) /\ valid_name (ActionName_0 action) /\
      ToolName_0 tool <> RESOURCE_PREFIX
  | KeyResource resource => valid_name (ResourceKey_0 resource)
  end.

(** ** The name grammar *)

(** Two dots in a row. *)
Fixpoint dot_pair (s : rstring) : bool :=
  match s with
  | a :: ((b :: _) as rest) => ((a =? chr ".")%N && (b =? chr ".")%N) || dot_pair rest
  | _ => false
  end.

(** The grammar the documentation states: letters, digits, underscore, minus and
    single dots. *)
Definition name_grammar (s : rstring) : bool := forallb safe_char s && negb (dot_pair s).

Lemma safe_char_dot : safe_char (chr ".") = true.
Proof. reflexivity. Qed.

Lemma safe_char_not_separator c : safe_char c = true -> c <> SEPARATOR.
Proof. by intros H ->. Qed.

Definition leading_dot (s : rstring) : bool :=
  match s with c :: _ => (c =? chr ".")%N | [] => false end.

Lemma dot_pair_cons a s :
  dot_pair (a :: s) = ((a =? chr ".")%N && leading_dot s) || dot_pair s.
Proof. destruct s; cbn; [by rewrite andb_false_r |]. done. Qed.

(** The loop keeps its input exactly when the rest is in the grammar and no dot
    follows the previous one. *)
Lemma provider_safe_loop_id prev s :
  provider_safe_loop prev s = s <->
  name_grammar s = true /\ (prev = true -> leading_dot s = false).
Proof.
  revert prev. induction s as [| c s IH]; intros prev; [by cbn |].
  unfold name_grammar. rewrite dot_pair_cons. cbn [provider_safe_loop forallb leading_dot].
  destruct (safe_char c) eqn:Hc; cbn [andb].
  - destruct (N.eqb_spec c (chr ".")) as [-> | Hdot].
    + destruct prev.
      * split; [intros [= H] | intros [_ H]; specialize (H eq_refl); done].
      * cbn [andb]. transitivity (provider_safe_loop true s = s); [split; congruence |].
        rewrite IH. unfold name_grammar. rewrite negb_orb.
        destruct (forallb safe_char s), (dot_pair s), (leading_dot s); naive_solver.
    + cbn [andb orb]. transitivity (provider_safe_loop false s = s); [split; congruence |].
      rewrite IH. unfold name_grammar. naive_solver.
  - replace (chr "_" =? chr ".")%N with false by reflexivity.
    split; [intros [= <- _]; by vm_compute in Hc | intros [H _]; done].
Qed.

Lemma validate_name_ok part s :
  validate_name part s = Ok tt <-> s <> [] /\ name_grammar s = true.
Proof.
  unfold validate_name. destruct s as [| c s]; [by split; [| intros []] |].
  cbn [is_empty]. unfold provider_safe_tool_name.
  pose proof (provider_safe_loop_id false (c :: s)) as Hid.
  destruct (contains SEPARATOR (c :: s)) eqn:Hsep.
  - split; [done |]. intros [_ Hg]. unfold name_grammar in Hg. bools.
    apply contains_true in Hsep. rewrite forallb_forall in H.
    exfalso. by apply (safe_char_not_separator SEPARATOR); [apply H, list_elem_of_In |].
  - case_bool_decide as Hne; split; try done; intros.
    + exfalso. apply Hne, Hid. naive_solver.
    + split; [done |]. destruct (decide (provider_safe_loop false (c :: s) = c :: s)); [| tauto].
      by apply Hid.
Qed.

Lemma valid_name_iff s : valid_name s <-> s <> [] /\ name_grammar s = true.
Proof. apply validate_name_ok. Qed.

Lemma validate_name_valid part s u : validate_name part s = Ok u -> valid_name s.
Proof. destruct u. intros H. apply valid_name_iff. by eapply validate_name_ok. Qed.

Lemma valid_name_validates part s : valid_name s -> validate_name part s = Ok tt.
Proof. intros H. apply validate_name_ok. by apply valid_name_iff. Qed.

Lemma valid_name_chars s : valid_name s -> Forall (fun c => safe_char c = true) s.
Proof.
  rewrite valid_name_iff. unfold name_grammar. intros [_ H]. bools.
  apply Forall_forall. by apply forallb_forall.
Qed.

Lemma valid_name_no_separator s : valid_name s -> SEPARATOR ∉ s.
Proof.
  intros H%valid_name_chars Hin. rewrite list.Forall_forall in H.
  by apply (safe_char_not_separator SEPARATOR); [apply H |].
Qed.

Lemma safe_char_ascii c : safe_char c = true -> (c < 128)%N.
Proof.
  unfold safe_char, is_ascii_alphanumeric, is_ascii_alphabetic, is_ascii_lowercase,
    is_ascii_uppercase, is_ascii_digit, in_range.
  repeat (rewrite orb_true_iff || rewrite andb_true_iff || rewrite N.leb_le || rewrite N.eqb_eq).
  change (chr "_") with 95%N. change (chr "-") with 45%N. change (chr ".") with 46%N. lia.
Qed.

Lemma valid_name_bytes s : valid_name s -> bytes s = s.
Proof.
  intros H%valid_name_chars. apply bytes_ascii.
  eapply list.Forall_impl; [exact H | intros; by apply safe_char_ascii].
Qed.

#[export] Hint Resolve valid_name_no_separator validate_name_valid valid_name_validates : proxiima.

(** ** Parsing and printing *)

(** The prefix test of [parse]: the text is [resource:] and a name. *)
Lemma resource_prefix text name :
  (let* rest := strip_prefix RESOURCE_PREFIX text in strip_prefix [SEPARATOR] rest) = Some name <->
  text = RESOURCE_PREFIX ++ SEPARATOR :: name.
Proof.
  split.
  - destruct (strip_prefix RESOURCE_PREFIX text) as [rest |] eqn:E; [| done].
    apply strip_prefix_Some in E as ->. intros E. apply strip_prefix_Some in E as ->. done.
  - intros ->. rewrite strip_prefix_app. by apply (strip_prefix_Some [SEPARATOR]).
Qed.

Lemma resource_prefix_no_separator : SEPARATOR ∉ RESOURCE_PREFIX.
Proof. apply contains_false. reflexivity. Qed.

(** A text split at its first separator is a resource key only when its head is
    the reserved word. *)
Lemma first_separator_head l r l' r' :
  SEPARATOR ∉ l -> SEPARATOR ∉ l' -> l ++ SEPARATOR :: r = l' ++ SEPARATOR :: r' -> l = l' /\ r = r'.
Proof.
  intros Hl Hl' E.
  assert (split_once SEPARATOR (l ++ SEPARATOR :: r) = Some (l, r)) as H1 by by apply split_once_Some.
  assert (split_once SEPARATOR (l' ++ SEPARATOR :: r') = Some (l', r')) as H2 by by apply split_once_Some.
  rewrite E, H2 in H1. by injection H1 as -> ->.
Qed.

Lemma key_display_action t a :
  ScopeKey.display (KeyAction t a) = ToolName_0 t ++ SEPARATOR :: ActionName_0 a.
Proof. unfold ScopeKey.display. cbn. by rewrite app_nil_r. Qed.

Lemma key_display_tool t : ScopeKey.display (KeyTool t) = ToolName_0 t.
Proof. unfold ScopeKey.display. cbn. by rewrite app_nil_r. Qed.

Lemma key_display_resource r :
  ScopeKey.display (KeyResource r) = RESOURCE_PREFIX ++ SEPARATOR :: ResourceKey_0 r.
Proof. unfold ScopeKey.display. cbn. by rewrite app_nil_r. Qed.

Lemma scope_key_parse_sound text key :
  ScopeKey.parse text = Ok key -> key_wf key /\ ScopeKey.display key = text.
Proof.
  unfold ScopeKey.parse.
  destruct (let* rest := _ in _) as [name |] eqn:Hres.
  - apply resource_prefix in Hres as ->. unfold ResourceKey.parse.
    destruct (validate_name PResource name) eqn:Hv; [| done]. intros [= <-].
    rewrite key_display_resource. split; [cbn; eauto with proxiima | done].
  - destruct (split_once SEPARATOR text) as [[tool act] |] eqn:Hsplit.
    + apply split_once_Some in Hsplit as [-> Hnot].
      destruct (contains SEPARATOR act); [done |].
      unfold ToolName.parse, ActionName.parse, ScopeKey.action.
      destruct (validate_name PTool tool) eqn:Ht; [| done].
      destruct (validate_name PAction act) eqn:Ha; [| done]. cbn [ToolName.as_str ToolName_0].
      case_bool_decide as Hreserved; [done |]. intros [= <-]. rewrite key_display_action.
      split; [| done]. cbn. eauto with proxiima.
    + unfold ToolName.parse. destruct (validate_name PTool text) eqn:Ht; [| done].
      intros [= <-]. rewrite key_display_tool. split; [cbn; eauto with proxiima | done].
Qed.

Lemma scope_key_parse_complete key : key_wf key -> ScopeKey.parse (ScopeKey.display key) = Ok key.
Proof.
  unfold ScopeKey.parse. destruct key as [[t] | [t] [a] | [r]]; cbn [key_wf ToolName_0 ActionName_0 ResourceKey_0].
  - intros Hv. rewrite key_display_tool; cbn [ToolName_0].
    destruct (let* rest := _ in _) as [name |] eqn:Hres.
    { apply resource_prefix in Hres as ->. apply valid_name_no_separator in Hv. set_solver. }
    rewrite (proj2 (split_once_None _ _) (valid_name_no_separator _ Hv)).
    unfold ToolName.parse. by rewrite (valid_name_validates PTool).
  - intros (Ht & Ha & Hreserved). rewrite key_display_action; cbn [ToolName_0 ActionName_0].
    destruct (let* rest := _ in _) as [name |] eqn:Hres.
    { apply resource_prefix, first_separator_head in Hres as [-> _];
        eauto using resource_prefix_no_separator with proxiima. done. }
    assert (split_once SEPARATOR (t ++ SEPARATOR :: a) = Some (t, a)) as ->
      by (apply split_once_Some; eauto with proxiima).
    rewrite (proj2 (contains_false _ _) (valid_name_no_separator _ Ha)).
    unfold ToolName.parse, ActionName.parse, ScopeKey.action.
    rewrite (valid_name_validates PTool), (valid_name_validates PAction) by done.
    by rewrite bool_decide_eq_false_2.
  - intros Hv. rewrite key_display_resource; cbn [ResourceKey_0].
    rewrite (proj2 (resource_prefix _ r)) by done.
    unfold ResourceKey.parse. by rewrite (valid_name_validates PResource).
Qed.

(** The parser and the printer of scope keys are inverse: whatever [parse]
    accepts is a key of the grammar that prints back as the text it came from,
    and every key of the grammar parses back from its printed form. *)
Theorem scope_key_round_trip :
  (forall text key, ScopeKey.parse text = Ok key ->
     key_wf key /\ ScopeKey.display key = text) /\
  (forall key, key_wf key -> ScopeKey.parse (ScopeKey.display key) = Ok key).
Proof. split; [apply scope_key_parse_sound | apply scope_key_parse_complete]. Qed.

(** The canonical bytes of a well-formed key are its printed form. *)
Lemma canonical_bytes_display key :
  key_wf key -> ScopeKey.canonical_bytes key = ScopeKey.display key.
Proof.
  unfold ScopeKey.canonical_bytes, ScopeKey.display.
  destruct key as [[t] | [t] [a] | [r]]; cbn; intros H.
  - by rewrite (valid_name_bytes _ H).
  - destruct H as (Ht & Ha & _). by rewrite (valid_name_bytes _ Ht), (valid_name_bytes _ Ha).
  - by rewrite (valid_name_bytes _ H).
Qed.

(** The order of keys is the order of their canonical strings: it is total,
    transitive and antisymmetric, and two keys of the grammar compare equal only
    when they are the same key. *)
Theorem scope_key_order (a b c : ScopeKey) (Ha : key_wf a) (Hb : key_wf b) (Hc : key_wf c) :
  ScopeKey.cmp a b = lex_compare (ScopeKey.display a) (ScopeKey.display b) /\
  (ScopeKey.cmp a b = Eq <-> a = b) /\
  ScopeKey.cmp b a = CompOpp (ScopeKey.cmp a b) /\
  (ScopeKey.cmp a b = Lt -> ScopeKey.cmp b c = Lt -> ScopeKey.cmp a c = Lt).
Proof.
  unfold ScopeKey.cmp. rewrite !canonical_bytes_display by done. repeat split.
  - intros H%lex_compare_eq. apply scope_key_parse_complete in Ha, Hb. congruence.
  - intros ->. by apply lex_compare_eq.
  - apply lex_compare_antisym.
  - apply lex_compare_lt_trans.
Qed.

Lemma scope_key_order_witness :
  ScopeKey.cmp (KeyTool (mk_ToolName (str "core_goal")))
    (KeyAction (mk_ToolName (str "core_goal")) (mk_ActionName (str "set"))) = Lt /\
  (ScopeKey.cmp (KeyTool (mk_ToolName (str "core_goal")))
    (KeyAction (mk_ToolName (str "core_goal")) (mk_ActionName (str "set"))) = Eq <->
   KeyTool (mk_ToolName (str "core_goal")) =
   KeyAction (mk_ToolName (str "core_goal")) (mk_ActionName (str "set"))).
Proof.
  split; [reflexivity |].
  apply (scope_key_order (KeyTool (mk_ToolName (str "core_goal")))
    (KeyAction (mk_ToolName (str "core_goal")) (mk_ActionName (str "set")))
    (KeyResource (mk_ResourceKey (str "memory")))); vm_compute; intuition discriminate.
Defined.

(** Every pushed character is safe, and the state records whether the last one
    was a dot. *)
Lemma provider_safe_loop_grammar prev s :
  name_grammar (provider_safe_loop prev s) = true /\
  (prev = true -> leading_dot (provider_safe_loop prev s) = false).
Proof.
  revert prev. induction s as [| c s IH]; intros prev; [done |]. cbn [provider_safe_loop].
  set (mapped := if safe_char c then c else chr "_").
  assert (safe_char mapped = true) as Hm by (subst mapped; by destruct (safe_char c) eqn:?).
  destruct (N.eqb_spec mapped (chr ".")) as [Hd | Hd]; [destruct prev |];
    unfold name_grammar in *; cbn [forallb leading_dot]; rewrite dot_pair_cons, negb_orb.
  - specialize (IH false) as [IH _]. cbn. bools. by rewrite H, H0.
  - specialize (IH true) as [IH Hl]. rewrite Hm, (Hl eq_refl), andb_false_r. bools. by rewrite H, H0.
  - specialize (IH false) as [IH _]. rewrite Hm. bools. rewrite H, H0.
    rewrite (proj2 (N.eqb_neq _ _) Hd). done.
Qed.

(** [provider_safe_tool_name] always produces a name of the documented
    grammar, leaves such names unchanged (so it is idempotent), and a name is a
    valid scope-key part exactly when it is non-empty and in that grammar. *)
Theorem provider_safe_tool_name_correct (s : rstring) :
  name_grammar (provider_safe_tool_name s) = true /\
  (provider_safe_tool_name s = s <-> name_grammar s = true) /\
  (forall part, validate_name part s = Ok tt <-> s <> [] /\ name_grammar s = true).
Proof.
  unfold provider_safe_tool_name. split; [apply provider_safe_loop_grammar |].
  split; [| intros part; apply validate_name_ok].
  rewrite provider_safe_loop_id. split; [tauto | by split].
Qed.
