(* ===== verification/Capability.v ===== *)
(** * Capabilities: what a caller may reach and what a deployment serves

    The tool declarations of [crates/core/src/mcp/manifest.rs] and
    [crates/core/src/mcp/tool.rs], and the caller scope, served surface and
    capability set of [crates/core/src/authz.rs]. *)

From S2P Require Import Prelude ScopeKey.

(** ** Effects and declarations *)

Inductive Replay := Idempotent | NonIdempotent.

Inductive ToolEffect :=
| ReadOnly
| Additive (replay : Replay)
| Destructive (replay : Replay).

#[export] Instance Replay_eq_dec : EqDecision Replay.
Proof. solve_decision. Defined.
#[export] Instance ToolEffect_eq_dec : EqDecision ToolEffect.
Proof. solve_decision. Defined.

Module ToolEffect.

Definition is_read_only (e : ToolEffect) : bool := match e with ReadOnly => true | _ => false end.
Definition is_destructive (e : ToolEffect) : bool := match e with Destructive _ => true | _ => false end.

Definition replay (e : ToolEffect) : Replay :=
  match e with ReadOnly => Idempotent | Additive r | Destructive r => r end.

Definition strength (e : ToolEffect) : nat :=
  match e with ReadOnly => 0 | Additive _ => 1 | Destructive _ => 2 end.

Definition join (self other : ToolEffect) : ToolEffect :=
  let replay := match replay self, replay other with
                | Idempotent, Idempotent => Idempotent
                | _, _ => NonIdempotent
                end in
  let strongest := if strength other <=? strength self then self else other in
  match strongest with
  | ReadOnly => ReadOnly
  | Additive _ => Additive replay
  | Destructive _ => Destructive replay
  end.

(** [Iterator::reduce(Self::join)]. *)
Definition strongest (effects : list ToolEffect) : option ToolEffect :=
  match effects with
  | [] => None
  | e :: rest => Some (foldl join e rest)
  end.

End ToolEffect.

(** The MCP hints, a projection of the effect. *)
Record McpToolAnnotations := mk_McpToolAnnotations {
  hint_read_only : option bool;
  hint_destructive : option bool;
  hint_idempotent : option bool;
  hint_open_world : option bool;
}.

Module McpToolAnnotations.

Definition host (effect : ToolEffect) : McpToolAnnotations :=
  let is_idempotent r := match r with Idempotent => true | NonIdempotent => false end in
  let '(destructive, idempotent) :=
    match effect with
    | ReadOnly => (None, None)
    | Additive r => (Some false, Some (is_idempotent r))
    | Destructive r => (Some true, Some (is_idempotent r))
    end in
  mk_McpToolAnnotations (Some (ToolEffect.is_read_only effect)) destructive idempotent None.

Definition registered (effect : ToolEffect) : McpToolAnnotations :=
  let hints := host effect in
  mk_McpToolAnnotations (hint_read_only hints) (hint_destructive hints) (hint_idempotent hints)
    (Some false).

End McpToolAnnotations.

Inductive McpToolAudience := Shared | Owner.

#[export] Instance McpToolAudience_eq_dec : EqDecision McpToolAudience.
Proof. solve_decision. Defined.

Record KeyDeclaration := mk_KeyDeclaration {
  decl_effect : option ToolEffect;
  decl_audience : McpToolAudience;
}.

Module KeyDeclaration.

Definition shared (effect : option ToolEffect) : KeyDeclaration := mk_KeyDeclaration effect Shared.
Definition UNDECLARED : KeyDeclaration := shared None.
Definition is_read (d : KeyDeclaration) : bool :=
  is_some_and (decl_effect d) ToolEffect.is_read_only.
Definition is_open_read (d : KeyDeclaration) : bool :=
  is_read d && bool_decide (decl_audience d = Shared).

End KeyDeclaration.

(** ** Caller scope, served surface, capability set *)

Inductive ToolScope := ScopeAll | ScopePalette (keys : list ScopeKey).
Inductive ServedSurface := SurfaceAll | SurfacePalette (keys : list ScopeKey).

(** The [HashSet] of [right] is only asked about membership. *)
Definition intersect_keys (left right : list ScopeKey) : list ScopeKey :=
  filter (fun key => key ∈ right) left.

Module ToolScope.

Definition allows (self : ToolScope) (key : ScopeKey) : bool :=
  match self with
  | ScopeAll => true
  | ScopePalette allowed => slice_contains key allowed
  end.

Definition holds (self : ToolScope) (matches : ScopeKey -> bool) : bool :=
  match self with
  | ScopeAll => true
  | ScopePalette allowed => existsb matches allowed
  end.

Definition allows_action (self : ToolScope) (tool : ToolName) (action : ActionName) : bool :=
  holds self (fun entry =>
    match entry with
    | KeyAction held act => bool_decide (held = tool) && bool_decide (act = action)
    | _ => false
    end).

Definition advertises_action (self : ToolScope) (tool : ToolName) (action : ActionName) : bool :=
  allows_action self tool action.

Definition covers_command (self : ToolScope) (tool : ToolName) (action : option ActionName) : bool :=
  match action with
  | Some action => allows_action self tool action
  | None => allows self (KeyTool tool)
  end.

Definition allows_group_advertisement (self : ToolScope) (tool : ToolName) : bool :=
  holds self (fun entry =>
    match entry with KeyAction held _ => bool_decide (held = tool) | _ => false end).

Definition allows_tool_advertisement (self : ToolScope) (tool : ToolName) (has_actions : bool) : bool :=
  if has_actions then allows_group_advertisement self tool else allows self (KeyTool tool).

Definition intersect (self other : ToolScope) : ToolScope :=
  match self, other with
  | ScopeAll, scope | scope, ScopeAll => scope
  | ScopePalette mine, ScopePalette theirs => ScopePalette (intersect_keys mine theirs)
  end.

End ToolScope.

Module ServedSurface.

Definition admits (self : ServedSurface) (key : ScopeKey) (declared : KeyDeclaration) : bool :=
  KeyDeclaration.is_read declared
  || match self with
     | SurfaceAll => true
     | SurfacePalette keys => slice_contains key keys
     end.

Definition admits_action (self : ServedSurface) (tool : ToolName) (action : ActionName)
    (declared : KeyDeclaration) : bool :=
  match ScopeKey.action tool action with
  | Ok key => admits self key declared
  | Err _ => false
  end.

Definition intersect (self other : ServedSurface) : ServedSurface :=
  match self, other with
  | SurfaceAll, surface | surface, SurfaceAll => surface
  | SurfacePalette mine, SurfacePalette theirs => SurfacePalette (intersect_keys mine theirs)
  end.

End ServedSurface.

Record CapabilitySet := mk_CapabilitySet {
  tool_scope : ToolScope;
  served_surface : ServedSurface;
}.

Module CapabilitySet.

Definition all : CapabilitySet := mk_CapabilitySet ScopeAll SurfaceAll.

Definition admits (self : CapabilitySet) (key : ScopeKey) (declared : KeyDeclaration) : bool :=
  ToolScope.allows (tool_scope self) key && ServedSurface.admits (served_surface self) key declared.

Definition admits_action (self : CapabilitySet) (tool : ToolName) (action : ActionName)
    (declared : KeyDeclaration) : bool :=
  ToolScope.allows_action (tool_scope self) tool action
  && ServedSurface.admits_action (served_surface self) tool action declared.

End CapabilitySet.

(** ** Registered tool descriptors

    The fields the gates and listings read.  [args_schema] is the only part of
    the descriptor's JSON documents they look at, through its declared property
    names; [action_properties] gives the same names per dispatcher action. *)

Record McpActionArgSpec := mk_McpActionArgSpec {
  arg_action : rstring;
  arg_title : rstring;
  arg_allowed_fields : list rstring;
  arg_required_fields : list rstring;
  arg_effect : ToolEffect;
  arg_audience : McpToolAudience;
}.

Record McpArgvActionSpec := mk_McpArgvActionSpec {
  argv_action_key : rstring;
  argv_title : rstring;
  argv_prefix : list rstring;
  argv_effect : ToolEffect;
  argv_audience : McpToolAudience;
}.

Record McpToolDescriptor := mk_McpToolDescriptor {
  desc_name : rstring;
  desc_title : rstring;
  desc_properties : option (list rstring);
  desc_action_properties : list (rstring * option (list rstring));
  action_arg_specs : list McpActionArgSpec;
  argv_action_specs : list McpArgvActionSpec;
  desc_effect : option ToolEffect;
  desc_audience : McpToolAudience;
}.

Module McpToolDescriptor.

Definition is_flat (d : McpToolDescriptor) : bool :=
  is_empty (action_arg_specs d) && is_empty (argv_action_specs d).

Definition actions (d : McpToolDescriptor) : list (rstring * ToolEffect) :=
  ((fun spec => (arg_action spec, arg_effect spec)) <$> action_arg_specs d)
  ++ ((fun spec => (argv_action_key spec, argv_effect spec)) <$> argv_action_specs d).

Definition effect (d : McpToolDescriptor) : option ToolEffect :=
  if is_flat d then desc_effect d else ToolEffect.strongest (snd <$> actions d).

Definition annotations (d : McpToolDescriptor) : option McpToolAnnotations :=
  McpToolAnnotations.registered <$> effect d.

(** [(action, effect, audience)] of every declared action, in order. *)
Definition declared_actions (d : McpToolDescriptor) : list (rstring * ToolEffect * McpToolAudience) :=
  ((fun spec => (arg_action spec, arg_effect spec, arg_audience spec)) <$> action_arg_specs d)
  ++ ((fun spec => (argv_action_key spec, argv_effect spec, argv_audience spec))
        <$> argv_action_specs d).

Definition declaration (d : McpToolDescriptor) (action : option rstring) : KeyDeclaration :=
  if is_flat d then mk_KeyDeclaration (desc_effect d) (desc_audience d)
  else
    let declared :=
      let* action := action in
      find (fun '(name, _, _) => bool_decide (name = action)) (declared_actions d) in
    match declared with
    | Some (_, effect, audience) =>
        mk_KeyDeclaration (Some effect)
          (match desc_audience d with Owner => Owner | Shared => audience end)
    | None => mk_KeyDeclaration None (desc_audience d)
    end.

Definition action_effect (d : McpToolDescriptor) (action : rstring) : option ToolEffect :=
  decl_effect (declaration d (Some action)).

Definition action_is_read_only (d : McpToolDescriptor) (action : rstring) : bool :=
  is_some_and (action_effect d action) ToolEffect.is_read_only.

Definition is_read_only (d : McpToolDescriptor) : bool :=
  is_some_and (effect d) ToolEffect.is_read_only.

Definition effect_over (d : McpToolDescriptor) (permitted : rstring -> bool) : option ToolEffect :=
  if is_flat d then desc_effect d
  else ToolEffect.strongest
         (snd <$> filter (fun '(action, _) => permitted action = true) (actions d)).

Definition title_of (d : McpToolDescriptor) (key : ScopeKey) : option rstring :=
  match key with
  | KeyTool tool =>
      if bool_decide (ToolName.as_str tool = desc_name d) then Some (desc_title d) else None
  | KeyAction tool action =>
      if bool_decide (ToolName.as_str tool = desc_name d) then
        snd <$> find (fun '(declared, _) => bool_decide (declared = ActionName.as_str action))
                  (((fun spec => (arg_action spec, arg_title spec)) <$> action_arg_specs d)
                   ++ ((fun spec => (argv_action_key spec, argv_title spec)) <$> argv_action_specs d))
      else None
  | KeyResource _ => None
  end.

(** One leaf of [scope_keys]. *)
Definition action_key (tool : ToolName) (leaf : rstring * McpToolAudience) :
    result (ScopeKey * McpToolAudience) ScopeKeyError :=
  let? action := ActionName.parse leaf.1 in
  let? key := ScopeKey.action tool action in
  Ok (key, leaf.2).

(** [collect::<Result<Vec<_>, _>>()]: the first error wins. *)
Fixpoint collect_keys (tool : ToolName) (leaves : list (rstring * McpToolAudience)) :
    result (list (ScopeKey * McpToolAudience)) ScopeKeyError :=
  match leaves with
  | [] => Ok []
  | leaf :: rest =>
      let? key := action_key tool leaf in
      let? keys := collect_keys tool rest in
      Ok (key :: keys)
  end.

Definition scope_keys (d : McpToolDescriptor) :
    result (list (ScopeKey * McpToolAudience)) ScopeKeyError :=
  let? tool := ToolName.parse (desc_name d) in
  let effective action := if bool_decide (desc_audience d = Owner) then Owner else action in
  if is_flat d then Ok [(KeyTool tool, desc_audience d)]
  else
    collect_keys tool
      (((fun spec => (arg_action spec, effective (arg_audience spec))) <$> action_arg_specs d)
       ++ ((fun spec => (argv_action_key spec, effective (argv_audience spec)))
             <$> argv_action_specs d)).

(** [palette_keys], [owner_only_keys] and [served_read_keys] panic ([None]) on a
    descriptor whose names are outside the grammar. *)
Definition palette_keys (d : McpToolDescriptor) : option (list ScopeKey) :=
  (fun keyed => keyed.*1) <$> ok (scope_keys d).

Definition owner_only_keys (d : McpToolDescriptor) : option (list ScopeKey) :=
  (fun keyed : list (ScopeKey * McpToolAudience) => (filter (fun ka => ka.2 = Owner) keyed).*1)
    <$> ok (scope_keys d).

(** The declaration of one of the tool's own keys, as [served_read_keys] reads it. *)
Definition key_declaration (d : McpToolDescriptor) (key : ScopeKey) : KeyDeclaration :=
  match key with
  | KeyTool _ => declaration d None
  | KeyAction _ action => declaration d (Some (ActionName.as_str action))
  | KeyResource _ => KeyDeclaration.UNDECLARED
  end.

Definition served_read_keys (d : McpToolDescriptor) : option (list ScopeKey) :=
  filter (fun key => KeyDeclaration.is_read (key_declaration d key) = true) <$> palette_keys d.

Definition action_advertised_by (d : McpToolDescriptor) (capabilities : CapabilitySet)
    (action : rstring) : bool :=
  existsb (fun '(known, _) => bool_decide (known = action)) (actions d)
  && match ToolName.parse (desc_name d), ActionName.parse action with
     | Ok tool, Ok name =>
         CapabilitySet.admits_action capabilities tool name
           (declaration d (Some (ActionName.as_str name)))
     | _, _ => false
     end.

Definition advertised_by (d : McpToolDescriptor) (capabilities : CapabilitySet) : bool :=
  if negb (is_flat d) then
    existsb (fun '(action, _) => action_advertised_by d capabilities action) (actions d)
  else
    match ToolName.parse (desc_name d) with
    | Ok tool => CapabilitySet.admits capabilities (KeyTool tool) (declaration d None)
    | Err _ => false
    end.

End McpToolDescriptor.

(** [SpiiceRegistryFrozen::mcp_tool] over the registered tools. *)
Definition mcp_tool (mcp_tools : list McpToolDescriptor) (name : rstring) : option McpToolDescriptor :=
  find (fun tool => bool_decide (desc_name tool = name)) mcp_tools.

(** ** Effects form a join semilattice *)

Lemma join_assoc_effect a b c : ToolEffect.join a (ToolEffect.join b c) = ToolEffect.join (ToolEffect.join a b) c.
Proof. destruct a as [|[]|[]], b as [|[]|[]], c as [|[]|[]]; reflexivity. Qed.

Lemma join_comm_effect a b : ToolEffect.join a b = ToolEffect.join b a.
Proof. destruct a as [|[]|[]], b as [|[]|[]]; reflexivity. Qed.

Lemma join_read_only a b :
  ToolEffect.is_read_only (ToolEffect.join a b) = ToolEffect.is_read_only a && ToolEffect.is_read_only b.
Proof. destruct a as [|[]|[]], b as [|[]|[]]; reflexivity. Qed.

Lemma join_destructive a b :
  ToolEffect.is_destructive (ToolEffect.join a b)
  = ToolEffect.is_destructive a || ToolEffect.is_destructive b.
Proof. destruct a as [|[]|[]], b as [|[]|[]]; reflexivity. Qed.

Lemma foldl_join_head a l : foldl ToolEffect.join a l = foldr ToolEffect.join a l.
Proof.
  revert a. induction l as [|b l IH]; intros a; [reflexivity|]. cbn. rewrite IH.
  clear IH. induction l as [|c l IH]; cbn; [apply join_comm_effect|].
  rewrite IH, !join_assoc_effect. f_equal. apply join_comm_effect.
Qed.

Lemma strongest_is_read_only es e :
  ToolEffect.strongest es = Some e ->
  ToolEffect.is_read_only e = forallb ToolEffect.is_read_only es.
Proof.
  destruct es as [|x l]; [discriminate|]. intros [= <-]. rewrite foldl_join_head.
  cbn. induction l as [|y l IH]; cbn; [symmetry; apply andb_true_r|].
  rewrite join_read_only, IH. destruct (ToolEffect.is_read_only x), (ToolEffect.is_read_only y); reflexivity.
Qed.

Lemma strongest_is_destructive es e :
  ToolEffect.strongest es = Some e ->
  ToolEffect.is_destructive e = existsb ToolEffect.is_destructive es.
Proof.
  destruct es as [|x l]; [discriminate|]. intros [= <-]. rewrite foldl_join_head.
  cbn. induction l as [|y l IH]; cbn; [symmetry; apply orb_false_r|].
  rewrite join_destructive, IH.
  destruct (ToolEffect.is_destructive x), (ToolEffect.is_destructive y); reflexivity.
Qed.

Lemma strongest_Permutation es fs :
  es ≡ₚ fs -> ToolEffect.strongest es = ToolEffect.strongest fs.
Proof.
  induction 1 as [|x l l' HP IH|x y l|l1 l2 l3 _ IH1 _ IH2]; cbn; try reflexivity.
  - f_equal. rewrite !foldl_join_head. clear IH.
    induction HP as [|z k k' _ IHk|z w k|? ? ? _ IHa _ IHb]; cbn; try reflexivity.
    + by rewrite IHk.
    + rewrite !join_assoc_effect. f_equal. apply join_comm_effect.
    + by rewrite IHa.
  - f_equal. f_equal. apply join_comm_effect.
  - by rewrite IH1.
Qed.

Lemma join_replay a b :
  ToolEffect.replay (ToolEffect.join a b) = Idempotent <->
  ToolEffect.replay a = Idempotent /\ ToolEffect.replay b = Idempotent.
Proof. destruct a as [|[]|[]], b as [|[]|[]]; cbn; naive_solver. Qed.

Lemma strongest_replay es e :
  ToolEffect.strongest es = Some e ->
  ToolEffect.replay e = Idempotent <-> Forall (fun f => ToolEffect.replay f = Idempotent) es.
Proof.
  destruct es as [|x l]; [discriminate|]. intros [= <-]. rewrite foldl_join_head, list.Forall_cons.
  induction l as [|y l IH]; cbn; [by rewrite list.Forall_nil, (right_id True (∧))|].
  rewrite join_replay, IH, list.Forall_cons. tauto.
Qed.

(** A dispatcher's tool-level effect always exists, and it is exactly the
    join of its actions: read-only iff every action is, destructive iff some
    action is, idempotent iff every action replays idempotently; and the order
    in which actions are declared does not matter. *)
Theorem dispatcher_effect_correct (d : McpToolDescriptor)
    (Hd : McpToolDescriptor.is_flat d = false) :
  exists e,
    McpToolDescriptor.effect d = Some e /\
    ToolEffect.is_read_only e = forallb ToolEffect.is_read_only (McpToolDescriptor.actions d).*2 /\
    ToolEffect.is_destructive e = existsb ToolEffect.is_destructive (McpToolDescriptor.actions d).*2 /\
    (ToolEffect.replay e = Idempotent <->
     Forall (fun f => ToolEffect.replay f = Idempotent) (McpToolDescriptor.actions d).*2) /\
    (forall effects, effects ≡ₚ (McpToolDescriptor.actions d).*2 ->
       ToolEffect.strongest effects = Some e).
Proof.
  unfold McpToolDescriptor.effect. rewrite Hd.
  destruct (ToolEffect.strongest (McpToolDescriptor.actions d).*2) as [e|] eqn:E.
  - exists e. repeat split_and; [done| | | |].
    + by apply strongest_is_read_only.
    + by apply strongest_is_destructive.
    + by apply strongest_replay.
    + intros effects HP. by rewrite (strongest_Permutation _ _ HP).
  - exfalso. unfold McpToolDescriptor.is_flat, McpToolDescriptor.actions in *.
    destruct (action_arg_specs d), (argv_action_specs d); discriminate.
Qed.

(** ** Intersection of scopes and surfaces *)

Lemma intersect_keys_elem key l r : key ∈ intersect_keys l r <-> key ∈ l /\ key ∈ r.
Proof. unfold intersect_keys. rewrite list_elem_of_filter. tauto. Qed.

Lemma slice_contains_intersect key l r :
  slice_contains key (intersect_keys l r) = slice_contains key l && slice_contains key r.
Proof.
  apply eq_bool_prop_intro. rewrite andb_True, !Is_true_true, !slice_contains_true.
  apply intersect_keys_elem.
Qed.

(** Holding an action is holding its exact leaf key. *)
Lemma allows_action_leaf s tool action :
  ToolScope.allows_action s tool action = ToolScope.allows s (KeyAction tool action).
Proof.
  destruct s as [|keys]; [reflexivity|]. cbn. unfold slice_contains.
  induction keys as [|k keys IH]; [reflexivity|]. cbn. rewrite IH. f_equal.
  apply eq_bool_prop_intro. destruct k; rewrite ?andb_True, ?bool_decide_spec; naive_solver.
Qed.

Lemma tool_scope_intersect s t key :
  ToolScope.allows (ToolScope.intersect s t) key = ToolScope.allows s key && ToolScope.allows t key.
Proof.
  destruct s, t; cbn; rewrite ?andb_true_r; try reflexivity. apply slice_contains_intersect.
Qed.

Lemma served_surface_intersect s t key decl :
  ServedSurface.admits (ServedSurface.intersect s t) key decl
  = ServedSurface.admits s key decl && ServedSurface.admits t key decl.
Proof.
  unfold ServedSurface.admits. rewrite <-orb_andb_distrib_r. f_equal.
  destruct s, t; cbn; rewrite ?andb_true_r; try reflexivity. apply slice_contains_intersect.
Qed.

Lemma admits_action_leaf caps tool action key decl :
  ScopeKey.action tool action = Ok key ->
  CapabilitySet.admits_action caps tool action decl = CapabilitySet.admits caps key decl.
Proof.
  unfold CapabilitySet.admits_action, CapabilitySet.admits, ServedSurface.admits_action.
  intros Hk. rewrite Hk, allows_action_leaf. unfold ScopeKey.action in Hk.
  case_bool_decide; [discriminate|]. by injection Hk as <-.
Qed.

(** Intersection is exact conjunction: an intersected caller scope allows a
    key (and covers a command) iff both scopes do, and an intersected served
    surface admits a key under its declaration iff both surfaces do; so
    narrowing a capability set never adds a key and never hides a declared
    read that the caller's own scope holds. *)
Theorem capability_intersect_exact (s t : ToolScope) (u v : ServedSurface)
    (key : ScopeKey) (tool : ToolName) (action : option ActionName) (decl : KeyDeclaration) :
  ToolScope.allows (ToolScope.intersect s t) key = ToolScope.allows s key && ToolScope.allows t key /\
  ToolScope.covers_command (ToolScope.intersect s t) tool action
  = ToolScope.covers_command s tool action && ToolScope.covers_command t tool action /\
  ServedSurface.admits (ServedSurface.intersect u v) key decl
  = ServedSurface.admits u key decl && ServedSurface.admits v key decl /\
  CapabilitySet.admits (mk_CapabilitySet (ToolScope.intersect s t) (ServedSurface.intersect u v)) key decl
  = CapabilitySet.admits (mk_CapabilitySet s u) key decl
    && CapabilitySet.admits (mk_CapabilitySet t v) key decl /\
  (KeyDeclaration.is_read decl = true ->
   CapabilitySet.admits (mk_CapabilitySet s (ServedSurface.intersect u v)) key decl
   = ToolScope.allows s key).
Proof.
  split; [apply tool_scope_intersect|]. split.
  { destruct action; cbn; rewrite ?allows_action_leaf; apply tool_scope_intersect. }
  split; [apply served_surface_intersect|]. split.
  - unfold CapabilitySet.admits. cbn [tool_scope served_surface].
    rewrite tool_scope_intersect, served_surface_intersect.
    destruct (ToolScope.allows s key), (ToolScope.allows t key); cbn; rewrite ?andb_false_r; reflexivity.
  - intros Hr. unfold CapabilitySet.admits, ServedSurface.admits. cbn. rewrite Hr. apply andb_true_r.
Qed.

Lemma capability_intersect_exact_witness :
  CapabilitySet.admits
    (mk_CapabilitySet (ScopePalette [KeyTool (mk_ToolName (str "core_search"))])
       (ServedSurface.intersect (SurfacePalette []) SurfaceAll))
    (KeyTool (mk_ToolName (str "core_search"))) (KeyDeclaration.shared (Some ReadOnly)) = true.
Proof.
  destruct (capability_intersect_exact
    (ScopePalette [KeyTool (mk_ToolName (str "core_search"))]) ScopeAll (SurfacePalette []) SurfaceAll
    (KeyTool (mk_ToolName (str "core_search"))) (mk_ToolName (str "core_search")) None
    (KeyDeclaration.shared (Some ReadOnly))) as (_ & _ & _ & _ & H).
  rewrite (H eq_refl). vm_compute. reflexivity.
Defined.

(** ** Listing and invocation *)

(** A goal dispatcher with one read and one destructive action. *)
Definition sample_dispatcher : McpToolDescriptor :=
  mk_McpToolDescriptor (str "core_goal") (str "Goals") None [] 
    [ mk_McpActionArgSpec (str "list") (str "List goals") [] [] ReadOnly Shared;
      mk_McpActionArgSpec (str "delete") (str "Delete a goal") [str "id"] [str "id"]
        (Destructive Idempotent) Owner ]
    [] None Shared.

Lemma dispatcher_effect_correct_witness :
  McpToolDescriptor.is_flat sample_dispatcher = false /\
  McpToolDescriptor.effect sample_dispatcher = Some (Destructive Idempotent).
Proof.
  destruct (dispatcher_effect_correct sample_dispatcher eq_refl) as (e & He & _ & _ & _ & _).
  split; [reflexivity|]. rewrite He. vm_compute in He. by rewrite <-He.
Defined.

Lemma tool_name_parse_Ok text tool : ToolName.parse text = Ok tool -> tool = mk_ToolName text.
Proof. unfold ToolName.parse. destruct (validate_name _ _); naive_solver. Qed.

Lemma action_name_parse_Ok text action : ActionName.parse text = Ok action -> action = mk_ActionName text.
Proof. unfold ActionName.parse. destruct (validate_name _ _); naive_solver. Qed.

Lemma action_key_Ok tool leaf key a :
  McpToolDescriptor.action_key tool leaf = Ok (key, a) ->
  key = KeyAction tool (mk_ActionName leaf.1) /\ a = leaf.2 /\
  ActionName.parse leaf.1 = Ok (mk_ActionName leaf.1) /\
  ScopeKey.action tool (mk_ActionName leaf.1) = Ok key.
Proof.
  unfold McpToolDescriptor.action_key.
  destruct (ActionName.parse leaf.1) as [act|] eqn:E; [|discriminate].
  apply action_name_parse_Ok in E as Ha. subst act.
  destruct (ScopeKey.action _ _) as [k|] eqn:Ek; [|discriminate]. intros [= -> <-].
  split_and!; try done. unfold ScopeKey.action in Ek. case_bool_decide; naive_solver.
Qed.

Lemma collect_keys_Forall2 tool leaves keyed :
  McpToolDescriptor.collect_keys tool leaves = Ok keyed ->
  Forall2 (fun leaf k => McpToolDescriptor.action_key tool leaf = Ok k) leaves keyed.
Proof.
  revert keyed. induction leaves as [|leaf leaves IH]; intros keyed; cbn; [intros [= <-]; constructor|].
  destruct (McpToolDescriptor.action_key tool leaf) eqn:E; [|discriminate].
  destruct (McpToolDescriptor.collect_keys tool leaves) eqn:E'; [|discriminate].
  intros [= <-]. constructor; auto.
Qed.

(** The audience a declared action has at its tool. *)
Definition leaf_audience (d : McpToolDescriptor) (a : McpToolAudience) : McpToolAudience :=
  if bool_decide (desc_audience d = Owner) then Owner else a.

Lemma scope_keys_dispatcher d keyed :
  McpToolDescriptor.is_flat d = false -> McpToolDescriptor.scope_keys d = Ok keyed ->
  ToolName.parse (desc_name d) = Ok (mk_ToolName (desc_name d)) /\
  Forall2 (fun act k => McpToolDescriptor.action_key (mk_ToolName (desc_name d))
                          (act.1.1, leaf_audience d act.2) = Ok k)
    (McpToolDescriptor.declared_actions d) keyed.
Proof.
  intros Hd. unfold McpToolDescriptor.scope_keys.
  destruct (ToolName.parse _) as [tool|] eqn:Et; [|discriminate].
  apply tool_name_parse_Ok in Et as Htool. subst tool. rewrite Hd.
  intros H%collect_keys_Forall2. split; [done|].
  replace (_ ++ _) with ((fun act : rstring * ToolEffect * McpToolAudience =>
    (act.1.1, leaf_audience d act.2)) <$> McpToolDescriptor.declared_actions d) in H.
  - by rewrite Forall2_fmap_l in H.
  - unfold McpToolDescriptor.declared_actions. by rewrite fmap_app, <-!list_fmap_compose.
Qed.

Lemma actions_declared d :
  McpToolDescriptor.actions d = (fun act => act.1) <$> McpToolDescriptor.declared_actions d.
Proof.
  unfold McpToolDescriptor.actions, McpToolDescriptor.declared_actions.
  by rewrite fmap_app, <-!list_fmap_compose.
Qed.

Lemma action_advertised_leaf d caps name key a :
  ToolName.parse (desc_name d) = Ok (mk_ToolName (desc_name d)) ->
  name ∈ (McpToolDescriptor.actions d).*1 ->
  McpToolDescriptor.action_key (mk_ToolName (desc_name d)) (name, a) = Ok (key, a) ->
  McpToolDescriptor.action_advertised_by d caps name
  = CapabilitySet.admits caps key (McpToolDescriptor.key_declaration d key).
Proof.
  intros Ht Hin (-> & _ & Ha & Hk)%action_key_Ok. cbn [fst] in *.
  unfold McpToolDescriptor.action_advertised_by. rewrite Ht, Ha.
  replace (existsb _ _) with true.
  - cbn. by apply admits_action_leaf.
  - symmetry. apply existsb_exists. apply list_elem_of_fmap in Hin as ([n e] & -> & Hin).
    exists (n, e). rewrite <-list_elem_of_In. split; [done|]. by rewrite bool_decide_true.
Qed.

(** Listing agrees with invocation: for every descriptor the registry can
    freeze (its names are scope keys), the tool is advertised to a capability
    set iff that set admits at least one of the tool's own registered keys
    under the very declaration the scope gate judges that key by. *)
Theorem advertised_iff_admitted (d : McpToolDescriptor) (caps : CapabilitySet)
    (keyed : list (ScopeKey * McpToolAudience))
    (Hfrozen : McpToolDescriptor.scope_keys d = Ok keyed) :
  McpToolDescriptor.advertised_by d caps = true <->
  exists key, key ∈ keyed.*1 /\
    CapabilitySet.admits caps key (McpToolDescriptor.key_declaration d key) = true.
Proof.
  unfold McpToolDescriptor.advertised_by.
  destruct (McpToolDescriptor.is_flat d) eqn:Hd; cbn [negb].
  { unfold McpToolDescriptor.scope_keys in Hfrozen.
    destruct (ToolName.parse _) as [tool|]; [|discriminate]. rewrite Hd in Hfrozen.
    injection Hfrozen as <-. cbn. set_solver. }
  destruct (scope_keys_dispatcher d keyed Hd Hfrozen) as [Ht HF].
  rewrite existsb_exists. split.
  - intros ([name e] & Hin%list_elem_of_In & Hadv).
    assert (Hname : name ∈ (McpToolDescriptor.actions d).*1)
      by (apply list_elem_of_fmap; by exists (name, e)).
    rewrite actions_declared in Hin. apply list_elem_of_fmap in Hin as (act & Eact & Hin).
    apply list_elem_of_lookup in Hin as [i Hi].
    destruct (Forall2_lookup_l _ _ _ _ _ HF Hi) as ([key a] & Hk & Hkey).
    replace act.1.1 with name in Hkey by (by rewrite <-Eact).
    destruct (action_key_Ok _ _ _ _ Hkey) as (_ & Ea & _). cbn in Ea. subst a.
    exists key. rewrite <-(action_advertised_leaf d caps name key _ Ht Hname Hkey). split; [|done].
    apply list_elem_of_fmap. eexists (key, _). split; [done|]. by eapply list_elem_of_lookup_2.
  - intros (key & Hin & Hadm). apply list_elem_of_fmap in Hin as ([k a] & -> & Hin).
    apply list_elem_of_lookup in Hin as [i Hi].
    destruct (Forall2_lookup_r _ _ _ _ _ HF Hi) as (act & Hact%list_elem_of_lookup_2 & Hkey).
    destruct (action_key_Ok _ _ _ _ Hkey) as (_ & Ea & _). cbn in Ea. subst a.
    assert (Hin : act.1 ∈ McpToolDescriptor.actions d)
      by (rewrite actions_declared; by apply list_elem_of_fmap_2).
    exists act.1. rewrite <-list_elem_of_In. split; [done|]. destruct act as [[name e] a].
    cbn in *. erewrite action_advertised_leaf; [done|done| |exact Hkey].
    apply list_elem_of_fmap. by exists (name, e).
Qed.

Lemma advertised_iff_admitted_witness :
  McpToolDescriptor.advertised_by sample_dispatcher
    (mk_CapabilitySet
       (ScopePalette [KeyAction (mk_ToolName (str "core_goal")) (mk_ActionName (str "list"))])
       (SurfacePalette [])) = true.
Proof.
  eapply (advertised_iff_admitted sample_dispatcher).
  - vm_compute. reflexivity.
  - exists (KeyAction (mk_ToolName (str "core_goal")) (mk_ActionName (str "list"))).
    split; [left|vm_compute; reflexivity].
Defined.

Lemma find_declared_action (l : list (rstring * ToolEffect * McpToolAudience)) name e a :
  NoDup l.*1.*1 -> (name, e, a) ∈ l ->
  find (fun '(n, _, _) => bool_decide (n = name)) l = Some (name, e, a).
Proof.
  induction l as [|[[n e'] a'] l IH]; [intros _ Hin; by apply elem_of_nil in Hin|].
  cbn. rewrite list.NoDup_cons, elem_of_cons. intros [Hn Hnd] [[= -> -> ->]|Hin].
  - by rewrite bool_decide_true.
  - rewrite bool_decide_false; [by apply IH|]. intros ->. apply Hn.
    apply list_elem_of_fmap. exists (name, e). split; [done|].
    apply list_elem_of_fmap. by exists (name, e, a).
Qed.

(** One audience per key: for a descriptor with distinct action names, the
    audience [scope_keys] pairs with a key is the audience the gates read from
    that key's declaration, so [owner_only_keys] lists exactly the palette
    keys declared for the owner alone; an owner tool has no shared key. *)
Theorem owner_only_keys_correct (d : McpToolDescriptor)
    (keyed : list (ScopeKey * McpToolAudience)) (key : ScopeKey)
    (Hfrozen : McpToolDescriptor.scope_keys d = Ok keyed)
    (Hdistinct : NoDup (McpToolDescriptor.actions d).*1) :
  exists palette owned,
    McpToolDescriptor.palette_keys d = Some palette /\
    McpToolDescriptor.owner_only_keys d = Some owned /\
    (key ∈ owned <->
     key ∈ palette /\ decl_audience (McpToolDescriptor.key_declaration d key) = Owner) /\
    (desc_audience d = Owner -> owned = palette).
Proof.
  unfold McpToolDescriptor.palette_keys, McpToolDescriptor.owner_only_keys. rewrite Hfrozen.
  do 2 eexists. split; [reflexivity|]. split; [reflexivity|].
  assert (Hagree : forall k a, (k, a) ∈ keyed ->
    decl_audience (McpToolDescriptor.key_declaration d k) = a /\
    (desc_audience d = Owner -> a = Owner)).
  { destruct (McpToolDescriptor.is_flat d) eqn:Hd.
    - unfold McpToolDescriptor.scope_keys in Hfrozen.
      destruct (ToolName.parse _) as [tool|]; [|discriminate]. rewrite Hd in Hfrozen.
      injection Hfrozen as <-. intros k a [= -> ->]%list_elem_of_singleton.
      cbn. unfold McpToolDescriptor.declaration. by rewrite Hd.
    - destruct (scope_keys_dispatcher d keyed Hd Hfrozen) as [_ HF]. intros k a Hin.
      apply list_elem_of_lookup in Hin as [i Hi].
      destruct (Forall2_lookup_r _ _ _ _ _ HF Hi) as ([[n e] b] & Hact%list_elem_of_lookup_2 & Hkey).
      destruct (action_key_Ok _ _ _ _ Hkey) as (-> & -> & _). cbn.
      rewrite actions_declared in Hdistinct.
      unfold McpToolDescriptor.declaration. rewrite Hd. cbn.
      rewrite (find_declared_action _ n e b Hdistinct Hact). unfold leaf_audience.
      cbn. destruct (desc_audience d); case_bool_decide; naive_solver. }
  split.
  - rewrite !list_elem_of_fmap. setoid_rewrite list_elem_of_filter. split.
    + intros ([k a] & -> & Ha & Hin). cbn in Ha. subst a. destruct (Hagree _ _ Hin). naive_solver.
    + intros [([k a] & -> & Hin) Ho]. destruct (Hagree _ _ Hin). exists (k, a). naive_solver.
  - intros Ho. f_equal. apply list_filter_all. intros [k a] Hin. by apply (Hagree k a Hin).
Qed.

Lemma owner_only_keys_correct_witness :
  exists palette owned,
    McpToolDescriptor.palette_keys sample_dispatcher = Some palette /\
    McpToolDescriptor.owner_only_keys sample_dispatcher = Some owned /\
    KeyAction (mk_ToolName (str "core_goal")) (mk_ActionName (str "delete")) ∈ owned.
Proof.
  destruct (owner_only_keys_correct sample_dispatcher
    [ (KeyAction (mk_ToolName (str "core_goal")) (mk_ActionName (str "list")), Shared);
      (KeyAction (mk_ToolName (str "core_goal")) (mk_ActionName (str "delete")), Owner) ]
    (KeyAction (mk_ToolName (str "core_goal")) (mk_ActionName (str "delete"))))
    as (palette & owned & Hp & Ho & Hiff & _).
  - vm_compute. reflexivity.
  - apply (bool_decide_unpack _). vm_compute. exact I.
  - exists palette, owned. split; [exact Hp|]. split; [exact Ho|]. apply Hiff. split.
    + vm_compute in Hp. injection Hp as <-. right. left.
    + vm_compute. reflexivity.
Defined.
