(* ===== verification/GroupForest.v ===== *)
(** * The group forest and its role projection

    [crates/storage-pg/definitions/functions.sql]: groups nest as a forest of
    edges, each child under one parent with a relation, and a trigger-maintained
    table holds the role each person has in each group through any path.  A
    recursive query is a function on the tables with one unit of fuel per edge;
    [chain_ancestors] shows that this is enough on a forest. *)

From S2P Require Import Prelude Ids Access.

(** ** Tables *)

#[export] Instance Relation_eq_dec : EqDecision Relation.
Proof. solve_decision. Defined.
#[export] Instance Relation_countable : Countable Relation.
Proof.
  refine (inj_countable'
    (fun r => match r with RAdmin => 0 | REditor => 1 | RViewer => 2 | RIngest => 3 end)
    (fun n => match n with 0 => RAdmin | 1 => REditor | 2 => RViewer | _ => RIngest end) _).
  by intros [].
Defined.

(** [group_edges], by its primary key [child_group_id]. *)
Abbreviation EdgeTable := (gmap Uuid (Uuid * Relation)).

(** [group_memberships]: rows [(group_id, member_user_id, relation)], all three
    the primary key. *)
Abbreviation MembershipTable := (gset (Uuid * Uuid * Relation)).

(** ** Recursive queries over the edges *)

(** The rows [group_edges] adds above [group], nearest first. *)
Fixpoint ancestors (fuel : nat) (edges : EdgeTable) (group : Uuid) : list (Uuid * Relation) :=
  match fuel with
  | O => []
  | S fuel =>
      match edges !! group with
      | Some (parent, relation) => (parent, relation) :: ancestors fuel edges parent
      | None => []
      end
  end.

(** [group_tree_root]: the deepest row of [parents]. *)
Definition group_tree_root (edges : EdgeTable) (group : Uuid) : Uuid :=
  List.last (fst <$> ancestors (size edges) edges group) group.

(** The cycle test of [group_edge_before_write]: is [child] the new parent or
    above it? *)
Definition would_cycle (edges : EdgeTable) (child parent : Uuid) : bool :=
  slice_contains child (parent :: (fst <$> ancestors (size edges) edges parent)).

(** The groups directly under one of [groups]. *)
Definition children (edges : EdgeTable) (groups : list Uuid) : list Uuid :=
  omap (fun '(child, (parent, _)) => if slice_contains parent groups then Some child else None)
    (map_to_list edges).

(** [descendants] of [group_projection_after_write], one level at a time. *)
Fixpoint descendants (fuel : nat) (edges : EdgeTable) (groups : list Uuid) : list Uuid :=
  match fuel with
  | O => groups
  | S fuel => groups ++ descendants fuel edges (children edges groups)
  end.

(** ** The projected roles of one person *)

(** A row of [paths] or [folded]; the person is fixed. *)
Record PathRow := mk_PathRow {
  path_group : Uuid;
  path_read : nat;
  path_write : nat;
  path_manages : bool;
}.

Definition relation_roles (r : Relation) : nat * nat * bool :=
  match r with
  | RAdmin => (4, 4, true)
  | REditor => (4, 3, false)
  | RViewer => (4, 0, false)
  | RIngest => (1, 1, false)
  end.

(** The two terms of the recursive query [paths]. *)
Definition membership_path (group : Uuid) (r : Relation) : PathRow :=
  let '(read, write, manages) := relation_roles r in mk_PathRow group read write manages.

Definition edge_path (p : PathRow) (parent : Uuid) (r : Relation) : PathRow :=
  let '(read, write, manages) := relation_roles r in
  mk_PathRow parent (path_read p `min` read) (path_write p `min` write) (path_manages p && manages).

Fixpoint paths_from (fuel : nat) (edges : EdgeTable) (p : PathRow) : list PathRow :=
  p :: match fuel with
       | O => []
       | S fuel =>
           match edges !! path_group p with
           | Some (parent, r) => paths_from fuel edges (edge_path p parent r)
           | None => []
           end
       end.

Definition paths (memberships : MembershipTable) (edges : EdgeTable) (user : Uuid) : list PathRow :=
  elements (filter (fun row => row.1.2 = user) memberships)
    ≫= fun '(group, _, r) => paths_from (size edges) edges (membership_path group r).

(** [GROUP BY group_id] with [max] and [bool_or]. *)
Definition fold_path (p : PathRow) (folded : gmap Uuid (nat * nat * bool)) :
    gmap Uuid (nat * nat * bool) :=
  <[path_group p :=
      match folded !! path_group p with
      | Some (read, write, manages) =>
          (path_read p `max` read, path_write p `max` write, path_manages p || manages)
      | None => (path_read p, path_write p, path_manages p)
      end]> folded.

Definition fold_paths (l : list PathRow) : gmap Uuid (nat * nat * bool) := foldr fold_path ∅ l.

(** [(ARRAY['none','fact','abstraction','perspective','goal'])[rank + 1]]; ranks
    are those of [relation_roles], so at most 4. *)
Definition access_ceiling (rank : nat) : AccessCeiling :=
  match rank with 0 => CNone | 1 => CFact | 2 => CAbstraction | 3 => CPerspective | _ => CGoal end.

(** A row of [group_role_projection] without its key. *)
Record ProjectionRow := mk_ProjectionRow {
  proj_read : AccessCeiling;
  proj_write : AccessCeiling;
  proj_manage : bool;
}.

Definition projected (ranks : nat * nat * bool) : ProjectionRow :=
  let '(read, write, manages) := ranks in
  mk_ProjectionRow (access_ceiling read) (access_ceiling write) manages.

(** [group_role_projection], by its key [(member_user_id, group_id)]. *)
Abbreviation ProjectionTable := (gmap (Uuid * Uuid) ProjectionRow).

(** What the query of [rebuild_group_role_projection] answers for one person. *)
Definition user_projection (memberships : MembershipTable) (edges : EdgeTable) (user : Uuid) :
    gmap Uuid ProjectionRow :=
  projected <$> fold_paths (paths memberships edges user).

(** One turn of its loop: delete the person's rows, insert the answer. *)
Definition rebuild_user (memberships : MembershipTable) (edges : EdgeTable)
    (projection : ProjectionTable) (user : Uuid) : ProjectionTable :=
  filter (fun row => row.1.1 <> user) projection
  ∪ kmap (pair user) (user_projection memberships edges user).

Definition rebuild_group_role_projection (memberships : MembershipTable) (edges : EdgeTable)
    (users : list Uuid) (projection : ProjectionTable) : ProjectionTable :=
  foldl (rebuild_user memberships edges) projection (sort_by N.leb (remove_dups users)).

(** The people a write of the edge of [child] concerns. *)
Definition subtree_users (memberships : MembershipTable) (edges : EdgeTable) (child : Uuid) : list Uuid :=
  let below := descendants (size edges) edges [child] in
  (fun row : Uuid * Uuid * Relation => row.1.2) <$>
    elements (filter (fun row => slice_contains row.1.1 below = true) memberships).

(** ** Chains and forests *)

(** The rows above a group up to a root. *)
Inductive chain (edges : EdgeTable) : Uuid -> list (Uuid * Relation) -> Prop :=
| chain_root g : edges !! g = None -> chain edges g []
| chain_step g parent r l :
    edges !! g = Some (parent, r) -> chain edges parent l -> chain edges g ((parent, r) :: l).
#[export] Hint Constructors chain : proxiima.

(** No cycles: every group has a root above it. *)
Definition forest (edges : EdgeTable) : Prop := forall g, exists l, chain edges g l.

(** One edge upwards. *)
Definition up (edges : EdgeTable) (g parent : Uuid) : Prop := exists r, edges !! g = Some (parent, r).

Lemma chain_det edges g l l' : chain edges g l -> chain edges g l' -> l = l'.
Proof.
  intros H. revert l'. induction H as [g H|g p r l H _ IH]; intros l' H'; inversion H'; simplify_eq; [done|].
  by f_equal; apply IH.
Qed.

Lemma chain_rest edges g l x :
  chain edges g l -> x ∈ l.*1 -> exists l', chain edges x l' /\ length l' < length l.
Proof.
  induction 1 as [g H|g p r l H Hc IH]; cbn; intros Hx; [by apply not_elem_of_nil in Hx|].
  apply elem_of_cons in Hx as [->|Hx]; [eauto with lia|].
  destruct (IH Hx) as (l' & ? & ?). eauto with lia.
Qed.

Lemma chain_fresh edges g l : chain edges g l -> g ∉ l.*1.
Proof.
  intros H Hg. destruct (chain_rest _ _ _ _ H Hg) as (l' & H' & Hlt).
  rewrite (chain_det _ _ _ _ H H') in Hlt. lia.
Qed.

(** A chain visits different children of the table, so it is no longer than it. *)
Lemma chain_length edges g l : chain edges g l -> length l <= size edges.
Proof.
  intros H. cut (exists ks : gset Uuid, ks ⊆ dom edges /\ size ks = length l /\ forall k, k ∈ ks -> k ∈ g :: l.*1).
  { intros (ks & Hdom & <- & _). rewrite <- size_dom. by apply subseteq_size. }
  induction H as [g H|g p r l H Hc (ks & Hdom & Hsize & Hin)].
  - exists ∅. rewrite size_empty. set_solver.
  - exists ({[g]} ∪ ks).
    assert (g ∉ ks).
    { intros Hg%Hin. apply (chain_fresh edges g ((p, r) :: l)); [by econstructor|]. exact Hg. }
    split_and!; [|rewrite size_union, size_singleton by set_solver; cbn; lia|set_solver].
    apply union_least; [|done]. apply singleton_subseteq_l, elem_of_dom. by rewrite H.
Qed.

Lemma ancestors_chain edges g l n : chain edges g l -> length l <= n -> ancestors n edges g = l.
Proof.
  intros H. revert n. induction H as [g H|g p r l H Hc IH]; intros [|n] Hn; cbn in *; try done; try lia.
  - by rewrite H.
  - rewrite H. f_equal. apply IH. lia.
Qed.

(** The fuel of the recursive queries is enough on a forest. *)
Lemma chain_ancestors edges g : forest edges -> chain edges g (ancestors (size edges) edges g).
Proof.
  intros Hf. destruct (Hf g) as [l Hl]. rewrite (ancestors_chain _ _ _ _ Hl); [done|].
  by apply (chain_length _ g).
Qed.

Lemma chain_nsteps edges g l : chain edges g l -> forall k x, nsteps (up edges) k g x -> k <= length l.
Proof.
  induction 1 as [g H|g p r l H Hc IH]; intros k x Hk; inversion Hk as [|k' ? y ? Hup Hrest]; subst; cbn; try lia;
    destruct Hup as [r' Hup]; simplify_eq.
  apply IH in Hrest. lia.
Qed.

Lemma chain_rtc edges g l x : chain edges g l -> rtc (up edges) g x <-> x ∈ g :: l.*1.
Proof.
  induction 1 as [g H|g p r l H Hc IH]; cbn.
  - rewrite list_elem_of_singleton. split; [|by intros ->].
    inversion 1 as [|? y ? [r Hup]]; simplify_eq; done.
  - split.
    + inversion 1 as [|? y ? [r' Hup] Hr]; subst; [constructor|]. simplify_eq. right. by apply IH.
    + intros [->|Hx]%elem_of_cons; [done|]. apply IH in Hx. eapply rtc_l; [by exists r|done].
Qed.

Lemma would_cycle_iff edges child parent :
  forest edges -> would_cycle edges child parent = true <-> rtc (up edges) parent child.
Proof.
  intros Hf. rewrite (chain_rtc _ _ _ _ (chain_ancestors _ _ Hf)).
  unfold would_cycle. apply slice_contains_true.
Qed.

Lemma elem_of_children edges groups x :
  x ∈ children edges groups <-> exists parent, up edges x parent /\ parent ∈ groups.
Proof.
  unfold children, up. rewrite list_elem_of_omap. split.
  - intros ([c [p r]] & Hc%elem_of_map_to_list & Heq). cbn in Heq.
    destruct (slice_contains p groups) eqn:E; [|done]. apply slice_contains_true in E. naive_solver.
  - intros (p & [r H] & Hp). exists (x, (p, r)). split; [by apply elem_of_map_to_list|].
    cbn. by apply slice_contains_true in Hp as ->.
Qed.

Lemma elem_of_descendants edges n groups x :
  x ∈ descendants n edges groups <->
  exists k g, k <= n /\ g ∈ groups /\ nsteps (up edges) k x g.
Proof.
  revert groups. induction n as [|n IH]; intros groups; cbn.
  - split; [by exists 0, x; eauto using nsteps_O|]. intros (k & g & Hk & Hg & Hs).
    assert (k = 0) as -> by lia. by inversion Hs; subst.
  - rewrite elem_of_app, IH. split.
    + intros [Hx|(k & g & Hk & (p & Hup & Hp)%elem_of_children & Hs)]; [by exists 0, x; eauto using nsteps_O with lia|].
      exists (S k), p. split_and!; [lia|done|]. by eapply nsteps_r.
    + intros ([|k] & g & Hk & Hg & Hs); [inversion Hs; subst; by left|].
      apply nsteps_inv_r in Hs as (y & Hs & Hup). right. exists k, y.
      split_and!; [lia| |done]. apply elem_of_children. eauto.
Qed.

(** The subtree of a group is what has it above. *)
Lemma elem_of_subtree edges c x :
  forest edges -> x ∈ descendants (size edges) edges [c] <-> rtc (up edges) x c.
Proof.
  intros Hf. rewrite elem_of_descendants, rtc_nsteps. split.
  - intros (k & g & _ & ->%list_elem_of_singleton & Hs). eauto.
  - intros [k Hs]. exists k, c. split_and!; [|by apply list_elem_of_singleton|done].
    destruct (Hf x) as [l Hl]. etrans; [by eapply chain_nsteps|by eapply chain_length].
Qed.

(** ** How a write of one edge changes the chains *)

(** Chains that do not meet the written child stay. *)
Lemma chain_frame edges edges' c g l :
  (forall x, x <> c -> edges' !! x = edges !! x) -> c ∉ g :: l.*1 -> chain edges g l -> chain edges' g l.
Proof.
  intros Heq Hc H. induction H as [g H|g p r l H _ IH]; cbn in Hc; apply not_elem_of_cons in Hc as [Hg Hc].
  - constructor. by rewrite Heq by done.
  - econstructor; [by rewrite Heq by done|]. by apply IH.
Qed.

(** Writing the row of [c] keeps the forest, when what is above it stays. *)
Lemma forest_write edges edges' c :
  (forall x, x <> c -> edges' !! x = edges !! x) -> (exists l, chain edges' c l) ->
  forest edges -> forest edges'.
Proof.
  intros Heq Hc Hf g. destruct (Hf g) as [l Hl].
  induction Hl as [g H|g p r l H _ [l' IH]]; destruct (decide (g = c)) as [->|Hg]; try done.
  - exists []. constructor. by rewrite Heq by done.
  - exists ((p, r) :: l'). econstructor; [by rewrite Heq by done|done].
Qed.

Lemma forest_insert edges c p r :
  edges !! c = None -> would_cycle edges c p = false -> forest edges -> forest (<[c := (p, r)]> edges).
Proof.
  intros Hc Hcyc Hf. apply (forest_write edges _ c); [by intros; apply lookup_insert_ne| |done].
  destruct (Hf p) as [l Hl]. exists ((p, r) :: l). econstructor; [by simplify_map_eq|].
  apply (chain_frame edges _ c); [by intros; apply lookup_insert_ne| |done].
  rewrite <- (chain_rtc _ _ _ _ Hl), <- would_cycle_iff by done. by rewrite Hcyc.
Qed.

Lemma forest_delete edges c : forest edges -> forest (delete c edges).
Proof.
  intros Hf. apply (forest_write edges _ c); [by intros; apply lookup_delete_ne| |done].
  exists []. constructor. by simplify_map_eq.
Qed.

Lemma forest_relation edges c p r r' :
  edges !! c = Some (p, r) -> forest edges -> forest (<[c := (p, r')]> edges).
Proof.
  intros Hc Hf. apply (forest_write edges _ c); [by intros; apply lookup_insert_ne| |done].
  destruct (Hf c) as [l Hl]. pose proof (chain_fresh _ _ _ Hl) as Hfresh.
  inversion Hl as [|? p' r0 l' Hc' Hl']; simplify_eq. exists ((p, r') :: l').
  econstructor; [by simplify_map_eq|].
  by apply (chain_frame edges _ c); [intros; apply lookup_insert_ne| |].
Qed.

(** ** The projection is exact *)

(** The rows of [paths_from] above its first, along a chain. *)
Fixpoint climb (p : PathRow) (l : list (Uuid * Relation)) : list PathRow :=
  match l with
  | [] => []
  | (parent, r) :: l => edge_path p parent r :: climb (edge_path p parent r) l
  end.

Lemma edge_path_group p parent r : path_group (edge_path p parent r) = parent.
Proof. by destruct r. Qed.

Lemma membership_path_group g r : path_group (membership_path g r) = g.
Proof. by destruct r. Qed.

Lemma paths_from_chain edges g l : chain edges g l -> forall n p,
  path_group p = g -> length l <= n -> paths_from n edges p = p :: climb p l.
Proof.
  induction 1 as [g H|g parent r l H _ IH]; intros [|n] p Hp Hn; cbn in *; try done; try lia; rewrite Hp, H; [done|].
  by rewrite IH by (apply edge_path_group || lia).
Qed.

Lemma elem_of_paths memberships edges u p :
  forest edges ->
  p ∈ paths memberships edges u <->
  exists g r l, (g, u, r) ∈ memberships /\ chain edges g l /\ p ∈ membership_path g r :: climb (membership_path g r) l.
Proof.
  intros Hf. unfold paths. rewrite list_elem_of_bind. split.
  - intros ([[g v] r] & Hp & Hin). rewrite elem_of_elements, elem_of_filter in Hin. destruct Hin as [Hv Hin].
    cbn in Hv. subst. pose proof (chain_ancestors _ g Hf) as Hc. exists g, r, (ancestors (size edges) edges g).
    rewrite (paths_from_chain _ _ _ Hc) in Hp by (apply membership_path_group || by eapply chain_length). done.
  - intros (g & r & l & Hin & Hc & Hp). exists (g, u, r).
    rewrite elem_of_elements, elem_of_filter. split; [|done].
    by rewrite (paths_from_chain _ _ _ Hc) by (apply membership_path_group || by eapply chain_length).
Qed.

(** The rows of a person depend on their memberships and on what is above them. *)
Lemma paths_ext memberships memberships' edges edges' u :
  forest edges -> forest edges' ->
  filter (fun row => row.1.2 = u) memberships = filter (fun row => row.1.2 = u) memberships' ->
  (forall g r l, (g, u, r) ∈ memberships -> chain edges' g l -> chain edges g l) ->
  paths memberships edges u = paths memberships' edges' u.
Proof.
  intros Hf Hf' Hm Hc. unfold paths. rewrite <- Hm. apply list_bind_ext_elem.
  intros [[g v] r] Hin%elem_of_elements. apply elem_of_filter in Hin as [Hv Hin]. cbn in Hv. subst.
  pose proof (chain_ancestors _ g Hf') as Hg'. pose proof (Hc _ _ _ Hin Hg') as Hg.
  by rewrite (paths_from_chain _ _ _ Hg'), (paths_from_chain _ _ _ Hg)
    by (apply membership_path_group || by eapply chain_length).
Qed.

Lemma lookup_rebuild_user memberships edges projection u v g :
  rebuild_user memberships edges projection u !! (v, g)
  = if decide (v = u) then user_projection memberships edges u !! g else projection !! (v, g).
Proof.
  unfold rebuild_user. destruct (decide (v = u)) as [->|Hv].
  - rewrite lookup_union_r by (apply map_lookup_filter_None; right; naive_solver).
    by rewrite lookup_kmap by (intros ??; naive_solver).
  - rewrite lookup_union_l; [|apply lookup_kmap_None; [intros ??|]; naive_solver].
    destruct (projection !! (v, g)) eqn:E.
    + apply map_lookup_filter_Some. done.
    + apply map_lookup_filter_None. by left.
Qed.

Lemma lookup_rebuild memberships edges users projection v g :
  rebuild_group_role_projection memberships edges users projection !! (v, g)
  = if decide (v ∈ users) then user_projection memberships edges v !! g else projection !! (v, g).
Proof.
  unfold rebuild_group_role_projection.
  set (l := sort_by _ _). assert (Hl : v ∈ users <-> v ∈ l).
  { unfold l. rewrite sort_by_elem_of. by rewrite elem_of_remove_dups. }
  rewrite (decide_ext _ _ _ _ Hl). clearbody l. clear Hl. revert projection.
  induction l as [|u l IH]; intros projection; cbn; [done|].
  rewrite IH, lookup_rebuild_user. repeat case_decide; set_solver.
Qed.

(** The table holds exactly what a full recomputation answers. *)
Definition projection_exact (memberships : MembershipTable) (edges : EdgeTable)
    (projection : ProjectionTable) : Prop :=
  forall u g, projection !! (u, g) = user_projection memberships edges u !! g.

Lemma exact_membership_write memberships memberships' edges projection u :
  forest edges ->
  (forall v, v <> u -> filter (fun row => row.1.2 = v) memberships' = filter (fun row => row.1.2 = v) memberships) ->
  projection_exact memberships edges projection ->
  projection_exact memberships' edges (rebuild_group_role_projection memberships' edges [u] projection).
Proof.
  intros Hf Hm Hx v g. rewrite lookup_rebuild. case_decide as Hv; [done|].
  rewrite Hx. unfold user_projection. rewrite (paths_ext memberships memberships' edges edges); try done.
  symmetry. apply Hm. set_solver.
Qed.

Lemma elem_of_subtree_users memberships edges c u :
  forest edges ->
  u ∈ subtree_users memberships edges c <->
  exists g r, (g, u, r) ∈ memberships /\ rtc (up edges) g c.
Proof.
  intros Hf. unfold subtree_users. rewrite list_elem_of_fmap. split.
  - intros ([[g v] r] & -> & Hin%elem_of_elements). apply elem_of_filter in Hin as [Hb Hin].
    apply slice_contains_true, elem_of_subtree in Hb; [|done]. cbn in *. eauto.
  - intros (g & r & Hin & Hup). exists (g, u, r). split; [done|].
    apply elem_of_elements, elem_of_filter. split; [|done]. by apply slice_contains_true, elem_of_subtree.
Qed.

Lemma exact_edge_write memberships edges edges' projection c :
  forest edges -> forest edges' -> (forall x, x <> c -> edges' !! x = edges !! x) ->
  projection_exact memberships edges projection ->
  projection_exact memberships edges'
    (rebuild_group_role_projection memberships edges' (subtree_users memberships edges' c) projection).
Proof.
  intros Hf Hf' Heq Hx v g. rewrite lookup_rebuild. case_decide as Hv; [done|].
  rewrite Hx. unfold user_projection. rewrite (paths_ext memberships memberships edges edges'); try done.
  intros h r l Hin Hl. apply (chain_frame edges' _ c); [naive_solver| |done].
  rewrite <- (chain_rtc _ _ _ _ Hl). intros Hup. apply Hv, elem_of_subtree_users; eauto.
Qed.

(** ** What the projection means *)

(** A person reaches a group over a list of relations, the last one first. *)
Inductive member_path (memberships : MembershipTable) (edges : EdgeTable) (u : Uuid) :
    Uuid -> list Relation -> Prop :=
| path_direct g r : (g, u, r) ∈ memberships -> member_path memberships edges u g [r]
| path_up g parent r rs :
    member_path memberships edges u g rs -> edges !! g = Some (parent, r) ->
    member_path memberships edges u parent (r :: rs).

(** The row of such a path: the weakest of its relations. *)
Definition path_row (g : Uuid) (rs : list Relation) : PathRow :=
  mk_PathRow g
    (foldr (fun r n => n `min` (relation_roles r).1.1) 4 rs)
    (foldr (fun r n => n `min` (relation_roles r).1.2) 4 rs)
    (foldr (fun r b => b && (relation_roles r).2) true rs).

Lemma path_row_direct g r : membership_path g r = path_row g [r].
Proof. by destruct r. Qed.

Lemma path_row_up g parent r rs : edge_path (path_row g rs) parent r = path_row parent (r :: rs).
Proof. unfold edge_path. by destruct r. Qed.

Section paths.
Context (memberships : MembershipTable) (edges : EdgeTable) (u : Uuid).

Lemma climb_sound g l : chain edges g l -> forall rs p,
  member_path memberships edges u g rs -> p ∈ path_row g rs :: climb (path_row g rs) l ->
  exists rs', member_path memberships edges u (path_group p) rs' /\ p = path_row (path_group p) rs'.
Proof.
  induction 1 as [g H|g parent r l H _ IH]; intros rs p Hm; cbn.
  - intros ->%list_elem_of_singleton. eauto.
  - rewrite path_row_up. intros [->|Hp]%elem_of_cons; [eauto|]. eapply IH, Hp. by econstructor.
Qed.

Lemma climb_closed g l : chain edges g l -> forall p q parent r,
  path_group p = g -> q ∈ p :: climb p l -> edges !! path_group q = Some (parent, r) ->
  edge_path q parent r ∈ p :: climb p l.
Proof.
  induction 1 as [g H|g par r0 l H _ IH]; intros p q parent r Hp Hq Hup; cbn in *.
  - apply list_elem_of_singleton in Hq as ->. congruence.
  - apply elem_of_cons in Hq as [->|Hq]; [rewrite Hp in Hup; simplify_eq; set_solver|].
    right. eapply IH; [apply edge_path_group|done|done].
Qed.

Lemma paths_spec p :
  forest edges ->
  p ∈ paths memberships edges u <->
  exists rs, member_path memberships edges u (path_group p) rs /\ p = path_row (path_group p) rs.
Proof.
  intros Hf. rewrite elem_of_paths by done. split.
  - intros (g & r & l & Hin & Hl & Hp). rewrite path_row_direct in Hp.
    eapply climb_sound; [done| |done]. by constructor.
  - intros (rs & Hm & ->). cbn in Hm. revert Hm. generalize (path_group p) as g. clear p.
    induction 1 as [g r Hin|g parent r rs Hm IH Hup].
    + destruct (Hf g) as [l Hl]. exists g, r, l. rewrite path_row_direct. set_solver.
    + destruct IH as (g0 & r0 & l & Hin & Hl & Hp). exists g0, r0, l. split_and!; [done..|].
      rewrite <- (path_row_up g). by apply (climb_closed g0); [|apply membership_path_group| |].
Qed.

End paths.

Lemma fold_paths_None l g : fold_paths l !! g = None <-> forall p, p ∈ l -> path_group p <> g.
Proof.
  induction l as [|q l IH]; cbn; [set_solver|]. unfold fold_path.
  destruct (decide (path_group q = g)) as [<-|Hq].
  - rewrite lookup_insert_eq. split; [done|]. intros H. by destruct (H q); [left|].
  - rewrite lookup_insert_ne, IH by done. set_solver.
Qed.

(** [max] and [bool_or] grant what one of the rows grants. *)
Lemma fold_paths_Some l g read write manages :
  fold_paths l !! g = Some (read, write, manages) ->
  (forall n, n <= read <-> exists p, p ∈ l /\ path_group p = g /\ n <= path_read p) /\
  (forall n, n <= write <-> exists p, p ∈ l /\ path_group p = g /\ n <= path_write p) /\
  (manages = true <-> exists p, p ∈ l /\ path_group p = g /\ path_manages p = true).
Proof.
  revert read write manages. induction l as [|q l IH]; intros read write manages; [done|].
  cbn [fold_paths foldr]. fold (fold_paths l). unfold fold_path.
  setoid_rewrite elem_of_cons. destruct (decide (path_group q = g)) as [<-|Hq].
  - rewrite lookup_insert_eq. intros [= Heq].
    destruct (fold_paths l !! path_group q) as [[[a b] m]|] eqn:E; injection Heq as <- <- <-.
    + destruct (IH a b m eq_refl) as (Ha & Hb & Hm).
      split_and!; [intros n; rewrite Nat.max_le_iff, Ha|intros n; rewrite Nat.max_le_iff, Hb|rewrite orb_true_iff, Hm];
        naive_solver.
    + rewrite fold_paths_None in E. split_and!; naive_solver.
  - rewrite lookup_insert_ne by done. intros (Ha & Hb & Hm)%IH.
    split_and!; [intros n; rewrite Ha|intros n; rewrite Hb|rewrite Hm]; naive_solver.
Qed.

(** The ranks of the query are those of [Relation::role]. *)
Lemma relation_roles_role r :
  relation_roles r =
  (AccessCeiling.rank (role_read (Relation.role r)), AccessCeiling.rank (role_write (Relation.role r)),
   role_manage (Relation.role r)).
Proof. by destruct r. Qed.

Lemma path_row_grants g rs :
  (forall k, AccessKind.rank k <= path_read (path_row g rs) <->
     Forall (fun r => Role.may_read (Relation.role r) k = true) rs) /\
  (forall k, AccessKind.rank k <= path_write (path_row g rs) <->
     Forall (fun r => Role.may_write (Relation.role r) k = true) rs) /\
  (path_manages (path_row g rs) = true <-> Forall (fun r => Role.manages (Relation.role r) = true) rs).
Proof.
  unfold path_row, Role.may_read, Role.may_write, AccessCeiling.allows, Role.manages. cbn [path_read path_write path_manages].
  induction rs as [|r rs (IHr & IHw & IHm)]; cbn [foldr].
  - split_and!; [intros []|intros []|]; cbn; split; auto with lia.
  - rewrite relation_roles_role. cbn [fst snd].
    split_and!; [intros k|intros k|]; rewrite list.Forall_cons, ?Nat.leb_le, ?Nat.min_glb_iff, ?andb_true_iff;
      [rewrite IHr|rewrite IHw|rewrite IHm]; tauto.
Qed.

Lemma path_row_le g rs : path_write (path_row g rs) <= path_read (path_row g rs) <= 4.
Proof. cbn. induction rs as [|r rs IH]; cbn; [lia|]. destruct r; cbn; lia. Qed.

Lemma rank_access_ceiling n : n <= 4 -> AccessCeiling.rank (access_ceiling n) = n.
Proof. intros H. do 5 (destruct n as [|n]; [done|]). lia. Qed.

Section meaning.
Context (memberships : MembershipTable) (edges : EdgeTable) (u : Uuid) (Hf : forest edges).

Lemma user_projection_None g :
  user_projection memberships edges u !! g = None <-> forall rs, ~ member_path memberships edges u g rs.
Proof using Hf.
  unfold user_projection. rewrite lookup_fmap, fmap_None, fold_paths_None. split.
  - intros H rs Hm. apply (H (path_row g rs)); [|done]. apply paths_spec; eauto.
  - intros H p Hp <-. apply paths_spec in Hp as (rs & Hm & _); [|done]. by apply (H rs).
Qed.

(** A projected role grants exactly what some path grants, and a path grants
    what all its relations grant. *)
Lemma user_projection_Some g row :
  user_projection memberships edges u !! g = Some row ->
  (forall k, AccessCeiling.allows (proj_read row) k = true <->
     exists rs, member_path memberships edges u g rs /\ Forall (fun r => Role.may_read (Relation.role r) k = true) rs) /\
  (forall k, AccessCeiling.allows (proj_write row) k = true <->
     exists rs, member_path memberships edges u g rs /\ Forall (fun r => Role.may_write (Relation.role r) k = true) rs) /\
  (proj_manage row = true <->
     exists rs, member_path memberships edges u g rs /\ Forall (fun r => Role.manages (Relation.role r) = true) rs) /\
  AccessCeiling.rank (proj_write row) <= AccessCeiling.rank (proj_read row).
Proof using Hf.
  unfold user_projection. rewrite lookup_fmap, fmap_Some. intros ([[a b] m] & E & ->).
  destruct (fold_paths_Some _ _ _ _ _ E) as (Ha & Hb & Hm). cbn [projected proj_read proj_write proj_manage].
  assert (Hba : b <= a /\ a <= 4).
  { split; [apply Ha; destruct (proj1 (Hb b)) as (p & Hp & ? & ?); [done|]
           |destruct (proj1 (Ha a)) as (p & Hp & ? & ?); [done|]];
      pose proof (proj1 (paths_spec _ _ _ _ Hf) Hp) as (rs & _ & Hrow);
      pose proof (path_row_le (path_group p) rs) as Hle; rewrite <- Hrow in Hle; [exists p; split_and!; try done|]; lia. }
  assert (Hpath : forall Q : PathRow -> Prop,
    (exists p, p ∈ paths memberships edges u /\ path_group p = g /\ Q p) <->
    exists rs, member_path memberships edges u g rs /\ Q (path_row g rs)).
  { intros Q. split.
    - intros (p & Hp & <- & HQ). apply paths_spec in Hp as (rs & Hm' & Hrow); [|done]. rewrite Hrow in HQ. eauto.
    - intros (rs & Hm' & HQ). exists (path_row g rs). split_and!; [apply paths_spec; eauto|done|done]. }
  unfold AccessCeiling.allows. rewrite !rank_access_ceiling by lia.
  split_and!; [intros k; rewrite Nat.leb_le, Ha, Hpath|intros k; rewrite Nat.leb_le, Hb, Hpath|rewrite Hm, Hpath|lia];
    split; intros (rs & Hm' & HQ); exists rs; (split; [done|]); by apply (path_row_grants g rs).
Qed.

End meaning.
