(* ===== verification/Publication.v ===== *)
(** * Publication of listenable Facts

    The pure half of [crates/core/src/publication.rs]: the configured source,
    the host-bound extension attributes, the subject position and the sealing of
    an envelope.  UUID text, RFC 3339 text, JSON serialization and the blake3
    digest belong to other crates and are arguments of the definitions that use
    them. *)

From S2P Require Import Prelude Utf8 Ids Decimal Json.

(** ** Source *)

Record PublicationSource := mk_PublicationSource { PublicationSource_0 : rstring }.

Inductive PublicationSourceError :=
| SourceEmpty
| SourceIllegalCharacter (value : rstring)
| SourceNotAbsolute (value : rstring).

Module PublicationSource.

Definition illegal (c : char) : bool := is_whitespace c || is_control c || (c =? 34)%N.

Definition scheme_char (c : char) : bool :=
  is_ascii_alphanumeric c || (c =? chr "+")%N || (c =? chr "-")%N || (c =? chr ".")%N.

Definition new (raw : rstring) : result PublicationSource PublicationSourceError :=
  if is_empty raw then Err SourceEmpty
  else if existsb illegal raw then Err (SourceIllegalCharacter raw)
  else
    match split_once (chr ":") raw with
    | None => Err (SourceNotAbsolute raw)
    | Some (scheme, rest) =>
        if is_empty scheme || is_empty rest then Err (SourceNotAbsolute raw)
        else if negb (is_some_and (hd_error scheme) is_ascii_alphabetic)
                || negb (forallb scheme_char scheme)
        then Err (SourceNotAbsolute raw)
        else Ok (mk_PublicationSource raw)
    end.

Definition as_str (s : PublicationSource) : rstring := PublicationSource_0 s.

End PublicationSource.

(** ** Limits and configuration *)

Definition DEFAULT_MAX_PENDING : N := 100000.
Definition DEFAULT_MAX_PAYLOAD_BYTES : N := 524288.
Definition CLOUDEVENTS_SPEC_VERSION : rstring := str "1.0".
Definition CLOUDEVENTS_DATA_CONTENT_TYPE : rstring := str "application/json".

Record PublicationLimits := mk_PublicationLimits {
  max_pending : N;
  max_payload_bytes : N;
}.

Definition default_publication_limits : PublicationLimits :=
  mk_PublicationLimits DEFAULT_MAX_PENDING DEFAULT_MAX_PAYLOAD_BYTES.

Inductive PublicationError :=
| PayloadTooLarge (bytes max : N)
| OutboxCapacityExhausted (pending max : N)
| ExportFailed (reason : rstring)
| SourceUnbound (schema_id : rstring)
| UntypedListenableWrite (schema_id : rstring).

Record PublicationConfig := mk_PublicationConfig {
  config_source : option PublicationSource;
  config_limits : PublicationLimits;
}.

Module PublicationConfig.

Definition validate_against (self : PublicationConfig) (listenable : list rstring) :
    result unit PublicationError :=
  if is_some (config_source self) then Ok tt
  else if is_empty listenable then Ok tt
  else Err (SourceUnbound (join (str ", ") (dedup (sort_by str_leb listenable)))).

End PublicationConfig.

(** ** Extension attributes *)

Definition MAX_PUBLICATION_EXTENSIONS : nat := 8.
Definition MAX_EXTENSION_NAME_CHARS : N := 20.
Definition MAX_EXTENSION_VALUE_BYTES : N := 256.

Definition CLOUDEVENTS_CORE_ATTRIBUTES : list rstring :=
  [str "specversion"; str "id"; str "source"; str "type"; str "datacontenttype"; str "dataschema";
   str "subject"; str "time"; str "data"; str "data_base64"].
Definition PROXIIMA_EXTENSION_PREFIX : rstring := str "proxiima".
Definition SUBSTRATE_EXTENSION_ATTRIBUTES : list rstring := [str "sequence"].

Inductive ExtensionValue :=
| EString (s : rstring)
| EInteger (i : Z)
| EBoolean (b : bool).

Inductive PublicationExtensionsError :=
| EmptyName
| IllegalNameCharacter (name : rstring)
| NameTooLong (name : rstring) (chars max : N)
| CoreAttributeName (name : rstring)
| ReservedName (name prefix : rstring)
| SubstrateAttributeName (name : rstring)
| EmptyValue (name : rstring)
| IllegalValueCharacter (name : rstring)
| ValueTooLong (name : rstring) (bytes max : N)
| DuplicateName (name : rstring)
| TooMany (name : rstring) (max : nat).

Definition validate_extension_name (name : rstring) : result unit PublicationExtensionsError :=
  if is_empty name then Err EmptyName
  else if negb (forallb (fun c => is_ascii_lowercase c || is_ascii_digit c) name)
  then Err (IllegalNameCharacter name)
  else if (MAX_EXTENSION_NAME_CHARS <? len name)%N
  then Err (NameTooLong name (len name) MAX_EXTENSION_NAME_CHARS)
  else if slice_contains name CLOUDEVENTS_CORE_ATTRIBUTES then Err (CoreAttributeName name)
  else if slice_contains name SUBSTRATE_EXTENSION_ATTRIBUTES then Err (SubstrateAttributeName name)
  else if starts_with PROXIIMA_EXTENSION_PREFIX name
  then Err (ReservedName name PROXIIMA_EXTENSION_PREFIX)
  else Ok tt.

Definition validate_extension_value (name : rstring) (value : ExtensionValue) :
    result unit PublicationExtensionsError :=
  match value with
  | EString text =>
      if is_empty text then Err (EmptyValue name)
      else if existsb is_control text then Err (IllegalValueCharacter name)
      else if (MAX_EXTENSION_VALUE_BYTES <? len text)%N
      then Err (ValueTooLong name (len text) MAX_EXTENSION_VALUE_BYTES)
      else Ok tt
  | _ => Ok tt
  end.

(** The [BTreeMap]: a finite map, iterated in the order of its names. *)
Record PublicationExtensions := mk_PublicationExtensions {
  PublicationExtensions_0 : gmap rstring ExtensionValue;
}.

Module PublicationExtensions.

Definition new : PublicationExtensions := mk_PublicationExtensions ∅.

Definition bind (self : PublicationExtensions) (name : rstring) (value : ExtensionValue) :
    result PublicationExtensions PublicationExtensionsError :=
  let? _ := validate_extension_name name in
  let? _ := validate_extension_value name value in
  if is_some (PublicationExtensions_0 self !! name) then Err (DuplicateName name)
  else if MAX_PUBLICATION_EXTENSIONS <=? size (PublicationExtensions_0 self)
  then Err (TooMany name MAX_PUBLICATION_EXTENSIONS)
  else Ok (mk_PublicationExtensions (<[name := value]> (PublicationExtensions_0 self))).

Definition with_ (self : PublicationExtensions) (name : rstring) (value : ExtensionValue) :
    result PublicationExtensions PublicationExtensionsError := bind self name value.

(** The bound attributes in name order. *)
Definition iter (self : PublicationExtensions) : list (rstring * ExtensionValue) :=
  sort_by (fun a b => str_leb a.1 b.1) (map_to_list (PublicationExtensions_0 self)).

Fixpoint bind_all (self : PublicationExtensions) (entries : list (rstring * ExtensionValue)) :
    result PublicationExtensions PublicationExtensionsError :=
  match entries with
  | [] => Ok self
  | (name, value) :: rest =>
      let? self := bind self name value in
      bind_all self rest
  end.

Definition merged (self other : PublicationExtensions) :
    result PublicationExtensions PublicationExtensionsError := bind_all self (iter other).

Definition get (self : PublicationExtensions) (name : rstring) : option ExtensionValue :=
  PublicationExtensions_0 self !! name.

End PublicationExtensions.

(** ** Drafts, positions and sealing *)

(** What the [uuid] crate provides: hyphenated text and its parser. *)
Class UuidText := {
  hyphenated : Uuid -> rstring;
  try_parse : rstring -> option Uuid;
}.

(** Documented behaviour of that crate: the hyphenated form of a UUID parses
    back to it. *)
Class UuidTextLaws `{UuidText} : Prop := {
  try_parse_hyphenated u : (u < 2 ^ 128)%N -> try_parse (hyphenated u) = Some u;
}.

Record SchemaId := mk_SchemaId { SchemaId_0 : rstring }.
Record SchemaVersion := mk_SchemaVersion { SchemaVersion_0 : N }.

Definition data_schema_uri (schema_id : SchemaId) (schema_version : SchemaVersion) : rstring :=
  str "proxiima://schema/" ++ SchemaId_0 schema_id ++ str "/"
  ++ display_u64 (SchemaVersion_0 schema_version).

Record PublicationDraft := mk_PublicationDraft {
  draft_schema_id : SchemaId;
  draft_schema_version : SchemaVersion;
  draft_event_type : rstring;
  draft_data_schema : rstring;
  draft_source : PublicationSource;
  draft_model_id : option rstring;
  draft_owner : OwnerId;
  draft_extensions : PublicationExtensions;
  draft_data : Json;
}.

Module PublicationDraft.

Definition new (schema_id : SchemaId) (schema_version : SchemaVersion) (source : PublicationSource)
    (owner : OwnerId) (model_id : option rstring) (extensions : PublicationExtensions) (data : Json) :
    PublicationDraft :=
  mk_PublicationDraft schema_id schema_version (SchemaId_0 schema_id)
    (data_schema_uri schema_id schema_version) source model_id owner extensions data.

End PublicationDraft.

Record PublicationPlan := mk_PublicationPlan {
  plan_draft : PublicationDraft;
  plan_limits : PublicationLimits;
}.

Record PublicationStamp := mk_PublicationStamp {
  stamp_source : PublicationSource;
  stamp_model_id : option rstring;
  stamp_extensions : PublicationExtensions;
  stamp_limits : PublicationLimits;
}.

Module PublicationStamp.

Definition plan (self : PublicationStamp) (schema_id : SchemaId) (schema_version : SchemaVersion)
    (owner : OwnerId) (data : Json) : PublicationPlan :=
  mk_PublicationPlan
    (PublicationDraft.new schema_id schema_version (stamp_source self) owner (stamp_model_id self)
       (stamp_extensions self) data)
    (stamp_limits self).

End PublicationStamp.

(** The sequence is a [NonZeroU64]. *)
Record SubjectPosition := mk_SubjectPosition {
  position_subject : Uuid;
  position_sequence : N;
}.

Inductive SubjectPositionError := PositionSubject | PositionSequence.

Module SubjectPosition.

Definition SEQUENCE_DIGITS : nat := 20.

Definition subject_attribute `{UuidText} (self : SubjectPosition) : rstring :=
  hyphenated (position_subject self).

Definition sequence_attribute (self : SubjectPosition) : rstring :=
  pad_zeros SEQUENCE_DIGITS (display_u64 (position_sequence self)).

Definition parse `{UuidText} (subject sequence : rstring) :
    result SubjectPosition SubjectPositionError :=
  match (let* uuid := try_parse subject in
         if bool_decide (hyphenated uuid = subject) then Some uuid else None) with
  | None => Err PositionSubject
  | Some parsed =>
      if negb (len sequence =? N.of_nat SEQUENCE_DIGITS)%N
         || negb (forallb is_ascii_digit (bytes sequence))
      then Err PositionSequence
      else
        match (let* n := parse_u64 sequence in if (n =? 0)%N then None else Some n) with
        | None => Err PositionSequence
        | Some number => Ok (mk_SubjectPosition parsed number)
        end
  end.

#[global] Arguments sequence_attribute : simpl never.

End SubjectPosition.

Record SealedPublication := mk_SealedPublication {
  sealed_id : Uuid;
  sealed_event_id : rstring;
  sealed_bytes : list N;
  sealed_digest : list N;
  sealed_event_type : rstring;
  sealed_schema_id : SchemaId;
  sealed_schema_version : SchemaVersion;
}.

(** [Display] of an [i32]. *)
Definition display_i32 (i : Z) : rstring :=
  if (i <? 0)%Z then chr "-" :: display_u64 (Z.to_N (- i)) else display_u64 (Z.to_N i).

(** The untagged serialization of an attribute value. *)
Definition extension_json (v : ExtensionValue) : Json :=
  match v with
  | EString s => JString s
  | EInteger i => JNumber (display_i32 i)
  | EBoolean b => JBool b
  end.

(** [CloudEventEnvelope]: its members in serialization order, the flattened
    extensions between the substrate's own attributes and [data]. *)
Definition CloudEventEnvelope (id source event_type dataschema time subject sequence owner : rstring)
    (model : option rstring) (extensions : PublicationExtensions) (data : Json) :
    list (rstring * Json) :=
  [ (str "specversion", JString CLOUDEVENTS_SPEC_VERSION);
    (str "id", JString id);
    (str "source", JString source);
    (str "type", JString event_type);
    (str "datacontenttype", JString CLOUDEVENTS_DATA_CONTENT_TYPE);
    (str "dataschema", JString dataschema);
    (str "time", JString time);
    (str "subject", JString subject);
    (str "sequence", JString sequence);
    (str "proxiimaowner", JString owner) ]
  ++ match model with Some m => [(str "proxiimamodel", JString m)] | None => [] end
  ++ ((fun '(name, v) => (name, extension_json v)) <$> PublicationExtensions.iter extensions)
  ++ [(str "data", data)].

Module SealedPublication.

(** [rfc3339] is [checked_to_offset] followed by [format]; [to_vec] is
    [serde_json::to_vec]; [hash] is [blake3::hash]. *)
Definition seal `{UuidText} {OffsetDateTime : Type}
    (rfc3339 : OffsetDateTime -> result rstring rstring)
    (to_vec : list (rstring * Json) -> result (list N) rstring) (hash : list N -> list N)
    (plan : PublicationPlan) (t : Uuid) (occurred_at : OffsetDateTime) (position : SubjectPosition) :
    result SealedPublication PublicationError :=
  let draft := plan_draft plan in
  let event_id := hyphenated t in
  let? time := map_err (fun err => ExportFailed (str "memory id " ++ event_id ++ str " occurred_at: " ++ err))
                 (rfc3339 occurred_at) in
  let envelope :=
    CloudEventEnvelope event_id (PublicationSource.as_str (draft_source draft))
      (draft_event_type draft) (draft_data_schema draft) time
      (SubjectPosition.subject_attribute position) (SubjectPosition.sequence_attribute position)
      (hyphenated (OwnerId_0 (draft_owner draft))) (draft_model_id draft) (draft_extensions draft)
      (draft_data draft) in
  let? bytes := map_err ExportFailed (to_vec envelope) in
  if (max_payload_bytes (plan_limits plan) <? N.of_nat (length bytes))%N
  then Err (PayloadTooLarge (N.of_nat (length bytes)) (max_payload_bytes (plan_limits plan)))
  else Ok (mk_SealedPublication t event_id bytes (hash bytes) (draft_event_type draft)
             (draft_schema_id draft) (draft_schema_version draft)).

End SealedPublication.

(** ** Extension sets *)

Definition valid_entry (name : rstring) (value : ExtensionValue) : Prop :=
  validate_extension_name name = Ok tt /\ validate_extension_value name value = Ok tt.

(** The type invariant of [PublicationExtensions]. *)
Definition extensions_wf (self : PublicationExtensions) : Prop :=
  size (PublicationExtensions_0 self) <= MAX_PUBLICATION_EXTENSIONS /\
  map_Forall valid_entry (PublicationExtensions_0 self).

Lemma bind_Ok self name value r :
  PublicationExtensions.bind self name value = Ok r <->
  valid_entry name value /\ PublicationExtensions_0 self !! name = None /\
  size (PublicationExtensions_0 self) < MAX_PUBLICATION_EXTENSIONS /\
  r = mk_PublicationExtensions (<[name := value]> (PublicationExtensions_0 self)).
Proof.
  unfold PublicationExtensions.bind, valid_entry.
  destruct (validate_extension_name name) as [[]|]; [|naive_solver].
  destruct (validate_extension_value name value) as [[]|]; [|naive_solver].
  destruct (PublicationExtensions_0 self !! name); cbn [is_some]; [naive_solver|].
  destruct (Nat.leb_spec MAX_PUBLICATION_EXTENSIONS (size (PublicationExtensions_0 self))).
  - split; [discriminate|]. intros (_ & _ & ? & _). lia.
  - naive_solver.
Qed.

Lemma bind_all_Ok self l r :
  NoDup l.*1 -> size (PublicationExtensions_0 self) <= MAX_PUBLICATION_EXTENSIONS ->
  PublicationExtensions.bind_all self l = Ok r <->
  Forall (fun nv => valid_entry nv.1 nv.2 /\ PublicationExtensions_0 self !! nv.1 = None) l /\
  size (PublicationExtensions_0 self) + length l <= MAX_PUBLICATION_EXTENSIONS /\
  r = mk_PublicationExtensions (list_to_map l ∪ PublicationExtensions_0 self).
Proof.
  revert self. induction l as [|[n v] l IH]; intros self Hnd Hsz; cbn [PublicationExtensions.bind_all].
  { cbn. rewrite map_empty_union. split; [|by intros (_ & _ & ->); destruct self].
    intros [= <-]. split_and!; [constructor|lia|by destruct self]. }
  cbn [fmap list_fmap fst] in Hnd. apply list.NoDup_cons in Hnd as [Hn Hnd].
  rewrite list.Forall_cons. cbn [fst snd length list_to_map foldr].
  destruct (PublicationExtensions.bind self n v) as [s|e] eqn:E.
  - apply bind_Ok in E as (Hv & Hnone & Hlt & ->). rewrite IH; [|done|]; cbn [PublicationExtensions_0];
      rewrite map_size_insert_None by done; [|lia].
    assert (Hiff : Forall (fun nv => valid_entry nv.1 nv.2 /\
        <[n:=v]> (PublicationExtensions_0 self) !! nv.1 = None) l <->
      Forall (fun nv => valid_entry nv.1 nv.2 /\ PublicationExtensions_0 self !! nv.1 = None) l).
    { rewrite !list.Forall_forall. split; intros H [k w] Hin; specialize (H _ Hin); cbn in *.
      - destruct H as [? H%lookup_insert_None]. naive_solver.
      - rewrite lookup_insert_ne; [done|]. intros ->. apply Hn, list_elem_of_fmap. by exists (k, w). }
    rewrite Hiff, <-insert_union_l, insert_union_r by (by apply not_elem_of_list_to_map_1).
    split; intros (? & ? & ->); split_and!; try done; try lia; tauto.
  - split; [discriminate|]. intros (((Hv & Hnone) & _) & ? & _).
    assert (PublicationExtensions.bind self n v
            = Ok (mk_PublicationExtensions (<[n := v]> (PublicationExtensions_0 self)))) as E'
      by (apply bind_Ok; split_and!; try done; lia).
    congruence.
Qed.

Lemma iter_Permutation self :
  PublicationExtensions.iter self ≡ₚ map_to_list (PublicationExtensions_0 self).
Proof. apply sort_by_Permutation. Qed.

Lemma iter_NoDup self : NoDup (PublicationExtensions.iter self).*1.
Proof. rewrite iter_Permutation. apply NoDup_fst_map_to_list. Qed.

Lemma list_to_map_iter self :
  list_to_map (PublicationExtensions.iter self) = PublicationExtensions_0 self.
Proof.
  rewrite (list_to_map_proper (M := gmap rstring) _ _ (iter_NoDup self) (iter_Permutation self)).
  apply list_to_map_to_list.
Qed.

Lemma length_iter self :
  length (PublicationExtensions.iter self) = size (PublicationExtensions_0 self).
Proof. by rewrite (Permutation_length (iter_Permutation self)), length_map_to_list. Qed.

Lemma Forall_iter (P : rstring -> ExtensionValue -> Prop) self :
  Forall (fun nv => P nv.1 nv.2) (PublicationExtensions.iter self) <->
  map_Forall P (PublicationExtensions_0 self).
Proof.
  rewrite iter_Permutation, map_Forall_to_list. apply Forall_proper; [by intros []|done].
Qed.

(** Host-bound attributes are only ever added.  [bind] and [merged] keep the
    type invariant (at most eight attributes, every name and value valid);
    [bind] succeeds exactly for a valid unbound name below the limit and adds
    that one entry; [merged] succeeds exactly when the two sets are disjoint
    and their union fits, and yields the union, so no bound attribute is ever
    replaced or dropped and the result does not depend on which side came
    first. *)
Theorem publication_extensions_additive (self other : PublicationExtensions)
    (name : rstring) (value : ExtensionValue)
    (Hself : extensions_wf self) (Hother : extensions_wf other) :
  (forall r, PublicationExtensions.bind self name value = Ok r <->
     valid_entry name value /\ PublicationExtensions_0 self !! name = None /\
     size (PublicationExtensions_0 self) < MAX_PUBLICATION_EXTENSIONS /\
     r = mk_PublicationExtensions (<[name := value]> (PublicationExtensions_0 self))) /\
  (forall r, PublicationExtensions.merged self other = Ok r <->
     PublicationExtensions_0 self ##ₘ PublicationExtensions_0 other /\
     size (PublicationExtensions_0 self) + size (PublicationExtensions_0 other)
       <= MAX_PUBLICATION_EXTENSIONS /\
     r = mk_PublicationExtensions (PublicationExtensions_0 self ∪ PublicationExtensions_0 other)) /\
  (forall r, PublicationExtensions.bind self name value = Ok r \/
     PublicationExtensions.merged self other = Ok r ->
     extensions_wf r /\ PublicationExtensions_0 self ⊆ PublicationExtensions_0 r).
Proof.
  destruct Hself as [Hsz Hval], Hother as [_ Hval'].
  assert (Hmerge : forall r, PublicationExtensions.merged self other = Ok r <->
     PublicationExtensions_0 self ##ₘ PublicationExtensions_0 other /\
     size (PublicationExtensions_0 self) + size (PublicationExtensions_0 other)
       <= MAX_PUBLICATION_EXTENSIONS /\
     r = mk_PublicationExtensions (PublicationExtensions_0 self ∪ PublicationExtensions_0 other)).
  { intros r. unfold PublicationExtensions.merged.
    rewrite bind_all_Ok by (apply iter_NoDup || done). rewrite list_to_map_iter, length_iter,
      (Forall_iter (fun n v => valid_entry n v /\ PublicationExtensions_0 self !! n = None)).
    assert (Hd : map_Forall (fun n v => valid_entry n v /\ PublicationExtensions_0 self !! n = None)
        (PublicationExtensions_0 other) <->
      PublicationExtensions_0 self ##ₘ PublicationExtensions_0 other).
    { rewrite map_disjoint_spec. split.
      - intros H n v w Hv Hw. destruct (H n w Hw). congruence.
      - intros H n v Hv. split; [by apply Hval'|]. destruct (PublicationExtensions_0 self !! n) eqn:E; [|done].
        by destruct (H n e v). }
    rewrite Hd. split; intros (Hdisj & ? & ->); split_and!; try done; f_equal;
      [|symmetry]; by apply map_union_comm. }
  split; [apply bind_Ok|]. split; [exact Hmerge|]. intros r [Hb|Hm].
  - apply bind_Ok in Hb as (Hv & Hn & Hlt & ->). cbn. split; [|by apply insert_subseteq].
    split; cbn; [rewrite map_size_insert_None by done; lia|by apply map_Forall_insert_2].
  - apply Hmerge in Hm as (Hd & Hle & ->). cbn. split; [|by apply map_union_subseteq_l].
    split; cbn; [by rewrite map_size_disj_union|by apply map_Forall_union_2].
Qed.

Lemma publication_extensions_additive_witness :
  exists r, PublicationExtensions.merged
      (mk_PublicationExtensions {[ str "workflowrun" := EString (str "w1") ]})
      (mk_PublicationExtensions {[ str "step" := EInteger 3 ]}) = Ok r /\ extensions_wf r.
Proof.
  assert (Hwf : forall n v, valid_entry n v -> extensions_wf (mk_PublicationExtensions {[n := v]})).
  { intros n v Hv. split; cbn; [rewrite map_size_singleton; unfold MAX_PUBLICATION_EXTENSIONS; lia|].
    by apply map_Forall_singleton. }
  destruct (publication_extensions_additive
      (mk_PublicationExtensions {[ str "workflowrun" := EString (str "w1") ]})
      (mk_PublicationExtensions {[ str "step" := EInteger 3 ]}) (str "root") (EBoolean true))
    as (_ & Hm & Hr).
  - apply Hwf. split; vm_compute; reflexivity.
  - apply Hwf. split; vm_compute; reflexivity.
  - eexists. split; [|eapply Hr; right]; apply Hm; cbn [PublicationExtensions_0];
      rewrite !map_size_singleton; (split; [|split; [unfold MAX_PUBLICATION_EXTENSIONS; lia|reflexivity]]);
      apply map_disjoint_singleton_l_2, lookup_singleton_ne; discriminate.
Defined.

(** ** Subject positions *)

Definition position_wf (p : SubjectPosition) : Prop :=
  (position_subject p < 2 ^ 128)%N /\ (0 < position_sequence p <= U64_MAX)%N.

Lemma u64_fits_20_digits n : (n <= U64_MAX)%N -> (n < 10 ^ N.of_nat SubjectPosition.SEQUENCE_DIGITS)%N.
Proof. intros H. eapply N.le_lt_trans; [exact H|]. vm_compute. reflexivity. Qed.

Lemma sequence_attribute_spec p :
  (position_sequence p <= U64_MAX)%N ->
  length (SubjectPosition.sequence_attribute p) = SubjectPosition.SEQUENCE_DIGITS /\
  all_digits (SubjectPosition.sequence_attribute p) = true /\
  numeral (SubjectPosition.sequence_attribute p) = position_sequence p.
Proof.
  intros H. apply pad_zeros_spec; [unfold SubjectPosition.SEQUENCE_DIGITS; lia|].
  by apply u64_fits_20_digits.
Qed.

Section positions.
Context `{UuidTextLaws}.

Lemma subject_position_parse_sound subject sequence r :
  SubjectPosition.parse subject sequence = Ok r ->
  SubjectPosition.subject_attribute r = subject /\
  SubjectPosition.sequence_attribute r = sequence /\ (0 < position_sequence r <= U64_MAX)%N.
Proof.
  unfold SubjectPosition.parse, SubjectPosition.subject_attribute.
  destruct (try_parse subject) as [u|]; [|discriminate]. cbn. case_bool_decide as Hu; [|discriminate].
  destruct (len sequence =? _)%N eqn:Hlen; [|discriminate].
  rewrite all_digits_bytes. destruct (all_digits sequence) eqn:Hd; [|discriminate]. cbn.
  apply N.eqb_eq in Hlen. rewrite len_ascii in Hlen by by apply all_digits_ascii.
  assert (Hne : sequence <> []) by (by intros ->).
  rewrite (parse_u64_digits _ Hne Hd).
  destruct (N.leb_spec (numeral sequence) U64_MAX) as [Hle|]; [|discriminate]. cbn.
  destruct (N.eqb_spec (numeral sequence) 0) as [|Hnz]; [discriminate|]. intros [= <-].
  cbn [position_subject position_sequence]. split; [done|]. split; [|lia].
  destruct (sequence_attribute_spec (mk_SubjectPosition u (numeral sequence)) Hle) as (HL & HD & HN).
  apply numeral_inj; [rewrite HL; lia|exact HD|exact Hd|exact HN].
Qed.

Lemma subject_position_parses p :
  position_wf p ->
  SubjectPosition.parse (SubjectPosition.subject_attribute p) (SubjectPosition.sequence_attribute p) = Ok p.
Proof.
  intros (Hs & Hpos & Hmax). destruct (sequence_attribute_spec p Hmax) as (HL & HD & HN).
  unfold SubjectPosition.parse, SubjectPosition.subject_attribute.
  rewrite (try_parse_hyphenated _ Hs). cbn. rewrite bool_decide_true by done.
  rewrite all_digits_bytes, HD, len_ascii, HL, N.eqb_refl by (by apply all_digits_ascii). cbn.
  rewrite parse_u64_digits, HN, (proj2 (N.leb_le _ _) Hmax); [|by destruct (SubjectPosition.sequence_attribute p)|done].
  cbn. destruct (N.eqb_spec (position_sequence p) 0); [lia|]. by destruct p.
Qed.

(** The position attributes of an event are a faithful encoding: every
    position parses back from the two strings written for it; whatever pair of
    strings parses is exactly the spelling its position is written in, so equal
    positions are equal pairs of strings; the sequence is always twenty digits,
    and comparing those strings byte by byte is comparing the numbers. *)
Theorem subject_position_round_trip (p q : SubjectPosition) (Hp : position_wf p) (Hq : position_wf q) :
  SubjectPosition.parse (SubjectPosition.subject_attribute p) (SubjectPosition.sequence_attribute p)
  = Ok p /\
  (forall subject sequence r, SubjectPosition.parse subject sequence = Ok r ->
     SubjectPosition.subject_attribute r = subject /\
     SubjectPosition.sequence_attribute r = sequence /\ (0 < position_sequence r <= U64_MAX)%N) /\
  length (SubjectPosition.sequence_attribute p) = SubjectPosition.SEQUENCE_DIGITS /\
  lex_compare (bytes (SubjectPosition.sequence_attribute p))
              (bytes (SubjectPosition.sequence_attribute q))
  = (position_sequence p ?= position_sequence q)%N.
Proof.
  pose proof (subject_position_parses p Hp) as Hparse. destruct Hp as (_ & _ & Hmax), Hq as (_ & _ & Hmaxq).
  destruct (sequence_attribute_spec p Hmax) as (HL & HD & HN).
  destruct (sequence_attribute_spec q Hmaxq) as (HLq & HDq & HNq).
  split; [done|split; [exact subject_position_parse_sound|split; [done|]]].
  rewrite !bytes_ascii by (by apply all_digits_ascii).
  rewrite numeral_lex_compare by (done || congruence). by rewrite HN, HNq.
Qed.

End positions.

(** A decimal spelling of UUIDs, for the witnesses. *)
#[local] Instance decimal_uuid_text : UuidText := {|
  hyphenated := display_u64;
  try_parse s := Some (numeral s);
|}.

#[local] Instance decimal_uuid_text_laws : UuidTextLaws.
Proof. constructor. intros u _. cbn. f_equal. apply display_u64_spec. Qed.

Lemma subject_position_round_trip_witness :
  SubjectPosition.parse (SubjectPosition.subject_attribute (mk_SubjectPosition 77 12))
    (str "00000000000000000012") = Ok (mk_SubjectPosition 77 12).
Proof.
  destruct (subject_position_round_trip (mk_SubjectPosition 77 12) (mk_SubjectPosition 77 13))
    as (Hp & _).
  - split; vm_compute; [reflexivity|split; [reflexivity|discriminate]].
  - split; vm_compute; [reflexivity|split; [reflexivity|discriminate]].
  - replace (SubjectPosition.sequence_attribute (mk_SubjectPosition 77 12))
      with (str "00000000000000000012") in Hp by (vm_compute; reflexivity).
    exact Hp.
Defined.

(** ** Sealed envelopes *)

(** The attribute names the substrate writes. *)
Definition substrate_names : list rstring :=
  [str "specversion"; str "id"; str "source"; str "type"; str "datacontenttype"; str "dataschema";
   str "time"; str "subject"; str "sequence"; str "proxiimaowner"; str "proxiimamodel"; str "data"].

Lemma substrate_names_reserved n : n ∈ substrate_names -> validate_extension_name n <> Ok tt.
Proof.
  revert n. apply list.Forall_forall. unfold substrate_names.
  repeat (constructor; [vm_compute; discriminate|]). constructor.
Qed.

Lemma iter_elem self name value :
  (name, value) ∈ PublicationExtensions.iter self <-> PublicationExtensions_0 self !! name = Some value.
Proof. rewrite iter_Permutation. apply elem_of_map_to_list. Qed.

Lemma envelope_distinct id source ty schema time subject sequence owner model ext data :
  extensions_wf ext ->
  NoDup (CloudEventEnvelope id source ty schema time subject sequence owner model ext data).*1.
Proof.
  intros [_ Hval]. unfold CloudEventEnvelope.
  set (exts := (fun '(name, v) => (name, extension_json v)) <$> PublicationExtensions.iter ext).
  assert (Hfst : exts.*1 = (PublicationExtensions.iter ext).*1).
  { unfold exts. rewrite <-list_fmap_compose. apply list_fmap_ext. by intros ? []. }
  assert (Hext : forall n, n ∈ exts.*1 -> n ∉ substrate_names).
  { intros n Hn Hs. rewrite Hfst in Hn. apply list_elem_of_fmap in Hn as ([m v] & -> & Hin).
    apply iter_elem, Hval in Hin as [Hin _]. by apply (substrate_names_reserved m Hs). }
  rewrite (Permutation_app_comm exts [_]), !app_assoc, fmap_app. apply list.NoDup_app.
  split; [|split].
  - destruct model; apply (bool_decide_unpack _); vm_compute; exact I.
  - intros n Hn Hin. apply (Hext n Hin). clear -Hn. unfold substrate_names.
    destruct model; cbn [fmap list_fmap app fst] in Hn; set_solver.
  - rewrite Hfst. apply iter_NoDup.
Qed.

(** A sealed event is within the deployment's byte limit, carries the digest
    of exactly the bytes it stores, and those bytes serialize an envelope whose
    attribute names are all different: no host-bound attribute can shadow one
    the substrate writes, and every host-bound attribute is present beside the
    Fact's own id, source, owner, position and data. *)
Theorem seal_envelope_correct `{UuidText} {OffsetDateTime : Type}
    (rfc3339 : OffsetDateTime -> result rstring rstring)
    (to_vec : list (rstring * Json) -> result (list N) rstring) (hash : list N -> list N)
    (plan : PublicationPlan) (t : Uuid) (occurred_at : OffsetDateTime) (position : SubjectPosition)
    (s : SealedPublication)
    (Hwf : extensions_wf (draft_extensions (plan_draft plan)))
    (Hseal : SealedPublication.seal rfc3339 to_vec hash plan t occurred_at position = Ok s) :
  (N.of_nat (length (sealed_bytes s)) <= max_payload_bytes (plan_limits plan))%N /\
  sealed_digest s = hash (sealed_bytes s) /\
  sealed_id s = t /\ sealed_event_id s = hyphenated t /\
  exists time envelope,
    rfc3339 occurred_at = Ok time /\ to_vec envelope = Ok (sealed_bytes s) /\ NoDup envelope.*1 /\
    (str "id", JString (hyphenated t)) ∈ envelope /\
    (str "time", JString time) ∈ envelope /\
    (str "source", JString (PublicationSource.as_str (draft_source (plan_draft plan)))) ∈ envelope /\
    (str "proxiimaowner", JString (hyphenated (OwnerId_0 (draft_owner (plan_draft plan))))) ∈ envelope /\
    (str "sequence", JString (SubjectPosition.sequence_attribute position)) ∈ envelope /\
    (str "data", draft_data (plan_draft plan)) ∈ envelope /\
    (forall model, draft_model_id (plan_draft plan) = Some model ->
       (str "proxiimamodel", JString model) ∈ envelope) /\
    (forall name value,
       PublicationExtensions.get (draft_extensions (plan_draft plan)) name = Some value ->
       (name, extension_json value) ∈ envelope).
Proof.
  unfold SealedPublication.seal in Hseal.
  destruct (rfc3339 occurred_at) as [time|] eqn:Ht; [|discriminate]. cbn [map_err] in Hseal.
  match type of Hseal with context [to_vec ?e] => set (env := e) in * end.
  destruct (to_vec env) as [bs|] eqn:Hv; [|discriminate]. cbn [map_err] in Hseal.
  destruct (N.ltb_spec (max_payload_bytes (plan_limits plan)) (N.of_nat (length bs))); [discriminate|].
  injection Hseal as <-. cbn. do 4 (split; [done|]). exists time, env.
  split; [done|]. split; [done|]. split; [by apply envelope_distinct|].
  unfold env, CloudEventEnvelope.
  do 5 (split; [apply elem_of_app; left; rewrite !elem_of_cons; tauto|]).
  split; [rewrite !elem_of_app, list_elem_of_singleton; tauto|]. split.
  - intros model ->. rewrite !elem_of_app, list_elem_of_singleton. tauto.
  - intros name value Hget%iter_elem. rewrite !elem_of_app. do 2 right. left.
    apply list_elem_of_fmap. by exists (name, value).
Qed.

(** A toy serializer, for the witness: the number of members. *)
Definition sample_plan : PublicationPlan :=
  PublicationStamp.plan
    (mk_PublicationStamp (mk_PublicationSource (str "urn:proxiima:test")) (Some (str "runner-7"))
       (mk_PublicationExtensions {[ str "workflowrun" := EString (str "w1") ]})
       default_publication_limits)
    (mk_SchemaId (str "core/note-v1")) (mk_SchemaVersion 1) (mk_OwnerId 5) JNull.

Lemma seal_envelope_correct_witness :
  exists s, SealedPublication.seal (fun _ : Z => Ok (str "2026-01-01T00:00:00Z"))
      (fun members => Ok [N.of_nat (length members)]) (fun b => b)
      sample_plan 9 0%Z (mk_SubjectPosition 77 12) = Ok s /\
    sealed_digest s = sealed_bytes s.
Proof.
  eexists. split; [vm_compute; reflexivity|].
  edestruct (seal_envelope_correct (fun _ : Z => Ok (str "2026-01-01T00:00:00Z"))
      (fun members => Ok [N.of_nat (length members)]) (fun b => b)
      sample_plan 9 0%Z (mk_SubjectPosition 77 12)) as (_ & Hd & _).
  - split.
    + apply Nat.leb_le. vm_compute. reflexivity.
    + apply map_Forall_singleton. split; vm_compute; reflexivity.
  - vm_compute. reflexivity.
  - exact Hd.
Defined.

(** A publication source is accepted exactly when it is an absolute
    reference, a scheme that starts with a letter and uses only scheme
    characters, a colon and a non-empty body, with no whitespace, control
    character or double quote anywhere; the accepted value is kept verbatim. *)
Theorem publication_source_new_correct (raw : rstring) (s : PublicationSource) :
  PublicationSource.new raw = Ok s <->
  s = mk_PublicationSource raw /\
  (forall c, c ∈ raw -> is_whitespace c = false /\ is_control c = false /\ c <> 34%N) /\
  exists first scheme rest,
    raw = (first :: scheme) ++ chr ":" :: rest /\ rest <> [] /\ is_ascii_alphabetic first = true /\
    forallb PublicationSource.scheme_char (first :: scheme) = true.
Proof.
  assert (Hill : existsb PublicationSource.illegal raw = false <->
    forall c, c ∈ raw -> is_whitespace c = false /\ is_control c = false /\ c <> 34%N).
  { rewrite <-not_true_iff_false, existsb_exists. setoid_rewrite <-list_elem_of_In.
    unfold PublicationSource.illegal. split.
    - intros Hn c Hc. destruct (is_whitespace c) eqn:E1, (is_control c) eqn:E2, (N.eqb_spec c 34);
        try done; exfalso; apply Hn; exists c; rewrite E1, E2; split; try done; by rewrite (proj2 (N.eqb_eq _ _)).
    - intros H (c & Hc & Hi). destruct (H c Hc) as (E1 & E2 & Hq).
      rewrite E1, E2 in Hi. by apply N.eqb_eq in Hi. }
  unfold PublicationSource.new. split.
  - destruct raw as [|r0 raw']; [discriminate|]. cbn [is_empty]. set (raw := r0 :: raw') in *.
    destruct (existsb _ raw); [discriminate|]. pose proof (proj1 Hill eq_refl) as E.
    destruct (split_once (chr ":") raw) as [[scheme rest]|] eqn:Es; [|discriminate].
    apply split_once_Some in Es as [Hraw _].
    destruct scheme as [|first scheme]; [discriminate|]. destruct rest as [|r rest]; [discriminate|].
    cbn [is_empty orb hd_error is_some_and].
    destruct (is_ascii_alphabetic first) eqn:Ha; [|discriminate].
    destruct (forallb _ _) eqn:Hf; [|discriminate]. cbn. intros [= <-].
    split; [done|]. split; [done|]. by exists first, scheme, (r :: rest).
  - intros (-> & Hchars & first & scheme & rest & Hraw & Hrest & Ha & Hf). apply Hill in Hchars.
    rewrite Hchars. destruct raw as [|r0 raw']; [discriminate|]. cbn [is_empty].
    assert (Hs : split_once (chr ":") (r0 :: raw') = Some (first :: scheme, rest)).
    { apply split_once_Some. split; [done|]. intros Hc. rewrite forallb_forall in Hf.
      specialize (Hf _ (proj1 (list_elem_of_In _ _) Hc)). discriminate Hf. }
    rewrite Hs. destruct rest; [done|]. cbn [is_empty orb hd_error is_some_and]. by rewrite Ha, Hf.
Qed.
