(* ===== verification/Errors.v ===== *)
(** * Errors

    [crates/core/src/storage.rs]: what a storage backend answers with;
    [crates/storage-pg/src/error.rs]: what Postgres refuses a statement with;
    [crates/core/src/mcp/error.rs]: what a tool call fails with, and the kind a
    transport renders it by; [crates/core/src/engine/errors.rs]: what the engine
    makes of a storage failure. *)

From S2P Require Import Prelude Ids Decimal Publication.

Inductive ReplayDrift := FactRefs | DerivedRefs | DerivedIndexRows | DerivedExternalEdges.

Inductive StorageError :=
| StorageUnavailable (reason : rstring)
| ConstraintViolation (reason : rstring)
| Conflict (reason : rstring)
| MemoryIdCollision
| Retryable (reason : rstring)
| MembershipIsolation
| StorageForbidden (reason : rstring)
| StorageIdempotencyConflict (request_id : rstring) (existing : option Uuid)
| SchemaResetRequired (details : rstring)
| StorageNotFound
| ScopeMissing (kind : rstring) (id : Uuid)
| StorageSuppressed (reason : rstring)
| PublicationRefused (cause : PublicationError)
| GoalChildrenOpen (open : list GoalId)
| GoalChildrenAllAbandoned
| ReplayChanged (drift : ReplayDrift)
| StorageInternal (reason : rstring).

(** ** Postgres

    [crates/storage-pg/src/error.rs]: what the database refuses a statement with,
    and the storage error the driver's fault becomes.  [IdentityViolation] is a
    unique violation of a key that names a memory or a goal. *)

Inductive PgFault :=
| RowPolicy (table : rstring)
| UniqueViolation (table : rstring)
| IdentityViolation (constraint : rstring)
| ForeignKeyViolation (constraint : rstring)
| CheckViolation (constraint : rstring)
| NotNullViolation (column : rstring)
| NumericValueOutOfRange
| OwnerIsGroup (owner : Uuid)
| OwnerHasMemberships (owner : Uuid)
| SelfEdge
| EdgeCycle.

(** The text the driver gives a fault. *)
Class PgText := pg_message : PgFault -> rstring.

Module PgError.

Definition map_err `{PgText} (fault : PgFault) : StorageError :=
  match fault with
  | IdentityViolation _ => MemoryIdCollision
  | UniqueViolation _ | CheckViolation _ => ConstraintViolation (pg_message fault)
  | ForeignKeyViolation _ => Conflict (pg_message fault)
  | _ => StorageInternal (pg_message fault)
  end.

End PgError.

Definition pg_ok `{PgText} {A} (r : result A PgFault) : result A StorageError :=
  map_err PgError.map_err r.

Lemma pg_ok_Ok `{PgText} {A} (r : result A PgFault) a : pg_ok r = Ok a <-> r = Ok a.
Proof. unfold pg_ok, map_err. destruct r; naive_solver. Qed.

(** ** Tool errors *)

Inductive McpToolError :=
| InvalidInput (reason : rstring)
| ToolNotFound (reason : rstring)
| NotAuthorized (what : rstring)
| ToolProtocol (error : ProtocolError)
| LayeringViolation (reason : rstring)
| ToolStorage (error : StorageError)
| ToolUnavailable (reason : rstring)
| StoreUnavailable (store : N)
| ToolFailure (text : rstring)
| ToolOther (reason : rstring).

Inductive McpToolErrorKind :=
| KindInvalidInput | KindNotFound | KindInvalidRequest | KindCapacityExhausted
| KindStoreUnavailable | KindInternal.

Module McpToolError.

Definition protocol_kind (error : ProtocolError) : McpToolErrorKind :=
  match code error with
  | InvalidArgument => KindInvalidInput
  | NotFound => KindNotFound
  | Internal => KindInternal
  | CapacityExhausted => KindCapacityExhausted
  | AuthRequired | Forbidden | UnknownSchema | AlreadyIngested | IdempotencyConflict
  | ToolNotRegistered | TriggerConflict | DuplicateTriggerInRequest | Suppressed => KindInvalidRequest
  end.

Definition storage_kind (error : StorageError) : McpToolErrorKind :=
  match error with
  | ConstraintViolation _ | MembershipIsolation | GoalChildrenOpen _ | GoalChildrenAllAbandoned =>
      KindInvalidInput
  | StorageNotFound | ScopeMissing _ _ => KindNotFound
  | StorageForbidden _ | Conflict _ | StorageSuppressed _ | StorageIdempotencyConflict _ _
  | ReplayChanged _ => KindInvalidRequest
  | PublicationRefused publication =>
      match publication with
      | PayloadTooLarge _ _ | ExportFailed _ | UntypedListenableWrite _ => KindInvalidInput
      | SourceUnbound _ => KindInternal
      | OutboxCapacityExhausted _ _ => KindCapacityExhausted
      end
  | Retryable _ | StorageUnavailable _ | StorageInternal _ | MemoryIdCollision
  | SchemaResetRequired _ => KindInternal
  end.

Definition kind (self : McpToolError) : McpToolErrorKind :=
  match self with
  | InvalidInput _ => KindInvalidInput
  | ToolNotFound _ => KindNotFound
  | NotAuthorized _ | LayeringViolation _ | ToolUnavailable _ => KindInvalidRequest
  | ToolProtocol error => protocol_kind error
  | ToolStorage error => storage_kind error
  | StoreUnavailable _ => KindStoreUnavailable
  | ToolFailure _ => KindInvalidRequest
  | ToolOther _ => KindInternal
  end.

End McpToolError.

(** ** Texts and the engine's mapping *)

Section texts.
Context `{UuidText}.

Definition publication_error_display (error : PublicationError) : rstring :=
  match error with
  | PayloadTooLarge bytes max =>
      str "publication envelope is " ++ display_u64 bytes ++ str " bytes, over the " ++ display_u64 max
      ++ str "-byte limit"
  | OutboxCapacityExhausted pending max =>
      str "publication outbox is at capacity (" ++ display_u64 pending ++ str " pending, limit "
      ++ display_u64 max ++ str ")"
  | ExportFailed reason => str "publication export failed: " ++ reason
  | SourceUnbound schema_id =>
      str "schema " ++ schema_id
      ++ str " is listenable but no publication source is configured; set one before admitting listenable Facts"
  | UntypedListenableWrite schema_id =>
      str "schema " ++ schema_id
      ++ str " is listenable and must be written through the typed API; the receipt-only route carries no payload to export"
  end.

Definition replay_drift_display (drift : ReplayDrift) : rstring :=
  match drift with
  | FactRefs => str "fact replay changed declared refs"
  | DerivedRefs => str "derived replay changed declared refs"
  | DerivedIndexRows => str "derived replay changed declared index rows"
  | DerivedExternalEdges => str "derived replay changed declared external edges"
  end.

Definition join_goal_ids (ids : list GoalId) : rstring := join (str ", ") ((fun id => hyphenated (GoalId_0 id)) <$> ids).

Definition storage_error_display (error : StorageError) : rstring :=
  match error with
  | StorageUnavailable reason => str "storage backend unavailable: " ++ reason
  | ConstraintViolation reason => str "constraint violation: " ++ reason
  | Conflict reason => str "conflict: " ++ reason
  | MemoryIdCollision => str "memory UUID collision"
  | Retryable reason => str "retryable storage error: " ++ reason
  | MembershipIsolation => str "membership write requires READ COMMITTED isolation"
  | StorageForbidden reason => str "authorization refused: " ++ reason
  | StorageIdempotencyConflict request_id _ => str "idempotency_conflict:" ++ request_id
  | SchemaResetRequired details =>
      str "database schema does not match this release lane; export/reset is required: " ++ details
  | StorageNotFound => str "not found"
  | ScopeMissing kind id => str "scope not registered: " ++ kind ++ str ":" ++ hyphenated id
  | StorageSuppressed reason => str "suppressed: " ++ reason
  | PublicationRefused cause => str "publication refused: " ++ publication_error_display cause
  | GoalChildrenOpen open => str "goal has open children: " ++ join_goal_ids open
  | GoalChildrenAllAbandoned => str "goal children are all abandoned; achieve at least one child first"
  | ReplayChanged drift => replay_drift_display drift
  | StorageInternal reason => str "internal storage error: " ++ reason
  end.

Definition idempotency_conflict (key : rstring) (existing : option Uuid) : ProtocolError :=
  mk_ProtocolError IdempotencyConflict
    match existing with
    | Some handle =>
        str "idempotency_key " ++ key ++ str " already names " ++ hyphenated handle
        ++ str " with other content; resend it unchanged to replay, or write a new version with a new key and supersedes: "
        ++ hyphenated handle
    | None =>
        str "idempotency_key " ++ key
        ++ str " already names a write with other content; resend it unchanged to replay, or write a new version with a new key and supersedes"
    end None existing.

Definition replay_changed (drift : ReplayDrift) : ProtocolError :=
  mk_ProtocolError IdempotencyConflict
    (replay_drift_display drift
     ++ str "; resend it unchanged to replay, or write a new version with a new key and supersedes") None None.

Definition scope_not_registered (kind : rstring) (id : Uuid) : ProtocolError :=
  ProtocolError.not_found (str "scope not registered: " ++ kind ++ str ":" ++ hyphenated id).

Definition map_publication_error (err : PublicationError) : ProtocolError :=
  let text := publication_error_display err in
  match err with
  | PayloadTooLarge _ _ | ExportFailed _ | UntypedListenableWrite _ =>
      ProtocolError.invalid_argument (str "publication") text
  | OutboxCapacityExhausted _ _ => ProtocolError.capacity_exhausted text
  | SourceUnbound _ => ProtocolError.internal text
  end.

Definition map_write_storage_error (err : StorageError) (field not_found_message : rstring) : ProtocolError :=
  match err with
  | StorageNotFound => ProtocolError.not_found not_found_message
  | ScopeMissing kind id => scope_not_registered kind id
  | StorageIdempotencyConflict request_id existing => idempotency_conflict request_id existing
  | ReplayChanged drift => replay_changed drift
  | ConstraintViolation message | Conflict message => ProtocolError.invalid_argument field message
  | GoalChildrenOpen _ | GoalChildrenAllAbandoned =>
      ProtocolError.invalid_argument field (storage_error_display err)
  | MembershipIsolation =>
      ProtocolError.invalid_argument (str "transaction_isolation")
        (str "membership writes require READ COMMITTED isolation")
  | StorageForbidden message => ProtocolError.forbidden message
  | StorageSuppressed message => ProtocolError.suppressed message
  | PublicationRefused publication => map_publication_error publication
  | Retryable message | StorageUnavailable message | StorageInternal message => ProtocolError.internal message
  | SchemaResetRequired details => ProtocolError.internal details
  | MemoryIdCollision => ProtocolError.internal (str "memory UUID collision")
  end.

Definition internal_storage_error (context : rstring) (err : StorageError) : ProtocolError :=
  ProtocolError.internal (context ++ str ": " ++ storage_error_display err).

End texts.
