(* ===== verification/OwnerScope.v ===== *)
(** * The sealed owner scope

    [crates/core/src/owner_scope.rs]: the opaque witness of verified owner
    authority that authentication seals and requests can only narrow.  Methods
    that read the clock take the time they read. *)

From S2P Require Import Prelude Ids Access.

Record WriterAttribution := mk_WriterAttribution {
  writer_by : Uuid;
  writer_via : option Uuid;
}.

(** Marker of a principal that may take part in Goal collaboration. *)
Record GoalPrincipalScope := mk_GoalPrincipalScope { principal_subject : UserId }.

#[export] Instance WriterAttribution_eq_dec : EqDecision WriterAttribution.
Proof. solve_decision. Defined.

Record OwnerScope := mk_OwnerScope {
  scope_roles : OwnerRoles;
  scope_writer : WriterAttribution;
  scope_expires_at : option SystemTime;
  scope_selected : option OwnerId;
  scope_goal_principal : option GoalPrincipalScope;
}.

Module OwnerScope.

Definition from_verified_roles (roles : OwnerRoles) (expires_at : option SystemTime)
    (writer : WriterAttribution) : OwnerScope :=
  mk_OwnerScope roles writer expires_at None None.

Definition subject (self : OwnerScope) : UserId := roles_subject (scope_roles self).

Definition is_expired (now : SystemTime) (self : OwnerScope) : bool :=
  passed (scope_expires_at self) now.

Definition add_group_role (now : SystemTime) (self : OwnerScope) (group : GroupId) (role : Role) :
    option OwnerScope :=
  if is_some (scope_selected self) || is_expired now self then None
  else Some (mk_OwnerScope (OwnerRoles.with_group_role (scope_roles self) group role)
               (scope_writer self) (scope_expires_at self) None (scope_goal_principal self)).

Definition narrow (self : OwnerScope) (owner : OwnerId) : option OwnerScope :=
  let subject := roles_subject (scope_roles self) in
  let* role := OwnerRoles.role_for (scope_roles self) owner in
  Some (mk_OwnerScope (OwnerRoles.scoped_to subject owner role) (scope_writer self)
          (scope_expires_at self) (Some owner) None).

Definition with_goal_principal (self : OwnerScope) (principal : GoalPrincipalScope) : OwnerScope :=
  if is_some (scope_selected self) then self
  else mk_OwnerScope (scope_roles self) (scope_writer self) (scope_expires_at self)
         (scope_selected self) (Some principal).

Definition goal_principal (now : SystemTime) (self : OwnerScope) : option GoalPrincipalScope :=
  if is_expired now self then None else scope_goal_principal self.

Definition confined_to (self : OwnerScope) : option OwnerId := scope_selected self.

Definition role_for_owner (self : OwnerScope) (owner : OwnerId) : option Role :=
  OwnerRoles.role_for (scope_roles self) owner.

Definition may_read (now : SystemTime) (self : OwnerScope) (owner : OwnerId) (kind : AccessKind) : bool :=
  negb (is_expired now self) && OwnerRoles.may_read (scope_roles self) owner kind.

Definition may_write (now : SystemTime) (self : OwnerScope) (owner : OwnerId) (kind : AccessKind) : bool :=
  negb (is_expired now self) && OwnerRoles.may_write (scope_roles self) owner kind.

Definition readable_owners (now : SystemTime) (self : OwnerScope) (kind : AccessKind) : list OwnerId :=
  if is_expired now self then [] else OwnerRoles.readable_owners (scope_roles self) kind.

Definition managed_owners (now : SystemTime) (self : OwnerScope) : list OwnerId :=
  filter (fun owner => is_some_and (role_for_owner self owner) Role.manages = true)
    (readable_owners now self KFact).

Definition writable_owners (now : SystemTime) (self : OwnerScope) (kind : AccessKind) : list OwnerId :=
  if is_expired now self then [] else OwnerRoles.writable_owners (scope_roles self) kind.

End OwnerScope.

(** ** Lemmas *)

Lemma narrow_Some self owner scope :
  OwnerScope.narrow self owner = Some scope <->
  exists role, OwnerRoles.role_for (scope_roles self) owner = Some role /\
    scope = mk_OwnerScope (OwnerRoles.scoped_to (OwnerScope.subject self) owner role)
              (scope_writer self) (scope_expires_at self) (Some owner) None.
Proof.
  unfold OwnerScope.narrow. destruct (OwnerRoles.role_for _ _); cbn; naive_solver.
Qed.

Lemma scoped_to_role_for subject owner role other :
  OwnerRoles.role_for (OwnerRoles.scoped_to subject owner role) other
  = if bool_decide (other = owner) then Some role else None.
Proof.
  unfold OwnerRoles.role_for, OwnerRoles.scoped_to. cbn. case_bool_decide; simplify_map_eq; done.
Qed.

Lemma with_group_role_role_for roles group role owner :
  OwnerRoles.role_for (OwnerRoles.with_group_role roles group role) owner
  = if bool_decide (owner = OwnerId.from_group group) && negb (OwnerRoles.is_own roles owner)
    then Some role else OwnerRoles.role_for roles owner.
Proof.
  unfold OwnerRoles.role_for, OwnerRoles.with_group_role, OwnerRoles.is_own.
  repeat case_bool_decide; cbn; simplify_map_eq; done.
Qed.

Lemma with_group_role_subject roles group role :
  roles_subject (OwnerRoles.with_group_role roles group role) = roles_subject roles.
Proof. unfold OwnerRoles.with_group_role. by case_bool_decide. Qed.
