(* ===== verification/Authz.v ===== *)
(** * The authorization context

    [crates/core/src/authz.rs]: identity, capabilities, authentication path,
    server-resolved roles and the sealed scope one request acts under, with
    every constructor and builder.  The host's authenticator and role port are
    arguments; a method that reads the clock takes the time it read. *)

From S2P Require Import Prelude Ids Access ScopeKey Capability Json Text Publication OwnerScope.

Inductive AuthError := CredentialsRequired | InvalidCredentials.

Record Identity := mk_Identity {
  id_subject : option UserId;
  id_writer : option WriterAttribution;
  id_principal : OwnerId;
  accessible_principals : gset OwnerId;
  id_expires_at : option SystemTime;
  id_auth_epoch : N;
  id_trusted_model_id : option rstring;
}.

Definition can_access_principal (self : Identity) (principal : OwnerId) : bool :=
  bool_decide (principal ∈ accessible_principals self).

Inductive AuthPath := HostBearer | Delegated | System | Denied.

#[export] Instance AuthPath_eq_dec : EqDecision AuthPath.
Proof. solve_decision. Defined.

(** Boot-instance bindings: opaque UUIDs. *)
Record SystemAuthorityBinding := mk_SystemAuthorityBinding { system_binding_id : Uuid }.
Record SystemAuthority := mk_SystemAuthority { authority_binding : SystemAuthorityBinding }.
Record DelegationRuntimeBinding := mk_DelegationRuntimeBinding { runtime_binding_id : Uuid }.

#[export] Instance SystemAuthorityBinding_eq_dec : EqDecision SystemAuthorityBinding.
Proof. solve_decision. Defined.
#[export] Instance DelegationRuntimeBinding_eq_dec : EqDecision DelegationRuntimeBinding.
Proof. solve_decision. Defined.

Definition authorizes (self : SystemAuthority) (binding : SystemAuthorityBinding) : bool :=
  bool_decide (authority_binding self = binding).

Inductive OwnerScopeState :=
| Unsealed (confined_to : option OwnerId)
| Sealed (scope : OwnerScope).

Module OwnerScopeState.

Definition sealed (self : OwnerScopeState) : option OwnerScope :=
  match self with Unsealed _ => None | Sealed scope => Some scope end.

Definition confined_to (self : OwnerScopeState) : option OwnerId :=
  match self with
  | Unsealed confined_to => confined_to
  | Sealed scope => OwnerScope.confined_to scope
  end.

End OwnerScopeState.

Record InvokingTool := mk_InvokingTool {
  invoking_name : rstring;
  invoking_effect : option ToolEffect;
}.

Record AuthzContext := mk_AuthzContext {
  ctx_identity : Identity;
  ctx_capabilities : CapabilitySet;
  ctx_auth_path : AuthPath;
  ctx_owner_roles : option OwnerRoles;
  ctx_owner_scope : OwnerScopeState;
  ctx_forwarded_owner : option OwnerId;
  ctx_publication_extensions : PublicationExtensions;
  ctx_verified_claims : option (list (rstring * Json));
  ctx_default_owner : option OwnerId;
  ctx_invoking_tool : option InvokingTool;
  ctx_system_binding : option SystemAuthorityBinding;
}.

(** Field updates, as the builders' [mut self] writes them. *)
Definition set_identity (i : Identity) (c : AuthzContext) : AuthzContext :=
  mk_AuthzContext i (ctx_capabilities c) (ctx_auth_path c) (ctx_owner_roles c) (ctx_owner_scope c)
    (ctx_forwarded_owner c) (ctx_publication_extensions c) (ctx_verified_claims c)
    (ctx_default_owner c) (ctx_invoking_tool c) (ctx_system_binding c).
Definition set_capabilities (x : CapabilitySet) (c : AuthzContext) : AuthzContext :=
  mk_AuthzContext (ctx_identity c) x (ctx_auth_path c) (ctx_owner_roles c) (ctx_owner_scope c)
    (ctx_forwarded_owner c) (ctx_publication_extensions c) (ctx_verified_claims c)
    (ctx_default_owner c) (ctx_invoking_tool c) (ctx_system_binding c).
Definition set_owner_roles (x : option OwnerRoles) (c : AuthzContext) : AuthzContext :=
  mk_AuthzContext (ctx_identity c) (ctx_capabilities c) (ctx_auth_path c) x (ctx_owner_scope c)
    (ctx_forwarded_owner c) (ctx_publication_extensions c) (ctx_verified_claims c)
    (ctx_default_owner c) (ctx_invoking_tool c) (ctx_system_binding c).
Definition set_owner_scope (x : OwnerScopeState) (c : AuthzContext) : AuthzContext :=
  mk_AuthzContext (ctx_identity c) (ctx_capabilities c) (ctx_auth_path c) (ctx_owner_roles c) x
    (ctx_forwarded_owner c) (ctx_publication_extensions c) (ctx_verified_claims c)
    (ctx_default_owner c) (ctx_invoking_tool c) (ctx_system_binding c).
Definition set_forwarded_owner (x : option OwnerId) (c : AuthzContext) : AuthzContext :=
  mk_AuthzContext (ctx_identity c) (ctx_capabilities c) (ctx_auth_path c) (ctx_owner_roles c)
    (ctx_owner_scope c) x (ctx_publication_extensions c) (ctx_verified_claims c)
    (ctx_default_owner c) (ctx_invoking_tool c) (ctx_system_binding c).
Definition set_publication_extensions (x : PublicationExtensions) (c : AuthzContext) : AuthzContext :=
  mk_AuthzContext (ctx_identity c) (ctx_capabilities c) (ctx_auth_path c) (ctx_owner_roles c)
    (ctx_owner_scope c) (ctx_forwarded_owner c) x (ctx_verified_claims c)
    (ctx_default_owner c) (ctx_invoking_tool c) (ctx_system_binding c).
Definition set_verified_claims (x : option (list (rstring * Json))) (c : AuthzContext) : AuthzContext :=
  mk_AuthzContext (ctx_identity c) (ctx_capabilities c) (ctx_auth_path c) (ctx_owner_roles c)
    (ctx_owner_scope c) (ctx_forwarded_owner c) (ctx_publication_extensions c) x
    (ctx_default_owner c) (ctx_invoking_tool c) (ctx_system_binding c).
Definition set_default_owner (x : option OwnerId) (c : AuthzContext) : AuthzContext :=
  mk_AuthzContext (ctx_identity c) (ctx_capabilities c) (ctx_auth_path c) (ctx_owner_roles c)
    (ctx_owner_scope c) (ctx_forwarded_owner c) (ctx_publication_extensions c)
    (ctx_verified_claims c) x (ctx_invoking_tool c) (ctx_system_binding c).
Definition set_invoking_tool (x : option InvokingTool) (c : AuthzContext) : AuthzContext :=
  mk_AuthzContext (ctx_identity c) (ctx_capabilities c) (ctx_auth_path c) (ctx_owner_roles c)
    (ctx_owner_scope c) (ctx_forwarded_owner c) (ctx_publication_extensions c)
    (ctx_verified_claims c) (ctx_default_owner c) x (ctx_system_binding c).
Definition set_system_binding (x : option SystemAuthorityBinding) (c : AuthzContext) : AuthzContext :=
  mk_AuthzContext (ctx_identity c) (ctx_capabilities c) (ctx_auth_path c) (ctx_owner_roles c)
    (ctx_owner_scope c) (ctx_forwarded_owner c) (ctx_publication_extensions c)
    (ctx_verified_claims c) (ctx_default_owner c) (ctx_invoking_tool c) x.

Definition set_accessible_principals (x : gset OwnerId) (i : Identity) : Identity :=
  mk_Identity (id_subject i) (id_writer i) (id_principal i) x (id_expires_at i) (id_auth_epoch i)
    (id_trusted_model_id i).
Definition set_id_writer (x : option WriterAttribution) (i : Identity) : Identity :=
  mk_Identity (id_subject i) x (id_principal i) (accessible_principals i) (id_expires_at i)
    (id_auth_epoch i) (id_trusted_model_id i).
Definition set_id_expires_at (x : option SystemTime) (i : Identity) : Identity :=
  mk_Identity (id_subject i) (id_writer i) (id_principal i) (accessible_principals i) x
    (id_auth_epoch i) (id_trusted_model_id i).
Definition set_id_auth_epoch (x : N) (i : Identity) : Identity :=
  mk_Identity (id_subject i) (id_writer i) (id_principal i) (accessible_principals i)
    (id_expires_at i) x (id_trusted_model_id i).
Definition set_id_trusted_model_id (x : option rstring) (i : Identity) : Identity :=
  mk_Identity (id_subject i) (id_writer i) (id_principal i) (accessible_principals i)
    (id_expires_at i) (id_auth_epoch i) x.

(** The host's authenticator: outside the repository. *)
Record Authenticator (Credentials : Type) := mk_Authenticator {
  host_authenticate : Credentials -> result AuthzContext AuthError;
  current_auth_epoch : OwnerId -> N;
}.
Arguments host_authenticate {Credentials}.
Arguments current_auth_epoch {Credentials}.

Module AuthzContext.

(** *** Accessors *)

Definition owner_scope (self : AuthzContext) : option OwnerScope :=
  OwnerScopeState.sealed (ctx_owner_scope self).
Definition subject (self : AuthzContext) : option UserId := id_subject (ctx_identity self).
Definition auth_path (self : AuthzContext) : AuthPath := ctx_auth_path self.
Definition principal (self : AuthzContext) : OwnerId := id_principal (ctx_identity self).
Definition expires_at (self : AuthzContext) : option SystemTime := id_expires_at (ctx_identity self).
Definition auth_epoch (self : AuthzContext) : N := id_auth_epoch (ctx_identity self).
Definition trusted_model_id (self : AuthzContext) : option rstring :=
  id_trusted_model_id (ctx_identity self).
Definition writer (self : AuthzContext) : option WriterAttribution := id_writer (ctx_identity self).
Definition identity_for_revalidation (self : AuthzContext) : Identity := ctx_identity self.

Definition can_access_owner (self : AuthzContext) (owner : OwnerId) : bool :=
  can_access_principal (ctx_identity self) owner.
Definition is_server_resolved (self : AuthzContext) : bool := is_some (ctx_owner_roles self).

Definition may_read (self : AuthzContext) (owner : OwnerId) (kind : AccessKind) : bool :=
  is_some_and (ctx_owner_roles self) (fun roles => OwnerRoles.may_read roles owner kind).
Definition may_write (self : AuthzContext) (owner : OwnerId) (kind : AccessKind) : bool :=
  is_some_and (ctx_owner_roles self) (fun roles => OwnerRoles.may_write roles owner kind).
Definition may_run_tool (self : AuthzContext) (owner : OwnerId) (read_only : bool) : bool :=
  if read_only then may_read self owner KFact else may_write self owner KFact.
Definition may_manage (self : AuthzContext) (owner : OwnerId) : bool :=
  is_some_and (ctx_owner_roles self) (fun roles => OwnerRoles.may_manage roles owner).
Definition role_for_owner (self : AuthzContext) (owner : OwnerId) : option Role :=
  let* roles := ctx_owner_roles self in OwnerRoles.role_for roles owner.
Definition readable_owners (self : AuthzContext) (kind : AccessKind) : list OwnerId :=
  match ctx_owner_roles self with Some roles => OwnerRoles.readable_owners roles kind | None => [] end.
Definition writable_owners (self : AuthzContext) (kind : AccessKind) : list OwnerId :=
  match ctx_owner_roles self with Some roles => OwnerRoles.writable_owners roles kind | None => [] end.
Definition carries_system_authority (self : AuthzContext) (binding : SystemAuthorityBinding) : bool :=
  bool_decide (ctx_system_binding self = Some binding).

(** *** Constructors *)

(** [readable_owners(Fact).into_iter().collect::<HashSet<_>>()]. *)
Definition accessible (roles : OwnerRoles) : gset OwnerId :=
  list_to_set (OwnerRoles.readable_owners roles KFact).

Definition server_resolved_with_writer (owner_roles : OwnerRoles) (auth_path : AuthPath)
    (writer : WriterAttribution) : AuthzContext :=
  let subject := roles_subject owner_roles in
  {| ctx_identity :=
       {| id_subject := Some subject;
          id_writer := match auth_path with
                       | HostBearer | Delegated | System => Some writer
                       | Denied => None
                       end;
          id_principal := OwnerId.from_user subject;
          accessible_principals := accessible owner_roles;
          id_expires_at := None;
          id_auth_epoch := 0;
          id_trusted_model_id := None |};
     ctx_capabilities := CapabilitySet.all;
     ctx_auth_path := auth_path;
     ctx_owner_roles := Some owner_roles;
     ctx_owner_scope := Unsealed None;
     ctx_forwarded_owner := None;
     ctx_publication_extensions := PublicationExtensions.new;
     ctx_verified_claims := None;
     ctx_default_owner := None;
     ctx_invoking_tool := None;
     ctx_system_binding := None |}.

(** The attribution of a direct principal call. *)
Definition direct_writer (subject : UserId) : WriterAttribution :=
  mk_WriterAttribution (UserId_0 subject) None.

Definition server_resolved (owner_roles : OwnerRoles) (auth_path : AuthPath) : AuthzContext :=
  server_resolved_with_writer owner_roles auth_path (direct_writer (roles_subject owner_roles)).

Definition for_system (authority : SystemAuthority) (owner_roles : OwnerRoles) : AuthzContext :=
  let writer := direct_writer (roles_subject owner_roles) in
  let context := server_resolved_with_writer owner_roles System writer in
  let context :=
    set_owner_scope (Sealed (OwnerScope.from_verified_roles owner_roles None writer)) context in
  set_system_binding (Some (authority_binding authority)) context.

Definition from_verified_forwarded_owner (subject : UserId) (owner : OwnerId)
    (writer : WriterAttribution) : AuthzContext :=
  set_forwarded_owner (Some owner)
    (server_resolved_with_writer (OwnerRoles.without_access subject) HostBearer writer).

(** [None] is the panic of [unwrap]. *)
Definition for_subject_with_role (subject : UserId) (roles : list (OwnerId * Role))
    (auth_path : AuthPath) : option AuthzContext :=
  (fun roles => server_resolved roles auth_path) <$> ok (OwnerRoles.for_subject subject roles).
Definition for_subject (subject : UserId) (auth_path : AuthPath) : option AuthzContext :=
  for_subject_with_role subject [] auth_path.
Definition single_owner (owner : OwnerId) (auth_path : AuthPath) : option AuthzContext :=
  for_subject (OwnerId.as_user owner) auth_path.

Definition denied_for_owner (owner : OwnerId) : AuthzContext :=
  {| ctx_identity :=
       {| id_subject := None; id_writer := None; id_principal := owner;
          accessible_principals := ∅; id_expires_at := None; id_auth_epoch := 0;
          id_trusted_model_id := None |};
     ctx_capabilities := mk_CapabilitySet (ScopePalette []) (SurfacePalette []);
     ctx_auth_path := Denied;
     ctx_owner_roles := None;
     ctx_owner_scope := Unsealed None;
     ctx_forwarded_owner := None;
     ctx_publication_extensions := PublicationExtensions.new;
     ctx_verified_claims := None;
     ctx_default_owner := None;
     ctx_invoking_tool := None;
     ctx_system_binding := None |}.

(** *** Builders *)

Definition with_attested_writer (self : AuthzContext) (writer : WriterAttribution) :
    option AuthzContext :=
  if is_some (owner_scope self) || bool_decide (auth_path self = Denied) then None
  else Some (set_identity (set_id_writer (Some writer) (ctx_identity self)) self).

Definition with_verified_claims (self : AuthzContext) (claims : list (rstring * Json)) :
    AuthzContext := set_verified_claims (Some claims) self.

Definition with_tool_scope (self : AuthzContext) (scope : ToolScope) : AuthzContext :=
  set_capabilities (mk_CapabilitySet scope (served_surface (ctx_capabilities self))) self.

Definition with_served_surface (self : AuthzContext) (surface : ServedSurface) : AuthzContext :=
  let restricted :=
    match served_surface (ctx_capabilities self) with
    | SurfaceAll => surface
    | SurfacePalette _ as current => ServedSurface.intersect current surface
    end in
  set_capabilities (mk_CapabilitySet (tool_scope (ctx_capabilities self)) restricted) self.

Definition with_trusted_model_id (self : AuthzContext) (id : rstring) :
    result AuthzContext TrustedModelIdError :=
  let? id := validate_trusted_model_id id in
  Ok (set_identity (set_id_trusted_model_id (Some id) (ctx_identity self)) self).

Definition with_publication_extensions (self : AuthzContext) (extensions : PublicationExtensions) :
    result AuthzContext PublicationExtensionsError :=
  let? merged := PublicationExtensions.merged (ctx_publication_extensions self) extensions in
  Ok (set_publication_extensions merged self).

Definition with_default_owner (self : AuthzContext) (owner : OwnerId) : option AuthzContext :=
  let* _ := role_for_owner self owner in
  Some (set_default_owner (Some owner) self).

Definition invoked_by_tool (self : AuthzContext) (tool : InvokingTool) : AuthzContext :=
  set_invoking_tool (Some tool) self.

Definition with_expires_at (self : AuthzContext) (expires_at : option SystemTime) : AuthzContext :=
  set_identity (set_id_expires_at expires_at (ctx_identity self)) self.

Definition with_auth_epoch (self : AuthzContext) (auth_epoch : N) : AuthzContext :=
  set_identity (set_id_auth_epoch auth_epoch (ctx_identity self)) self.

Definition narrowed_to_owner (self : AuthzContext) (owner : OwnerId) : option AuthzContext :=
  let* roles := ctx_owner_roles self in
  let subject := roles_subject roles in
  let* role := OwnerRoles.role_for roles owner in
  let narrowed_roles := OwnerRoles.scoped_to subject owner role in
  let* state := match ctx_owner_scope self with
                | Unsealed _ => Some (Unsealed (Some owner))
                | Sealed scope => Sealed <$> OwnerScope.narrow scope owner
                end in
  Some
    (set_default_owner None
       (set_identity (set_accessible_principals (accessible narrowed_roles) (ctx_identity self))
          (set_owner_scope state (set_owner_roles (Some narrowed_roles) self)))).

(** Replace the role map and recompute the accessible set from it. *)
Definition replace_roles (roles : OwnerRoles) (self : AuthzContext) : AuthzContext :=
  set_identity (set_accessible_principals (accessible roles) (ctx_identity self))
    (set_owner_roles (Some roles) self).

Definition with_host_resolved_role (self : AuthzContext) (group : GroupId) (role : Role) :
    option AuthzContext :=
  match ctx_owner_scope self with
  | Unsealed None =>
      if is_some (ctx_forwarded_owner self) then None
      else
        let* roles := ctx_owner_roles self in
        Some (replace_roles (OwnerRoles.with_group_role roles group role) self)
  | _ => None
  end.

(** Two clock reads: [is_expired] here and inside [add_group_role]. *)
Definition with_authenticated_group_role (now now' : SystemTime) (self : AuthzContext)
    (port : OwnerAccessPort) (group : GroupId) : option AuthzContext :=
  if is_some (ctx_forwarded_owner self) then None
  else
    let* scope := owner_scope self in
    if OwnerScope.is_expired now scope then None
    else
      let* subject := subject self in
      let* answer := ok (resolve_group_role port subject group) in
      let* role := answer in
      let* scope := OwnerScope.add_group_role now' scope group role in
      let* roles := ctx_owner_roles self in
      Some (set_owner_scope (Sealed scope)
              (replace_roles (OwnerRoles.with_group_role roles group role) self)).

(** [a.into_iter().chain(b).min()] of two optional deadlines. *)
Definition min_deadline (a b : option SystemTime) : option SystemTime :=
  match a, b with
  | Some a, Some b => Some (Z.min a b)
  | Some d, None | None, Some d => Some d
  | None, None => None
  end.

Definition with_authenticated_forwarded_owner (now : SystemTime) (self : AuthzContext)
    (port : OwnerAccessPort) (owner : OwnerId) : option AuthzContext :=
  let* scope := owner_scope self in
  let expires_at := min_deadline (expires_at self) (scope_expires_at scope) in
  if negb (bool_decide (ctx_forwarded_owner self = Some owner)) || passed expires_at now then None
  else
    let* subject := subject self in
    let* forwarder := ok (is_forwarder port subject) in
    if negb forwarder then None
    else
      let* answer := ok (resolve_forwarded_owner_role port subject owner) in
      let* role := answer in
      let roles := OwnerRoles.scoped_to subject owner (ForwarderRole.role role) in
      let next := replace_roles roles self in
      let next := set_identity (set_id_expires_at expires_at (ctx_identity next)) next in
      let next :=
        set_owner_scope
          (Sealed (OwnerScope.from_verified_roles roles expires_at (scope_writer scope))) next in
      narrowed_to_owner next owner.

(** [None] is the panic of [expect]. *)
Definition for_insecure_single_owner (authority : SystemAuthority) (owner : OwnerId) :
    option AuthzContext :=
  let subject := OwnerId.as_user owner in
  let roles := OwnerRoles.scoped_to subject owner Role.personal in
  let writer := direct_writer subject in
  let context := server_resolved_with_writer roles HostBearer writer in
  let context := set_owner_scope (Sealed (OwnerScope.from_verified_roles roles None writer)) context in
  narrowed_to_owner context owner.

(** *** Sealing *)

Definition seal_verified_scope (self : AuthzContext) : result AuthzContext AuthError :=
  let? roles := ok_or (ctx_owner_roles self) InvalidCredentials in
  let? writer := ok_or (writer self) InvalidCredentials in
  let scope := OwnerScope.from_verified_roles roles (expires_at self) writer in
  let confined := OwnerScopeState.confined_to (ctx_owner_scope self) in
  let scope :=
    if bool_decide (auth_path self = HostBearer) && negb (is_some (ctx_forwarded_owner self))
       && negb (is_some confined)
    then OwnerScope.with_goal_principal scope (mk_GoalPrincipalScope (OwnerScope.subject scope))
    else scope in
  let? scope := match confined with
                | Some owner => ok_or (OwnerScope.narrow scope owner) InvalidCredentials
                | None => Ok scope
                end in
  Ok (set_owner_scope (Sealed scope) self).

Definition authenticate {Credentials} (authenticator : Authenticator Credentials)
    (credentials : Credentials) : result AuthzContext AuthError :=
  let? context := host_authenticate authenticator credentials in
  seal_verified_scope context.

End AuthzContext.

(** ** Engine authority *)

Record DelegatedPhase := mk_DelegatedPhase {
  phase_authz : AuthzContext;
  phase_expires_at : SystemTime;
  phase_runtime_binding : DelegationRuntimeBinding;
}.

(** The two implementations of the sealed [EngineAuthority] trait. *)
Inductive EngineAuthority :=
| OfContext (authz : AuthzContext)
| OfPhase (phase : DelegatedPhase).

Record EngineOperationAuthority := mk_EngineOperationAuthority {
  op_authz : AuthzContext;
  op_redeemed_phase : bool;
  op_runtime_binding : option DelegationRuntimeBinding;
}.

Definition validate_runtime_binding (self : EngineOperationAuthority)
    (expected : option DelegationRuntimeBinding) : result unit ProtocolError :=
  match op_runtime_binding self, expected with
  | None, _ => Ok tt
  | Some actual, Some expected =>
      if bool_decide (actual = expected) then Ok tt
      else Err (ProtocolError.forbidden (str "delegated worker phase belongs to a different runtime"))
  | Some _, None =>
      Err (ProtocolError.forbidden (str "delegated worker phase belongs to a different runtime"))
  end.

Definition context_for_engine_operation (now : SystemTime) (authority : EngineAuthority) :
    result EngineOperationAuthority ProtocolError :=
  match authority with
  | OfContext authz =>
      if bool_decide (AuthzContext.auth_path authz = Delegated)
      then Err (ProtocolError.forbidden
                  (str "raw delegated authorization contexts are not Engine authority"))
      else Ok (mk_EngineOperationAuthority authz false None)
  | OfPhase phase =>
      if (phase_expires_at phase <=? now)%Z
      then Err (ProtocolError.forbidden (str "delegated worker phase has expired"))
      else Ok (mk_EngineOperationAuthority (phase_authz phase) true (Some (phase_runtime_binding phase)))
  end.

(** ** Reachable contexts

    Every context a host or the engine can hold: a constructor followed by any
    sequence of builders. *)

Inductive ctx_init : AuthzContext -> Prop :=
| init_server_resolved roles path writer :
    ctx_init (AuthzContext.server_resolved_with_writer roles path writer)
| init_system authority roles : ctx_init (AuthzContext.for_system authority roles)
| init_forwarded subject owner writer :
    ctx_init (AuthzContext.from_verified_forwarded_owner subject owner writer)
| init_insecure authority owner c :
    AuthzContext.for_insecure_single_owner authority owner = Some c -> ctx_init c
| init_denied owner : ctx_init (AuthzContext.denied_for_owner owner).

Inductive ctx_step (c : AuthzContext) : AuthzContext -> Prop :=
| step_writer writer c' : AuthzContext.with_attested_writer c writer = Some c' -> ctx_step c c'
| step_claims claims : ctx_step c (AuthzContext.with_verified_claims c claims)
| step_tool_scope scope : ctx_step c (AuthzContext.with_tool_scope c scope)
| step_surface surface : ctx_step c (AuthzContext.with_served_surface c surface)
| step_model_id id c' : AuthzContext.with_trusted_model_id c id = Ok c' -> ctx_step c c'
| step_extensions ext c' : AuthzContext.with_publication_extensions c ext = Ok c' -> ctx_step c c'
| step_default_owner owner c' : AuthzContext.with_default_owner c owner = Some c' -> ctx_step c c'
| step_invoked tool : ctx_step c (AuthzContext.invoked_by_tool c tool)
| step_expires expires_at : ctx_step c (AuthzContext.with_expires_at c expires_at)
| step_epoch epoch : ctx_step c (AuthzContext.with_auth_epoch c epoch)
| step_narrow owner c' : AuthzContext.narrowed_to_owner c owner = Some c' -> ctx_step c c'
| step_host_role group role c' :
    AuthzContext.with_host_resolved_role c group role = Some c' -> ctx_step c c'
| step_group_role now now' port group c' :
    AuthzContext.with_authenticated_group_role now now' c port group = Some c' -> ctx_step c c'
| step_forwarded now port owner c' :
    AuthzContext.with_authenticated_forwarded_owner now c port owner = Some c' -> ctx_step c c'
| step_seal c' : AuthzContext.seal_verified_scope c = Ok c' -> ctx_step c c'.

Definition ctx_reachable (c : AuthzContext) : Prop := exists c0, ctx_init c0 /\ rtc ctx_step c0 c.

(** The owner a context is confined to, sealed or not. *)
Definition confinement (c : AuthzContext) : option OwnerId :=
  OwnerScopeState.confined_to (ctx_owner_scope c).

(** What holds of the goal principal a scope carries. *)
Definition goal_lane_ok (c : AuthzContext) (scope : OwnerScope) : Prop :=
  forall p, scope_goal_principal scope = Some p ->
    ctx_auth_path c = HostBearer /\ ctx_forwarded_owner c = None /\ scope_selected scope = None /\
    principal_subject p = OwnerScope.subject scope.

Record ctx_inv (c : AuthzContext) : Prop := mk_ctx_inv {
  inv_accessible :
    accessible_principals (ctx_identity c)
    = match ctx_owner_roles c with Some roles => AuthzContext.accessible roles | None => ∅ end;
  inv_subject : forall roles, ctx_owner_roles c = Some roles ->
    id_subject (ctx_identity c) = Some (roles_subject roles);
  inv_sealed : forall scope, AuthzContext.owner_scope c = Some scope ->
    ctx_owner_roles c = Some (scope_roles scope) /\
    id_writer (ctx_identity c) = Some (scope_writer scope) /\ goal_lane_ok c scope;
  inv_default : forall owner, ctx_default_owner c = Some owner ->
    is_Some (AuthzContext.role_for_owner c owner);
  inv_confined : forall owner, confinement c = Some owner ->
    is_Some (AuthzContext.role_for_owner c owner) /\
    forall other role, AuthzContext.role_for_owner c other = Some role -> other = owner;
  inv_forwarded : forall owner, ctx_forwarded_owner c = Some owner ->
    forall other role, AuthzContext.role_for_owner c other = Some role ->
      other = owner /\ Role.manages role = false;
  inv_denied : ctx_auth_path c = Denied ->
    id_writer (ctx_identity c) = None /\ AuthzContext.owner_scope c = None;
  inv_extensions : extensions_wf (ctx_publication_extensions c);
  inv_model_id : forall id, id_trusted_model_id (ctx_identity c) = Some id -> bindable id;
  inv_system : forall binding, ctx_system_binding c = Some binding -> ctx_auth_path c = System;
}.

(** *** Helper lemmas *)

Lemma bind_all_wf self l r :
  extensions_wf self -> PublicationExtensions.bind_all self l = Ok r ->
  extensions_wf r /\ PublicationExtensions_0 self ⊆ PublicationExtensions_0 r.
Proof.
  revert self. induction l as [|[n v] l IH]; intros self Hwf; cbn.
  - by intros [= <-].
  - destruct (PublicationExtensions.bind self n v) as [s|] eqn:E; [|discriminate].
    apply bind_Ok in E as (Hv & Hnone & Hlt & ->). destruct Hwf as [Hsz Hval].
    intros [Hr Hsub]%IH; cbn in *.
    + split; [done|]. etransitivity; [|exact Hsub]. by apply insert_subseteq.
    + split; cbn; [rewrite map_size_insert_None by done; lia|by apply map_Forall_insert_2].
Qed.

Lemma narrowed_to_owner_Some c owner c' :
  AuthzContext.narrowed_to_owner c owner = Some c' ->
  exists roles role state,
    ctx_owner_roles c = Some roles /\ OwnerRoles.role_for roles owner = Some role /\
    match ctx_owner_scope c with
    | Unsealed _ => state = Unsealed (Some owner)
    | Sealed scope => exists narrowed, OwnerScope.narrow scope owner = Some narrowed /\ state = Sealed narrowed
    end /\
    c' = set_default_owner None (set_owner_scope state
           (AuthzContext.replace_roles (OwnerRoles.scoped_to (roles_subject roles) owner role) c)).
Proof.
  unfold AuthzContext.narrowed_to_owner. intros H.
  destruct (ctx_owner_roles c) as [roles|] eqn:Er; [|discriminate].
  destruct (OwnerRoles.role_for roles owner) as [role|] eqn:Erole; [|discriminate].
  destruct (ctx_owner_scope c) as [o|scope] eqn:Es; cbn in H.
  - injection H as <-. by exists roles, role, (Unsealed (Some owner)).
  - destruct (OwnerScope.narrow scope owner) as [narrowed|] eqn:En; [|discriminate].
    injection H as <-. exists roles, role, (Sealed narrowed). split_and!; try done. by exists narrowed.
Qed.

Lemma forwarder_role_not_manages f : Role.manages (ForwarderRole.role f) = false.
Proof. by destruct f. Qed.

Lemma role_for_replace roles c owner :
  AuthzContext.role_for_owner (AuthzContext.replace_roles roles c) owner = OwnerRoles.role_for roles owner.
Proof. done. Qed.

Lemma extensions_wf_new : extensions_wf PublicationExtensions.new.
Proof. split; cbn; [rewrite map_size_empty; lia|apply map_Forall_empty]. Qed.

(** A context whose scope is unsealed and unconfined, or sealed over its own
    roles and writer, with no default, no forwarded owner and no extensions. *)
Lemma ctx_inv_fresh c roles :
  ctx_owner_roles c = Some roles ->
  accessible_principals (ctx_identity c) = AuthzContext.accessible roles ->
  id_subject (ctx_identity c) = Some (roles_subject roles) ->
  match ctx_owner_scope c with
  | Unsealed o => o = None
  | Sealed s => scope_roles s = roles /\ id_writer (ctx_identity c) = Some (scope_writer s) /\
      scope_selected s = None /\ scope_goal_principal s = None /\ ctx_auth_path c <> Denied
  end ->
  (ctx_auth_path c = Denied -> id_writer (ctx_identity c) = None) ->
  ctx_default_owner c = None ->
  (forall f, ctx_forwarded_owner c = Some f -> roles_map roles = ∅) ->
  ctx_publication_extensions c = PublicationExtensions.new ->
  id_trusted_model_id (ctx_identity c) = None ->
  (forall b, ctx_system_binding c = Some b -> ctx_auth_path c = System) ->
  ctx_inv c.
Proof.
  intros Hr Ha Hs Hsc Hd Hdef Hf He Hm Hb. constructor; try congruence.
  - by rewrite Hr.
  - intros scope. unfold AuthzContext.owner_scope, goal_lane_ok.
    destruct (ctx_owner_scope c); cbn; [discriminate|]. intros [= <-].
    destruct Hsc as (<- & ? & ? & Hg & ?). split; [done|]. split; [done|]. by rewrite Hg.
  - unfold confinement. destruct (ctx_owner_scope c); cbn; [congruence|].
    destruct Hsc as (_ & _ & Hsel & _). unfold OwnerScope.confined_to. congruence.
  - intros owner Ho other role. unfold AuthzContext.role_for_owner, OwnerRoles.role_for. rewrite Hr. cbn.
    by rewrite (Hf _ Ho), lookup_empty.
  - intros HD. split; [auto|]. unfold AuthzContext.owner_scope.
    destruct (ctx_owner_scope c); [done|]. by destruct Hsc as (_ & _ & _ & _ & []).
  - rewrite He. apply extensions_wf_new.
  - exact Hb.
Qed.

Lemma ctx_inv_server_resolved roles path writer :
  ctx_inv (AuthzContext.server_resolved_with_writer roles path writer).
Proof. eapply ctx_inv_fresh; try done. by destruct path. Qed.

(** Replacing the roles of a context, when the scope is replaced consistently. *)
Lemma ctx_inv_replace c roles state :
  ctx_inv c ->
  id_subject (ctx_identity c) = Some (roles_subject roles) ->
  match state with
  | Unsealed _ => AuthzContext.owner_scope c = None
  | Sealed s => scope_roles s = roles /\ id_writer (ctx_identity c) = Some (scope_writer s) /\
      goal_lane_ok c s
  end ->
  (forall o, ctx_default_owner c = Some o -> is_Some (OwnerRoles.role_for roles o)) ->
  (forall o, OwnerScopeState.confined_to state = Some o ->
     is_Some (OwnerRoles.role_for roles o) /\
     forall x r, OwnerRoles.role_for roles x = Some r -> x = o) ->
  (forall f, ctx_forwarded_owner c = Some f -> forall x r, OwnerRoles.role_for roles x = Some r ->
     x = f /\ Role.manages r = false) ->
  ctx_inv (set_owner_scope state (AuthzContext.replace_roles roles c)).
Proof.
  intros [Ha Hs Hsc Hdef Hc Hf Hd He Hm Hb] Hsubj Hstate Hdefault Hconf Hfwd.
  constructor; cbn; try done.
  - congruence.
  - intros scope. unfold AuthzContext.owner_scope. cbn. destruct state as [|s]; cbn; [discriminate|].
    intros [= <-]. destruct Hstate as (<- & ? & ?). done.
  - intros HD. destruct (Hd HD) as [Hw Hn]. split; [done|]. unfold AuthzContext.owner_scope. cbn.
    destruct state; [done|]. destruct Hstate as (_ & ? & _). congruence.
Qed.

Lemma ctx_inv_set_default_None c : ctx_inv c -> ctx_inv (set_default_owner None c).
Proof. intros []. constructor; try done. Qed.

Lemma ctx_inv_narrow c owner c' :
  ctx_inv c -> AuthzContext.narrowed_to_owner c owner = Some c' -> ctx_inv c'.
Proof.
  intros Hinv (roles & role & state & Hr & Hrole & Hstate & ->)%narrowed_to_owner_Some.
  pose proof Hinv as [Ha Hs Hsc Hdef Hc Hf Hd He Hm Hb].
  change (ctx_inv (set_owner_scope state (AuthzContext.replace_roles
    (OwnerRoles.scoped_to (roles_subject roles) owner role) (set_default_owner None c)))).
  assert (Hconf : OwnerScopeState.confined_to state = Some owner).
  { destruct (ctx_owner_scope c); [by subst|]. destruct Hstate as (n & (r & _ & ->)%narrow_Some & ->). done. }
  apply ctx_inv_replace.
  - by apply ctx_inv_set_default_None.
  - exact (Hs _ Hr).
  - unfold AuthzContext.owner_scope in Hsc |- *. cbn. destruct (ctx_owner_scope c) as [o|scope].
    + by subst.
    + destruct Hstate as (n & (r & Hn & ->)%narrow_Some & ->). cbn.
      destruct (Hsc _ eq_refl) as (Hr' & Hw & _). rewrite Hr in Hr'. injection Hr' as ->.
      rewrite Hrole in Hn. injection Hn as <-. done.
  - discriminate.
  - intros o. rewrite Hconf. intros [= <-]. setoid_rewrite scoped_to_role_for. split.
    + by rewrite bool_decide_true.
    + intros x r. by case_bool_decide.
  - intros f Hfw x r. rewrite scoped_to_role_for. case_bool_decide; [|discriminate]. intros [= <-]. subst x.
    apply (Hf f Hfw). unfold AuthzContext.role_for_owner. by rewrite Hr.
Qed.

Lemma with_group_role_keeps roles group role o :
  is_Some (OwnerRoles.role_for roles o) ->
  is_Some (OwnerRoles.role_for (OwnerRoles.with_group_role roles group role) o).
Proof. rewrite with_group_role_role_for. case_match; done. Qed.

Lemma ctx_inv_host_role c group role c' :
  ctx_inv c -> AuthzContext.with_host_resolved_role c group role = Some c' -> ctx_inv c'.
Proof.
  intros Hinv H. unfold AuthzContext.with_host_resolved_role in H.
  destruct (ctx_owner_scope c) as [[]|] eqn:Es; try discriminate.
  destruct (ctx_forwarded_owner c) eqn:Ef; [discriminate|]. cbn in H.
  destruct (ctx_owner_roles c) as [roles|] eqn:Er; [|discriminate]. injection H as <-.
  pose proof (inv_subject c Hinv roles Er) as Hs.
  replace (AuthzContext.replace_roles (OwnerRoles.with_group_role roles group role) c)
    with (set_owner_scope (Unsealed None)
            (AuthzContext.replace_roles (OwnerRoles.with_group_role roles group role) c))
    by (destruct c; cbn in *; by subst).
  apply ctx_inv_replace; [done| | | |done|congruence].
  - by rewrite with_group_role_subject.
  - unfold AuthzContext.owner_scope. by rewrite Es.
  - intros o Ho. apply with_group_role_keeps. pose proof (inv_default c Hinv o Ho) as Hd.
    unfold AuthzContext.role_for_owner in Hd. by rewrite Er in Hd.
Qed.

Lemma add_group_role_Some now scope group role scope' :
  OwnerScope.add_group_role now scope group role = Some scope' ->
  scope_selected scope = None /\ OwnerScope.is_expired now scope = false /\
  scope' = mk_OwnerScope (OwnerRoles.with_group_role (scope_roles scope) group role)
             (scope_writer scope) (scope_expires_at scope) None (scope_goal_principal scope).
Proof.
  unfold OwnerScope.add_group_role. destruct (scope_selected scope); [discriminate|].
  destruct (OwnerScope.is_expired now scope); [discriminate|]. cbn. by intros [= <-].
Qed.

Lemma ctx_inv_group_role now now' port c group c' :
  ctx_inv c -> AuthzContext.with_authenticated_group_role now now' c port group = Some c' -> ctx_inv c'.
Proof.
  intros Hinv H. unfold AuthzContext.with_authenticated_group_role in H.
  destruct (ctx_forwarded_owner c) eqn:Ef; [discriminate|]. cbn in H.
  destruct (AuthzContext.owner_scope c) as [scope|] eqn:Es; [|discriminate].
  destruct (inv_sealed c Hinv scope Es) as (Hr & Hw & Hg). rewrite Hr in H. run_ok.
  match goal with E : OwnerScope.add_group_role _ _ _ _ = Some _ |- _ =>
    apply add_group_role_Some in E as (Hsel & _ & ->) end.
  apply ctx_inv_replace; [done| | | |done|congruence].
  - rewrite with_group_role_subject. by apply (inv_subject c Hinv).
  - cbn. split; [done|]. split; [done|]. intros p Hp. destruct (Hg p Hp) as (? & ? & _ & Hsub).
    split_and!; try done. unfold OwnerScope.subject in *. cbn. by rewrite with_group_role_subject.
  - intros o Ho. apply with_group_role_keeps. pose proof (inv_default c Hinv o Ho) as Hd.
    unfold AuthzContext.role_for_owner in Hd. by rewrite Hr in Hd.
Qed.

Lemma ctx_inv_set_expires c e :
  ctx_inv c -> ctx_inv (set_identity (set_id_expires_at e (ctx_identity c)) c).
Proof. intros []. constructor; done. Qed.

(** The forwarded resolution, taken apart. *)
Lemma forwarded_owner_Some now c port owner c' :
  AuthzContext.with_authenticated_forwarded_owner now c port owner = Some c' ->
  exists scope subject role,
    AuthzContext.owner_scope c = Some scope /\ AuthzContext.subject c = Some subject /\
    ctx_forwarded_owner c = Some owner /\
    passed (AuthzContext.min_deadline (AuthzContext.expires_at c) (scope_expires_at scope)) now = false /\
    is_forwarder port subject = Ok true /\
    resolve_forwarded_owner_role port subject owner = Ok (Some role) /\
    let expires_at := AuthzContext.min_deadline (AuthzContext.expires_at c) (scope_expires_at scope) in
    let roles := OwnerRoles.scoped_to subject owner (ForwarderRole.role role) in
    AuthzContext.narrowed_to_owner
      (set_owner_scope (Sealed (OwnerScope.from_verified_roles roles expires_at (scope_writer scope)))
         (AuthzContext.replace_roles roles
            (set_identity (set_id_expires_at expires_at (ctx_identity c)) c))) owner = Some c'.
Proof.
  unfold AuthzContext.with_authenticated_forwarded_owner. intros H.
  destruct (AuthzContext.owner_scope c) as [scope|] eqn:Es; [|discriminate].
  destruct (bool_decide (ctx_forwarded_owner c = Some owner)) eqn:Ef; [|discriminate].
  apply bool_decide_eq_true in Ef.
  destruct (passed _ now) eqn:Ep; [discriminate|].
  destruct (AuthzContext.subject c) as [subject|] eqn:Esub; [|discriminate].
  destruct (is_forwarder port subject) as [[]|] eqn:Eport; try discriminate.
  destruct (resolve_forwarded_owner_role port subject owner) as [[role|]|] eqn:Erole; try discriminate.
  exists scope, subject, role. do 6 (split; [done|]). exact H.
Qed.

Lemma ctx_inv_forwarded now c port owner c' :
  ctx_inv c -> AuthzContext.with_authenticated_forwarded_owner now c port owner = Some c' -> ctx_inv c'.
Proof.
  intros Hinv (scope & subject & role & Es & Esub & Ef & _ & _ & _ & Hn)%forwarded_owner_Some.
  eapply ctx_inv_narrow; [|exact Hn]. destruct (inv_sealed c Hinv scope Es) as (Hr & Hw & _).
  apply ctx_inv_replace; [by apply ctx_inv_set_expires|done| | |done|].
  - cbn. by split_and!.
  - cbn. intros o Ho. destruct (inv_default c Hinv o Ho) as [r Hro].
    destruct (inv_forwarded c Hinv owner Ef o r Hro) as [-> _].
    rewrite scoped_to_role_for. by rewrite bool_decide_true.
  - cbn. intros f Hf x r. rewrite scoped_to_role_for. case_bool_decide; [|discriminate].
    intros [= <-]. split; [congruence|apply forwarder_role_not_manages].
Qed.

(** Sealing, taken apart. *)
Lemma seal_verified_scope_Ok c c' :
  AuthzContext.seal_verified_scope c = Ok c' ->
  exists roles writer scope,
    ctx_owner_roles c = Some roles /\ id_writer (ctx_identity c) = Some writer /\
    c' = set_owner_scope (Sealed scope) c /\
    scope_writer scope = writer /\ scope_expires_at scope = id_expires_at (ctx_identity c) /\
    scope_selected scope = confinement c /\ goal_lane_ok c scope /\
    match confinement c with
    | None => scope_roles scope = roles
    | Some owner => exists role, OwnerRoles.role_for roles owner = Some role /\
        scope_roles scope = OwnerRoles.scoped_to (roles_subject roles) owner role
    end.
Proof.
  unfold AuthzContext.seal_verified_scope, AuthzContext.writer, AuthzContext.auth_path,
    AuthzContext.expires_at.
  destruct (ctx_owner_roles c) as [roles|]; [|discriminate]. cbn [ok_or].
  destruct (id_writer (ctx_identity c)) as [writer|]; [|discriminate]. cbn [ok_or].
  fold (confinement c). unfold goal_lane_ok. destruct (confinement c) as [owner|] eqn:Ec.
  - rewrite andb_false_r. destruct (OwnerScope.narrow _ _) as [scope|] eqn:En; [|discriminate].
    apply narrow_Some in En as (role & Hrole & ->). cbn. intros [= <-].
    eexists _, _, _. split_and!; try done. by exists role.
  - rewrite andb_true_r. case_bool_decide; cbn [andb];
      [destruct (ctx_forwarded_owner c) eqn:Ef; cbn|]; intros [= <-];
      eexists _, _, _; split_and!; try done. cbn. intros p [= <-]. done.
Qed.

(** A confined context holds one role: its map is the narrowed one. *)
Lemma confined_roles c owner roles role :
  ctx_inv c -> confinement c = Some owner -> ctx_owner_roles c = Some roles ->
  OwnerRoles.role_for roles owner = Some role ->
  roles = OwnerRoles.scoped_to (roles_subject roles) owner role.
Proof.
  intros Hinv Hc Hr Hrole. destruct (inv_confined c Hinv owner Hc) as [_ Honly].
  unfold AuthzContext.role_for_owner in Honly. rewrite Hr in Honly. cbn in Honly.
  destruct roles as [subject m]. unfold OwnerRoles.scoped_to, OwnerRoles.role_for in *. cbn in *.
  f_equal. apply map_eq. intros x. destruct (decide (x = owner)) as [->|Hne]; simplify_map_eq; [done|].
  destruct (m !! x) eqn:E; [|done]. by destruct Hne; eapply Honly.
Qed.

Lemma ctx_inv_seal c c' : ctx_inv c -> AuthzContext.seal_verified_scope c = Ok c' -> ctx_inv c'.
Proof.
  intros Hinv (roles & writer & scope & Hr & Hw & -> & <- & Hexp & Hsel & Hg & Hroles)%seal_verified_scope_Ok.
  assert (Hsr : scope_roles scope = roles).
  { destruct (confinement c) as [o|] eqn:Ec; [|done]. destruct Hroles as (role & Hrole & ->).
    symmetry. by eapply confined_roles. }
  replace (set_owner_scope (Sealed scope) c)
    with (set_owner_scope (Sealed scope) (AuthzContext.replace_roles roles c)).
  2:{ destruct c as [[] ]. pose proof (inv_accessible _ Hinv) as Ha. cbn in *. by subst. }
  assert (Hrole : forall o, AuthzContext.role_for_owner c o = OwnerRoles.role_for roles o)
    by (intros o; unfold AuthzContext.role_for_owner; by rewrite Hr).
  apply ctx_inv_replace; [done|by apply (inv_subject c Hinv)|done| | |].
  - intros o Ho. rewrite <-Hrole. by apply (inv_default c Hinv).
  - cbn. unfold OwnerScope.confined_to. rewrite Hsel. intros o Ho. setoid_rewrite <-Hrole.
    by apply (inv_confined c Hinv).
  - intros f Hf. setoid_rewrite <-Hrole. by apply (inv_forwarded c Hinv).
Qed.

Lemma ctx_inv_init c : ctx_init c -> ctx_inv c.
Proof.
  intros [roles path writer|authority roles|subject owner writer|authority owner c' H|owner].
  - apply ctx_inv_server_resolved.
  - eapply ctx_inv_fresh; done.
  - eapply ctx_inv_fresh; done.
  - eapply ctx_inv_narrow; [|exact H]. eapply ctx_inv_fresh; done.
  - constructor; try done. cbn. apply extensions_wf_new.
Qed.

Lemma ctx_inv_step c c' : ctx_inv c -> ctx_step c c' -> ctx_inv c'.
Proof.
  intros Hinv Hstep.
  inversion Hstep as [writer c1 H|claims|scope|surface|id c1 H|ext c1 H|owner c1 H|tool|e|e|owner c1 H
    |group role c1 H|now now' port group c1 H|now port owner c1 H|c1 H]; subst;
    try (destruct Hinv; constructor; done).
  - unfold AuthzContext.with_attested_writer in H.
    destruct (AuthzContext.owner_scope c) eqn:Es; [discriminate|]. cbn in H.
    case_bool_decide as Hp; [discriminate|]. injection H as <-. destruct Hinv.
    constructor; try done. unfold AuthzContext.owner_scope in *. cbn. by rewrite Es.
  - unfold AuthzContext.with_trusted_model_id in H.
    destruct (validate_trusted_model_id id) eqn:E; [|discriminate]. injection H as <-.
    destruct Hinv. constructor; try done. cbn. intros ? [= <-]. by eapply bindable_of_validate.
  - unfold AuthzContext.with_publication_extensions, PublicationExtensions.merged in H.
    destruct (PublicationExtensions.bind_all _ _) eqn:E; [|discriminate]. injection H as <-.
    apply bind_all_wf in E as [E _]; [|by apply inv_extensions]. destruct Hinv. constructor; done.
  - unfold AuthzContext.with_default_owner in H.
    destruct (AuthzContext.role_for_owner c owner) eqn:E; [|discriminate]. injection H as <-.
    destruct Hinv. constructor; try done. cbn. intros o [= <-]. by exists r.
  - by eapply ctx_inv_narrow.
  - by eapply ctx_inv_host_role.
  - by eapply ctx_inv_group_role.
  - by eapply ctx_inv_forwarded.
  - by eapply ctx_inv_seal.
Qed.

Lemma ctx_inv_rtc c c' : ctx_inv c -> rtc ctx_step c c' -> ctx_inv c'.
Proof. intros H Hs. induction Hs; eauto using ctx_inv_step. Qed.

Lemma ctx_inv_reachable c : ctx_reachable c -> ctx_inv c.
Proof. intros (c0 & H0 & Hs). eapply ctx_inv_rtc; eauto using ctx_inv_init. Qed.

(** ** Properties *)

Lemma accessible_spec roles owner :
  owner ∈ AuthzContext.accessible roles <-> OwnerRoles.may_read roles owner KFact = true.
Proof.
  unfold AuthzContext.accessible, OwnerRoles.may_read, OwnerRoles.readable_owners.
  by rewrite elem_of_list_to_set, ordered_elem_of.
Qed.

(** C2. The invariant of every context that constructors and builders can
    produce.  The accessible owners are exactly those whose Facts the roles let
    the subject read; a sealed scope carries the context's own roles and writer,
    and a Goal principal only for an unconfined, unforwarded host bearer; the
    default owner is one the context holds a role for; a forwarding credential
    never holds a role for another owner nor a managing one; a denied context is
    never sealed and names no writer; bound extensions and model identity are
    valid; and a system binding is only ever on the System path. *)
Theorem authz_context_invariant (c : AuthzContext) (Hc : ctx_reachable c) :
  (forall owner, AuthzContext.can_access_owner c owner = AuthzContext.may_read c owner KFact) /\
  (forall scope, AuthzContext.owner_scope c = Some scope ->
     ctx_owner_roles c = Some (scope_roles scope) /\
     AuthzContext.writer c = Some (scope_writer scope) /\ goal_lane_ok c scope) /\
  (forall owner, ctx_default_owner c = Some owner -> is_Some (AuthzContext.role_for_owner c owner)) /\
  (forall owner, ctx_forwarded_owner c = Some owner ->
     forall other role, AuthzContext.role_for_owner c other = Some role ->
       other = owner /\ Role.manages role = false) /\
  (AuthzContext.auth_path c = Denied ->
     AuthzContext.writer c = None /\ AuthzContext.owner_scope c = None) /\
  extensions_wf (ctx_publication_extensions c) /\
  (forall id, AuthzContext.trusted_model_id c = Some id -> bindable id) /\
  (forall binding, AuthzContext.carries_system_authority c binding = true ->
     AuthzContext.auth_path c = System).
Proof.
  apply ctx_inv_reachable in Hc as [Ha Hs Hsc Hdef _ Hf Hd He Hm Hb].
  split; [|do 6 (split; [done|])].
  - intros owner. unfold AuthzContext.can_access_owner, can_access_principal, AuthzContext.may_read.
    rewrite Ha. destruct (ctx_owner_roles c) as [roles|]; cbn; [|by apply bool_decide_eq_false].
    apply eq_bool_prop_intro. by rewrite bool_decide_spec, Is_true_true, accessible_spec.
  - intros binding H. apply bool_decide_eq_true in H. by eapply Hb.
Qed.

(** A subject with its own owner and editor access to a group. *)
Definition sample_subject : UserId := mk_UserId 1.
Definition sample_group : OwnerId := mk_OwnerId 2.
Definition sample_roles : OwnerRoles :=
  mk_OwnerRoles sample_subject
    {[ OwnerId.from_user sample_subject := Role.personal; sample_group := Role.editor ]}.
Definition sample_context : AuthzContext := AuthzContext.server_resolved sample_roles HostBearer.

Lemma sample_context_reachable : ctx_reachable sample_context.
Proof. exists sample_context. split; [apply init_server_resolved|apply rtc_refl]. Qed.

Lemma authz_context_invariant_witness :
  AuthzContext.can_access_owner sample_context sample_group = true.
Proof.
  destruct (authz_context_invariant sample_context sample_context_reachable) as (H & _).
  rewrite H. vm_compute. reflexivity.
Defined.

Lemma ctx_step_confined c c' owner :
  ctx_inv c -> ctx_step c c' -> confinement c = Some owner ->
  confinement c' = Some owner /\
  (ctx_forwarded_owner c = None ->
   AuthzContext.role_for_owner c' owner = AuthzContext.role_for_owner c owner) /\
  ctx_forwarded_owner c' = ctx_forwarded_owner c.
Proof.
  intros Hinv Hstep Hconf. destruct (inv_confined c Hinv owner Hconf) as [Hrole Honly].
  inversion Hstep as [writer c1 H|claims|scope|surface|id c1 H|ext c1 H|o c1 H|tool|e|e|o c1 H
    |group role c1 H|now now' port group c1 H|now port o c1 H|c1 H]; subst; try done.
  - unfold AuthzContext.with_attested_writer in H. case_match; [discriminate|]. by injection H as <-.
  - unfold AuthzContext.with_trusted_model_id in H. case_match; [|discriminate]. by injection H as <-.
  - unfold AuthzContext.with_publication_extensions in H. case_match; [|discriminate]. by injection H as <-.
  - unfold AuthzContext.with_default_owner in H. case_match; [|discriminate]. by injection H as <-.
  - apply narrowed_to_owner_Some in H as (roles & role & state & Hr & Hro & Hstate & ->).
    assert (Hlk : AuthzContext.role_for_owner c o = Some role)
      by (unfold AuthzContext.role_for_owner; by rewrite Hr).
    apply Honly in Hlk as Ho. subst o. split; [|split; [|done]].
    + unfold confinement in *. cbn. destruct (ctx_owner_scope c); [by subst|].
      by destruct Hstate as (n & (r & _ & ->)%narrow_Some & ->).
    + intros _. rewrite Hlk. unfold AuthzContext.role_for_owner. cbn.
      rewrite scoped_to_role_for. by rewrite bool_decide_true.
  - unfold AuthzContext.with_host_resolved_role, confinement in *.
    destruct (ctx_owner_scope c) as [[]|]; discriminate.
  - unfold AuthzContext.with_authenticated_group_role in H.
    destruct (is_some _); [discriminate|].
    destruct (AuthzContext.owner_scope c) as [scope|] eqn:Es; [|discriminate]. run_ok.
    match goal with E : OwnerScope.add_group_role _ _ _ _ = Some _ |- _ =>
      apply add_group_role_Some in E as (Hsel & _) end.
    exfalso. unfold confinement, AuthzContext.owner_scope in *.
    destruct (ctx_owner_scope c); cbn in *; [discriminate|]. unfold OwnerScope.confined_to in *. congruence.
  - apply forwarded_owner_Some in H as (scope & subject & role & Es & Esub & Ef & _ & _ & _ & H).
    destruct Hrole as [r Hr]. destruct (inv_forwarded c Hinv o Ef owner r Hr) as [-> _].
    apply narrowed_to_owner_Some in H as (roles & role' & state & _ & _ & Hstate & ->).
    destruct Hstate as (n & (r' & _ & ->)%narrow_Some & ->). split_and!; try done. cbn. congruence.
  - apply seal_verified_scope_Ok in H as (roles & writer & scope & Hr & Hw & -> & _ & _ & Hsel & _).
    split_and!; try done. unfold confinement. cbn. unfold OwnerScope.confined_to. congruence.
Qed.

(** C8. Confinement is permanent.  Once a context has been narrowed to one owner,
    no sequence of builders, role resolutions or sealing widens it: every later
    context is confined to the same owner and holds a role for no other, and
    unless a forwarding credential is re-resolved its role for that owner is the
    very same one. *)
Theorem confinement_is_permanent (c c' : AuthzContext) (owner : OwnerId)
    (Hc : ctx_reachable c) (Hconf : confinement c = Some owner) (Hsteps : rtc ctx_step c c') :
  confinement c' = Some owner /\
  (forall other kind, other <> owner ->
     AuthzContext.may_read c' other kind = false /\ AuthzContext.may_write c' other kind = false /\
     AuthzContext.may_manage c' other = false /\ AuthzContext.can_access_owner c' other = false) /\
  (ctx_forwarded_owner c = None ->
     AuthzContext.role_for_owner c' owner = AuthzContext.role_for_owner c owner).
Proof.
  apply ctx_inv_reachable in Hc.
  assert (Hmain : confinement c' = Some owner /\ (ctx_forwarded_owner c = None ->
     AuthzContext.role_for_owner c' owner = AuthzContext.role_for_owner c owner) /\ ctx_inv c').
  { induction Hsteps as [c|c1 c2 c3 Hs _ IH]; [done|].
    destruct (ctx_step_confined c1 c2 owner Hc Hs Hconf) as (H1 & H2 & H3).
    destruct (IH (ctx_inv_step _ _ Hc Hs) H1) as (H4 & H5 & H6). split; [done|]. split; [|done].
    intros Hf. rewrite H5 by congruence. by apply H2. }
  destruct Hmain as (Hc' & Hrole & Hinv). split; [done|]. split; [|done]. intros other kind Hne.
  destruct (inv_confined c' Hinv owner Hc') as [_ Honly].
  assert (Hnone : AuthzContext.role_for_owner c' other = None).
  { destruct (AuthzContext.role_for_owner c' other) eqn:E; [|done]. by destruct Hne; eapply Honly. }
  pose proof (inv_accessible c' Hinv) as Ha.
  unfold AuthzContext.role_for_owner, AuthzContext.may_read, AuthzContext.may_write,
    AuthzContext.may_manage, AuthzContext.can_access_owner, can_access_principal in *.
  rewrite Ha. destruct (ctx_owner_roles c') as [roles|]; cbn in *; [|by rewrite bool_decide_false].
  unfold OwnerRoles.may_read, OwnerRoles.may_write, OwnerRoles.may_manage. rewrite Hnone. cbn.
  split_and!; [done|done|by rewrite andb_false_r|]. apply bool_decide_eq_false.
  rewrite accessible_spec. unfold OwnerRoles.may_read. by rewrite Hnone.
Qed.

(** The sample context narrowed to the group. *)
Definition sample_narrowed : AuthzContext :=
  default sample_context (AuthzContext.narrowed_to_owner sample_context sample_group).

Lemma sample_narrow : AuthzContext.narrowed_to_owner sample_context sample_group = Some sample_narrowed.
Proof. vm_compute. reflexivity. Qed.

Lemma confinement_is_permanent_witness :
  AuthzContext.may_write
    (AuthzContext.with_tool_scope sample_narrowed ScopeAll) (OwnerId.from_user sample_subject) KFact
  = false.
Proof.
  destruct (confinement_is_permanent sample_narrowed
    (AuthzContext.with_tool_scope sample_narrowed ScopeAll) sample_group) as (_ & H & _).
  - exists sample_context. split; [apply init_server_resolved|].
    apply rtc_once. eapply step_narrow. exact sample_narrow.
  - vm_compute. reflexivity.
  - apply rtc_once, step_tool_scope.
  - apply (H (OwnerId.from_user sample_subject) KFact). discriminate.
Defined.

Lemma min_deadline_le a b d :
  a = Some d \/ b = Some d -> exists d', AuthzContext.min_deadline a b = Some d' /\ (d' <= d)%Z.
Proof. intros [->| ->]; [destruct b|destruct a]; cbn; eexists; (split; [done|lia]). Qed.

(** Resolving a forwarding credential.  It yields authority exactly when the
    context is sealed and names a subject, the credential itself names the
    selected owner, neither deadline has passed, and the host's policy and
    registry answer with a role.  The result is sealed and confined to that one
    owner, with precisely the non-managing policy ceiling there, nothing
    anywhere else, the same writer, and an expiry no later than either
    deadline. *)
Theorem forwarded_owner_binding (now : SystemTime) (c : AuthzContext) (port : OwnerAccessPort)
    (owner : OwnerId) (Hc : ctx_reachable c) :
  (is_Some (AuthzContext.with_authenticated_forwarded_owner now c port owner) <->
   exists scope subject role,
     AuthzContext.owner_scope c = Some scope /\ AuthzContext.subject c = Some subject /\
     ctx_forwarded_owner c = Some owner /\
     passed (AuthzContext.expires_at c) now = false /\ OwnerScope.is_expired now scope = false /\
     is_forwarder port subject = Ok true /\
     resolve_forwarded_owner_role port subject owner = Ok (Some role)) /\
  (forall c', AuthzContext.with_authenticated_forwarded_owner now c port owner = Some c' ->
   exists scope role,
     AuthzContext.owner_scope c' = Some scope /\ scope_selected scope = Some owner /\
     (forall other, AuthzContext.role_for_owner c' other
                    = if bool_decide (other = owner) then Some (ForwarderRole.role role) else None) /\
     (forall other, AuthzContext.may_manage c' other = false) /\
     AuthzContext.writer c' = AuthzContext.writer c /\
     AuthzContext.writer c' = Some (scope_writer scope) /\
     AuthzContext.expires_at c' = scope_expires_at scope /\
     (forall scope0 d, AuthzContext.owner_scope c = Some scope0 ->
        AuthzContext.expires_at c = Some d \/ scope_expires_at scope0 = Some d ->
        exists d', AuthzContext.expires_at c' = Some d' /\ (d' <= d)%Z)).
Proof.
  assert (Hpass : forall a b, passed (AuthzContext.min_deadline a b) now = passed a now || passed b now).
  { intros [a|] [b|]; cbn; rewrite ?orb_false_r; try done.
    destruct (Z.leb_spec a now), (Z.leb_spec b now), (Z.leb_spec (Z.min a b) now); cbn; lia. }
  split; [split|].
  - intros [c' (scope & subject & role & Es & Esub & Ef & Hp & Hpo & Hro & _)%forwarded_owner_Some].
    rewrite Hpass in Hp. apply orb_false_iff in Hp as [? ?]. by exists scope, subject, role.
  - intros (scope & subject & role & Es & Esub & Ef & Hp1 & Hp2 & Hpo & Hro).
    unfold AuthzContext.with_authenticated_forwarded_owner. rewrite Es, Hpass, Hp1.
    unfold OwnerScope.is_expired in Hp2. rewrite Hp2, bool_decide_true by done. cbn.
    rewrite Esub. cbn. rewrite Hpo. cbn. rewrite Hro. cbn.
    unfold AuthzContext.narrowed_to_owner. cbn.
    unfold OwnerScope.narrow. cbn. rewrite scoped_to_role_for, bool_decide_true by done. cbn. by eexists.
  - intros c' (scope & subject & role & Es & Esub & Ef & _ & _ & _ & Hn)%forwarded_owner_Some.
    apply narrowed_to_owner_Some in Hn as (roles & r & state & Hr & Hrole & Hstate & ->).
    cbn in Hr. injection Hr as <-. rewrite scoped_to_role_for, bool_decide_true in Hrole by done.
    injection Hrole as <-. destruct Hstate as (n & (r' & _ & ->)%narrow_Some & ->).
    eexists _, role. split; [done|]. split; [done|].
    split; [intros other; unfold AuthzContext.role_for_owner; cbn; apply scoped_to_role_for|].
    split; [|split_and!].
    + intros other. unfold AuthzContext.may_manage, OwnerRoles.may_manage. cbn.
      rewrite scoped_to_role_for. case_bool_decide; cbn; [rewrite forwarder_role_not_manages|]; apply andb_false_r.
    + done.
    + cbn. by apply (inv_sealed c (ctx_inv_reachable c Hc)).
    + done.
    + intros scope0 d Es0 Hd. rewrite Es in Es0. injection Es0 as <-. cbn. by apply min_deadline_le.
Qed.

Lemma forwarded_owner_binding_witness :
  let c := default sample_context (ok (AuthzContext.seal_verified_scope
    (AuthzContext.from_verified_forwarded_owner sample_subject sample_group
       (mk_WriterAttribution 1 (Some 9%N))))) in
  let port := mk_OwnerAccessPort (fun s => Ok (OwnerRoles.without_access s)) (fun _ => Ok true)
    (fun _ _ => Ok (Some FIngest)) (fun _ _ => Ok None) in
  is_Some (AuthzContext.with_authenticated_forwarded_owner 0 c port sample_group).
Proof.
  intros c port. apply (forwarded_owner_binding 0 c port sample_group).
  - exists (AuthzContext.from_verified_forwarded_owner sample_subject sample_group
      (mk_WriterAttribution 1 (Some 9%N))).
    split; [apply init_forwarded|]. apply rtc_once, step_seal. unfold c. vm_compute. reflexivity.
  - eexists _, _, _. split_and!; vm_compute; reflexivity.
Defined.

(** ** Restrictions only tighten *)

(** What no builder changes or loosens. *)
Record ctx_tightens (c c' : AuthzContext) : Prop := mk_ctx_tightens {
  keeps_path : ctx_auth_path c' = ctx_auth_path c;
  keeps_forwarded : ctx_forwarded_owner c' = ctx_forwarded_owner c;
  keeps_binding : ctx_system_binding c' = ctx_system_binding c;
  keeps_subject : id_subject (ctx_identity c') = id_subject (ctx_identity c);
  keeps_principal : id_principal (ctx_identity c') = id_principal (ctx_identity c);
  keeps_roleless : ctx_owner_roles c = None -> ctx_owner_roles c' = None;
  keeps_extensions : PublicationExtensions_0 (ctx_publication_extensions c)
    ⊆ PublicationExtensions_0 (ctx_publication_extensions c');
  keeps_sealed : is_Some (AuthzContext.owner_scope c) ->
    is_Some (AuthzContext.owner_scope c') /\ AuthzContext.writer c' = AuthzContext.writer c;
  keeps_model_id : is_Some (AuthzContext.trusted_model_id c) -> is_Some (AuthzContext.trusted_model_id c');
  keeps_surface : forall key decl,
    ServedSurface.admits (served_surface (ctx_capabilities c')) key decl = true ->
    ServedSurface.admits (served_surface (ctx_capabilities c)) key decl = true;
}.

Lemma ctx_step_tightens c c' : ctx_inv c -> ctx_step c c' -> ctx_tightens c c'.
Proof.
  intros Hinv Hstep.
  inversion Hstep as [writer c1 H|claims|scope|surface|id c1 H|ext c1 H|o c1 H|tool|e|e|o c1 H
    |group role c1 H|now now' port group c1 H|now port o c1 H|c1 H]; subst; try (by constructor).
  - unfold AuthzContext.with_attested_writer in H.
    destruct (AuthzContext.owner_scope c) eqn:Es; [discriminate|]. cbn in H.
    case_match; [discriminate|]. injection H as <-. constructor; try done. rewrite Es. by intros [].
  - constructor; try done. intros key decl. unfold AuthzContext.with_served_surface.
    cbn [set_capabilities ctx_capabilities served_surface].
    destruct (served_surface (ctx_capabilities c)) eqn:E.
    + unfold ServedSurface.admits. by rewrite orb_true_r.
    + rewrite served_surface_intersect. intros H. by bools.
  - unfold AuthzContext.with_trusted_model_id in H. case_match; [|discriminate].
    injection H as <-. by constructor.
  - unfold AuthzContext.with_publication_extensions, PublicationExtensions.merged in H.
    destruct (PublicationExtensions.bind_all _ _) eqn:E; [|discriminate]. injection H as <-.
    constructor; try done. cbn. by apply (bind_all_wf _ _ _ (inv_extensions c Hinv) E).
  - unfold AuthzContext.with_default_owner in H. case_match; [|discriminate].
    injection H as <-. by constructor.
  - apply narrowed_to_owner_Some in H as (roles & r & state & Hr & _ & Hstate & ->).
    constructor; try done; [by rewrite Hr|]. unfold AuthzContext.owner_scope. cbn.
    destruct (ctx_owner_scope c); cbn; [by intros []|]. by destruct Hstate as (n & _ & ->).
  - unfold AuthzContext.with_host_resolved_role in H.
    destruct (ctx_owner_scope c) as [[]|] eqn:Es; try discriminate. case_match; [discriminate|].
    destruct (ctx_owner_roles c) eqn:Er; [|discriminate]. injection H as <-.
    constructor; try done. by rewrite Er.
  - unfold AuthzContext.with_authenticated_group_role in H. case_match; [discriminate|].
    run_ok. constructor; try done. congruence.
  - apply forwarded_owner_Some in H as (scope & subject & role & Es & _ & Ef & _ & _ & _ & H).
    apply narrowed_to_owner_Some in H as (roles & r & state & _ & _ & (n & _ & ->) & ->).
    constructor; try done. destruct (inv_sealed c Hinv scope Es) as [Hr _]. by rewrite Hr.
  - apply seal_verified_scope_Ok in H as (roles & writer & scope & Hr & Hw & -> & _).
    constructor; done.
Qed.

Lemma ctx_tightens_refl c : ctx_tightens c c.
Proof. by constructor. Qed.

Lemma ctx_tightens_trans a b c : ctx_tightens a b -> ctx_tightens b c -> ctx_tightens a c.
Proof.
  intros [] []. constructor; try congruence; try (by auto).
  - by etransitivity.
  - intros Hs. destruct (keeps_sealed0 Hs) as [Hb Hw]. destruct (keeps_sealed1 Hb). split; congruence.
Qed.

Lemma ctx_rtc_tightens c c' : ctx_inv c -> rtc ctx_step c c' -> ctx_tightens c c'.
Proof.
  intros Hinv Hs. induction Hs as [c|a b c Hab _ IH]; [apply ctx_tightens_refl|].
  eapply ctx_tightens_trans; [by apply ctx_step_tightens|]. eauto using ctx_inv_step.
Qed.

(** Provenance and restrictions survive every builder.  Whatever is done to a
    context later, its authentication path, subject, principal, forwarding
    credential and system binding stay what authentication made them; bound
    extensions are never dropped or replaced; a sealed context stays sealed with
    the same writer; a bound model identity is never cleared; and the served
    surface never admits a key it did not admit before. *)
Theorem restrictions_only_tighten (c c' : AuthzContext)
    (Hc : ctx_reachable c) (Hsteps : rtc ctx_step c c') :
  AuthzContext.auth_path c' = AuthzContext.auth_path c /\
  AuthzContext.subject c' = AuthzContext.subject c /\
  AuthzContext.principal c' = AuthzContext.principal c /\
  ctx_forwarded_owner c' = ctx_forwarded_owner c /\
  (forall binding, AuthzContext.carries_system_authority c' binding
                   = AuthzContext.carries_system_authority c binding) /\
  (forall name value,
     PublicationExtensions.get (ctx_publication_extensions c) name = Some value ->
     PublicationExtensions.get (ctx_publication_extensions c') name = Some value) /\
  (is_Some (AuthzContext.owner_scope c) ->
     is_Some (AuthzContext.owner_scope c') /\ AuthzContext.writer c' = AuthzContext.writer c) /\
  (is_Some (AuthzContext.trusted_model_id c) -> is_Some (AuthzContext.trusted_model_id c')) /\
  (forall key decl,
     ServedSurface.admits (served_surface (ctx_capabilities c')) key decl = true ->
     ServedSurface.admits (served_surface (ctx_capabilities c)) key decl = true).
Proof.
  apply ctx_inv_reachable in Hc. destruct (ctx_rtc_tightens c c' Hc Hsteps) as [].
  split_and!; try done.
  - intros binding. unfold AuthzContext.carries_system_authority. by rewrite keeps_binding0.
  - intros name value Hn. exact (lookup_weaken _ _ _ _ Hn keeps_extensions0).
Qed.

Lemma restrictions_only_tighten_witness :
  AuthzContext.auth_path sample_narrowed = HostBearer.
Proof.
  destruct (restrictions_only_tighten sample_context sample_narrowed) as (H & _).
  - exact sample_context_reachable.
  - apply rtc_once. eapply step_narrow. exact sample_narrow.
  - rewrite H. reflexivity.
Defined.

(** A denied context grants nothing, and nothing can be built on it: after
    any sequence of builders it reads, writes and manages no owner, accesses
    none, names no writer and cannot be sealed. *)
Theorem denied_context_is_inert (owner other : OwnerId) (kind : AccessKind) (c : AuthzContext)
    (Hsteps : rtc ctx_step (AuthzContext.denied_for_owner owner) c) :
  AuthzContext.may_read c other kind = false /\ AuthzContext.may_write c other kind = false /\
  AuthzContext.may_manage c other = false /\ AuthzContext.can_access_owner c other = false /\
  AuthzContext.writer c = None /\ AuthzContext.owner_scope c = None /\
  AuthzContext.seal_verified_scope c = Err InvalidCredentials /\
  AuthzContext.principal c = owner.
Proof.
  pose proof (ctx_inv_init _ (init_denied owner)) as Hinv0.
  pose proof (ctx_inv_rtc _ _ Hinv0 Hsteps) as Hinv.
  destruct (ctx_rtc_tightens _ _ Hinv0 Hsteps) as [Hp _ _ _ Hprin Hr _ _ _].
  specialize (Hr eq_refl). destruct (inv_denied c Hinv Hp) as [Hw Hs].
  pose proof (inv_accessible c Hinv) as Ha. rewrite Hr in Ha.
  unfold AuthzContext.may_read, AuthzContext.may_write, AuthzContext.may_manage,
    AuthzContext.can_access_owner, can_access_principal, AuthzContext.seal_verified_scope.
  rewrite Hr, Ha. split_and!; done.
Qed.

Lemma denied_context_is_inert_witness :
  AuthzContext.may_read
    (AuthzContext.with_tool_scope (AuthzContext.denied_for_owner sample_group) ScopeAll)
    sample_group KFact = false.
Proof.
  apply (denied_context_is_inert sample_group sample_group KFact).
  apply rtc_once, step_tool_scope.
Defined.

(** ** Authentication *)

Lemma narrow_confined c owner roles :
  ctx_inv c -> confinement c = Some owner -> ctx_owner_roles c = Some roles ->
  exists role, OwnerRoles.role_for roles owner = Some role.
Proof.
  intros Hinv Hc Hr. destruct (inv_confined c Hinv owner Hc) as [[role Hrole] _].
  exists role. unfold AuthzContext.role_for_owner in Hrole. by rewrite Hr in Hrole.
Qed.

Lemma seal_verified_scope_total c roles writer :
  ctx_inv c -> ctx_owner_roles c = Some roles -> id_writer (ctx_identity c) = Some writer ->
  exists c', AuthzContext.seal_verified_scope c = Ok c'.
Proof.
  intros Hinv Hr Hw. unfold AuthzContext.seal_verified_scope, AuthzContext.writer.
  rewrite Hr, Hw. cbn [ok_or]. fold (confinement c). destruct (confinement c) as [owner|] eqn:Ec.
  - destruct (narrow_confined c owner roles Hinv Ec Hr) as [role Hrole].
    rewrite andb_false_r. unfold OwnerScope.narrow. cbn. rewrite Hrole. cbn. by eexists.
  - by eexists.
Qed.

(** Authentication seals exactly what the host verified.  Given any host
    answer, it succeeds iff the answer carries server-resolved roles and a
    writer; it never grants or drops a role, the sealed witness holds the same
    roles, writer, expiry and confinement, and a refusal is either the host's
    own error or invalid credentials. *)
Theorem authenticate_seals_verified_roles {Credentials : Type}
    (authenticator : Authenticator Credentials) (credentials : Credentials)
    (Hhost : forall creds c, host_authenticate authenticator creds = Ok c -> ctx_reachable c) :
  (is_ok (AuthzContext.authenticate authenticator credentials) = true <->
   exists c, host_authenticate authenticator credentials = Ok c /\
     is_Some (ctx_owner_roles c) /\ is_Some (AuthzContext.writer c)) /\
  (forall c', AuthzContext.authenticate authenticator credentials = Ok c' ->
   exists c scope,
     host_authenticate authenticator credentials = Ok c /\
     AuthzContext.owner_scope c' = Some scope /\
     ctx_owner_roles c = Some (scope_roles scope) /\ ctx_owner_roles c' = ctx_owner_roles c /\
     AuthzContext.writer c' = Some (scope_writer scope) /\
     scope_expires_at scope = AuthzContext.expires_at c /\
     scope_selected scope = confinement c /\ goal_lane_ok c' scope) /\
  (forall e, AuthzContext.authenticate authenticator credentials = Err e ->
     host_authenticate authenticator credentials = Err e \/ e = InvalidCredentials).
Proof.
  unfold AuthzContext.authenticate.
  destruct (host_authenticate authenticator credentials) as [c|e] eqn:Eh.
  2:{ split; [split; [discriminate|]; by intros (? & ? & _)|]. split; [discriminate|].
      intros e' [= <-]. by left. }
  pose proof (ctx_inv_reachable c (Hhost _ _ Eh)) as Hinv.
  assert (Hok : forall c', AuthzContext.seal_verified_scope c = Ok c' ->
    is_Some (ctx_owner_roles c) /\ is_Some (AuthzContext.writer c) /\ exists c0 scope,
     Ok c = Ok (E := AuthError) c0 /\ AuthzContext.owner_scope c' = Some scope /\
     ctx_owner_roles c0 = Some (scope_roles scope) /\ ctx_owner_roles c' = ctx_owner_roles c0 /\
     AuthzContext.writer c' = Some (scope_writer scope) /\
     scope_expires_at scope = AuthzContext.expires_at c0 /\
     scope_selected scope = confinement c0 /\ goal_lane_ok c' scope).
  { intros c' Hs. pose proof (ctx_inv_seal c c' Hinv Hs) as Hinv'.
    apply seal_verified_scope_Ok in Hs as (roles & writer & scope & Hr & Hw & -> & Hwr & Hexp & Hsel & _).
    destruct (inv_sealed _ Hinv' scope eq_refl) as (Hr' & Hw' & Hg').
    split; [by rewrite Hr|]. split; [by unfold AuthzContext.writer; rewrite Hw|].
    exists c, scope. by split_and!. }
  split; [split|split].
  - destruct (AuthzContext.seal_verified_scope c) as [c'|] eqn:Es; [|discriminate]. intros _.
    destruct (Hok c' eq_refl) as (? & ? & _). by exists c.
  - intros (c0 & [= <-] & [roles Hr] & [writer Hw]).
    by destruct (seal_verified_scope_total c roles writer Hinv Hr Hw) as [c' ->].
  - intros c' Hs. by apply Hok.
  - intros e. unfold AuthzContext.seal_verified_scope.
    destruct (ctx_owner_roles c); cbn [ok_or]; [|by right; congruence].
    destruct (AuthzContext.writer c); cbn [ok_or]; [|by right; congruence].
    match goal with |- context [match ?x with Some o => ok_or _ _ | None => _ end] => destruct x end;
      [|discriminate]. destruct (OwnerScope.narrow _ _); cbn; [discriminate|]. by right; congruence.
Qed.

Lemma authenticate_seals_verified_roles_witness :
  is_ok (AuthzContext.authenticate (mk_Authenticator unit (fun _ => Ok sample_context) (fun _ => 0%N)) tt)
  = true.
Proof.
  apply (authenticate_seals_verified_roles
    (mk_Authenticator unit (fun _ => Ok sample_context) (fun _ => 0%N)) tt).
  - intros creds c [= <-]. exact sample_context_reachable.
  - exists sample_context. split; [reflexivity|]. split; eexists; reflexivity.
Defined.

(** The credential-free embedded path never panics and grants exactly one
    owner: the result is sealed and confined to that owner with the personal
    role, reads and writes every kind there and nothing elsewhere, manages
    nothing, and carries no System authority. *)
Theorem insecure_single_owner_exact (authority : SystemAuthority) (owner : OwnerId) :
  exists c scope,
    AuthzContext.for_insecure_single_owner authority owner = Some c /\
    AuthzContext.owner_scope c = Some scope /\ scope_selected scope = Some owner /\
    scope_goal_principal scope = None /\
    AuthzContext.auth_path c = HostBearer /\
    (forall other kind, AuthzContext.may_read c other kind = bool_decide (other = owner) /\
       AuthzContext.may_write c other kind = bool_decide (other = owner) /\
       AuthzContext.may_manage c other = false) /\
    (forall binding, AuthzContext.carries_system_authority c binding = false).
Proof.
  unfold AuthzContext.for_insecure_single_owner, AuthzContext.narrowed_to_owner. cbn.
  unfold OwnerScope.narrow. cbn. rewrite scoped_to_role_for, bool_decide_true by done. cbn.
  do 2 eexists. split; [done|]. split; [done|]. split; [done|]. split; [done|]. split; [done|].
  split; [|done]. intros other kind.
  unfold AuthzContext.may_read, AuthzContext.may_write, AuthzContext.may_manage,
    OwnerRoles.may_read, OwnerRoles.may_write, OwnerRoles.may_manage. cbn.
  rewrite scoped_to_role_for. case_bool_decide; cbn; rewrite ?andb_false_r; by destruct kind.
Qed.
