(* ===== verification/Revalidation.v ===== *)
(** * Revalidated streams

    [crates/core/src/authz.rs], [RevalidatedStream] and [revalidate_stream]: the
    state machine that ends a long-lived authenticated stream at its identity's
    expiry, after its maximum lifetime, or when the host revokes its epoch.  One
    call of [poll_next] is one step; what the runtime answers in that call (the
    inner stream, the interval tick, the epoch check) is an argument.  Whether a
    timer has fired is the runtime's [sleep_ready], a parameter. *)

From S2P Require Import Prelude Ids Access Authz.

(** [tokio::time::Instant], in nanoseconds. *)
Abbreviation Instant := Z.

Inductive Poll (A : Type) := Ready (a : A) | Pending.
Arguments Ready {A} a.
Arguments Pending {A}.

Record RevalidationConfig := mk_RevalidationConfig {
  max_stream_lifetime : Duration;
  epoch_check_interval : Duration;
}.

Definition default_revalidation_config : RevalidationConfig :=
  mk_RevalidationConfig (3600 * 1000000000) (30 * 1000000000).

(** The state of the stream; the inner stream lives in the environment.
    [epoch_check] is set while a check is in flight. *)
Record RevalidatedStream := mk_RevalidatedStream {
  rs_identity : Identity;
  rs_authenticator : bool;
  rs_expires_at : option Instant;
  rs_max_lifetime : Instant;
  rs_epoch_interval : option Duration;
  rs_epoch_check : bool;
  rs_closing : bool;
  rs_closed : bool;
}.

(** What one poll sees. *)
Record PollEnv (I : Type) := mk_PollEnv {
  env_now : Instant;
  env_inner : Poll (option I);
  env_tick : bool;
  env_epoch : Poll N;
}.
Arguments env_now {I}.
Arguments env_inner {I}.
Arguments env_tick {I}.
Arguments env_epoch {I}.

Definition non_zero_duration (d : Duration) : Duration := if (d =? 0)%Z then 1%Z else d.

(** [system_time_sleep]: the remaining wall-clock time, never negative, from the
    monotonic now. *)
Definition system_time_sleep (sys_now : SystemTime) (now : Instant) (deadline : SystemTime) : Instant :=
  (now + Z.max 0 (deadline - sys_now))%Z.

Definition revalidate_stream (sys_now : SystemTime) (now : Instant) (identity : Identity)
    (authenticator : bool) (config : RevalidationConfig) : RevalidatedStream :=
  {| rs_identity := identity;
     rs_authenticator := authenticator;
     rs_expires_at := system_time_sleep sys_now now <$> id_expires_at identity;
     rs_max_lifetime := (now + max_stream_lifetime config)%Z;
     rs_epoch_interval :=
       if authenticator then Some (non_zero_duration (epoch_check_interval config)) else None;
     rs_epoch_check := false;
     rs_closing := false;
     rs_closed := false |}.

Definition set_epoch_check (b : bool) (s : RevalidatedStream) : RevalidatedStream :=
  mk_RevalidatedStream (rs_identity s) (rs_authenticator s) (rs_expires_at s) (rs_max_lifetime s)
    (rs_epoch_interval s) b (rs_closing s) (rs_closed s).
Definition set_closing (b : bool) (s : RevalidatedStream) : RevalidatedStream :=
  mk_RevalidatedStream (rs_identity s) (rs_authenticator s) (rs_expires_at s) (rs_max_lifetime s)
    (rs_epoch_interval s) (rs_epoch_check s) b (rs_closed s).
Definition set_closed (s : RevalidatedStream) : RevalidatedStream :=
  mk_RevalidatedStream (rs_identity s) (rs_authenticator s) (rs_expires_at s) (rs_max_lifetime s)
    (rs_epoch_interval s) (rs_epoch_check s) (rs_closing s) true.

Section stream.
Context {I : Type} (sleep_ready : Instant -> Instant -> bool).

Definition observe_termination (s : RevalidatedStream) (e : PollEnv I) : RevalidatedStream * bool :=
  if sleep_ready (rs_max_lifetime s) (env_now e) then (s, true)
  else if is_some_and (rs_expires_at s) (fun d => sleep_ready d (env_now e)) then (s, true)
  else
    let s := if is_some (rs_epoch_interval s) && env_tick e && negb (rs_epoch_check s)
                && rs_authenticator s
             then set_epoch_check true s else s in
    if rs_epoch_check s then
      match env_epoch e with
      | Ready epoch => (set_epoch_check false s, (id_auth_epoch (rs_identity s) <? epoch)%N)
      | Pending => (s, false)
      end
    else (s, false).

Definition poll_next (s : RevalidatedStream) (e : PollEnv I) : RevalidatedStream * Poll (option I) :=
  if rs_closed s then (s, Ready None)
  else if rs_closing s then
    match env_inner e with
    | Ready (Some item) => (s, Ready (Some item))
    | Ready None | Pending => (set_closed s, Ready None)
    end
  else
    match env_inner e with
    | Ready (Some item) =>
        let '(s, closing) := observe_termination s e in
        (set_closing closing s, Ready (Some item))
    | Ready None => (set_closed s, Ready None)
    | Pending =>
        let '(s, ended) := observe_termination s e in
        if ended then (set_closed s, Ready None) else (s, Pending)
    end.

(** A sequence of polls and what it answers. *)
Fixpoint run (s : RevalidatedStream) (envs : list (PollEnv I)) :
    RevalidatedStream * list (Poll (option I)) :=
  match envs with
  | [] => (s, [])
  | e :: envs =>
      let '(s, p) := poll_next s e in
      let '(s, ps) := run s envs in
      (s, p :: ps)
  end.

(** ** Lemmas *)

Lemma observe_termination_frame s e :
  let s' := (observe_termination s e).1 in
  rs_identity s' = rs_identity s /\ rs_authenticator s' = rs_authenticator s /\
  rs_expires_at s' = rs_expires_at s /\ rs_max_lifetime s' = rs_max_lifetime s /\
  rs_epoch_interval s' = rs_epoch_interval s /\ rs_closing s' = rs_closing s /\
  rs_closed s' = rs_closed s.
Proof. unfold observe_termination. repeat case_match; done. Qed.

Lemma run_closed s envs : rs_closed s = true -> run s envs = (s, (fun _ => Ready None) <$> envs).
Proof.
  intros Hc. induction envs as [|e envs IH]; [done|]. cbn. unfold poll_next. by rewrite Hc, IH.
Qed.

(** The deadline half of the termination condition. *)
Definition deadline_passed (s : RevalidatedStream) (now : Instant) : Prop :=
  (rs_max_lifetime s <= now)%Z \/ exists d, rs_expires_at s = Some d /\ (d <= now)%Z.

Definition timer_fired (s : RevalidatedStream) (now : Instant) : bool :=
  sleep_ready (rs_max_lifetime s) now || is_some_and (rs_expires_at s) (fun d => sleep_ready d now).

(** An epoch check, in flight or begun by this poll's tick, reports a newer
    epoch than the identity's. *)
Definition revoked (s : RevalidatedStream) (e : PollEnv I) : Prop :=
  (rs_epoch_check s = true \/ is_some (rs_epoch_interval s) && env_tick e && rs_authenticator s = true) /\
  exists epoch, env_epoch e = Ready epoch /\ (id_auth_epoch (rs_identity s) < epoch)%N.

(** The stream is over at this poll. *)
Definition over (s : RevalidatedStream) (e : PollEnv I) : Prop := timer_fired s (env_now e) = true \/ revoked s e.

Lemma observe_termination_over s e : (observe_termination s e).2 = true <-> over s e.
Proof.
  unfold observe_termination, over, timer_fired, revoked.
  destruct (sleep_ready _ _); cbn [orb]; [by split; auto|]. destruct (is_some_and _ _); [by split; auto|].
  destruct (rs_epoch_check s) eqn:Ec; cbn [negb]; rewrite ?andb_false_r, ?andb_true_r; cbn [andb].
  - rewrite Ec. destruct (env_epoch e) as [epoch|]; cbn; [rewrite N.ltb_lt|]; naive_solver.
  - destruct (_ && rs_authenticator s); cbn [set_epoch_check rs_epoch_check rs_identity]; [|rewrite Ec; naive_solver].
    destruct (env_epoch e) as [epoch|]; cbn; [rewrite N.ltb_lt|]; naive_solver.
Qed.

Lemma poll_next_item s e item :
  rs_closed s = false -> env_inner e = Ready (Some item) ->
  (poll_next s e).2 = Ready (Some item) /\ rs_closed (poll_next s e).1 = false /\
  (rs_closing (poll_next s e).1 = true <-> rs_closing s = true \/ over s e).
Proof.
  intros Hc Hi. pose proof (observe_termination_frame s e) as (_ & _ & _ & _ & _ & _ & Ho).
  pose proof (observe_termination_over s e) as Hover.
  unfold poll_next. rewrite Hc, Hi. destruct (rs_closing s) eqn:Eg; [cbn; rewrite Eg; tauto|].
  destruct (observe_termination s e). cbn in *. split_and!; [done|congruence|naive_solver].
Qed.

(** When a poll answers the end. *)
Lemma poll_next_end s e :
  (poll_next s e).2 = Ready None <->
  rs_closed s = true \/ env_inner e = Ready None \/ env_inner e = Pending /\ (rs_closing s = true \/ over s e).
Proof.
  pose proof (observe_termination_over s e) as Hover. unfold poll_next. destruct (rs_closed s); [by split; auto|].
  destruct (rs_closing s); [destruct (env_inner e) as [[]|]; cbn; naive_solver|].
  destruct (env_inner e) as [[]|]; [destruct (observe_termination s e); cbn; naive_solver|cbn; naive_solver|].
  destruct (observe_termination s e) as [s' []]; cbn in *; naive_solver.
Qed.

Lemma poll_next_end_closes s e : (poll_next s e).2 = Ready None -> rs_closed (poll_next s e).1 = true.
Proof.
  unfold poll_next. destruct (rs_closed s) eqn:Ec; [done|]. destruct (rs_closing s); [by destruct (env_inner e) as [[]|]|].
  destruct (env_inner e) as [[]|]; [by case_match|done|]. by repeat case_match.
Qed.

(** A closing stream hands on its backlog and ends, whatever else its polls see. *)
Lemma run_closing s backlog items idle rest :
  rs_closed s = false -> rs_closing s = true ->
  env_inner <$> backlog = (fun item => Ready (Some item)) <$> items ->
  env_inner idle = Ready None \/ env_inner idle = Pending ->
  (run s (backlog ++ idle :: rest)).2
  = ((fun item => Ready (Some item)) <$> items) ++ ((fun _ => Ready None) <$> idle :: rest).
Proof.
  revert s items. induction backlog as [|e backlog IH]; intros s items Hc Hg Hb Hidle.
  - destruct items; [|discriminate]. cbn [app fmap list_fmap run].
    assert ((poll_next s idle).2 = Ready None) as Hend by (apply poll_next_end; naive_solver).
    pose proof (poll_next_end_closes _ _ Hend) as Hclosed. destruct (poll_next s idle) as [s' p]. cbn in Hend, Hclosed. subst p.
    by rewrite (run_closed s' rest Hclosed).
  - destruct items as [|item items]; [discriminate|]. cbn [fmap list_fmap] in Hb. injection Hb as He Hb.
    destruct (poll_next_item s e item Hc He) as (Hp & Hc' & Hg'). cbn [app run fmap list_fmap].
    destruct (poll_next s e) as [s' p]. cbn in Hp, Hc', Hg'. subst p. specialize (IH s' items Hc' ltac:(naive_solver) Hb Hidle).
    destruct (run s' (backlog ++ idle :: rest)). cbn in *. by rewrite IH.
Qed.

(** Documented behaviour of a [tokio] timer: it is ready from its deadline on. *)
Context (sleep_ready_spec : forall deadline now, (deadline <= now)%Z -> sleep_ready deadline now = true).

Lemma deadline_over s e : deadline_passed s (env_now e) -> over s e.
Proof.
  unfold over, timer_fired. intros [Hm|(d & -> & Hle)]; left; rewrite orb_true_iff.
  - left. by apply sleep_ready_spec.
  - right. cbn. by apply sleep_ready_spec.
Qed.

(** C34. How a revalidated stream ends.  It is over when the identity has
    expired, when its maximum lifetime has run out, or when an epoch check
    reports a newer epoch.  A poll answers the end exactly when the stream had
    ended before, its inner stream ended, or nothing is waiting and the stream is
    over or was seen to be; then it answers nothing else, ever.  Until then it
    hands on every item of the inner stream unchanged, and adds none.  What a
    poll that hands on an item sees is not lost: if the stream is over there,
    the items already waiting are still handed on, and the first poll that finds
    none ends it, even if the timers and the epoch check say nothing any more. *)
Theorem revalidated_stream_termination (s : RevalidatedStream) (e : PollEnv I)
    (envs : list (PollEnv I)) :
  (deadline_passed s (env_now e) -> over s e) /\
  ((poll_next s e).2 = Ready None <->
   rs_closed s = true \/ env_inner e = Ready None \/ env_inner e = Pending /\ (rs_closing s = true \/ over s e)) /\
  ((poll_next s e).2 = Ready None -> rs_closed (poll_next s e).1 = true) /\
  (rs_closed s = true -> run s envs = (s, (fun _ => Ready None) <$> envs)) /\
  (rs_closed s = false -> forall item, env_inner e = Ready (Some item) ->
     (poll_next s e).2 = Ready (Some item)) /\
  (forall item, (poll_next s e).2 = Ready (Some item) -> env_inner e = Ready (Some item)) /\
  (rs_closed s = false -> over s e -> forall item backlog items idle,
     env_inner e = Ready (Some item) -> env_inner <$> backlog = (fun item => Ready (Some item)) <$> items ->
     env_inner idle = Ready None \/ env_inner idle = Pending ->
     (run s (e :: backlog ++ idle :: envs)).2
     = ((fun item => Ready (Some item)) <$> item :: items) ++ ((fun _ => Ready None) <$> idle :: envs)).
Proof.
  split_and!; [apply deadline_over|apply poll_next_end|apply poll_next_end_closes|apply run_closed|..].
  - intros Hc item Hi. by apply poll_next_item.
  - intros item. unfold poll_next. repeat case_match; cbn; intros; simplify_eq; done.
  - intros Hc Hover item backlog items idle Hi Hb Hidle.
    destruct (poll_next_item s e item Hc Hi) as (Hp & Hc' & Hg). cbn [run]. destruct (poll_next s e) as [s' p].
    cbn in Hp, Hc', Hg. subst p. pose proof (run_closing s' backlog items idle envs Hc' ltac:(naive_solver) Hb Hidle) as Hrun.
    destruct (run s' _). cbn in *. by rewrite Hrun.
Qed.

Lemma poll_next_frame s e :
  let s' := (poll_next s e).1 in
  rs_identity s' = rs_identity s /\ rs_expires_at s' = rs_expires_at s /\
  rs_max_lifetime s' = rs_max_lifetime s.
Proof.
  pose proof (observe_termination_frame s e) as (H1 & _ & H2 & H3 & _). unfold poll_next.
  destruct (rs_closed s); [done|]. destruct (rs_closing s); [by destruct (env_inner e) as [[]|]|].
  destruct (env_inner e) as [[]|]; cbn; [|done|];
    destruct (observe_termination s e) as [s' []]; cbn in *; done.
Qed.

(** A stream ends behind its backlog.  Whenever the deadline passed, every
    item the inner stream has ready is still delivered, one per poll, and the
    end follows at the first poll that finds the inner stream idle or ended;
    from then on every poll answers the end.  In particular a source that always
    has an item ready is never cut off by expiry or by the maximum lifetime. *)
Theorem stream_ends_behind_backlog (s : RevalidatedStream) (backlog rest : list (PollEnv I))
    (items : list I) (idle : PollEnv I)
    (Hopen : rs_closed s = false)
    (Hbacklog : env_inner <$> backlog = (fun item => Ready (Some item)) <$> items)
    (Hidle : env_inner idle = Ready None \/
             env_inner idle = Pending /\ deadline_passed s (env_now idle)) :
  (run s (backlog ++ idle :: rest)).2
  = ((fun item => Ready (Some item)) <$> items) ++ ((fun _ => Ready None) <$> idle :: rest) /\
  (run s backlog).2 = (fun item => Ready (Some item)) <$> items /\
  rs_closed (run s backlog).1 = false.
Proof.
  revert s items Hopen Hbacklog Hidle. induction backlog as [|e backlog IH]; intros s items Hopen Hb Hidle.
  - destruct items; [|discriminate]. split; [|done]. cbn [app fmap list_fmap run].
    assert (Hend : (poll_next s idle).2 = Ready None /\ rs_closed (poll_next s idle).1 = true).
    { split; [|apply poll_next_end_closes]; apply poll_next_end; destruct Hidle as [Hn|[Hp Hd%deadline_over]]; auto. }
    destruct (poll_next s idle) as [s' p]. cbn in Hend. destruct Hend as [-> Hc].
    by rewrite (run_closed s' rest Hc).
  - destruct items as [|item items]; [discriminate|]. cbn [fmap list_fmap] in Hb. injection Hb as He Hb.
    destruct (poll_next_item s e item Hopen He) as (Hp & Hc & _).
    pose proof (poll_next_frame s e) as (_ & Hx & Hm). cbn [app run fmap list_fmap].
    destruct (poll_next s e) as [s' p]. cbn in Hp, Hc, Hx, Hm. subst p.
    destruct (IH s' items Hc Hb) as (H1 & H2 & H3).
    { destruct Hidle as [|[? Hd]]; [by left|]. right. split; [done|].
      unfold deadline_passed in *. by rewrite Hx, Hm. }
    destruct (run s' (backlog ++ idle :: rest)), (run s' backlog). cbn in *. by subst.
Qed.

End stream.

(** A stream opened at time 0 whose identity expires at 10. *)
Definition sample_identity : Identity :=
  mk_Identity (Some sample_subject) None sample_group ∅ (Some 10%Z) 3 None.
Definition sample_stream : RevalidatedStream :=
  revalidate_stream 0 0 sample_identity true default_revalidation_config.

(** The epoch is seen revoked at 5, while an item is handed on. *)
Lemma revalidated_stream_termination_witness :
  (run Z.leb sample_stream
     [ mk_PollEnv nat 5 (Ready (Some 1)) true (Ready 4%N);
       mk_PollEnv nat 6 (Ready (Some 2)) false Pending;
       mk_PollEnv nat 7 Pending false Pending ]).2
  = [Ready (Some 1); Ready (Some 2); Ready None].
Proof.
  destruct (revalidated_stream_termination Z.leb (fun d n H => proj2 (Z.leb_le d n) H) sample_stream
    (mk_PollEnv nat 5 (Ready (Some 1)) true (Ready 4%N)) []) as (_ & _ & _ & _ & _ & _ & Hover).
  refine (Hover _ _ 1 [mk_PollEnv nat 6 (Ready (Some 2)) false Pending] [2] (mk_PollEnv nat 7 Pending false Pending) _ _ _).
  - reflexivity.
  - right. split; [right; reflexivity|]. exists 4%N. split; [reflexivity|]. cbn. lia.
  - reflexivity.
  - reflexivity.
  - right. reflexivity.
Defined.

(** The deadline is 10; the items polled at 50 and 60 are still delivered. *)
Lemma stream_ends_behind_backlog_witness :
  (run Z.leb sample_stream
     [ mk_PollEnv nat 50 (Ready (Some 1)) false Pending;
       mk_PollEnv nat 60 (Ready (Some 2)) false Pending;
       mk_PollEnv nat 70 Pending false Pending ]).2
  = [Ready (Some 1); Ready (Some 2); Ready None].
Proof.
  apply (stream_ends_behind_backlog Z.leb (fun d n H => proj2 (Z.leb_le d n) H) sample_stream
    [ mk_PollEnv nat 50 (Ready (Some 1)) false Pending;
      mk_PollEnv nat 60 (Ready (Some 2)) false Pending ] []
    [1; 2] (mk_PollEnv nat 70 Pending false Pending)).
  - reflexivity.
  - reflexivity.
  - right. split; [reflexivity|]. right. exists 10%Z. split; [reflexivity|]. cbn. lia.
Defined.
