(* ===== verification/Engine.v ===== *)
(** * The engine's authorization pipeline

    [crates/core/src/engine/pipeline.rs] with the hooks of
    [crates/core/src/authz/hooks.rs], the permits of
    [crates/core/src/storage_ports/proof.rs] and the registry's hook runners.
    The owner resolver, the authorization hooks and the storage ports are host
    code, fields of [Engine].  Observer calls are the pipeline's only effect: an
    operation returns its answer with the list of observations it made. *)

From S2P Require Import Prelude Ids Access Publication OwnerScope Authz.

(** ** Hooks *)

Inductive AuthzOutcome := Allowed | DeniedGrant | DeniedVeto | DeniedResolution | DeniedInternal.

Inductive MembershipChange := AddMember | RemoveMember.

Inductive GoalCollaborationChange :=
| GrantAccess | RevokeAccess | Publish | Unpublish | BindWork | UnbindWork | AuthorWork | Edit | Fork.

Inductive AuthzOperation :=
| OpRead (kind : AccessKind)
| OpWrite (kind : AccessKind)
| OpOwnerAdmin
| OpMembership (change : MembershipChange) (group : GroupId) (member : OwnerId) (relation : Relation)
| OpEntityTransfer (entity : EntityId) (to_owner : OwnerId)
| OpGoalCollaboration (goal : GoalHandle) (change : GoalCollaborationChange).

Record AuthzInput := mk_AuthzInput {
  in_authz : AuthzContext;
  in_requested : OwnerId;
  in_resolved : OwnerId;
  in_operation : AuthzOperation;
}.

(** A hook's [veto]; its [observe] is the log below. *)
Abbreviation Veto := (AuthzInput -> result unit rstring).

(** One call of one hook's [observe]: which hook, what it was told. *)
Record Observation := mk_Observation {
  obs_hook : nat;
  obs_input : AuthzInput;
  obs_outcome : AuthzOutcome;
}.

(** ** Permits *)

Record DelegatedWriteGuard := mk_DelegatedWriteGuard {
  guard_runtime_binding : DelegationRuntimeBinding;
  guard_expires_at : SystemTime;
}.

Record OwnerWritePermit := mk_OwnerWritePermit {
  permit_owner : OwnerId;
  permit_access_kind : AccessKind;
  permit_owner_scope : option OwnerScope;
  permit_transfer_destination : option OwnerId;
  permit_delegated : option DelegatedWriteGuard;
}.

Module OwnerWritePermit.

Definition new (owner : OwnerId) (kind : AccessKind) (scope : option OwnerScope) : OwnerWritePermit :=
  mk_OwnerWritePermit owner kind scope None None.

Definition new_delegated (owner : OwnerId) (kind : AccessKind) (binding : DelegationRuntimeBinding)
    (expires_at : SystemTime) (scope : option OwnerScope) : OwnerWritePermit :=
  mk_OwnerWritePermit owner kind scope None (Some (mk_DelegatedWriteGuard binding expires_at)).

Definition validate_for_engine (now : SystemTime) (self : OwnerWritePermit)
    (binding : DelegationRuntimeBinding) : result unit ProtocolError :=
  match permit_delegated self with
  | None => Ok tt
  | Some delegated =>
      if negb (bool_decide (guard_runtime_binding delegated = binding))
      then Err (ProtocolError.forbidden (str "delegated write witness belongs to a different runtime"))
      else if (guard_expires_at delegated <=? now)%Z
      then Err (ProtocolError.forbidden (str "delegated write witness has expired"))
      else Ok tt
  end.

Definition authorize_transfer_to (self : OwnerWritePermit) (destination : OwnerId) : OwnerWritePermit :=
  mk_OwnerWritePermit (permit_owner self) (permit_access_kind self) (permit_owner_scope self)
    (Some destination) (permit_delegated self).

End OwnerWritePermit.

(** What a membership write carries besides the parent owner's permit. *)
Inductive MembershipMemberAuthority := CallerDoesNotManageMember | CallerManagesMember.

Inductive MembershipEndpointAuthority := EndpointParent | EndpointMember.

#[export] Instance MembershipMemberAuthority_eq_dec : EqDecision MembershipMemberAuthority.
Proof. solve_decision. Defined.
#[export] Instance MembershipEndpointAuthority_eq_dec : EqDecision MembershipEndpointAuthority.
Proof. solve_decision. Defined.

Record MembershipWritePermit := mk_MembershipWritePermit {
  mwp_owner : OwnerWritePermit;
  mwp_parent : OwnerId;
  mwp_member_authority : MembershipMemberAuthority;
  mwp_endpoint_authority : MembershipEndpointAuthority;
  mwp_caller : option UserId;
}.

Module MembershipWritePermit.

Definition new (owner : OwnerWritePermit) (parent : OwnerId) (member : MembershipMemberAuthority)
    (endpoint : MembershipEndpointAuthority) : MembershipWritePermit :=
  mk_MembershipWritePermit owner parent member endpoint None.

Definition with_caller (self : MembershipWritePermit) (caller : UserId) : MembershipWritePermit :=
  mk_MembershipWritePermit (mwp_owner self) (mwp_parent self) (mwp_member_authority self)
    (mwp_endpoint_authority self) (Some caller).

End MembershipWritePermit.

Record WritePermit := mk_WritePermit { owner_write : OwnerWritePermit }.

Record EntryReadPermit := mk_EntryReadPermit {
  entry_owner : OwnerId;
  entry_kind : AccessKind;
  entry_schema_id : option SchemaId;
}.

(** ** Storage ports the pipeline reads *)

Inductive EntryReadRoute := RouteOwner | RouteGoal.

Record VisibleEntry := mk_VisibleEntry {
  visible_owner : OwnerId;
  visible_kind : AccessKind;
  visible_schema : option SchemaId;
  visible_route : EntryReadRoute;
}.

Record Engine := mk_Engine {
  owner_resolver : option (AuthzContext -> OwnerId -> result OwnerId ProtocolError);
  authorization_hooks : list Veto;
  system_authority_binding : SystemAuthorityBinding;
  delegation_runtime_binding : DelegationRuntimeBinding;
  read_owner_candidates : OwnerScope -> result (list OwnerId) rstring;
  visible_entries : option OwnerScope -> list EntityId -> list OwnerId ->
    result (list (option VisibleEntry)) rstring;
}.

(** An answer with the observations made on the way. *)
Abbreviation Audited A := (list Observation * A)%type.

(** ** The registry's runners *)

Definition resolve_owner (e : Engine) (authz : AuthzContext) (requested : OwnerId) :
    result OwnerId ProtocolError :=
  match owner_resolver e with
  | Some resolve => resolve authz requested
  | None => Ok requested
  end.

Fixpoint run_vetoes (hooks : list Veto) (input : AuthzInput) : result unit ProtocolError :=
  match hooks with
  | [] => Ok tt
  | veto :: rest =>
      let? _ := map_err ProtocolError.forbidden (veto input) in
      run_vetoes rest input
  end.

Definition run_authorization_vetoes (e : Engine) (input : AuthzInput) : result unit ProtocolError :=
  run_vetoes (authorization_hooks e) input.

Definition run_authorization_observers (e : Engine) (input : AuthzInput) (outcome : AuthzOutcome) :
    list Observation :=
  imap (fun i _ => mk_Observation i input outcome) (authorization_hooks e).

(** ** The gate *)

(** [Debug] of an [AccessKind]. *)
Definition kind_debug (kind : AccessKind) : rstring :=
  match kind with
  | KFact => str "Fact"
  | KAbstraction => str "Abstraction"
  | KPerspective => str "Perspective"
  | KGoal => str "Goal"
  end.

Definition allows (authz : AuthzContext) (owner : OwnerId) (operation : AuthzOperation) : bool :=
  match operation with
  | OpRead kind => AuthzContext.may_read authz owner kind
  | OpWrite kind => AuthzContext.may_write authz owner kind
  | OpOwnerAdmin => is_some_and (AuthzContext.role_for_owner authz owner) Role.administers
  | OpMembership _ _ _ _ | OpEntityTransfer _ _ | OpGoalCollaboration _ _ => false
  end.

Definition denied (operation : AuthzOperation) : ProtocolError :=
  ProtocolError.forbidden
    match operation with
    | OpRead kind => str "requires " ++ kind_debug kind ++ str " read on this owner"
    | OpWrite kind => str "requires " ++ kind_debug kind ++ str " write on this owner"
    | _ => str "requires admin on this owner"
    end.

Definition is_read_operation (operation : AuthzOperation) : bool :=
  match operation with OpRead _ => true | _ => false end.

Definition gate (e : Engine) (authz : AuthzContext) (owner : OwnerId) (operation : AuthzOperation)
    (redeemed_phase : bool) : Audited (result OwnerId ProtocolError) :=
  if bool_decide (AuthzContext.auth_path authz = Delegated) && negb redeemed_phase
  then ([], Err (ProtocolError.forbidden
                   (str "raw delegated authorization contexts are not Engine authority")))
  else
    let refuse resolved outcome err :=
      (run_authorization_observers e (mk_AuthzInput authz owner resolved operation) outcome, Err err) in
    let writes := negb (is_read_operation operation) in
    if writes && bool_decide (AuthzContext.auth_path authz = System)
       && negb (AuthzContext.carries_system_authority authz (system_authority_binding e))
    then refuse owner DeniedGrant
           (ProtocolError.forbidden
              (str "System write authority requires a context from AuthzContext::for_system"))
    else if bool_decide (AuthzContext.auth_path authz = Denied)
    then refuse owner DeniedResolution (ProtocolError.forbidden (str "denied context authorizes nothing"))
    else
      match resolve_owner e authz owner with
      | Err err => refuse owner DeniedResolution err
      | Ok resolved =>
          if negb (allows authz resolved operation)
          then refuse resolved DeniedGrant (denied operation)
          else
            let input := mk_AuthzInput authz owner resolved operation in
            match run_authorization_vetoes e input with
            | Err err => (run_authorization_observers e input DeniedVeto, Err err)
            | Ok _ => (run_authorization_observers e input Allowed, Ok resolved)
            end
      end.

(** ** Operations on a sealed authority *)

Definition operation_authority (now : SystemTime) (e : Engine) (authority : EngineAuthority) :
    result EngineOperationAuthority ProtocolError :=
  let? operation := context_for_engine_operation now authority in
  let? _ := validate_runtime_binding operation (Some (delegation_runtime_binding e)) in
  Ok operation.

Definition validate_write_permit (now : SystemTime) (e : Engine) (permit : OwnerWritePermit) :
    result unit ProtocolError :=
  OwnerWritePermit.validate_for_engine now permit (delegation_runtime_binding e).

Definition write_permit (now : SystemTime) (e : Engine) (authority : EngineAuthority)
    (owner : OwnerId) (operation : AuthzOperation) : Audited (result WritePermit ProtocolError) :=
  match operation_authority now e authority with
  | Err err => ([], Err err)
  | Ok authority =>
      let authz := op_authz authority in
      let kind := match operation with OpWrite kind => kind | _ => KGoal end in
      let '(log, gated) := gate e authz owner operation (op_redeemed_phase authority) in
      (log,
       let? resolved := gated in
       let? permit :=
         if op_redeemed_phase authority then
           let? expires_at :=
             ok_or (AuthzContext.expires_at authz)
               (ProtocolError.forbidden (str "delegated worker phase has no finite expiry")) in
           Ok (OwnerWritePermit.new_delegated resolved kind (delegation_runtime_binding e) expires_at
                 (AuthzContext.owner_scope authz))
         else Ok (OwnerWritePermit.new resolved kind (AuthzContext.owner_scope authz)) in
       Ok (mk_WritePermit permit))
  end.

Definition authorize_owner_write (now : SystemTime) (e : Engine) (authz : AuthzContext)
    (owner : OwnerId) (kind : AccessKind) : Audited (result OwnerWritePermit ProtocolError) :=
  let '(log, permit) := write_permit now e (OfContext authz) owner (OpWrite kind) in
  (log, let? permit := permit in Ok (owner_write permit)).

Definition authorize_write (now : SystemTime) (e : Engine) (authority : EngineAuthority)
    (owner : OwnerId) (kind : AccessKind) : Audited (result WritePermit ProtocolError) :=
  write_permit now e authority owner (OpWrite kind).

(** Two clock reads for a phase: one here, one inside [write_permit]. *)
Definition authorize_write_limit (now now' : SystemTime) (e : Engine) (authority : EngineAuthority)
    (owner : OwnerId) : Audited (result WritePermit ProtocolError) :=
  match operation_authority now e authority with
  | Err err => ([], Err err)
  | Ok operation =>
      let kind :=
        default KFact
          (let* role := AuthzContext.role_for_owner (op_authz operation) owner in
           AccessCeiling.top (Role.write_ceiling role)) in
      write_permit now' e authority owner (OpWrite kind)
  end.

Definition authorize_owner_admin (now : SystemTime) (e : Engine) (authority : EngineAuthority)
    (owner : OwnerId) : Audited (result WritePermit ProtocolError) :=
  write_permit now e authority owner OpOwnerAdmin.

Definition authorize_owner_read (now : SystemTime) (e : Engine) (authority : EngineAuthority)
    (owner : OwnerId) (kind : AccessKind) : Audited (result OwnerId ProtocolError) :=
  match operation_authority now e authority with
  | Err err => ([], Err err)
  | Ok authority =>
      gate e (op_authz authority) owner (OpRead kind) (op_redeemed_phase authority)
  end.

(** ** Read sets *)

Definition readable_set (e : Engine) (authz : AuthzContext) :
    Audited (result (list OwnerId) ProtocolError) :=
  let read := if bool_decide (AuthzContext.auth_path authz = Denied) then []
              else AuthzContext.readable_owners authz KFact in
  if is_empty read then
    let principal := AuthzContext.principal authz in
    (run_authorization_observers e (mk_AuthzInput authz principal principal (OpRead KFact))
       DeniedResolution,
     Err (ProtocolError.forbidden (str "denied context authorizes nothing")))
  else ([], Ok read).

Definition veto_read_owner (e : Engine) (authz : AuthzContext) (owner : OwnerId) (kind : AccessKind) :
    Audited (result unit ProtocolError) :=
  let input := mk_AuthzInput authz owner owner (OpRead kind) in
  match run_authorization_vetoes e input with
  | Err err => (run_authorization_observers e input DeniedVeto, Err err)
  | Ok _ => (run_authorization_observers e input Allowed, Ok tt)
  end.

(** The filter of [authorize_read] and [authorize_row_read]. *)
Fixpoint filter_vetoed (e : Engine) (authz : AuthzContext) (owners : list OwnerId) :
    Audited (list OwnerId) :=
  match owners with
  | [] => ([], [])
  | owner :: rest =>
      let '(log, verdict) := veto_read_owner e authz owner KFact in
      let '(logs, kept) := filter_vetoed e authz rest in
      (log ++ logs, if is_ok verdict then owner :: kept else kept)
  end.

Definition authorize_read (now : SystemTime) (e : Engine) (authority : EngineAuthority) :
    Audited (result (list OwnerId) ProtocolError) :=
  match operation_authority now e authority with
  | Err err => ([], Err err)
  | Ok operation =>
      let authz := op_authz operation in
      match readable_set e authz with
      | (log, Err err) => (log, Err err)
      | (log, Ok read) =>
          let '(logs, kept) := filter_vetoed e authz read in
          (log ++ logs, Ok kept)
      end
  end.

Definition storage_error (context err : rstring) : ProtocolError :=
  ProtocolError.internal (context ++ str ": " ++ err).

Definition owner_leb (a b : OwnerId) : bool := (OwnerId_0 a <=? OwnerId_0 b)%N.

Definition row_read_candidates (now : SystemTime) (e : Engine) (authz : AuthzContext) :
    Audited (result (list OwnerId) ProtocolError) :=
  match readable_set e authz with
  | (log, Err err) => (log, Err err)
  | (log, Ok candidates) =>
      (log,
       match (let* scope := AuthzContext.owner_scope authz in
              if is_some (OwnerScope.goal_principal now scope) then Some scope else None) with
       | Some scope =>
           let? goal_candidates :=
             map_err (storage_error (str "goal_read_candidates")) (read_owner_candidates e scope) in
           Ok (dedup (sort_by owner_leb (candidates ++ goal_candidates)))
       | None => Ok candidates
       end)
  end.

(** [now] is read for a phase, [now'] for the goal principal. *)
Definition authorize_row_read (now now' : SystemTime) (e : Engine) (authority : EngineAuthority) :
    Audited (result (list OwnerId) ProtocolError) :=
  match operation_authority now e authority with
  | Err err => ([], Err err)
  | Ok operation =>
      let authz := op_authz operation in
      match row_read_candidates now' e authz with
      | (log, Err err) => (log, Err err)
      | (log, Ok candidates) =>
          let '(logs, kept) := filter_vetoed e authz candidates in
          (log ++ logs, Ok kept)
      end
  end.

(** ** Entry reads *)

Definition ENTRY_NOT_FOUND_MESSAGE : rstring := str "entry not found".
Definition entry_not_found : ProtocolError := ProtocolError.forbidden ENTRY_NOT_FOUND_MESSAGE.

(** Whether the caller may read a located entry. *)
Definition entry_allowed (now : SystemTime) (authz : AuthzContext) (entry : VisibleEntry) : bool :=
  match visible_route entry with
  | RouteOwner => AuthzContext.may_read authz (visible_owner entry) (visible_kind entry)
  | RouteGoal =>
      is_some_and (AuthzContext.owner_scope authz)
        (fun scope => is_some (OwnerScope.goal_principal now scope))
  end.

Definition decide_entry (now : SystemTime) (e : Engine) (authz : AuthzContext)
    (home : option VisibleEntry) : Audited (result EntryReadPermit ProtocolError) :=
  match home with
  | Some entry =>
      if entry_allowed now authz entry then
        let '(log, verdict) := veto_read_owner e authz (visible_owner entry) (visible_kind entry) in
        (log,
         match verdict with
         | Ok _ => Ok (mk_EntryReadPermit (visible_owner entry) (visible_kind entry)
                         (visible_schema entry))
         | Err _ => Err entry_not_found
         end)
      else ([], Err entry_not_found)
  | None => ([], Err entry_not_found)
  end.

(** [homes.into_iter().map(..).collect()]: the first refusal ends it, and later
    entries are not decided.  [clock i] is the time read for the i-th entry. *)
Fixpoint decide_entries (clock : nat -> SystemTime) (e : Engine) (authz : AuthzContext)
    (homes : list (option VisibleEntry)) : Audited (result (list EntryReadPermit) ProtocolError) :=
  match homes with
  | [] => ([], Ok [])
  | home :: rest =>
      match decide_entry (clock 0) e authz home with
      | (log, Err err) => (log, Err err)
      | (log, Ok permit) =>
          match decide_entries (fun i => clock (S i)) e authz rest with
          | (logs, Err err) => (log ++ logs, Err err)
          | (logs, Ok permits) => (log ++ logs, Ok (permit :: permits))
          end
      end
  end.

Definition authorize_entry_reads (now now' : SystemTime) (clock : nat -> SystemTime) (e : Engine)
    (authority : EngineAuthority) (entities : list EntityId) :
    Audited (result (list EntryReadPermit) ProtocolError) :=
  if is_empty entities then ([], Ok [])
  else
    match operation_authority now e authority with
    | Err err => ([], Err err)
    | Ok operation =>
        let authz := op_authz operation in
        match row_read_candidates now' e authz with
        | (log, Err err) => (log, Err err)
        | (log, Ok read) =>
            match visible_entries e (AuthzContext.owner_scope authz) entities read with
            | Err err => (log, Err (storage_error (str "visible_home_owner") err))
            | Ok homes =>
                let '(logs, permits) := decide_entries clock e authz homes in
                (log ++ logs, permits)
            end
        end
    end.

(** [permits.remove(0)] panics ([None]) when storage answered for no entity. *)
Definition authorize_entry_read (now now' : SystemTime) (clock : nat -> SystemTime) (e : Engine)
    (authority : EngineAuthority) (entity : EntityId) :
    Audited (option (result EntryReadPermit ProtocolError)) :=
  let '(log, permits) := authorize_entry_reads now now' clock e authority [entity] in
  (log, match permits with
        | Err err => Some (Err err)
        | Ok [] => None
        | Ok (permit :: _) => Some (Ok permit)
        end).

(** ** The gate, specified *)

(** The conditions under which the gate lets an operation through. *)
Record gate_permits (e : Engine) (authz : AuthzContext) (owner : OwnerId)
    (operation : AuthzOperation) (redeemed_phase : bool) (resolved : OwnerId) : Prop := {
  permits_redeemed : AuthzContext.auth_path authz = Delegated -> redeemed_phase = true;
  permits_system : AuthzContext.auth_path authz = System -> is_read_operation operation = false ->
    AuthzContext.carries_system_authority authz (system_authority_binding e) = true;
  permits_not_denied : AuthzContext.auth_path authz <> Denied;
  permits_resolved : resolve_owner e authz owner = Ok resolved;
  permits_allowed : allows authz resolved operation = true;
  permits_unvetoed : Forall (fun veto : Veto =>
    veto (mk_AuthzInput authz owner resolved operation) = Ok tt) (authorization_hooks e);
}.

Lemma run_vetoes_Ok hooks input :
  run_vetoes hooks input = Ok tt <-> Forall (fun veto : Veto => veto input = Ok tt) hooks.
Proof.
  induction hooks as [|veto hooks IH]; cbn; [split; [constructor|done]|].
  rewrite list.Forall_cons, <-IH. destruct (veto input) as [[]|]; cbn; naive_solver.
Qed.

Lemma run_vetoes_total hooks input :
  run_vetoes hooks input = Ok tt \/ exists reason, run_vetoes hooks input = Err (ProtocolError.forbidden reason).
Proof.
  induction hooks as [|veto hooks IH]; cbn; [by left|].
  destruct (veto input) as [[]|reason]; cbn; [done|]. right. by exists reason.
Qed.

(** Exactly one observation per hook, in registration order. *)
Definition observed (e : Engine) (log : list Observation) (input : AuthzInput) (outcome : AuthzOutcome) : Prop :=
  length log = length (authorization_hooks e) /\
  forall i, i < length (authorization_hooks e) -> log !! i = Some (mk_Observation i input outcome).

Lemma observers_observed e input outcome :
  observed e (run_authorization_observers e input outcome) input outcome.
Proof.
  unfold run_authorization_observers, observed. split; [apply length_imap|]. intros i Hi.
  rewrite list_lookup_imap. destruct (lookup_lt_is_Some_2 _ _ Hi) as [h ->]. done.
Qed.
#[export] Hint Resolve observers_observed : proxiima.

Lemma gate_Ok e authz owner operation redeemed resolved :
  (gate e authz owner operation redeemed).2 = Ok resolved <->
  gate_permits e authz owner operation redeemed resolved.
Proof.
  unfold gate. split.
  - destruct (bool_decide (AuthzContext.auth_path authz = Delegated) && negb redeemed) eqn:Hd; [discriminate|].
    destruct (negb (is_read_operation operation) && _ && _) eqn:Hs; [discriminate|].
    destruct (bool_decide (AuthzContext.auth_path authz = Denied)) eqn:HD; [discriminate|].
    destruct (resolve_owner e authz owner) as [r|] eqn:Hr; [|discriminate].
    destruct (allows authz r operation) eqn:Ha; [|discriminate]. cbn [negb].
    destruct (run_authorization_vetoes e _) as [[]|] eqn:Hv; [|discriminate]. cbn. intros [= <-].
    apply bool_decide_eq_false in HD. constructor; try done.
    + intros Hdel. rewrite bool_decide_true in Hd by done. by apply negb_false_iff in Hd.
    + intros Hsys Hrd. rewrite Hrd, bool_decide_true in Hs by done. by apply negb_false_iff in Hs.
    + by apply run_vetoes_Ok.
  - intros [Hd Hs HD Hr Ha Hv].
    replace (bool_decide (AuthzContext.auth_path authz = Delegated) && negb redeemed) with false.
    2:{ case_bool_decide as E; [|done]. by rewrite (Hd E). }
    replace (negb (is_read_operation operation) && _ && _) with false.
    2:{ destruct (is_read_operation operation) eqn:Erd; [done|]. case_bool_decide as E; [|done].
        by rewrite (Hs E eq_refl). }
    rewrite bool_decide_false by done. rewrite Hr, Ha. cbn [negb].
    unfold run_authorization_vetoes. by rewrite (proj2 (run_vetoes_Ok _ _) Hv).
Qed.

(** C1. The gate is sound and complete: it answers a resolved owner exactly when
    a raw delegated context is not being used, a System context that wants more
    than a read carries this engine's own authority, the context is not denied,
    the host resolves the requested owner to it, the caller's role there covers
    the operation, and no hook vetoes.  Membership changes, entity transfers and
    Goal collaboration never pass it. *)
Theorem gate_sound_complete (e : Engine) (authz : AuthzContext) (owner : OwnerId)
    (operation : AuthzOperation) (redeemed_phase : bool) (resolved : OwnerId) :
  ((gate e authz owner operation redeemed_phase).2 = Ok resolved <->
   gate_permits e authz owner operation redeemed_phase resolved) /\
  (allows authz resolved operation = true ->
   match operation with
   | OpRead kind => AuthzContext.may_read authz resolved kind = true
   | OpWrite kind => AuthzContext.may_write authz resolved kind = true
   | OpOwnerAdmin => AuthzContext.may_write authz resolved KGoal = true
   | _ => False
   end).
Proof.
  split; [apply gate_Ok|]. destruct operation; cbn; try done.
  unfold AuthzContext.role_for_owner, AuthzContext.may_write, OwnerRoles.may_write.
  destruct (ctx_owner_roles authz); cbn; [|done]. by destruct (OwnerRoles.role_for _ _).
Qed.

(** What an observed outcome says about the answer. *)
Definition outcome_explains (e : Engine) (input : AuthzInput) (outcome : AuthzOutcome)
    (answer : result OwnerId ProtocolError) : Prop :=
  match outcome with
  | Allowed => answer = Ok (in_resolved input)
  | DeniedVeto => exists reason,
      run_authorization_vetoes e input = Err (ProtocolError.forbidden reason) /\
      answer = Err (ProtocolError.forbidden reason)
  | DeniedResolution =>
      is_ok answer = false /\
      (AuthzContext.auth_path (in_authz input) = Denied \/
       exists err, resolve_owner e (in_authz input) (in_requested input) = Err err /\ answer = Err err)
  | DeniedGrant =>
      is_ok answer = false /\
      (allows (in_authz input) (in_resolved input) (in_operation input) = false \/
       AuthzContext.auth_path (in_authz input) = System /\
       AuthzContext.carries_system_authority (in_authz input) (system_authority_binding e) = false)
  | DeniedInternal => False
  end.

(** Every decision of the gate is audited once.  Apart from a raw delegated
    context, which is refused before any hook runs, the observers are called
    exactly once each, in registration order, about this very request, and the
    outcome they are told is the reason of the answer: allowed iff the request
    passed, else the missing grant, the failed resolution or the veto that
    refused it. *)
Theorem gate_audits_once (e : Engine) (authz : AuthzContext) (owner : OwnerId)
    (operation : AuthzOperation) (redeemed_phase : bool) :
  let '(log, answer) := gate e authz owner operation redeemed_phase in
  (AuthzContext.auth_path authz = Delegated /\ redeemed_phase = false /\ log = [] /\
   is_ok answer = false) \/
  exists resolved outcome,
    observed e log (mk_AuthzInput authz owner resolved operation) outcome /\
    outcome_explains e (mk_AuthzInput authz owner resolved operation) outcome answer.
Proof.
  destruct (gate e authz owner operation redeemed_phase) as [log answer] eqn:E. unfold gate in E.
  destruct (bool_decide (AuthzContext.auth_path authz = Delegated) && negb redeemed_phase) eqn:Ed.
  { left. bools. by simplify_eq. }
  right. destruct (negb (is_read_operation operation) && _ && _) eqn:Es.
  { simplify_eq. bools. eexists _, _. split; [apply observers_observed|]. cbn. by split; [|right]. }
  destruct (bool_decide (AuthzContext.auth_path authz = Denied)) eqn:HD.
  { simplify_eq. bools. eexists _, _. split; [apply observers_observed|]. cbn. by split; [|left]. }
  destruct (resolve_owner e authz owner) as [r|err] eqn:Hr.
  2:{ simplify_eq. eexists _, _. split; [apply observers_observed|]. cbn. split; [done|]. right. by exists err. }
  destruct (allows authz r operation) eqn:Ha; cbn [negb] in E.
  2:{ simplify_eq. eexists _, _. split; [apply observers_observed|]. cbn. by split; [|left]. }
  unfold run_authorization_vetoes in *.
  destruct (run_vetoes_total (authorization_hooks e) (mk_AuthzInput authz owner r operation)) as [Hv|[reason Hv]];
    rewrite Hv in E; simplify_eq; eexists _, _; (split; [apply observers_observed|]); cbn; [done|].
  exists reason. split; [exact Hv|done].
Qed.

(** ** Write permits *)

Lemma operation_authority_Ok now e authority op :
  operation_authority now e authority = Ok op <->
  match authority with
  | OfContext authz => AuthzContext.auth_path authz <> Delegated /\
      op = mk_EngineOperationAuthority authz false None
  | OfPhase phase => (now < phase_expires_at phase)%Z /\
      phase_runtime_binding phase = delegation_runtime_binding e /\
      op = mk_EngineOperationAuthority (phase_authz phase) true (Some (phase_runtime_binding phase))
  end.
Proof.
  unfold operation_authority, context_for_engine_operation, validate_runtime_binding.
  destruct authority as [authz|phase].
  - case_bool_decide; cbn; naive_solver.
  - destruct (Z.leb_spec (phase_expires_at phase) now); cbn.
    + split; [discriminate|]. intros (? & _). lia.
    + case_bool_decide; cbn; naive_solver.
Qed.

(** The kind a write gate stamps on its permit. *)
Definition stamped_kind (operation : AuthzOperation) : AccessKind :=
  match operation with OpWrite kind => kind | _ => KGoal end.

Lemma write_permit_Ok now e authority owner operation permit :
  (write_permit now e authority owner operation).2 = Ok permit <->
  exists op resolved,
    operation_authority now e authority = Ok op /\
    gate_permits e (op_authz op) owner operation (op_redeemed_phase op) resolved /\
    permit_owner (owner_write permit) = resolved /\
    permit_access_kind (owner_write permit) = stamped_kind operation /\
    permit_owner_scope (owner_write permit) = AuthzContext.owner_scope (op_authz op) /\
    permit_transfer_destination (owner_write permit) = None /\
    if op_redeemed_phase op then
      exists expires_at, AuthzContext.expires_at (op_authz op) = Some expires_at /\
        permit_delegated (owner_write permit)
        = Some (mk_DelegatedWriteGuard (delegation_runtime_binding e) expires_at)
    else permit_delegated (owner_write permit) = None.
Proof.
  unfold write_permit. destruct (operation_authority now e authority) as [op|]; [|naive_solver].
  setoid_rewrite <-gate_Ok.
  destruct (gate e (op_authz op) owner operation (op_redeemed_phase op)) as [log [resolved|err]] eqn:Eg; cbn.
  2:{ split; [discriminate|]. intros (op' & r & [= <-] & Hg & _). rewrite Eg in Hg. discriminate. }
  destruct (op_redeemed_phase op) eqn:Ep; [destruct (AuthzContext.expires_at (op_authz op)) as [x|] eqn:Ex; cbn|];
    (split;
      [intros H; try discriminate; injection H as <-; exists op, resolved; rewrite Ep, Eg; split_and!; try done; by exists x
      |intros (op' & r & [= <-] & Hg & Ho & Hk & Hs & Ht & Hd); rewrite Ep in Hg, Hd; rewrite Eg in Hg;
       injection Hg as <-; destruct permit as [[]]; cbn in *; naive_solver]).
Qed.

(** The context an authority acts with. *)
Definition authority_authz (authority : EngineAuthority) : AuthzContext :=
  match authority with OfContext authz => authz | OfPhase phase => phase_authz phase end.

Lemma allowed_kind authz owner operation :
  allows authz owner operation = true -> is_read_operation operation = false ->
  AuthzContext.may_write authz owner (stamped_kind operation) = true.
Proof.
  destruct operation; cbn; try done. intros H _. revert H.
  unfold AuthzContext.role_for_owner, AuthzContext.may_write, OwnerRoles.may_write.
  destruct (ctx_owner_roles authz); cbn; [|done]. by destruct (OwnerRoles.role_for _ _).
Qed.

(** C7. A write permit proves what it carries.  When a write gate mints one, the
    authority was usable on this engine at that moment (not a raw delegated
    context, not an expired phase, not a phase of another runtime), the caller
    may write the stamped kind on the stamped owner, no hook vetoed, a System
    caller held this engine's authority, and the permit carries the caller's
    sealed scope and no transfer.  It then validates on an engine exactly while
    it should: always for an ordinary caller, and for a redeemed phase only on
    the same runtime and strictly before the bearer's expiry. *)
Theorem write_permit_correct (now : SystemTime) (e : Engine) (authority : EngineAuthority)
    (owner : OwnerId) (operation : AuthzOperation) (permit : WritePermit)
    (Hop : is_read_operation operation = false)
    (Hpermit : (write_permit now e authority owner operation).2 = Ok permit) :
  let authz := authority_authz authority in
  AuthzContext.may_write authz (permit_owner (owner_write permit))
    (permit_access_kind (owner_write permit)) = true /\
  resolve_owner e authz owner = Ok (permit_owner (owner_write permit)) /\
  AuthzContext.auth_path authz <> Denied /\
  (AuthzContext.auth_path authz = System ->
   AuthzContext.carries_system_authority authz (system_authority_binding e) = true) /\
  permit_owner_scope (owner_write permit) = AuthzContext.owner_scope authz /\
  permit_transfer_destination (owner_write permit) = None /\
  match authority with
  | OfContext _ => AuthzContext.auth_path authz <> Delegated
  | OfPhase phase => (now < phase_expires_at phase)%Z /\
      phase_runtime_binding phase = delegation_runtime_binding e
  end /\
  (forall now' e',
     validate_write_permit now' e' (owner_write permit) = Ok tt <->
     match authority with
     | OfContext _ => True
     | OfPhase _ => delegation_runtime_binding e' = delegation_runtime_binding e /\
         exists expires_at, AuthzContext.expires_at authz = Some expires_at /\ (now' < expires_at)%Z
     end).
Proof.
  apply write_permit_Ok in Hpermit as (op & resolved & Hauth & [Hd Hs HD Hr Ha _] & Ho & Hk & Hsc & Ht & Hdel).
  apply operation_authority_Ok in Hauth. intros authz.
  assert (Eauthz : op_authz op = authz) by (destruct authority; unfold authz; naive_solver).
  rewrite Eauthz in *. subst resolved. rewrite Hk.
  split; [by apply allowed_kind|]. split; [done|]. split; [done|].
  split; [intros ?; by apply Hs|]. split; [done|]. split; [done|].
  destruct authority as [authz'|phase].
  - destruct Hauth as [Hp ->]. cbn in Hdel. split; [done|]. intros now' e'.
    unfold validate_write_permit, OwnerWritePermit.validate_for_engine. by rewrite Hdel.
  - destruct Hauth as (Hlt & Hb & ->). split; [done|]. cbn in Hdel. destruct Hdel as (x & Hx & Hdel).
    intros now' e'. unfold validate_write_permit, OwnerWritePermit.validate_for_engine. rewrite Hdel. cbn.
    case_bool_decide as Hbind; cbn; [destruct (Z.leb_spec x now')|].
    + split; [discriminate|]. intros (_ & x' & Hx' & ?). rewrite Hx in Hx'. injection Hx' as <-. lia.
    + split; [|done]. intros _. split; [done|]. by exists x.
    + split; [discriminate|]. intros [? _]. congruence.
Qed.

(** An engine with no resolver, one permissive hook, and empty storage. *)
Definition sample_engine : Engine :=
  mk_Engine None [fun _ => Ok tt] (mk_SystemAuthorityBinding 11) (mk_DelegationRuntimeBinding 12)
    (fun _ => Ok []) (fun _ entities _ => Ok (const None <$> entities)).

Lemma write_permit_correct_witness :
  exists permit,
    (write_permit 0 sample_engine (OfContext sample_context) sample_group (OpWrite KFact)).2 = Ok permit /\
    validate_write_permit 1000 sample_engine (owner_write permit) = Ok tt.
Proof.
  eexists. split; [vm_compute; reflexivity|].
  edestruct (write_permit_correct 0 sample_engine (OfContext sample_context) sample_group (OpWrite KFact))
    as (_ & _ & _ & _ & _ & _ & _ & H).
  - reflexivity.
  - vm_compute. reflexivity.
  - apply (H 1000%Z sample_engine). exact I.
Defined.

Lemma top_allows c kind :
  AccessCeiling.allows c kind = true <->
  exists t, AccessCeiling.top c = Some t /\ AccessKind.rank kind <= AccessKind.rank t.
Proof.
  unfold AccessCeiling.allows. destruct c, kind; cbn; split; try done;
    try (intros _; eexists; split; [reflexivity|cbn; lia]);
    intros (t & Ht & Hle); simplify_eq; cbn in *; lia.
Qed.

(** The row-write gate stamps the caller's limit: without an owner resolver,
    the kind on its permit is the highest one the caller may write there, so the
    rows storage then accepts are exactly those the caller could have named the
    kind of; and it mints nothing for a caller who may write nothing there. *)
Theorem write_limit_is_the_ceiling (now : SystemTime) (e : Engine) (authority : EngineAuthority)
    (owner : OwnerId) (permit : WritePermit) (Hresolver : owner_resolver e = None)
    (Hpermit : (authorize_write_limit now now e authority owner).2 = Ok permit) :
  permit_owner (owner_write permit) = owner /\
  (forall kind, AuthzContext.may_write (authority_authz authority) owner kind = true <->
     AccessKind.rank kind <= AccessKind.rank (permit_access_kind (owner_write permit))).
Proof.
  set (authz := authority_authz authority).
  assert (Hmay : forall kind, AuthzContext.may_write authz owner kind = true <->
    exists role, AuthzContext.role_for_owner authz owner = Some role /\
      AccessCeiling.allows (Role.write_ceiling role) kind = true).
  { intros kind. unfold AuthzContext.may_write, OwnerRoles.may_write, AuthzContext.role_for_owner.
    destruct (ctx_owner_roles authz); cbn; [|naive_solver].
    destruct (OwnerRoles.role_for _ _); cbn; unfold Role.may_write, Role.write_ceiling; naive_solver. }
  unfold authorize_write_limit in Hpermit.
  destruct (operation_authority now e authority) as [op|] eqn:Hop; cbn; [|discriminate].
  assert (Eop : op_authz op = authz)
    by (apply operation_authority_Ok in Hop; unfold authz; destruct authority; naive_solver).
  rewrite Eop in Hpermit.
  apply write_permit_Ok in Hpermit as (op' & resolved & Hop' & [_ _ _ Hr Ha _] & Ho & Hk & _).
  rewrite Hop in Hop'. injection Hop' as <-. rewrite Eop in *.
  unfold resolve_owner in Hr. rewrite Hresolver in Hr. injection Hr as <-. split; [done|].
  cbn in Ha, Hk. apply Hmay in Ha as (role & Hrole & Ha). rewrite Hrole in Hk. cbn in Hk.
  apply top_allows in Ha as (t & Ht & _). rewrite Ht in Hk. cbn in Hk. rewrite Hk. intros kind. rewrite Hmay. split.
  - intros (r & Hr & Hal). rewrite Hrole in Hr. injection Hr as <-.
    apply top_allows in Hal as (t' & Ht' & ?). congruence.
  - intros Hle. exists role. split; [done|]. apply top_allows. by exists t.
Qed.

Lemma write_limit_is_the_ceiling_witness :
  AuthzContext.may_write sample_context sample_group KGoal = false /\
  exists permit, (authorize_write_limit 0 0 sample_engine (OfContext sample_context) sample_group).2 = Ok permit /\
    permit_owner (owner_write permit) = sample_group.
Proof.
  split; [vm_compute; reflexivity|]. eexists. split; [vm_compute; reflexivity|].
  edestruct (write_limit_is_the_ceiling 0 sample_engine (OfContext sample_context) sample_group) as (H & _).
  - reflexivity.
  - vm_compute. reflexivity.
  - exact H.
Defined.

(** ** Reads *)

Lemma veto_read_owner_Ok e authz owner kind :
  is_ok (veto_read_owner e authz owner kind).2 = true <->
  Forall (fun veto : Veto => veto (mk_AuthzInput authz owner owner (OpRead kind)) = Ok tt)
    (authorization_hooks e).
Proof.
  rewrite <-run_vetoes_Ok. unfold veto_read_owner, run_authorization_vetoes.
  destruct (run_vetoes_total (authorization_hooks e) (mk_AuthzInput authz owner owner (OpRead kind)))
    as [H|[r H]]; rewrite H; done.
Qed.

(** The decisions reported for a set read: one per owner. *)
Definition read_decision (e : Engine) (authz : AuthzContext) (owner : OwnerId) : list Observation :=
  run_authorization_observers e (mk_AuthzInput authz owner owner (OpRead KFact))
    (if is_ok (veto_read_owner e authz owner KFact).2 then Allowed else DeniedVeto).

Lemma veto_read_owner_log e authz owner :
  (veto_read_owner e authz owner KFact).1 = read_decision e authz owner.
Proof.
  unfold read_decision, veto_read_owner. by destruct (run_authorization_vetoes e _).
Qed.

Lemma filter_vetoed_spec e authz owners :
  filter_vetoed e authz owners
  = (owners ≫= read_decision e authz,
     filter (fun owner => is_ok (veto_read_owner e authz owner KFact).2 = true) owners).
Proof.
  induction owners as [|owner owners IH]; [done|]. cbn [filter_vetoed]. rewrite IH.
  pose proof (veto_read_owner_log e authz owner) as Hl. rewrite filter_cons.
  destruct (veto_read_owner e authz owner KFact) as [log verdict]. cbn in Hl |- *. subst log.
  destruct verdict; by case_decide.
Qed.

(** A set read sees exactly what it may.  For a usable authority the answer
    is, in order, every owner whose Facts the caller's roles let it read and that
    no hook vetoes, each exactly once; every owner of the unvetoed read set gets
    one decision per hook and the vetoed ones drop out silently; and the only
    refusal is for a context that reads nothing at all, which is audited once for
    its principal. *)
Theorem authorize_read_exact (now : SystemTime) (e : Engine) (authority : EngineAuthority)
    (op : EngineOperationAuthority) (Hop : operation_authority now e authority = Ok op) :
  let authz := authority_authz authority in
  let read := if bool_decide (AuthzContext.auth_path authz = Denied) then []
              else AuthzContext.readable_owners authz KFact in
  authorize_read now e authority
  = match read with
    | [] =>
        (run_authorization_observers e
           (mk_AuthzInput authz (AuthzContext.principal authz) (AuthzContext.principal authz) (OpRead KFact))
           DeniedResolution,
         Err (ProtocolError.forbidden (str "denied context authorizes nothing")))
    | _ =>
        (read ≫= read_decision e authz,
         Ok (filter (fun owner => is_ok (veto_read_owner e authz owner KFact).2 = true) read))
    end /\
  (forall owners, (authorize_read now e authority).2 = Ok owners ->
     NoDup owners /\
     forall owner, owner ∈ owners <->
       AuthzContext.auth_path authz <> Denied /\ AuthzContext.may_read authz owner KFact = true /\
       Forall (fun veto : Veto => veto (mk_AuthzInput authz owner owner (OpRead KFact)) = Ok tt)
         (authorization_hooks e)).
Proof.
  intros authz read. unfold authorize_read. rewrite Hop.
  assert (Eop : op_authz op = authz)
    by (apply operation_authority_Ok in Hop; unfold authz; destruct authority; naive_solver).
  rewrite Eop. unfold readable_set. fold read.
  assert (Hread : forall owner, owner ∈ read <-> AuthzContext.auth_path authz <> Denied /\
    AuthzContext.may_read authz owner KFact = true).
  { intros owner. unfold read, AuthzContext.readable_owners, AuthzContext.may_read, OwnerRoles.readable_owners.
    case_bool_decide; [set_solver|]. destruct (ctx_owner_roles authz); cbn; [|set_solver].
    rewrite ordered_elem_of. unfold OwnerRoles.may_read. naive_solver. }
  assert (Hnd : NoDup read).
  { unfold read, AuthzContext.readable_owners. case_bool_decide; [constructor|].
    destruct (ctx_owner_roles authz); [apply ordered_NoDup|constructor]. }
  destruct read as [|o rest] eqn:Er; cbn [is_empty].
  { split; [done|]. discriminate. }
  rewrite filter_vetoed_spec, app_nil_l. split; [done|]. cbn [snd]. intros owners [= <-]. split.
  - by apply list.NoDup_filter.
  - intros owner. rewrite list_elem_of_filter, Hread, <-veto_read_owner_Ok. tauto.
Qed.

Lemma authorize_read_exact_witness :
  exists owners, (authorize_read 0 sample_engine (OfContext sample_context)).2 = Ok owners /\
    sample_group ∈ owners.
Proof.
  destruct (authorize_read_exact 0 sample_engine (OfContext sample_context)
    (mk_EngineOperationAuthority sample_context false None) eq_refl) as [_ H].
  eexists. split; [vm_compute; reflexivity|].
  eapply H; [vm_compute; reflexivity|].
  split; [vm_compute; discriminate|]. split; [vm_compute; reflexivity|].
  constructor; [reflexivity|constructor].
Defined.

(** What one located entry earns: a permit, or nothing. *)
Definition entry_verdict (now : SystemTime) (e : Engine) (authz : AuthzContext)
    (home : option VisibleEntry) : option EntryReadPermit :=
  let* entry := home in
  if entry_allowed now authz entry
     && is_ok (veto_read_owner e authz (visible_owner entry) (visible_kind entry)).2
  then Some (mk_EntryReadPermit (visible_owner entry) (visible_kind entry) (visible_schema entry))
  else None.

Lemma decide_entry_verdict now e authz home :
  (decide_entry now e authz home).2 = ok_or (entry_verdict now e authz home) entry_not_found.
Proof.
  unfold decide_entry, entry_verdict. destruct home as [entry|]; cbn; [|done].
  destruct (entry_allowed now authz entry); cbn; [|done].
  destruct (veto_read_owner _ _ _ _) as [log [u|err]]; done.
Qed.

Lemma decide_entries_verdicts clock e authz homes :
  (decide_entries clock e authz homes).2
  = ok_or (mapM id (imap (fun i home => entry_verdict (clock i) e authz home) homes)) entry_not_found.
Proof.
  revert clock. induction homes as [|home homes IH]; intros clock; [done|]. cbn [decide_entries imap].
  pose proof (decide_entry_verdict (clock 0) e authz home) as Hv.
  destruct (decide_entry (clock 0) e authz home) as [log [p|err]]; cbn in Hv |- *.
  - destruct (entry_verdict (clock 0) e authz home); [|discriminate]. injection Hv as ->. cbn.
    specialize (IH (fun i => clock (S i))). unfold compose.
    destruct (decide_entries _ e authz homes) as [logs [ps|err]]; cbn in IH |- *;
      destruct (mapM id _); cbn in *; by simplify_eq.
  - destruct (entry_verdict (clock 0) e authz home); [discriminate|]. by injection Hv as ->.
Qed.

(** C9. Entry reads disclose nothing.  Once the caller's read set and storage have
    answered, the result depends on each entity only through whether the caller
    may read it: an entity that does not exist, one above the caller's read
    limit, one outside its owners and one a hook vetoes all give the same
    "entry not found", and the permits granted are exactly those of entries the
    caller may read on an owner no hook vetoes, one per entity in order. *)
Theorem entry_reads_do_not_disclose (now now' : SystemTime) (clock : nat -> SystemTime) (e : Engine)
    (authority : EngineAuthority) (op : EngineOperationAuthority) (entities : list EntityId)
    (read : list OwnerId) (homes : list (option VisibleEntry))
    (Hop : operation_authority now e authority = Ok op)
    (Hread : (row_read_candidates now' e (op_authz op)).2 = Ok read)
    (Hhomes : visible_entries e (AuthzContext.owner_scope (op_authz op)) entities read = Ok homes)
    (Hlen : length homes = length entities) :
  (authorize_entry_reads now now' clock e authority entities).2
  = ok_or (mapM id (imap (fun i home => entry_verdict (clock i) e (op_authz op) home) homes))
      entry_not_found /\
  (forall permits, (authorize_entry_reads now now' clock e authority entities).2 = Ok permits ->
     length permits = length entities /\
     forall i permit, permits !! i = Some permit ->
       exists entry, homes !! i = Some (Some entry) /\
         permit = mk_EntryReadPermit (visible_owner entry) (visible_kind entry) (visible_schema entry) /\
         entry_allowed (clock i) (op_authz op) entry = true /\
         Forall (fun veto : Veto => veto (mk_AuthzInput (op_authz op) (visible_owner entry)
             (visible_owner entry) (OpRead (visible_kind entry))) = Ok tt) (authorization_hooks e)).
Proof.
  assert (Heq : (authorize_entry_reads now now' clock e authority entities).2
    = ok_or (mapM id (imap (fun i home => entry_verdict (clock i) e (op_authz op) home) homes))
        entry_not_found).
  { unfold authorize_entry_reads. destruct entities as [|ent entities]; cbn [is_empty].
    { destruct homes; [done|discriminate]. }
    rewrite Hop. destruct (row_read_candidates now' e (op_authz op)) as [log [r|]]; [|discriminate].
    injection Hread as ->. rewrite Hhomes. rewrite <-decide_entries_verdicts.
    by destruct (decide_entries clock e (op_authz op) homes). }
  split; [exact Heq|]. rewrite Heq. intros permits.
  destruct (mapM id _) as [ps|] eqn:E; [|discriminate]. intros [= <-].
  apply mapM_Some_1 in E. split.
  - apply Forall2_length in E. rewrite length_imap in E. congruence.
  - intros i permit Hi. destruct (Forall2_lookup_r _ _ _ _ _ E Hi) as (v & Hv & Hvp).
    rewrite list_lookup_imap in Hv. destruct (homes !! i) as [home|]; [|discriminate].
    cbn in Hv, Hvp. injection Hv as <-. unfold entry_verdict in Hvp.
    destruct home as [entry|]; [|discriminate]. cbn in Hvp.
    destruct (entry_allowed (clock i) (op_authz op) entry) eqn:Ha; [|discriminate].
    destruct (is_ok _) eqn:Hok; [|discriminate]. injection Hvp as <-.
    exists entry. by rewrite <-veto_read_owner_Ok.
Qed.

(** Storage that finds every entity as a Goal row of the group. *)
Definition sample_entry_engine : Engine :=
  mk_Engine None [fun _ => Ok tt] (mk_SystemAuthorityBinding 11) (mk_DelegationRuntimeBinding 12)
    (fun _ => Ok [])
    (fun _ entities _ => Ok (const (Some (mk_VisibleEntry sample_group KGoal None RouteOwner)) <$> entities)).

Lemma entry_reads_do_not_disclose_witness :
  (authorize_entry_reads 0 0 (fun _ => 0%Z) sample_entry_engine (OfContext sample_context)
     [EntityGoal (mk_GoalId 5)]).2
  = Ok [mk_EntryReadPermit sample_group KGoal None].
Proof.
  edestruct (entry_reads_do_not_disclose 0 0 (fun _ => 0%Z) sample_entry_engine (OfContext sample_context)
    (mk_EngineOperationAuthority sample_context false None) [EntityGoal (mk_GoalId 5)]) as [H _].
  - reflexivity.
  - vm_compute. reflexivity.
  - reflexivity.
  - reflexivity.
  - rewrite H. vm_compute. reflexivity.
Defined.

(** Refusals of unusable authority leave no trace: a raw delegated context,
    an expired phase and a phase of another runtime are refused by every gate
    before any hook runs, so their observers are told nothing. *)
Theorem unusable_authority_is_unaudited (now now' : SystemTime) (clock : nat -> SystemTime) (e : Engine)
    (authority : EngineAuthority) (owner : OwnerId) (operation : AuthzOperation) (entities : list EntityId)
    (kind : AccessKind) (err : ProtocolError)
    (Hop : operation_authority now e authority = Err err) :
  write_permit now e authority owner operation = ([], Err err) /\
  authorize_owner_read now e authority owner kind = ([], Err err) /\
  authorize_read now e authority = ([], Err err) /\
  authorize_row_read now now' e authority = ([], Err err) /\
  (entities <> [] -> authorize_entry_reads now now' clock e authority entities = ([], Err err)) /\
  code err = Forbidden.
Proof.
  unfold write_permit, authorize_owner_read, authorize_read, authorize_row_read, authorize_entry_reads.
  rewrite Hop. do 4 (split; [done|]). split; [by destruct entities|].
  unfold operation_authority, context_for_engine_operation, validate_runtime_binding in Hop.
  destruct authority; repeat (case_bool_decide || case_match); simplify_eq; done.
Qed.

Lemma unusable_authority_is_unaudited_witness :
  authorize_read 0 sample_engine (OfContext (AuthzContext.server_resolved sample_roles Delegated))
  = ([], Err (ProtocolError.forbidden
                (str "raw delegated authorization contexts are not Engine authority"))).
Proof.
  apply (unusable_authority_is_unaudited 0 0 (fun _ => 0%Z) sample_engine
    (OfContext (AuthzContext.server_resolved sample_roles Delegated)) sample_group OpOwnerAdmin [] KFact).
  vm_compute. reflexivity.
Defined.
