(* ===== verification/Groups.v ===== *)
(** * Group membership on Postgres

    [crates/storage-pg/src/access/owner_columns.rs] and [ports/owners.rs] over the
    tables [owners], [group_memberships], [group_edges] and
    [group_role_projection], with the triggers of [definitions/functions.sql]
    and the row policies of [definitions/policies.sql].  A statement runs in a
    session whose row policies filter what it sees and refuse what it may not
    write; triggers run with platform scope and see everything.

    Every membership write first takes the advisory lock of its group trees, so
    a transaction is one step on the tables: it commits its changes or leaves
    them as they were. *)

From S2P Require Import Prelude Ids Access GroupForest Publication Errors OwnerScope Authz Engine.

(** ** Tables and sessions *)

Inductive OwnerKind := PersonalOwner | GroupOwner.

#[export] Instance OwnerKind_eq_dec : EqDecision OwnerKind.
Proof. solve_decision. Defined.

Record GroupDb := mk_GroupDb {
  db_owners : gmap Uuid OwnerKind;
  db_memberships : MembershipTable;
  db_edges : EdgeTable;
  db_projection : ProjectionTable;
}.

(** The transaction-local settings the policies read. *)
Record PgSession := mk_PgSession {
  app_platform : bool;
  app_owner : list Uuid;
  app_write_owner : list Uuid;
  app_manage_owner : list Uuid;
}.

Definition platform_session : PgSession := mk_PgSession true [] [] [].

(** ** Row policies

    The clauses on [app.authority_subject] are left out: only the authority
    functions set it, for their own statements, so it is empty in these sessions. *)

(** [platform_scope OR id = ANY(setting)]. *)
Definition admits (s : PgSession) (setting : list Uuid) (id : Uuid) : bool :=
  app_platform s || slice_contains id setting.

Definition owners_read (s : PgSession) (owner : Uuid) : bool :=
  admits s (app_owner s) owner || admits s (app_write_owner s) owner.

Definition owners_write (s : PgSession) (owner : Uuid) : bool := admits s (app_write_owner s) owner.

Definition memberships_write (s : PgSession) (group : Uuid) : bool := admits s (app_manage_owner s) group.

Definition memberships_read (s : PgSession) (group : Uuid) : bool :=
  admits s (app_owner s) group || memberships_write s group.

Definition edges_using (s : PgSession) (child parent : Uuid) : bool :=
  admits s (app_manage_owner s) parent || admits s (app_manage_owner s) child.

Definition edges_check (s : PgSession) (child parent : Uuid) : bool :=
  admits s (app_manage_owner s) parent && admits s (app_manage_owner s) child.

Definition edges_read (s : PgSession) (child parent : Uuid) : bool :=
  admits s (app_owner s) child || admits s (app_owner s) parent || edges_using s child parent.

Definition lock_request_check (s : PgSession) (left : Uuid) (right : option Uuid) : bool :=
  admits s (app_manage_owner s) left || is_some_and right (admits s (app_manage_owner s)).

Definition projection_read (s : PgSession) (group : Uuid) : bool :=
  admits s (app_owner s) group || admits s (app_manage_owner s) group.

(** ** Statements with their triggers *)

Definition require (condition : bool) (fault : PgFault) : result unit PgFault :=
  if condition then Ok tt else Err fault.

(** [owner_group_kind_guard]. *)
Definition owner_group_kind_guard (db : GroupDb) (owner : Uuid) (kind : OwnerKind) : result unit PgFault :=
  match kind with
  | PersonalOwner => Ok tt
  | GroupOwner =>
      if is_some (db_owners db !! owner) then Ok tt
      else require (negb (existsb (fun row => (row.1.2 =? owner)%N) (elements (db_memberships db))))
             (OwnerHasMemberships owner)
  end.

(** [INSERT INTO owners ... ON CONFLICT DO NOTHING]. *)
Definition insert_owner (s : PgSession) (owner : Uuid) (kind : OwnerKind) (db : GroupDb) :
    result GroupDb PgFault :=
  let? _ := owner_group_kind_guard db owner kind in
  let? _ := require (owners_write s owner) (RowPolicy (str "owners")) in
  match db_owners db !! owner with
  | Some _ => Ok db
  | None => Ok (mk_GroupDb (<[owner := kind]> (db_owners db)) (db_memberships db) (db_edges db)
                  (db_projection db))
  end.

(** The tables after a write, with [group_projection_after_write] for the users
    it names. *)
Definition projection_after_write (db : GroupDb) (memberships : MembershipTable) (edges : EdgeTable)
    (users : list Uuid) : GroupDb :=
  mk_GroupDb (db_owners db) memberships edges
    (rebuild_group_role_projection memberships edges users (db_projection db)).

Definition registered_group (db : GroupDb) (owner : Uuid) : bool :=
  bool_decide (db_owners db !! owner = Some GroupOwner).

(** [INSERT INTO group_memberships], with [ON CONFLICT DO NOTHING] or without;
    whether a row was inserted. *)
Definition insert_membership (s : PgSession) (do_nothing : bool) (group user : Uuid) (r : Relation)
    (db : GroupDb) : result (GroupDb * bool) PgFault :=
  let? _ := require (negb (registered_group db user)) (OwnerIsGroup user) in
  let? _ := require (memberships_write s group) (RowPolicy (str "group_memberships")) in
  if bool_decide ((group, user, r) ∈ db_memberships db) then
    if do_nothing then Ok (db, false) else Err (UniqueViolation (str "group_memberships"))
  else
    let? _ := require (registered_group db group)
                (ForeignKeyViolation (str "group_memberships_group_registered_fk")) in
    Ok (projection_after_write db ({[(group, user, r)]} ∪ db_memberships db) (db_edges db) [user], true).

(** An optional [AND relation = ..] of a [WHERE] clause. *)
Definition relation_is (relation : option Relation) (r : Relation) : bool :=
  match relation with Some wanted => bool_decide (r = wanted) | None => true end.

(** [DELETE FROM group_memberships WHERE group_id = .. AND member_user_id = ..]
    and perhaps a relation; whether a row was deleted. *)
Definition delete_memberships (s : PgSession) (group user : Uuid) (relation : option Relation)
    (db : GroupDb) : GroupDb * bool :=
  let gone := filter (fun row : Uuid * Uuid * Relation =>
                row.1 = (group, user) /\ relation_is relation row.2 = true) (db_memberships db) in
  if memberships_write s group && negb (bool_decide (gone = ∅))
  then (projection_after_write db (db_memberships db ∖ gone) (db_edges db) [user], true)
  else (db, false).

(** [group_edge_before_write] of an inserted or updated row. *)
Definition group_edge_before_write (db : GroupDb) (child parent : Uuid) : result unit PgFault :=
  let? _ := require (negb (bool_decide (child = parent))) SelfEdge in
  require (negb (would_cycle (db_edges db) child parent)) EdgeCycle.

Definition edge_after_write (db : GroupDb) (edges : EdgeTable) (child : Uuid) : GroupDb :=
  projection_after_write db (db_memberships db) edges (subtree_users (db_memberships db) edges child).

(** [INSERT INTO group_edges ... ON CONFLICT (child_group_id) DO NOTHING]. *)
Definition insert_edge (s : PgSession) (child parent : Uuid) (r : Relation) (db : GroupDb) :
    result (GroupDb * bool) PgFault :=
  let? _ := group_edge_before_write db child parent in
  let? _ := require (edges_check s child parent) (RowPolicy (str "group_edges")) in
  if is_some (db_edges db !! child) then Ok (db, false)
  else
    let? _ := require (registered_group db child) (ForeignKeyViolation (str "group_edges_child_group_fk")) in
    let? _ := require (registered_group db parent) (ForeignKeyViolation (str "group_edges_parent_group_fk")) in
    Ok (edge_after_write db (<[child := (parent, r)]> (db_edges db)) child, true).

(** Does the row of [child] match [parent] and, when given, [relation]? *)
Definition edge_matches (db : GroupDb) (child parent : Uuid) (relation : option Relation) : bool :=
  is_some_and (db_edges db !! child)
    (fun '(p, r) => (p =? parent)%N && relation_is relation r).

(** [DELETE FROM group_edges]. *)
Definition delete_edge (s : PgSession) (child parent : Uuid) (relation : option Relation) (db : GroupDb) :
    GroupDb :=
  if edge_matches db child parent relation && edges_using s child parent
  then edge_after_write db (delete child (db_edges db)) child
  else db.

(** What the erase of a whole owner deletes of these tables, in the platform
    scope: the person's memberships and the group's edge
    ([crates/storage-pg/src/verbs/owner_erase.rs]). *)
Definition erase_owner_memberships (owner : Uuid) (db : GroupDb) : GroupDb :=
  let gone := filter (fun row : Uuid * Uuid * Relation => row.1.2 = owner) (db_memberships db) in
  let db := if bool_decide (gone = ∅) then db
            else projection_after_write db (db_memberships db ∖ gone) (db_edges db) [owner] in
  match db_edges db !! owner with
  | Some _ => edge_after_write db (delete owner (db_edges db)) owner
  | None => db
  end.

(** [UPDATE group_edges SET relation]; whether a row was updated. *)
Definition update_edge (s : PgSession) (child parent : Uuid) (from to : Relation) (db : GroupDb) :
    result (GroupDb * bool) PgFault :=
  if edge_matches db child parent (Some from) && edges_using s child parent then
    let? _ := group_edge_before_write db child parent in
    let? _ := require (edges_check s child parent) (RowPolicy (str "group_edges")) in
    Ok (edge_after_write db (<[child := (parent, to)]> (db_edges db)) child, true)
  else Ok (db, false).

(** ** Operations on a connection *)

Section operations.
Context `{PgText}.

Definition lock_group_membership_tx (s : PgSession) (group : GroupId) : result unit StorageError :=
  pg_ok (require (lock_request_check s (GroupId_0 group) None) (RowPolicy (str "group_lock_request"))).

(** The lock request answers whether the member is a group. *)
Definition lock_group_membership_write_tx (s : PgSession) (parent : GroupId) (member : OwnerId)
    (db : GroupDb) : result bool StorageError :=
  let? _ := pg_ok (require (lock_request_check s (GroupId_0 parent) (Some (OwnerId_0 member)))
                     (RowPolicy (str "group_lock_request"))) in
  Ok (registered_group db (OwnerId_0 member)).

Definition insert_group_row (s : PgSession) (group : GroupId) (db : GroupDb) : result GroupDb StorageError :=
  pg_ok (insert_owner s (GroupId_0 group) GroupOwner db).

Definition ensure_owner_row (s : PgSession) (owner : OwnerId) (db : GroupDb) :
    result (GroupDb * Uuid) StorageError :=
  let? db := pg_ok (insert_owner s (OwnerId_0 owner) PersonalOwner db) in
  Ok (db, OwnerId_0 owner).

Definition registered_group_on_connection (s : PgSession) (group : GroupId) (db : GroupDb) : bool :=
  registered_group db (GroupId_0 group) && owners_read s (GroupId_0 group).

Definition register_group (s : PgSession) (group : GroupId) (db : GroupDb) : result GroupDb StorageError :=
  let? _ := lock_group_membership_tx s group in
  let? db := insert_group_row s group db in
  if registered_group_on_connection s group db then Ok db
  else Err (Conflict (str "owner id is registered as a user, not a group")).

Definition bootstrap_group_admin_on_connection (s : PgSession) (group : GroupId) (first_admin : UserId)
    (db : GroupDb) : result GroupDb StorageError :=
  let? _ := lock_group_membership_tx s group in
  let? db := insert_group_row s group db in
  let has_admin := existsb (fun row => (row.1.1 =? GroupId_0 group)%N && bool_decide (row.2 = RAdmin)
                                       && memberships_read s row.1.1) (elements (db_memberships db)) in
  if has_admin then Err (Conflict (str "group already has an Admin membership"))
  else
    let? (db, _) := pg_ok (insert_membership s false (GroupId_0 group) (UserId_0 first_admin) RAdmin db) in
    Ok db.

Inductive MembershipAddOutcome := Changed | AlreadyPresent.

Definition add_group_member_on_connection_authorized (s : PgSession) (group : GroupId) (member : OwnerId)
    (r : Relation) (member_authority : MembershipMemberAuthority) (db : GroupDb) :
    result (GroupDb * MembershipAddOutcome) StorageError :=
  let? member_is_group := lock_group_membership_write_tx s group member db in
  let? db := insert_group_row s group db in
  let child := OwnerId_0 member in
  let attached := Conflict (str "group is already attached to a parent") in
  if member_is_group then
    if negb (bool_decide (member_authority = CallerManagesMember))
    then Err (StorageForbidden (str "attaching a group requires manage authority on the attached group"))
    else
      let visible := match db_edges db !! child with
                     | Some (parent, held) => if edges_read s child parent then Some (parent, held) else None
                     | None => None
                     end in
      match visible with
      | Some (parent, held) =>
          if (parent =? GroupId_0 group)%N && bool_decide (held = r) then Ok (db, AlreadyPresent)
          else Err attached
      | None =>
          let? (db, inserted) := pg_ok (insert_edge s child (GroupId_0 group) r db) in
          if inserted : bool then Ok (db, Changed) else Err attached
      end
  else
    let? (db, inserted) := pg_ok (insert_membership s true (GroupId_0 group) child r db) in
    Ok (db, if inserted : bool then Changed else AlreadyPresent).

(** The checks [remove_group_member_on_connection_authorized] and its sibling
    for one relation share. *)
Definition detach_authorized (member_is_group : bool) (member_authority : MembershipMemberAuthority)
    (endpoint_authority : MembershipEndpointAuthority) : result unit StorageError :=
  if member_is_group && bool_decide (endpoint_authority = EndpointMember)
     && negb (bool_decide (member_authority = CallerManagesMember))
  then Err (StorageForbidden (str "detaching a group requires manage authority on the attached group"))
  else if negb member_is_group && bool_decide (endpoint_authority = EndpointMember)
  then Err (StorageForbidden (str "detaching a person requires parent authority"))
  else Ok tt.

(** [remove_group_member_on_connection_authorized] without a relation,
    [remove_group_member_relation_on_connection_authorized] with one. *)
Definition remove_on_connection_authorized (s : PgSession) (group : GroupId) (member : OwnerId)
    (relation : option Relation) (member_authority : MembershipMemberAuthority)
    (endpoint_authority : MembershipEndpointAuthority) (db : GroupDb) : result GroupDb StorageError :=
  let? member_is_group := lock_group_membership_write_tx s group member db in
  let? _ := detach_authorized member_is_group member_authority endpoint_authority in
  if member_is_group then Ok (delete_edge s (OwnerId_0 member) (GroupId_0 group) relation db)
  else Ok (delete_memberships s (GroupId_0 group) (OwnerId_0 member) relation db).1.

Definition replace_group_member_relation_on_connection (s : PgSession) (group : GroupId) (member : OwnerId)
    (from to : Relation) (db : GroupDb) : result GroupDb StorageError :=
  let? member_is_group := lock_group_membership_write_tx s group member db in
  let absent := Conflict (str "member does not hold the relation being replaced") in
  if member_is_group then
    let? (db, updated) := pg_ok (update_edge s (OwnerId_0 member) (GroupId_0 group) from to db) in
    if updated : bool then Ok db else Err absent
  else
    let (db, deleted) := delete_memberships s (GroupId_0 group) (OwnerId_0 member) (Some from) db in
    if deleted : bool then
      let? (db, _) := pg_ok (insert_membership s true (GroupId_0 group) (OwnerId_0 member) to db) in
      Ok db
    else Err absent.

(** ** Transactions *)

(** A projection row with [manage] of [group], seen by the session. *)
Definition group_has_manager (s : PgSession) (group : GroupId) (db : GroupDb) : bool :=
  existsb (fun '((_, g), row) => (g =? GroupId_0 group)%N && projection_read s g && proj_manage row)
    (map_to_list (db_projection db)).

Definition recheck_caller_manages (s : PgSession) (group : GroupId) (caller : option UserId) (db : GroupDb) :
    result unit StorageError :=
  match caller with
  | None => Ok tt
  | Some caller =>
      if is_some_and (db_projection db !! (UserId_0 caller, GroupId_0 group))
           (fun row => projection_read s (GroupId_0 group) && proj_manage row)
      then Ok tt
      else Err (StorageForbidden (str "the caller no longer manages this group"))
  end.

Definition owner_ids (owners : list OwnerId) : list Uuid := OwnerId_0 <$> owners.

Definition require_owner_scope (scope : option OwnerScope) : result OwnerScope StorageError :=
  ok_or scope (ConstraintViolation (str "authenticated OwnerScope is required for owner-scoped storage")).

(** [clock i] is the i-th time the function reads; the settings the membership
    tables' policies do not use are left out. *)
Definition bind_owner_scope (clock : nat -> SystemTime) (scope : OwnerScope) : result PgSession StorageError :=
  if OwnerScope.is_expired (clock 0) scope
  then Err (ConstraintViolation (str "authenticated owner scope has expired"))
  else Ok (mk_PgSession false (owner_ids (OwnerScope.readable_owners (clock 1) scope KFact))
             (owner_ids (OwnerScope.writable_owners (clock 5) scope KFact))
             (owner_ids (OwnerScope.managed_owners (clock 9) scope))).

(** [begin_owner_transaction] to [finish_transaction]: commit what the body
    made, or roll back. *)
Definition owner_transaction {A} (clock : nat -> SystemTime) (scope : option OwnerScope)
    (body : PgSession -> GroupDb -> result (GroupDb * A) StorageError) (db : GroupDb) :
    GroupDb * result A StorageError :=
  match (let? scope := require_owner_scope scope in
         let? s := bind_owner_scope clock scope in
         body s db) with
  | Ok (db', a) => (db', Ok a)
  | Err e => (db, Err e)
  end.

Definition manager_preserving_change (s : PgSession) (group : GroupId) (member : OwnerId)
    (caller : option UserId) (change : GroupDb -> result GroupDb StorageError) (db : GroupDb) :
    result (GroupDb * unit) StorageError :=
  let? _ := lock_group_membership_write_tx s group member db in
  let had_manager := group_has_manager s group db in
  let? _ := if had_manager then recheck_caller_manages s group caller db else Ok tt in
  let? db := change db in
  if had_manager && negb (group_has_manager s group db)
  then Err (Conflict (str "the change would leave the group without a manager"))
  else Ok (db, tt).

(** ** The membership port of [PgStorage] *)

Definition validate_permit_owner (permit : OwnerWritePermit) (owner : OwnerId) : result unit StorageError :=
  if bool_decide (permit_owner permit = owner) then Ok tt
  else Err (ConstraintViolation (str "request owner does not match owner write permit")).

Definition validate_parent (permit : MembershipWritePermit) (group : GroupId) : result unit StorageError :=
  if bool_decide (mwp_parent permit = OwnerId.from_group group) then Ok tt
  else Err (ConstraintViolation (str "membership permit parent does not match the requested group")).

Definition validate_membership_permit (permit : MembershipWritePermit) (group : GroupId) (member : OwnerId) :
    result unit StorageError :=
  let? _ :=
    match mwp_endpoint_authority permit with
    | EndpointParent => validate_permit_owner (mwp_owner permit) (OwnerId.from_group group)
    | EndpointMember =>
        if negb (bool_decide (mwp_member_authority permit = CallerManagesMember))
           || negb (bool_decide (permit_owner (mwp_owner permit) = member))
        then Err (StorageForbidden (str "membership permit does not authorize the attached owner"))
        else Ok tt
    end in
  validate_parent permit group.

Definition validate_parent_membership_permit (permit : MembershipWritePermit) (group : GroupId) :
    result unit StorageError :=
  if negb (bool_decide (mwp_endpoint_authority permit = EndpointParent))
  then Err (ConstraintViolation (str "this membership operation requires parent authority"))
  else
    let? _ := validate_permit_owner (mwp_owner permit) (OwnerId.from_group group) in
    validate_parent permit group.

(** Nothing is written when the permit is refused. *)
Definition guarded {A} (check : result unit StorageError) (run : GroupDb -> GroupDb * result A StorageError)
    (db : GroupDb) : GroupDb * result A StorageError :=
  match check with Ok _ => run db | Err e => (db, Err e) end.

Definition bootstrap_group_admin (group : GroupId) (first_admin : UserId) (db : GroupDb) :
    GroupDb * result unit StorageError :=
  match bootstrap_group_admin_on_connection platform_session group first_admin db with
  | Ok db' => (db', Ok tt)
  | Err e => (db, Err e)
  end.

Definition add_group_member (clock : nat -> SystemTime) (permit : MembershipWritePermit) (group : GroupId)
    (member : OwnerId) (r : Relation) : GroupDb -> GroupDb * result MembershipAddOutcome StorageError :=
  guarded (validate_parent_membership_permit permit group)
    (owner_transaction clock (permit_owner_scope (mwp_owner permit)) (fun s =>
       add_group_member_on_connection_authorized s group member r (mwp_member_authority permit))).

(** [remove_group_member] without a relation, [remove_group_member_relation]
    with one. *)
Definition remove_group_member (clock : nat -> SystemTime) (permit : MembershipWritePermit) (group : GroupId)
    (member : OwnerId) (relation : option Relation) : GroupDb -> GroupDb * result unit StorageError :=
  guarded (validate_membership_permit permit group member)
    (owner_transaction clock (permit_owner_scope (mwp_owner permit)) (fun s =>
       manager_preserving_change s group member (mwp_caller permit)
         (remove_on_connection_authorized s group member relation (mwp_member_authority permit)
            (mwp_endpoint_authority permit)))).

Definition replace_group_member_relation (clock : nat -> SystemTime) (permit : MembershipWritePermit)
    (group : GroupId) (member : OwnerId) (from to : Relation) : GroupDb -> GroupDb * result unit StorageError :=
  guarded (validate_parent_membership_permit permit group)
    (owner_transaction clock (permit_owner_scope (mwp_owner permit)) (fun s =>
       manager_preserving_change s group member (mwp_caller permit)
         (replace_group_member_relation_on_connection s group member from to))).

End operations.

(** ** Reads *)

(** The declared order of [membership_relation]. *)
Definition relation_index (r : Relation) : N :=
  match r with RAdmin => 0 | REditor => 1 | RViewer => 2 | RIngest => 3 end.

(** A row [(member_id, is_group, relation)]. *)
Abbreviation MemberRow := (Uuid * bool * Relation)%type.

(** [ORDER BY member_id, is_group, relation]. *)
Definition member_row_leb (a b : MemberRow) : bool :=
  match (a.1.1 ?= b.1.1)%N with
  | Lt => true
  | Gt => false
  | Eq =>
      match a.1.2, b.1.2 with
      | false, true => true
      | true, false => false
      | _, _ => (relation_index a.2 <=? relation_index b.2)%N
      end
  end.

(** The two halves of the [UNION ALL], as the session sees them. *)
Definition member_rows (s : PgSession) (group : GroupId) (db : GroupDb) : list MemberRow :=
  omap (fun '(g, user, r) =>
          if (g =? GroupId_0 group)%N && memberships_read s g then Some (user, false, r) else None)
    (elements (db_memberships db))
  ++ omap (fun '(child, (parent, r)) =>
          if (parent =? GroupId_0 group)%N && edges_read s child parent then Some (child, true, r) else None)
    (map_to_list (db_edges db)).

Definition member_of_row (row : MemberRow) : OwnerId * Relation := (mk_OwnerId row.1.1, row.2).

Definition list_group_members (s : PgSession) (group : GroupId) (db : GroupDb) : list (OwnerId * Relation) :=
  member_of_row <$> sort_by member_row_leb (member_rows s group db).

(** [(member_id, relation) > (after_member, after_relation)]. *)
Definition after_row (after : option (OwnerId * Relation)) (row : MemberRow) : bool :=
  match after with
  | None => true
  | Some (member, r) =>
      match (row.1.1 ?= OwnerId_0 member)%N with
      | Gt => true
      | Eq => (relation_index r <? relation_index row.2)%N
      | Lt => false
      end
  end.

Definition list_group_members_page (s : PgSession) (group : GroupId) (after : option (OwnerId * Relation))
    (limit : nat) (db : GroupDb) : list (OwnerId * Relation) :=
  member_of_row <$>
    take limit (sort_by member_row_leb (filter (fun row => after_row after row = true) (member_rows s group db))).

Record SubjectMemberships := mk_SubjectMemberships {
  subject_is_group : bool;
  sm_memberships : list (GroupId * Role);
}.

(** The rows of [resolve_subject_membership], ordered by group. *)
Definition subject_rows (s : PgSession) (subject : UserId) (group : option GroupId) (db : GroupDb) :
    list (Uuid * ProjectionRow) :=
  sort_by (fun a b => (a.1 <=? b.1)%N)
    (omap (fun '((user, g), row) =>
             if (user =? UserId_0 subject)%N && projection_read s g
                && from_option (fun wanted => (g =? GroupId_0 wanted)%N) true group
             then Some (g, row) else None)
       (map_to_list (db_projection db))).

(** [Role::new] only ever refuses a write ceiling above the read ceiling. *)
Definition invalid_role : StorageError :=
  ConstraintViolation (str "group role projection contains an invalid role: write ceiling exceeds read ceiling").

Fixpoint subject_roles (rows : list (Uuid * ProjectionRow)) : result (list (GroupId * Role)) StorageError :=
  match rows with
  | [] => Ok []
  | (g, row) :: rows =>
      let? role := map_err (const invalid_role) (Role.new (proj_read row) (proj_write row) (proj_manage row)) in
      let? rest := subject_roles rows in
      Ok ((mk_GroupId g, role) :: rest)
  end.

Definition resolve_subject_membership (s : PgSession) (subject : UserId) (group : option GroupId) (db : GroupDb) :
    result SubjectMemberships StorageError :=
  let? memberships := subject_roles (subject_rows s subject group db) in
  Ok (mk_SubjectMemberships
        (registered_group db (UserId_0 subject) && owners_read s (UserId_0 subject)) memberships).

(** [OwnerAccessReadPort::resolve_membership]: only for the scope's own subject,
    read with platform scope. *)
Definition resolve_membership (now : SystemTime) (scope : option OwnerScope) (member : OwnerId) (db : GroupDb) :
    result (list (GroupId * Role)) StorageError :=
  let? scope := ok_or scope (ConstraintViolation (str "owner scope required")) in
  if OwnerScope.is_expired now scope
     || negb (bool_decide (member = OwnerId.from_user (OwnerScope.subject scope)))
  then Err (ConstraintViolation (str "membership lookup requires its authenticated subject"))
  else
    let? resolved := resolve_subject_membership platform_session (OwnerId.as_user member) None db in
    if subject_is_group resolved
    then Err (ConstraintViolation (str "membership lookup subject is registered as a group"))
    else Ok (sm_memberships resolved).

Section resolver.
Context `{UuidText}.

Definition resolution_error (err : StorageError) : AccessError := Resolution (storage_error_display err).

Definition resolve_subject_roles (s : PgSession) (subject : UserId) (group : option GroupId) (db : GroupDb) :
    result OwnerRoles AccessError :=
  let? resolved := map_err resolution_error (resolve_subject_membership s subject group db) in
  if subject_is_group resolved then Err (SubjectIsGroup subject)
  else OwnerRoles.for_subject subject
         ((fun '(group, role) => (OwnerId.from_group group, role)) <$> sm_memberships resolved).

Definition roles_for_subject (s : PgSession) (subject : UserId) (db : GroupDb) : result OwnerRoles AccessError :=
  resolve_subject_roles s subject None db.

Definition group_role (s : PgSession) (subject : UserId) (group : GroupId) (db : GroupDb) :
    result (option Role) AccessError :=
  let? roles := resolve_subject_roles s subject (Some group) db in
  Ok (OwnerRoles.role_for roles (OwnerId.from_group group)).

End resolver.

(** ** The invariant of the tables *)

Record db_inv (db : GroupDb) : Prop := {
  inv_membership g u r :
    (g, u, r) ∈ db_memberships db ->
    db_owners db !! g = Some GroupOwner /\ db_owners db !! u <> Some GroupOwner;
  inv_edge c p r :
    db_edges db !! c = Some (p, r) ->
    db_owners db !! c = Some GroupOwner /\ db_owners db !! p = Some GroupOwner;
  inv_forest : forest (db_edges db);
  inv_exact : projection_exact (db_memberships db) (db_edges db) (db_projection db);
}.

(** One statement of a session on the tables. *)
Inductive statement (s : PgSession) : GroupDb -> GroupDb -> Prop :=
| st_insert_owner owner kind db db' :
    insert_owner s owner kind db = Ok db' -> statement s db db'
| st_insert_membership do_nothing g u r db db' b :
    insert_membership s do_nothing g u r db = Ok (db', b) -> statement s db db'
| st_delete_memberships g u relation db :
    statement s db (delete_memberships s g u relation db).1
| st_insert_edge c p r db db' b :
    insert_edge s c p r db = Ok (db', b) -> statement s db db'
| st_delete_edge c p relation db :
    statement s db (delete_edge s c p relation db)
| st_update_edge c p from to db db' b :
    update_edge s c p from to db = Ok (db', b) -> statement s db db'.
#[export] Hint Constructors statement : proxiima.

(** A fresh installation. *)
Definition empty_db : GroupDb := mk_GroupDb ∅ ∅ ∅ ∅.

Lemma require_Ok b fault u : require b fault = Ok u <-> b = true.
Proof. unfold require. destruct b, u; naive_solver. Qed.

Lemma registered_group_true db o : registered_group db o = true <-> db_owners db !! o = Some GroupOwner.
Proof. unfold registered_group. by rewrite bool_decide_eq_true. Qed.

Lemma inv_insert_owner s owner kind db db' :
  insert_owner s owner kind db = Ok db' -> db_inv db -> db_inv db'.
Proof.
  unfold insert_owner. intros H Hinv. run_ok; [done|]. destruct Hinv as [Hm He Hf Hx].
  split; cbn; [| |done|done].
  - intros g u' r' Hin. pose proof (Hm _ _ _ Hin) as [Hg Hu].
    split; [rewrite lookup_insert_ne by congruence; done|].
    destruct (decide (u' = owner)) as [->|]; [|by rewrite lookup_insert_ne].
    rewrite lookup_insert_eq. intros [= ->]. unfold owner_group_kind_guard in *.
    destruct (db_owners db !! owner); [done|]. cbn in *.
    match goal with E : require _ _ = Ok _ |- _ => apply require_Ok, negb_true_iff in E; apply not_true_iff_false in E; apply E end.
    apply existsb_exists. exists (g, owner, r'). rewrite <- list_elem_of_In, elem_of_elements. split; [done|]. apply N.eqb_refl.
  - intros c p r' Hc. pose proof (He _ _ _ Hc) as [? ?]. rewrite !lookup_insert_ne by congruence. done.
Qed.

(** The shape of a write: memberships of one person, or the edge of one child. *)
Lemma inv_write_memberships db memberships u :
  (forall g v r, (g, v, r) ∈ memberships ->
     db_owners db !! g = Some GroupOwner /\ db_owners db !! v <> Some GroupOwner) ->
  (forall g v r, v <> u -> (g, v, r) ∈ memberships <-> (g, v, r) ∈ db_memberships db) ->
  db_inv db -> db_inv (projection_after_write db memberships (db_edges db) [u]).
Proof.
  intros Hm Hother [_ He Hf Hx]. split; cbn; [done|done|done|].
  eapply exact_membership_write; [done| |done]. intros v Hv. apply leibniz_equiv. intros [[g w] r].
  rewrite !elem_of_filter. cbn. destruct (decide (w = v)) as [->|]; [|tauto]. rewrite Hother by done. tauto.
Qed.

Lemma inv_write_edge db edges c :
  (forall x, x <> c -> edges !! x = db_edges db !! x) ->
  (forall p r, edges !! c = Some (p, r) ->
     db_owners db !! c = Some GroupOwner /\ db_owners db !! p = Some GroupOwner) ->
  (forest (db_edges db) -> forest edges) ->
  db_inv db -> db_inv (edge_after_write db edges c).
Proof.
  intros Heq Hc Hforest [Hm He Hf Hx]. split; cbn; [done| |by apply Hforest|].
  - intros x p r Hxp. destruct (decide (x = c)) as [->|]; [by eapply Hc|]. rewrite Heq in Hxp by done. eauto.
  - eapply exact_edge_write; [done|by apply Hforest|done|done].
Qed.

Lemma inv_insert_membership s do_nothing g u r db db' b :
  insert_membership s do_nothing g u r db = Ok (db', b) -> db_inv db -> db_inv db'.
Proof.
  unfold insert_membership. intros H Hinv. run_ok; [done|].
  repeat match goal with E : require _ _ = Ok _ |- _ => apply require_Ok in E end.
  apply inv_write_memberships; [| |done].
  - intros g' v r' [[= -> -> ->]%elem_of_singleton|Hin]%elem_of_union; [|by eapply inv_membership].
    by rewrite negb_true_iff, <- not_true_iff_false, !registered_group_true in *.
  - set_solver.
Qed.

Lemma inv_delete_memberships s g u relation db :
  db_inv db -> db_inv (delete_memberships s g u relation db).1.
Proof.
  unfold delete_memberships. intros Hinv. destruct (_ && _); [|done]. cbn.
  apply inv_write_memberships; [| |done].
  - intros g' v r' [Hin _]%elem_of_difference. by eapply inv_membership.
  - intros g' v r' Hv. rewrite elem_of_difference, elem_of_filter. naive_solver.
Qed.

Lemma inv_insert_edge s c p r db db' b :
  insert_edge s c p r db = Ok (db', b) -> db_inv db -> db_inv db'.
Proof.
  unfold insert_edge, group_edge_before_write. intros H Hinv. run_ok; [done|].
  repeat match goal with E : require _ _ = Ok _ |- _ => apply require_Ok in E end.
  destruct (db_edges db !! c) eqn:Hc; [done|].
  apply inv_write_edge; [by intros; apply lookup_insert_ne| | |done].
  - intros p' r'. rewrite lookup_insert_eq. intros [= -> ->]. by rewrite <- !registered_group_true.
  - intros Hf. apply forest_insert; [done|by apply negb_true_iff|done].
Qed.

Lemma inv_delete_edge s c p relation db : db_inv db -> db_inv (delete_edge s c p relation db).
Proof.
  unfold delete_edge. intros Hinv. destruct (_ && _); [|done].
  apply inv_write_edge; [by intros; apply lookup_delete_ne| |apply forest_delete|done].
  intros p' r'. by rewrite lookup_delete_eq.
Qed.

Lemma inv_erase_owner_memberships owner db : db_inv db -> db_inv (erase_owner_memberships owner db).
Proof.
  intros Hinv. unfold erase_owner_memberships. cbv zeta. set (gone := filter _ _).
  assert (db_inv (if bool_decide (gone = ∅) then db
                  else projection_after_write db (db_memberships db ∖ gone) (db_edges db) [owner])) as Hinv'.
  { case_bool_decide; [done|]. apply inv_write_memberships; [| |done].
    - intros g v r [Hin _]%elem_of_difference. by eapply inv_membership.
    - intros g v r Hv. unfold gone. rewrite elem_of_difference, elem_of_filter. naive_solver. }
  revert Hinv'. generalize (if bool_decide (gone = ∅) then db
                  else projection_after_write db (db_memberships db ∖ gone) (db_edges db) [owner]).
  intros db' Hinv'. destruct (db_edges db' !! owner); [|done].
  apply inv_write_edge; [by intros; apply lookup_delete_ne| |apply forest_delete|done].
  intros p' r'. by rewrite lookup_delete_eq.
Qed.

Lemma edge_matches_Some db c p relation :
  edge_matches db c p relation = true <->
  exists r, db_edges db !! c = Some (p, r) /\ relation_is relation r = true.
Proof.
  unfold edge_matches. destruct (db_edges db !! c) as [[p' r]|]; cbn; [|naive_solver].
  rewrite andb_true_iff, N.eqb_eq. naive_solver.
Qed.

Lemma inv_update_edge s c p from to db db' b :
  update_edge s c p from to db = Ok (db', b) -> db_inv db -> db_inv db'.
Proof.
  unfold update_edge. intros H Hinv. run_ok; [|done].
  match goal with E : edge_matches _ _ _ _ && _ = true |- _ =>
    apply andb_true_iff in E as [(r & Hc & _)%edge_matches_Some _] end.
  apply inv_write_edge; [by intros; apply lookup_insert_ne| |by eapply forest_relation|done].
  intros p' r'. rewrite lookup_insert_eq. intros [= <- <-]. by eapply inv_edge.
Qed.

#[export] Hint Resolve inv_insert_owner inv_insert_membership inv_delete_memberships inv_insert_edge
  inv_delete_edge inv_update_edge : proxiima.

Lemma statement_inv s db db' : statement s db db' -> db_inv db -> db_inv db'.
Proof. destruct 1; eauto with proxiima. Qed.

Lemma statements_inv s db db' : rtc (statement s) db db' -> db_inv db -> db_inv db'.
Proof. induction 1; eauto using statement_inv. Qed.

Lemma empty_db_inv : db_inv empty_db.
Proof.
  split; cbn; [set_solver| | |].
  - intros c p r. by rewrite lookup_empty.
  - intros g. exists []. by constructor.
  - intros u g. unfold user_projection, paths. replace (filter _ ∅) with (∅ : MembershipTable) by set_solver. done.
Qed.

(** ** Operations are sequences of statements *)

Section committed.
Context `{PgText}.

Lemma insert_group_row_statement s group db db' :
  insert_group_row s group db = Ok db' -> rtc (statement s) db db'.
Proof. unfold insert_group_row. rewrite pg_ok_Ok. eauto using rtc_once, st_insert_owner. Qed.

Lemma ensure_owner_row_statements s owner db db' id :
  ensure_owner_row s owner db = Ok (db', id) -> rtc (statement s) db db'.
Proof.
  unfold ensure_owner_row. intros H'. run_ok. rewrite pg_ok_Ok in *. eauto using rtc_once, st_insert_owner.
Qed.

Lemma register_group_statements s group db db' :
  register_group s group db = Ok db' -> rtc (statement s) db db'.
Proof. unfold register_group. intros H'. run_ok. eauto using insert_group_row_statement. Qed.

Lemma bootstrap_statements s group admin db db' :
  bootstrap_group_admin_on_connection s group admin db = Ok db' -> rtc (statement s) db db'.
Proof.
  unfold bootstrap_group_admin_on_connection. intros H'. run_ok. rewrite pg_ok_Ok in *.
  etrans; [by eapply insert_group_row_statement|]. eauto using rtc_once, st_insert_membership.
Qed.

Lemma add_statements s group member r authority db db' outcome :
  add_group_member_on_connection_authorized s group member r authority db = Ok (db', outcome) ->
  rtc (statement s) db db'.
Proof.
  unfold add_group_member_on_connection_authorized. intros H'.
  destruct (lock_group_membership_write_tx s group member db) as [is_group|]; [|done].
  destruct (insert_group_row s group db) as [db1|] eqn:E1; [|done].
  etrans; [by eapply insert_group_row_statement|]. run_ok; try done; rewrite ?pg_ok_Ok in *;
    eauto using rtc_once, st_insert_membership, st_insert_edge.
Qed.

Lemma remove_statements s group member relation ma ea db db' :
  remove_on_connection_authorized s group member relation ma ea db = Ok db' -> rtc (statement s) db db'.
Proof.
  unfold remove_on_connection_authorized. intros H'. run_ok;
    eauto using rtc_once, st_delete_edge, st_delete_memberships.
Qed.

Lemma replace_statements s group member from to db db' :
  replace_group_member_relation_on_connection s group member from to db = Ok db' -> rtc (statement s) db db'.
Proof.
  unfold replace_group_member_relation_on_connection. intros H'.
  destruct (lock_group_membership_write_tx s group member db) as [[]|]; [| |done].
  - run_ok. rewrite pg_ok_Ok in *. eauto using rtc_once, st_update_edge.
  - destruct (delete_memberships _ _ _ _ _) as [db1 deleted] eqn:E. run_ok. rewrite pg_ok_Ok in *.
    etrans; [|by eapply rtc_once, st_insert_membership].
    change db1 with (db1, true).1. rewrite <- E. apply rtc_once, st_delete_memberships.
Qed.

Lemma manager_preserving_statements s group member caller change db db' u :
  (forall db db', change db = Ok db' -> rtc (statement s) db db') ->
  manager_preserving_change s group member caller change db = Ok (db', u) -> rtc (statement s) db db'.
Proof. unfold manager_preserving_change. intros Hc H'. run_ok; eauto. Qed.

(** A transaction commits statements of its session, or nothing. *)
Lemma owner_transaction_cases {A} clock scope (body : PgSession -> GroupDb -> result (GroupDb * A) StorageError) db :
  (exists s a, (let? scope := require_owner_scope scope in bind_owner_scope clock scope) = Ok s /\
     body s db = Ok ((owner_transaction clock scope body db).1, a) /\
     (owner_transaction clock scope body db).2 = Ok a) \/
  ((owner_transaction clock scope body db).1 = db /\ exists e, (owner_transaction clock scope body db).2 = Err e).
Proof.
  unfold owner_transaction. destruct (require_owner_scope scope) as [sc|]; [|right; eauto].
  destruct (bind_owner_scope clock sc) as [s|]; [|right; eauto].
  destruct (body s db) as [[db' a]|] eqn:E; [|right; eauto]. left. exists s, a. done.
Qed.

End committed.

(** ** Stored roles *)

Definition role_of_row (row : ProjectionRow) : Role := mk_Role (proj_read row) (proj_write row) (proj_manage row).

(** A resolver answer that names each owner once is the role map. *)
Lemma fold_group_roles_distinct own m pairs :
  NoDup pairs.*1 -> own ∉ pairs.*1 -> (forall o, o ∈ pairs.*1 -> m !! o = None) ->
  exists m', OwnerRoles.fold_group_roles own m pairs = Ok m' /\
    forall o, m' !! o = match (list_to_map pairs : gmap OwnerId Role) !! o with Some r => Some r | None => m !! o end.
Proof.
  revert m. induction pairs as [|[o r] rest IH]; intros m Hnd Hown Hm; cbn in *.
  - exists m. split; [done|]. intros o. by rewrite lookup_empty.
  - apply list.NoDup_cons in Hnd as [Ho Hnd]. apply not_elem_of_cons in Hown as [Hne Hown].
    rewrite bool_decide_false by done. rewrite (Hm o) by left.
    destruct (IH (<[o := r]> m)) as (m' & -> & Hm'); [done|done| |].
    { intros o' Ho'. rewrite lookup_insert_ne by (intros ->; done). apply Hm. by right. }
    exists m'. split; [done|]. intros o'. rewrite Hm'. destruct (decide (o' = o)) as [->|].
    + rewrite lookup_insert_eq, (not_elem_of_list_to_map_1 rest) by done. by rewrite lookup_insert_eq.
    + by rewrite !lookup_insert_ne by done.
Qed.

Lemma elem_of_subject_rows subject group db g row :
  (g, row) ∈ subject_rows platform_session subject group db <->
  db_projection db !! (UserId_0 subject, g) = Some row /\
  from_option (fun wanted => g = GroupId_0 wanted) True group.
Proof.
  unfold subject_rows. rewrite sort_by_elem_of, list_elem_of_omap. split.
  - intros ([[u g'] row'] & Hin%elem_of_map_to_list & Heq). cbn in Heq.
    destruct (u =? UserId_0 subject)%N eqn:Eu; [|done]. apply N.eqb_eq in Eu as ->. cbn in Heq.
    destruct group as [w|]; cbn in *; [destruct (g' =? GroupId_0 w)%N eqn:Ew|]; naive_solver (by apply N.eqb_eq).
  - intros [Hp Hg]. exists ((UserId_0 subject, g), row). split; [by apply elem_of_map_to_list|].
    rewrite N.eqb_refl. cbn. destruct group as [w|]; cbn in *; [|done]. by rewrite Hg, N.eqb_refl.
Qed.

Lemma subject_rows_NoDup s subject group db : NoDup (subject_rows s subject group db).*1.
Proof.
  unfold subject_rows. rewrite sort_by_Permutation.
  pose proof (NoDup_fst_map_to_list (db_projection db)) as Hnd.
  induction (map_to_list (db_projection db)) as [|[[u g] row] l IH]; cbn in *; [constructor|].
  apply list.NoDup_cons in Hnd as [Hu Hnd]. destruct (u =? UserId_0 subject)%N eqn:Eu; cbn; [|by apply IH].
  destruct (projection_read s g && _); cbn; [|by apply IH]. constructor; [|by apply IH].
  apply N.eqb_eq in Eu as ->. intros ([g' row'] & -> & Hin)%list_elem_of_fmap. apply Hu. cbn.
  apply list_elem_of_omap in Hin as ([[v h] row''] & Hin & Heq). cbn in Heq.
  destruct (v =? UserId_0 subject)%N eqn:Ev; [|done]. apply N.eqb_eq in Ev as ->.
  destruct (true && projection_read s h && _); [|done]. injection Heq as <- <-.
  apply list_elem_of_fmap. by exists ((UserId_0 subject, h), row'').
Qed.

Lemma subject_roles_Ok rows :
  (forall g row, (g, row) ∈ rows -> AccessCeiling.rank (proj_write row) <= AccessCeiling.rank (proj_read row)) ->
  subject_roles rows = Ok ((fun '(g, row) => (mk_GroupId g, role_of_row row)) <$> rows).
Proof.
  induction rows as [|[g row] rows IH]; intros H; cbn; [done|].
  unfold Role.new. destruct (Nat.ltb_spec (AccessCeiling.rank (proj_read row)) (AccessCeiling.rank (proj_write row))) as [Hlt|_].
  - specialize (H g row ltac:(left)). lia.
  - cbn. rewrite IH; [done|]. intros g' row' Hin. apply (H g'). by right.
Qed.

(** The relations over which a person reaches a group in the tables. *)
Definition reaches (db : GroupDb) (u : UserId) (g : GroupId) (rs : list Relation) : Prop :=
  member_path (db_memberships db) (db_edges db) (UserId_0 u) (GroupId_0 g) rs.

(** The role a person should have in a group: what some path grants, where a
    path grants what every relation on it grants. *)
Definition inherits (db : GroupDb) (u : UserId) (g : GroupId) (answer : option Role) : Prop :=
  match answer with
  | None => forall rs, ~ reaches db u g rs
  | Some role =>
      (forall k, Role.may_read role k = true <->
         exists rs, reaches db u g rs /\ Forall (fun r => Role.may_read (Relation.role r) k = true) rs) /\
      (forall k, Role.may_write role k = true <->
         exists rs, reaches db u g rs /\ Forall (fun r => Role.may_write (Relation.role r) k = true) rs) /\
      (Role.manages role = true <->
         exists rs, reaches db u g rs /\ Forall (fun r => Role.manages (Relation.role r) = true) rs)
  end.

Section stored_roles.
Context (db : GroupDb) (Hinv : db_inv db).

Lemma reaches_group u g rs : reaches db u g rs -> registered_group db (GroupId_0 g) = true.
Proof using Hinv.
  unfold reaches. generalize (GroupId_0 g) as x. clear g. intros x Hp. apply registered_group_true.
  induction Hp as [x r Hin|x p r rs _ _ Hup]; [by eapply inv_membership|by eapply inv_edge].
Qed.

Lemma projection_inherits u g : inherits db u g (role_of_row <$> db_projection db !! (UserId_0 u, GroupId_0 g)).
Proof using Hinv.
  rewrite (inv_exact _ Hinv). destruct (user_projection _ _ _ !! _) as [row|] eqn:E; cbn.
  - apply user_projection_Some in E; [|apply Hinv]. naive_solver.
  - intros rs. rewrite user_projection_None in E by apply Hinv. apply E.
Qed.

Lemma projection_registered u g row :
  db_projection db !! (u, g) = Some row -> registered_group db g = true.
Proof using Hinv.
  intros E. destruct (registered_group db g) eqn:Hg; [done|].
  rewrite (inv_exact _ Hinv) in E. assert (user_projection (db_memberships db) (db_edges db) u !! g = None) as Hn; [|congruence].
  apply user_projection_None; [apply Hinv|]. intros rs Hr.
  apply (reaches_group (mk_UserId u) (mk_GroupId g) rs) in Hr. cbn in Hr. congruence.
Qed.

Lemma projection_row_wf u g row :
  db_projection db !! (u, g) = Some row -> AccessCeiling.rank (proj_write row) <= AccessCeiling.rank (proj_read row).
Proof using Hinv. rewrite (inv_exact _ Hinv). intros E%user_projection_Some; [|apply Hinv]. apply E. Qed.

Lemma resolve_subject_roles_Ok `{UuidText} (subject : UserId) (group : option GroupId) :
  registered_group db (UserId_0 subject) = false ->
  exists roles, resolve_subject_roles platform_session subject group db = Ok roles /\
    roles_subject roles = subject /\
    OwnerRoles.role_for roles (OwnerId.from_user subject) = Some Role.personal /\
    forall g, GroupId_0 g <> UserId_0 subject ->
      OwnerRoles.role_for roles (OwnerId.from_group g)
      = if from_option (fun wanted => bool_decide (g = wanted)) true group
        then role_of_row <$> db_projection db !! (UserId_0 subject, GroupId_0 g) else None.
Proof using Hinv.
  intros Hsub. unfold resolve_subject_roles, resolve_subject_membership.
  rewrite subject_roles_Ok by (intros g row [Hp _]%elem_of_subject_rows; by eapply projection_row_wf).
  cbn [map_err subject_is_group sm_memberships]. rewrite Hsub. cbn [andb]. unfold OwnerRoles.for_subject. cbn zeta.
  rewrite <- list_fmap_compose. set (pairs := _ <$> _).
  assert (Hpairs : forall g r, (mk_OwnerId g, r) ∈ pairs <-> exists row, r = role_of_row row /\
    (g, row) ∈ subject_rows platform_session subject group db).
  { intros g r. unfold pairs. rewrite list_elem_of_fmap. split; [intros ([g' row] & [= -> ->] & Hin)|intros (row & -> & Hin)];
      [|exists (g, row)]; eauto. }
  assert (Hkeys : forall g, mk_OwnerId g ∈ pairs.*1 -> exists row, (g, row) ∈ subject_rows platform_session subject group db).
  { intros g ([o r] & Ho & Hin)%list_elem_of_fmap. cbn in Ho. subst o. apply Hpairs in Hin. naive_solver. }
  assert (Hnd : NoDup pairs.*1).
  { unfold pairs. rewrite <- list_fmap_compose.
    rewrite (list_fmap_ext _ (mk_OwnerId ∘ fst)) by (by intros i [g row] _).
    rewrite (list_fmap_compose fst mk_OwnerId). apply NoDup_fmap_2; [by intros ?? [=]|]. apply subject_rows_NoDup. }
  clearbody pairs. destruct (fold_group_roles_distinct (OwnerId.from_user subject)
    {[OwnerId.from_user subject := Role.personal]} pairs) as (m & -> & Hm); [done| | |].
  - intros (row & [Hp _]%elem_of_subject_rows)%Hkeys. apply projection_registered in Hp. congruence.
  - intros [g] (row & [Hp _]%elem_of_subject_rows)%Hkeys. apply lookup_singleton_ne. intros [= <-].
    apply projection_registered in Hp. congruence.
  - exists (mk_OwnerRoles subject m). unfold OwnerRoles.role_for. cbn [roles_map roles_subject].
    split_and!; [done|done| |].
    + rewrite Hm, not_elem_of_list_to_map_1, lookup_singleton_eq; [done|].
      intros (row & [Hp _]%elem_of_subject_rows)%Hkeys. apply projection_registered in Hp. congruence.
    + intros [g] Hg. rewrite Hm, lookup_singleton_ne by (intros [=]; by apply Hg).
      unfold OwnerId.from_group. cbn [GroupId_0].
      destruct (list_to_map pairs !! _) as [r|] eqn:E.
      * apply elem_of_list_to_map_2, Hpairs in E as (row & -> & [Hp Hw]%elem_of_subject_rows).
        rewrite Hp. destruct group as [[w]|]; cbn in *; [|done]. by rewrite Hw, bool_decide_true.
      * apply not_elem_of_list_to_map_2 in E.
        destruct (db_projection db !! (UserId_0 subject, g)) as [row|] eqn:Hp; [|by case_match].
        destruct (from_option _ _ group) eqn:Hw; [|done]. exfalso. apply E.
        apply list_elem_of_fmap. exists (mk_OwnerId g, role_of_row row). split; [done|]. apply Hpairs.
        exists row. split; [done|]. apply elem_of_subject_rows. split; [done|].
        destruct group as [[w]|]; cbn in *; [|done]. apply bool_decide_eq_true in Hw. by injection Hw.
Qed.

End stored_roles.

(** ** What the writes do to the members *)

(** The abstract content of the two tables: who is in which group as what. *)
Definition holds (db : GroupDb) (g : GroupId) (m : OwnerId) (r : Relation) : Prop :=
  (GroupId_0 g, OwnerId_0 m, r) ∈ db_memberships db \/ db_edges db !! OwnerId_0 m = Some (GroupId_0 g, r).

Section members.
Context `{PgText}.

Lemma insert_group_row_holds s group db db' g m r :
  insert_group_row s group db = Ok db' -> holds db' g m r <-> holds db g m r.
Proof. unfold insert_group_row, insert_owner. rewrite pg_ok_Ok. intros H'. by run_ok. Qed.

Lemma insert_group_row_registered s group db db' o :
  insert_group_row s group db = Ok db' -> registered_group db o = true -> registered_group db' o = true.
Proof.
  unfold insert_group_row, insert_owner. rewrite pg_ok_Ok, !registered_group_true. intros H' Ho.
  run_ok; [done|]. cbn. rewrite lookup_insert_ne; [done|congruence].
Qed.

Lemma insert_membership_holds s d g m r db db' b :
  insert_membership s d (GroupId_0 g) (OwnerId_0 m) r db = Ok (db', b) ->
  (forall g' m' r', holds db' g' m' r' <-> holds db g' m' r' \/ (g', m', r') = (g, m, r)) /\
  (b = false -> holds db g m r) /\
  (b = true -> (GroupId_0 g, OwnerId_0 m, r) ∉ db_memberships db) /\
  registered_group db (OwnerId_0 m) = false /\ memberships_write s (GroupId_0 g) = true.
Proof.
  unfold insert_membership, holds. intros H'. run_ok;
    repeat match goal with E : require _ _ = Ok _ |- _ => apply require_Ok in E end;
    rewrite ?negb_true_iff, ?bool_decide_eq_true, ?bool_decide_eq_false in *; split_and!; try done; try tauto.
  - intros g' m' r'. split; [tauto|]. intros [?|[= -> -> ->]]; tauto.
  - intros [g'] [m'] r'. destruct g as [g], m as [m]. cbn. rewrite elem_of_union, elem_of_singleton. naive_solver.
Qed.

Lemma delete_memberships_holds s g m relation db db' b :
  delete_memberships s (GroupId_0 g) (OwnerId_0 m) relation db = (db', b) ->
  memberships_write s (GroupId_0 g) = true -> registered_group db (OwnerId_0 m) = false -> db_inv db ->
  (forall g' m' r', holds db' g' m' r' <-> holds db g' m' r' /\ ~ ((g', m') = (g, m) /\ relation_is relation r' = true)) /\
  (b = true -> exists r, relation_is relation r = true /\ holds db g m r).
Proof.
  unfold delete_memberships, holds. intros H' Hs Hm Hinv. rewrite Hs in H'. cbn in H'.
  assert (Hedge : forall g' r', db_edges db !! OwnerId_0 m <> Some (g', r')).
  { intros g' r' He%(inv_edge _ Hinv). rewrite <- not_true_iff_false, registered_group_true in Hm. naive_solver. }
  destruct g as [g], m as [m]. cbn in *. case_bool_decide as Hgone; cbn in H'; injection H' as <- <-; cbn; split; try done.
  - intros [g'] [m'] r'. cbn. split; [|tauto]. intros Hh. split; [done|]. intros [[= -> ->] Hr].
    destruct Hh as [Hh|Hh]; [|by eapply Hedge]. apply (not_elem_of_empty (C := MembershipTable) (g, m, r')). rewrite <- Hgone.
    apply elem_of_filter. done.
  - intros [g'] [m'] r'. cbn. rewrite elem_of_difference, elem_of_filter. cbn. split.
    + intros [[Hin Hn]|He]; (split; [tauto|]); intros [[= -> ->] Hr]; [tauto|by eapply Hedge].
    + intros [[Hin|He] Hn]; [left|by right]. split; [done|]. intros [[[= -> ->] Hr] _]. tauto.
  - intros _. apply set_choose_L in Hgone as [[[g' m'] r'] [[[= -> ->] Hr] Hin]%elem_of_filter]. eauto.
Qed.

Lemma insert_edge_holds s c g r db db' b :
  insert_edge s (OwnerId_0 c) (GroupId_0 g) r db = Ok (db', b) ->
  edges_check s (OwnerId_0 c) (GroupId_0 g) = true /\
  (b = true -> db_edges db !! OwnerId_0 c = None /\
     forall g' m' r', holds db' g' m' r' <-> holds db g' m' r' \/ (g', m', r') = (g, c, r)).
Proof.
  unfold insert_edge, holds. intros H'. run_ok;
    repeat match goal with E : require _ _ = Ok _ |- _ => apply require_Ok in E end; (split; [done|]); [done|].
  intros _. destruct (db_edges db !! OwnerId_0 c) eqn:Hc; [done|]. split; [done|].
  intros [g'] [m'] r'. destruct g as [g], c as [c]. cbn in *. destruct (decide (m' = c)) as [->|].
  - rewrite lookup_insert_eq, Hc. naive_solver.
  - rewrite lookup_insert_ne by done. naive_solver.
Qed.

Lemma delete_edge_holds s c g relation db :
  edges_using s (OwnerId_0 c) (GroupId_0 g) = true -> registered_group db (OwnerId_0 c) = true -> db_inv db ->
  forall g' m' r', holds (delete_edge s (OwnerId_0 c) (GroupId_0 g) relation db) g' m' r' <->
    holds db g' m' r' /\ ~ ((g', m') = (g, c) /\ relation_is relation r' = true).
Proof.
  unfold delete_edge, holds. intros Hs Hc Hinv. rewrite Hs, andb_true_r. apply registered_group_true in Hc.
  assert (Hperson : forall g' r', (g', OwnerId_0 c, r') ∉ db_memberships db).
  { intros g' r' [_ Hin]%(inv_membership _ Hinv). done. }
  intros [g'] [m'] r'. destruct g as [g], c as [c]. cbn in *.
  destruct (edge_matches db c g relation) eqn:E.
  - apply edge_matches_Some in E as (r & He & Hr). cbn. destruct (decide (m' = c)) as [->|].
    + rewrite lookup_delete_eq, He. naive_solver.
    + rewrite lookup_delete_ne by done. naive_solver.
  - split; [|tauto]. intros Hh. split; [done|]. intros [[= -> ->] Hr]. apply not_true_iff_false in E. apply E.
    apply edge_matches_Some. naive_solver.
Qed.

Lemma update_edge_holds s c g from to db db' :
  update_edge s (OwnerId_0 c) (GroupId_0 g) from to db = Ok (db', true) ->
  registered_group db (OwnerId_0 c) = true -> db_inv db ->
  holds db g c from /\ edges_check s (OwnerId_0 c) (GroupId_0 g) = true /\
  forall g' m' r', holds db' g' m' r' <->
    (holds db g' m' r' /\ (g', m', r') <> (g, c, from)) \/ (g', m', r') = (g, c, to).
Proof.
  unfold update_edge, holds. intros H' Hc Hinv. apply registered_group_true in Hc.
  assert (Hperson : forall g' r', (g', OwnerId_0 c, r') ∉ db_memberships db).
  { intros g' r' [_ Hin]%(inv_membership _ Hinv). done. }
  destruct (_ && _) eqn:E in H'; [|done].
  apply andb_true_iff in E as [(r & He & Hr)%edge_matches_Some _]. apply bool_decide_eq_true in Hr as ->.
  run_ok. match goal with E : require (edges_check _ _ _) _ = Ok _ |- _ => apply require_Ok in E end.
  split_and!; [by right|done|]. intros [g'] [m'] r'. destruct g as [g], c as [c]. cbn in *.
  destruct (decide (m' = c)) as [->|]; [rewrite lookup_insert_eq, He|rewrite lookup_insert_ne by done]; naive_solver.
Qed.

End members.

(** ** Theorems *)

Section writes.
Context `{PgText}.

(** Every way the modelled code writes the tables: the connection-taking forms a
    host calls in its own transaction, the port of [PgStorage], and the erase of
    an owner. *)
Inductive group_write : GroupDb -> GroupDb -> Prop :=
| gw_ensure_owner_row s owner db db' id :
    ensure_owner_row s owner db = Ok (db', id) -> group_write db db'
| gw_register_group s group db db' :
    register_group s group db = Ok db' -> group_write db db'
| gw_bootstrap_on_connection s group admin db db' :
    bootstrap_group_admin_on_connection s group admin db = Ok db' -> group_write db db'
| gw_add_on_connection s group member r authority db db' outcome :
    add_group_member_on_connection_authorized s group member r authority db = Ok (db', outcome) -> group_write db db'
| gw_remove_on_connection s group member relation ma ea db db' :
    remove_on_connection_authorized s group member relation ma ea db = Ok db' -> group_write db db'
| gw_replace_on_connection s group member from to db db' :
    replace_group_member_relation_on_connection s group member from to db = Ok db' -> group_write db db'
| gw_bootstrap group admin db :
    group_write db (bootstrap_group_admin group admin db).1
| gw_add clock permit group member r db :
    group_write db (add_group_member clock permit group member r db).1
| gw_remove clock permit group member relation db :
    group_write db (remove_group_member clock permit group member relation db).1
| gw_replace clock permit group member from to db :
    group_write db (replace_group_member_relation clock permit group member from to db).1
| gw_erase_owner owner db :
    group_write db (erase_owner_memberships owner db).

(** The connection forms in one session. *)
Lemma guarded_transaction_statements {A} check clock scope
    (body : PgSession -> GroupDb -> result (GroupDb * A) StorageError) db :
  (forall s db db' a, body s db = Ok (db', a) -> rtc (statement s) db db') ->
  exists s, rtc (statement s) db (guarded check (owner_transaction clock scope body) db).1.
Proof.
  intros Hb. unfold guarded. destruct check; [|by exists platform_session].
  destruct (owner_transaction_cases clock scope body db) as [(s & a' & _ & Hs & _)|[-> _]];
    [exists s; by eapply Hb|by exists platform_session].
Qed.

Lemma group_write_statements db db' :
  group_write db db' ->
  (exists s, rtc (statement s) db db') \/ exists owner, db' = erase_owner_memberships owner db.
Proof.
  destruct 1; [left..|right; by exists owner];
    try (eexists; first
      [by eapply ensure_owner_row_statements | by eapply register_group_statements
      | by eapply bootstrap_statements | by eapply add_statements | by eapply remove_statements
      | by eapply replace_statements]).
  - exists platform_session. unfold bootstrap_group_admin.
    destruct (bootstrap_group_admin_on_connection _ _ _ _) eqn:E; [|done]. by eapply bootstrap_statements.
  - apply guarded_transaction_statements. intros. by eapply add_statements.
  - apply guarded_transaction_statements. intros ???? Hb. eapply manager_preserving_statements, Hb.
    intros. by eapply remove_statements.
  - apply guarded_transaction_statements. intros ???? Hb. eapply manager_preserving_statements, Hb.
    intros. by eapply replace_statements.
Qed.

Lemma group_writes_inv db db' : rtc group_write db db' -> db_inv db -> db_inv db'.
Proof.
  induction 1 as [|??? [(s & Hs)|(owner & ->)]%group_write_statements]; eauto using statements_inv, inv_erase_owner_memberships.
Qed.

Lemma reachable_inv db : rtc group_write empty_db db -> db_inv db.
Proof. intros Hr. eapply group_writes_inv; [done|apply empty_db_inv]. Qed.

(** C35. The tables stay well formed under every sequence of membership writes
    and owner erasures, in any session: memberships and edges join registered groups, no person
    membership belongs to a group, the edges form a forest, and the projection
    the triggers rebuild for the people a write concerns equals a full
    recomputation for everybody. *)
Theorem group_tables_invariant (db : GroupDb) (Hreach : rtc group_write empty_db db) :
  (forall g u r, (g, u, r) ∈ db_memberships db ->
     registered_group db g = true /\ registered_group db u = false) /\
  (forall c p r, db_edges db !! c = Some (p, r) -> registered_group db c = true /\ registered_group db p = true) /\
  (forall g, chain (db_edges db) g (ancestors (size (db_edges db)) (db_edges db) g)) /\
  (forall u g, db_projection db !! (u, g) = user_projection (db_memberships db) (db_edges db) u !! g).
Proof.
  apply reachable_inv in Hreach as [Hm He Hf Hx]. split_and!.
  - intros g u r Hin. rewrite registered_group_true, <- not_true_iff_false, registered_group_true. by eapply Hm.
  - intros c p r Hc. rewrite !registered_group_true. by eapply He.
  - intros g. by apply chain_ancestors.
  - apply Hx.
Qed.

(** C36. A stored role is inherited over the group forest.  For a subject that is
    not a group, resolving all roles and resolving one group agree; the subject
    holds the personal role in its own id; and in a group it may read, write or
    manage exactly what some path of memberships and edges grants, where a path
    grants what each relation on it grants. *)
Theorem stored_roles_are_inherited `{UuidText} (db : GroupDb) (subject : UserId)
    (Hreach : rtc group_write empty_db db) (Hperson : registered_group db (UserId_0 subject) = false) :
  exists roles,
    roles_for_subject platform_session subject db = Ok roles /\
    OwnerRoles.role_for roles (OwnerId.from_user subject) = Some Role.personal /\
    forall group, GroupId_0 group <> UserId_0 subject ->
      group_role platform_session subject group db = Ok (OwnerRoles.role_for roles (OwnerId.from_group group)) /\
      inherits db subject group (OwnerRoles.role_for roles (OwnerId.from_group group)).
Proof.
  pose proof (reachable_inv _ Hreach) as Hinv.
  destruct (resolve_subject_roles_Ok _ Hinv subject None Hperson) as (roles & Hroles & _ & Hown & Hgroups).
  exists roles. split_and!; [done|done|]. intros group Hg. rewrite (Hgroups _ Hg). cbn [from_option]. split.
  - unfold group_role. destruct (resolve_subject_roles_Ok _ Hinv subject (Some group) Hperson) as (one & -> & _ & _ & Hone).
    rewrite (Hone _ Hg). cbn. by rewrite bool_decide_true.
  - by apply projection_inherits.
Qed.

End writes.

Section exactness.
Context `{PgText} (db : GroupDb) (Hreach : rtc group_write empty_db db) (s : PgSession).
Context (group : GroupId) (member : OwnerId).

#[local] Definition same_but_added (db' : GroupDb) (r : Relation) : Prop :=
  forall g m r', holds db' g m r' <-> holds db g m r' \/ (g, m, r') = (group, member, r).

Lemma add_exact r authority db' outcome :
  add_group_member_on_connection_authorized s group member r authority db = Ok (db', outcome) ->
  same_but_added db' r /\ (outcome = AlreadyPresent <-> holds db group member r).
Proof using Hreach.
  unfold add_group_member_on_connection_authorized, lock_group_membership_write_tx. intros H'.
  destruct (pg_ok (require _ _)); [|done]. destruct (insert_group_row s group db) as [db1|] eqn:E1; [|done].
  assert (Hinv1 : db_inv db1).
  { eapply statements_inv; [by eapply insert_group_row_statement|by apply reachable_inv]. }
  unfold same_but_added. setoid_rewrite <- (insert_group_row_holds _ _ _ _ _ _ _ E1).
  destruct (registered_group db (OwnerId_0 member)) eqn:Em.
  - destruct (negb _); [done|].
    assert (Hout : forall r', (GroupId_0 group, OwnerId_0 member, r') ∉ db_memberships db1).
    { intros r' [_ Hn]%(inv_membership _ Hinv1). apply Hn, registered_group_true.
      by eapply insert_group_row_registered. }
    destruct (db_edges db1 !! OwnerId_0 member) as [[p held]|] eqn:He; [destruct (edges_read _ _ _)|].
    + destruct (_ && _) eqn:Eq; [|done]. injection H' as <- <-.
      apply andb_true_iff in Eq as [->%N.eqb_eq ->%bool_decide_eq_true]. unfold holds. naive_solver.
    + destruct (pg_ok _) as [[db2 []]|] eqn:E2; [|done|done]. rewrite pg_ok_Ok in E2.
      apply insert_edge_holds in E2 as [_ Hb]. destruct (Hb eq_refl). congruence.
    + destruct (pg_ok _) as [[db2 []]|] eqn:E2; [|done|done]. rewrite pg_ok_Ok in E2. injection H' as <- <-.
      apply insert_edge_holds in E2 as [_ Hb]. destruct (Hb eq_refl) as [_ Hh]. split; [done|].
      split; [done|]. intros [Hin|Hin]; [by apply Hout in Hin|congruence].
  - destruct (pg_ok _) as [[db2 b]|] eqn:E2; [|done]. rewrite pg_ok_Ok in E2. injection H' as <- <-.
    apply insert_membership_holds in E2 as (Hh & Hf & Ht & Hm & _). split; [done|]. destruct b.
    + split; [done|]. intros [Hin|Hin]; [by apply Ht in Hin|].
      apply (inv_edge _ Hinv1) in Hin as [Hg _]. rewrite <- registered_group_true in Hg. congruence.
    + split; [|done]. intros _. by apply Hf.
Qed.

Lemma remove_exact relation ma ea db' :
  remove_on_connection_authorized s group member relation ma ea db = Ok db' ->
  memberships_write s (GroupId_0 group) = true \/ registered_group db (OwnerId_0 member) = true ->
  forall g m r, holds db' g m r <-> holds db g m r /\ ~ ((g, m) = (group, member) /\ relation_is relation r = true).
Proof using Hreach.
  unfold remove_on_connection_authorized, lock_group_membership_write_tx. intros H' Hs.
  pose proof (reachable_inv _ Hreach) as Hinv.
  destruct (pg_ok (require _ _)) as [u|] eqn:Hlock; [|done]. rewrite pg_ok_Ok, require_Ok in Hlock.
  destruct (detach_authorized _ _ _); [|done]. destruct (registered_group db (OwnerId_0 member)) eqn:Em; injection H' as <-.
  - by apply delete_edge_holds.
  - destruct Hs as [Hs|]; [|done].
    destruct (delete_memberships _ _ _ _ _) as [db' b] eqn:E. by apply (delete_memberships_holds _ _ _ _ _ _ _ E).
Qed.

Lemma replace_exact from to db' :
  replace_group_member_relation_on_connection s group member from to db = Ok db' ->
  holds db group member from /\
  forall g m r, holds db' g m r <->
    (holds db g m r /\ (g, m, r) <> (group, member, from)) \/ (g, m, r) = (group, member, to).
Proof using Hreach.
  unfold replace_group_member_relation_on_connection, lock_group_membership_write_tx. intros H'.
  pose proof (reachable_inv _ Hreach) as Hinv.
  destruct (pg_ok (require _ _)) as [u|]; [|done]. destruct (registered_group db (OwnerId_0 member)) eqn:Em.
  - destruct (pg_ok _) as [[db2 []]|] eqn:E; [|done|done]. rewrite pg_ok_Ok in E. injection H' as <-.
    apply update_edge_holds in E as (? & _ & ?); done.
  - destruct (delete_memberships _ _ _ _ _) as [db1 []] eqn:E1; [|done].
    destruct (pg_ok _) as [[db2 b]|] eqn:E2; [|done]. rewrite pg_ok_Ok in E2. injection H' as <-.
    apply insert_membership_holds in E2 as (Hh & _ & _ & _ & Hw).
    apply delete_memberships_holds in E1 as [Hd Hheld]; [|done..].
    destruct (Hheld eq_refl) as (r & Hr & Hhr). apply bool_decide_eq_true in Hr as ->. split; [done|].
    intros g m r. rewrite Hh, Hd. cbn. rewrite bool_decide_eq_true. naive_solver.
Qed.

End exactness.

(** ** Managers *)

(** Somebody manages a group over a path of admin relations. *)
Definition manages_group (db : GroupDb) (u : UserId) (g : GroupId) : Prop :=
  exists rs, reaches db u g rs /\ Forall (fun r => Role.manages (Relation.role r) = true) rs.

Lemma projection_manages db u g :
  db_inv db ->
  manages_group db u g <-> exists row, db_projection db !! (UserId_0 u, GroupId_0 g) = Some row /\ proj_manage row = true.
Proof.
  intros Hinv. pose proof (projection_inherits db Hinv u g) as Hi.
  destruct (db_projection db !! _) as [row|] eqn:E; cbn in Hi.
  - destruct Hi as (_ & _ & Hm). unfold manages_group. rewrite <- Hm. unfold Role.manages. cbn. naive_solver.
  - split; [intros (rs & Hr & _); by apply Hi in Hr|naive_solver].
Qed.

Lemma group_has_manager_iff db s g :
  db_inv db ->
  group_has_manager s g db = true <-> projection_read s (GroupId_0 g) = true /\ exists u, manages_group db u g.
Proof.
  intros Hinv. unfold group_has_manager. rewrite existsb_exists. split.
  - intros ([[u x] row] & Hin%list_elem_of_In%elem_of_map_to_list & Hb). bools.
    subst x. split; [done|]. exists (mk_UserId u). apply projection_manages; eauto.
  - intros [Hs [u Hu]]. apply projection_manages in Hu as (row & Hp & Hm); [|done].
    exists ((UserId_0 u, GroupId_0 g), row). rewrite <- list_elem_of_In. split; [by apply elem_of_map_to_list|].
    by rewrite N.eqb_refl, Hs, Hm.
Qed.

Lemma manager_preserving_keeps `{PgText} s group member caller change db db' u v :
  db_inv db -> db_inv db' -> projection_read s (GroupId_0 group) = true ->
  manager_preserving_change s group member caller change db = Ok (db', u) -> manages_group db v group ->
  (exists v', manages_group db' v' group) /\ (forall c, caller = Some c -> manages_group db c group).
Proof.
  intros Hinv Hinv' Hs H' Hv. unfold manager_preserving_change in H'.
  rewrite (proj2 (group_has_manager_iff db s group Hinv)) in H' by eauto.
  run_ok. cbn [andb] in *. split.
  - match goal with E : negb _ = false |- _ => apply negb_false_iff, group_has_manager_iff in E as [_ ?]; [done|done] end.
  - intros c ->. match goal with E : recheck_caller_manages _ _ _ _ = Ok _ |- _ => unfold recheck_caller_manages in E end.
    run_ok. apply projection_manages; [done|].
    destruct (db_projection db !! _) as [row|]; cbn in *; [|done]. bools. eauto.
Qed.

(** What the session of a scope admits. *)
Lemma bind_owner_scope_Ok clock scope s :
  bind_owner_scope clock scope = Ok s ->
  app_platform s = false /\
  (forall o, slice_contains (OwnerId_0 o) (app_owner s) = true <-> OwnerScope.may_read (clock 1) scope o KFact = true) /\
  (forall o, slice_contains (OwnerId_0 o) (app_manage_owner s) = true ->
     is_some_and (OwnerScope.role_for_owner scope o) Role.manages = true).
Proof.
  unfold bind_owner_scope. intros H. run_ok. cbn [app_platform app_owner app_manage_owner]. split_and!; [done| |].
  - intros o. rewrite slice_contains_true. unfold owner_ids. rewrite list_elem_of_fmap.
    unfold OwnerScope.readable_owners, OwnerScope.may_read.
    destruct (OwnerScope.is_expired (clock 1) scope); cbn; [set_solver|].
    unfold OwnerRoles.readable_owners. setoid_rewrite ordered_elem_of. split; [|by exists o].
    intros ([x] & Hx & Hr). destruct o. cbn in Hx. by subst.
  - intros o. rewrite slice_contains_true. unfold owner_ids, OwnerScope.managed_owners. rewrite list_elem_of_fmap.
    intros ([x] & Hx & [Hr _]%list_elem_of_filter). destruct o. cbn in Hx. by subst.
Qed.

(** ** Confinement of a session's statements *)

Record confined (s : PgSession) (db db' : GroupDb) : Prop := {
  confined_membership g u r :
    memberships_write s g = true \/ ((g, u, r) ∈ db_memberships db' <-> (g, u, r) ∈ db_memberships db);
  confined_edge_new c p r :
    db_edges db' !! c = Some (p, r) -> db_edges db !! c = Some (p, r) \/ edges_check s c p = true;
  confined_edge_gone c p r :
    db_edges db !! c = Some (p, r) -> db_edges db' !! c = Some (p, r) \/ edges_using s c p = true;
}.

Lemma confined_refl s db db' :
  db_memberships db' = db_memberships db -> db_edges db' = db_edges db -> confined s db db'.
Proof. intros Hm He. split; [rewrite Hm|rewrite He|rewrite He]; tauto. Qed.

Lemma confined_trans s db1 db2 db3 : confined s db1 db2 -> confined s db2 db3 -> confined s db1 db3.
Proof.
  intros [Ma Na Ga] [Mb Nb Gb]. split.
  - intros g u r. destruct (Ma g u r), (Mb g u r); tauto.
  - intros c p r H. apply Nb in H as [H|]; [|tauto]. by apply Na.
  - intros c p r H. apply Ga in H as [H|]; [|tauto]. by apply Gb.
Qed.

Lemma confined_edge_write s db edges c p r :
  db_edges db !! c = Some (p, r) \/ db_edges db !! c = None ->
  (forall x, x <> c -> edges !! x = db_edges db !! x) ->
  (forall p' r', edges !! c = Some (p', r') -> p' = p /\ edges_check s c p = true) ->
  edges_using s c p = true -> confined s db (edge_after_write db edges c).
Proof.
  intros Hc Heq Hnew Hgone. split; cbn; [tauto| |]; intros x q r' Hx; destruct (decide (x = c)) as [->|];
    rewrite ?Heq in * by done; try tauto.
  - apply Hnew in Hx as [-> ?]. tauto.
  - destruct Hc as [Hc|]; [|congruence]. rewrite Hc in Hx. injection Hx as <- <-. tauto.
Qed.

Lemma edges_check_using s c p : edges_check s c p = true -> edges_using s c p = true.
Proof. unfold edges_check, edges_using. intros [-> _]%andb_true_iff. done. Qed.

Lemma statement_confined s db db' : statement s db db' -> confined s db db'.
Proof.
  destruct 1 as [owner kind db db' H|d g u r db db' b H|g u relation db|c p r db db' b H|c p relation db|c p from to db db' b H].
  - unfold insert_owner in H. run_ok; by apply confined_refl.
  - unfold insert_membership in H. run_ok; [by apply confined_refl|].
    repeat match goal with E : require _ _ = Ok _ |- _ => apply require_Ok in E end.
    split; cbn; [|tauto|tauto]. intros g' u' r'. destruct (decide (g' = g)) as [->|]; [by left|right; set_solver].
  - unfold delete_memberships. destruct (_ && _) eqn:E; [|by apply confined_refl]. apply andb_true_iff in E as [E _].
    split; cbn; [|tauto|tauto]. intros g' u' r'. destruct (decide (g' = g)) as [->|]; [by left|right].
    rewrite elem_of_difference, elem_of_filter. naive_solver.
  - unfold insert_edge in H. run_ok; [by apply confined_refl|].
    repeat match goal with E : require _ _ = Ok _ |- _ => apply require_Ok in E end.
    destruct (db_edges db !! c) eqn:Hc; [done|].
    apply (confined_edge_write _ _ _ _ p r); [by right|by intros; apply lookup_insert_ne| |by apply edges_check_using].
    intros p' r'. rewrite lookup_insert_eq. naive_solver.
  - unfold delete_edge. destruct (_ && _) eqn:E; [|by apply confined_refl].
    apply andb_true_iff in E as [(r & Hc & _)%edge_matches_Some E].
    apply (confined_edge_write _ _ _ _ p r); [by left|by intros; apply lookup_delete_ne| |done].
    intros p' r'. by rewrite lookup_delete_eq.
  - unfold update_edge in H. run_ok; [|by apply confined_refl].
    match goal with E : edge_matches _ _ _ _ && _ = true |- _ => apply andb_true_iff in E as [(r & Hc & _)%edge_matches_Some ?] end.
    repeat match goal with E : require _ _ = Ok _ |- _ => apply require_Ok in E end.
    apply (confined_edge_write _ _ _ _ p r); [by left|by intros; apply lookup_insert_ne| |done].
    intros p' r'. rewrite lookup_insert_eq. naive_solver.
Qed.

Lemma statements_confined s db db' : rtc (statement s) db db' -> confined s db db'.
Proof. induction 1; [by apply confined_refl|]. eauto using confined_trans, statement_confined. Qed.

(** ** Member pages *)

(** Reading all pages of [limit], resuming from the last member of each. *)
Fixpoint member_pages (fuel : nat) (s : PgSession) (group : GroupId) (limit : nat)
    (after : option (OwnerId * Relation)) (db : GroupDb) : list (OwnerId * Relation) :=
  let fetched := list_group_members_page s group after (S limit) db in
  let members := take limit fetched in
  match fuel with
  | O => members
  | S fuel =>
      if limit <? length fetched
      then members ++ member_pages fuel s group limit (list.last members) db
      else members
  end.

(** The keyset order of two rows. *)
Definition row_before (a b : MemberRow) : Prop := after_row (Some (member_of_row a)) b = true.

Lemma row_before_iff a b :
  row_before a b <-> (a.1.1 < b.1.1)%N \/ (a.1.1 = b.1.1 /\ (relation_index a.2 < relation_index b.2)%N).
Proof.
  unfold row_before, after_row, member_of_row. cbn.
  destruct (N.compare_spec b.1.1 a.1.1) as [->|Hlt|Hgt]; rewrite ?N.ltb_lt; naive_solver lia.
Qed.

Lemma relation_index_inj a b : relation_index a = relation_index b -> a = b.
Proof. by destruct a, b. Qed.

Lemma member_row_leb_iff a b :
  member_row_leb a b = true <->
  (a.1.1 < b.1.1)%N \/ (a.1.1 = b.1.1 /\
    ((a.1.2 = false /\ b.1.2 = true) \/ (a.1.2 = b.1.2 /\ (relation_index a.2 <= relation_index b.2)%N))).
Proof.
  unfold member_row_leb. destruct (N.compare_spec a.1.1 b.1.1) as [->|Hlt|Hgt]; [|naive_solver lia..].
  destruct a.1.2, b.1.2; rewrite ?N.leb_le; naive_solver lia.
Qed.

Lemma member_row_leb_total a b : member_row_leb a b = true \/ member_row_leb b a = true.
Proof.
  rewrite !member_row_leb_iff. destruct (N.lt_trichotomy a.1.1 b.1.1) as [?|[->|?]]; [tauto| |tauto].
  destruct a.1.2, b.1.2; try tauto; destruct (N.le_ge_cases (relation_index a.2) (relation_index b.2)); tauto.
Qed.

Lemma member_row_leb_trans a b c :
  member_row_leb a b = true -> member_row_leb b c = true -> member_row_leb a c = true.
Proof. rewrite !member_row_leb_iff. destruct a.1.2, b.1.2, c.1.2; naive_solver lia. Qed.

#[local] Instance member_row_antisymm : AntiSymm (=) (fun a b => member_row_leb a b = true).
Proof.
  intros [[m g] r] [[m' g'] r']. rewrite !member_row_leb_iff. cbn. intros Ha Hb.
  assert (m = m') as <- by naive_solver lia. assert (g = g') as <- by naive_solver lia.
  f_equal. apply relation_index_inj. naive_solver lia.
Qed.

Lemma elem_of_member_rows s group db m is_group r :
  (m, is_group, r) ∈ member_rows s group db ->
  if is_group : bool then db_edges db !! m = Some (GroupId_0 group, r) else (GroupId_0 group, m, r) ∈ db_memberships db.
Proof.
  unfold member_rows. rewrite elem_of_app, !list_elem_of_omap.
  intros [([[g u] r'] & Hin%elem_of_elements & Heq)|([c [p r']] & Hin%elem_of_map_to_list & Heq)];
    (destruct (_ && _) eqn:E in Heq; [|done]); injection Heq as -> <- ->; bools; by subst.
Qed.

Lemma member_rows_NoDup s group db : NoDup (member_rows s group db).
Proof.
  unfold member_rows. apply list.NoDup_app. split_and!.
  - apply omap_NoDup; [|apply NoDup_elements].
    intros [[g u] r] [[g' u'] r'] y Hx Hy. run_ok. bools. by simplify_eq.
  - intros x ([[g u] r] & _ & E)%list_elem_of_omap ([c [p r']] & _ & E')%list_elem_of_omap.
    destruct (_ && _) in E; [|done]. destruct (_ && _) in E'; [|done]. simplify_eq.
  - apply omap_NoDup; [|apply NoDup_map_to_list].
    intros [c [p r]] [c' [p' r']] y Hx Hy. run_ok. bools. by simplify_eq.
Qed.

(** Listing rows in order, then keeping some, is keeping them, then listing. *)
Lemma sort_filter_rows (P : MemberRow -> bool) l :
  sort_by member_row_leb (filter (fun row => P row = true) l)
  = filter (fun row => P row = true) (sort_by member_row_leb l).
Proof.
  apply (StronglySorted_unique (fun a b => member_row_leb a b = true)).
  - apply sort_by_StronglySorted; [apply member_row_leb_total|apply member_row_leb_trans].
  - apply StronglySorted_filter, sort_by_StronglySorted; [apply member_row_leb_total|apply member_row_leb_trans].
  - by rewrite !sort_by_Permutation.
Qed.

(** No member is both a person and a group, so the keyset order is strict. *)
Lemma member_rows_ordered s group db :
  db_inv db -> StronglySorted row_before (sort_by member_row_leb (member_rows s group db)).
Proof.
  intros Hinv. set (l := sort_by _ _).
  assert (Hs : StronglySorted (fun a b => member_row_leb a b = true) l).
  { apply sort_by_StronglySorted; [apply member_row_leb_total|apply member_row_leb_trans]. }
  assert (Hnd : NoDup l) by apply sort_by_NoDup, member_rows_NoDup.
  assert (Hin : forall x, x ∈ l -> x ∈ member_rows s group db) by (intros x; apply sort_by_elem_of).
  clearbody l. induction Hs as [|x l Hl IH Hx]; [constructor|].
  apply list.NoDup_cons in Hnd as [Hnx Hnd]. constructor; [apply IH; [done|set_solver]|].
  rewrite Forall_forall in *. intros y Hy. pose proof (Hx y Hy) as Hle. apply list_elem_of_In in Hy.
  destruct x as [[m g] r], y as [[m' g'] r']. apply row_before_iff. apply member_row_leb_iff in Hle. cbn in *.
  destruct Hle as [?|[<- [[-> ->]|[<- Hle]]]]; [tauto| |].
  - exfalso. pose proof (elem_of_member_rows _ _ _ _ _ _ (Hin _ ltac:(left))) as [_ Hn]%(inv_membership _ Hinv).
    pose proof (elem_of_member_rows _ _ _ _ _ _ (Hin _ ltac:(right; exact Hy))) as [? _]%(inv_edge _ Hinv). done.
  - right. split; [done|]. destruct (N.eq_dec (relation_index r) (relation_index r')) as [E|]; [|lia].
    apply relation_index_inj in E as ->. done.
Qed.

Lemma filter_after pre x suf :
  StronglySorted row_before (pre ++ x :: suf) ->
  filter (fun row => after_row (Some (member_of_row x)) row = true) (pre ++ x :: suf) = suf.
Proof.
  intros [Hcross [_ [_ Hall]%StronglySorted_inv]]%StronglySorted_app. rewrite list.filter_app, filter_cons_False.
  - rewrite list_filter_none, list_filter_all; [done| |].
    + intros y Hy. rewrite Forall_forall in Hall. by apply Hall, list_elem_of_In.
    + intros y Hy Hxy%row_before_iff. specialize (Hcross y x Hy ltac:(left)). apply row_before_iff in Hcross. lia.
  - intros Hxx%row_before_iff. lia.
Qed.

(** Reading a group's members page by page, each page resumed from the last
    member of the one before, yields every visible member of the full listing
    once and in its order; pages of at least one member, as many as there are
    members, are enough. *)
Theorem member_pages_cover `{PgText} (db : GroupDb) (s : PgSession) (group : GroupId) (limit fuel : nat)
    (Hreach : rtc group_write empty_db db) (Hlimit : 0 < limit)
    (Hfuel : length (list_group_members s group db) <= fuel) :
  member_pages fuel s group limit None db = list_group_members s group db.
Proof.
  unfold list_group_members in *. pose proof (member_rows_ordered s group db (reachable_inv _ Hreach)) as Hs.
  cut (forall pre suf after, sort_by member_row_leb (member_rows s group db) = pre ++ suf ->
    filter (fun row => after_row after row = true) (pre ++ suf) = suf -> length suf <= fuel ->
    member_pages fuel s group limit after db = member_of_row <$> suf).
  { intros Hcut. apply (Hcut [] _ None); [done|by apply list_filter_all|by rewrite length_fmap in Hfuel]. }
  clear Hfuel. induction fuel as [|fuel IH]; intros pre suf after Hl Haft Hlen;
    cbn [member_pages]; unfold list_group_members_page; rewrite sort_filter_rows, Hl, Haft, <- fmap_take, take_take.
  - destruct suf; [by rewrite take_nil|cbn in Hlen; lia].
  - rewrite Nat.min_l by lia. rewrite length_fmap, length_take.
    destruct (Nat.ltb_spec limit (Nat.min (S limit) (length suf))) as [Hmore|Hmore].
    + rewrite <- (take_drop limit suf) at 3. rewrite fmap_app. f_equal.
      destruct (take limit suf) as [|] eqn:E using rev_ind; [apply (f_equal length) in E; rewrite length_take in E; cbn in E; lia|].
      rewrite fmap_app, last_app. cbn.
      rewrite Hl in Hs. rewrite <- (take_drop limit suf), E, <- !app_assoc in Hs. cbn in Hs.
      apply (IH (pre ++ l ++ [x])); [|rewrite <- !app_assoc; cbn|rewrite length_drop; lia].
      * rewrite Hl, <- (take_drop limit suf) at 1. by rewrite E, <- !app_assoc.
      * rewrite !(app_assoc pre) in *. by apply filter_after.
    + rewrite take_ge; [done|lia].
Qed.

(** What a membership write does.  Adding leaves the members as they were plus
    the new one, and answers AlreadyPresent exactly for a relation already held;
    removing takes away the named relation, or all of the member's relations in
    that group, and nothing else; replacing needs the old relation and exchanges
    it for the new one in one step. *)
Theorem membership_writes_exact `{PgText} (db : GroupDb) (s : PgSession) (group : GroupId) (member : OwnerId)
    (Hreach : rtc group_write empty_db db) :
  (forall r authority db' outcome,
     add_group_member_on_connection_authorized s group member r authority db = Ok (db', outcome) ->
     (forall g m r', holds db' g m r' <-> holds db g m r' \/ (g, m, r') = (group, member, r)) /\
     (outcome = AlreadyPresent <-> holds db group member r)) /\
  (forall relation ma ea db',
     remove_on_connection_authorized s group member relation ma ea db = Ok db' ->
     memberships_write s (GroupId_0 group) = true \/ registered_group db (OwnerId_0 member) = true ->
     forall g m r, holds db' g m r <->
       holds db g m r /\ ~ ((g, m) = (group, member) /\ relation_is relation r = true)) /\
  (forall from to db',
     replace_group_member_relation_on_connection s group member from to db = Ok db' ->
     holds db group member from /\
     forall g m r, holds db' g m r <->
       (holds db g m r /\ (g, m, r) <> (group, member, from)) \/ (g, m, r) = (group, member, to)).
Proof.
  split_and!; intros.
  - by eapply add_exact.
  - by eapply remove_exact.
  - by eapply replace_exact.
Qed.

(** A committed change of the port ran in the session of its permit's scope. *)
Lemma guarded_committed `{PgText} {A} check clock scope
    (body : PgSession -> GroupDb -> result (GroupDb * A) StorageError) db db' a :
  guarded check (owner_transaction clock (Some scope) body) db = (db', Ok a) ->
  exists s, bind_owner_scope clock scope = Ok s /\ body s db = Ok (db', a).
Proof.
  unfold guarded. destruct check; [|done]. unfold owner_transaction. cbn.
  destruct (bind_owner_scope clock scope) as [s|]; [|done].
  destruct (body s db) as [[db1 b]|] eqn:E; [|done]. intros [= <- <-]. eauto.
Qed.

(** A caller who can read a group never takes its last manager away.  A
    removal or replacement that commits leaves a group that somebody managed
    with somebody who manages it, and the caller the permit names managed the
    group when the change was made. *)
Lemma last_manager_is_kept `{PgText} (clock : nat -> SystemTime) (permit : MembershipWritePermit)
    (scope : OwnerScope) (group : GroupId) (member : OwnerId) (db db' : GroupDb) (u : UserId)
    (Hreach : rtc group_write empty_db db)
    (Hscope : permit_owner_scope (mwp_owner permit) = Some scope)
    (Hsees : OwnerScope.may_read (clock 1) scope (OwnerId.from_group group) KFact = true)
    (Hcall : (exists relation, remove_group_member clock permit group member relation db = (db', Ok tt)) \/
             (exists from to, replace_group_member_relation clock permit group member from to db = (db', Ok tt)))
    (Hmanager : manages_group db u group) :
  (exists u', manages_group db' u' group) /\
  (forall caller, mwp_caller permit = Some caller -> manages_group db caller group).
Proof.
  assert (Hinv' : db_inv db').
  { apply reachable_inv. eapply rtc_r; [done|].
    destruct Hcall as [(relation & Hc)|(from & to & Hc)]; apply (f_equal fst) in Hc; cbn in Hc; subst db'; constructor. }
  assert (Hread : forall s, bind_owner_scope clock scope = Ok s -> projection_read s (GroupId_0 group) = true).
  { intros s (_ & Ho & _)%bind_owner_scope_Ok. apply Ho in Hsees. unfold projection_read, admits.
    cbn in Hsees. rewrite Hsees, orb_true_r. done. }
  apply reachable_inv in Hreach.
  destruct Hcall as [(relation & Hc)|(from & to & Hc)];
    [unfold remove_group_member in Hc|unfold replace_group_member_relation in Hc]; rewrite Hscope in Hc;
    apply guarded_committed in Hc as (s & Hs & Hc); eapply manager_preserving_keeps in Hc; eauto.
Qed.

(** Whether a scope's role for an owner manages it. *)
Definition scope_manages (scope : OwnerScope) (owner : Uuid) : Prop :=
  is_some_and (OwnerScope.role_for_owner scope (mk_OwnerId owner)) Role.manages = true.

Lemma admits_manage clock scope s x :
  bind_owner_scope clock scope = Ok s -> admits s (app_manage_owner s) x = true -> scope_manages scope x.
Proof.
  intros (Hp & _ & Hm)%bind_owner_scope_Ok. unfold admits. rewrite Hp. apply (Hm (mk_OwnerId x)).
Qed.

(** A write of the membership port stays within what its scope manages.
    Whatever permit it carries, it changes memberships only of groups the scope
    manages; it attaches a group only when the scope manages both ends, and
    detaches or changes one only when it manages at least one of them. *)
Theorem owner_scope_confines_writes `{PgText} (clock : nat -> SystemTime) (permit : MembershipWritePermit)
    (scope : OwnerScope) (group : GroupId) (member : OwnerId) (db db' : GroupDb)
    (Hscope : permit_owner_scope (mwp_owner permit) = Some scope)
    (Hcall : (exists r, db' = (add_group_member clock permit group member r db).1) \/
             (exists relation, db' = (remove_group_member clock permit group member relation db).1) \/
             (exists from to, db' = (replace_group_member_relation clock permit group member from to db).1)) :
  (forall g u r, scope_manages scope g \/ ((g, u, r) ∈ db_memberships db' <-> (g, u, r) ∈ db_memberships db)) /\
  (forall c p r, db_edges db' !! c = Some (p, r) ->
     db_edges db !! c = Some (p, r) \/ (scope_manages scope p /\ scope_manages scope c)) /\
  (forall c p r, db_edges db !! c = Some (p, r) ->
     db_edges db' !! c = Some (p, r) \/ scope_manages scope p \/ scope_manages scope c).
Proof.
  cut (db' = db \/ exists s, bind_owner_scope clock scope = Ok s /\ confined s db db').
  { intros [->|(s & Hs & [Hm Hn Hg])]; [tauto|]. pose proof (fun x => admits_manage _ _ _ x Hs) as Ha. split_and!.
    - intros g v r. destruct (Hm g v r); [left; by apply Ha|by right].
    - intros c p r [?|[? ?]%andb_true_iff]%Hn; auto.
    - intros c p r [?|[?|?]%orb_true_iff]%Hg; auto. }
  destruct Hcall as [(r & ->)|[(relation & ->)|(from & to & ->)]];
    [unfold add_group_member|unfold remove_group_member|unfold replace_group_member_relation];
    rewrite Hscope; unfold guarded; (destruct (_ permit group) || destruct (_ permit group member)); try (by left);
    match goal with |- context [owner_transaction ?c ?sc ?b db] =>
      destruct (owner_transaction_cases c sc b db) as [(s & a' & Hs & Hb & _)|[-> _]]; [|by left] end;
    cbn in Hs; right; exists s; (split; [done|]); apply statements_confined.
  - by eapply add_statements.
  - eapply manager_preserving_statements, Hb. intros. by eapply remove_statements.
  - eapply manager_preserving_statements, Hb. intros. by eapply replace_statements.
Qed.

(** ** Witnesses *)

#[local] Instance sample_pg_text : PgText := fun _ => [].
#[local] Instance sample_uuid_text : UuidText := {| hyphenated := fun _ => []; try_parse := fun _ => None |}.

(** Group 10 with admin 1, group 20 with admins 2 and 3, and group 20 attached to
    group 10 as an editor. *)
Definition sample_groups : GroupDb :=
  (bootstrap_group_admin (mk_GroupId 20) (mk_UserId 2)
     (bootstrap_group_admin (mk_GroupId 10) (mk_UserId 1) empty_db).1).1.

Definition sample_added (member : OwnerId) (group : N) (r : Relation) (db : GroupDb) : GroupDb :=
  match add_group_member_on_connection_authorized platform_session (mk_GroupId group) member r
          CallerManagesMember db with
  | Ok (db', _) => db'
  | Err _ => db
  end.

Definition sample_nested : GroupDb :=
  sample_added (mk_OwnerId 3) 20 RAdmin (sample_added (mk_OwnerId 20) 10 REditor sample_groups).

Lemma sample_added_write member group r db : rtc group_write db (sample_added member group r db).
Proof.
  unfold sample_added. destruct (add_group_member_on_connection_authorized _ _ _ _ _ _) as [[db' o]|] eqn:E; [|done].
  eapply rtc_once, gw_add_on_connection, E.
Qed.

Lemma sample_reach : rtc group_write empty_db sample_nested.
Proof.
  unfold sample_nested. etrans; [|apply sample_added_write]. etrans; [|apply sample_added_write].
  eapply rtc_l; [apply gw_bootstrap|]. eapply rtc_once, gw_bootstrap.
Qed.

Lemma group_tables_invariant_witness :
  db_edges sample_nested !! 20%N = Some (10%N, REditor) /\
  registered_group sample_nested 20 = true /\ registered_group sample_nested 10 = true.
Proof.
  split; [by vm_compute|].
  apply (proj1 (proj2 (group_tables_invariant sample_nested sample_reach)) 20%N 10%N REditor). by vm_compute.
Defined.

Lemma stored_roles_are_inherited_witness :
  group_role platform_session (mk_UserId 2) (mk_GroupId 10) sample_nested = Ok (Some Role.editor) /\
  exists roles, roles_for_subject platform_session (mk_UserId 2) sample_nested = Ok roles.
Proof.
  split; [by vm_compute|].
  destruct (stored_roles_are_inherited sample_nested (mk_UserId 2) sample_reach) as (roles & Hr & _); [by vm_compute|].
  by exists roles.
Defined.

Lemma member_pages_cover_witness :
  member_pages 5 platform_session (mk_GroupId 20) 1 None sample_nested
  = [(mk_OwnerId 2, RAdmin); (mk_OwnerId 3, RAdmin)].
Proof.
  rewrite (member_pages_cover sample_nested platform_session (mk_GroupId 20) 1 5 sample_reach);
    [by vm_compute|lia|apply Nat.leb_le; by vm_compute].
Defined.

Lemma membership_writes_exact_witness :
  exists db', replace_group_member_relation_on_connection platform_session (mk_GroupId 20) (mk_OwnerId 3) RAdmin RViewer
    sample_nested = Ok db' /\ holds db' (mk_GroupId 20) (mk_OwnerId 3) RViewer.
Proof.
  destruct (replace_group_member_relation_on_connection platform_session (mk_GroupId 20) (mk_OwnerId 3) RAdmin RViewer
    sample_nested) as [db'|] eqn:E; [|by vm_compute in E].
  exists db'. split; [done|].
  destruct (membership_writes_exact sample_nested platform_session (mk_GroupId 20) (mk_OwnerId 3) sample_reach) as (_ & _ & H).
  destruct (H _ _ _ E) as [_ Hh]. apply Hh. by right.
Defined.

(** The permit of manager 2 over group 20. *)
Definition sample_scope : OwnerScope :=
  OwnerScope.from_verified_roles (OwnerRoles.scoped_to (mk_UserId 2) (mk_OwnerId 20) Role.admin) None
    (mk_WriterAttribution 2 None).

Definition sample_permit : MembershipWritePermit :=
  MembershipWritePermit.with_caller
    (MembershipWritePermit.new (OwnerWritePermit.new (mk_OwnerId 20) KGoal (Some sample_scope)) (mk_OwnerId 20)
       CallerDoesNotManageMember EndpointParent) (mk_UserId 2).

Lemma owner_scope_confines_writes_witness :
  (10%N, 1%N, RAdmin) ∈ db_memberships
    (remove_group_member (fun _ => 0%Z) sample_permit (mk_GroupId 20) (mk_OwnerId 3) None sample_nested).1 <->
  (10%N, 1%N, RAdmin) ∈ db_memberships sample_nested.
Proof.
  destruct (owner_scope_confines_writes (fun _ => 0%Z) sample_permit sample_scope (mk_GroupId 20) (mk_OwnerId 3)
    sample_nested _ eq_refl (or_intror (or_introl (ex_intro _ None eq_refl)))) as (H & _ & _).
  destruct (H 10%N 1%N RAdmin) as [Hm|]; [by vm_compute in Hm|done].
Defined.
