(* ===== verification/Membership.v ===== *)
(** * Membership administration

    [crates/core/src/engine/access_admin.rs]: the verbs that add, remove and
    replace members, list them, seed a group's first admin and transfer a memory
    to another owner.  Each is an authorization sequence in front of a storage
    port; the port is the interface [OwnerMembershipAdminPort], and the Postgres
    adapter of Groups.v is an instance of it.  A verb threads the store, the
    observations it made and its answer. *)

From S2P Require Import Prelude Ids Access GroupForest Publication Errors OwnerScope Authz Engine Groups.

(** ** Verbs *)

(** Store to store, observations and answer. *)
Definition Verb (S A : Type) : Type := S -> S * (list Observation * result A ProtocolError).

Definition done_with {S A} (answer : result A ProtocolError) : Verb S A := fun st => (st, ([], answer)).

Definition audited {S A} (a : Audited (result A ProtocolError)) : Verb S A := fun st => (st, a).

Definition then_do {S A B} (v : Verb S A) (k : A -> Verb S B) : Verb S B :=
  fun st =>
    let '(st, (log, answer)) := v st in
    match answer with
    | Err e => (st, (log, Err e))
    | Ok a => let '(st, (log', answer)) := k a st in (st, (log ++ log', answer))
    end.

(** A read and a write of the store. *)
Definition reading {S A} (f : S -> result A ProtocolError) : Verb S A := fun st => (st, ([], f st)).

Definition writing {S A} (f : S -> S * result A StorageError) (map : StorageError -> ProtocolError) : Verb S A :=
  fun st => let (st, answer) := f st in (st, ([], map_err map answer)).

Declare Scope verb_scope.
Notation "'let!' x ':=' c 'in' k" := (then_do c (fun x => k))
  (at level 10, x pattern, c at level 100, k at level 200) : verb_scope.
Open Scope verb_scope.

(** ** Ports *)

(** [OwnerMembershipAdminPort], with the two default bodies left to instances. *)
Class OwnerMembershipAdminPort (S : Type) := {
  port_bootstrap_group_admin : GroupId -> UserId -> Uuid -> S -> S * result unit StorageError;
  port_add_group_member :
    MembershipWritePermit -> GroupId -> OwnerId -> Relation -> Uuid -> S -> S * result unit StorageError;
  port_remove_group_member : MembershipWritePermit -> GroupId -> OwnerId -> S -> S * result unit StorageError;
  port_remove_group_member_relation :
    MembershipWritePermit -> GroupId -> OwnerId -> Relation -> S -> S * result unit StorageError;
  port_replace_group_member_relation :
    MembershipWritePermit -> GroupId -> OwnerId -> Relation -> Relation -> Uuid -> S -> S * result unit StorageError;
  port_list_group_members :
    option OwnerScope -> GroupId -> S -> result (list (OwnerId * Relation)) StorageError;
  port_list_group_members_page :
    option OwnerScope -> GroupId -> option (OwnerId * Relation) -> nat -> S ->
    result (list (OwnerId * Relation)) StorageError;
}.

Inductive OwnerEraseTarget :=
| EraseGroupOwner (group_id : GroupId)
| ErasePersonalOwner (user_id : UserId) (drop_event_id : rstring)
| EraseGroupSourceScope (group_id : GroupId) (source_id : rstring)
| ErasePersonalSourceScope (user_id : UserId) (source_id drop_event_id : rstring).

(** What the other verbs ask: entity homes, stored memberships and the transfer
    of the store; the registry's untransferable schemas; the host's embedding
    route and erase authority. *)
Record AdminPorts (S Spaces : Type) := mk_AdminPorts {
  visible_home_owner : option OwnerScope -> EntityId -> list OwnerId -> S ->
    result (option (OwnerId * AccessKind * option SchemaId)) StorageError;
  stored_memberships : option OwnerScope -> OwnerId -> S -> result (list (GroupId * Role)) StorageError;
  transfer_entity : OwnerWritePermit -> EntityId -> OwnerId -> Spaces -> S -> S * result bool StorageError;
  untransferable_schema : SchemaId -> option rstring;
  embedding_route : OwnerId -> result Spaces rstring;
  erase_authority : option (AuthzContext -> OwnerEraseTarget -> result bool AccessError);
}.
Arguments visible_home_owner {S Spaces}.
Arguments stored_memberships {S Spaces}.
Arguments transfer_entity {S Spaces}.
Arguments untransferable_schema {S Spaces}.
Arguments embedding_route {S Spaces}.
Arguments erase_authority {S Spaces}.

Section verbs.
Context `{UuidText}.

(** ** Errors *)

Definition access_error_display (error : AccessError) : rstring :=
  match error with
  | WriteExceedsRead => str "write ceiling exceeds read ceiling"
  | DerivedOwnerOverride => str "personal roles are derived, not resolver-provided"
  | Resolution reason => str "owner access resolution failed: " ++ reason
  | SubjectIsGroup subject =>
      str "subject UserId(" ++ hyphenated (UserId_0 subject) ++ str ") is registered as a group owner"
  end.

Definition membership_storage_error (context : rstring) (err : StorageError) : ProtocolError :=
  map_write_storage_error err (str "membership") context.

Definition bootstrap_storage_error (err : StorageError) : ProtocolError :=
  map_write_storage_error err (str "group") (str "group not found").

Definition replace_storage_error (err : StorageError) : ProtocolError :=
  map_write_storage_error err (str "from") (str "group not found").

(** ** Authority of a membership change *)

Definition require_group_manage (authz : AuthzContext) (group_owner : OwnerId) : result unit ProtocolError :=
  if AuthzContext.may_manage authz group_owner then Ok tt
  else Err (ProtocolError.forbidden (str "requires manage on this owner")).

Definition member_manage_authority (authz : AuthzContext) (member : OwnerId) : MembershipMemberAuthority :=
  if AuthzContext.may_manage authz member then CallerManagesMember else CallerDoesNotManageMember.

Definition actor_uuid (authz : AuthzContext) : Uuid :=
  match AuthzContext.subject authz with
  | Some subject => UserId_0 subject
  | None => OwnerId_0 (AuthzContext.principal authz)
  end.

Definition with_parent_caller (permit : MembershipWritePermit) (authz : AuthzContext) : MembershipWritePermit :=
  match mwp_endpoint_authority permit, AuthzContext.subject authz with
  | EndpointParent, Some caller => MembershipWritePermit.with_caller permit caller
  | _, _ => permit
  end.

Definition veto_and_observe_access_admin (e : Engine) (authz : AuthzContext) (requested resolved : OwnerId)
    (operation : AuthzOperation) : Audited (result unit ProtocolError) :=
  let input := mk_AuthzInput authz requested resolved operation in
  match run_authorization_vetoes e input with
  | Ok _ => (run_authorization_observers e input Allowed, Ok tt)
  | Err err => (run_authorization_observers e input DeniedVeto, Err err)
  end.

(** The loop of a verb over several changes: the first veto ends it. *)
Fixpoint veto_changes {S} (e : Engine) (authz : AuthzContext) (group_owner resolved : OwnerId)
    (operations : list AuthzOperation) : Verb S unit :=
  match operations with
  | [] => done_with (Ok tt)
  | operation :: operations =>
      let! _ := audited (veto_and_observe_access_admin e authz group_owner resolved operation) in
      veto_changes e authz group_owner resolved operations
  end.

Definition authorize_membership_detach (now : SystemTime) (e : Engine) (authz : AuthzContext)
    (parent member : OwnerId) : Audited (result (WritePermit * MembershipEndpointAuthority) ProtocolError) :=
  let admin owner endpoint :=
    let '(log, permit) := authorize_owner_admin now e (OfContext authz) owner in
    (log, let? permit := permit in Ok (permit, endpoint)) in
  if AuthzContext.may_manage authz parent then admin parent EndpointParent
  else if AuthzContext.may_manage authz member then admin member EndpointMember
  else ([], Err (ProtocolError.forbidden (str "requires manage on the parent or attached group"))).

(** ** Membership verbs *)

Section membership.
Context {S : Type} `{OwnerMembershipAdminPort S}.

Definition add_member (now : SystemTime) (e : Engine) (authz : AuthzContext) (group : GroupId)
    (member : OwnerId) (relation : Relation) : Verb S unit :=
  let group_owner := OwnerId.from_group group in
  let! permit := audited (authorize_owner_admin now e (OfContext authz) group_owner) in
  let! _ := done_with (require_group_manage authz group_owner) in
  let! _ := audited (veto_and_observe_access_admin e authz group_owner (permit_owner (owner_write permit))
                       (OpMembership AddMember group member relation)) in
  let membership_permit :=
    MembershipWritePermit.new (owner_write permit) group_owner (member_manage_authority authz member)
      EndpointParent in
  writing (port_add_group_member membership_permit group member relation (actor_uuid authz))
    (membership_storage_error (str "add_group_member")).

(** The permit of a removal. *)
Definition detach_permit (authz : AuthzContext) (permit : WritePermit) (endpoint : MembershipEndpointAuthority)
    (group_owner member : OwnerId) : MembershipWritePermit :=
  with_parent_caller
    (MembershipWritePermit.new (owner_write permit) group_owner (member_manage_authority authz member) endpoint)
    authz.

Definition remove_member (now : SystemTime) (e : Engine) (authz : AuthzContext) (group : GroupId)
    (member : OwnerId) : Verb S unit :=
  let group_owner := OwnerId.from_group group in
  let! (permit, endpoint) := audited (authorize_membership_detach now e authz group_owner member) in
  let! members :=
    reading (fun st => map_err (internal_storage_error (str "list_group_members"))
                         (port_list_group_members (AuthzContext.owner_scope authz) group st)) in
  let current_relations :=
    omap (fun '(candidate, relation) => if bool_decide (candidate = member) then Some relation else None) members in
  let! _ := veto_changes e authz group_owner (permit_owner (owner_write permit))
              (OpMembership RemoveMember group member <$> current_relations) in
  writing (port_remove_group_member (detach_permit authz permit endpoint group_owner member) group member)
    (membership_storage_error (str "remove_group_member")).

Definition remove_member_relation (now : SystemTime) (e : Engine) (authz : AuthzContext) (group : GroupId)
    (member : OwnerId) (relation : Relation) : Verb S unit :=
  let group_owner := OwnerId.from_group group in
  let! (permit, endpoint) := audited (authorize_membership_detach now e authz group_owner member) in
  let! _ := audited (veto_and_observe_access_admin e authz group_owner (permit_owner (owner_write permit))
                       (OpMembership RemoveMember group member relation)) in
  writing (port_remove_group_member_relation (detach_permit authz permit endpoint group_owner member)
             group member relation)
    (membership_storage_error (str "remove_group_member_relation")).

Definition replace_member_relation (now : SystemTime) (e : Engine) (authz : AuthzContext) (group : GroupId)
    (member : OwnerId) (from to : Relation) : Verb S unit :=
  let group_owner := OwnerId.from_group group in
  let! permit := audited (authorize_owner_admin now e (OfContext authz) group_owner) in
  let! _ := done_with (require_group_manage authz group_owner) in
  if bool_decide (from = to)
  then done_with (Err (ProtocolError.invalid_argument (str "to")
                         (str "must differ from the relation being replaced")))
  else
    let! _ := veto_changes e authz group_owner (permit_owner (owner_write permit))
                [OpMembership RemoveMember group member from; OpMembership AddMember group member to] in
    writing (port_replace_group_member_relation (detach_permit authz permit EndpointParent group_owner member)
               group member from to (actor_uuid authz))
      replace_storage_error.

Record GroupMemberPage := mk_GroupMemberPage {
  page_members : list (OwnerId * Relation);
  page_has_more : bool;
}.

Definition list_members (now : SystemTime) (e : Engine) (authz : AuthzContext) (group : GroupId)
    (limit : nat) (after : option (OwnerId * Relation)) : Verb S GroupMemberPage :=
  let! _ := audited (authorize_owner_admin now e (OfContext authz) (OwnerId.from_group group)) in
  let! members :=
    reading (fun st => map_err (internal_storage_error (str "list_group_members_page"))
                         (port_list_group_members_page (AuthzContext.owner_scope authz) group after (limit + 1) st)) in
  done_with (Ok (mk_GroupMemberPage (take limit members) (limit <? length members))).

(** ** Bootstrap and transfer *)

Context {Spaces : Type} (ports : AdminPorts S Spaces).

(** [authority_for] and [erase_authority_grants]. *)
Definition erase_authority_grants (authz : AuthzContext) (target : OwnerEraseTarget) : result bool ProtocolError :=
  match AuthzContext.auth_path authz with
  | Delegated => Ok false
  | System => Ok true
  | HostBearer | Denied =>
      match erase_authority ports with
      | Some may_erase_owner =>
          map_err (fun e => ProtocolError.internal (str "may_erase_owner: " ++ access_error_display e))
            (may_erase_owner authz target)
      | None => Ok false
      end
  end.

(** [AuthzContext::for_subject(first_admin, System)], which does not panic
    ([bootstrap_member_authz_eq]). *)
Definition bootstrap_member_authz (first_admin : UserId) : AuthzContext :=
  AuthzContext.server_resolved (OwnerRoles.empty_for_subject first_admin) System.

Definition bootstrap_group_admin_verb (e : Engine) (authz : AuthzContext) (group : GroupId)
    (first_admin : UserId) : Verb S unit :=
  let! granted := done_with (erase_authority_grants authz (EraseGroupOwner group)) in
  if negb granted
  then done_with (Err (ProtocolError.forbidden (str "owner-erase authority authorization required")))
  else
    let group_owner := OwnerId.from_group group in
    let! _ := audited (veto_and_observe_access_admin e (bootstrap_member_authz first_admin)
                         group_owner group_owner
                         (OpMembership AddMember group (OwnerId.from_user first_admin) RAdmin)) in
    writing (port_bootstrap_group_admin group first_admin (UserId_0 first_admin)) bootstrap_storage_error.

Definition manage_refused : ProtocolError := ProtocolError.forbidden (str "requires manage on this owner").

Definition authorize_transfer_destination_out_of_band (authz : AuthzContext) (to_owner : OwnerId) : Verb S unit :=
  if bool_decide (AuthzContext.auth_path authz = Delegated) || bool_decide (AuthzContext.auth_path authz = Denied)
     || negb (AuthzContext.is_server_resolved authz) || is_some (ctx_forwarded_owner authz)
  then done_with (Err manage_refused)
  else
    match AuthzContext.subject authz with
    | None => done_with (Err manage_refused)
    | Some subject =>
        let! memberships :=
          reading (fun st => map_err (internal_storage_error (str "resolve_membership"))
                     (stored_memberships ports (AuthzContext.owner_scope authz) (OwnerId.from_user subject) st)) in
        let consents :=
          existsb (fun '(group, role) => bool_decide (OwnerId.from_group group = to_owner)
                                         && Role.administers role && Role.manages role) memberships in
        done_with (if consents : bool then Ok tt else Err manage_refused)
    end.

Definition authorize_transfer_destination (now : SystemTime) (e : Engine) (authz : AuthzContext)
    (to_owner : OwnerId) : Verb S unit :=
  if is_some (AuthzContext.role_for_owner authz to_owner) then
    let! _ := audited (authorize_owner_admin now e (OfContext authz) to_owner) in
    done_with (require_group_manage authz to_owner)
  else authorize_transfer_destination_out_of_band authz to_owner.

(** [TransferRule::refusal_headline]. *)
Definition refusal_headline (why : rstring) : rstring :=
  match split_once (chr ":") why with Some (head, _) => head | None => why end.

(** The schema's refusal, once both sides authorize. *)
Definition refuse_untransferable (schema : option SchemaId) : result unit ProtocolError :=
  match schema with
  | None => Ok tt
  | Some schema =>
      match untransferable_schema ports schema with
      | None => Ok tt
      | Some why =>
          Err (ProtocolError.invalid_argument (str "entity")
                 (str "memories of schema " ++ SchemaId_0 schema ++ str " do not transfer: " ++ refusal_headline why))
      end
  end.

(** Three clock reads: the first check, the source's gate and the destination's. *)
Definition transfer_to_owner (now now' now'' : SystemTime) (e : Engine) (authz : AuthzContext)
    (entity : EntityId) (to_owner : OwnerId) : Verb S unit :=
  let subject_owner := OwnerId.from_user <$> AuthzContext.subject authz in
  let! _ := done_with (operation_authority now e (OfContext authz)) in
  match entity with
  | EntityGoal _ => done_with (Err (ProtocolError.invalid_argument (str "entity") (str "goals do not transfer")))
  | EntityMemory _ =>
    if bool_decide (subject_owner = Some to_owner)
    then done_with (Err (ProtocolError.invalid_argument (str "to_owner")
           (str "transfer destination must be a group owner: receiving-side consent is group-manage authority, which no personal owner can grant")))
    else
      let! home :=
        reading (fun st => map_err (internal_storage_error (str "visible_home_owner"))
                   (visible_home_owner ports (AuthzContext.owner_scope authz) entity
                      (AuthzContext.readable_owners authz KFact) st)) in
      let! (current_owner, _, schema) := done_with (ok_or home (ProtocolError.not_found (str "entity not found"))) in
      let! permit := audited (authorize_owner_admin now' e (OfContext authz) current_owner) in
      let! _ := done_with (if bool_decide (subject_owner = Some current_owner) then Ok tt
                           else require_group_manage authz current_owner) in
      let! _ := authorize_transfer_destination now'' e authz to_owner in
      let! _ := done_with (refuse_untransferable schema) in
      let permit := OwnerWritePermit.authorize_transfer_to (owner_write permit) to_owner in
      if bool_decide (current_owner = to_owner)
      then done_with (Err (ProtocolError.invalid_argument (str "to_owner")
                             (str "transfer destination is already the current owner")))
      else
        let! _ := audited (veto_and_observe_access_admin e authz current_owner (permit_owner permit)
                             (OpEntityTransfer entity to_owner)) in
        let! spaces := done_with (map_err (const (ProtocolError.internal (str "no embedding route for this owner")))
                                    (embedding_route ports to_owner)) in
        let! transferred := writing (transfer_entity ports permit entity to_owner spaces)
                              (internal_storage_error (str "transfer_to_owner")) in
        done_with (if transferred : bool then Ok tt
                   else Err (ProtocolError.not_found (str "entity owner changed concurrently")))
  end.

End membership.
End verbs.

Lemma bootstrap_member_authz_eq first_admin :
  AuthzContext.for_subject first_admin System = Some (bootstrap_member_authz first_admin).
Proof. done. Qed.

(** ** The Postgres port *)

(** [PgStorage] as the port; the clocks are those of its reads and of its
    writes. *)
Section pg.
Context `{PgText} (read_clock write_clock : nat -> SystemTime).

(** A read in the session of a scope. *)
Definition owner_read {A} (scope : option OwnerScope) (f : PgSession -> A) : result A StorageError :=
  let? scope := require_owner_scope scope in
  let? s := bind_owner_scope read_clock scope in
  Ok (f s).

#[export] Instance PgStorage_membership : OwnerMembershipAdminPort GroupDb := {|
  port_bootstrap_group_admin group first_admin _ := bootstrap_group_admin group first_admin;
  port_add_group_member permit group member relation _ db :=
    let (db, answer) := add_group_member write_clock permit group member relation db in
    (db, let? _ := answer in Ok tt);
  port_remove_group_member permit group member := remove_group_member write_clock permit group member None;
  port_remove_group_member_relation permit group member relation :=
    remove_group_member write_clock permit group member (Some relation);
  port_replace_group_member_relation permit group member from to _ :=
    replace_group_member_relation write_clock permit group member from to;
  port_list_group_members scope group db := owner_read scope (fun s => list_group_members s group db);
  port_list_group_members_page scope group after limit db :=
    owner_read scope (fun s => list_group_members_page s group after limit db);
|}.

End pg.

(** ** The verbs, specified *)

(** One membership change as a request. *)
Inductive MembershipRequest :=
| RequestAdd (relation : Relation)
| RequestRemove
| RequestRemoveRelation (relation : Relation)
| RequestReplace (from to : Relation).

Section specification.
Context `{UuidText} {S : Type} {port : OwnerMembershipAdminPort S}.

Definition perform (now : SystemTime) (e : Engine) (authz : AuthzContext) (group : GroupId) (member : OwnerId)
    (request : MembershipRequest) : Verb S unit :=
  match request with
  | RequestAdd relation => add_member now e authz group member relation
  | RequestRemove => remove_member now e authz group member
  | RequestRemoveRelation relation => remove_member_relation now e authz group member relation
  | RequestReplace from to => replace_member_relation now e authz group member from to
  end.

(** The port call a request stands for, and the error it maps to. *)
Definition port_call (authz : AuthzContext) (permit : MembershipWritePermit) (group : GroupId) (member : OwnerId)
    (request : MembershipRequest) : S -> S * result unit StorageError :=
  match request with
  | RequestAdd relation => port_add_group_member permit group member relation (actor_uuid authz)
  | RequestRemove => port_remove_group_member permit group member
  | RequestRemoveRelation relation => port_remove_group_member_relation permit group member relation
  | RequestReplace from to => port_replace_group_member_relation permit group member from to (actor_uuid authz)
  end.

Definition request_error (request : MembershipRequest) : StorageError -> ProtocolError :=
  match request with
  | RequestAdd _ => membership_storage_error (str "add_group_member")
  | RequestRemove => membership_storage_error (str "remove_group_member")
  | RequestRemoveRelation _ => membership_storage_error (str "remove_group_member_relation")
  | RequestReplace _ _ => replace_storage_error
  end.

(** The changes the hooks are asked about: a removal of all relations asks about
    each relation the listing shows. *)
Definition announced (authz : AuthzContext) (group : GroupId) (member : OwnerId) (request : MembershipRequest)
    (st : S) : result (list AuthzOperation) ProtocolError :=
  match request with
  | RequestAdd relation => Ok [OpMembership AddMember group member relation]
  | RequestRemove =>
      let? members := map_err (internal_storage_error (str "list_group_members"))
                        (port_list_group_members (AuthzContext.owner_scope authz) group st) in
      Ok (OpMembership RemoveMember group member <$>
            omap (fun '(candidate, relation) => if bool_decide (candidate = member) then Some relation else None)
              members)
  | RequestRemoveRelation relation => Ok [OpMembership RemoveMember group member relation]
  | RequestReplace from to =>
      Ok [OpMembership RemoveMember group member from; OpMembership AddMember group member to]
  end.

Definition is_removal (request : MembershipRequest) : bool :=
  match request with RequestRemove | RequestRemoveRelation _ => true | _ => false end.

(** The owner whose gate an endpoint passes. *)
Definition endpoint_owner (group : GroupId) (member : OwnerId) (endpoint : MembershipEndpointAuthority) : OwnerId :=
  match endpoint with EndpointParent => OwnerId.from_group group | EndpointMember => member end.

(** Who may make a request: the caller manages the group, or, to leave it, the
    attached member; and the owner-admin gate there lets them through. *)
Record request_permitted (e : Engine) (authz : AuthzContext) (group : GroupId) (member : OwnerId)
    (request : MembershipRequest) (endpoint : MembershipEndpointAuthority) (resolved : OwnerId) : Prop := {
  permitted_manages : AuthzContext.may_manage authz (endpoint_owner group member endpoint) = true;
  permitted_endpoint : endpoint = EndpointMember ->
    is_removal request = true /\ AuthzContext.may_manage authz (OwnerId.from_group group) = false;
  permitted_gate : gate_permits e authz (endpoint_owner group member endpoint) OpOwnerAdmin false resolved;
  permitted_distinct : forall from to, request = RequestReplace from to -> from <> to;
}.

(** The permit the store is handed: the gated owner under the caller's own scope,
    with the caller named for a removal or replacement on parent authority. *)
Definition request_permit (authz : AuthzContext) (group : GroupId) (member : OwnerId)
    (request : MembershipRequest) (endpoint : MembershipEndpointAuthority) (resolved : OwnerId) :
    MembershipWritePermit :=
  mk_MembershipWritePermit (OwnerWritePermit.new resolved KGoal (AuthzContext.owner_scope authz))
    (OwnerId.from_group group) (member_manage_authority authz member) endpoint
    (match request, endpoint with
     | RequestAdd _, _ | _, EndpointMember => None
     | _, EndpointParent => AuthzContext.subject authz
     end).

Definition unvetoed (e : Engine) (authz : AuthzContext) (group : GroupId) (resolved : OwnerId)
    (operations : list AuthzOperation) : Prop :=
  Forall (fun operation =>
    run_authorization_vetoes e (mk_AuthzInput authz (OwnerId.from_group group) resolved operation) = Ok tt) operations.

(** What the hooks are told of a request that reaches the store: the gate's
    decision, then every change as allowed. *)
Definition request_trail (e : Engine) (authz : AuthzContext) (group : GroupId) (member : OwnerId)
    (endpoint : MembershipEndpointAuthority) (resolved : OwnerId) (operations : list AuthzOperation) :
    list Observation :=
  (gate e authz (endpoint_owner group member endpoint) OpOwnerAdmin false).1 ++
  (operations ≫= fun operation =>
     run_authorization_observers e (mk_AuthzInput authz (OwnerId.from_group group) resolved operation) Allowed).

(** A verb that answers an error without touching the store. *)
Definition refused {A} (st : S) (run : S * (list Observation * result A ProtocolError)) : Prop :=
  run.1 = st /\ exists err, run.2.2 = Err err.

(** ** The verbs, case by case *)

Lemma owner_admin_cases now e authz owner :
  (exists resolved, gate_permits e authz owner OpOwnerAdmin false resolved /\
     authorize_owner_admin now e (OfContext authz) owner
     = ((gate e authz owner OpOwnerAdmin false).1,
        Ok (mk_WritePermit (OwnerWritePermit.new resolved KGoal (AuthzContext.owner_scope authz))))) \/
  ((forall resolved, ~ gate_permits e authz owner OpOwnerAdmin false resolved) /\
   exists log err, authorize_owner_admin now e (OfContext authz) owner = (log, Err err)).
Proof.
  setoid_rewrite <-gate_Ok. unfold authorize_owner_admin, write_permit, operation_authority, context_for_engine_operation.
  case_bool_decide as Hd; cbn.
  - right. split; [|by repeat eexists]. intros resolved [Hr]%gate_Ok. by apply Hr in Hd.
  - destruct (gate e authz owner OpOwnerAdmin false) as [log [resolved|err]]; cbn; [left; eauto|right].
    split; [by intros|by repeat eexists].
Qed.

Lemma veto_changes_cases e authz group resolved operations (st : S) :
  (unvetoed e authz group resolved operations /\
   veto_changes e authz (OwnerId.from_group group) resolved operations st
   = (st, (operations ≫= fun operation => run_authorization_observers e
             (mk_AuthzInput authz (OwnerId.from_group group) resolved operation) Allowed, Ok tt))) \/
  (~ unvetoed e authz group resolved operations /\
   exists log err, veto_changes e authz (OwnerId.from_group group) resolved operations st = (st, (log, Err err))).
Proof.
  unfold unvetoed. induction operations as [|operation operations IH]; cbn; [by left|].
  rewrite list.Forall_cons. unfold then_do, audited, veto_and_observe_access_admin.
  destruct (run_authorization_vetoes e _) as [[]|err] eqn:Hv.
  - destruct IH as [(Hu & ->)|(Hu & log & err & ->)]; [by left|]. right. split; [tauto|by repeat eexists].
  - right. split; [by intros [[=] _]|by repeat eexists].
Qed.

Lemma veto_and_observe_one {A} e authz group resolved operation (k : unit -> Verb S A) st :
  then_do (audited (veto_and_observe_access_admin e authz (OwnerId.from_group group) resolved operation)) k st
  = then_do (veto_changes e authz (OwnerId.from_group group) resolved [operation]) k st.
Proof.
  unfold then_do, audited, veto_changes, then_do, done_with.
  destruct (veto_and_observe_access_admin _ _ _ _ _) as [log [[]|err]]; [|done]. cbn. by rewrite app_nil_r.
Qed.

(** The changes put to the hooks, then the write. *)
Lemma veto_then_write e authz group resolved operations (f : S -> S * result unit StorageError) map st :
  let run := then_do (veto_changes e authz (OwnerId.from_group group) resolved operations)
               (fun _ => writing f map) st in
  (unvetoed e authz group resolved operations /\
   run = ((f st).1, (operations ≫= fun operation => run_authorization_observers e
            (mk_AuthzInput authz (OwnerId.from_group group) resolved operation) Allowed, map_err map (f st).2))) \/
  (~ unvetoed e authz group resolved operations /\ refused st run).
Proof.
  cbn. unfold then_do, writing, refused.
  destruct (veto_changes_cases e authz group resolved operations st) as [(Hu & ->)|(Hu & log & err & ->)].
  - left. destruct (f st) as [st' answer]; cbn. by rewrite app_nil_r.
  - right. split; [done|]. by cbn; eauto.
Qed.

(** The endpoint and the gate a request needs, whichever verb makes it. *)
Definition endpoint_permitted (e : Engine) (authz : AuthzContext) (group : GroupId) (member : OwnerId)
    (removal : bool) (endpoint : MembershipEndpointAuthority) (resolved : OwnerId) : Prop :=
  AuthzContext.may_manage authz (endpoint_owner group member endpoint) = true /\
  (endpoint = EndpointMember -> removal = true /\ AuthzContext.may_manage authz (OwnerId.from_group group) = false) /\
  gate_permits e authz (endpoint_owner group member endpoint) OpOwnerAdmin false resolved.

Lemma request_permitted_iff e authz group member request endpoint resolved :
  request_permitted e authz group member request endpoint resolved <->
  endpoint_permitted e authz group member (is_removal request) endpoint resolved /\
  forall from to, request = RequestReplace from to -> from <> to.
Proof. unfold endpoint_permitted. split; [by intros []|]. by intros [(? & ? & ?) ?]; constructor. Qed.

Lemma endpoint_permitted_unique e authz group member removal endpoint resolved endpoint' resolved' :
  endpoint_permitted e authz group member removal endpoint resolved ->
  endpoint_permitted e authz group member removal endpoint' resolved' ->
  endpoint' = endpoint /\ resolved' = resolved.
Proof.
  intros (Hm & He & Hg) (Hm' & He' & Hg').
  assert (endpoint' = endpoint) as ->.
  { destruct endpoint, endpoint'; try done; cbn in *; naive_solver congruence. }
  split; [done|]. apply gate_Ok in Hg, Hg'. congruence.
Qed.

Lemma detach_cases now e authz group member :
  (exists endpoint resolved, endpoint_permitted e authz group member true endpoint resolved /\
     authorize_membership_detach now e authz (OwnerId.from_group group) member
     = ((gate e authz (endpoint_owner group member endpoint) OpOwnerAdmin false).1,
        Ok (mk_WritePermit (OwnerWritePermit.new resolved KGoal (AuthzContext.owner_scope authz)), endpoint))) \/
  ((forall endpoint resolved, ~ endpoint_permitted e authz group member true endpoint resolved) /\
   exists log err, authorize_membership_detach now e authz (OwnerId.from_group group) member = (log, Err err)).
Proof.
  unfold authorize_membership_detach, endpoint_permitted.
  destruct (AuthzContext.may_manage authz (OwnerId.from_group group)) eqn:Hp.
  - destruct (owner_admin_cases now e authz (OwnerId.from_group group)) as [(r & Hr & ->)|(Hr & log & err & ->)].
    + left. exists EndpointParent, r. by split_and!.
    + right. split; [|by repeat eexists]. intros [] r (Hm & He & Hg); [by eapply Hr|by destruct He].
  - destruct (AuthzContext.may_manage authz member) eqn:Hm.
    + destruct (owner_admin_cases now e authz member) as [(r & Hr & ->)|(Hr & log & err & ->)].
      * left. exists EndpointMember, r. by split_and!.
      * right. split; [|by repeat eexists]. intros [] r (Hm' & He & Hg); [cbn in *; congruence|by eapply Hr].
    + right. split; [|by repeat eexists]. intros [] r (Hm' & _); cbn in *; congruence.
Qed.

(** The run of a request that reaches the port with its permit. *)
Definition delivered (e : Engine) (authz : AuthzContext) (group : GroupId) (member : OwnerId)
    (request : MembershipRequest) (st : S) (endpoint : MembershipEndpointAuthority) (resolved : OwnerId)
    (operations : list AuthzOperation) : S * (list Observation * result unit ProtocolError) :=
  let called := port_call authz (request_permit authz group member request endpoint resolved) group member request st in
  (called.1, (request_trail e authz group member endpoint resolved operations,
              map_err (request_error request) called.2)).

(** A request reaches the port, or cannot and leaves the store alone. *)
Definition decided (e : Engine) (authz : AuthzContext) (group : GroupId) (member : OwnerId)
    (request : MembershipRequest) (st : S) (run : S * (list Observation * result unit ProtocolError)) : Prop :=
  (exists endpoint resolved operations,
     request_permitted e authz group member request endpoint resolved /\
     announced authz group member request st = Ok operations /\
     unvetoed e authz group resolved operations /\
     run = delivered e authz group member request st endpoint resolved operations) \/
  ((forall endpoint resolved operations,
     request_permitted e authz group member request endpoint resolved ->
     announced authz group member request st = Ok operations ->
     ~ unvetoed e authz group resolved operations) /\
   refused st run).

Lemma decided_tail e authz group member request st endpoint resolved operations run :
  request_permitted e authz group member request endpoint resolved ->
  announced authz group member request st = Ok operations ->
  run = (let '(st', (log, answer)) :=
           then_do (veto_changes e authz (OwnerId.from_group group) resolved operations)
             (fun _ => writing (port_call authz (request_permit authz group member request endpoint resolved)
                                  group member request) (request_error request)) st in
         (st', ((gate e authz (endpoint_owner group member endpoint) OpOwnerAdmin false).1 ++ log, answer))) ->
  decided e authz group member request st run.
Proof.
  intros Hp Ha ->. destruct (veto_then_write e authz group resolved operations
    (port_call authz (request_permit authz group member request endpoint resolved) group member request)
    (request_error request) st) as [(Hu & ->)|(Hu & Hr)].
  - left. by exists endpoint, resolved, operations.
  - right. split.
    + intros endpoint' resolved' operations' Hp' Ha'. apply request_permitted_iff in Hp as [Hp _], Hp' as [Hp' _].
      destruct (endpoint_permitted_unique _ _ _ _ _ _ _ _ _ Hp Hp') as [-> ->]. congruence.
    + revert Hr. by destruct (then_do _ _ st) as [st' [log answer]].
Qed.

Lemma decided_refused e authz group member request st run :
  (forall endpoint resolved, ~ request_permitted e authz group member request endpoint resolved) ->
  refused st run -> decided e authz group member request st run.
Proof. intros Hn Hr. right. split; [|done]. intros ? ? ? Hp. by apply Hn in Hp. Qed.

(** Adding and replacing: the parent's gate, then the manage bit. *)
Lemma decided_parent now e authz group member request (k : WritePermit -> Verb S unit) st :
  is_removal request = false ->
  (forall resolved,
     endpoint_permitted e authz group member (is_removal request) EndpointParent resolved ->
     decided e authz group member request st
       (let '(st', (log, answer)) :=
          k (mk_WritePermit (OwnerWritePermit.new resolved KGoal (AuthzContext.owner_scope authz))) st in
        (st', ((gate e authz (OwnerId.from_group group) OpOwnerAdmin false).1 ++ log, answer)))) ->
  decided e authz group member request st
    (then_do (audited (authorize_owner_admin now e (OfContext authz) (OwnerId.from_group group)))
       (fun permit => then_do (done_with (require_group_manage authz (OwnerId.from_group group)))
                        (fun _ => k permit)) st).
Proof.
  intros Hreq Hk. unfold then_do at 1, audited.
  destruct (owner_admin_cases now e authz (OwnerId.from_group group)) as [(r & Hr & ->)|(Hr & log & err & ->)].
  - unfold then_do, done_with, require_group_manage.
    destruct (AuthzContext.may_manage authz (OwnerId.from_group group)) eqn:Hm.
    + specialize (Hk r). destruct (k _ st) as [st' [log answer]]. apply Hk. by split_and!.
    + apply decided_refused; [|by split; [|eexists]].
      intros [] r' [Hm' He]; cbn in Hm'; [congruence|]. destruct He; [done|congruence].
  - apply decided_refused; [|by split; [|eexists]].
    intros [] r [_ He Hg]; [by eapply Hr|]. destruct He; [done|congruence].
Qed.

(** Removing: the parent's gate or the member's. *)
Lemma decided_detach now e authz group member request
    (k : WritePermit * MembershipEndpointAuthority -> Verb S unit) st :
  is_removal request = true ->
  (forall endpoint resolved,
     endpoint_permitted e authz group member (is_removal request) endpoint resolved ->
     decided e authz group member request st
       (let '(st', (log, answer)) :=
          k (mk_WritePermit (OwnerWritePermit.new resolved KGoal (AuthzContext.owner_scope authz)), endpoint) st in
        (st', ((gate e authz (endpoint_owner group member endpoint) OpOwnerAdmin false).1 ++ log, answer)))) ->
  decided e authz group member request st
    (then_do (audited (authorize_membership_detach now e authz (OwnerId.from_group group) member)) k st).
Proof.
  intros Hreq Hk. unfold then_do at 1, audited. rewrite Hreq in Hk.
  destruct (detach_cases now e authz group member) as [(endpoint & r & Hr & ->)|(Hr & log & err & ->)]; [by apply Hk|].
  apply decided_refused; [|by split; [|eexists]].
  intros endpoint r [Hp _]%request_permitted_iff. rewrite Hreq in Hp. by apply Hr in Hp.
Qed.

Lemma detach_permit_eq authz group member request endpoint resolved :
  (forall relation, request <> RequestAdd relation) ->
  detach_permit authz (mk_WritePermit (OwnerWritePermit.new resolved KGoal (AuthzContext.owner_scope authz)))
    endpoint (OwnerId.from_group group) member
  = request_permit authz group member request endpoint resolved.
Proof.
  intros Hreq. unfold detach_permit, with_parent_caller, request_permit. cbn.
  destruct request; [by destruct (Hreq relation)|..]; destruct endpoint; by destruct (AuthzContext.subject authz).
Qed.

Lemma perform_decided now e authz group member request st :
  decided e authz group member request st (perform now e authz group member request st).
Proof.
  destruct request as [relation| |relation|from to]; cbn [perform].
  - apply decided_parent; [done|]. intros r Hp. rewrite veto_and_observe_one.
    by eapply decided_tail; [apply request_permitted_iff; split|..].
  - apply decided_detach; [done|]. intros endpoint r Hp. unfold then_do at 1, reading at 1.
    rewrite (detach_permit_eq _ _ _ RequestRemove) by done.
    destruct (map_err _ _) as [members|err] eqn:Hm.
    + eapply (decided_tail _ _ _ _ _ _ endpoint r);
        [by apply request_permitted_iff; split|unfold announced; by rewrite Hm|].
      by destruct (then_do _ _ st) as [st' [log answer]].
    + right. split; [|by split; [|eexists]]. intros ? ? ? _. unfold announced. by rewrite Hm.
  - apply decided_detach; [done|]. intros endpoint r Hp.
    rewrite veto_and_observe_one, (detach_permit_eq _ _ _ (RequestRemoveRelation relation)) by done.
    by eapply decided_tail; [apply request_permitted_iff; split|..].
  - apply decided_parent; [done|]. intros r Hp. case_bool_decide as Hd.
    + apply decided_refused; [|by split; [|eexists]]. intros ? ? [_ _ _ Hn]. by eapply Hn.
    + rewrite (detach_permit_eq _ _ _ (RequestReplace from to)) by done.
      eapply decided_tail; [apply request_permitted_iff; split; [done|by intros ? ? [= <- <-]]|done|done].
Qed.

End specification.

(** Membership administration answers to manage authority, over any store
    that offers the port.  A request that its caller may make, on behalf of a
    group they manage or, to leave it, of the member group they manage, and that
    no hook vetoes, is exactly one port call: with a permit for the gated owner
    under the caller's own scope, and every announced change observed as allowed.
    Any other request answers an error and leaves the store as it was. *)
Theorem membership_requests_exact `{UuidText} {S : Type} `{OwnerMembershipAdminPort S}
    (now : SystemTime) (e : Engine) (authz : AuthzContext) (group : GroupId) (member : OwnerId)
    (request : MembershipRequest) (st : S) :
  (forall endpoint resolved operations,
     request_permitted e authz group member request endpoint resolved ->
     announced authz group member request st = Ok operations ->
     unvetoed e authz group resolved operations ->
     perform now e authz group member request st
     = delivered e authz group member request st endpoint resolved operations) /\
  ((forall endpoint resolved operations,
     request_permitted e authz group member request endpoint resolved ->
     announced authz group member request st = Ok operations ->
     ~ unvetoed e authz group resolved operations) ->
   refused st (perform now e authz group member request st)).
Proof.
  destruct (perform_decided now e authz group member request st)
    as [(endpoint & resolved & operations & Hp & Ha & Hu & Hrun)|[Hn Hr]]; split; try done.
  - intros endpoint' resolved' operations' [Hp' _]%request_permitted_iff Ha' _. apply request_permitted_iff in Hp as [Hp _].
    destruct (endpoint_permitted_unique _ _ _ _ _ _ _ _ _ Hp Hp') as [-> ->]. rewrite Hrun. congruence.
  - intros Hn. by destruct (Hn endpoint resolved operations).
  - intros endpoint resolved operations Hp Ha Hu. by destruct (Hn endpoint resolved operations).
Qed.

(** ** Transfers, specified *)

Section transfers.
Context `{UuidText} {S Spaces : Type} (ports : AdminPorts S Spaces).

(** A stored membership that manages the destination, for a context whose subject
    the server resolved and which acts for nobody else. *)
Definition consents_out_of_band (authz : AuthzContext) (to_owner : OwnerId) (st : S) : Prop :=
  AuthzContext.auth_path authz <> Delegated /\ AuthzContext.auth_path authz <> Denied /\
  AuthzContext.is_server_resolved authz = true /\ ctx_forwarded_owner authz = None /\
  exists subject memberships group role,
    AuthzContext.subject authz = Some subject /\
    stored_memberships ports (AuthzContext.owner_scope authz) (OwnerId.from_user subject) st = Ok memberships /\
    (group, role) ∈ memberships /\ OwnerId.from_group group = to_owner /\
    Role.administers role = true /\ Role.manages role = true.

(** The receiving side: the context's own role at the destination decides when it
    has one; otherwise a stored membership of the authenticated subject. *)
Definition destination_consents (e : Engine) (authz : AuthzContext) (to_owner : OwnerId) (st : S) : Prop :=
  match AuthzContext.role_for_owner authz to_owner with
  | Some _ =>
      AuthzContext.may_manage authz to_owner = true /\
      exists resolved, gate_permits e authz to_owner OpOwnerAdmin false resolved
  | None => consents_out_of_band authz to_owner st
  end.

(** When a memory at home with [current] may move. *)
Record transfer_permitted (e : Engine) (authz : AuthzContext) (entity : EntityId) (to_owner : OwnerId) (st : S)
    (current : OwnerId) (kind : AccessKind) (schema : option SchemaId) (resolved : OwnerId) (spaces : Spaces) : Prop := {
  transfer_memory : exists memory, entity = EntityMemory memory;
  transfer_not_own : OwnerId.from_user <$> AuthzContext.subject authz <> Some to_owner;
  transfer_home : visible_home_owner ports (AuthzContext.owner_scope authz) entity
                    (AuthzContext.readable_owners authz KFact) st = Ok (Some (current, kind, schema));
  transfer_source : gate_permits e authz current OpOwnerAdmin false resolved;
  transfer_source_manages :
    OwnerId.from_user <$> AuthzContext.subject authz = Some current \/ AuthzContext.may_manage authz current = true;
  transfer_destination : destination_consents e authz to_owner st;
  transfer_schema : forall name, schema = Some name -> untransferable_schema ports name = None;
  transfer_moves : current <> to_owner;
  transfer_unvetoed :
    run_authorization_vetoes e (mk_AuthzInput authz current resolved (OpEntityTransfer entity to_owner)) = Ok tt;
  transfer_route : embedding_route ports to_owner = Ok spaces;
}.

(** The permit a transfer carries: the source's, naming the destination. *)
Definition transfer_permit (authz : AuthzContext) (resolved to_owner : OwnerId) : OwnerWritePermit :=
  mk_OwnerWritePermit resolved KGoal (AuthzContext.owner_scope authz) (Some to_owner) None.

Definition transfer_answer (answer : result bool StorageError) : result unit ProtocolError :=
  match answer with
  | Ok true => Ok tt
  | Ok false => Err (ProtocolError.not_found (str "entity owner changed concurrently"))
  | Err err => Err (internal_storage_error (str "transfer_to_owner") err)
  end.

Lemma out_of_band_cases authz to_owner st :
  (consents_out_of_band authz to_owner st /\
   authorize_transfer_destination_out_of_band ports authz to_owner st = (st, ([], Ok tt))) \/
  (~ consents_out_of_band authz to_owner st /\
   exists err, authorize_transfer_destination_out_of_band ports authz to_owner st = (st, ([], Err err))).
Proof.
  unfold authorize_transfer_destination_out_of_band, consents_out_of_band, then_do, reading, done_with.
  destruct (_ || _ || _ || _) eqn:Hcontext.
  { right. split; [|by eexists]. intros (Hd & HD & Hs & Hf & _).
    by rewrite !bool_decide_false, Hs, Hf in Hcontext by done. }
  apply orb_false_iff in Hcontext as [[[Hd HD]%orb_false_iff Hs]%orb_false_iff Hf].
  apply bool_decide_eq_false in Hd, HD. apply negb_false_iff in Hs.
  destruct (ctx_forwarded_owner authz); [done|].
  destruct (AuthzContext.subject authz) as [subject|];
    [|right; split; [by intros (_ & _ & _ & _ & ? & ? & ? & ? & [=] & _)|by eexists]].
  destruct (stored_memberships ports _ _ st) as [memberships|err] eqn:Hm; cbn [map_err];
    [|right; split; [intros (_ & _ & _ & _ & ? & ? & ? & ? & [= <-] & Hm' & _); congruence|by eexists]].
  destruct (existsb _ memberships) eqn:He; [left; split; [|done]|right; split; [|by eexists]].
  - apply existsb_exists in He as ([group role] & Hin & Hb). bools. split_and!; try done.
    exists subject, memberships, group, role. by rewrite list_elem_of_In.
  - intros (_ & _ & _ & _ & ? & ? & group & role & [= <-] & Hm' & Hin & Hg & Ha & Hma). rewrite Hm in Hm'.
    injection Hm' as <-. apply not_true_iff_false in He. apply He, existsb_exists. exists (group, role).
    rewrite <- list_elem_of_In, bool_decide_true, Ha, Hma by done. done.
Qed.

Lemma destination_cases now e authz to_owner st :
  (destination_consents e authz to_owner st /\
   exists log, authorize_transfer_destination ports now e authz to_owner st = (st, (log, Ok tt))) \/
  (~ destination_consents e authz to_owner st /\
   exists log err, authorize_transfer_destination ports now e authz to_owner st = (st, (log, Err err))).
Proof.
  unfold authorize_transfer_destination, destination_consents.
  destruct (AuthzContext.role_for_owner authz to_owner) as [role|]; cbn [is_some].
  - unfold then_do, audited, done_with, require_group_manage.
    destruct (owner_admin_cases now e authz to_owner) as [(r & Hr & ->)|(Hr & log & err & ->)].
    + destruct (AuthzContext.may_manage authz to_owner); [left|right]; (split; [|by repeat eexists]); [eauto|by intros [[=] _]].
    + right. split; [|by repeat eexists]. intros (_ & r & Hg). by eapply Hr.
  - destruct (out_of_band_cases authz to_owner st) as [(Hc & ->)|(Hc & err & ->)]; [left|right]; (split; [done|by repeat eexists]).
Qed.

(** A transfer reaches the port, or cannot and leaves the store alone. *)
Definition transfer_decided (e : Engine) (authz : AuthzContext) (entity : EntityId) (to_owner : OwnerId) (st : S)
    (run : S * (list Observation * result unit ProtocolError)) : Prop :=
  (exists current kind schema resolved spaces log,
     transfer_permitted e authz entity to_owner st current kind schema resolved spaces /\
     let moved := transfer_entity ports (transfer_permit authz resolved to_owner) entity to_owner spaces st in
     run = (moved.1, (log, transfer_answer moved.2))) \/
  ((forall current kind schema resolved spaces,
     ~ transfer_permitted e authz entity to_owner st current kind schema resolved spaces) /\
   refused st run).

Section steps.
Context (e : Engine) (authz : AuthzContext) (entity : EntityId) (to_owner : OwnerId) (st : S).

Lemma transfer_refused log err :
  (forall current kind schema resolved spaces,
     ~ transfer_permitted e authz entity to_owner st current kind schema resolved spaces) ->
  transfer_decided e authz entity to_owner st (st, (log, Err err)).
Proof. intros Hn. right. split; [done|]. split; [done|by eexists]. Qed.

Lemma transfer_step {A} (v : Verb S A) k log answer :
  v st = (st, (log, answer)) ->
  (forall a, answer = Ok a -> transfer_decided e authz entity to_owner st (k a st)) ->
  (forall err, answer = Err err -> forall current kind schema resolved spaces,
     ~ transfer_permitted e authz entity to_owner st current kind schema resolved spaces) ->
  transfer_decided e authz entity to_owner st (then_do v k st).
Proof.
  intros Hv Hk Hn. unfold then_do. rewrite Hv. destruct answer as [a|err]; [|by eapply transfer_refused, Hn].
  destruct (Hk a eq_refl) as [(current & kind & schema & resolved & spaces & log' & Hp & ->)|[Hno [Hst [err Herr]]]].
  - left. by exists current, kind, schema, resolved, spaces, (log ++ log').
  - destruct (k a st) as [st' [log' answer]]. cbn in *. subst. by apply transfer_refused.
Qed.

End steps.

(** Once the home is known, only its owner and schema are in question. *)
Lemma transfer_needs e authz entity to_owner st current kind schema :
  visible_home_owner ports (AuthzContext.owner_scope authz) entity (AuthzContext.readable_owners authz KFact) st
  = Ok (Some (current, kind, schema)) ->
  (forall resolved spaces, ~ transfer_permitted e authz entity to_owner st current kind schema resolved spaces) ->
  forall current' kind' schema' resolved spaces,
    ~ transfer_permitted e authz entity to_owner st current' kind' schema' resolved spaces.
Proof.
  intros Hvis Hn ? ? ? r spaces Hp. pose proof (transfer_home _ _ _ _ _ _ _ _ _ _ Hp) as Hh.
  rewrite Hvis in Hh. injection Hh as <- <- <-. by apply Hn in Hp.
Qed.

(** With both sides authorized: the schema, the destination, the hooks, the route
    and the write. *)
Lemma transfer_tail e authz memory to_owner st current kind schema resolved :
  let entity := EntityMemory memory in
  let permit := transfer_permit authz resolved to_owner in
  visible_home_owner ports (AuthzContext.owner_scope authz) entity (AuthzContext.readable_owners authz KFact) st
  = Ok (Some (current, kind, schema)) ->
  OwnerId.from_user <$> AuthzContext.subject authz <> Some to_owner ->
  gate_permits e authz current OpOwnerAdmin false resolved ->
  OwnerId.from_user <$> AuthzContext.subject authz = Some current \/ AuthzContext.may_manage authz current = true ->
  destination_consents e authz to_owner st ->
  transfer_decided e authz entity to_owner st
    (then_do (done_with (refuse_untransferable ports schema)) (fun _ =>
      if bool_decide (current = to_owner)
      then done_with (Err (ProtocolError.invalid_argument (str "to_owner")
                             (str "transfer destination is already the current owner")))
      else
        let! _ := audited (veto_and_observe_access_admin e authz current resolved (OpEntityTransfer entity to_owner)) in
        let! spaces := done_with (map_err (const (ProtocolError.internal (str "no embedding route for this owner")))
                                    (embedding_route ports to_owner)) in
        let! transferred := writing (transfer_entity ports permit entity to_owner spaces)
                              (internal_storage_error (str "transfer_to_owner")) in
        done_with (if transferred : bool then Ok tt
                   else Err (ProtocolError.not_found (str "entity owner changed concurrently")))) st).
Proof.
  intros entity permit Hvis Hown Hr Hman Hd. eapply transfer_step; [done|intros [] Hschema|].
  2:{ intros err Herr. apply (transfer_needs _ _ _ _ _ _ _ _ Hvis). intros r' ? [? ? ? ? ? ? Hs].
      destruct schema as [name|]; [|done]. cbn in Herr. by rewrite Hs in Herr. }
  case_bool_decide as Hmoves.
  { apply transfer_refused, (transfer_needs _ _ _ _ _ _ _ _ Hvis). by intros r' ? []. }
  unfold veto_and_observe_access_admin.
  destruct (run_authorization_vetoes e _) as [[]|err] eqn:Hv; (eapply transfer_step; [done| |]); try done.
  2:{ intros _ _. apply (transfer_needs _ _ _ _ _ _ _ _ Hvis). intros r' ? [_ _ _ Hr' _ _ _ _ Hv'].
      apply gate_Ok in Hr, Hr'. congruence. }
  intros _ _. destruct (embedding_route ports to_owner) as [spaces|err] eqn:Hroute; (eapply transfer_step; [done| |]); try done.
  2:{ intros _ _. apply (transfer_needs _ _ _ _ _ _ _ _ Hvis). intros r' ? []. congruence. }
  intros ? [= <-]. left. exists current, kind, schema, resolved, spaces, []. split.
  - constructor; try done; [by exists memory|]. intros name ->. cbn in Hschema.
    by destruct (untransferable_schema ports name).
  - unfold then_do, writing, done_with. fold entity permit. destruct (transfer_entity _ _ _ _ _ st) as [st' [[]|err]]; done.
Qed.

Lemma transfer_is_decided `{OwnerMembershipAdminPort S} now now' now'' e authz entity to_owner st :
  transfer_decided e authz entity to_owner st (transfer_to_owner ports now now' now'' e authz entity to_owner st).
Proof.
  eapply transfer_step; [done|intros op Hop|].
  2:{ intros err Herr ? ? ? ? ? [? ? ? [Hd _ _ _ _ _] _ _ _ _ _ _].
      assert (AuthzContext.auth_path authz <> Delegated) as Hnd by (by intros ?%Hd).
      pose proof (proj2 (operation_authority_Ok now e (OfContext authz) _) (conj Hnd eq_refl)). congruence. }
  destruct entity as [memory|goal]; [|apply transfer_refused; by intros ? ? ? ? ? [[? [=]]]].
  case_bool_decide as Hown; [apply transfer_refused; by intros ? ? ? ? ? []|].
  eapply transfer_step; [done|intros home Hhome|intros err Herr ? ? ? ? ? [? ? Hh]; by rewrite Hh in Herr].
  destruct (visible_home_owner _ _ _ _ st) as [home'|] eqn:Hvis; [|done]. injection Hhome as ->.
  destruct home as [[[current kind] schema]|].
  2:{ eapply transfer_step; [done|done|]. intros err _ ? ? ? ? ? [? ? Hh]. congruence. }
  eapply transfer_step; [done|intros ? [= <-]|done].
  destruct (owner_admin_cases now' e authz current) as [(r & Hr & Hrun)|(Hr & log & err & Hrun)];
    (eapply transfer_step; [unfold audited; by rewrite Hrun| |]); try done.
  2:{ intros _ _. apply (transfer_needs _ _ _ _ _ _ _ _ Hvis). intros r' ? Hp. by eapply Hr, Hp. }
  intros ? [= <-]. eapply transfer_step; [done|intros [] Hman|].
  2:{ intros err Herr. apply (transfer_needs _ _ _ _ _ _ _ _ Hvis). intros r' ? [? ? ? ? Hm].
      unfold require_group_manage in Herr. case_bool_decide; [done|]. destruct Hm as [|Hm]; [done|]. by rewrite Hm in Herr. }
  destruct (destination_cases now'' e authz to_owner st) as [(Hd & log & Hrun')|(Hd & log & err & Hrun')];
    (eapply transfer_step; [done| |]); try done.
  2:{ intros _ _. apply (transfer_needs _ _ _ _ _ _ _ _ Hvis). by intros r' ? []. }
  intros [] _. apply transfer_tail with kind; try done.
  case_bool_decide as Hc; [by left|right]. unfold require_group_manage in Hman. by destruct (AuthzContext.may_manage authz current).
Qed.

(** A memory moves only with the consent of both owners, over any store.  A
    transfer reaches the store exactly when the entity is a memory the caller can
    read, the caller passes its owner's admin gate and is that owner or manages
    it, the destination is another owner that consents through the caller's role
    there or, where the context is silent, through a stored membership that
    manages it, the schema transfers, no hook vetoes and the destination has an
    embedding route; the store is then handed the source's permit, naming the
    destination.  Every other transfer is an error that changes nothing. *)
Theorem transfer_needs_both_owners `{OwnerMembershipAdminPort S} now now' now'' e authz entity to_owner st :
  let run := transfer_to_owner ports now now' now'' e authz entity to_owner st in
  (forall current kind schema resolved spaces,
     transfer_permitted e authz entity to_owner st current kind schema resolved spaces ->
     let moved := transfer_entity ports (transfer_permit authz resolved to_owner) entity to_owner spaces st in
     run.1 = moved.1 /\ run.2.2 = transfer_answer moved.2) /\
  ((forall current kind schema resolved spaces,
     ~ transfer_permitted e authz entity to_owner st current kind schema resolved spaces) ->
   refused st run).
Proof.
  cbn zeta. destruct (transfer_is_decided now now' now'' e authz entity to_owner st)
    as [(current & kind & schema & r & spaces & log & Hp & ->)|[Hn Hr]]; split; try done.
  - intros ? ? ? ? ? Hp'. destruct Hp as [_ _ Hh Hg _ _ _ _ _ Hs], Hp' as [_ _ Hh' Hg' _ _ _ _ _ Hs'].
    rewrite Hh in Hh'. injection Hh' as <- <- <-. apply gate_Ok in Hg, Hg'. rewrite Hg in Hg'. rewrite Hs in Hs'.
    by injection Hg' as <-; injection Hs' as <-.
  - intros Hn. by apply Hn in Hp.
  - intros ? ? ? ? ? Hp. by apply Hn in Hp.
Qed.

End transfers.

(** ** Administration over Postgres *)

Section postgres.
Context `{UuidText} `{PgText} (read_clock write_clock : nat -> SystemTime).

(** A request that commits on Postgres is a removal or replacement of the port. *)
Lemma perform_commits now e authz group member request db db' log :
  perform (port := PgStorage_membership read_clock write_clock) now e authz group member request db
  = (db', (log, Ok tt)) ->
  exists endpoint resolved,
    let permit := request_permit authz group member request endpoint resolved in
    request_permitted e authz group member request endpoint resolved /\
    match request with
    | RequestAdd relation => exists outcome, add_group_member write_clock permit group member relation db = (db', Ok outcome)
    | RequestRemove => remove_group_member write_clock permit group member None db = (db', Ok tt)
    | RequestRemoveRelation relation =>
        remove_group_member write_clock permit group member (Some relation) db = (db', Ok tt)
    | RequestReplace from to => replace_group_member_relation write_clock permit group member from to db = (db', Ok tt)
    end.
Proof.
  destruct (perform_decided (port := PgStorage_membership read_clock write_clock) now e authz group member request db)
    as [(endpoint & resolved & operations & Hp & _ & _ & ->)|[_ [_ [err Hr]]]]; [|by intros Hrun; rewrite Hrun in Hr].
  unfold delivered. intros [= <- <- Hok]. exists endpoint, resolved. split; [done|]. revert Hok.
  destruct request; cbn; [destruct (add_group_member _ _ _ _ _ _) as [? [?|?]]
    |destruct (remove_group_member _ _ _ _ _ _) as [? [[]|?]]|destruct (remove_group_member _ _ _ _ _ _) as [? [[]|?]]
    |destruct (replace_group_member_relation _ _ _ _ _ _ _) as [? [[]|?]]]; cbn; try done. eauto.
Qed.

Lemma perform_writes now e authz group member request db db' log :
  perform (port := PgStorage_membership read_clock write_clock) now e authz group member request db
  = (db', (log, Ok tt)) ->
  group_write db db'.
Proof.
  intros (endpoint & resolved & _ & Hcall)%perform_commits.
  destruct request; [destruct Hcall as [outcome Hcall]|..]; apply (f_equal fst) in Hcall; cbn [fst] in Hcall;
    subst db'; constructor.
Qed.

End postgres.

(** C37. Administration never leaves a group it sees without a manager.  When a
    context that reads the group's Facts under an unexpired scope removes a member
    or changes a relation and the request succeeds on Postgres, a group that
    somebody managed is still managed by somebody; and a caller who acted as the
    group's manager managed it in the stored tables at that moment, whatever the
    context claimed. *)
Theorem administration_keeps_a_manager `{UuidText} `{PgText} (read_clock write_clock : nat -> SystemTime)
    (now : SystemTime) (e : Engine) (authz : AuthzContext) (scope : OwnerScope) (group : GroupId) (member : OwnerId)
    (request : MembershipRequest) (db db' : GroupDb) (log : list Observation) (u : UserId)
    (Hreach : rtc group_write empty_db db) (Hctx : ctx_reachable authz)
    (Hscope : AuthzContext.owner_scope authz = Some scope)
    (Hlive : OwnerScope.is_expired (write_clock 1) scope = false)
    (Hreads : AuthzContext.may_read authz (OwnerId.from_group group) KFact = true)
    (Hreq : forall relation, request <> RequestAdd relation)
    (Hrun : perform (port := PgStorage_membership read_clock write_clock) now e authz group member request db
            = (db', (log, Ok tt)))
    (Hmanager : manages_group db u group) :
  (exists u', manages_group db' u' group) /\
  (forall caller, AuthzContext.may_manage authz (OwnerId.from_group group) = true ->
     AuthzContext.subject authz = Some caller -> manages_group db caller group).
Proof.
  apply perform_commits in Hrun as (endpoint & resolved & Hp & Hcall).
  assert (Hsees : OwnerScope.may_read (write_clock 1) scope (OwnerId.from_group group) KFact = true).
  { destruct (inv_sealed _ (ctx_inv_reachable _ Hctx) _ Hscope) as [Hroles _].
    unfold OwnerScope.may_read. rewrite Hlive. unfold AuthzContext.may_read in Hreads. by rewrite Hroles in Hreads. }
  destruct (last_manager_is_kept write_clock (request_permit authz group member request endpoint resolved) scope
    group member db db' u Hreach Hscope Hsees) as [Hkept Hcaller]; [|done|split; [done|]].
  - destruct request; [by destruct (Hreq relation)|left|left|right]; eauto.
  - intros caller Hman Hsub. apply Hcaller. destruct Hp as [Hm He _ _].
    destruct endpoint; [|by destruct He as [_ He]; [|congruence]].
    by destruct request; [destruct (Hreq relation)|..].
Qed.

(** ** Witnesses *)

#[local] Instance sample_texts : PgText := fun _ => [].
#[local] Instance sample_uuids : UuidText := {| hyphenated := fun _ => []; try_parse := fun _ => None |}.
#[local] Instance sample_port : OwnerMembershipAdminPort GroupDb :=
  PgStorage_membership (fun _ => 0%Z) (fun _ => 0%Z).

(** User 2 as its roles resolve from [db], sealed and narrowed to a group, which is
    how a served request arrives. *)
Definition sample_caller (db : GroupDb) (group : OwnerId) : option AuthzContext :=
  let* roles := ok (roles_for_subject platform_session (mk_UserId 2) db) in
  let* sealed := ok (AuthzContext.seal_verified_scope (AuthzContext.server_resolved roles HostBearer)) in
  AuthzContext.narrowed_to_owner sealed group.

Lemma sample_caller_reachable db group c : sample_caller db group = Some c -> ctx_reachable c.
Proof.
  unfold sample_caller. destruct (ok (roles_for_subject _ _ db)) as [roles|]; [|done]. cbv beta iota.
  destruct (AuthzContext.seal_verified_scope (AuthzContext.server_resolved roles HostBearer)) as [sealed|] eqn:Hs; [|done].
  intros Hn.
  exists (AuthzContext.server_resolved roles HostBearer). split; [apply init_server_resolved|].
  eapply rtc_l; [by eapply step_seal|]. eapply rtc_once, step_narrow, Hn.
Qed.

(** User 2 acting for group 20, and the removal of user 3 from it. *)
Definition sample_manager : AuthzContext :=
  default (AuthzContext.denied_for_owner (mk_OwnerId 20)) (sample_caller sample_nested (mk_OwnerId 20)).

Lemma sample_manager_eq : sample_caller sample_nested (mk_OwnerId 20) = Some sample_manager.
Proof. vm_compute. reflexivity. Qed.

Definition sample_manager_scope : OwnerScope := default sample_scope (AuthzContext.owner_scope sample_manager).

Lemma sample_manager_scope_eq : AuthzContext.owner_scope sample_manager = Some sample_manager_scope.
Proof. vm_compute. reflexivity. Qed.

Definition sample_removal : GroupDb * (list Observation * result unit ProtocolError) :=
  perform 0 sample_engine sample_manager (mk_GroupId 20) (mk_OwnerId 3) RequestRemove sample_nested.

Lemma sample_removal_eq :
  perform 0 sample_engine sample_manager (mk_GroupId 20) (mk_OwnerId 3) RequestRemove sample_nested
  = (sample_removal.1, (sample_removal.2.1, Ok tt)).
Proof.
  assert (Hok : sample_removal.2.2 = Ok tt) by (vm_compute; reflexivity).
  fold sample_removal. rewrite <- Hok. by destruct sample_removal as [? []].
Qed.

Lemma sample_manages : manages_group sample_nested (mk_UserId 2) (mk_GroupId 20).
Proof.
  exists [RAdmin]. split; [|by repeat constructor]. constructor. apply (bool_decide_unpack _). vm_compute. reflexivity.
Qed.

Lemma administration_keeps_a_manager_witness :
  exists u', manages_group sample_removal.1 u' (mk_GroupId 20).
Proof.
  apply (administration_keeps_a_manager (fun _ => 0%Z) (fun _ => 0%Z) 0 sample_engine sample_manager
    sample_manager_scope (mk_GroupId 20) (mk_OwnerId 3) RequestRemove sample_nested sample_removal.1 sample_removal.2.1
    (mk_UserId 2) sample_reach (sample_caller_reachable _ _ _ sample_manager_eq) sample_manager_scope_eq).
  - vm_compute. reflexivity.
  - vm_compute. reflexivity.
  - discriminate.
  - exact sample_removal_eq.
  - exact sample_manages.
Defined.

(** Group 10, whose only manager is user 2 through group 20. *)
Definition sample_removed (member : OwnerId) (group : N) (db : GroupDb) : GroupDb :=
  match remove_on_connection_authorized platform_session (mk_GroupId group) member None
          CallerDoesNotManageMember EndpointParent db with
  | Ok db' => db'
  | Err _ => db
  end.

Lemma sample_removed_write member group db : rtc group_write db (sample_removed member group db).
Proof.
  unfold sample_removed. destruct (remove_on_connection_authorized _ _ _ _ _ _ _) as [db'|] eqn:E; [|done].
  eapply rtc_once, gw_remove_on_connection, E.
Qed.

Definition sample_inherited : GroupDb :=
  sample_removed (mk_OwnerId 1) 10 (sample_added (mk_OwnerId 20) 10 RAdmin sample_groups).

Lemma sample_inherited_reach : rtc group_write empty_db sample_inherited.
Proof.
  unfold sample_inherited. etrans; [|apply sample_removed_write]. etrans; [|apply sample_added_write].
  eapply rtc_l; [apply gw_bootstrap|]. eapply rtc_once, gw_bootstrap.
Qed.

(** User 2 acting for group 20, which leaves group 10. *)
Definition sample_leaver : AuthzContext :=
  default (AuthzContext.denied_for_owner (mk_OwnerId 20)) (sample_caller sample_inherited (mk_OwnerId 20)).

Lemma sample_leaver_eq : sample_caller sample_inherited (mk_OwnerId 20) = Some sample_leaver.
Proof. vm_compute. reflexivity. Qed.

Definition sample_leaving : GroupDb * (list Observation * result unit ProtocolError) :=
  perform 0 sample_engine sample_leaver (mk_GroupId 10) (mk_OwnerId 20) RequestRemove sample_inherited.

Lemma sample_leaving_eq :
  perform 0 sample_engine sample_leaver (mk_GroupId 10) (mk_OwnerId 20) RequestRemove sample_inherited
  = (sample_leaving.1, (sample_leaving.2.1, Ok tt)).
Proof.
  assert (Hok : sample_leaving.2.2 = Ok tt) by (vm_compute; reflexivity).
  fold sample_leaving. rewrite <- Hok. by destruct sample_leaving as [? []].
Qed.

Lemma sample_leaving_inv : db_inv sample_leaving.1.
Proof.
  apply reachable_inv. eapply rtc_r; [apply sample_inherited_reach|].
  eapply perform_writes, sample_leaving_eq.
Qed.

Lemma sample_leaving_projection : map_Forall (fun key _ => key.2 <> 10%N) (db_projection sample_leaving.1).
Proof. apply (bool_decide_unpack _). vm_compute. reflexivity. Qed.

(** C38. The rule that a managed group keeps a manager does not reach a group the
    caller cannot see.  A caller narrowed to an attached group may detach it on
    that group's authority; the parent's managers are then invisible to the check,
    so a parent managed only through the attached group ends with no manager. *)
Theorem leaving_can_orphan_the_parent :
  exists authz db' log,
    sample_caller sample_inherited (mk_OwnerId 20) = Some authz /\
    manages_group sample_inherited (mk_UserId 2) (mk_GroupId 10) /\
    perform 0 sample_engine authz (mk_GroupId 10) (mk_OwnerId 20) RequestRemove sample_inherited
    = (db', (log, Ok tt)) /\
    forall u, ~ manages_group db' u (mk_GroupId 10).
Proof.
  exists sample_leaver, sample_leaving.1, sample_leaving.2.1.
  split_and!; [exact sample_leaver_eq| |exact sample_leaving_eq|].
  - apply projection_manages; [apply reachable_inv, sample_inherited_reach|]. eexists. split; vm_compute; reflexivity.
  - intros u (row & Hrow & _)%projection_manages; [|exact sample_leaving_inv].
    by apply sample_leaving_projection in Hrow.
Qed.
