(* ===== verification/Delegation.v ===== *)
(** * Delegated authority

    [crates/core/src/storage_ports/delegated_authority.rs]: a host bearer issues
    a finite grant of one command on one owner; a worker later redeems it for an
    engine phase; the issuer or an owner manager revokes it.  The service is
    written against the store's interface [DelegationStorePort]; the Postgres
    adapter of [crates/storage-pg/src/delegated_authority.rs] is an instance of
    it.  Store operations pass the store's state; each clock read is an
    argument, and so is the fresh identifier of an issue. *)

From S2P Require Import Prelude Ids Access ScopeKey Capability Text Publication Errors OwnerScope Authz Engine.

(** ** Commands *)

Definition MAX_TOOL_ID_CHARS : N := 200.

Definition invalid_tool_id (reason : rstring) : ProtocolError :=
  ProtocolError.invalid_argument (str "tool_id") reason.

Definition NOT_CANONICAL : rstring := str "tool id must be provider-safe canonical id".
Definition LEAF_REGISTERED : rstring := str "leaf action scope required and must be registered".

Definition registered_tool_key (value : rstring) (registry : list McpToolDescriptor) :
    result ScopeKey ProtocolError :=
  if contains (chr "/") value then Err (invalid_tool_id NOT_CANONICAL)
  else
    match ScopeKey.parse value with
    | Err _ =>
        Err (invalid_tool_id (if contains (chr ":") value then LEAF_REGISTERED else NOT_CANONICAL))
    | Ok key =>
        match key with
        | KeyAction tool action =>
            let declared :=
              is_some_and (mcp_tool registry (ToolName.as_str tool)) (fun descriptor =>
                existsb (fun '(known, _) => bool_decide (known = ActionName.as_str action))
                  (McpToolDescriptor.actions descriptor)) in
            if declared then Ok key else Err (invalid_tool_id LEAF_REGISTERED)
        | KeyTool tool =>
            match mcp_tool registry (ToolName.as_str tool) with
            | Some descriptor =>
                if negb (is_empty (action_arg_specs descriptor))
                   || negb (is_empty (argv_action_specs descriptor))
                then Err (invalid_tool_id (str "leaf action scope required for grouped tools"))
                else Ok key
            | None => Err (invalid_tool_id (str "tool id is not registered"))
            end
        | KeyResource _ => Err (invalid_tool_id LEAF_REGISTERED)
        end
    end.

Record DelegatedCommand := mk_DelegatedCommand {
  command_tool : ToolName;
  command_action : option ActionName;
}.

#[export] Instance DelegatedCommand_eq_dec : EqDecision DelegatedCommand.
Proof. solve_decision. Defined.

Module DelegatedCommand.

Definition from_key (key : ScopeKey) : option DelegatedCommand :=
  match key with
  | KeyTool tool => Some (mk_DelegatedCommand tool None)
  | KeyAction tool action => Some (mk_DelegatedCommand tool (Some action))
  | KeyResource _ => None
  end.

Definition parse (raw : rstring) (registry : list McpToolDescriptor) :
    result DelegatedCommand ProtocolError :=
  let? value := map_err (fun violation => invalid_tool_id (TrimmedLenViolation.reason violation (str "tool id")))
                  (check_trimmed_len raw MAX_TOOL_ID_CHARS) in
  let? key := registered_tool_key value registry in
  ok_or (from_key key) (invalid_tool_id (str "tool id must name a tool or a leaf action")).

Definition display (self : DelegatedCommand) : rstring :=
  match command_action self with
  | None => ToolName.as_str (command_tool self)
  | Some action => ToolName.as_str (command_tool self) ++ chr ":" :: ActionName.as_str action
  end.

Definition not_canonical : StorageError :=
  ConstraintViolation (str "stored delegation command is not canonical").

Definition from_storage_parts (tool : rstring) (action : option rstring) :
    result DelegatedCommand StorageError :=
  let? tool := map_err (const not_canonical) (ToolName.parse tool) in
  let? key := match action with
              | None => Ok (KeyTool tool)
              | Some action =>
                  let? action := map_err (const not_canonical) (ActionName.parse action) in
                  map_err (const not_canonical) (ScopeKey.action tool action)
              end in
  let? command := ok_or (from_key key) not_canonical in
  if (MAX_TOOL_ID_CHARS <? chars_count (display command))%N then Err not_canonical
  else Ok command.

Definition scope_key (self : DelegatedCommand) : result ScopeKey ScopeKeyError :=
  match command_action self with
  | None => Ok (KeyTool (command_tool self))
  | Some action => ScopeKey.action (command_tool self) action
  end.

Definition tool_scope (self : DelegatedCommand) : result ToolScope ScopeKeyError :=
  let? key := scope_key self in Ok (ScopePalette [key]).

End DelegatedCommand.

(** ** Grants *)

Record DelegationId := mk_DelegationId { DelegationId_0 : Uuid }.

#[export] Instance DelegationId_eq_dec : EqDecision DelegationId.
Proof. solve_decision. Defined.
#[export] Instance DelegationId_countable : Countable DelegationId.
Proof. by apply (inj_countable' DelegationId_0 mk_DelegationId); intros []. Defined.

Record DelegationIssued := mk_DelegationIssued {
  issued_id : DelegationId;
  issued_expires_at : SystemTime;
}.

Inductive DelegationRevocation := NowRevoked | AlreadyRevoked.

Inductive DelegatedAuthorityError :=
| HostBearerRequired
| MissingSubject
| MissingBearerExpiry
| DelegationExpired
| ManagementNotDelegable
| RoleCeilingExceeded
| ToolScopeDenied (command : rstring)
| CommandUnavailable (reason : rstring)
| DelegationNotFound
| DelegationRevoked
| CommandMismatch
| MembershipRevoked
| RoleCeilingNoLongerHeld
| AuthEpochRevoked
| RevocationDenied
| DelegationAccess (error : AccessError)
| DelegationStorage (error : StorageError).

Record DelegationGrantStorage := mk_DelegationGrantStorage {
  stored_delegation_id : DelegationId;
  stored_subject : UserId;
  stored_writer : WriterAttribution;
  stored_owner : OwnerId;
  stored_tool : rstring;
  stored_action : option rstring;
  stored_role_ceiling : Role;
  stored_expires_at : SystemTime;
  stored_auth_epoch : N;
  stored_issued_at : SystemTime;
  stored_revoked_at : option SystemTime;
  stored_revoked_by : option UserId;
}.

Record DelegationGrant := mk_DelegationGrant {
  grant_delegation_id : DelegationId;
  grant_subject : UserId;
  grant_writer : WriterAttribution;
  grant_owner : OwnerId;
  grant_command : DelegatedCommand;
  grant_role_ceiling : Role;
  grant_expires_at : SystemTime;
  grant_auth_epoch : N;
  grant_issued_at : SystemTime;
  grant_revoked_at : option SystemTime;
  grant_revoked_by : option UserId;
}.

Module DelegationGrant.

(** [id] is the fresh [Uuid::now_v7()]. *)
Definition issued (id : Uuid) (source : OwnerScope) (owner : OwnerId) (command : DelegatedCommand)
    (role_ceiling : Role) (expires_at : SystemTime) (auth_epoch : N) (issued_at : SystemTime) :
    DelegationGrant :=
  mk_DelegationGrant (mk_DelegationId id) (OwnerScope.subject source) (scope_writer source) owner command
    role_ceiling expires_at auth_epoch issued_at None None.

Definition from_storage (stored : DelegationGrantStorage) : result DelegationGrant StorageError :=
  if Role.manages (stored_role_ceiling stored)
  then Err (ConstraintViolation (str "stored delegation role ceiling includes management"))
  else if (stored_expires_at stored <=? stored_issued_at stored)%Z
  then Err (ConstraintViolation (str "stored delegation expiry is not after issue time"))
  else if negb (eqb (is_some (stored_revoked_at stored)) (is_some (stored_revoked_by stored)))
  then Err (ConstraintViolation (str "stored delegation revocation shape is invalid"))
  else
    let? command := DelegatedCommand.from_storage_parts (stored_tool stored) (stored_action stored) in
    Ok (mk_DelegationGrant (stored_delegation_id stored) (stored_subject stored) (stored_writer stored)
          (stored_owner stored) command (stored_role_ceiling stored) (stored_expires_at stored)
          (stored_auth_epoch stored) (stored_issued_at stored) (stored_revoked_at stored)
          (stored_revoked_by stored)).

End DelegationGrant.

(** ** The store's interface *)

Class DelegationStorePort (S : Type) := {
  store_insert : S -> DelegationGrant -> S * result unit StorageError;
  store_load : S -> DelegationId -> OwnerId -> result (option DelegationGrant) StorageError;
  store_revoke : S -> DelegationId -> OwnerId -> SystemTime -> UserId -> S * result bool StorageError;
}.

(** ** The service *)

Record DelegatedAuthorityService (Credentials : Type) := mk_DelegatedAuthorityService {
  svc_owner_access : OwnerAccessPort;
  svc_authenticator : Authenticator Credentials;
  svc_registry : list McpToolDescriptor;
  svc_served_surface : ServedSurface;
  svc_runtime_binding : DelegationRuntimeBinding;
}.
Arguments svc_owner_access {Credentials}.
Arguments svc_authenticator {Credentials}.
Arguments svc_registry {Credentials}.
Arguments svc_served_surface {Credentials}.
Arguments svc_runtime_binding {Credentials}.

Module DelegatedAuthorityService.

Definition validate_host_bearer (now : SystemTime) (source : AuthzContext) :
    result (UserId * SystemTime) DelegatedAuthorityError :=
  if negb (bool_decide (AuthzContext.auth_path source = HostBearer))
     || is_some (ctx_forwarded_owner source)
  then Err HostBearerRequired
  else
    let? subject := ok_or (AuthzContext.subject source) MissingSubject in
    let? scope := ok_or (AuthzContext.owner_scope source) HostBearerRequired in
    let? bearer := ok_or (AuthzContext.expires_at source) MissingBearerExpiry in
    let? sealed := ok_or (scope_expires_at scope) MissingBearerExpiry in
    let expires_at := Z.min bearer sealed in
    if (expires_at <=? now)%Z then Err DelegationExpired else Ok (subject, expires_at).

Definition revalidate_epoch {C} (self : DelegatedAuthorityService C) (subject : UserId)
    (auth_epoch : N) : result unit DelegatedAuthorityError :=
  let principal := OwnerId.from_user subject in
  if (auth_epoch <? current_auth_epoch (svc_authenticator self) principal)%N
  then Err AuthEpochRevoked else Ok tt.

Definition current_roles {C} (self : DelegatedAuthorityService C) (subject : UserId) :
    result OwnerRoles DelegatedAuthorityError :=
  let? roles := map_err DelegationAccess (resolve_roles_for_subject (svc_owner_access self) subject) in
  if negb (bool_decide (roles_subject roles = subject))
  then Err (DelegationAccess
              (Resolution (str "owner access resolver returned roles for a different subject")))
  else Ok roles.

Definition validate_current_command {C} (self : DelegatedAuthorityService C)
    (command : DelegatedCommand) : result unit DelegatedAuthorityError :=
  let? current := map_err (fun error => CommandUnavailable (message error))
                    (DelegatedCommand.parse (DelegatedCommand.display command) (svc_registry self)) in
  if negb (bool_decide (current = command))
  then Err (CommandUnavailable (DelegatedCommand.display command)) else Ok tt.

Definition validate_scopes {C} (self : DelegatedAuthorityService C) (capabilities : CapabilitySet)
    (command : DelegatedCommand) : result unit DelegatedAuthorityError :=
  let? descriptor := ok_or (mcp_tool (svc_registry self) (ToolName.as_str (command_tool command)))
                       (CommandUnavailable (DelegatedCommand.display command)) in
  let declared := McpToolDescriptor.declaration descriptor
                    (ActionName.as_str <$> command_action command) in
  let? key := map_err (const (CommandUnavailable (DelegatedCommand.display command)))
                (DelegatedCommand.scope_key command) in
  if negb (CapabilitySet.admits capabilities key declared)
     || negb (ServedSurface.admits (svc_served_surface self) key declared)
  then Err (ToolScopeDenied (DelegatedCommand.display command)) else Ok tt.

(** Everything [issue] checks before it writes, with the grant it then writes. *)
Definition issue_grant {C} (now now' : SystemTime) (id : Uuid) (self : DelegatedAuthorityService C)
    (source : AuthzContext) (owner : OwnerId) (command : DelegatedCommand) (role_ceiling : Role) :
    result DelegationGrant DelegatedAuthorityError :=
  let? bearer := validate_host_bearer now source in
  let (subject, expires_at) := (bearer : UserId * SystemTime) in
  let? scope := ok_or (AuthzContext.owner_scope source) HostBearerRequired in
  if negb (is_some_and (OwnerScope.role_for_owner scope owner) (fun role => Role.dominates role role_ceiling))
  then Err RoleCeilingExceeded
  else
    let issued_at := now' in
    if (expires_at <=? issued_at)%Z then Err DelegationExpired
    else if Role.manages role_ceiling then Err ManagementNotDelegable
    else
      let? _ := revalidate_epoch self subject (AuthzContext.auth_epoch source) in
      let? current_roles := current_roles self subject in
      let? current_role := ok_or (OwnerRoles.role_for current_roles owner) RoleCeilingExceeded in
      if negb (Role.dominates current_role role_ceiling) then Err RoleCeilingExceeded
      else
        let? _ := validate_current_command self command in
        let? _ := validate_scopes self (ctx_capabilities source) command in
        Ok (DelegationGrant.issued id scope owner command role_ceiling expires_at
              (AuthzContext.auth_epoch source) issued_at).

Definition issue {C S} `{DelegationStorePort S} (now now' : SystemTime) (id : Uuid)
    (self : DelegatedAuthorityService C) (store : S) (source : AuthzContext) (owner : OwnerId)
    (command : DelegatedCommand) (role_ceiling : Role) :
    S * result DelegationIssued DelegatedAuthorityError :=
  match issue_grant now now' id self source owner command role_ceiling with
  | Err e => (store, Err e)
  | Ok grant =>
      let issued := mk_DelegationIssued (grant_delegation_id grant) (grant_expires_at grant) in
      let (store', inserted) := store_insert store grant in
      (store', let? _ := map_err DelegationStorage inserted in Ok issued)
  end.

Definition redeem_phase {C S} `{DelegationStorePort S} (now : SystemTime)
    (self : DelegatedAuthorityService C) (store : S) (delegation_id : DelegationId)
    (expected_owner : OwnerId) (expected_command : DelegatedCommand) :
    result DelegatedPhase DelegatedAuthorityError :=
  let? loaded := map_err DelegationStorage (store_load store delegation_id expected_owner) in
  let? grant := ok_or loaded DelegationNotFound in
  if negb (bool_decide (grant_delegation_id grant = delegation_id))
     || negb (bool_decide (grant_owner grant = expected_owner))
  then Err DelegationNotFound
  else if negb (bool_decide (grant_command grant = expected_command)) then Err CommandMismatch
  else if is_some (grant_revoked_at grant) then Err DelegationRevoked
  else if (grant_expires_at grant <=? now)%Z then Err DelegationExpired
  else
    let? _ := validate_current_command self (grant_command grant) in
    let? _ := validate_scopes self CapabilitySet.all (grant_command grant) in
    let? _ := revalidate_epoch self (grant_subject grant) (grant_auth_epoch grant) in
    let? current_roles := current_roles self (grant_subject grant) in
    let? current_role := ok_or (OwnerRoles.role_for current_roles expected_owner) MembershipRevoked in
    if negb (Role.dominates current_role (grant_role_ceiling grant)) then Err RoleCeilingNoLongerHeld
    else
      let effective_role := Role.meet current_role (grant_role_ceiling grant) in
      let? tool_scope := map_err (const (CommandUnavailable (DelegatedCommand.display (grant_command grant))))
                           (DelegatedCommand.tool_scope (grant_command grant)) in
      let authz :=
        AuthzContext.server_resolved_with_writer
          (OwnerRoles.scoped_to (grant_subject grant) expected_owner effective_role)
          Delegated (grant_writer grant) in
      let authz := AuthzContext.with_expires_at authz (Some (grant_expires_at grant)) in
      let authz := AuthzContext.with_auth_epoch authz (grant_auth_epoch grant) in
      let authz := AuthzContext.with_tool_scope authz tool_scope in
      let authz := AuthzContext.with_served_surface authz (svc_served_surface self) in
      let? authz := map_err (const MembershipRevoked) (AuthzContext.seal_verified_scope authz) in
      Ok (mk_DelegatedPhase authz (grant_expires_at grant) (svc_runtime_binding self)).

Definition revoke {C S} `{DelegationStorePort S} (now now' : SystemTime)
    (self : DelegatedAuthorityService C) (store : S) (caller : AuthzContext)
    (delegation_id : DelegationId) (expected_owner : OwnerId) :
    S * result DelegationRevocation DelegatedAuthorityError :=
  let checked :=
    let? bearer := validate_host_bearer now caller in
    let (caller_subject, _) := (bearer : UserId * SystemTime) in
    let? _ := revalidate_epoch self caller_subject (AuthzContext.auth_epoch caller) in
    let? loaded := map_err DelegationStorage (store_load store delegation_id expected_owner) in
    let? grant := ok_or loaded DelegationNotFound in
    if negb (bool_decide (grant_delegation_id grant = delegation_id))
       || negb (bool_decide (grant_owner grant = expected_owner))
    then Err DelegationNotFound
    else
      let? current_roles := current_roles self caller_subject in
      let? current_role := ok_or (OwnerRoles.role_for current_roles expected_owner) RevocationDenied in
      if negb (bool_decide (caller_subject = grant_subject grant)) && negb (Role.manages current_role)
      then Err RevocationDenied
      else Ok (caller_subject, grant) in
  match checked with
  | Err e => (store, Err e)
  | Ok (caller_subject, grant) =>
      if is_some (grant_revoked_at grant) then (store, Ok AlreadyRevoked)
      else
        let (store', updated) := store_revoke store delegation_id expected_owner now' caller_subject in
        (store', let? changed := map_err DelegationStorage updated in
                 Ok (if (changed : bool) then NowRevoked else AlreadyRevoked))
  end.

End DelegatedAuthorityService.

(** ** The Postgres adapter

    The table is a map from its primary key to its columns.  Statements run on
    a live connection: failures of the connection itself are not modelled. *)

Record GrantRow := mk_GrantRow {
  row_subject_user_id : Uuid;
  row_owner_id : Uuid;
  row_tool_name : rstring;
  row_action_name : option rstring;
  row_read_ceiling : AccessCeiling;
  row_write_ceiling : AccessCeiling;
  row_expires_at : SystemTime;
  row_auth_epoch : Z;
  row_issued_at : SystemTime;
  row_revoked_at : option SystemTime;
  row_revoked_by_user_id : option Uuid;
  row_by : Uuid;
  row_via : option Uuid;
}.

(** What the driver and the server do with a value bound to a column: the
    stored form of a timestamp, and the message of a duplicate key. *)
Record PgServer := mk_PgServer {
  stored_time : SystemTime -> SystemTime;
  duplicate_key_message : rstring;
}.

Module PgDelegationStore.

Section adapter.
Context (server : PgServer).

Definition decode_grant (delegation_id : Uuid) (row : GrantRow) : result DelegationGrant StorageError :=
  let owner := mk_OwnerId (row_owner_id row) in
  let? role_ceiling := map_err (fun _ => StorageInternal (str "write ceiling exceeds read ceiling"))
                         (Role.new (row_read_ceiling row) (row_write_ceiling row) false) in
  let? auth_epoch := if (row_auth_epoch row <? 0)%Z
                     then Err (StorageInternal (str "negative delegation auth epoch"))
                     else Ok (Z.to_N (row_auth_epoch row)) in
  DelegationGrant.from_storage
    (mk_DelegationGrantStorage (mk_DelegationId delegation_id) (mk_UserId (row_subject_user_id row))
       (mk_WriterAttribution (row_by row) (row_via row)) owner (row_tool_name row) (row_action_name row)
       role_ceiling (row_expires_at row) auth_epoch (row_issued_at row) (row_revoked_at row)
       (mk_UserId <$> row_revoked_by_user_id row)).

Definition insert (table : gmap Uuid GrantRow) (grant : DelegationGrant) :
    gmap Uuid GrantRow * result unit StorageError :=
  if (2 ^ 63 <=? grant_auth_epoch grant)%N
  then (table, Err (ConstraintViolation (str "delegation auth epoch exceeds i64")))
  else
    let id := DelegationId_0 (grant_delegation_id grant) in
    match table !! id with
    | Some _ => (table, Err (ConstraintViolation (duplicate_key_message server)))
    | None =>
        (<[id := mk_GrantRow (UserId_0 (grant_subject grant)) (OwnerId_0 (grant_owner grant))
                   (ToolName.as_str (command_tool (grant_command grant)))
                   (ActionName.as_str <$> command_action (grant_command grant))
                   (Role.read_ceiling (grant_role_ceiling grant))
                   (Role.write_ceiling (grant_role_ceiling grant))
                   (stored_time server (grant_expires_at grant)) (Z.of_N (grant_auth_epoch grant))
                   (stored_time server (grant_issued_at grant)) None None
                   (writer_by (grant_writer grant)) (writer_via (grant_writer grant))]> table, Ok tt)
    end.

(** [WHERE delegation_id = $1 AND owner_id IS NOT DISTINCT FROM $2]. *)
Definition load (table : gmap Uuid GrantRow) (delegation_id : DelegationId) (expected_owner : OwnerId) :
    result (option DelegationGrant) StorageError :=
  match table !! DelegationId_0 delegation_id with
  | Some row =>
      if bool_decide (row_owner_id row = OwnerId_0 expected_owner)
      then let? grant := decode_grant (DelegationId_0 delegation_id) row in Ok (Some grant)
      else Ok None
  | None => Ok None
  end.

(** [... AND revoked_at IS NULL]; the answer is [rows_affected() == 1]. *)
Definition revoke (table : gmap Uuid GrantRow) (delegation_id : DelegationId) (expected_owner : OwnerId)
    (revoked_at : SystemTime) (revoked_by : UserId) : gmap Uuid GrantRow * result bool StorageError :=
  match table !! DelegationId_0 delegation_id with
  | Some row =>
      if bool_decide (row_owner_id row = OwnerId_0 expected_owner) && negb (is_some (row_revoked_at row))
      then (<[DelegationId_0 delegation_id :=
                mk_GrantRow (row_subject_user_id row) (row_owner_id row) (row_tool_name row)
                  (row_action_name row) (row_read_ceiling row) (row_write_ceiling row)
                  (row_expires_at row) (row_auth_epoch row) (row_issued_at row)
                  (Some (stored_time server revoked_at)) (Some (UserId_0 revoked_by))
                  (row_by row) (row_via row)]> table, Ok true)
      else (table, Ok false)
  | None => (table, Ok false)
  end.

End adapter.

End PgDelegationStore.

#[export] Instance PgDelegationStore_port (server : PgServer) : DelegationStorePort (gmap Uuid GrantRow) := {
  store_insert := PgDelegationStore.insert server;
  store_load := PgDelegationStore.load;
  store_revoke := PgDelegationStore.revoke server;
}.

(** ** Commands: what parses *)

Definition command_key (c : DelegatedCommand) : ScopeKey :=
  match command_action c with
  | None => KeyTool (command_tool c)
  | Some action => KeyAction (command_tool c) action
  end.

(** The command is in the grammar of scope keys and fits the column. *)
Definition command_wf (c : DelegatedCommand) : Prop :=
  key_wf (command_key c) /\ (chars_count (DelegatedCommand.display c) <= MAX_TOOL_ID_CHARS)%N.

(** The registry serves the command: a flat tool, or a declared action. *)
Definition registered (registry : list McpToolDescriptor) (c : DelegatedCommand) : Prop :=
  exists d, mcp_tool registry (ToolName_0 (command_tool c)) = Some d /\
    match command_action c with
    | None => McpToolDescriptor.is_flat d = true
    | Some action => ActionName_0 action ∈ (McpToolDescriptor.actions d).*1
    end.

Lemma command_display_key c : DelegatedCommand.display c = ScopeKey.display (command_key c).
Proof.
  unfold DelegatedCommand.display, command_key.
  destruct (command_action c); by rewrite ?key_display_action, ?key_display_tool.
Qed.

Lemma from_key_Some key c : DelegatedCommand.from_key key = Some c <-> key = command_key c.
Proof.
  destruct c as [t [a|]], key; cbn; unfold command_key; cbn; naive_solver.
Qed.

Lemma scope_key_Ok c : key_wf (command_key c) -> DelegatedCommand.scope_key c = Ok (command_key c).
Proof.
  unfold DelegatedCommand.scope_key, command_key. destruct (command_action c); [|done].
  intros (_ & _ & Hr). unfold ScopeKey.action. by rewrite bool_decide_false.
Qed.

Lemma existsb_action (l : list (rstring * ToolEffect)) name :
  existsb (fun '(known, _) => bool_decide (known = name)) l = true <-> name ∈ l.*1.
Proof.
  rewrite existsb_exists, list_elem_of_fmap. split.
  - intros ([k e] & Hin & ->%bool_decide_eq_true). exists (name, e). by rewrite list_elem_of_In.
  - intros ([k e] & -> & Hin%list_elem_of_In). exists (k, e). by rewrite bool_decide_true.
Qed.

(** A printed key has neither a slash nor whitespace. *)
Lemma safe_char_plain c : safe_char c = true -> c <> chr "/" /\ is_whitespace c = false.
Proof.
  unfold safe_char, is_ascii_alphanumeric, is_ascii_alphabetic, is_ascii_lowercase,
    is_ascii_uppercase, is_ascii_digit, is_whitespace, in_range.
  repeat (rewrite orb_true_iff || rewrite orb_false_iff || rewrite andb_true_iff || rewrite andb_false_iff
          || rewrite N.leb_le || rewrite N.leb_gt || rewrite N.eqb_eq || rewrite N.eqb_neq).
  change (chr "_") with 95%N. change (chr "-") with 45%N. change (chr ".") with 46%N.
  change (chr "/") with 47%N. lia.
Qed.

Lemma command_display_plain c : key_wf (command_key c) ->
  Forall (fun ch => ch <> chr "/" /\ is_whitespace ch = false) (DelegatedCommand.display c).
Proof.
  assert (Hn : forall s, valid_name s -> Forall (fun ch => ch <> chr "/" /\ is_whitespace ch = false) s).
  { intros s Hs%valid_name_chars. eapply list.Forall_impl; [exact Hs|]. apply safe_char_plain. }
  unfold command_key, DelegatedCommand.display. destruct (command_action c); cbn.
  - intros (Ht & Ha & _). apply list.Forall_app. split; [by apply Hn|]. constructor; [done|by apply Hn].
  - apply Hn.
Qed.

Lemma plain_trim s : Forall (fun ch => ch <> chr "/" /\ is_whitespace ch = false) s -> trim s = s.
Proof.
  intros H. rewrite list.Forall_forall in H. apply trim_fix. split; intros ch Hc; apply H.
  - destruct s; [discriminate|]. injection Hc as ->. constructor.
  - apply last_Some in Hc as [l ->]. set_solver.
Qed.

Lemma registered_tool_key_Ok value registry key :
  registered_tool_key value registry = Ok key <->
  exists c, key = command_key c /\ key_wf key /\ DelegatedCommand.display c = value /\ registered registry c.
Proof.
  unfold registered_tool_key. split.
  - destruct (contains (chr "/") value); [discriminate|].
    destruct (ScopeKey.parse value) as [k|] eqn:Ep; [|discriminate].
    apply scope_key_parse_sound in Ep as [Hwf Hd].
    destruct k as [tool|tool action|]; [| |discriminate].
    + destruct (mcp_tool registry (ToolName.as_str tool)) as [d|] eqn:Ed; [|discriminate].
      destruct (negb _ || negb _) eqn:Ef; [discriminate|]. intros [= <-]. bools.
      exists (mk_DelegatedCommand tool None). rewrite command_display_key. split_and!; try done.
      exists d. split; [done|]. cbn. unfold McpToolDescriptor.is_flat. by rewrite H, H0.
    + destruct (mcp_tool registry (ToolName.as_str tool)) as [d|] eqn:Ed; [|discriminate]. cbn [is_some_and].
      destruct (existsb _ _) eqn:Ee; [|discriminate]. intros [= <-]. apply existsb_action in Ee.
      exists (mk_DelegatedCommand tool (Some action)). rewrite command_display_key. split_and!; try done.
      by exists d.
  - intros (c & -> & Hwf & <- & d & Hd & Hc).
    assert (contains (chr "/") (DelegatedCommand.display c) = false) as ->.
    { apply contains_false. intros Hin. pose proof (command_display_plain c Hwf) as H.
      rewrite list.Forall_forall in H. by destruct (H _ Hin). }
    rewrite command_display_key, scope_key_parse_complete by done. unfold command_key.
    unfold ToolName.as_str, ActionName.as_str.
    destruct c as [tool [action|]]; cbn in Hd, Hc |- *; rewrite Hd; cbn [is_some_and].
    + apply existsb_action in Hc. by rewrite Hc.
    + unfold McpToolDescriptor.is_flat in Hc. bools. by rewrite H, H0.
Qed.

Lemma command_display_nonempty c : key_wf (command_key c) -> DelegatedCommand.display c <> [].
Proof.
  unfold command_key, DelegatedCommand.display. destruct c as [[t] [a|]]; cbn; [by destruct t|].
  by intros [? _]%valid_name_iff.
Qed.

(** The parser accepts exactly the registered commands, surrounded by blanks. *)
Lemma command_parse_Ok raw registry c :
  DelegatedCommand.parse raw registry = Ok c <->
  command_wf c /\ trim raw = DelegatedCommand.display c /\ registered registry c.
Proof.
  unfold DelegatedCommand.parse, command_wf. split.
  - destruct (check_trimmed_len raw MAX_TOOL_ID_CHARS) as [v|] eqn:Ev; [|discriminate].
    apply check_trimmed_len_Ok in Ev as (-> & _ & Hlen). cbn [map_err].
    destruct (registered_tool_key (trim raw) registry) as [key|] eqn:Ek; [|discriminate].
    apply registered_tool_key_Ok in Ek as (c' & -> & Hwf & Hd & Hreg).
    rewrite ok_or_Ok, from_key_Some. intros Hc.
    assert (c' = c) as <- by (destruct c as [? []], c' as [? []]; unfold command_key in Hc; cbn in Hc; congruence).
    by rewrite Hd.
  - intros ([Hwf Hlen] & Ht & Hreg).
    assert (check_trimmed_len raw MAX_TOOL_ID_CHARS = Ok (DelegatedCommand.display c)) as ->.
    { apply check_trimmed_len_Ok. split_and!; [done|by apply command_display_nonempty|done]. }
    cbn [map_err].
    assert (registered_tool_key (DelegatedCommand.display c) registry = Ok (command_key c)) as ->
      by (apply registered_tool_key_Ok; by exists c).
    by apply ok_or_Ok, from_key_Some.
Qed.

Lemma command_trim c : command_wf c -> trim (DelegatedCommand.display c) = DelegatedCommand.display c.
Proof. intros [Hwf _]. by apply plain_trim, command_display_plain. Qed.

Lemma from_storage_parts_Ok tool action c :
  DelegatedCommand.from_storage_parts tool action = Ok c <->
  command_wf c /\ tool = ToolName_0 (command_tool c) /\ action = ActionName_0 <$> command_action c.
Proof.
  unfold DelegatedCommand.from_storage_parts, command_wf, command_key, ToolName.parse, ActionName.parse,
    ScopeKey.action. split.
  - destruct (validate_name PTool tool) as [[]|] eqn:Et; [|discriminate]. cbn [map_err].
    destruct action as [act|]; cbn [map_err ok_or DelegatedCommand.from_key].
    + destruct (validate_name PAction act) as [[]|] eqn:Ea; [|discriminate]. cbn [map_err ToolName.as_str ToolName_0].
      destruct (bool_decide _) eqn:Er; [discriminate|]. cbn [map_err ok_or DelegatedCommand.from_key].
      destruct (N.ltb_spec MAX_TOOL_ID_CHARS (chars_count (DelegatedCommand.display
        (mk_DelegatedCommand (mk_ToolName tool) (Some (mk_ActionName act)))))) as [|Hl]; [discriminate|].
      intros [= <-]. apply bool_decide_eq_false in Er. cbn. split_and!; eauto with proxiima.
    + destruct (N.ltb_spec MAX_TOOL_ID_CHARS (chars_count (DelegatedCommand.display
        (mk_DelegatedCommand (mk_ToolName tool) None)))) as [|Hl]; [discriminate|].
      intros [= <-]. cbn. split_and!; eauto with proxiima.
  - intros ([Hwf Hlen%N.ltb_ge] & -> & ->). destruct c as [[t] [[a]|]];
      cbn [command_tool command_action ToolName_0 ActionName_0 fmap option_fmap option_map key_wf] in Hwf |- *.
    + destruct Hwf as (Ht & Ha & Hr). rewrite (valid_name_validates PTool), (valid_name_validates PAction) by done.
      cbn [map_err ToolName.as_str ToolName_0]. rewrite bool_decide_false by done.
      cbn [map_err ok_or DelegatedCommand.from_key]. by rewrite Hlen.
    + rewrite (valid_name_validates PTool) by done. cbn [map_err ok_or DelegatedCommand.from_key]. by rewrite Hlen.
Qed.

(** A delegated command survives every representation it travels in.  The
    parser accepts a text exactly when its trimmed form is the printed form of a
    command in the scope-key grammar, of at most 200 characters, that the
    registry serves (a flat tool, or a declared action of a dispatcher, never a
    resource); the accepted command parses back from its printed form, is
    rebuilt from its two stored columns, and its scope is the one key that
    prints as the command. *)
Theorem delegated_command_round_trip (raw : rstring) (registry : list McpToolDescriptor)
    (c : DelegatedCommand) :
  (DelegatedCommand.parse raw registry = Ok c <->
   command_wf c /\ trim raw = DelegatedCommand.display c /\ registered registry c) /\
  (command_wf c ->
   (DelegatedCommand.parse (DelegatedCommand.display c) registry = Ok c <-> registered registry c) /\
   DelegatedCommand.from_storage_parts (ToolName.as_str (command_tool c))
     (ActionName.as_str <$> command_action c) = Ok c /\
   exists key, DelegatedCommand.tool_scope c = Ok (ScopePalette [key]) /\
     ScopeKey.parse (DelegatedCommand.display c) = Ok key).
Proof.
  split; [apply command_parse_Ok|]. intros Hwf. split; [|split].
  - rewrite command_parse_Ok. pose proof (command_trim c Hwf). tauto.
  - by apply from_storage_parts_Ok.
  - exists (command_key c). destruct Hwf as [Hwf _]. unfold DelegatedCommand.tool_scope.
    rewrite scope_key_Ok by done. split; [done|]. rewrite command_display_key.
    by apply scope_key_parse_complete.
Qed.

(** A dispatcher with one action, and the command that names it. *)
Definition sample_command : DelegatedCommand :=
  mk_DelegatedCommand (mk_ToolName (str "notes")) (Some (mk_ActionName (str "archive"))).

Definition sample_tools : list McpToolDescriptor :=
  [mk_McpToolDescriptor (str "notes") (str "Notes") None [(str "archive", None)]
     [mk_McpActionArgSpec (str "archive") (str "Archive") [] [] (Destructive Idempotent) Shared]
     [] None Shared].

Lemma delegated_command_round_trip_witness :
  DelegatedCommand.parse (str " notes:archive ") sample_tools = Ok sample_command /\
  DelegatedCommand.from_storage_parts (str "notes") (Some (str "archive")) = Ok sample_command.
Proof.
  assert (H : DelegatedCommand.parse (str " notes:archive ") sample_tools = Ok sample_command) by reflexivity.
  split; [exact H|].
  destruct (delegated_command_round_trip (str " notes:archive ") sample_tools sample_command) as [Hp Hr].
  destruct (proj1 Hp H) as [Hwf _]. destruct (Hr Hwf) as (_ & Hs & _). exact Hs.
Defined.

(** ** The service's checks *)

Section service.
Context {C : Type} (self : DelegatedAuthorityService C).

(** The declaration the registry gives the command's key. *)
Definition command_declaration (c : DelegatedCommand) : KeyDeclaration :=
  match mcp_tool (svc_registry self) (ToolName_0 (command_tool c)) with
  | Some d => McpToolDescriptor.declaration d (ActionName_0 <$> command_action c)
  | None => KeyDeclaration.UNDECLARED
  end.

(** The command is in the grammar and served by this runtime. *)
Definition command_current (c : DelegatedCommand) : Prop :=
  command_wf c /\ registered (svc_registry self) c.

(** The role port answers a role on [owner] that covers [ceiling]. *)
Definition role_held (subject : UserId) (owner : OwnerId) (ceiling : Role) : Prop :=
  exists roles role,
    resolve_roles_for_subject (svc_owner_access self) subject = Ok roles /\
    roles_subject roles = subject /\ OwnerRoles.role_for roles owner = Some role /\
    Role.dominates role ceiling = true.

(** The identity has not been revoked since [epoch]. *)
Definition epoch_current (subject : UserId) (epoch : N) : Prop :=
  (current_auth_epoch (svc_authenticator self) (OwnerId.from_user subject) <= epoch)%N.

Lemma validate_current_command_Ok c :
  DelegatedAuthorityService.validate_current_command self c = Ok tt <-> command_current c.
Proof.
  unfold DelegatedAuthorityService.validate_current_command, command_current. split.
  - destruct (DelegatedCommand.parse _ _) as [c'|] eqn:Ep; [|discriminate]. cbn [map_err].
    destruct (bool_decide (c' = c)) eqn:Ec; [|discriminate]. intros _. bools. subst c'.
    by apply command_parse_Ok in Ep as (? & _ & ?).
  - intros [Hwf Hreg].
    assert (DelegatedCommand.parse (DelegatedCommand.display c) (svc_registry self) = Ok c) as ->
      by (apply command_parse_Ok; eauto using command_trim).
    cbn [map_err]. by rewrite bool_decide_true.
Qed.

Lemma validate_scopes_Ok caps c :
  command_current c ->
  DelegatedAuthorityService.validate_scopes self caps c = Ok tt <->
  CapabilitySet.admits caps (command_key c) (command_declaration c) = true /\
  ServedSurface.admits (svc_served_surface self) (command_key c) (command_declaration c) = true.
Proof.
  intros [[Hwf _] (d & Hd & _)].
  unfold DelegatedAuthorityService.validate_scopes, command_declaration, ToolName.as_str, ActionName.as_str.
  rewrite Hd. cbn [ok_or]. rewrite scope_key_Ok by done. cbn [map_err].
  destruct (CapabilitySet.admits _ _ _), (ServedSurface.admits _ _ _); cbn; naive_solver.
Qed.

Lemma revalidate_epoch_Ok subject epoch :
  DelegatedAuthorityService.revalidate_epoch self subject epoch = Ok tt <-> epoch_current subject epoch.
Proof.
  unfold DelegatedAuthorityService.revalidate_epoch, epoch_current.
  destruct (N.ltb_spec epoch (current_auth_epoch (svc_authenticator self) (OwnerId.from_user subject)));
    split; try done; lia.
Qed.

Lemma current_roles_Ok subject roles :
  DelegatedAuthorityService.current_roles self subject = Ok roles <->
  resolve_roles_for_subject (svc_owner_access self) subject = Ok roles /\ roles_subject roles = subject.
Proof.
  unfold DelegatedAuthorityService.current_roles.
  destruct (resolve_roles_for_subject _ _) as [r|]; cbn [map_err]; [|naive_solver].
  destruct (bool_decide _) eqn:E; cbn [negb]; bools; naive_solver.
Qed.

Lemma validate_host_bearer_Ok now source subject expires_at :
  DelegatedAuthorityService.validate_host_bearer now source = Ok (subject, expires_at) <->
  AuthzContext.auth_path source = HostBearer /\ ctx_forwarded_owner source = None /\
  AuthzContext.subject source = Some subject /\
  exists scope bearer sealed,
    AuthzContext.owner_scope source = Some scope /\ AuthzContext.expires_at source = Some bearer /\
    scope_expires_at scope = Some sealed /\ expires_at = Z.min bearer sealed /\ (now < expires_at)%Z.
Proof.
  unfold DelegatedAuthorityService.validate_host_bearer.
  destruct (bool_decide _) eqn:Ep; bools; cbn [negb orb]; [|naive_solver].
  destruct (ctx_forwarded_owner source) eqn:Ef; cbn [is_some]; [naive_solver|].
  destruct (AuthzContext.subject source); cbn [ok_or]; [|naive_solver].
  destruct (AuthzContext.owner_scope source) as [scope|]; cbn [ok_or]; [|naive_solver].
  destruct (AuthzContext.expires_at source) as [b|]; cbn [ok_or]; [|naive_solver].
  destruct (scope_expires_at scope) as [s|] eqn:Es; cbn [ok_or]; [|naive_solver].
  destruct (Z.leb_spec (Z.min b s) now) as [Hle|Hlt].
  - split; [discriminate|]. intros (_ & _ & _ & ? & ? & ? & [= <-] & [= <-] & Hs & -> & ?).
    rewrite Es in Hs. injection Hs as <-. lia.
  - split; [naive_solver|]. intros (_ & _ & [= ->] & ? & ? & ? & [= <-] & [= <-] & Hs & -> & ?).
    rewrite Es in Hs. by injection Hs as <-.
Qed.

(** *** Issuing *)

(** [g] is the grant the bearer [source] may issue. *)
Record grantable (now now' : SystemTime) (source : AuthzContext) (owner : OwnerId)
    (command : DelegatedCommand) (ceiling : Role) (g : DelegationGrant) : Prop := mk_grantable {
  gr_bearer : AuthzContext.auth_path source = HostBearer /\ ctx_forwarded_owner source = None;
  gr_subject : AuthzContext.subject source = Some (grant_subject g);
  gr_sealed : exists scope role,
    AuthzContext.owner_scope source = Some scope /\ OwnerScope.subject scope = grant_subject g /\
    grant_writer g = scope_writer scope /\
    OwnerScope.role_for_owner scope owner = Some role /\ Role.dominates role ceiling = true /\
    exists bearer sealed, AuthzContext.expires_at source = Some bearer /\
      scope_expires_at scope = Some sealed /\ grant_expires_at g = Z.min bearer sealed;
  gr_target : grant_owner g = owner /\ grant_command g = command /\ grant_role_ceiling g = ceiling;
  gr_finite : (now < grant_expires_at g)%Z /\ (now' < grant_expires_at g)%Z /\ grant_issued_at g = now';
  gr_unmanaged : Role.manages ceiling = false;
  gr_epoch : grant_auth_epoch g = AuthzContext.auth_epoch source /\
    epoch_current (grant_subject g) (grant_auth_epoch g);
  gr_held : role_held (grant_subject g) owner ceiling;
  gr_command : command_current command;
  gr_admitted :
    CapabilitySet.admits (ctx_capabilities source) (command_key command) (command_declaration command) = true /\
    ServedSurface.admits (svc_served_surface self) (command_key command) (command_declaration command) = true;
  gr_fresh : grant_revoked_at g = None /\ grant_revoked_by g = None;
}.

Lemma issue_grant_sound now now' id source owner command ceiling g :
  ctx_inv source ->
  DelegatedAuthorityService.issue_grant now now' id self source owner command ceiling = Ok g ->
  grant_delegation_id g = mk_DelegationId id /\ grantable now now' source owner command ceiling g.
Proof.
  intros Hinv. unfold DelegatedAuthorityService.issue_grant. intros H.
  destruct (DelegatedAuthorityService.validate_host_bearer now source) as [[subject x]|] eqn:Eb; [|discriminate].
  apply validate_host_bearer_Ok in Eb as (Hp & Hf & Hs & scope & b & z & Hsc & Hb & Hz & -> & Hlt).
  rewrite Hsc in H. cbn [ok_or] in H.
  destruct (OwnerScope.role_for_owner scope owner) as [role|] eqn:Er; cbn [is_some_and negb] in H; [|discriminate].
  destruct (Role.dominates role ceiling) eqn:Ed; [|discriminate]. cbn [negb] in H.
  destruct (Z.leb_spec (Z.min b z) now') as [|Hlt']; [discriminate|].
  destruct (Role.manages ceiling) eqn:Em; [discriminate|].
  destruct (DelegatedAuthorityService.revalidate_epoch _ _ _) as [[]|] eqn:Ee; [|discriminate].
  apply revalidate_epoch_Ok in Ee.
  destruct (DelegatedAuthorityService.current_roles _ _) as [roles|] eqn:Ec; [|discriminate].
  apply current_roles_Ok in Ec as [Hres Hrs].
  destruct (OwnerRoles.role_for roles owner) as [cur|] eqn:Ero; [|discriminate]. cbn [ok_or] in H.
  destruct (Role.dominates cur ceiling) eqn:Edc; [|discriminate]. cbn [negb] in H.
  destruct (DelegatedAuthorityService.validate_current_command _ _) as [[]|] eqn:Ecmd; [|discriminate].
  apply validate_current_command_Ok in Ecmd.
  destruct (DelegatedAuthorityService.validate_scopes _ _ _) as [[]|] eqn:Es; [|discriminate].
  apply validate_scopes_Ok in Es; [|done]. injection H as <-. split; [done|].
  assert (Hsub : OwnerScope.subject scope = subject).
  { destruct (inv_sealed source Hinv scope Hsc) as [Hro _]. apply (inv_subject source Hinv) in Hro.
    unfold AuthzContext.subject in Hs. unfold OwnerScope.subject. congruence. }
  constructor; cbn; rewrite ?Hsub; try done.
  - exists scope, role. split_and!; try done. by exists b, z.
  - by exists roles, cur.
Qed.

Lemma issue_grant_complete now now' id source owner command ceiling g :
  grantable now now' source owner command ceiling g -> grant_delegation_id g = mk_DelegationId id ->
  DelegatedAuthorityService.issue_grant now now' id self source owner command ceiling = Ok g.
Proof.
  intros [[Hp Hf] Hs (scope & role & Hsc & Hsub & Hw & Hr & Hd & b & z & Hb & Hz & Hx) (Ho & Hc & Hcl)
    (Hlt & Hlt' & Hi) Hm [Hep Hepc] (roles & cur & Hres & Hrs & Hro & Hcd) Hcur Hadm [Hv1 Hv2]] Hid.
  unfold DelegatedAuthorityService.issue_grant.
  assert (DelegatedAuthorityService.validate_host_bearer now source = Ok (grant_subject g, grant_expires_at g)) as ->
    by (apply validate_host_bearer_Ok; split_and!; try done; by exists scope, b, z).
  rewrite Hsc. cbn [ok_or]. rewrite Hr. cbn [is_some_and]. rewrite Hd. cbn [negb].
  destruct (Z.leb_spec (grant_expires_at g) now'); [lia|]. rewrite Hm.
  rewrite Hep in Hepc. rewrite (proj2 (revalidate_epoch_Ok _ _)) by done.
  rewrite (proj2 (current_roles_Ok _ _) (conj Hres Hrs)). rewrite Hro. cbn [ok_or]. rewrite Hcd. cbn [negb].
  rewrite (proj2 (validate_current_command_Ok _)) by done.
  rewrite (proj2 (validate_scopes_Ok _ _ Hcur)) by done.
  unfold DelegationGrant.issued. destruct g; cbn in *; congruence.
Qed.

(** *** Redeeming *)

Record redeemable (now : SystemTime) (g : DelegationGrant) : Prop := mk_redeemable {
  rd_live : grant_revoked_at g = None;
  rd_unexpired : (now < grant_expires_at g)%Z;
  rd_command : command_current (grant_command g);
  rd_served : ServedSurface.admits (svc_served_surface self) (command_key (grant_command g))
                (command_declaration (grant_command g)) = true;
  rd_epoch : epoch_current (grant_subject g) (grant_auth_epoch g);
  rd_held : role_held (grant_subject g) (grant_owner g) (grant_role_ceiling g);
}.

(** The roles and the context of a redeemed phase. *)
Definition redeemed_roles (g : DelegationGrant) : OwnerRoles :=
  OwnerRoles.scoped_to (grant_subject g) (grant_owner g) (grant_role_ceiling g).

Definition redeemed_context (g : DelegationGrant) : AuthzContext :=
  mk_AuthzContext
    (mk_Identity (Some (grant_subject g)) (Some (grant_writer g)) (OwnerId.from_user (grant_subject g))
       (AuthzContext.accessible (redeemed_roles g)) (Some (grant_expires_at g)) (grant_auth_epoch g) None)
    (mk_CapabilitySet (ScopePalette [command_key (grant_command g)]) (svc_served_surface self))
    Delegated (Some (redeemed_roles g))
    (Sealed (mk_OwnerScope (redeemed_roles g) (grant_writer g) (Some (grant_expires_at g)) None None))
    None PublicationExtensions.new None None None None.

Definition redeemed_phase (g : DelegationGrant) : DelegatedPhase :=
  mk_DelegatedPhase (redeemed_context g) (grant_expires_at g) (svc_runtime_binding self).

Lemma meet_dominated a b : Role.dominates a b = true -> Role.meet a b = b.
Proof.
  intros H. apply dominates_antisym; [apply dominates_meet; eauto with proxiima|].
  by destruct (proj1 (dominates_meet a b (Role.meet a b)) (dominates_refl _)).
Qed.

Lemma capabilities_all_admit key declared : CapabilitySet.admits CapabilitySet.all key declared = true.
Proof. apply orb_true_r. Qed.

Context {S : Type} `{DelegationStorePort S}.

Lemma redeem_sound now (store : S) id owner command phase :
  DelegatedAuthorityService.redeem_phase now self store id owner command = Ok phase ->
  exists g, store_load store id owner = Ok (Some g) /\
    grant_delegation_id g = id /\ grant_owner g = owner /\ grant_command g = command /\
    redeemable now g /\ phase = redeemed_phase g.
Proof.
  unfold DelegatedAuthorityService.redeem_phase. intros Hr.
  destruct (store_load store id owner) as [[g|]|]; cbn [map_err ok_or] in Hr; try discriminate.
  destruct (negb _ || negb _) eqn:E1; [discriminate|].
  destruct (negb (bool_decide (grant_command g = command))) eqn:E2; [discriminate|].
  destruct (grant_revoked_at g) eqn:E3; cbn [is_some] in Hr; [discriminate|].
  destruct (Z.leb_spec (grant_expires_at g) now); [discriminate|]. bools. subst id owner command.
  destruct (DelegatedAuthorityService.validate_current_command _ _) as [[]|] eqn:Ecmd; [|discriminate].
  apply validate_current_command_Ok in Ecmd.
  destruct (DelegatedAuthorityService.validate_scopes _ _ _) as [[]|] eqn:Es; [|discriminate].
  apply validate_scopes_Ok in Es as [_ Hs]; [|done].
  destruct (DelegatedAuthorityService.revalidate_epoch _ _ _) as [[]|] eqn:Ee; [|discriminate].
  apply revalidate_epoch_Ok in Ee.
  destruct (DelegatedAuthorityService.current_roles _ _) as [roles|] eqn:Ec; [|discriminate].
  apply current_roles_Ok in Ec as [Hres Hrs].
  destruct (OwnerRoles.role_for roles (grant_owner g)) as [cur|] eqn:Ero; [|discriminate]. cbn [ok_or] in Hr.
  destruct (Role.dominates cur (grant_role_ceiling g)) eqn:Ed; [|discriminate]. cbn [negb] in Hr.
  rewrite meet_dominated in Hr by done. unfold DelegatedCommand.tool_scope in Hr.
  rewrite scope_key_Ok in Hr by apply Ecmd. cbn [map_err] in Hr.
  exists g. split_and!; try done; [by constructor; [..|exists roles, cur]|].
  cbn in Hr. by injection Hr as <-.
Qed.

Lemma redeem_complete now (store : S) id owner g :
  store_load store id owner = Ok (Some g) -> grant_delegation_id g = id -> grant_owner g = owner ->
  redeemable now g ->
  DelegatedAuthorityService.redeem_phase now self store id owner (grant_command g) = Ok (redeemed_phase g).
Proof.
  intros Hl <- <- [Hv Hlt Hcur Hs He (roles & cur & Hres & Hrs & Hro & Hd)].
  unfold DelegatedAuthorityService.redeem_phase. rewrite Hl. cbn [map_err ok_or].
  rewrite !bool_decide_true by done. cbn [negb orb]. rewrite Hv. cbn [is_some].
  destruct (Z.leb_spec (grant_expires_at g) now); [lia|].
  rewrite (proj2 (validate_current_command_Ok _)) by done.
  rewrite (proj2 (validate_scopes_Ok _ _ Hcur)) by eauto using capabilities_all_admit.
  rewrite (proj2 (revalidate_epoch_Ok _ _)) by done.
  rewrite (proj2 (current_roles_Ok _ _) (conj Hres Hrs)). rewrite Hro. cbn [ok_or].
  rewrite Hd. cbn [negb]. rewrite meet_dominated by done. unfold DelegatedCommand.tool_scope.
  rewrite scope_key_Ok by apply Hcur. done.
Qed.
End service.

(** ** What a store promises *)

(** The grant as its timestamps come back from the store. *)
Definition with_times (f : SystemTime -> SystemTime) (g : DelegationGrant) : DelegationGrant :=
  mk_DelegationGrant (grant_delegation_id g) (grant_subject g) (grant_writer g) (grant_owner g)
    (grant_command g) (grant_role_ceiling g) (f (grant_expires_at g)) (grant_auth_epoch g)
    (f (grant_issued_at g)) (grant_revoked_at g) (grant_revoked_by g).

(** The grant marked revoked. *)
Definition revoked_as (at_ : SystemTime) (by_ : UserId) (g : DelegationGrant) : DelegationGrant :=
  mk_DelegationGrant (grant_delegation_id g) (grant_subject g) (grant_writer g) (grant_owner g)
    (grant_command g) (grant_role_ceiling g) (grant_expires_at g) (grant_auth_epoch g)
    (grant_issued_at g) (Some at_) (Some by_).

(** A freshly issued grant the columns can hold. *)
Record storable (f : SystemTime -> SystemTime) (g : DelegationGrant) : Prop := mk_storable {
  st_command : command_wf (grant_command g);
  st_ceiling : Role.manages (grant_role_ceiling g) = false /\ role_wf (grant_role_ceiling g);
  st_times : (f (grant_issued_at g) < f (grant_expires_at g))%Z;
  st_live : grant_revoked_at g = None /\ grant_revoked_by g = None;
}.

Class DelegationStoreLaws (S : Type) `{DelegationStorePort S} := {
  persisted_time : SystemTime -> SystemTime;
  persisted_time_le t : (persisted_time t <= t)%Z;
  load_identity s id owner g :
    store_load s id owner = Ok (Some g) -> grant_delegation_id g = id /\ grant_owner g = owner;
  load_inserted s s' g :
    store_insert s g = (s', Ok tt) -> storable persisted_time g ->
    store_load s' (grant_delegation_id g) (grant_owner g) = Ok (Some (with_times persisted_time g));
  insert_frame s s' r g id owner :
    store_insert s g = (s', r) -> grant_delegation_id g <> id ->
    store_load s' id owner = store_load s id owner;
  load_revoked s s' b id owner at_ by_ g :
    store_load s id owner = Ok (Some g) -> store_revoke s id owner at_ by_ = (s', Ok b) ->
    exists g', store_load s' id owner = Ok (Some g') /\ is_Some (grant_revoked_at g') /\
      (g' = g \/ exists at', g' = revoked_as at' by_ g);
  revoke_frame s s' r id' owner' at_ by_ id owner :
    store_revoke s id' owner' at_ by_ = (s', r) -> id' <> id ->
    store_load s' id owner = store_load s id owner;
}.

(** Store traffic about grants other than [id]. *)
Inductive other_traffic {S} `{DelegationStorePort S} (id : DelegationId) : S -> S -> Prop :=
| other_insert s s' r g :
    grant_delegation_id g <> id -> store_insert s g = (s', r) -> other_traffic id s s'
| other_revoke s s' r id' owner at_ by_ :
    id' <> id -> store_revoke s id' owner at_ by_ = (s', r) -> other_traffic id s s'.

Lemma other_traffic_load {S} `{DelegationStoreLaws S} id owner (s s' : S) :
  rtc (other_traffic id) s s' -> store_load s' id owner = store_load s id owner.
Proof.
  induction 1 as [|x y z Hstep _ IH]; [done|]. rewrite IH.
  destruct Hstep as [u v r g Hne Hi|u v r id' o a b Hne Hr].
  - by eapply insert_frame.
  - by eapply revoke_frame.
Qed.

(** *** The Postgres adapter keeps the promises *)

(** The adapter's reading of a row it wrote. *)
Lemma decode_grant_Ok id row g :
  PgDelegationStore.decode_grant id row = Ok g ->
  grant_delegation_id g = mk_DelegationId id /\ grant_owner g = mk_OwnerId (row_owner_id row) /\
  grant_revoked_at g = row_revoked_at row.
Proof.
  unfold PgDelegationStore.decode_grant, DelegationGrant.from_storage. intros H. run_ok. done.
Qed.

Lemma decode_inserted f id g :
  grant_delegation_id g = mk_DelegationId id -> storable f g ->
  PgDelegationStore.decode_grant id
    (mk_GrantRow (UserId_0 (grant_subject g)) (OwnerId_0 (grant_owner g))
       (ToolName.as_str (command_tool (grant_command g)))
       (ActionName.as_str <$> command_action (grant_command g))
       (Role.read_ceiling (grant_role_ceiling g)) (Role.write_ceiling (grant_role_ceiling g))
       (f (grant_expires_at g)) (Z.of_N (grant_auth_epoch g)) (f (grant_issued_at g)) None None
       (writer_by (grant_writer g)) (writer_via (grant_writer g)))
  = Ok (with_times f g).
Proof.
  intros Hid [Hc [Hm Hwf] Ht [Hr1 Hr2]].
  destruct g as [gid [gs] [gb gv] [go] gc ceil gx ge gi ra rb]; cbn in *; subst.
  assert (Hrole : Role.new (Role.read_ceiling ceil) (Role.write_ceiling ceil) false = Ok ceil).
  { unfold Role.new, Role.read_ceiling, Role.write_ceiling. unfold role_wf in Hwf.
    destruct (Nat.ltb_spec (AccessCeiling.rank (role_read ceil)) (AccessCeiling.rank (role_write ceil))); [lia|].
    destruct ceil; cbn in Hm. by rewrite <-Hm. }
  assert (Hcmd : DelegatedCommand.from_storage_parts (ToolName.as_str (command_tool gc))
            (ActionName.as_str <$> command_action gc) = Ok gc) by by apply from_storage_parts_Ok.
  unfold PgDelegationStore.decode_grant.
  cbn [row_read_ceiling row_write_ceiling row_auth_epoch]. rewrite Hrole. cbn [map_err].
  destruct (Z.ltb_spec (Z.of_N ge) 0); [lia|]. rewrite N2Z.id. unfold DelegationGrant.from_storage.
  cbn [stored_role_ceiling stored_expires_at stored_issued_at stored_revoked_at stored_revoked_by
       stored_tool stored_action row_expires_at row_issued_at row_revoked_at row_revoked_by_user_id
       row_tool_name row_action_name].
  rewrite Hm, Hcmd. by destruct (Z.leb_spec (f gx) (f gi)); [lia|].
Qed.

Lemma decode_revoked id row g at_ by_ :
  PgDelegationStore.decode_grant id row = Ok g -> row_revoked_at row = None ->
  PgDelegationStore.decode_grant id
    (mk_GrantRow (row_subject_user_id row) (row_owner_id row) (row_tool_name row) (row_action_name row)
       (row_read_ceiling row) (row_write_ceiling row) (row_expires_at row) (row_auth_epoch row)
       (row_issued_at row) (Some at_) (Some (UserId_0 by_)) (row_by row) (row_via row))
  = Ok (revoked_as at_ by_ g).
Proof.
  unfold PgDelegationStore.decode_grant, DelegationGrant.from_storage. cbn. intros H Hn. rewrite Hn in H.
  destruct (map_err _ _) as [role|]; [|discriminate]. destruct (if (_ <? _)%Z then _ else _); [|discriminate].
  cbn in H |- *. destruct (Role.manages role); [discriminate|]. destruct (_ <=? _)%Z; [discriminate|].
  destruct (row_revoked_by_user_id row); [discriminate|]. cbn in H |- *.
  destruct (DelegatedCommand.from_storage_parts _ _); [|discriminate]. injection H as <-. by destruct by_.
Qed.

Lemma pg_load_revoked server table table' b id owner at_ by_ g :
  PgDelegationStore.load table id owner = Ok (Some g) ->
  PgDelegationStore.revoke server table id owner at_ by_ = (table', Ok b) ->
  exists g', PgDelegationStore.load table' id owner = Ok (Some g') /\ is_Some (grant_revoked_at g') /\
    (g' = g \/ exists at', g' = revoked_as at' by_ g).
Proof.
  unfold PgDelegationStore.load, PgDelegationStore.revoke. destruct id as [id]. cbn.
  destruct (table !! id) as [row|] eqn:Er; [|discriminate].
  destruct (bool_decide (row_owner_id row = OwnerId_0 owner)) eqn:Eo; [|discriminate].
  destruct (PgDelegationStore.decode_grant id row) as [g0|] eqn:Ed; [|discriminate]. intros [= <-]. cbn.
  destruct (row_revoked_at row) as [t|] eqn:Et; cbn; intros [= <- <-].
  - exists g0. rewrite Er, Eo, Ed. split_and!; [done| |by left].
    apply decode_grant_Ok in Ed as (_ & _ & ->). by rewrite Et.
  - exists (revoked_as (stored_time server at_) by_ g0). rewrite lookup_insert_eq. cbn. rewrite Eo.
    rewrite (decode_revoked id row g0) by done. split_and!; [done|by eexists|right; by eexists].
Qed.

(** Frame of a table update at one key. *)
Lemma pg_load_insert_ne (table : gmap Uuid GrantRow) key row id owner :
  mk_DelegationId key <> id ->
  PgDelegationStore.load (<[key := row]> table) id owner = PgDelegationStore.load table id owner.
Proof.
  intros Hne. unfold PgDelegationStore.load. destruct id as [id]. cbn.
  by rewrite lookup_insert_ne by congruence.
Qed.

(** The adapter is a lawful store on a server whose stored timestamps are never
    later than the bound ones. *)
Section pg_laws.
Context (server : PgServer) (Hserver : forall t, (stored_time server t <= t)%Z).

#[local] Instance pg_port : DelegationStorePort (gmap Uuid GrantRow) := PgDelegationStore_port server.

#[refine] Definition PgDelegationStore_laws : DelegationStoreLaws (gmap Uuid GrantRow) :=
  {| persisted_time := stored_time server; persisted_time_le := Hserver |}.
Proof.
  - intros table id owner g. cbn. unfold PgDelegationStore.load. destruct id as [id]. cbn.
    destruct (table !! id) as [row|]; [|discriminate]. destruct (bool_decide _) eqn:Eo; [|discriminate].
    destruct (PgDelegationStore.decode_grant id row) eqn:Ed; [|discriminate]. intros [= <-].
    apply decode_grant_Ok in Ed as (-> & -> & _). bools. by destruct owner; cbn in *; subst.
  - intros table table' g. cbn. unfold PgDelegationStore.insert, PgDelegationStore.load.
    destruct (_ <=? _)%N; [discriminate|]. destruct (table !! _) eqn:Et; [discriminate|]. intros [= <-] Hst.
    rewrite lookup_insert_eq. cbn. rewrite bool_decide_true by done.
    rewrite (decode_inserted (stored_time server)); [done|by destruct (grant_delegation_id g)|done].
  - intros table table' r g id owner. cbn. unfold PgDelegationStore.insert.
    destruct (_ <=? _)%N; [by intros [= <- <-]|]. destruct (table !! _); intros [= <- <-] Hne; [done|].
    apply pg_load_insert_ne. by destruct (grant_delegation_id g).
  - intros *. apply pg_load_revoked.
  - intros table table' r id' owner' at_ by_ id owner. cbn. unfold PgDelegationStore.revoke.
    destruct (table !! _); [destruct (bool_decide _ && _)|]; intros [= <- <-] Hne; try done.
    apply pg_load_insert_ne. by destruct id'.
Defined.

End pg_laws.

(** ** Properties *)

(** C6. Issuing grants exactly what a live host bearer holds.  For any reachable
    caller: when the caller is a direct host bearer with a finite unexpired
    deadline, the command is registered and both the caller's capabilities and
    the deployment admit its key, the requested ceiling is without management
    and covered both by the caller's sealed role and by the role the port
    answers now, and the identity's epoch has not advanced, then one row is
    written, carrying that subject, writer, owner, command and ceiling and the
    earlier of the two deadlines.  In every other case the answer is an error
    and the store is untouched. *)
Theorem issue_correct {C S} `{DelegationStorePort S} (self : DelegatedAuthorityService C)
    (now now' : SystemTime) (id : Uuid) (store : S) (source : AuthzContext) (owner : OwnerId)
    (command : DelegatedCommand) (ceiling : Role) (Hsource : ctx_reachable source) :
  let answer := DelegatedAuthorityService.issue now now' id self store source owner command ceiling in
  (forall g, grant_delegation_id g = mk_DelegationId id ->
     grantable self now now' source owner command ceiling g ->
     exists store' r, store_insert store g = (store', r) /\ answer.1 = store' /\
       (forall issued, answer.2 = Ok issued <->
          r = Ok tt /\ issued = mk_DelegationIssued (mk_DelegationId id) (grant_expires_at g))) /\
  (forall issued, answer.2 = Ok issued ->
     exists g, grant_delegation_id g = mk_DelegationId id /\
       grantable self now now' source owner command ceiling g /\
       store_insert store g = (answer.1, Ok tt)) /\
  ((forall g, ~ grantable self now now' source owner command ceiling g) ->
     answer.1 = store /\ exists e, answer.2 = Err e).
Proof.
  apply ctx_inv_reachable in Hsource. unfold DelegatedAuthorityService.issue.
  destruct (DelegatedAuthorityService.issue_grant now now' id self source owner command ceiling)
    as [g|e] eqn:Eg; cbn.
  - apply issue_grant_sound in Eg as Hg; [|done]. destruct Hg as [Hid Hg].
    destruct (store_insert store g) as [store' r] eqn:Ei. cbn. split_and!.
    + intros g' Hid' Hg'%(issue_grant_complete self now now' id); [|done]. rewrite Eg in Hg'. injection Hg' as <-.
      exists store', r. split_and!; [done..|]. intros issued. rewrite Hid. destruct r as [[]|]; cbn; naive_solver.
    + intros issued Hi. exists g. destruct r as [[]|]; [done|discriminate].
    + intros Hn. by destruct (Hn g).
  - split_and!.
    + intros g Hid Hg%(issue_grant_complete self now now' id); [|done]. congruence.
    + discriminate.
    + intros _. split; [done|]. by exists e.
Qed.

(** C4. A redeemed phase is the grant and nothing more.  Redemption succeeds
    only when the stored grant matches the expected id, owner and command and
    is unrevoked, unexpired, still registered and served, of a current epoch,
    and its subject still holds the ceiling.  The phase's roles are the ceiling
    on that owner alone, it admits no key but the command's own, it never
    manages, it ends at the grant's deadline and only works on this runtime, and
    every write permit it obtains is for that owner, within the ceiling, and
    before the deadline. *)
Theorem redeemed_phase_is_the_grant {C S} `{DelegationStorePort S} (self : DelegatedAuthorityService C)
    (now : SystemTime) (store : S) (id : DelegationId) (owner : OwnerId) (command : DelegatedCommand)
    (phase : DelegatedPhase)
    (Hphase : DelegatedAuthorityService.redeem_phase now self store id owner command = Ok phase) :
  exists g,
    store_load store id owner = Ok (Some g) /\ grant_delegation_id g = id /\ grant_owner g = owner /\
    grant_command g = command /\ redeemable self now g /\
    AuthzContext.subject (phase_authz phase) = Some (grant_subject g) /\
    AuthzContext.writer (phase_authz phase) = Some (grant_writer g) /\
    (forall other, AuthzContext.role_for_owner (phase_authz phase) other
                   = if bool_decide (other = owner) then Some (grant_role_ceiling g) else None) /\
    (forall key declared, CapabilitySet.admits (ctx_capabilities (phase_authz phase)) key declared = true ->
       key = command_key command) /\
    (forall now' e target operation permit,
       is_read_operation operation = false ->
       (write_permit now' e (OfPhase phase) target operation).2 = Ok permit ->
       permit_owner (owner_write permit) = owner /\
       Role.may_write (grant_role_ceiling g) (permit_access_kind (owner_write permit)) = true /\
       (now' < grant_expires_at g)%Z /\ delegation_runtime_binding e = svc_runtime_binding self).
Proof.
  apply redeem_sound in Hphase as (g & Hl & Hid & <- & <- & Hr & ->). exists g.
  assert (Hroles : forall other, AuthzContext.role_for_owner (redeemed_context self g) other
            = if bool_decide (other = grant_owner g) then Some (grant_role_ceiling g) else None)
    by (intros other; apply scoped_to_role_for).
  split_and!; try done.
  - intros key declared Hadm. cbn in Hadm. unfold CapabilitySet.admits, ToolScope.allows in Hadm. cbn in Hadm.
    apply andb_prop in Hadm as [Hin _]. rewrite orb_false_r in Hin. by apply bool_decide_eq_true in Hin.
  - intros now' e target operation permit Hop Hp.
    apply write_permit_Ok in Hp as (op & resolved & Hauth & Hg & Ho & Hk & _).
    apply operation_authority_Ok in Hauth as (Hlt & Hb & ->). cbn in Hlt, Hb, Hg.
    pose proof (allowed_kind _ _ _ (permits_allowed _ _ _ _ _ _ Hg) Hop) as Hw.
    unfold AuthzContext.may_write, OwnerRoles.may_write in Hw. cbn in Hw. unfold redeemed_roles in Hw.
    rewrite scoped_to_role_for in Hw. rewrite Ho, Hk. case_bool_decide; [|discriminate]. done.
Qed.

(** A service on one owner, whose role port and authenticator are constant. *)
Definition sample_bearer : AuthzContext :=
  default sample_context (ok (AuthzContext.seal_verified_scope
    (AuthzContext.with_expires_at sample_context (Some 9_000_500%Z)))).

Definition sample_service : DelegatedAuthorityService unit :=
  mk_DelegatedAuthorityService unit
    (owner_access_port_default (fun _ => Ok sample_roles))
    (mk_Authenticator unit (fun _ => Ok sample_context) (fun _ => 0%N))
    sample_tools SurfaceAll (mk_DelegationRuntimeBinding 12).

(** A server that keeps microseconds of a nanosecond clock. *)
Definition sample_server : PgServer := mk_PgServer (fun t => t / 1000 * 1000)%Z (str "duplicate key").

Lemma sample_bearer_reachable : ctx_reachable sample_bearer.
Proof.
  exists sample_context. split; [apply init_server_resolved|].
  eapply rtc_l; [apply (step_expires _ (Some 9_000_500%Z))|].
  apply rtc_once, step_seal. vm_compute. reflexivity.
Qed.

Definition sample_issue : gmap Uuid GrantRow * result DelegationIssued DelegatedAuthorityError :=
  DelegatedAuthorityService.issue (H := PgDelegationStore_port sample_server) 100 200 77 sample_service ∅
    sample_bearer sample_group sample_command Role.ingest.

Lemma issue_correct_witness :
  exists issued g,
    sample_issue.2 = Ok issued /\ grant_owner g = sample_group /\ grant_command g = sample_command /\
    grant_expires_at g = 9_000_500%Z.
Proof.
  eexists. 
  edestruct (issue_correct (H := PgDelegationStore_port sample_server) sample_service 100 200 77 ∅
    sample_bearer sample_group sample_command Role.ingest sample_bearer_reachable) as (_ & Hok & _).
  destruct (Hok (mk_DelegationIssued (mk_DelegationId 77) 9_000_500)) as (g & _ & Hg & _);
    [vm_compute; reflexivity|].
  exists g. split; [vm_compute; reflexivity|]. destruct Hg as [_ _ (? & ? & Hs & _ & _ & _ & _ & b & z & Hb & Hz & Hx) (? & ? & _) _ _ _ _ _ _ _].
  split; [done|]. split; [done|]. rewrite Hx.
  vm_compute in Hs. injection Hs as <-. vm_compute in Hb, Hz. by injection Hb as <-; injection Hz as <-.
Defined.

Lemma redeemed_phase_is_the_grant_witness :
  exists phase,
    DelegatedAuthorityService.redeem_phase (H := PgDelegationStore_port sample_server) 300 sample_service
      sample_issue.1 (mk_DelegationId 77) sample_group sample_command = Ok phase /\
    AuthzContext.role_for_owner (phase_authz phase) (OwnerId.from_user sample_subject) = None.
Proof.
  eexists. split; [vm_compute; reflexivity|].
  edestruct (redeemed_phase_is_the_grant (H := PgDelegationStore_port sample_server) sample_service 300
    sample_issue.1 (mk_DelegationId 77) sample_group sample_command)
    as (g & _ & _ & _ & _ & _ & _ & _ & Hroles & _); [vm_compute; reflexivity|].
  exact (Hroles (OwnerId.from_user sample_subject)).
Defined.

(** A grant that was issued can be redeemed.  After a successful issue, and
    whatever other grants were issued or revoked since, the worker's redemption
    succeeds at any time before the stored deadline on any runtime state in
    which the command is still served, the identity's epoch has not advanced and
    the subject still holds the ceiling; the phase then holds exactly the issued
    ceiling on the owner, under the issuer's subject and writer, and ends no
    later than the deadline the issuer was told. *)
Theorem issue_then_redeem {C S} `{DelegationStoreLaws S} (self later : DelegatedAuthorityService C)
    (now now' now'' : SystemTime) (id : Uuid) (store store' store'' : S) (source : AuthzContext)
    (owner : OwnerId) (command : DelegatedCommand) (ceiling : Role) (issued : DelegationIssued)
    (Hsource : ctx_reachable source) (Hceiling : role_wf ceiling)
    (Hissue : DelegatedAuthorityService.issue now now' id self store source owner command ceiling
              = (store', Ok issued))
    (Htraffic : rtc (other_traffic (issued_id issued)) store' store'')
    (Hissued : (persisted_time now' < persisted_time (issued_expires_at issued))%Z)
    (Hnow : (now'' < persisted_time (issued_expires_at issued))%Z)
    (Hcommand : command_current later command)
    (Hserved : ServedSurface.admits (svc_served_surface later) (command_key command)
                 (command_declaration later command) = true)
    (Hsubject : forall subject, AuthzContext.subject source = Some subject ->
       epoch_current later subject (AuthzContext.auth_epoch source) /\
       role_held later subject owner ceiling) :
  exists phase,
    DelegatedAuthorityService.redeem_phase now'' later store'' (issued_id issued) owner command = Ok phase /\
    AuthzContext.role_for_owner (phase_authz phase) owner = Some ceiling /\
    AuthzContext.subject (phase_authz phase) = AuthzContext.subject source /\
    AuthzContext.writer (phase_authz phase) = AuthzContext.writer source /\
    (now'' < phase_expires_at phase <= issued_expires_at issued)%Z.
Proof.
  apply ctx_inv_reachable in Hsource. unfold DelegatedAuthorityService.issue in Hissue.
  destruct (DelegatedAuthorityService.issue_grant now now' id self source owner command ceiling)
    as [g|e] eqn:Eg; [|discriminate].
  apply issue_grant_sound in Eg as Hg; [|done]. destruct Hg as [_ Hg].
  destruct Hg as [_ Hs (scope & role & Hsc & _ & Hw & _) (Ho & Hc & Hcl) (_ & _ & Hi) Hm [Hep _] _ _ _ Hlive].
  destruct (store_insert store g) as [s r] eqn:Ei. destruct r as [[]|]; [|discriminate].
  injection Hissue as <- <-. cbn in *.
  destruct (Hsubject _ Hs) as [Hepc Hheld].
  assert (Hst : storable persisted_time g) 
    by (constructor; rewrite ?Hc, ?Hcl, ?Hi; [apply Hcommand|done..]).
  apply load_inserted in Ei; [|done].
  rewrite <-(other_traffic_load _ _ _ _ Htraffic) in Ei. rewrite Ho in Ei.
  pose proof (redeem_complete later now'' store'' (grant_delegation_id g) owner
    (with_times persisted_time g) Ei eq_refl Ho) as Hred.
  cbn in Hred. rewrite Hc in Hred. exists (redeemed_phase later (with_times persisted_time g)).
  destruct Hlive as [Hv _].
  split; [apply Hred; constructor; cbn; rewrite ?Hc, ?Hcl, ?Hep, ?Ho; done|].
  unfold redeemed_phase, redeemed_context, AuthzContext.role_for_owner, redeemed_roles,
    AuthzContext.writer, AuthzContext.subject in *. cbn.
  rewrite scoped_to_role_for, bool_decide_true by done.
  destruct (inv_sealed source Hsource scope Hsc) as (_ & -> & _).
  rewrite Hs, Hw, Hcl. pose proof (persisted_time_le (grant_expires_at g)). split_and!; done || lia.
Qed.

Lemma sample_server_le t : (stored_time sample_server t <= t)%Z.
Proof. cbn. pose proof (Z.mul_div_le t 1000). lia. Qed.

Lemma issue_then_redeem_witness :
  exists issued phase,
    sample_issue.2 = Ok issued /\
    DelegatedAuthorityService.redeem_phase (H := PgDelegationStore_port sample_server) 300 sample_service
      sample_issue.1 (issued_id issued) sample_group sample_command = Ok phase /\
    (phase_expires_at phase <= issued_expires_at issued)%Z.
Proof.
  exists (mk_DelegationIssued (mk_DelegationId 77) 9_000_500).
  edestruct (issue_then_redeem (H0 := PgDelegationStore_laws sample_server sample_server_le)
    sample_service sample_service 100 200 300 77 ∅ sample_issue.1 sample_issue.1 sample_bearer sample_group
    sample_command Role.ingest (mk_DelegationIssued (mk_DelegationId 77) 9_000_500))
    as (phase & Hphase & _ & _ & _ & _ & Hx).
  - apply sample_bearer_reachable.
  - vm_compute. lia.
  - vm_compute. reflexivity.
  - apply rtc_refl.
  - vm_compute. reflexivity.
  - vm_compute. reflexivity.
  - apply validate_current_command_Ok. vm_compute. reflexivity.
  - vm_compute. reflexivity.
  - intros subject Hs. split.
    + vm_compute. discriminate.
    + exists sample_roles, Role.editor. vm_compute in Hs. injection Hs as <-.
      split; [reflexivity|]. split; [reflexivity|]. split; vm_compute; reflexivity.
  - exists phase. split; [vm_compute; reflexivity|]. split; [exact Hphase|exact Hx].
Defined.

(** *** Revoking *)

Lemma revoke_sound {C S} `{DelegationStorePort S} (self : DelegatedAuthorityService C)
    now now' (store : S) store' caller id owner r :
  DelegatedAuthorityService.revoke now now' self store caller id owner = (store', Ok r) ->
  exists subject g roles role,
    AuthzContext.subject caller = Some subject /\ AuthzContext.auth_path caller = HostBearer /\
    store_load store id owner = Ok (Some g) /\
    resolve_roles_for_subject (svc_owner_access self) subject = Ok roles /\
    OwnerRoles.role_for roles owner = Some role /\
    (subject = grant_subject g \/ Role.manages role = true) /\
    match grant_revoked_at g with
    | Some _ => r = AlreadyRevoked /\ store' = store
    | None => exists b, store_revoke store id owner now' subject = (store', Ok b) /\
        r = if b then NowRevoked else AlreadyRevoked
    end.
Proof.
  unfold DelegatedAuthorityService.revoke. intros Hr.
  destruct (DelegatedAuthorityService.validate_host_bearer now caller) as [[subject x]|] eqn:Eb; [|discriminate].
  apply validate_host_bearer_Ok in Eb as (Hp & _ & Hs & _).
  destruct (DelegatedAuthorityService.revalidate_epoch _ _ _); [|discriminate].
  destruct (store_load store id owner) as [[g|]|] eqn:El; cbn [map_err ok_or] in Hr; try discriminate.
  destruct (negb _ || negb _); [discriminate|].
  destruct (DelegatedAuthorityService.current_roles _ _) as [roles|] eqn:Ec; [|discriminate].
  apply current_roles_Ok in Ec as [Hres _].
  destruct (OwnerRoles.role_for roles owner) as [role|] eqn:Ero; [|discriminate]. cbn [ok_or] in Hr.
  destruct (negb (bool_decide (subject = grant_subject g)) && negb (Role.manages role)) eqn:Ea; [discriminate|].
  exists subject, g, roles, role. split_and!; try done.
  - apply andb_false_iff in Ea as [Ea|Ea]; bools; auto.
  - destruct (grant_revoked_at g); cbn [is_some] in Hr; [by injection Hr as <- <-|].
    destruct (store_revoke store id owner now' subject) as [s [b|]]; [|discriminate].
    injection Hr as <- <-. by exists b.
Qed.

(** Revocation is final and only for those entitled.  A revocation that
    succeeds was made by a host bearer with a current role on the owner who
    either issued the grant or manages the owner; a second revocation changes
    nothing and says so.  From then on, whatever happens to other grants and
    whatever the runtime's state, redeeming the grant is refused as revoked at
    every time, and under any other command as a mismatch. *)
Theorem revocation_is_final {C S} `{DelegationStoreLaws S} (self : DelegatedAuthorityService C)
    (now now' : SystemTime) (store store' store'' : S) (caller : AuthzContext) (id : DelegationId)
    (owner : OwnerId) (r : DelegationRevocation)
    (Hrevoke : DelegatedAuthorityService.revoke now now' self store caller id owner = (store', Ok r))
    (Htraffic : rtc (other_traffic id) store' store'') :
  exists g, store_load store id owner = Ok (Some g) /\
    (AuthzContext.subject caller = Some (grant_subject g) \/
     exists subject roles role, AuthzContext.subject caller = Some subject /\
       resolve_roles_for_subject (svc_owner_access self) subject = Ok roles /\
       OwnerRoles.role_for roles owner = Some role /\ Role.manages role = true) /\
    (is_Some (grant_revoked_at g) -> r = AlreadyRevoked /\ store' = store) /\
    (forall later now'',
       DelegatedAuthorityService.redeem_phase (C := C) now'' later store'' id owner (grant_command g)
       = Err DelegationRevoked) /\
    (forall later now'' command, command <> grant_command g ->
       DelegatedAuthorityService.redeem_phase (C := C) now'' later store'' id owner command
       = Err CommandMismatch).
Proof.
  apply revoke_sound in Hrevoke as (subject & g & roles & role & Hs & _ & Hl & Hres & Hro & Hwho & Hst).
  exists g. split; [done|].
  split; [destruct Hwho as [->|]; [by left|right; by exists subject, roles, role]|].
  assert (exists g', store_load store' id owner = Ok (Some g') /\ is_Some (grant_revoked_at g') /\
            grant_command g' = grant_command g) as (g' & Hl' & [t Ht] & Hc).
  { destruct (grant_revoked_at g) eqn:Ev.
    - destruct Hst as [_ ->]. exists g. rewrite Ev. split_and!; [done|by eexists|done].
    - destruct Hst as (b & Hr & _). destruct (load_revoked _ _ _ _ _ _ _ _ Hl Hr) as (g' & Hl' & Hv & Hg').
      exists g'. split_and!; [done..|]. by destruct Hg' as [->|[at' ->]]. }
  destruct (load_identity _ _ _ _ Hl') as [Hid Ho]. rewrite <-(other_traffic_load _ _ _ _ Htraffic) in Hl'.
  split; [intros [u Hu]; by rewrite Hu in Hst|].
  split; intros later now''; [|intros command Hne]; unfold DelegatedAuthorityService.redeem_phase;
    rewrite Hl'; cbn [map_err ok_or]; rewrite (bool_decide_true _ Hid), (bool_decide_true _ Ho), Hc; cbn [negb orb].
  - rewrite bool_decide_true by done. by rewrite Ht.
  - by rewrite bool_decide_false by congruence.
Qed.

Definition sample_revoke : gmap Uuid GrantRow * result DelegationRevocation DelegatedAuthorityError :=
  DelegatedAuthorityService.revoke (H := PgDelegationStore_port sample_server) 400 500 sample_service
    sample_issue.1 sample_bearer (mk_DelegationId 77) sample_group.

Lemma revocation_is_final_witness :
  sample_revoke.2 = Ok NowRevoked /\
  DelegatedAuthorityService.redeem_phase (H := PgDelegationStore_port sample_server) 600 sample_service
    sample_revoke.1 (mk_DelegationId 77) sample_group sample_command = Err DelegationRevoked.
Proof.
  split; [vm_compute; reflexivity|].
  edestruct (revocation_is_final (H0 := PgDelegationStore_laws sample_server sample_server_le)
    sample_service 400 500 sample_issue.1 sample_revoke.1 sample_revoke.1 sample_bearer
    (mk_DelegationId 77) sample_group NowRevoked) as (g & Hl & _ & _ & Hfinal & _).
  - vm_compute. reflexivity.
  - apply rtc_refl.
  - vm_compute in Hl. injection Hl as <-. exact (Hfinal sample_service 600%Z).
Defined.
