(* ===== verification/Quiesce.v ===== *)
(** * The pause gate of a background worker

    [crates/core/src/quiesce.rs]: the host's half asks a claim-based worker to
    pause and resume, the worker's half parks at checkpoints.  The two halves
    share a watch channel; the channel is a library, so an interface with the
    laws its documentation gives.  The system is the channel, the worker and any
    number of concurrent [quiesce] calls, stepping in any order: each step is
    one channel operation of the source, so every interleaving between two
    channel operations is a run. *)

From S2P Require Import Prelude.

Inductive FeatureStatus := Running | Quiescing | Quiescent | Stopped.

#[export] Instance FeatureStatus_eq_dec : EqDecision FeatureStatus.
Proof. solve_decision. Defined.

Inductive FeatureControlError := FeatureStopped | FeatureResumed.

(** [cycle] is a [u64] counter of pauses; it is unbounded here. *)
Record State := mk_State {
  status : FeatureStatus;
  cycle : N;
}.

Inductive Checkpoint := Proceed | Cancelled.

(** ** The watch channel *)

Class WatchChannel (Ch Rx : Type) := {
  watch_channel : State -> Ch * Rx;
  watch_borrow : Ch -> State;
  watch_subscribe : Ch -> Rx;
  (** Mark the current value as seen: the effect of [borrow_and_update] and of a
      [changed] that resolves. *)
  watch_update : Ch -> Rx -> Rx;
  (** Whether [changed] resolves. *)
  watch_unseen : Ch -> Rx -> bool;
  (** [send_if_modified]: the closure edits the value and says whether the
      receivers are notified. *)
  watch_send_if_modified : Ch -> (State -> State * bool) -> Ch;
}.

Class WatchLaws (Ch Rx : Type) `{WatchChannel Ch Rx} := {
  (** The receiver belongs to the channel. *)
  watch_of : Ch -> Rx -> Prop;
  watch_channel_law state :
    watch_of (watch_channel state).1 (watch_channel state).2 /\
    watch_borrow (watch_channel state).1 = state;
  watch_subscribe_law ch :
    watch_of ch (watch_subscribe ch) /\ watch_unseen ch (watch_subscribe ch) = false;
  watch_update_law ch rx : watch_of ch rx ->
    watch_of ch (watch_update ch rx) /\ watch_unseen ch (watch_update ch rx) = false;
  watch_send_law ch f : watch_borrow (watch_send_if_modified ch f) = (f (watch_borrow ch)).1;
  watch_notify_law ch f rx : watch_of ch rx ->
    watch_of (watch_send_if_modified ch f) rx /\
    watch_unseen (watch_send_if_modified ch f) rx = (f (watch_borrow ch)).2 || watch_unseen ch rx;
}.

(** ** The closures passed to the channel *)

Module QuiesceGate.

Definition initial : State := mk_State Running 0.

(** The closure of [quiesce]; the call remembers the cycle of the result. *)
Definition close (state : State) : State * bool :=
  match status state with
  | Running => (mk_State Quiescing (cycle state + 1), true)
  | _ => (state, false)
  end.

(** One turn of the loop of [quiesce]; [None] waits for a change. *)
Definition observe (cycle_ : N) (state : State) : option (result unit FeatureControlError) :=
  if negb (bool_decide (cycle state = cycle_)) then Some (Err FeatureResumed)
  else
    match status state with
    | Quiescent => Some (Ok tt)
    | Stopped => Some (Err FeatureStopped)
    | Running => Some (Err FeatureResumed)
    | Quiescing => None
    end.

Definition reopen (state : State) : State * bool :=
  match status state with
  | Stopped | Running => (state, false)
  | Quiescing | Quiescent => (mk_State Running (cycle state), true)
  end.

Definition resume_outcome (state : State) : result unit FeatureControlError :=
  match status state with Stopped => Err FeatureStopped | _ => Ok tt end.

End QuiesceGate.

Module GateWorker.

Definition is_closing (state : State) : bool := negb (bool_decide (status state = Running)).

Definition park (state : State) : State * bool :=
  match status state with
  | Quiescing => (mk_State Quiescent (cycle state), true)
  | _ => (state, false)
  end.

(** [Drop]: [send_modify] always notifies. *)
Definition stop (state : State) : State * bool := (mk_State Stopped (cycle state), true).

End GateWorker.

(** ** The running system *)

(** Where the worker task is.  [WIdle], [WProceed] and [WHolding] are outside a
    checkpoint; the others are the suspension points of [checkpoint]. *)
Inductive WorkerPc :=
| WIdle                          (* holds no claim, about to call [checkpoint] *)
| WLoop                          (* the head of the loop *)
| WPark                          (* read [Quiescing], about to acknowledge *)
| WSelect                        (* in [select!] *)
| WReturned (result : Checkpoint) (* [checkpoint] returned *)
| WHolding                       (* holds claims *)
| WDropped.                      (* the task ended *)

#[export] Instance Checkpoint_eq_dec : EqDecision Checkpoint.
Proof. solve_decision. Defined.
#[export] Instance WorkerPc_eq_dec : EqDecision WorkerPc.
Proof. solve_decision. Defined.

(** Where a [quiesce] call is. *)
Inductive CallerPc (Rx : Type) :=
| QSubscribed (watcher : Rx)
| QLoop (watcher : Rx) (cycle_ : N)
| QWait (watcher : Rx) (cycle_ : N)
| QDone (answer : result unit FeatureControlError).
Arguments QSubscribed {Rx}.
Arguments QLoop {Rx}.
Arguments QWait {Rx}.
Arguments QDone {Rx}.

Record System (Ch Rx : Type) := mk_System {
  sys_state : Ch;
  sys_worker : WorkerPc;
  sys_seen : Rx;
  sys_callers : gmap nat (CallerPc Rx);
}.
Arguments mk_System {Ch Rx}.
Arguments sys_state {Ch Rx}.
Arguments sys_worker {Ch Rx}.
Arguments sys_seen {Ch Rx}.
Arguments sys_callers {Ch Rx}.

Section gate.
Context {Ch Rx : Type} `{WatchChannel Ch Rx}.

Definition gate_state (s : System Ch Rx) : State := watch_borrow (sys_state s).

(** [QuiesceGate::new]: the worker task starts with no claim. *)
Definition new : System Ch Rx :=
  let (sender, seen) := watch_channel QuiesceGate.initial in
  mk_System sender WIdle seen ∅.

Definition send (f : State -> State * bool) (s : System Ch Rx) : System Ch Rx :=
  mk_System (watch_send_if_modified (sys_state s) f) (sys_worker s) (sys_seen s) (sys_callers s).
Definition set_worker (pc : WorkerPc) (s : System Ch Rx) : System Ch Rx :=
  mk_System (sys_state s) pc (sys_seen s) (sys_callers s).
(** [seen.borrow_and_update()] or a resolved [seen.changed()]. *)
Definition look (s : System Ch Rx) : System Ch Rx :=
  mk_System (sys_state s) (sys_worker s) (watch_update (sys_state s) (sys_seen s)) (sys_callers s).
Definition set_caller (i : nat) (q : CallerPc Rx) (s : System Ch Rx) : System Ch Rx :=
  mk_System (sys_state s) (sys_worker s) (sys_seen s) (<[i := q]> (sys_callers s)).
Definition drop_caller (i : nat) (s : System Ch Rx) : System Ch Rx :=
  mk_System (sys_state s) (sys_worker s) (sys_seen s) (delete i (sys_callers s)).

(** The loop body of [checkpoint] up to the [match], for a worker that is not
    cancelled: where the read status sends it. *)
Definition checkpoint_read (s : System Ch Rx) : System Ch Rx :=
  let pc := match status (gate_state s) with
            | Running => WReturned Proceed
            | Quiescing => WPark
            | Quiescent | Stopped => WSelect
            end in
  set_worker pc (look s).

(** The loop body of [quiesce] up to the wait. *)
Definition quiesce_read (i : nat) (watcher : Rx) (cycle_ : N) (s : System Ch Rx) : System Ch Rx :=
  match QuiesceGate.observe cycle_ (gate_state s) with
  | Some answer => set_caller i (QDone answer) s
  | None => set_caller i (QWait (watch_update (sys_state s) watcher) cycle_) s
  end.

(** Who makes a step. *)
Inductive Actor := AWorker | ACaller (i : nat) | AResume.

Inductive step : Actor -> System Ch Rx -> System Ch Rx -> Prop :=
(* the worker outside checkpoints: it settles what it holds before the next one *)
| step_claim s : sys_worker s = WReturned Proceed -> step AWorker s (set_worker WHolding s)
| step_nothing s : sys_worker s = WReturned Proceed -> step AWorker s (set_worker WIdle s)
| step_settle s : sys_worker s = WHolding -> step AWorker s (set_worker WIdle s)
| step_changed s :  (* [GateWorker::changed] while idle *)
    sys_worker s = WIdle -> watch_unseen (sys_state s) (sys_seen s) = true -> step AWorker s (look s)
| step_drop s : sys_worker s <> WDropped ->
    step AWorker s (send GateWorker.stop (set_worker WDropped s))
(* [checkpoint] *)
| step_enter s : sys_worker s = WIdle -> step AWorker s (set_worker WLoop s)
| step_cancelled s : sys_worker s = WLoop -> step AWorker s (set_worker (WReturned Cancelled) s)
| step_read s : sys_worker s = WLoop -> step AWorker s (checkpoint_read s)
| step_park s : sys_worker s = WPark -> step AWorker s (send GateWorker.park (set_worker WSelect s))
| step_select_cancelled s : sys_worker s = WSelect -> step AWorker s (set_worker (WReturned Cancelled) s)
| step_select_changed s : sys_worker s = WSelect -> watch_unseen (sys_state s) (sys_seen s) = true ->
    step AWorker s (set_worker WLoop (look s))
(* [quiesce] *)
| step_subscribe i s : sys_callers s !! i = None ->
    step (ACaller i) s (set_caller i (QSubscribed (watch_subscribe (sys_state s))) s)
| step_close i watcher s : sys_callers s !! i = Some (QSubscribed watcher) ->
    step (ACaller i) s
      (set_caller i (QLoop watcher (cycle (QuiesceGate.close (gate_state s)).1)) (send QuiesceGate.close s))
| step_observe i watcher c s : sys_callers s !! i = Some (QLoop watcher c) ->
    step (ACaller i) s (quiesce_read i watcher c s)
| step_woken i watcher c s : sys_callers s !! i = Some (QWait watcher c) ->
    watch_unseen (sys_state s) watcher = true ->
    step (ACaller i) s (set_caller i (QLoop (watch_update (sys_state s) watcher) c) s)
| step_forget i s : step (ACaller i) s (drop_caller i s)
(* [resume] *)
| step_resume s : step AResume s (send QuiesceGate.reopen s).

Definition any_step (s s' : System Ch Rx) : Prop := exists a, step a s s'.
Definition reachable (s : System Ch Rx) : Prop := rtc any_step new s.

(** Runs in which nobody calls [resume]. *)
Definition paused_step (s s' : System Ch Rx) : Prop := exists a, a <> AResume /\ step a s s'.

(** ** The invariant *)

Definition at_checkpoint (pc : WorkerPc) : Prop :=
  match pc with WLoop | WSelect | WReturned Cancelled => True | _ => False end.

Context `{!WatchLaws Ch Rx}.

(** A waiting call sees a change, or what it last read still stands. *)
Definition caller_ok (ch : Ch) (q : CallerPc Rx) : Prop :=
  match q with
  | QSubscribed watcher => watch_of ch watcher
  | QLoop watcher c => watch_of ch watcher /\ (c <= cycle (watch_borrow ch))%N
  | QWait watcher c => watch_of ch watcher /\ (c <= cycle (watch_borrow ch))%N /\
      (watch_unseen ch watcher = false -> watch_borrow ch = mk_State Quiescing c)
  | QDone _ => True
  end.

Record gate_inv (s : System Ch Rx) : Prop := mk_gate_inv {
  inv_seen : watch_of (sys_state s) (sys_seen s);
  inv_stopped : status (gate_state s) = Stopped <-> sys_worker s = WDropped;
  inv_quiescent : status (gate_state s) = Quiescent -> at_checkpoint (sys_worker s);
  inv_park : sys_worker s = WPark -> watch_unseen (sys_state s) (sys_seen s) = false ->
    status (gate_state s) = Quiescing;
  inv_select : sys_worker s = WSelect -> watch_unseen (sys_state s) (sys_seen s) = false ->
    status (gate_state s) = Quiescent;
  inv_callers : map_Forall (fun _ => caller_ok (sys_state s)) (sys_callers s);
}.

(** What every closure keeps: silent means unchanged, and cycles only grow. *)
Definition tame (f : State -> State * bool) : Prop :=
  forall x, ((f x).2 = false -> (f x).1 = x) /\ (cycle x <= cycle (f x).1)%N.

Lemma tame_close : tame QuiesceGate.close.
Proof. intros [[] c]; cbn; split; try done; lia. Qed.
Lemma tame_reopen : tame QuiesceGate.reopen.
Proof. intros [[] c]; cbn; split; try done; lia. Qed.
Lemma tame_park : tame GateWorker.park.
Proof. intros [[] c]; cbn; split; try done; lia. Qed.
Lemma tame_stop : tame GateWorker.stop.
Proof. intros [[] c]; cbn; split; try done; lia. Qed.

(** A receiver that sees no change after a send saw none before, and the value
    is the same. *)
Lemma send_silent ch f rx : tame f -> watch_of ch rx ->
  watch_unseen (watch_send_if_modified ch f) rx = false ->
  watch_unseen ch rx = false /\ watch_borrow (watch_send_if_modified ch f) = watch_borrow ch.
Proof.
  intros Hf Hrx. destruct (watch_notify_law ch f rx Hrx) as [_ ->]. rewrite watch_send_law.
  intros [Hs Hu]%orb_false_iff. split; [done|]. by apply Hf.
Qed.

Lemma caller_ok_send ch f q : tame f -> caller_ok ch q -> caller_ok (watch_send_if_modified ch f) q.
Proof.
  intros Hf. pose proof (Hf (watch_borrow ch)) as [_ Hc].
  destruct q as [rx|rx c|rx c|]; cbn; rewrite ?watch_send_law; [|intros [Hrx ?]|intros (Hrx & ? & Hw)|done].
  - intros Hrx. by apply watch_notify_law.
  - split; [by apply watch_notify_law|lia].
  - split; [by apply watch_notify_law|]. split; [lia|]. rewrite <-watch_send_law.
    intros [Hu ->]%send_silent; auto.
Qed.

Lemma callers_ok_send ch f (m : gmap nat (CallerPc Rx)) : tame f ->
  map_Forall (fun _ => caller_ok ch) m ->
  map_Forall (fun _ => caller_ok (watch_send_if_modified ch f)) m.
Proof. intros Hf Hm i q Hq. apply caller_ok_send; [done|]. by eapply Hm. Qed.

(** A caller's own move. *)
Lemma gate_inv_caller i q s : gate_inv s -> caller_ok (sys_state s) q -> gate_inv (set_caller i q s).
Proof. intros [] Hq. constructor; cbn; try done. by apply map_Forall_insert_2. Qed.

(** A host's move on the gate: it neither stops nor acknowledges. *)
Lemma gate_inv_send f s : tame f ->
  (forall x, status (f x).1 = Stopped <-> status x = Stopped) ->
  (forall x, status (f x).1 = Quiescent -> status x = Quiescent) ->
  gate_inv s -> gate_inv (send f s).
Proof.
  intros Hf Hst Hq [Hrx Hs Hqs Hp Hsel Hc]. constructor; cbn; unfold gate_state in *; cbn.
  - by apply watch_notify_law.
  - rewrite watch_send_law, Hst. done.
  - rewrite watch_send_law. intros ?%Hq. by apply Hqs.
  - intros Hw [Hu ->]%send_silent; auto.
  - intros Hw [Hu ->]%send_silent; auto.
  - by apply callers_ok_send.
Qed.

Lemma gate_inv_new : gate_inv new.
Proof.
  unfold new. pose proof (watch_channel_law QuiesceGate.initial) as [Hrx Hv].
  destruct (watch_channel QuiesceGate.initial) as [ch rx]. cbn in *.
  constructor; unfold gate_state; cbn; rewrite ?Hv; done.
Qed.

(** A worker's move that leaves the channel alone. *)
Lemma gate_inv_worker pc s : gate_inv s -> pc <> WDropped -> sys_worker s <> WDropped ->
  (status (gate_state s) = Quiescent -> at_checkpoint pc) ->
  (pc = WPark -> watch_unseen (sys_state s) (sys_seen s) = false -> status (gate_state s) = Quiescing) ->
  (pc = WSelect -> watch_unseen (sys_state s) (sys_seen s) = false -> status (gate_state s) = Quiescent) ->
  gate_inv (set_worker pc s).
Proof.
  intros [Hrx Hs Hq Hp Hsel Hc] Hpc Hw H1 H2 H3. constructor; cbn; unfold gate_state in *; cbn; try done.
  rewrite Hs. by split; intros.
Qed.

Lemma gate_inv_look s : gate_inv s -> sys_worker s <> WPark -> sys_worker s <> WSelect -> gate_inv (look s).
Proof.
  intros [Hrx Hs Hq Hp Hsel Hc] H1 H2. constructor; cbn; unfold gate_state in *; cbn; try done.
  by apply watch_update_law.
Qed.

Lemma gate_inv_select_changed s : gate_inv s -> sys_worker s = WSelect -> gate_inv (set_worker WLoop (look s)).
Proof.
  intros [Hrx Hs Hq Hp Hsel Hc] Hw. constructor; cbn; unfold gate_state in *; cbn; try done.
  - by apply watch_update_law.
  - rewrite Hs, Hw. done.
Qed.

Lemma gate_inv_read s : gate_inv s -> sys_worker s = WLoop -> gate_inv (checkpoint_read s).
Proof.
  intros [Hrx Hs Hq Hp Hsel Hc] Hw. unfold checkpoint_read.
  destruct (watch_update_law _ _ Hrx) as [Hrx' Hu]. rewrite Hw in Hs, Hq.
  destruct (status (gate_state s)) eqn:Est; constructor; cbn; unfold gate_state in *; cbn;
    rewrite ?Est; try done; naive_solver.
Qed.

Lemma gate_inv_park s : gate_inv s -> sys_worker s = WPark -> gate_inv (send GateWorker.park (set_worker WSelect s)).
Proof.
  intros [Hrx Hs Hq Hp Hsel Hc] Hw. specialize (Hp Hw). rewrite Hw in Hs.
  constructor; cbn; unfold gate_state in *; cbn; rewrite ?watch_send_law.
  - by apply watch_notify_law.
  - unfold GateWorker.park. destruct (watch_borrow (sys_state s)) as [[] c]; cbn in *; naive_solver.
  - done.
  - done.
  - intros _. destruct (watch_notify_law _ GateWorker.park _ Hrx) as [_ ->].
    intros [Hf Hu]%orb_false_iff. specialize (Hp Hu). revert Hf. unfold GateWorker.park. by rewrite Hp.
  - apply callers_ok_send; [apply tame_park|done].
Qed.

Lemma gate_inv_drop s : gate_inv s -> gate_inv (send GateWorker.stop (set_worker WDropped s)).
Proof.
  intros [Hrx Hs Hq Hp Hsel Hc]. constructor; cbn; unfold gate_state in *; cbn; rewrite ?watch_send_law; try done.
  - by apply watch_notify_law.
  - apply callers_ok_send; [apply tame_stop|done].
Qed.

Lemma observe_None c x : QuiesceGate.observe c x = None <-> x = mk_State Quiescing c.
Proof.
  unfold QuiesceGate.observe. destruct x as [st c']; cbn.
  destruct (bool_decide (c' = c)) eqn:E; bools; cbn; destruct st; naive_solver.
Qed.

Lemma gate_inv_step a s s' : gate_inv s -> step a s s' -> gate_inv s'.
Proof.
  intros Hinv Hstep. pose proof Hinv as [Hrx Hs Hq Hp Hsel Hc].
  destruct Hstep as [s Hw|s Hw|s Hw|s Hw Hu|s Hw|s Hw|s Hw|s Hw|s Hw|s Hw|s Hw Hu
    |i s Hi|i rx s Hi|i rx c s Hi|i rx c s Hi Hu|i s|s].
  1-3, 6, 7, 10: apply gate_inv_worker; rewrite ?Hw; try done; intros Hst; apply Hq in Hst; by rewrite Hw in Hst.
  - apply gate_inv_look; congruence || done.
  - by apply gate_inv_drop.
  - by apply gate_inv_read.
  - by apply gate_inv_park.
  - by apply gate_inv_select_changed.
  - apply gate_inv_caller; [done|]. apply watch_subscribe_law.
  - apply gate_inv_caller.
    + apply gate_inv_send; [apply tame_close|by intros [[] ?]..|done].
    + apply Hc in Hi. cbn. split; [by apply watch_notify_law|]. by rewrite watch_send_law.
  - apply Hc in Hi as [Hi Hle]. unfold quiesce_read.
    destruct (QuiesceGate.observe c (gate_state s)) eqn:Eo; (apply gate_inv_caller; [done|]); [done|].
    apply observe_None in Eo. split; [by apply watch_update_law|]. done.
  - apply Hc in Hi as (Hi & Hle & _). apply gate_inv_caller; [done|]. split; [by apply watch_update_law|done].
  - constructor; try done. cbn. by apply map_Forall_delete.
  - apply gate_inv_send; [apply tame_reopen|by intros [[] ?]..|done].
Qed.

Lemma gate_inv_reachable s : reachable s -> gate_inv s.
Proof.
  intros Hr. assert (H' : forall s0, rtc any_step s0 s -> gate_inv s0 -> gate_inv s).
  { induction 1 as [|x y z [a Hxy] _ IH]; [done|]. intros Hx. by eapply IH, gate_inv_step. }
  by apply (H' new), gate_inv_new.
Qed.

(** ** Pausing *)

Definition parked (s : System Ch Rx) : Prop :=
  (status (gate_state s) = Quiescent \/ status (gate_state s) = Stopped) /\
  match sys_worker s with WLoop | WSelect | WReturned Cancelled | WDropped => True | _ => False end.

Lemma send_status f s : gate_state (send f s) = (f (gate_state s)).1.
Proof. unfold gate_state. cbn. apply watch_send_law. Qed.

Lemma parked_step s s' : parked s -> paused_step s s' -> parked s'.
Proof.
  intros [Hst Hw] (a & Ha & Hstep).
  destruct Hstep; try done; unfold parked in *; cbn in *;
    repeat match goal with E : sys_worker _ = _ |- _ => rewrite E in Hw end; try done.
  - split; [|done]. right. change (status (gate_state (send GateWorker.stop s)) = Stopped). by rewrite send_status.
  - unfold checkpoint_read. cbn. unfold gate_state in *. cbn. destruct Hst as [-> | ->]; auto.
  - split; [|done]. change (gate_state (set_caller _ _ _)) with (gate_state (send QuiesceGate.close s)).
    rewrite send_status. unfold QuiesceGate.close. by destruct Hst as [E|E]; rewrite E; [left|right].
  - unfold quiesce_read. by destruct (QuiesceGate.observe _ _).
Qed.

Lemma parked_run s s' : rtc paused_step s s' -> parked s -> parked s'.
Proof. induction 1; eauto using parked_step. Qed.

(** C5. A resolved pause is a real pause.  In every interleaving of the worker
    with any number of [quiesce] and [resume] calls, when a [quiesce] call
    reads its answer [Ok] the gate is quiescent in that very cycle and the worker
    is inside its checkpoint; and until somebody calls [resume] the worker
    neither holds a claim nor is allowed to start one, whatever else happens. *)
Theorem quiesce_ok_means_parked (s : System Ch Rx) (i : nat) (watcher : Rx) (c : N)
    (Hs : reachable s) (Hi : sys_callers s !! i = Some (QLoop watcher c))
    (Hok : sys_callers (quiesce_read i watcher c s) !! i = Some (QDone (Ok tt))) :
  gate_state s = mk_State Quiescent c /\ at_checkpoint (sys_worker s) /\
  forall s', rtc paused_step s s' ->
    sys_worker s' <> WHolding /\ sys_worker s' <> WReturned Proceed /\
    GateWorker.is_closing (gate_state s') = true.
Proof.
  apply gate_inv_reachable in Hs as Hinv.
  assert (Hg : gate_state s = mk_State Quiescent c).
  { revert Hok. unfold quiesce_read, QuiesceGate.observe. destruct (gate_state s) as [st c']. cbn.
    destruct (bool_decide (c' = c)) eqn:Ec; bools; cbn; [subst|];
      destruct st; cbn; rewrite lookup_insert_eq; congruence. }
  assert (Hw : at_checkpoint (sys_worker s)) by (apply (inv_quiescent s Hinv); by rewrite Hg).
  split; [done|]. split; [done|]. intros s' Hrun.
  assert (Hp : parked s) by (split; [rewrite Hg; by left|by destruct (sys_worker s) as [| | | |[]| |]]).
  assert (Hp' : parked s') by by eapply parked_run.
  destruct Hp' as [Hst Hw']. unfold GateWorker.is_closing.
  split_and!; [intros E; by rewrite E in Hw'..|].
  by destruct Hst as [-> | ->].
Qed.

(** ** Waking *)

(** Steps of the worker and of one call. *)
Definition pair_step (i : nat) (s s' : System Ch Rx) : Prop := step AWorker s s' \/ step (ACaller i) s s'.

Lemma worker_reaches_loop i s :
  gate_inv s -> status (gate_state s) = Quiescing ->
  sys_worker s <> WReturned Cancelled -> sys_worker s <> WPark ->
  exists s', rtc (pair_step i) s s' /\ sys_worker s' = WLoop /\ gate_state s' = gate_state s /\
    sys_callers s' = sys_callers s.
Proof.
  intros Hinv Hst Hc Hp.
  assert (Hidle : forall t : System Ch Rx, sys_worker t = WIdle -> rtc (pair_step i) t (set_worker WLoop t)).
  { intros t Ht. apply rtc_once. left. by apply step_enter. }
  destruct (sys_worker s) as [| | | |[]| |] eqn:Ew; try done.
  - exists (set_worker WLoop s). split; [by apply Hidle|done].
  - exists s. split; [apply rtc_refl|done].
  - exists (set_worker WLoop (look s)). split; [|done]. apply rtc_once. left. apply step_select_changed; [done|].
    destruct (watch_unseen _ _) eqn:Eu; [done|]. apply (inv_select s Hinv Ew) in Eu. congruence.
  - exists (set_worker WLoop (set_worker WIdle s)). split; [|done].
    eapply rtc_l; [left; by apply step_nothing|by apply Hidle].
  - exists (set_worker WLoop (set_worker WIdle s)). split; [|done].
    eapply rtc_l; [left; by apply step_settle|by apply Hidle].
  - apply (inv_stopped s Hinv) in Ew. congruence.
Qed.

Lemma worker_parks i s c :
  gate_inv s -> gate_state s = mk_State Quiescing c -> sys_worker s <> WReturned Cancelled ->
  exists s', rtc (pair_step i) s s' /\ gate_state s' = mk_State Quiescent c /\ sys_callers s' = sys_callers s.
Proof.
  intros Hinv Hst Hc.
  assert (Hpark : forall t : System Ch Rx, gate_state t = mk_State Quiescing c -> sys_worker t = WPark ->
            exists t', rtc (pair_step i) t t' /\ gate_state t' = mk_State Quiescent c /\
              sys_callers t' = sys_callers t).
  { intros t Ht Hw. exists (send GateWorker.park (set_worker WSelect t)).
    split; [apply rtc_once; left; by apply step_park|]. split; [|done]. rewrite send_status.
    change (gate_state (set_worker WSelect t)) with (gate_state t). by rewrite Ht. }
  destruct (decide (sys_worker s = WPark)) as [Hw|Hw]; [by apply Hpark|].
  destruct (worker_reaches_loop i s) as (t & Hrun & Hl & Hg & Hcl); [done|by rewrite Hst|done..|].
  destruct (Hpark (checkpoint_read t)) as (t' & Hrun' & Hg' & Hcl').
  - unfold checkpoint_read, gate_state. cbn. by rewrite <-Hst, <-Hg.
  - unfold checkpoint_read. by rewrite Hg, Hst.
  - exists t'. split_and!; [|done|by rewrite Hcl', <-Hcl].
    etrans; [exact Hrun|]. eapply rtc_l; [left; by apply step_read|exact Hrun'].
Qed.

(** A call on the current cycle of a quiescent gate resolves. *)
Lemma caller_resolves i s c watcher :
  gate_inv s -> gate_state s = mk_State Quiescent c ->
  sys_callers s !! i = Some (QLoop watcher c) \/ sys_callers s !! i = Some (QWait watcher c) ->
  exists s', rtc (pair_step i) s s' /\ sys_callers s' !! i = Some (QDone (Ok tt)).
Proof.
  intros Hinv Hg Hi.
  assert (Hloop : forall (t : System Ch Rx) rx, gate_state t = mk_State Quiescent c ->
            sys_callers t !! i = Some (QLoop rx c) ->
            exists t', rtc (pair_step i) t t' /\ sys_callers t' !! i = Some (QDone (Ok tt))).
  { intros t rx Ht Hti. exists (quiesce_read i rx c t).
    split; [apply rtc_once; right; by apply step_observe|].
    unfold quiesce_read, QuiesceGate.observe. rewrite Ht. cbn. rewrite bool_decide_true by done. cbn.
    apply lookup_insert_eq. }
  destruct Hi as [Hi|Hi]; [by eapply Hloop|].
  assert (Hu : watch_unseen (sys_state s) watcher = true).
  { destruct (watch_unseen _ _) eqn:Eu; [done|].
    destruct (inv_callers s Hinv i _ Hi) as (_ & _ & Hq). apply Hq in Eu. unfold gate_state in Hg. congruence. }
  destruct (Hloop (set_caller i (QLoop (watch_update (sys_state s) watcher) c) s)
              (watch_update (sys_state s) watcher)) as (t & Hrun & Ht); [done|apply lookup_insert_eq|].
  exists t. split; [|done]. eapply rtc_l; [right; by apply step_woken|exact Hrun].
Qed.

Lemma pair_step_reachable i s s' : gate_inv s -> rtc (pair_step i) s s' -> gate_inv s'.
Proof. induction 2 as [|x y z [Hxy|Hxy] _ IH]; eauto using gate_inv_step. Qed.

(** C10. No wake-up is ever lost, and a requested pause can always complete.  In
    every interleaving: a worker suspended in its checkpoint is suspended
    because the gate is quiescent, or has a wake-up pending; a waiting [quiesce]
    call is waiting on its own still-closing cycle, or has a wake-up pending;
    and from any state in which a call awaits the current pause, steps of the
    worker and of that call alone lead to its answer [Ok], unless the worker
    was cancelled. *)
Theorem quiesce_can_complete (s : System Ch Rx) (Hs : reachable s) :
  (sys_worker s = WSelect ->
   status (gate_state s) = Quiescent \/ watch_unseen (sys_state s) (sys_seen s) = true) /\
  (forall i watcher c, sys_callers s !! i = Some (QWait watcher c) ->
   gate_state s = mk_State Quiescing c \/ watch_unseen (sys_state s) watcher = true) /\
  (forall i watcher c,
     sys_callers s !! i = Some (QLoop watcher c) \/ sys_callers s !! i = Some (QWait watcher c) ->
     gate_state s = mk_State Quiescing c -> sys_worker s <> WReturned Cancelled ->
     exists s', rtc (pair_step i) s s' /\ sys_callers s' !! i = Some (QDone (Ok tt))).
Proof.
  apply gate_inv_reachable in Hs. split_and!.
  - intros Hw. destruct (watch_unseen _ _) eqn:Eu; [by right|left]. by apply (inv_select s Hs).
  - intros i watcher c Hi. destruct (watch_unseen (sys_state s) watcher) eqn:Eu; [by right|left].
    by apply (inv_callers s Hs i _ Hi).
  - intros i watcher c Hi Hg Hw.
    destruct (worker_parks i s c Hs Hg Hw) as (t & Hrun & Ht & Hcl).
    destruct (caller_resolves i t c watcher) as (t' & Hrun' & Ht').
    + by eapply pair_step_reachable.
    + done.
    + by rewrite Hcl.
    + exists t'. split; [by etrans|done].
Qed.

(** ** Answers *)

(** The pause of cycle [c] stands, and call [i] belongs to it. *)
Definition in_pause (i : nat) (c : N) (s : System Ch Rx) : Prop :=
  status (gate_state s) <> Running /\ cycle (gate_state s) = c /\
  match sys_callers s !! i with
  | Some (QLoop _ c') | Some (QWait _ c') => c' = c
  | Some (QDone (Err FeatureResumed)) => False
  | _ => True
  end.

Lemma in_pause_send f i c s :
  (forall x, status x <> Running -> status (f x).1 <> Running /\ cycle (f x).1 = cycle x) ->
  in_pause i c s -> in_pause i c (send f s).
Proof.
  intros Hf (Hr & Hc & Hi). unfold in_pause. rewrite send_status. destruct (Hf _ Hr) as [? ->]. done.
Qed.

Lemma in_pause_caller i j c s q :
  in_pause i c s ->
  match q with
  | QLoop _ c' | QWait _ c' => c' = c
  | QDone (Err FeatureResumed) => i <> j
  | _ => True
  end \/ i <> j -> in_pause i c (set_caller j q s).
Proof.
  intros (Hr & Hc & Hi) Hq. split; [done|]. split; [done|]. cbn.
  destruct (decide (i = j)) as [->|Hne]; [|by rewrite lookup_insert_ne by done].
  rewrite lookup_insert_eq. destruct Hq as [Hq|?]; [|done]. by destruct q as [|?|?|[|[]]].
Qed.

Lemma in_pause_step i c s s' : in_pause i c s -> paused_step s s' -> in_pause i c s'.
Proof.
  intros Hp (a & Ha & Hstep). pose proof Hp as (Hr & Hc & Hi).
  destruct Hstep as [| | | |s| | | |s| | |j s Hj|j rx s Hj|j rx c' s Hj|j rx c' s Hj Hu|j s|s]; try done.
  - apply (in_pause_send GateWorker.stop i c (set_worker WDropped s)); [by intros [[] ?]|done].
  - apply (in_pause_send GateWorker.park i c (set_worker WSelect s)); [by intros [[] ?]|done].
  - apply in_pause_caller; [done|by left].
  - apply in_pause_caller; [apply in_pause_send; [by intros [[] ?]|done]|]. left.
    rewrite <-Hc. unfold QuiesceGate.close. by destruct (status (gate_state s)).
  - unfold quiesce_read. destruct (decide (i = j)) as [->|Hne].
    2:{ destruct (QuiesceGate.observe _ _); apply in_pause_caller; auto. }
    rewrite Hj in Hi. subst c'. unfold QuiesceGate.observe. rewrite bool_decide_true by done. cbn [negb].
    destruct (status (gate_state s)); [done|..]; apply in_pause_caller; auto.
  - apply in_pause_caller; [done|]. destruct (decide (i = j)) as [->|]; [left|by right]. by rewrite Hj in Hi.
  - split; [done|]. split; [done|]. cbn. destruct (decide (i = j)) as [->|Hne].
    + by rewrite lookup_delete_eq.
    + by rewrite lookup_delete_ne by done.
Qed.

Lemma in_pause_run i c s s' : rtc paused_step s s' -> in_pause i c s -> in_pause i c s'.
Proof. induction 1; eauto using in_pause_step. Qed.

Lemma stopped_step s s' : status (gate_state s) = Stopped -> any_step s s' -> status (gate_state s') = Stopped.
Proof.
  intros Hst [a Hstep]. destruct Hstep; try done;
    try (change (gate_state (set_caller _ _ ?t)) with (gate_state t)); unfold checkpoint_read, quiesce_read in *.
  - by rewrite send_status.
  - rewrite send_status. unfold GateWorker.park. change (gate_state (set_worker WSelect s)) with (gate_state s).
    by rewrite Hst.
  - change (status (gate_state (send QuiesceGate.close s)) = Stopped). rewrite send_status.
    unfold QuiesceGate.close. by rewrite Hst.
  - by destruct (QuiesceGate.observe _ _).
  - rewrite send_status. unfold QuiesceGate.reopen. by rewrite Hst.
Qed.

(** The answers of the gate are honest.  A [quiesce] call answers [Resumed]
    only if somebody called [resume] after it closed the gate (so a call that
    joins a standing pause can only end in [Ok] or [Stopped]); it answers
    [Stopped] only when the worker task has ended; and a stopped gate stays
    stopped through every further step, with [resume] refusing and every later
    [quiesce] call failing. *)
Theorem gate_answers_are_honest (s : System Ch Rx) (Hs : reachable s) :
  (forall i watcher s', sys_callers s !! i = Some (QSubscribed watcher) ->
     rtc paused_step (set_caller i (QLoop watcher (cycle (QuiesceGate.close (gate_state s)).1))
                        (send QuiesceGate.close s)) s' ->
     sys_callers s' !! i <> Some (QDone (Err FeatureResumed))) /\
  (forall i watcher c,
     sys_callers (quiesce_read i watcher c s) !! i = Some (QDone (Err FeatureStopped)) ->
     sys_worker s = WDropped) /\
  (sys_worker s = WDropped -> forall s', rtc any_step s s' ->
     sys_worker s' = WDropped /\
     QuiesceGate.resume_outcome (gate_state s') = Err FeatureStopped /\
     (QuiesceGate.close (gate_state s')).1 = gate_state s' /\
     QuiesceGate.observe (cycle (gate_state s')) (gate_state s') = Some (Err FeatureStopped)).
Proof.
  apply gate_inv_reachable in Hs as Hinv. split_and!.
  - intros i watcher s' Hi Hrun Hd. eapply (in_pause_run i) in Hrun.
    + destruct Hrun as (_ & _ & Hp). by rewrite Hd in Hp.
    + split; [|split; [reflexivity|]].
      * change (status (gate_state (send QuiesceGate.close s)) <> Running). rewrite send_status.
        unfold QuiesceGate.close. destruct (gate_state s) as [[] ?]; done.
      * cbn. rewrite lookup_insert_eq. unfold gate_state. cbn. by rewrite watch_send_law.
  - intros i watcher c Hd. apply (inv_stopped s Hinv). revert Hd.
    unfold quiesce_read, QuiesceGate.observe. destruct (negb _); cbn; [rewrite lookup_insert_eq; congruence|].
    destruct (status (gate_state s)); cbn; rewrite lookup_insert_eq; congruence.
  - intros Hw s' Hrun. apply (inv_stopped s Hinv) in Hw.
    assert (Hst : status (gate_state s') = Stopped) by (clear -Hw Hrun WatchLaws0; induction Hrun; eauto using stopped_step).
    assert (Hinv' : gate_inv s') by (apply gate_inv_reachable; unfold reachable in *; by etrans).
    apply (inv_stopped s' Hinv') in Hst as Hw'. unfold QuiesceGate.resume_outcome, QuiesceGate.close, QuiesceGate.observe.
    rewrite Hst, bool_decide_true by done. done.
Qed.
End gate.

(** ** A channel

    Versions: a receiver has seen up to a version of the value. *)

Record Versioned := mk_Versioned { value : State; version : nat }.

#[export] Instance versioned_channel : WatchChannel Versioned nat := {
  watch_channel state := (mk_Versioned state 0, 0);
  watch_borrow := value;
  watch_subscribe := version;
  watch_update ch _ := version ch;
  watch_unseen ch rx := rx <? version ch;
  watch_send_if_modified ch f :=
    let (state, modified) := f (value ch) in
    mk_Versioned state (if (modified : bool) then S (version ch) else version ch);
}.

#[export] Instance versioned_laws : WatchLaws Versioned nat.
Proof.
  refine {| watch_of ch rx := rx <= version ch |}; cbn.
  - done.
  - intros ch. split; [done|]. apply Nat.ltb_irrefl.
  - intros ch rx _. split; [done|]. apply Nat.ltb_irrefl.
  - intros ch f. by destruct (f (value ch)).
  - intros ch f rx Hrx. destruct (f (value ch)) as [x []]; cbn; [|done].
    split; [lia|]. by apply Nat.leb_le.
Defined.

(** The worker enters a checkpoint and parks while call 0 is waiting. *)
Definition sample_waiting : System Versioned nat :=
  mk_System (mk_Versioned (mk_State Quiescing 1) 1) WLoop 0 {[0 := QLoop 0 1%N]}.
Definition sample_parked : System Versioned nat :=
  mk_System (mk_Versioned (mk_State Quiescent 1) 2) WSelect 1 {[0 := QLoop 0 1%N]}.

Lemma sample_waiting_reachable : reachable sample_waiting.
Proof.
  eapply rtc_l; [exists (ACaller 0); by apply step_subscribe|].
  eapply rtc_l; [exists (ACaller 0); by eapply (step_close 0 0)|].
  eapply rtc_l; [exists AWorker; by apply step_enter|]. apply rtc_refl.
Qed.

Lemma sample_parked_reachable : reachable sample_parked.
Proof.
  eapply rtc_r; [eapply rtc_r; [apply sample_waiting_reachable|]|].
  - exists AWorker. by apply step_read.
  - exists AWorker. exact (step_park (checkpoint_read sample_waiting) eq_refl).
Qed.

Lemma quiesce_ok_means_parked_witness :
  sys_callers (quiesce_read 0 0 1 sample_parked) !! 0 = Some (QDone (Ok tt)) /\
  gate_state sample_parked = mk_State Quiescent 1.
Proof.
  split; [reflexivity|].
  destruct (quiesce_ok_means_parked sample_parked 0 0 1 sample_parked_reachable) as (Hg & _ & _);
    [reflexivity..|exact Hg].
Defined.

Lemma quiesce_can_complete_witness :
  exists s', rtc (pair_step 0) sample_waiting s' /\ sys_callers s' !! 0 = Some (QDone (Ok tt)).
Proof.
  destruct (quiesce_can_complete sample_waiting sample_waiting_reachable) as (_ & _ & Hdone).
  apply (Hdone 0 0 1%N); [left; reflexivity|reflexivity|discriminate].
Defined.

Lemma gate_answers_are_honest_witness :
  reachable sample_waiting /\
  forall watcher c, sys_callers (quiesce_read 0 watcher c sample_waiting) !! 0
    = Some (QDone (Err FeatureStopped)) -> sys_worker sample_waiting = WDropped.
Proof.
  split; [apply sample_waiting_reachable|].
  destruct (gate_answers_are_honest sample_waiting sample_waiting_reachable) as (_ & Hstop & _).
  intros watcher c. apply (Hstop 0).
Defined.
