(* ===== verification/ToolArgs.v ===== *)
(** * Tool arguments

    [crates/core/src/mcp/tool.rs]: which action an argv payload names, whether a
    dispatcher call's fields fit its action, and how a flat tool's [space] and
    [spaces] arguments are reconciled before its unknown fields are refused or
    dropped.  Functions that take [&mut Value] return the value they leave. *)

From S2P Require Import Prelude Ids Capability Json Errors.

(** [Debug] of a [str]: its escape table is the standard library's. *)
Class DebugStr := debug_str : rstring -> rstring.

(** [Vec::sort] of strings. *)
Definition sort_strs (l : list rstring) : list rstring := sort_by str_leb l.

(** [Iterator::max_by_key]: the last of the greatest. *)
Definition max_by_key {A} (key : A -> nat) (l : list A) : option A :=
  foldl (fun (best : option A) x =>
           match best with
           | Some b => if key x <? key b then Some b else Some x
           | None => Some x
           end) None l.

(** [{words:?}] of a slice. *)
Definition debug_words `{DebugStr} (words : list rstring) : rstring :=
  str "[" ++ join (str ", ") (debug_str <$> words) ++ str "]".

(** ** Argv dispatchers *)

Fixpoint words_of (tool_name : rstring) (values : list Json) : result (list rstring) McpToolError :=
  match values with
  | [] => Ok []
  | value :: values =>
      let? word := ok_or (Json.as_str value)
                     (InvalidInput (tool_name ++ str " `argv` must be an array of strings")) in
      let? words := words_of tool_name values in
      Ok (word :: words)
  end.

Definition prefix_matches (words : list rstring) (spec : McpArgvActionSpec) : bool :=
  (length (argv_prefix spec) <=? length words)
  && forallb (fun '(expected, actual) => bool_decide (expected = actual))
       (zip (argv_prefix spec) words).

Definition resolve_argv_action `{DebugStr} (tool_name : rstring) (specs : list McpArgvActionSpec)
    (args : Json) : result rstring McpToolError :=
  let? values := ok_or (let* argv := Json.get (str "argv") args in Json.as_array argv)
                   (InvalidInput (tool_name ++ str " arguments must include array field `argv`")) in
  let? words := words_of tool_name values in
  let matching := List.filter (prefix_matches words) specs in
  ok_or (argv_action_key <$> max_by_key (fun spec => length (argv_prefix spec)) matching)
    (InvalidInput
       (tool_name ++ str " argv " ++ debug_words words
        ++ str " matches no declared command; expected one of: "
        ++ join (str ", ") ((fun spec => join (str " ") (argv_prefix spec)) <$> specs))).

(** ** Tagged dispatchers *)

Definition validate_action_args (tool_name : rstring) (specs : list McpActionArgSpec) (args : Json) :
    result unit McpToolError :=
  if is_empty specs then Ok tt
  else
    let? object := ok_or (Json.as_object args)
                     (InvalidInput (tool_name ++ str " arguments must be a JSON object")) in
    let? action := ok_or (let* v := Json.lookup (str "action") object in Json.as_str v)
                     (InvalidInput (tool_name ++ str " arguments must include string field `action`")) in
    let? spec := ok_or (find (fun spec => bool_decide (arg_action spec = action)) specs)
                   (InvalidInput
                      (tool_name ++ str " action `" ++ action ++ str "` is not supported; expected one of: "
                       ++ join (str ", ") (arg_action <$> specs))) in
    let unexpected :=
      List.filter (fun field => negb (bool_decide (field = str "action"))
                                && negb (slice_contains field (arg_allowed_fields spec))) object.*1 in
    if negb (is_empty unexpected)
    then Err (InvalidInput
                (tool_name ++ str " action `" ++ action ++ str "` does not accept field(s): "
                 ++ join (str ", ") (sort_strs unexpected)))
    else
      let missing := List.filter (fun field => negb (Json.contains_key field object)) (arg_required_fields spec) in
      if negb (is_empty missing)
      then Err (InvalidInput
                  (tool_name ++ str " action `" ++ action ++ str "` requires field(s): "
                   ++ join (str ", ") missing))
      else Ok tt.

(** ** Flat tools *)

Inductive McpUnknownFieldPolicy := Refuse | IgnoreAndReport.

Definition declares (properties : list rstring) (name : rstring) : bool := slice_contains name properties.

Definition coerce_space_aliases (tool_name : rstring) (args : Json) (properties : list rstring) :
    result Json McpToolError :=
  match args with
  | JObject object =>
      let has_spaces := declares properties (str "spaces") in
      let has_space := declares properties (str "space") in
      let count := (let* v := Json.lookup (str "spaces") object in
                    length <$> Json.as_array v) in
      match (if has_space && negb has_spaces then count else None) with
      | Some (S (S _) as count) =>
          Err (InvalidInput
                 (tool_name ++ str " accepts a single `space`; received `spaces` array with "
                  ++ display_u64 (N.of_nat count) ++ str " elements"))
      | _ =>
          match (if has_spaces && negb has_space && negb (Json.contains_key (str "spaces") object)
                 then Json.lookup (str "space") object else None) with
          | Some value =>
              Ok (JObject (Json.insert (str "spaces") (JArray [value])
                             (Json.remove (str "space") object)))
          | None =>
              match (if has_space && negb has_spaces && negb (Json.contains_key (str "space") object)
                     then Json.lookup (str "spaces") object else None) with
              | Some value =>
                  let object := Json.remove (str "spaces") object in
                  let scalar := match value with
                                | JArray items => hd_error items
                                | other => Some other
                                end in
                  Ok (JObject (match scalar with
                               | Some scalar => Json.insert (str "space") scalar object
                               | None => object
                               end))
              | None => Ok args
              end
          end
      end
  | _ => Ok args
  end.

(** The dropped names, with the arguments left. *)
Definition prepare_flat_tool_args (tool_name : rstring) (properties : list rstring) (args : Json)
    (policy : McpUnknownFieldPolicy) : result (list rstring * Json) McpToolError :=
  let? args := coerce_space_aliases tool_name args properties in
  let? object := ok_or (Json.as_object args)
                   (InvalidInput (tool_name ++ str " arguments must be a JSON object")) in
  let unexpected := List.filter (fun field => negb (declares properties field)) object.*1 in
  if is_empty unexpected then Ok ([], args)
  else
    let unexpected := sort_strs unexpected in
    match policy with
    | Refuse =>
        Err (InvalidInput (tool_name ++ str " does not accept field(s): " ++ join (str ", ") unexpected))
    | IgnoreAndReport =>
        Ok (unexpected, JObject (foldl (fun (o : list (rstring * Json)) field => Json.remove field o) object unexpected))
    end.

(** ** Helper lemmas *)

Lemma prefix_matches_iff words spec :
  prefix_matches words spec = true <-> argv_prefix spec `prefix_of` words.
Proof.
  unfold prefix_matches. generalize (argv_prefix spec). intros p. revert words.
  induction p as [|a p IH]; intros [|w words]; cbn [zip zip_with forallb length andb].
  - split; [intros _; apply prefix_nil|done].
  - split; [intros _; apply prefix_nil|done].
  - split; [done|]. by intros ?%prefix_nil_not.
  - rewrite andb_assoc, (andb_comm (_ <=? _)), <-andb_assoc, andb_true_iff, bool_decide_eq_true.
    change (S (length p) <=? S (length words)) with (length p <=? length words). rewrite IH.
    split; [intros [-> Hp]; by apply prefix_cons|]. intros Hp.
    split; [by eapply prefix_cons_inv_1|by eapply prefix_cons_inv_2].
Qed.

(** The element [max_by_key] picks: nothing before it is greater, everything
    after it is less. *)
Lemma max_by_key_spec {A} (key : A -> nat) l :
  match max_by_key key l with
  | None => l = []
  | Some x => exists pre post, l = pre ++ x :: post /\
      (forall y, y ∈ pre -> key y <= key x) /\ (forall y, y ∈ post -> key y < key x)
  end.
Proof.
  unfold max_by_key. induction l as [|a l IH] using rev_ind; [done|].
  rewrite foldl_app. cbn [foldl]. destruct (foldl _ None l) as [b|].
  - destruct IH as (pre & post & -> & Hpre & Hpost). destruct (Nat.ltb_spec (key a) (key b)).
    + exists pre, (post ++ [a]). rewrite <-app_assoc. cbn. split_and!; [done..|]. intros y.
      rewrite elem_of_app, list_elem_of_singleton. intros [?| ->]; auto.
    + exists (pre ++ b :: post), []. split_and!; [done| |by intros y ?%elem_of_nil]. intros y.
      rewrite elem_of_app, elem_of_cons. intros [Hy|[->|Hy]]; [apply Hpre in Hy; lia|done|apply Hpost in Hy; lia].
  - subst l. exists [], []. split_and!; [done|by intros y ?%elem_of_nil..].
Qed.

Lemma filter_elem_of {A} (f : A -> bool) (l : list A) x : x ∈ List.filter f l <-> x ∈ l /\ f x = true.
Proof. rewrite !list_elem_of_In. apply filter_In. Qed.

Lemma filter_empty {A} (f : A -> bool) (l : list A) :
  is_empty (List.filter f l) = true <-> forall x, x ∈ l -> f x = false.
Proof.
  split.
  - intros He x Hx. destruct (f x) eqn:Ef; [|done]. assert (Hin : x ∈ List.filter f l) by by apply filter_elem_of.
    destruct (List.filter f l); [by apply elem_of_nil in Hin|discriminate].
  - intros H. destruct (List.filter f l) as [|x l'] eqn:E; [done|].
    assert (Hin : x ∈ List.filter f l) by (rewrite E; apply list_elem_of_here).
    apply filter_elem_of in Hin as [Hx Hf]. rewrite H in Hf by done. discriminate.
Qed.

(** Where a kept element sits in the list it was kept from. *)
Lemma filter_split {A} (f : A -> bool) (l pre post : list A) x :
  List.filter f l = pre ++ x :: post ->
  exists pre' post', l = pre' ++ x :: post' /\ List.filter f pre' = pre /\ List.filter f post' = post.
Proof.
  revert pre. induction l as [|a l IH]; intros pre; cbn; [by destruct pre|].
  destruct (f a) eqn:Ef.
  - destruct pre as [|b pre]; cbn; intros [= -> Hl]; [by exists [], l|].
    destruct (IH pre Hl) as (p & q & -> & <- & <-). exists (b :: p), q. cbn. by rewrite Ef.
  - intros Hl. destruct (IH pre Hl) as (p & q & -> & <- & <-). exists (a :: p), q. cbn. by rewrite Ef.
Qed.

(** The argv payload of a call: an array of strings. *)
Definition argv_words (args : Json) (words : list rstring) : Prop :=
  Json.get (str "argv") args = Some (JArray (JString <$> words)).

Lemma words_of_Ok tool values words :
  words_of tool values = Ok words <-> values = JString <$> words.
Proof.
  revert words. induction values as [|v values IH]; intros words; cbn.
  - split; [intros [= <-]|]; [done|]. by destruct words.
  - destruct v as [| | |s| |]; cbn; try (by destruct words).
    destruct (words_of tool values) as [ws|]; cbn.
    + split; [intros [= <-]; by rewrite (proj1 (IH ws) eq_refl)|].
      destruct words as [|w words]; [done|]. cbn. intros [= <- Hv]. apply IH in Hv. congruence.
    + split; [done|]. destruct words as [|w words]; [done|]. cbn. intros [= <- Hv]. by apply IH in Hv.
Qed.

(** ** Properties *)

(** An argv call resolves to its most specific declared command.  The
    resolution succeeds exactly when the payload is an array of strings of which
    some declared command is a prefix, and then names a matching command that
    no matching command exceeds in length, the last declared one among equals;
    a payload that matches nothing, or is no array of strings, is refused. *)
Theorem argv_resolution_longest_prefix `{DebugStr} (tool_name : rstring) (specs : list McpArgvActionSpec)
    (args : Json) :
  (forall action, resolve_argv_action tool_name specs args = Ok action ->
     exists words pre spec post,
       argv_words args words /\ specs = pre ++ spec :: post /\ action = argv_action_key spec /\
       argv_prefix spec `prefix_of` words /\
       (forall other, other ∈ pre -> argv_prefix other `prefix_of` words ->
          length (argv_prefix other) <= length (argv_prefix spec)) /\
       (forall other, other ∈ post -> argv_prefix other `prefix_of` words ->
          length (argv_prefix other) < length (argv_prefix spec))) /\
  (is_ok (resolve_argv_action tool_name specs args) = true <->
     exists words spec, argv_words args words /\ spec ∈ specs /\ argv_prefix spec `prefix_of` words).
Proof.
  unfold resolve_argv_action, argv_words.
  destruct (Json.get (str "argv") args) as [[| | | |values|]|]; cbn;
    try (by split; [discriminate|split; [discriminate|intros (? & ? & [=] & _)]]).
  destruct (words_of tool_name values) as [words|] eqn:Ew; cbn.
  2:{ split; [discriminate|]. split; [discriminate|]. intros (words & ? & [= Hv] & _).
      apply (words_of_Ok tool_name) in Hv. congruence. }
  apply words_of_Ok in Ew as ->.
  assert (Hinj : forall w' : list rstring, JString <$> words = JString <$> w' -> words = w')
    by (intros w' Hw; apply (list_fmap_eq_inj JString) in Hw; [done|by intros ?? [=]]).
  pose proof (max_by_key_spec (fun spec => length (argv_prefix spec)) (List.filter (prefix_matches words) specs)) as Hmax.
  destruct (max_by_key _ _) as [spec|]; cbn.
  - destruct Hmax as (pre & post & Hf & Hpre & Hpost).
    assert (Hin : spec ∈ List.filter (prefix_matches words) specs) by (rewrite Hf; set_solver).
    apply filter_elem_of in Hin as [Hin Hm]. split.
    2:{ split; [|done]. intros _. exists words, spec. by rewrite <-prefix_matches_iff. }
    intros action [= <-]. destruct (filter_split (prefix_matches words) specs pre post spec Hf) as (pre' & post' & -> & Hp & Hq).
    exists words, pre', spec, post'. rewrite <-prefix_matches_iff. split_and!; try done.
    + intros other Ho Hw%prefix_matches_iff. apply Hpre. rewrite <-Hp. by apply filter_elem_of.
    + intros other Ho Hw%prefix_matches_iff. apply Hpost. rewrite <-Hq. by apply filter_elem_of.
  - split; [discriminate|]. split; [discriminate|]. intros (w' & spec & [= Hw] & Hs & Hp). apply Hinj in Hw as <-.
    apply prefix_matches_iff in Hp. assert (Hin : spec ∈ List.filter (prefix_matches words) specs) by by apply filter_elem_of.
    rewrite Hmax in Hin. by apply elem_of_nil in Hin.
Qed.

Lemma argv_resolution_longest_prefix_witness :
  let specs := [mk_McpArgvActionSpec (str "approval") [] [str "approval"] ReadOnly Shared;
                mk_McpArgvActionSpec (str "decide") [] [str "approval"; str "decide"] (Destructive Idempotent) Shared] in
  let args := JObject [(str "argv", JArray [JString (str "approval"); JString (str "decide"); JString (str "7")])] in
  exists words, resolve_argv_action (H := id) (str "ops") specs args = Ok (str "decide") /\ argv_words args words.
Proof.
  intros specs args. assert (E : resolve_argv_action (H := id) (str "ops") specs args = Ok (str "decide")) by reflexivity.
  destruct (argv_resolution_longest_prefix (H := id) (str "ops") specs args) as [Hsound _].
  destruct (Hsound _ E) as (words & _ & _ & _ & Hw & _). exists words. split; [exact E|exact Hw].
Defined.

(** A dispatcher call is accepted exactly when its arguments are an object
    with a string [action] that the tool declares, every other field is allowed
    by that action's contract, and every required field is present; a tool with
    no action contracts accepts anything here. *)
Theorem validate_action_args_correct (tool_name : rstring) (specs : list McpActionArgSpec) (args : Json) :
  validate_action_args tool_name specs args = Ok tt <->
  specs = [] \/
  exists object action spec,
    args = JObject object /\ Json.lookup (str "action") object = Some (JString action) /\
    find (fun spec => bool_decide (arg_action spec = action)) specs = Some spec /\
    (forall field, field ∈ object.*1 -> field = str "action" \/ field ∈ arg_allowed_fields spec) /\
    (forall field, field ∈ arg_required_fields spec -> field ∈ object.*1).
Proof.
  unfold validate_action_args. destruct (is_empty specs) eqn:Es.
  { destruct specs; [|discriminate]. split; [by left|done]. }
  assert (Hne : specs <> []) by by destruct specs. split.
  - intros H. right. destruct args as [| | | | |object]; try discriminate H. cbn [Json.as_object ok_or] in H.
    destruct (Json.lookup (str "action") object) as [[| | |action| |]|] eqn:Ea; try discriminate H.
    cbn [Json.as_str ok_or] in H. destruct (find _ specs) as [spec|] eqn:Ef; [|discriminate H]. cbn [ok_or] in H.
    destruct (is_empty (List.filter _ object.*1)) eqn:Eu; [|discriminate H]. cbn [negb] in H.
    destruct (is_empty (List.filter _ (arg_required_fields spec))) eqn:Em; [|discriminate H].
    exists object, action, spec. split_and!; try done; intros field Hf.
    + apply (proj1 (filter_empty _ _) Eu) in Hf. apply andb_false_iff in Hf as [Hf|Hf]; bools; auto.
      right. by apply slice_contains_true.
    + apply (proj1 (filter_empty _ _) Em) in Hf. bools. by apply json_contains_key.
  - intros [->|(object & action & spec & -> & Ha & Hf & Hal & Hreq)]; [done|].
    cbn [Json.as_object ok_or]. rewrite Ha. cbn [Json.as_str ok_or]. rewrite Hf. cbn [ok_or].
    rewrite (proj2 (filter_empty _ object.*1)).
    2:{ intros field Hfield. destruct (Hal field Hfield) as [->|Hin]; [done|].
        apply slice_contains_true in Hin. rewrite Hin. apply andb_false_r. }
    cbn [negb]. rewrite (proj2 (filter_empty _ (arg_required_fields spec))); [done|].
    intros field Hfield%Hreq%json_contains_key. by rewrite Hfield.
Qed.

(** ** Space aliases *)

(** The coercion leaves an object in which [gone] is absent, [kept] holds
    [value], and every other member is as sent. *)
Definition coerced_to (tool_name : rstring) (object : list (rstring * Json)) (properties : list rstring)
    (gone kept : rstring) (value : option Json) : Prop :=
  exists o, coerce_space_aliases tool_name (JObject object) properties = Ok (JObject o) /\
    Json.lookup gone o = None /\ Json.lookup kept o = value /\
    forall k, k <> gone -> k <> kept -> Json.lookup k o = Json.lookup k object.

(** What becomes of a [space] or [spaces] argument.  On a tool that declares
    only [space]: a scalar [spaces], or an array of one, becomes [space]; an
    array of two or more is refused; and an empty [spaces] array is removed, with
    no [space] in its place.  On a tool that declares only [spaces], a [space]
    becomes an array of one.  Nothing else is touched, and a tool that declares
    both or neither sees its arguments as sent. *)
Theorem space_aliases_correct (tool_name : rstring) (object : list (rstring * Json)) (properties : list rstring) :
  let space := str "space" in
  let spaces := str "spaces" in
  (space ∈ properties -> spaces ∉ properties -> Json.lookup space object = None ->
     (forall v, Json.lookup spaces object = Some v -> Json.as_array v = None ->
        coerced_to tool_name object properties spaces space (Some v)) /\
     (forall v, Json.lookup spaces object = Some (JArray [v]) ->
        coerced_to tool_name object properties spaces space (Some v)) /\
     (Json.lookup spaces object = Some (JArray []) ->
        coerced_to tool_name object properties spaces space None)) /\
  (space ∈ properties -> spaces ∉ properties ->
     forall a b rest, Json.lookup spaces object = Some (JArray (a :: b :: rest)) ->
       is_ok (coerce_space_aliases tool_name (JObject object) properties) = false) /\
  (spaces ∈ properties -> space ∉ properties -> Json.lookup spaces object = None ->
     forall v, Json.lookup space object = Some v ->
       coerced_to tool_name object properties space spaces (Some (JArray [v]))) /\
  ((space ∈ properties <-> spaces ∈ properties) ->
     coerce_space_aliases tool_name (JObject object) properties = Ok (JObject object)).
Proof.
  intros space spaces. unfold coerced_to, coerce_space_aliases, declares, Json.contains_key. fold space spaces.
  assert (Hne : space <> spaces) by discriminate. clearbody space spaces.
  assert (Hb : forall name, (name ∈ properties -> slice_contains name properties = true) /\
                            (name ∉ properties -> slice_contains name properties = false)).
  { intros name. rewrite <-slice_contains_true. by destruct (slice_contains name properties). }
  destruct (Hb space) as [Hs1 Hs2], (Hb spaces) as [Hp1 Hp2]. split_and!.
  - intros H1%Hs1 H2%Hp2 H3. rewrite H1, H2, H3. cbn.
    split_and!; [intros v Hv Ha|intros v Hv|intros Hv]; rewrite Hv; cbn; rewrite ?Ha; cbn;
      [destruct v; try discriminate Ha|..]; eexists; (split; [reflexivity|]);
      split_and!; intros; rewrite ?json_lookup_insert, ?json_lookup_remove;
      repeat case_bool_decide; congruence.
  - intros H1%Hs1 H2%Hp2 a b rest Hv. rewrite H1, H2, Hv. done.
  - intros H1%Hp1 H2%Hs2 H3 v Hv. rewrite H1, H2, H3, Hv. cbn. eexists; (split; [reflexivity|]).
    split_and!; intros; rewrite ?json_lookup_insert, ?json_lookup_remove; repeat case_bool_decide; congruence.
  - intros Hiff. destruct (decide (space ∈ properties)) as [Hin|Hin].
    + rewrite Hs1, Hp1 by naive_solver. done.
    + rewrite Hs2, Hp2 by naive_solver. done.
Qed.

Lemma space_aliases_correct_witness :
  coerced_to (str "recall") [(str "spaces", JArray []); (str "q", JString (str "x"))] [str "space"; str "q"]
    (str "spaces") (str "space") None.
Proof.
  destruct (space_aliases_correct (str "recall") [(str "spaces", JArray []); (str "q", JString (str "x"))]
    [str "space"; str "q"]) as [H _].
  destruct H as (_ & _ & Hempty).
  - apply slice_contains_true. reflexivity.
  - intros Hin%slice_contains_true. discriminate Hin.
  - reflexivity.
  - apply Hempty. reflexivity.
Defined.

(** Coercion only moves a value between the two names, to a declared one. *)
Lemma coerce_frame tool object properties v :
  coerce_space_aliases tool (JObject object) properties = Ok v ->
  exists o, v = JObject o /\
    (forall k, k <> str "space" -> k <> str "spaces" -> Json.lookup k o = Json.lookup k object) /\
    (forall k, k ∈ o.*1 -> k ∈ object.*1 \/ k ∈ properties).
Proof.
  unfold coerce_space_aliases. set (space := str "space"). set (spaces := str "spaces"). clearbody space spaces.
  destruct (declares properties spaces) eqn:Hp, (declares properties space) eqn:Hs; cbn [negb andb];
    try (by intros [= <-]; exists object; auto).
  - destruct (negb _); [|by intros [= <-]; exists object; auto].
    destruct (Json.lookup space object) as [x|]; intros [= <-]; [|by exists object; auto].
    eexists; split; [reflexivity|]. apply slice_contains_true in Hp. split; intros k.
    + intros H1 H2. rewrite json_lookup_insert, json_lookup_remove. by rewrite !bool_decide_false.
    + rewrite json_insert_keys, json_remove_keys. naive_solver.
  - apply slice_contains_true in Hs.
    destruct (let* v := _ in _) as [[|[|n]]|]; try discriminate;
      (destruct (negb (Json.contains_key space object)); [|by intros [= <-]; exists object; auto];
       destruct (Json.lookup spaces object) as [x|]; intros [= <-]; [|by exists object; auto];
       eexists; split; [reflexivity|]; split; intros k;
         [intros H1 H2|]; destruct (match x with JArray _ => _ | _ => _ end);
         rewrite ?json_lookup_insert, ?json_lookup_remove, ?bool_decide_false by done;
         rewrite ?json_insert_keys, ?json_remove_keys; naive_solver).
Qed.

Lemma foldl_remove_lookup l (o : list (rstring * Json)) k :
  Json.lookup k (foldl (fun (o : list (rstring * Json)) field => Json.remove field o) o l)
  = if bool_decide (k ∈ l) then None else Json.lookup k o.
Proof.
  revert o. induction l as [|a l IH]; intros o; cbn [foldl]; [by rewrite bool_decide_false by apply not_elem_of_nil|].
  rewrite IH, json_lookup_remove. repeat case_bool_decide; try done; set_solver.
Qed.

(** A flat tool never runs on a field it does not declare.  When its
    arguments are accepted, they are an object of declared fields only, whose
    values are as sent (the two space aliases apart); under the strict policy
    nothing was dropped; under the lenient policy the dropped names are fields
    that were sent and not declared, every such field among them.  Under the
    lenient policy an object is refused only for its [space] arity, and under
    the strict policy also for carrying an undeclared field. *)
Theorem prepare_flat_tool_args_correct (tool_name : rstring) (properties : list rstring)
    (object : list (rstring * Json)) (policy : McpUnknownFieldPolicy) :
  (forall dropped final,
     prepare_flat_tool_args tool_name properties (JObject object) policy = Ok (dropped, final) ->
     exists o, final = JObject o /\
       (forall k, k ∈ o.*1 -> k ∈ properties) /\
       (forall k, k ∈ properties -> k <> str "space" -> k <> str "spaces" ->
          Json.lookup k o = Json.lookup k object) /\
       (policy = Refuse -> dropped = []) /\
       (forall k, k ∈ dropped -> k ∈ object.*1 /\ k ∉ properties) /\
       (forall k, k ∈ object.*1 -> k ∉ properties -> k <> str "space" -> k <> str "spaces" -> k ∈ dropped)) /\
  (is_ok (prepare_flat_tool_args tool_name properties (JObject object) policy) = true <->
   exists o, coerce_space_aliases tool_name (JObject object) properties = Ok (JObject o) /\
     (policy = Refuse -> forall k, k ∈ o.*1 -> k ∈ properties)).
Proof.
  unfold prepare_flat_tool_args.
  destruct (coerce_space_aliases tool_name (JObject object) properties) as [v|] eqn:Ec.
  2:{ split; [discriminate|]. split; [discriminate|]. by intros (? & [=] & _). }
  apply coerce_frame in Ec as (o & -> & Hsame & Hkeys). cbn [Json.as_object ok_or].
  assert (Hdecl : forall k, declares properties k = true <-> k ∈ properties) by (intros; apply slice_contains_true).
  assert (Hun : forall k, k ∈ List.filter (fun field => negb (declares properties field)) o.*1
                <-> k ∈ o.*1 /\ k ∉ properties).
  { intros k. rewrite filter_elem_of, negb_true_iff, <-Hdecl. destruct (declares properties k); naive_solver. }
  assert (Hsent : forall k, k ∈ object.*1 -> k <> str "space" -> k <> str "spaces" -> k ∈ o.*1).
  { intros k Hk H1 H2. apply json_contains_key. unfold Json.contains_key. rewrite Hsame by done. by apply json_contains_key. }
  destruct (is_empty _) eqn:Ee.
  - pose proof (proj1 (filter_empty _ _) Ee) as Hall. cbn beta in Hall.
    assert (Hin : forall k, k ∈ o.*1 -> k ∈ properties) by (intros k Hk%Hall; bools; by apply Hdecl).
    split; [|split; [intros _; by exists o|done]]. intros dropped final [= <- <-]. exists o.
    split_and!; try done; [intros; by apply Hsame|by intros k ?%elem_of_nil|].
    intros k Hk Hn H1 H2. by destruct Hn; apply Hin, Hsent.
  - destruct policy.
    + split; [discriminate|]. split; [discriminate|]. intros (o' & [= <-] & Hall). exfalso.
      revert Ee. apply not_false_iff_true, filter_empty. intros k Hk. apply negb_false_iff, Hdecl. by apply Hall.
    + split; [|split; [intros _; by exists o|done]]. intros dropped final [= <- <-]. eexists. split; [reflexivity|].
      assert (Hs : forall k, k ∈ sort_strs (List.filter (fun field => negb (declares properties field)) o.*1)
                <-> k ∈ o.*1 /\ k ∉ properties) by (intros k; unfold sort_strs; by rewrite sort_by_elem_of).
      split_and!; try done.
      * intros k Hk%json_contains_key. unfold Json.contains_key in Hk. rewrite foldl_remove_lookup in Hk.
        case_bool_decide as Hd; [discriminate|]. rewrite Hs in Hd. apply json_contains_key in Hk.
        destruct (decide (k ∈ properties)); [done|]. by destruct Hd.
      * intros k Hk H1 H2. rewrite foldl_remove_lookup, bool_decide_false; [by apply Hsame|]. rewrite Hs. naive_solver.
      * intros k [Hk Hn]%Hs. split; [|done]. by destruct (Hkeys k Hk).
      * intros k Hk Hn H1 H2. apply Hs. auto.
Qed.
