(* ===== verification/Spaces.v ===== *)
(** * Memory spaces

    [crates/core/src/mcp/core_tools/memory_spaces.rs]: the public keys a caller
    names owners by, the listing that advertises them, and the resolution every
    tool and the scope gate share.  Owner text is [crates/core/src/owner.rs];
    the [uuid] crate's printer and parser are arguments. *)

From S2P Require Import Prelude Ids Access Capability Publication Errors OwnerScope Authz ToolArgs.

(** ** The call context of a tool *)

(** What the host declared about a tool it serves itself. *)
Record McpHostToolCall := mk_McpHostToolCall {
  host_name : rstring;
  host_effect : ToolEffect;
}.

(** The fields the gate and the spaces read.  [tc_host_call] is the request
    service a host places in [services]; the judged key is a shared cell, so
    state passed by the gate. *)
Record McpToolCtx := mk_McpToolCtx {
  tc_owner : OwnerId;
  tc_authz : AuthzContext;
  tc_mcp_tools : list McpToolDescriptor;
  tc_host_call : option McpHostToolCall;
}.

(** ** Owner text *)

(** The hyphenated text of a UUID has 36 bytes. *)
Class OwnerTextLaws `{UuidTextLaws} : Prop := {
  len_hyphenated u : len (hyphenated u) = 36%N;
}.

Definition display_owner `{UuidText} (owner : OwnerId) : rstring := hyphenated (OwnerId_0 owner).

Definition owner_from_str `{UuidText} (raw : rstring) : option OwnerId :=
  if negb (len raw =? 36)%N then None else mk_OwnerId <$> try_parse raw.

(** ** Space keys *)

Inductive MemorySpaceKey := SpaceCurrent | SpaceOwner (owner : OwnerId).

Module MemorySpaceKey.

Definition CURRENT : rstring := str "current".

Definition parse `{UuidText} (raw : rstring) : option MemorySpaceKey :=
  if bool_decide (raw = CURRENT) then Some SpaceCurrent else SpaceOwner <$> owner_from_str raw.

Definition to_wire `{UuidText} (self : MemorySpaceKey) : rstring :=
  match self with SpaceCurrent => CURRENT | SpaceOwner owner => display_owner owner end.

End MemorySpaceKey.

Record ResolvedMemorySpace := mk_ResolvedMemorySpace {
  space_key : rstring;
  space_label_ : rstring;
  space_owner : OwnerId;
}.

Definition space_label `{UuidText} (owner : OwnerId) : rstring := str "Owner " ++ display_owner owner.

Definition space_for `{UuidText} (ctx : McpToolCtx) (owner : OwnerId) : ResolvedMemorySpace :=
  let current := bool_decide (owner = tc_owner ctx) in
  mk_ResolvedMemorySpace
    (MemorySpaceKey.to_wire (if current then SpaceCurrent else SpaceOwner owner))
    (if current then str "Current owner" else space_label owner)
    owner.

Definition space_key_for_owner `{UuidText} (ctx : McpToolCtx) (owner : OwnerId) : rstring :=
  space_key (space_for ctx owner).

Inductive SpaceDefault := DefaultCurrent | DefaultIdentity.

Definition resolve_space_owner `{UuidText} (ctx : McpToolCtx) (raw : option rstring) (default : SpaceDefault) :
    result ResolvedMemorySpace McpToolError :=
  let default_owner := match default with
                       | DefaultCurrent => tc_owner ctx
                       | DefaultIdentity => AuthzContext.principal (tc_authz ctx)
                       end in
  let accessible owner := if AuthzContext.can_access_owner (tc_authz ctx) owner then Some owner else None in
  let owner := match raw with
               | Some key =>
                   let* parsed := MemorySpaceKey.parse key in
                   match parsed with
                   | SpaceCurrent => accessible (tc_owner ctx)
                   | SpaceOwner owner => accessible owner
                   end
               | None => accessible default_owner
               end in
  ok_or (space_for ctx <$> owner)
    (InvalidInput (match raw with
                   | None => str "current memory space is not accessible"
                   | Some key => str "unknown memory space: " ++ key
                   end)).

Definition resolve_space_for_write `{UuidText} (ctx : McpToolCtx) (raw : option rstring) :
    result (ResolvedMemorySpace * AuthzContext) McpToolError :=
  let? space := resolve_space_owner ctx raw DefaultCurrent in
  let? authz := ok_or (AuthzContext.narrowed_to_owner (tc_authz ctx) (space_owner space))
                  (NotAuthorized (str "memory space write")) in
  Ok (space, authz).

(** ** The listing *)

Record MemorySpaceOutput := mk_MemorySpaceOutput {
  out_key : rstring;
  out_label : rstring;
  out_writable : bool;
}.

(** The order of [(owner != ctx.owner, owner != own, owner)]. *)
Definition space_leb (ctx : McpToolCtx) (a b : OwnerId) : bool :=
  let rank o := if bool_decide (o = tc_owner ctx) then 0
                else if bool_decide (o = AuthzContext.principal (tc_authz ctx)) then 1 else 2 in
  (rank a <? rank b) || ((rank a =? rank b) && (OwnerId_0 a <=? OwnerId_0 b)%N).

Definition sorted_accessible_principals (ctx : McpToolCtx) : list OwnerId :=
  sort_by (space_leb ctx) (elements (accessible_principals (ctx_identity (tc_authz ctx)))).

Definition list_memory_spaces `{UuidText} (ctx : McpToolCtx) : list MemorySpaceOutput :=
  (fun owner =>
     let space := space_for ctx owner in
     mk_MemorySpaceOutput (space_key space) (space_label_ space)
       (AuthzContext.may_write (tc_authz ctx) owner KFact)) <$> sorted_accessible_principals ctx.

(** ** Lemmas *)

Section spaces.
Context `{OwnerTextLaws}.

Lemma display_owner_not_current owner : display_owner owner <> MemorySpaceKey.CURRENT.
Proof. intros E. apply (f_equal len) in E. unfold display_owner in E. by rewrite len_hyphenated in E. Qed.

Lemma owner_text_round_trip owner :
  (OwnerId_0 owner < 2 ^ 128)%N -> owner_from_str (display_owner owner) = Some owner.
Proof.
  intros Hlt. unfold owner_from_str, display_owner. rewrite len_hyphenated. cbn.
  rewrite try_parse_hyphenated by done. by destruct owner.
Qed.

(** The key the listing gives an accessible owner resolves to that owner. *)
Lemma resolve_advertised ctx owner default :
  (OwnerId_0 owner < 2 ^ 128)%N -> AuthzContext.can_access_owner (tc_authz ctx) owner = true ->
  resolve_space_owner ctx (Some (space_key_for_owner ctx owner)) default = Ok (space_for ctx owner).
Proof.
  intros Hlt Hacc. unfold resolve_space_owner, space_key_for_owner, space_for, MemorySpaceKey.parse.
  cbn [space_key]. destruct (bool_decide (owner = tc_owner ctx)) eqn:Eo; cbn [MemorySpaceKey.to_wire].
  - apply bool_decide_eq_true in Eo as ->. rewrite bool_decide_true by done. cbn. rewrite Hacc. cbn.
    by rewrite bool_decide_true.
  - rewrite bool_decide_false by apply display_owner_not_current.
    rewrite owner_text_round_trip by done. cbn. rewrite Hacc. cbn. by rewrite Eo.
Qed.

Lemma resolve_space_sound ctx raw default space :
  resolve_space_owner ctx raw default = Ok space ->
  AuthzContext.can_access_owner (tc_authz ctx) (space_owner space) = true /\
  space = space_for ctx (space_owner space).
Proof.
  unfold resolve_space_owner. rewrite ok_or_Ok, fmap_Some. intros (owner & Ho & ->). cbn. split; [|done].
  destruct raw as [key|]; [destruct (MemorySpaceKey.parse key) as [[|o]|]|]; cbn in Ho; try discriminate;
    (destruct (AuthzContext.can_access_owner _ _) eqn:Ea; [by injection Ho as <-|discriminate]).
Qed.

Lemma space_leb_total ctx a b : space_leb ctx a b = true \/ space_leb ctx b a = true.
Proof.
  unfold space_leb. repeat case_bool_decide; cbn; try (by left); try (by right);
    destruct (N.le_ge_cases (OwnerId_0 a) (OwnerId_0 b)) as [Hle|Hle];
    rewrite (proj2 (N.leb_le _ _) Hle); auto using orb_true_r.
Qed.

Lemma space_leb_trans ctx a b c :
  space_leb ctx a b = true -> space_leb ctx b c = true -> space_leb ctx a c = true.
Proof.
  unfold space_leb. repeat case_bool_decide; cbn; rewrite ?N.leb_le; try done; lia.
Qed.

Lemma sorted_accessible_elem ctx owner :
  owner ∈ sorted_accessible_principals ctx <-> AuthzContext.can_access_owner (tc_authz ctx) owner = true.
Proof.
  unfold sorted_accessible_principals, AuthzContext.can_access_owner, can_access_principal.
  by rewrite sort_by_elem_of, elem_of_elements, bool_decide_eq_true.
Qed.

(** The current owner sorts first. *)
Lemma sorted_current_first ctx :
  AuthzContext.can_access_owner (tc_authz ctx) (tc_owner ctx) = true ->
  hd_error (sorted_accessible_principals ctx) = Some (tc_owner ctx).
Proof.
  intros Hin%sorted_accessible_elem.
  pose proof (sort_by_StronglySorted (space_leb ctx) (space_leb_total ctx) (space_leb_trans ctx)
    (elements (accessible_principals (ctx_identity (tc_authz ctx))))) as Hs.
  fold (sorted_accessible_principals ctx) in Hs.
  destruct (sorted_accessible_principals ctx) as [|x l]; [by apply elem_of_nil in Hin|]. cbn.
  apply StronglySorted_inv in Hs as [_ Hall]. apply elem_of_cons in Hin as [->|Hin]; [done|].
  rewrite list.Forall_forall in Hall. specialize (Hall _ Hin). revert Hall. unfold space_leb.
  rewrite (bool_decide_true (tc_owner ctx = tc_owner ctx)) by done. repeat case_bool_decide; subst; done.
Qed.

Lemma space_key_inj ctx a b :
  (OwnerId_0 a < 2 ^ 128)%N -> (OwnerId_0 b < 2 ^ 128)%N ->
  space_key_for_owner ctx a = space_key_for_owner ctx b -> a = b.
Proof.
  intros Ha Hb. unfold space_key_for_owner, space_for. cbn [space_key].
  repeat case_bool_decide; cbn [MemorySpaceKey.to_wire]; subst; try done; intros E.
  - by apply eq_sym, display_owner_not_current in E.
  - by apply display_owner_not_current in E.
  - apply (f_equal owner_from_str) in E. rewrite !owner_text_round_trip in E by done. congruence.
Qed.

(** The spaces a caller is shown are the spaces the caller can name.  The
    listing has exactly one entry per owner the caller can access, with distinct
    keys and the session's own owner first; every key it shows resolves, under
    either default, to that owner with that same key and the writability it
    reported; and a key resolves only to an accessible owner, reported under the
    key the listing shows for it. *)
Theorem memory_spaces_correct (ctx : McpToolCtx)
    (Huuid : forall owner, AuthzContext.can_access_owner (tc_authz ctx) owner = true ->
       (OwnerId_0 owner < 2 ^ 128)%N) :
  NoDup (out_key <$> list_memory_spaces ctx) /\
  (AuthzContext.can_access_owner (tc_authz ctx) (tc_owner ctx) = true ->
     out_key <$> hd_error (list_memory_spaces ctx) = Some MemorySpaceKey.CURRENT) /\
  (forall owner, AuthzContext.can_access_owner (tc_authz ctx) owner = true <->
     exists entry, entry ∈ list_memory_spaces ctx /\ out_key entry = space_key_for_owner ctx owner /\
       resolve_space_owner ctx (Some (out_key entry)) DefaultCurrent = Ok (space_for ctx owner)) /\
  (forall entry default, entry ∈ list_memory_spaces ctx ->
     exists space, resolve_space_owner ctx (Some (out_key entry)) default = Ok space /\
       space_key space = out_key entry /\
       out_writable entry = AuthzContext.may_write (tc_authz ctx) (space_owner space) KFact) /\
  (forall raw default space, resolve_space_owner ctx raw default = Ok space ->
     AuthzContext.can_access_owner (tc_authz ctx) (space_owner space) = true /\
     space_key space ∈ out_key <$> list_memory_spaces ctx).
Proof.
  assert (Hlisted : forall owner, AuthzContext.can_access_owner (tc_authz ctx) owner = true ->
            mk_MemorySpaceOutput (space_key (space_for ctx owner)) (space_label_ (space_for ctx owner))
              (AuthzContext.may_write (tc_authz ctx) owner KFact) ∈ list_memory_spaces ctx).
  { intros owner Ho. apply list_elem_of_fmap. exists owner. by rewrite sorted_accessible_elem. }
  split_and!.
  - unfold list_memory_spaces. rewrite <-list_fmap_compose. cbn.
    apply NoDup_fmap_2_strong.
    + intros a b Ha%sorted_accessible_elem Hb%sorted_accessible_elem. apply space_key_inj; auto.
    + apply sort_by_NoDup, NoDup_elements.
  - intros Hcur. unfold list_memory_spaces. pose proof (sorted_current_first ctx Hcur) as Hhd.
    destruct (sorted_accessible_principals ctx) as [|o l]; [discriminate|]. injection Hhd as ->. cbn.
    by rewrite bool_decide_true.
  - intros owner. split.
    + intros Ho. eexists. split; [by apply Hlisted|]. split; [done|]. apply resolve_advertised; auto.
    + intros (entry & _ & _ & Hr). by apply resolve_space_sound in Hr as [? _].
  - intros entry default Hin. apply list_elem_of_fmap in Hin as (owner & -> & Ho%sorted_accessible_elem).
    exists (space_for ctx owner). split; [|done]. apply (resolve_advertised ctx owner default); auto.
  - intros raw default space Hr. apply resolve_space_sound in Hr as [Ho ->]. split; [done|].
    apply list_elem_of_fmap. eexists. split; [|by apply Hlisted]. done.
Qed.

(** A space resolved for writing is the only owner the narrowed caller can
    touch: the resolution needs a role there, the returned authorization is
    confined to that owner, holds the caller's own role on it, and no role on
    any other owner. *)
Theorem resolve_space_for_write_confines (ctx : McpToolCtx) (raw : option rstring)
    (space : ResolvedMemorySpace) (authz : AuthzContext)
    (Hresolve : resolve_space_for_write ctx raw = Ok (space, authz)) :
  resolve_space_owner ctx raw DefaultCurrent = Ok space /\
  is_Some (AuthzContext.role_for_owner (tc_authz ctx) (space_owner space)) /\
  confinement authz = Some (space_owner space) /\
  forall other, AuthzContext.role_for_owner authz other
    = if bool_decide (other = space_owner space)
      then AuthzContext.role_for_owner (tc_authz ctx) other else None.
Proof.
  unfold resolve_space_for_write in Hresolve.
  destruct (resolve_space_owner ctx raw DefaultCurrent) as [sp|] eqn:Es; [|discriminate].
  destruct (AuthzContext.narrowed_to_owner _ _) as [a|] eqn:En; [|discriminate]. injection Hresolve as <- <-.
  apply narrowed_to_owner_Some in En as (roles & role & state & Hr & Hrole & Hst & ->).
  split; [done|]. unfold AuthzContext.role_for_owner. rewrite Hr. cbn. split; [by exists role|]. split.
  - unfold confinement. cbn. destruct (ctx_owner_scope (tc_authz ctx)) as [o|scope]; [by subst state|].
    destruct Hst as (narrowed & Hn & ->). by apply narrow_Some in Hn as (r & _ & ->).
  - intros other. rewrite scoped_to_role_for. case_bool_decide as Ho; [by subst|done].
Qed.
End spaces.

(** ** UUID text

    The hyphenated spelling: 32 hexadecimal digits in groups of 8, 4, 4, 4, 12. *)

Definition hex_digit (d : N) : char := if (d <? 10)%N then (48 + d)%N else (87 + d)%N.
Definition hex_value (c : char) : N := if (c <? 58)%N then (c - 48)%N else (c - 87)%N.

Fixpoint hex_digits (k : nat) (n : N) : list char :=
  match k with 0 => [] | S k => hex_digits k (n / 16) ++ [hex_digit (n mod 16)] end.

Definition hex_number (s : list char) : N := foldl (fun n c => 16 * n + hex_value c)%N 0%N s.

Definition hyphenate (s : list char) : list char :=
  take 8 s ++ [45%N] ++ take 4 (drop 8 s) ++ [45%N] ++ take 4 (drop 12 s) ++ [45%N]
  ++ take 4 (drop 16 s) ++ [45%N] ++ drop 20 s.

#[local] Instance hex_uuid_text : UuidText := {|
  hyphenated u := hyphenate (hex_digits 32 u);
  try_parse s := Some (hex_number (List.filter (fun c => negb (c =? 45)%N) s));
|}.

Lemma hex_digit_value d : (d < 16)%N -> hex_value (hex_digit d) = d /\ hex_digit d <> 45%N /\ (hex_digit d < 128)%N.
Proof.
  intros H. unfold hex_value, hex_digit. destruct (N.ltb_spec d 10).
  - destruct (N.ltb_spec (48 + d) 58); lia.
  - destruct (N.ltb_spec (87 + d) 58); lia.
Qed.

Lemma hex_digits_number k n : hex_number (hex_digits k n) = (n mod 16 ^ N.of_nat k)%N.
Proof.
  revert n. induction k as [|k IH]; intros n; [by rewrite N.mod_1_r|].
  cbn [hex_digits]. unfold hex_number in *. rewrite foldl_app. cbn [foldl]. rewrite IH.
  destruct (hex_digit_value (n mod 16)) as [-> _]; [by apply N.mod_lt|].
  rewrite Nat2N.inj_succ, N.pow_succ_r', N.Div0.mod_mul_r. lia.
Qed.

Lemma hex_digits_plain k n :
  Forall (fun c => c <> 45%N /\ (c < 128)%N) (hex_digits k n) /\ length (hex_digits k n) = k.
Proof.
  revert n. induction k as [|k IH]; intros n; [done|]. destruct (IH (n / 16)%N) as [Hf Hl]. cbn. split.
  - apply list.Forall_app. split; [done|]. apply list.Forall_singleton, hex_digit_value. by apply N.mod_lt.
  - rewrite length_app, Hl. cbn. lia.
Qed.

(** Removing the hyphens undoes inserting them. *)
Lemma hyphenate_strip s : Forall (fun c => c <> 45%N) s ->
  List.filter (fun c => negb (c =? 45)%N) (hyphenate s) = s.
Proof.
  intros Hs.
  assert (Hid : forall l, Forall (fun c => c <> 45%N) l -> List.filter (fun c => negb (c =? 45)%N) l = l).
  { induction 1 as [|c l Hc _ IH]; [done|]. cbn. by rewrite (proj2 (N.eqb_neq _ _) Hc), IH. }
  unfold hyphenate. rewrite !filter_app. cbn.
  rewrite !Hid by (eauto using Forall_take, Forall_drop).
  assert (Hd : forall n, take 4 (drop n s) ++ drop (n + 4) s = drop n s)
    by (intros n; rewrite <-drop_drop; apply take_drop).
  rewrite (Hd 16 : _ ++ drop 20 s = _), (Hd 12 : _ ++ drop 16 s = _), (Hd 8 : _ ++ drop 12 s = _).
  apply take_drop.
Qed.

#[local] Instance hex_uuid_text_laws : UuidTextLaws.
Proof.
  constructor. intros u Hu. cbn [try_parse hyphenated hex_uuid_text].
  rewrite hyphenate_strip by (eapply list.Forall_impl; [apply hex_digits_plain|naive_solver]).
  rewrite hex_digits_number. by rewrite N.mod_small.
Qed.

#[local] Instance hex_owner_text_laws : OwnerTextLaws.
Proof.
  constructor. intros u. cbn [hyphenated hex_uuid_text].
  destruct (hex_digits_plain 32 u) as [Hf Hl]. rewrite len_ascii.
  - unfold hyphenate. rewrite !length_app, !length_take, !length_drop, Hl. done.
  - assert (Ha : Forall (fun c => c < 128)%N (hex_digits 32 u)) by (eapply list.Forall_impl; [exact Hf|naive_solver]).
    unfold hyphenate. rewrite !list.Forall_app. split_and!; eauto using Forall_take, Forall_drop;
      by apply list.Forall_singleton.
Qed.

(** A session on the subject's own owner, with access to a group. *)
Definition sample_tool_ctx : McpToolCtx :=
  mk_McpToolCtx (OwnerId.from_user sample_subject) sample_context [] None.

Lemma memory_spaces_correct_witness :
  out_key <$> list_memory_spaces sample_tool_ctx
  = [str "current"; str "00000000-0000-0000-0000-000000000002"] /\
  resolve_space_owner sample_tool_ctx (Some (str "00000000-0000-0000-0000-000000000002")) DefaultCurrent
  = Ok (space_for sample_tool_ctx sample_group).
Proof.
  split; [vm_compute; reflexivity|].
  destruct (memory_spaces_correct sample_tool_ctx) as (_ & _ & Hacc & _ & _).
  - intros owner Ho%sorted_accessible_elem.
    replace (sorted_accessible_principals sample_tool_ctx) with [mk_OwnerId 1; mk_OwnerId 2] in Ho by reflexivity.
    apply elem_of_cons in Ho as [->|Ho]; [reflexivity|]. apply list_elem_of_singleton in Ho as ->. reflexivity.
  - destruct (proj1 (Hacc sample_group)) as (entry & _ & Hk & Hr); [reflexivity|]. rewrite Hk in Hr. exact Hr.
Defined.

Lemma resolve_space_for_write_confines_witness :
  exists space authz,
    resolve_space_for_write sample_tool_ctx (Some (str "00000000-0000-0000-0000-000000000002")) = Ok (space, authz) /\
    confinement authz = Some sample_group.
Proof.
  eexists _, _. split; [vm_compute; reflexivity|].
  edestruct (resolve_space_for_write_confines sample_tool_ctx (Some (str "00000000-0000-0000-0000-000000000002")))
    as (_ & _ & Hc & _); [vm_compute; reflexivity|exact Hc].
Defined.
