(* ===== verification/ScopeGate.v ===== *)
(** * The scope gate

    [crates/core/src/mcp/behavior.rs]: before any tool call or resource read
    runs, the gate derives the one key the call is judged by, records it, checks
    it against the caller's capabilities and the deployment's surface, resolves
    the owner the call selects, and checks the caller's role there.  The judged
    key is a shared cell, cleared on entry, so the gate returns its content
    beside its answer. *)

From S2P Require Import Prelude Ids Access ScopeKey Capability Json Publication Errors OwnerScope Authz ToolArgs Spaces.

(** ** Core resources *)

(** The fields of [ResourceContract] that name and classify a resource. *)
Record ResourceContract := mk_ResourceContract {
  rc_path : rstring;
  rc_name : rstring;
  rc_scope_key : rstring;
  rc_is_template : bool;
  rc_read_only : bool;
}.

Module ResourceContract.

Definition declaration (self : ResourceContract) : KeyDeclaration :=
  KeyDeclaration.shared (if rc_read_only self then Some ReadOnly else None).

(** [None] is the panic of a key that is no resource key. *)
Definition key (self : ResourceContract) : option ResourceKey :=
  match ScopeKey.parse (rc_scope_key self) with
  | Ok (KeyResource key) => Some key
  | _ => None
  end.

End ResourceContract.

Definition RESOURCES : list ResourceContract :=
  [mk_ResourceContract (str "schemas") (str "proxiima-schemas") (str "resource:schemas") false true;
   mk_ResourceContract (str "schema") (str "proxiima-schema") (str "resource:schema") true true;
   mk_ResourceContract (str "tools") (str "proxiima-tools") (str "resource:tools") false true;
   mk_ResourceContract (str "graph") (str "proxiima-graph") (str "resource:graph") false true;
   mk_ResourceContract (str "memory") (str "proxiima-memory") (str "resource:memory") true true;
   mk_ResourceContract (str "memories") (str "proxiima-memories") (str "resource:memories") true true;
   mk_ResourceContract (str "memory") (str "proxiima-memory-lineage") (str "resource:memory-lineage") true true;
   mk_ResourceContract (str "goals") (str "proxiima-goals") (str "resource:goals") true true;
   mk_ResourceContract (str "goal") (str "proxiima-goal") (str "resource:goal") true true;
   mk_ResourceContract (str "memories") (str "proxiima-memory-counts") (str "resource:memory-counts") false true].

Definition resource_by_scope_key (key : ResourceKey) : option ResourceContract :=
  find (fun resource => bool_decide (ResourceContract.key resource = Some key)) RESOURCES.

(** [None] is the panic of [expect] or [unreachable!]. *)
Definition how_to_resource_key : option ResourceKey :=
  match ScopeKey.parse (str "resource:how-to") with
  | Ok (KeyResource key) => Some key
  | _ => None
  end.

Definition how_to_resource_declaration : KeyDeclaration := KeyDeclaration.shared (Some ReadOnly).

(** ** The gate *)

Module ScopeGateBehavior.

Section gate.
Context `{DebugStr} `{UuidText}.

Definition flat_declaration (tool : rstring) (key : option ScopeKey)
    (descriptor : option McpToolDescriptor) (ctx : McpToolCtx) : KeyDeclaration :=
  match key, descriptor with
  | Some (KeyResource resource), _ =>
      if bool_decide (Some resource = how_to_resource_key) then how_to_resource_declaration
      else match resource_by_scope_key resource with
           | Some resource => ResourceContract.declaration resource
           | None => KeyDeclaration.UNDECLARED
           end
  | _, Some descriptor => McpToolDescriptor.declaration descriptor None
  | _, None =>
      match tc_host_call ctx with
      | Some host =>
          if bool_decide (host_name host = tool) then KeyDeclaration.shared (Some (host_effect host))
          else KeyDeclaration.UNDECLARED
      | None => KeyDeclaration.UNDECLARED
      end
  end.

Definition action_text (tool : rstring) (action : rstring) : rstring := tool ++ str ":" ++ action.

(** Record [tool:action] and judge the call by it. *)
Definition judge_action (capabilities : CapabilitySet) (tool : rstring) (tool_name : ToolName)
    (action : ActionName) (declared : KeyDeclaration) : option ScopeKey * result KeyDeclaration McpToolError :=
  match ScopeKey.action tool_name action with
  | Err _ =>
      (None, Err (NotAuthorized (action_text (ToolName.as_str tool_name) (ActionName.as_str action))))
  | Ok key =>
      (Some key,
       if CapabilitySet.admits_action capabilities tool_name action declared then Ok declared
       else Err (NotAuthorized (action_text tool (ActionName.as_str action))))
  end.

(** The three branches: what is recorded, and the declaration judged or the
    refusal. *)
Definition judge (tool : rstring) (args : Json) (ctx : McpToolCtx) (key : result ScopeKey ScopeKeyError)
    (descriptor : option McpToolDescriptor) : option ScopeKey * result KeyDeclaration McpToolError :=
  let capabilities := ctx_capabilities (tc_authz ctx) in
  let flat :=
    let declared := flat_declaration tool (ok key) descriptor ctx in
    let allowed := match key with
                   | Ok key => CapabilitySet.admits capabilities key declared
                   | Err _ => match tool_scope capabilities, served_surface capabilities with
                              | ScopeAll, SurfaceAll => true
                              | _, _ => false
                              end
                   end in
    (ok key, if allowed then Ok declared else Err (NotAuthorized tool)) in
  match descriptor with
  | Some descriptor =>
      if negb (is_empty (action_arg_specs descriptor)) then
        match key with
        | Ok (KeyTool tool_name) =>
            let requested := (let* v := Json.get (str "action") args in Json.as_str v) in
            let declared := McpToolDescriptor.declaration descriptor requested in
            match requested with
            | None => (None, Err (InvalidInput (str "tool " ++ tool ++ str " requires string action")))
            | Some action =>
                let known :=
                  let* name := ok (ActionName.parse action) in
                  if existsb (fun spec => bool_decide (arg_action spec = ActionName.as_str name))
                       (action_arg_specs descriptor)
                  then Some name else None in
                match known with
                | None =>
                    (None, Err (InvalidInput (str "unknown action " ++ debug_str action
                                              ++ str " for tool " ++ tool)))
                | Some action => judge_action capabilities tool tool_name action declared
                end
            end
        | _ => (None, Err (NotAuthorized tool))
        end
      else if negb (is_empty (argv_action_specs descriptor)) then
        match key with
        | Ok (KeyTool tool_name) =>
            let resolved := resolve_argv_action tool (argv_action_specs descriptor) args in
            let declared := McpToolDescriptor.declaration descriptor (ok resolved) in
            match resolved with
            | Err e => (None, Err e)
            | Ok action =>
                match ActionName.parse action with
                | Err _ => (None, Err (NotAuthorized (action_text tool action)))
                | Ok action_name => judge_action capabilities tool tool_name action_name declared
                end
            end
        | _ => (None, Err (NotAuthorized tool))
        end
      else flat
  | None => flat
  end.

Definition space_properties (tool : rstring) (args : Json) (ctx : McpToolCtx) : option (list rstring) :=
  let* descriptor := mcp_tool (tc_mcp_tools ctx) tool in
  let* properties :=
    if is_empty (action_arg_specs descriptor) then desc_properties descriptor
    else
      let* action := (let* v := Json.get (str "action") args in Json.as_str v) in
      let* schema := find (fun '(name, _) => bool_decide (name = action)) (desc_action_properties descriptor) in
      schema.2 in
  if slice_contains (str "space") properties then Some properties else None.

Definition resolve_scope_owner (tool : rstring) (args : Json) (ctx : McpToolCtx) :
    result ResolvedMemorySpace McpToolError :=
  match space_properties tool args ctx with
  | None => Ok (mk_ResolvedMemorySpace (str "current") (str "Current owner") (tc_owner ctx))
  | Some properties =>
      let? normalized := coerce_space_aliases tool args properties in
      let? raw := match Json.get (str "space") normalized with
                  | None | Some JNull => Ok None
                  | Some value =>
                      let? s := ok_or (Json.as_str value) (InvalidInput (str "space must be a string or null")) in
                      Ok (Some s)
                  end in
      resolve_space_owner ctx raw DefaultCurrent
  end.

Definition enforce_owner_role (tool : rstring) (declared : KeyDeclaration) (owner : OwnerId)
    (ctx : McpToolCtx) : result unit McpToolError :=
  if AuthzContext.may_run_tool (tc_authz ctx) owner (KeyDeclaration.is_read declared) then Ok tt
  else Err (NotAuthorized tool).

Definition enforce_scope (tool : rstring) (args : Json) (ctx : McpToolCtx) :
    option ScopeKey * result unit McpToolError :=
  let capabilities := ctx_capabilities (tc_authz ctx) in
  let key := ScopeKey.parse tool in
  let descriptor := mcp_tool (tc_mcp_tools ctx) tool in
  if is_some_and descriptor (fun descriptor => negb (McpToolDescriptor.advertised_by descriptor capabilities))
  then (ok key, Err (NotAuthorized tool))
  else
    let (judged, answer) := judge tool args ctx key descriptor in
    (judged,
     let? declared := answer in
     let? owner := resolve_scope_owner tool args ctx in
     enforce_owner_role tool declared (space_owner owner) ctx).

(** [RequestBehavior::handle]: the rest of the pipeline runs only behind it. *)
Definition handle {Reply : Type} (tool : rstring) (args : Json) (ctx : McpToolCtx)
    (next : option ScopeKey -> result Reply McpToolError) : option ScopeKey * result Reply McpToolError :=
  let (judged, answer) := enforce_scope tool args ctx in
  (judged, let? _ := answer in next judged).

End gate.

End ScopeGateBehavior.

(** ** What a call is judged by *)

Section judged.
Context `{DebugStr} `{UuidText}.

(** The tool is not registered, or is registered as a flat tool. *)
Definition flat_call (tool : rstring) (ctx : McpToolCtx) : Prop :=
  forall d, mcp_tool (tc_mcp_tools ctx) tool = Some d -> McpToolDescriptor.is_flat d = true.

(** The one key of a call and what that key declares. *)
Inductive call_key (tool : rstring) (args : Json) (ctx : McpToolCtx) : ScopeKey -> KeyDeclaration -> Prop :=
| call_action d t action name key :
    mcp_tool (tc_mcp_tools ctx) tool = Some d -> action_arg_specs d <> [] ->
    ScopeKey.parse tool = Ok (KeyTool t) ->
    Json.get (str "action") args = Some (JString action) -> action ∈ arg_action <$> action_arg_specs d ->
    ActionName.parse action = Ok name -> ScopeKey.action t name = Ok key ->
    call_key tool args ctx key (McpToolDescriptor.declaration d (Some action))
| call_argv d t action name key :
    mcp_tool (tc_mcp_tools ctx) tool = Some d -> action_arg_specs d = [] -> argv_action_specs d <> [] ->
    ScopeKey.parse tool = Ok (KeyTool t) ->
    resolve_argv_action tool (argv_action_specs d) args = Ok action ->
    ActionName.parse action = Ok name -> ScopeKey.action t name = Ok key ->
    call_key tool args ctx key (McpToolDescriptor.declaration d (Some action))
| call_flat key :
    flat_call tool ctx -> ScopeKey.parse tool = Ok key ->
    call_key tool args ctx key
      (ScopeGateBehavior.flat_declaration tool (Some key) (mcp_tool (tc_mcp_tools ctx) tool) ctx).

(** A name that is no key, on a tool without actions. *)
Definition keyless_call (tool : rstring) (ctx : McpToolCtx) (declared : KeyDeclaration) : Prop :=
  flat_call tool ctx /\ is_ok (ScopeKey.parse tool) = false /\
  declared = ScopeGateBehavior.flat_declaration tool None (mcp_tool (tc_mcp_tools ctx) tool) ctx.

Lemma judge_action_spec caps tool t name key declared :
  ScopeKey.action t name = Ok key ->
  ScopeGateBehavior.judge_action caps tool t name declared
  = (Some key, if CapabilitySet.admits caps key declared then Ok declared
               else Err (NotAuthorized (ScopeGateBehavior.action_text tool (ActionName.as_str name)))).
Proof. intros Hk. unfold ScopeGateBehavior.judge_action. rewrite Hk. by rewrite (admits_action_leaf _ _ _ key). Qed.

(** The branch a flat call takes. *)
Lemma judge_flat tool args ctx : flat_call tool ctx ->
  let caps := ctx_capabilities (tc_authz ctx) in
  let declared := ScopeGateBehavior.flat_declaration tool (ok (ScopeKey.parse tool))
                    (mcp_tool (tc_mcp_tools ctx) tool) ctx in
  ScopeGateBehavior.judge tool args ctx (ScopeKey.parse tool) (mcp_tool (tc_mcp_tools ctx) tool)
  = (ok (ScopeKey.parse tool),
     if match ScopeKey.parse tool with
        | Ok key => CapabilitySet.admits caps key declared
        | Err _ => match tool_scope caps, served_surface caps with ScopeAll, SurfaceAll => true | _, _ => false end
        end
     then Ok declared else Err (NotAuthorized tool)).
Proof.
  intros Hflat. unfold ScopeGateBehavior.judge. destruct (mcp_tool _ tool) as [d|] eqn:Ed; [|done].
  apply Hflat in Ed. unfold McpToolDescriptor.is_flat in Ed. bools. by rewrite H1, H2.
Qed.

Lemma arg_action_known (specs : list McpActionArgSpec) action :
  existsb (fun spec => bool_decide (arg_action spec = action)) specs = true <-> action ∈ arg_action <$> specs.
Proof.
  rewrite existsb_exists, list_elem_of_fmap. split.
  - intros (spec & Hin & <-%bool_decide_eq_true). exists spec. by rewrite list_elem_of_In.
  - intros (spec & -> & Hin%list_elem_of_In). exists spec. by rewrite bool_decide_true.
Qed.

(** Whatever the call, the key it is judged by is recorded, and it is admitted
    exactly by its own declaration. *)
Lemma judge_call_key tool args ctx key declared :
  call_key tool args ctx key declared ->
  exists refusal,
    ScopeGateBehavior.judge tool args ctx (ScopeKey.parse tool) (mcp_tool (tc_mcp_tools ctx) tool)
    = (Some key, if CapabilitySet.admits (ctx_capabilities (tc_authz ctx)) key declared
                 then Ok declared else Err (NotAuthorized refusal)).
Proof.
  intros [d t action name k Hd Hs Hp Hg Hin Hn Hk|d t action name k Hd Hs Hv Hp Hr Hn Hk|k Hflat Hp].
  - unfold ScopeGateBehavior.judge. rewrite Hd, Hp. destruct (action_arg_specs d) as [|s0 l] eqn:Es; [done|].
    rewrite <-Es in Hin |- *. replace (is_empty (action_arg_specs d)) with false by by rewrite Es. cbn [negb].
    rewrite Hg. cbn [Json.as_str]. rewrite Hn. cbn [ok].
    apply action_name_parse_Ok in Hn as ->. cbn [ActionName.as_str ActionName_0].
    rewrite (proj2 (arg_action_known _ _) Hin). rewrite (judge_action_spec _ _ _ _ k) by done. by eexists.
  - unfold ScopeGateBehavior.judge. rewrite Hd, Hp, Hs. cbn [is_empty negb].
    replace (is_empty (argv_action_specs d)) with false by by destruct (argv_action_specs d). cbn [negb].
    rewrite Hr. cbn [ok]. rewrite Hn. rewrite (judge_action_spec _ _ _ _ k) by done. by eexists.
  - rewrite judge_flat by done. rewrite Hp. cbn [ok]. by eexists.
Qed.

Lemma flat_call_or tool ctx :
  (exists d, mcp_tool (tc_mcp_tools ctx) tool = Some d /\ McpToolDescriptor.is_flat d = false) \/
  flat_call tool ctx.
Proof.
  unfold flat_call. destruct (mcp_tool (tc_mcp_tools ctx) tool) as [d|]; [|by right].
  destruct (McpToolDescriptor.is_flat d) eqn:Ef; [right; by intros ? [= <-]|left; by exists d].
Qed.

(** A call that passes has a key, or is the unrestricted caller's keyless call. *)
Lemma judge_Ok tool args ctx judged declared :
  ScopeGateBehavior.judge tool args ctx (ScopeKey.parse tool) (mcp_tool (tc_mcp_tools ctx) tool)
  = (judged, Ok declared) ->
  (exists key, call_key tool args ctx key declared) \/
  (judged = None /\ keyless_call tool ctx declared /\ ctx_capabilities (tc_authz ctx) = CapabilitySet.all).
Proof.
  destruct (flat_call_or tool ctx) as [(d & Hd & Hf)|Hflat].
  - intros Hj. left. unfold ScopeGateBehavior.judge in Hj. rewrite Hd in Hj.
    destruct (is_empty (action_arg_specs d)) eqn:Ea; cbn [negb] in Hj.
    + destruct (is_empty (argv_action_specs d)) eqn:Ev; cbn [negb] in Hj.
      { unfold McpToolDescriptor.is_flat in Hf. rewrite Ea, Ev in Hf. discriminate. }
      destruct (ScopeKey.parse tool) as [[t| |]|] eqn:Ep; try discriminate.
      destruct (resolve_argv_action tool _ args) as [action|] eqn:Er; [|discriminate]. cbn [ok] in Hj.
      destruct (ActionName.parse action) as [name|] eqn:En; [|discriminate].
      unfold ScopeGateBehavior.judge_action in Hj. destruct (ScopeKey.action t name) as [k|] eqn:Ek; [|discriminate].
      destruct (CapabilitySet.admits_action _ _ _ _); [|discriminate]. injection Hj as _ <-.
      exists k. eapply call_argv; eauto; [by destruct (action_arg_specs d)|by destruct (argv_action_specs d)].
    + destruct (ScopeKey.parse tool) as [[t| |]|] eqn:Ep; try discriminate.
      destruct (Json.get (str "action") args) as [[| | |action| |]|] eqn:Eg; try discriminate.
      cbn [Json.as_str] in Hj. destruct (ActionName.parse action) as [name|] eqn:En; [|discriminate].
      cbn [ok] in Hj. destruct (existsb _ _) eqn:Ee; [|discriminate].
      unfold ScopeGateBehavior.judge_action in Hj. destruct (ScopeKey.action t name) as [k|] eqn:Ek; [|discriminate].
      destruct (CapabilitySet.admits_action _ _ _ _); [|discriminate]. injection Hj as _ <-.
      apply arg_action_known in Ee. apply action_name_parse_Ok in En as Hname. subst name.
      exists k. eapply call_action; eauto. by destruct (action_arg_specs d).
  - rewrite judge_flat by done. destruct (ScopeKey.parse tool) as [key|] eqn:Ep; cbn [ok].
    + destruct (CapabilitySet.admits _ _ _); [|discriminate]. intros [= <- <-]. left. exists key. by apply call_flat.
    + destruct (ctx_capabilities (tc_authz ctx)) as [[] []] eqn:Ec; try discriminate. cbn. intros [= <- <-].
      right. split; [done|]. split; [|done]. split; [done|]. by rewrite Ep.
Qed.

(** ** Properties *)

(** C3. The scope gate admits exactly the calls that hold their one key and the
    role it needs.  A call passes iff its tool is advertised to the caller, the
    key the call is judged by (the dispatched action's, the flat tool's, or the
    resource's; a name that is no key needs an unrestricted caller) is admitted
    under its own declaration, the owner its arguments select resolves, and the
    caller may read that owner's Facts for a declared read or write them for
    anything else.  The key of an advertised call is recorded whether the call
    is admitted or refused, and the rest of the pipeline runs only on admitted
    calls. *)
Theorem scope_gate_correct (tool : rstring) (args : Json) (ctx : McpToolCtx) :
  let caps := ctx_capabilities (tc_authz ctx) in
  let advertised := forall d, mcp_tool (tc_mcp_tools ctx) tool = Some d ->
                      McpToolDescriptor.advertised_by d caps = true in
  ((ScopeGateBehavior.enforce_scope tool args ctx).2 = Ok tt <->
   advertised /\
   exists declared space,
     ((exists key, call_key tool args ctx key declared /\ CapabilitySet.admits caps key declared = true) \/
      (keyless_call tool ctx declared /\ caps = CapabilitySet.all)) /\
     ScopeGateBehavior.resolve_scope_owner tool args ctx = Ok space /\
     AuthzContext.may_run_tool (tc_authz ctx) (space_owner space) (KeyDeclaration.is_read declared) = true) /\
  (forall key declared, advertised -> call_key tool args ctx key declared ->
     (ScopeGateBehavior.enforce_scope tool args ctx).1 = Some key) /\
  (forall (Reply : Type) (next : option ScopeKey -> result Reply McpToolError) reply,
     (ScopeGateBehavior.handle tool args ctx next).2 = Ok reply ->
     (ScopeGateBehavior.enforce_scope tool args ctx).2 = Ok tt /\
     next (ScopeGateBehavior.enforce_scope tool args ctx).1 = Ok reply).
Proof.
  intros caps advertised.
  assert (Hadv : is_some_and (mcp_tool (tc_mcp_tools ctx) tool)
                   (fun d => negb (McpToolDescriptor.advertised_by d caps)) = false <-> advertised).
  { unfold advertised. destruct (mcp_tool _ tool) as [d|]; cbn; [|naive_solver].
    rewrite negb_false_iff. naive_solver. }
  split; [split|split].
  - unfold ScopeGateBehavior.enforce_scope. fold caps. destruct (is_some_and _ _) eqn:Ea; [discriminate|].
    pose proof (proj1 Hadv eq_refl) as Ha. destruct (ScopeGateBehavior.judge _ _ _ _ _) as [judged answer] eqn:Ej. cbn.
    destruct answer as [declared|]; [|discriminate].
    destruct (ScopeGateBehavior.resolve_scope_owner tool args ctx) as [space|] eqn:Er; [|discriminate].
    unfold ScopeGateBehavior.enforce_owner_role. destruct (AuthzContext.may_run_tool _ _ _) eqn:Em; [|discriminate].
    intros _. split; [done|]. exists declared, space. split; [|done].
    destruct (judge_Ok _ _ _ _ _ Ej) as [[key Hk]|(_ & Hk & Hall)]; [left|by right].
    exists key. split; [done|]. destruct (judge_call_key _ _ _ _ _ Hk) as [refusal Hj]. rewrite Hj in Ej.
    fold caps in Ej. by destruct (CapabilitySet.admits caps key declared).
  - intros (Ha & declared & space & Hk & Hr & Hm). unfold ScopeGateBehavior.enforce_scope. fold caps.
    rewrite (proj2 Hadv Ha).
    assert (Hj : exists judged, ScopeGateBehavior.judge tool args ctx (ScopeKey.parse tool)
              (mcp_tool (tc_mcp_tools ctx) tool) = (judged, Ok declared)).
    { destruct Hk as [(key & Hk & Hadm)|[(Hf & Hp & ->) Hall]].
      - destruct (judge_call_key _ _ _ _ _ Hk) as [refusal ->]. fold caps. rewrite Hadm. by eexists.
      - rewrite judge_flat by done. fold caps. rewrite Hall. destruct (ScopeKey.parse tool); [discriminate|]. by eexists. }
    destruct Hj as [judged ->]. cbn. rewrite Hr. unfold ScopeGateBehavior.enforce_owner_role. by rewrite Hm.
  - intros key declared Ha Hk. unfold ScopeGateBehavior.enforce_scope. fold caps. rewrite (proj2 Hadv Ha).
    destruct (judge_call_key _ _ _ _ _ Hk) as [refusal ->]. done.
  - intros Reply next reply. unfold ScopeGateBehavior.handle.
    destruct (ScopeGateBehavior.enforce_scope tool args ctx) as [judged [[]|]]; [done|discriminate].
Qed.

(** The owner a tool's own resolution picks from its final arguments. *)
Definition tool_space (ctx : McpToolCtx) (args : Json) : result ResolvedMemorySpace McpToolError :=
  match Json.get (str "space") args with
  | None | Some JNull => resolve_space_owner ctx None DefaultCurrent
  | Some (JString s) => resolve_space_owner ctx (Some s) DefaultCurrent
  | Some _ => Err (InvalidInput (str "space must be a string or null"))
  end.

(** The owner the gate judges is the owner the tool acts on.  For a flat tool
    that declares [space], whatever spelling the caller used and whichever
    unknown-field policy applies, once the arguments are accepted the gate has
    resolved the very space that the arguments handed to the tool name: the
    same key, the same default, the same error. *)
Theorem gate_owner_is_the_tools_owner (tool : rstring) (args final : Json) (ctx : McpToolCtx)
    (d : McpToolDescriptor) (properties dropped : list rstring) (policy : McpUnknownFieldPolicy)
    (Htool : mcp_tool (tc_mcp_tools ctx) tool = Some d) (Hflat : action_arg_specs d = [])
    (Hprops : desc_properties d = Some properties) (Hspace : str "space" ∈ properties)
    (Hprepared : prepare_flat_tool_args tool properties args policy = Ok (dropped, final)) :
  ScopeGateBehavior.resolve_scope_owner tool args ctx = tool_space ctx final.
Proof.
  unfold ScopeGateBehavior.resolve_scope_owner, ScopeGateBehavior.space_properties, tool_space.
  rewrite Htool, Hflat, Hprops. cbn [is_empty]. rewrite (proj2 (slice_contains_true _ _) Hspace).
  unfold prepare_flat_tool_args in Hprepared.
  destruct (coerce_space_aliases tool args properties) as [v|]; [|discriminate].
  destruct v as [| | | | |object]; try discriminate. cbn [Json.as_object ok_or] in Hprepared.
  assert (Hget : Json.get (str "space") final = Json.get (str "space") (JObject object)).
  { destruct (is_empty _); [by injection Hprepared as _ <-|]. destruct policy; [discriminate|].
    injection Hprepared as _ <-. cbn [Json.get Json.as_object]. rewrite foldl_remove_lookup, bool_decide_false; [done|].
    unfold sort_strs. rewrite sort_by_elem_of, filter_elem_of. intros [_ Hn]. bools.
    apply (proj2 (slice_contains_true _ _)) in Hspace. unfold declares in Hn. congruence. }
  rewrite Hget. by destruct (Json.get (str "space") (JObject object)) as [[]|].
Qed.

(** The core resources are shared reads, each under its own key.  Every entry
    of the table has a resource key, no two share one, and the gate judges each
    by a declaration that is a read for every audience; so is the how-to guide,
    whose key is none of the table's; and a resource key that neither the table
    nor the guide declares is judged as a write. *)
Theorem core_resources_are_open_reads (ctx : McpToolCtx) (tool : rstring) (descriptor : option McpToolDescriptor) :
  NoDup (ResourceContract.key <$> RESOURCES) /\ length RESOURCES = 10 /\
  (forall key, Some key ∈ how_to_resource_key :: (ResourceContract.key <$> RESOURCES) <->
     KeyDeclaration.is_open_read
       (ScopeGateBehavior.flat_declaration tool (Some (KeyResource key)) descriptor ctx) = true) /\
  (forall resource, resource ∈ RESOURCES -> is_Some (ResourceContract.key resource)) /\
  (exists key, how_to_resource_key = Some key /\ Some key ∉ ResourceContract.key <$> RESOURCES).
Proof.
  assert (Hkeys : forall resource, resource ∈ RESOURCES -> is_Some (ResourceContract.key resource) /\
            KeyDeclaration.is_open_read (ResourceContract.declaration resource) = true).
  { intros resource Hin. repeat (apply elem_of_cons in Hin as [->|Hin]; [split; [vm_compute; by eexists|done]|]).
    by apply elem_of_nil in Hin. }
  split_and!.
  - apply (bool_decide_unpack _). vm_compute. done.
  - done.
  - intros key. unfold ScopeGateBehavior.flat_declaration. rewrite elem_of_cons.
    case_bool_decide as Hh; [split; [done|by left]|]. unfold resource_by_scope_key.
    destruct (find _ RESOURCES) as [resource|] eqn:Ef.
    + apply find_some in Ef as [Hin%list_elem_of_In Hk%bool_decide_eq_true].
      rewrite (proj2 (Hkeys resource Hin)). split; [done|]. intros _. right. apply list_elem_of_fmap. by exists resource.
    + split; [|discriminate]. intros [|Hin]; [done|]. apply list_elem_of_fmap in Hin as (resource & Hk & Hin).
      apply list_elem_of_In in Hin. apply (find_none _ _ Ef) in Hin. by rewrite <-Hk, bool_decide_true in Hin.
  - intros resource Hin. by apply Hkeys.
  - eexists. split; [vm_compute; reflexivity|]. apply (bool_decide_unpack _). vm_compute. done.
Qed.
End judged.

(** A session of an editor of a group, on a server with one dispatcher and one
    flat tool that takes a space. *)
Definition sample_gate_ctx : McpToolCtx :=
  mk_McpToolCtx (OwnerId.from_user sample_subject) sample_context
    [sample_dispatcher;
     mk_McpToolDescriptor (str "recall") (str "Recall") (Some [str "query"; str "space"]) [] [] []
       (Some ReadOnly) Shared] None.

Lemma scope_gate_correct_witness :
  exists declared space,
    (ScopeGateBehavior.enforce_scope (H := id) (H0 := hex_uuid_text) (str "recall")
       (JObject [(str "spaces", JString (str "00000000-0000-0000-0000-000000000002"))]) sample_gate_ctx).2 = Ok tt /\
    space_owner space = sample_group /\
    AuthzContext.may_run_tool sample_context (space_owner space) (KeyDeclaration.is_read declared) = true.
Proof.
  assert (E : (ScopeGateBehavior.enforce_scope (H := id) (H0 := hex_uuid_text) (str "recall")
       (JObject [(str "spaces", JString (str "00000000-0000-0000-0000-000000000002"))]) sample_gate_ctx).2 = Ok tt)
    by (vm_compute; reflexivity).
  destruct (scope_gate_correct (H := id) (H0 := hex_uuid_text) (str "recall")
       (JObject [(str "spaces", JString (str "00000000-0000-0000-0000-000000000002"))]) sample_gate_ctx) as [Hiff _].
  destruct (proj1 Hiff E) as (_ & declared & space & _ & Hr & Hm). exists declared, space.
  split; [exact E|]. split; [|exact Hm].
  assert (Hs : exists sp, ScopeGateBehavior.resolve_scope_owner (H0 := hex_uuid_text) (str "recall")
    (JObject [(str "spaces", JString (str "00000000-0000-0000-0000-000000000002"))]) sample_gate_ctx = Ok sp /\
    space_owner sp = sample_group) by (eexists; split; [vm_compute; reflexivity|reflexivity]).
  destruct Hs as (sp & Hs & Ho). rewrite Hs in Hr. injection Hr as <-. exact Ho.
Defined.

Lemma gate_owner_is_the_tools_owner_witness :
  exists final,
    prepare_flat_tool_args (str "recall") [str "query"; str "space"]
      (JObject [(str "spaces", JArray [JString (str "current")]); (str "page", JNull)]) IgnoreAndReport
    = Ok ([str "page"], final) /\
    ScopeGateBehavior.resolve_scope_owner (H0 := hex_uuid_text) (str "recall")
      (JObject [(str "spaces", JArray [JString (str "current")]); (str "page", JNull)]) sample_gate_ctx
    = tool_space (H0 := hex_uuid_text) sample_gate_ctx final.
Proof.
  eexists. split; [vm_compute; reflexivity|].
  eapply (gate_owner_is_the_tools_owner (H0 := hex_uuid_text) (str "recall") _ _ sample_gate_ctx _ _ _ IgnoreAndReport).
  - vm_compute. reflexivity.
  - reflexivity.
  - reflexivity.
  - apply slice_contains_true. reflexivity.
  - vm_compute. reflexivity.
Defined.
