(* ===== verification/Outbox.v ===== *)
(** * The publication outbox

    [crates/storage-pg/src/verbs/publication_outbox.rs] and its ports
    [crates/core/src/storage_ports/publication.rs] over the tables
    [publication_outbox], [publication_delivery], [publication_consumer],
    [publication_origin], [publication_backlog] and [publication_counter]: a
    captured event gets one delivery lane per registered consumer; a publisher
    claims lanes under a lease and marks them, fenced on the claim token.

    A transaction is one step on the tables.  The statements that decide on a
    row first lock it (lanes by [FOR UPDATE OF lane], records by
    [settle_records], the lane table by [retire]); lanes another transaction
    holds locked when a claim runs are that claim's argument.  Captures run in
    the session of the owner whose Fact they follow, everything else in the
    platform session, so row policies refuse none of these statements. *)

From S2P Require Import Prelude Ids Decimal Json Publication Errors.

(** ** Names *)

Record ConsumerName := mk_ConsumerName { ConsumerName_0 : rstring }.

#[export] Instance ConsumerName_eq_dec : EqDecision ConsumerName.
Proof. solve_decision. Defined.

Inductive ConsumerNameError :=
| ConsumerNameEmpty
| ConsumerNameIllegalCharacter (value : rstring)
| ConsumerNameTooLong (bytes : N).

Module ConsumerName.

Definition DEFAULT : rstring := str "default".
Definition MAX_LEN : N := 63.

Definition lower_alnum (byte : N) : bool := is_ascii_lowercase byte || is_ascii_digit byte.

Definition new (raw : rstring) : result ConsumerName ConsumerNameError :=
  match bytes raw with
  | [] => Err ConsumerNameEmpty
  | first :: _ =>
      if (MAX_LEN <? len raw)%N then Err (ConsumerNameTooLong (len raw))
      else if negb (lower_alnum first)
              || negb (forallb (fun byte => lower_alnum byte || (byte =? chr "_")%N || (byte =? chr "-")%N)
                         (bytes raw))
      then Err (ConsumerNameIllegalCharacter raw)
      else Ok (mk_ConsumerName raw)
  end.

Definition as_str (self : ConsumerName) : rstring := ConsumerName_0 self.

Definition default : ConsumerName := mk_ConsumerName DEFAULT.

End ConsumerName.

Record PublisherId := mk_PublisherId { PublisherId_0 : rstring }.

Inductive PublisherIdError :=
| PublisherIdEmpty
| PublisherIdIllegalCharacter (value : rstring)
| PublisherIdTooLong (bytes : N).

Module PublisherId.

Definition new (raw : rstring) : result PublisherId PublisherIdError :=
  if is_empty (trim raw) then Err PublisherIdEmpty
  else if existsb is_control raw then Err (PublisherIdIllegalCharacter raw)
  else if (128 <? len raw)%N then Err (PublisherIdTooLong (len raw))
  else Ok (mk_PublisherId raw).

Definition as_str (self : PublisherId) : rstring := PublisherId_0 self.

End PublisherId.

Record ClaimToken := mk_ClaimToken { ClaimToken_0 : Uuid }.

#[export] Instance ClaimToken_eq_dec : EqDecision ClaimToken.
Proof. solve_decision. Defined.

(** ** Tables *)

(** [timestamptz], in microseconds. *)
Abbreviation Timestamp := Z.

(** [make_interval(secs => d.as_secs_f64())]: a Rust duration through a double
    into microseconds. *)
Class PgInterval := make_interval : Duration -> Z.

(** A duration of at least a second is a positive interval. *)
Class PgIntervalLaws `{PgInterval} : Prop :=
  make_interval_pos : forall d, (1000000000 <= d)%Z -> (0 < make_interval d)%Z.

Inductive PublicationDeliveryState := LanePending | LaneClaimed | LanePublished.
Inductive PublicationRecordState := RecordPending | RecordPublished.

#[export] Instance PublicationDeliveryState_eq_dec : EqDecision PublicationDeliveryState.
Proof. solve_decision. Defined.
#[export] Instance PublicationRecordState_eq_dec : EqDecision PublicationRecordState.
Proof. solve_decision. Defined.

(** The captured columns of [publication_outbox]; a trigger refuses to update
    any of them. *)
Record CapturedEvent := mk_CapturedEvent {
  ev_owner_id : Uuid;
  ev_schema_id : rstring;
  ev_schema_version : Z;
  ev_event_type : rstring;
  ev_event_id : rstring;
  ev_envelope : list N;
  ev_envelope_digest : list N;
  ev_captured_at : Timestamp;
}.

Record OutboxRow := mk_OutboxRow {
  row_event : CapturedEvent;
  row_state : PublicationRecordState;
  row_published_at : option Timestamp;
}.

(** A row of [publication_delivery]: one consumer's lane on one record. *)
Record LaneRow := mk_LaneRow {
  lane_state : PublicationDeliveryState;
  lane_claim_token : option Uuid;
  lane_claimed_by : option rstring;
  lane_lease_expires_at : option Timestamp;
  lane_attempts : Z;
  lane_published_at : option Timestamp;
}.

Record OriginRow := mk_OriginRow {
  original_owner_id : Uuid;
  origin_source_id : option rstring;
}.

Record CounterRow := mk_CounterRow {
  counter_owner_id : Uuid;
  counter_sequence : Z;
}.

(** A [memory] row of kind Fact. *)
Record FactRow := mk_FactRow {
  fact_owner_id : Uuid;
  fact_source_id : option rstring;
}.

(** [measured_at] is [None] for [-infinity]. *)
Record BacklogRow := mk_BacklogRow {
  backlog_pending : Z;
  backlog_measured_at : option Timestamp;
}.

Record OutboxDb := mk_OutboxDb {
  ob_consumers : gset rstring;
  ob_records : gmap Uuid OutboxRow;
  ob_lanes : gmap (Uuid * rstring) LaneRow;
  ob_origins : gmap Uuid OriginRow;
  ob_counters : gmap Uuid CounterRow;
  ob_backlog : BacklogRow;
  ob_owners : gset Uuid;
  ob_heads : gmap Uuid Uuid;
  ob_facts : gmap Uuid FactRow;
  ob_erased : gset Uuid;
}.

Definition with_records (f : gmap Uuid OutboxRow -> gmap Uuid OutboxRow) (db : OutboxDb) : OutboxDb :=
  mk_OutboxDb (ob_consumers db) (f (ob_records db)) (ob_lanes db) (ob_origins db) (ob_counters db)
    (ob_backlog db) (ob_owners db) (ob_heads db) (ob_facts db) (ob_erased db).

Definition with_lanes (f : gmap (Uuid * rstring) LaneRow -> gmap (Uuid * rstring) LaneRow)
    (db : OutboxDb) : OutboxDb :=
  mk_OutboxDb (ob_consumers db) (ob_records db) (f (ob_lanes db)) (ob_origins db) (ob_counters db)
    (ob_backlog db) (ob_owners db) (ob_heads db) (ob_facts db) (ob_erased db).

Definition with_origins (f : gmap Uuid OriginRow -> gmap Uuid OriginRow) (db : OutboxDb) : OutboxDb :=
  mk_OutboxDb (ob_consumers db) (ob_records db) (ob_lanes db) (f (ob_origins db)) (ob_counters db)
    (ob_backlog db) (ob_owners db) (ob_heads db) (ob_facts db) (ob_erased db).

Definition with_counters (f : gmap Uuid CounterRow -> gmap Uuid CounterRow) (db : OutboxDb) : OutboxDb :=
  mk_OutboxDb (ob_consumers db) (ob_records db) (ob_lanes db) (ob_origins db) (f (ob_counters db))
    (ob_backlog db) (ob_owners db) (ob_heads db) (ob_facts db) (ob_erased db).

Definition with_backlog (row : BacklogRow) (db : OutboxDb) : OutboxDb :=
  mk_OutboxDb (ob_consumers db) (ob_records db) (ob_lanes db) (ob_origins db) (ob_counters db)
    row (ob_owners db) (ob_heads db) (ob_facts db) (ob_erased db).

Definition with_consumers (f : gset rstring -> gset rstring) (db : OutboxDb) : OutboxDb :=
  mk_OutboxDb (f (ob_consumers db)) (ob_records db) (ob_lanes db) (ob_origins db) (ob_counters db)
    (ob_backlog db) (ob_owners db) (ob_heads db) (ob_facts db) (ob_erased db).

(** The tables as installed. *)
Definition installed : OutboxDb :=
  mk_OutboxDb {[ ConsumerName.DEFAULT ]} ∅ ∅ ∅ ∅ (mk_BacklogRow 0 None) ∅ ∅ ∅ ∅.

(** ** Statements *)

(** [UPDATE publication_delivery SET .. WHERE consumer = $c AND ..]: [f]
    answers the new row, or [None] where the predicate does not hold. *)
Definition update_lanes (consumer : rstring) (f : Uuid -> LaneRow -> option LaneRow)
    (lanes : gmap (Uuid * rstring) LaneRow) : gmap (Uuid * rstring) LaneRow :=
  map_imap (fun k lane => Some (if bool_decide (k.2 = consumer) then default lane (f k.1 lane) else lane))
    lanes.

(** The lanes of one consumer, by record. *)
Definition lanes_of (consumer : rstring) (db : OutboxDb) : list (Uuid * LaneRow) :=
  omap (fun '((t, c), lane) => if bool_decide (c = consumer) then Some (t, lane) else None)
    (map_to_list (ob_lanes db)).

(** [SELECT lane.t .. WHERE lane.consumer = $c AND ..]. *)
Definition lanes_where (consumer : rstring) (P : Uuid -> LaneRow -> bool) (db : OutboxDb) : list Uuid :=
  (filter (fun '(t, lane) => P t lane = true) (lanes_of consumer db)).*1.

(** [DELETE FROM publication_outbox], its lanes following by cascade. *)
Definition delete_records (ts : list Uuid) (db : OutboxDb) : OutboxDb :=
  with_lanes (filter (fun '(k, _) => k.1 ∉ ts)) (with_records (filter (fun '(t, _) => t ∉ ts)) db).

Definition new_lane : LaneRow := mk_LaneRow LanePending None None None 0 None.

(** No lane of [t] is undelivered. *)
Definition all_delivered (t : Uuid) (db : OutboxDb) : bool :=
  bool_decide (map_Forall (fun k lane => k.1 = t -> lane_state lane = LanePublished) (ob_lanes db)).

(** [settle_records]: publish each of [records] that owes no delivery. *)
Definition settle_records (now : Timestamp) (records : list Uuid) (db : OutboxDb) : OutboxDb :=
  with_records
    (map_imap (fun t row =>
       Some (if slice_contains t records && bool_decide (row_state row <> RecordPublished)
                && all_delivered t db
             then mk_OutboxRow (row_event row) RecordPublished (Some now)
             else row))) db.

(** [deliverable!()]. *)
Definition deliverable (db : OutboxDb) (t : Uuid) : bool :=
  match ob_records db !! t, ob_origins db !! t with
  | Some record, Some origin =>
      bool_decide (original_owner_id origin ∈ ob_owners db)
      && (original_owner_id origin =? ev_owner_id (row_event record))%N
      && negb (bool_decide (t ∈ ob_erased db))
  | _, _ => false
  end.

Definition undelivered_records (db : OutboxDb) : gmap Uuid OutboxRow :=
  filter (fun '(_, row) => row_state row <> RecordPublished) (ob_records db).

(** [SELECT count( * ) FROM publication_outbox WHERE state <> 'published']. *)
Definition pending_records (db : OutboxDb) : N := N.of_nat (size (undelivered_records db)).

Definition I32_MAX : Z := 2147483647.
Definition I64_MAX : Z := 9223372036854775807.

(** ** Capture *)

Definition BACKLOG_ESTIMATE_VALID_FOR : Duration := 30000000000.
Definition BACKLOG_ESTIMATE_REFRESH_AFTER : Duration := 10000000000.
Definition MIN_CLAIM_LEASE : Duration := 1000000000.

Section operations.
Context `{PgText} `{PgInterval} `{UuidText}.

Definition next_series_position (handle : Uuid) (db : OutboxDb) :
    result (OutboxDb * SubjectPosition) StorageError :=
  match ob_heads db !! handle with
  | None =>
      Err (ConstraintViolation
             (str "publication capture requires the series head its admission just wrote"))
  | Some owner =>
      let? row := pg_ok
        (match ob_counters db !! handle with
         | None => Ok (mk_CounterRow owner 1)
         | Some c =>
             if (I64_MAX <? counter_sequence c + 1)%Z then Err NumericValueOutOfRange
             else Ok (mk_CounterRow (counter_owner_id c) (counter_sequence c + 1))
         end) in
      if (counter_sequence row <=? 0)%Z
      then Err (StorageInternal
                  (str "publication_counter.sequence is not positive after an increment"))
      else Ok (with_counters <[handle := row]> db,
               mk_SubjectPosition handle (Z.to_N (counter_sequence row)))
  end.

(** [FRESH_BACKLOG_ESTIMATE_SQL]. *)
Definition fresh_backlog_estimate (now : Timestamp) (db : OutboxDb) : option Z :=
  if is_some_and (backlog_measured_at (ob_backlog db))
       (fun at_ => now - make_interval BACKLOG_ESTIMATE_VALID_FOR <? at_)%Z
  then Some (backlog_pending (ob_backlog db)) else None.

(** [REFRESH_BACKLOG_ESTIMATE_SQL]. *)
Definition refresh_backlog_estimate (now : Timestamp) (db : OutboxDb) : OutboxDb :=
  if match backlog_measured_at (ob_backlog db) with
     | Some at_ => (at_ <? now - make_interval BACKLOG_ESTIMATE_REFRESH_AFTER)%Z
     | None => true
     end
  then with_backlog (mk_BacklogRow (Z.of_N (pending_records db)) (Some now)) db
  else db.

Definition refuse_when_full (now : Timestamp) (limits : PublicationLimits) (db : OutboxDb) :
    result unit StorageError :=
  if is_some_and (fresh_backlog_estimate now db)
       (fun pending => (0 <=? pending)%Z && (pending <? Z.of_N (max_pending limits))%Z)
  then Ok tt
  else if (max_pending limits =? 0)%N
  then Err (PublicationRefused (OutboxCapacityExhausted 0 0))
  else
    let offset := (max_pending limits - 1)%N in
    if (I64_MAX <? Z.of_N offset)%Z
    then Err (ConstraintViolation (str "max_pending does not fit a bigint offset"))
    else if (offset <? pending_records db)%N
    then Err (PublicationRefused (OutboxCapacityExhausted (max_pending limits) (max_pending limits)))
    else Ok tt.

(** [INSERT INTO publication_outbox]: primary key and unique event id, the
    digest's length, the owner's foreign key. *)
Definition insert_outbox (t : Uuid) (event : CapturedEvent) (db : OutboxDb) : result OutboxDb PgFault :=
  if negb (length (ev_envelope_digest event) =? 32)%nat
  then Err (CheckViolation (str "publication_outbox_digest_len_chk"))
  else if is_some (ob_records db !! t)
          || bool_decide (map_Exists (fun _ row => ev_event_id (row_event row) = ev_event_id event)
                          (ob_records db))
  then Err (UniqueViolation (str "publication_outbox"))
  else if negb (bool_decide (ev_owner_id event ∈ ob_owners db))
  then Err (ForeignKeyViolation (str "publication_outbox_owner_id_fkey"))
  else Ok (with_records <[t := mk_OutboxRow event RecordPending None]> db).

(** [INSERT INTO publication_delivery SELECT $1, name FROM publication_consumer]
    and how many rows it wrote. *)
Definition insert_lanes (t : Uuid) (db : OutboxDb) : result (OutboxDb * nat) PgFault :=
  if bool_decide (map_Exists (fun k _ => k.1 = t /\ k.2 ∈ ob_consumers db) (ob_lanes db))
  then Err (UniqueViolation (str "publication_delivery"))
  else Ok (with_lanes (fun lanes => set_to_map (fun name => ((t, name), new_lane)) (ob_consumers db) ∪ lanes) db,
           size (ob_consumers db)).

Definition insert_origin (t : Uuid) (origin : OriginRow) (db : OutboxDb) : result OutboxDb PgFault :=
  if is_some (ob_origins db !! t) then Err (UniqueViolation (str "publication_origin"))
  else if negb (bool_decide (original_owner_id origin ∈ ob_owners db))
  then Err (ForeignKeyViolation (str "publication_origin_original_owner_id_fkey"))
  else Ok (with_origins <[t := origin]> db).

(** The source of the retained Fact [t] of [owner_id], whose owner row exists. *)
Definition captured_source (t owner_id : Uuid) (db : OutboxDb) : option (option rstring) :=
  let* fact := ob_facts db !! t in
  if (fact_owner_id fact =? owner_id)%N && bool_decide (fact_owner_id fact ∈ ob_owners db)
  then Some (fact_source_id fact) else None.

(** What [SealedPublication::seal] takes from outside: [format] to RFC 3339,
    [serde_json::to_vec] and [blake3::hash]. *)
Context {OffsetDateTime : Type} (rfc3339 : OffsetDateTime -> result rstring rstring)
  (to_vec : list (rstring * Json) -> result (list N) rstring) (hash : list N -> list N).

Definition capture_publication_in_tx (now : Timestamp) (owner_id t : Uuid)
    (occurred_at : option OffsetDateTime) (plan : PublicationPlan) (position : SubjectPosition)
    (db : OutboxDb) : result OutboxDb StorageError :=
  let? occurred_at := ok_or occurred_at
    (StorageInternal
       (str "publication capture requires the occurrence time of a new Fact admission")) in
  let? _ := refuse_when_full now (plan_limits plan) db in
  let? sealed := map_err PublicationRefused
                   (SealedPublication.seal rfc3339 to_vec hash plan t occurred_at position) in
  let schema_version := Z.of_N (SchemaVersion_0 (sealed_schema_version sealed)) in
  let? _ := if (I32_MAX <? schema_version)%Z
            then Err (ConstraintViolation (str "schema version does not fit an integer column"))
            else Ok tt in
  let? db := pg_ok (insert_outbox (sealed_id sealed)
    (mk_CapturedEvent owner_id (SchemaId_0 (sealed_schema_id sealed)) schema_version
       (sealed_event_type sealed) (sealed_event_id sealed) (sealed_bytes sealed) (sealed_digest sealed)
       now) db) in
  let? (db, lanes) := pg_ok (insert_lanes t db) in
  let db :=
    if (lanes =? 0)%nat
    then with_records (alter (fun row => mk_OutboxRow (row_event row) RecordPublished (Some now)) t) db
    else db in
  let? captured := ok_or (captured_source t owner_id db)
    (ConstraintViolation (str "publication capture requires its freshly inserted retained Fact")) in
  pg_ok (insert_origin t (mk_OriginRow owner_id captured) db).

(** [ingest_core]'s capture of a new listenable Fact: its series' next position,
    then the event. *)
Definition publish_fact (now : Timestamp) (owner : OwnerId) (handle : Uuid) (memory_id : MemoryId)
    (occurred_at : option OffsetDateTime) (plan : PublicationPlan) (db : OutboxDb) :
    result OutboxDb StorageError :=
  let? (db, position) := next_series_position handle db in
  capture_publication_in_tx now (OwnerId_0 owner) (MemoryId_0 memory_id) occurred_at plan position db.

(** ** The drain port *)

Record ClaimedPublication := mk_ClaimedPublication {
  cp_id : Uuid;
  cp_event_id : rstring;
  cp_owner_id : Uuid;
  cp_schema_id : rstring;
  cp_schema_version : N;
  cp_event_type : rstring;
  cp_envelope : list N;
  cp_digest : list N;
  cp_attempts : N;
  cp_claim : ClaimToken;
  cp_lease_expires_at : Timestamp;
}.

Inductive AckOutcome := AckPublished | AckAlreadyPublished | AckStaleClaim.
Inductive ReleaseOutcome := Released | ReleaseAlreadyPublished | ReleaseStaleClaim.
Inductive RetireOutcome := Retired (undelivered : N) | NotRegistered.

(** [ORDER BY lane.attempts ASC, lane.t ASC]. *)
Definition lane_leb (a b : Uuid * LaneRow) : bool :=
  (lane_attempts a.2 <? lane_attempts b.2)%Z
  || ((lane_attempts a.2 =? lane_attempts b.2)%Z && (a.1 <=? b.1)%N).

(** A lane the claim statement may choose. *)
Definition lane_due (now : Timestamp) (lane : LaneRow) : bool :=
  match lane_state lane with
  | LanePending => true
  | LaneClaimed => is_some_and (lane_lease_expires_at lane) (fun e => e <? now)%Z
  | LanePublished => false
  end.

(** The [claimed] leg of [CLAIM_SQL]; [locked] are the lanes some other
    transaction holds. *)
Definition claimable (now : Timestamp) (consumer : rstring) (locked : Uuid -> bool) (db : OutboxDb) :
    list (Uuid * LaneRow) :=
  sort_by lane_leb
    (filter (fun '(t, lane) => lane_due now lane = true /\ deliverable db t = true /\ locked t = false)
       (lanes_of consumer db)).

(** A lane as the [leased] leg leaves it. *)
Definition leased_lane (publisher : PublisherId) (expires : Timestamp) (token : Uuid) (lane : LaneRow) :
    LaneRow :=
  mk_LaneRow LaneClaimed (Some token) (Some (PublisherId.as_str publisher)) (Some expires)
    (lane_attempts lane + 1) (lane_published_at lane).

(** [claimed_from_row]. *)
Definition claimed_from_row (t : Uuid) (row : OutboxRow) (attempts : Z) (token : Uuid)
    (expires : Timestamp) : result ClaimedPublication StorageError :=
  let ev := row_event row in
  if negb (length (ev_envelope_digest ev) =? 32)%nat
  then Err (StorageInternal (str "captured envelope digest is not 32 bytes"))
  else if (ev_schema_version ev <? 0)%Z
  then Err (StorageInternal
              (str "publication " ++ hyphenated t ++ str " carries schema version "
               ++ display_i32 (ev_schema_version ev) ++ str ", which is not a version"))
  else if (attempts <? 0)%Z
  then Err (StorageInternal
              (str "publication " ++ hyphenated t ++ str " carries " ++ display_i32 attempts
               ++ str " attempts, which is not a count"))
  else Ok (mk_ClaimedPublication t (ev_event_id ev) (ev_owner_id ev) (ev_schema_id ev)
             (Z.to_N (ev_schema_version ev)) (ev_event_type ev) (ev_envelope ev)
             (ev_envelope_digest ev) (Z.to_N attempts) (mk_ClaimToken token) expires).

Fixpoint collect {A E} (l : list (result A E)) : result (list A) E :=
  match l with
  | [] => Ok []
  | r :: l =>
      let? a := r in
      let? rest := collect l in
      Ok (a :: rest)
  end.

Definition as_millis (d : Duration) : rstring := display_u64 (Z.to_N (d / 1000000)).

(** The columns [CLAIM_SQL] answers, in its order; [mint] is the [uuidv7()] of
    each updated lane.  Adding one to an attempt count at the column's maximum
    is an error of the statement: the sum is computed before [least]. *)
Definition claim (now : Timestamp) (locked : Uuid -> bool) (mint : Uuid -> Uuid)
    (consumer : ConsumerName) (publisher : PublisherId) (limit : N) (lease : Duration) (db : OutboxDb) :
    result (OutboxDb * list ClaimedPublication) StorageError :=
  if (lease <? MIN_CLAIM_LEASE)%Z
  then Err (ConstraintViolation
         (str "publication claim lease is " ++ as_millis lease ++ str " ms, under the "
          ++ as_millis MIN_CLAIM_LEASE
          ++ str " ms floor; a lease shorter than one delivery expires while the first publisher is still delivering, so every record would be re-claimed under it"))
  else
    let consumer := ConsumerName.as_str consumer in
    let expires := (now + make_interval lease)%Z in
    let chosen := take (N.to_nat limit) (claimable now consumer locked db) in
    let? _ := pg_ok (if existsb (fun '(_, lane) => I32_MAX <? lane_attempts lane + 1)%Z chosen
                     then Err NumericValueOutOfRange else Ok tt) in
    let db' := with_lanes (update_lanes consumer (fun t lane =>
                 if slice_contains t chosen.*1
                 then Some (leased_lane publisher expires (mint t) lane) else None)) db in
    let leased := sort_by lane_leb ((fun '(t, lane) => (t, leased_lane publisher expires (mint t) lane)) <$> chosen) in
    let rows := omap (fun '(t, lane) =>
                  let* record := ob_records db !! t in
                  if bool_decide (ev_owner_id (row_event record) ∈ ob_owners db)
                  then Some (claimed_from_row t record (lane_attempts lane) (mint t) expires)
                  else None) leased in
    let? claimed := collect rows in
    Ok (refresh_backlog_estimate now db', claimed).

(** The lane a [(id, claim token)] pair of a batch names while it is claimed
    under that token. *)
Definition asked (claims : list (Uuid * ClaimToken)) (t : Uuid) (lane : LaneRow) : bool :=
  existsb (fun '(id, claim) => (id =? t)%N && bool_decide (lane_claim_token lane = Some (ClaimToken_0 claim)))
    claims.

Definition lane_claimed (lane : LaneRow) : bool := bool_decide (lane_state lane = LaneClaimed).

Definition lease_holds (now : Timestamp) (lane : LaneRow) : bool :=
  is_some_and (lane_lease_expires_at lane) (fun e => now <? e)%Z.

(** A lane as a mark leaves it. *)
Definition published_lane (now : Timestamp) (lane : LaneRow) : LaneRow :=
  mk_LaneRow LanePublished None None None (lane_attempts lane) (Some now).

Definition mark_published_batch (now : Timestamp) (consumer : ConsumerName)
    (claims : list (Uuid * ClaimToken)) (db : OutboxDb) :
    result (OutboxDb * list AckOutcome) StorageError :=
  if is_empty claims then Ok (db, [])
  else
    let consumer := ConsumerName.as_str consumer in
    let ids := claims.*1 in
    let deliverable :=
      lanes_where consumer (fun t lane => asked claims t lane && lane_claimed lane
                                          && lease_holds now lane && deliverable db t) db in
    let marks t lane := asked claims t lane && slice_contains t deliverable && lane_claimed lane in
    let published := lanes_where consumer marks db in
    let db := with_lanes (update_lanes consumer (fun t lane =>
                if marks t lane then Some (published_lane now lane) else None)) db in
    let db := if is_empty published then db else settle_records now published db in
    let already :=
      lanes_where consumer (fun t lane => slice_contains t ids
                                          && bool_decide (lane_state lane = LanePublished)) db in
    Ok (db,
        (fun id => if slice_contains id published then AckPublished
                   else if slice_contains id already then AckAlreadyPublished
                   else AckStaleClaim) <$> ids).

(** The trait's own [mark_published]. *)
Definition mark_published (now : Timestamp) (consumer : ConsumerName) (id : Uuid) (claim : ClaimToken)
    (db : OutboxDb) : result (OutboxDb * AckOutcome) StorageError :=
  let? (db, outcomes) := mark_published_batch now consumer [(id, claim)] db in
  match outcomes with
  | outcome :: _ => Ok (db, outcome)
  | [] => Err (StorageInternal (str "a batch mark of one claim returned no outcome"))
  end.

Definition renew_claim (now : Timestamp) (consumer : ConsumerName) (id : Uuid) (claim : ClaimToken)
    (lease : Duration) (db : OutboxDb) : result (OutboxDb * bool) StorageError :=
  if (lease <? MIN_CLAIM_LEASE)%Z
  then Err (ConstraintViolation
         (str "publication renew lease is " ++ as_millis lease ++ str " ms, under the "
          ++ as_millis MIN_CLAIM_LEASE ++ str " ms floor"))
  else
    let consumer := ConsumerName.as_str consumer in
    let renews t lane :=
      (t =? id)%N && lane_claimed lane && bool_decide (lane_claim_token lane = Some (ClaimToken_0 claim))
      && lease_holds now lane && deliverable db t in
    let rows := lanes_where consumer renews db in
    Ok (with_lanes (update_lanes consumer (fun t lane =>
          if renews t lane
          then Some (mk_LaneRow (lane_state lane) (lane_claim_token lane) (lane_claimed_by lane)
                       (Some (now + make_interval lease)%Z) (lane_attempts lane) (lane_published_at lane))
          else None)) db,
        (length rows =? 1)%nat).

(** [current_lane_state]. *)
Definition current_lane_state (id : Uuid) (consumer : rstring) (db : OutboxDb) :
    option PublicationDeliveryState :=
  lane_state <$> ob_lanes db !! (id, consumer).

(** A lane as a release leaves it. *)
Definition released_lane (lane : LaneRow) : LaneRow :=
  mk_LaneRow LanePending None None None (lane_attempts lane) (lane_published_at lane).

Definition release (consumer : ConsumerName) (id : Uuid) (claim : ClaimToken) (db : OutboxDb) :
    result (OutboxDb * ReleaseOutcome) StorageError :=
  let consumer := ConsumerName.as_str consumer in
  let releases t lane :=
    (t =? id)%N && lane_claimed lane && bool_decide (lane_claim_token lane = Some (ClaimToken_0 claim)) in
  let rows := lanes_where consumer releases db in
  let db := with_lanes (update_lanes consumer (fun t lane =>
              if releases t lane then Some (released_lane lane) else None)) db in
  Ok (db,
      if (0 <? length rows)%nat then Released
      else match current_lane_state id consumer db with
           | Some LanePublished => ReleaseAlreadyPublished
           | _ => ReleaseStaleClaim
           end).

Definition pending_count (db : OutboxDb) : result N StorageError := Ok (pending_records db).

(** ** Consumers *)

Definition register (consumer : ConsumerName) (db : OutboxDb) : result OutboxDb StorageError :=
  if bool_decide (ConsumerName.as_str consumer ∈ ob_consumers db) then Ok db
  else Ok (with_consumers (union {[ ConsumerName.as_str consumer ]}) db).

(** [collation] is the order the database gives text. *)
Definition registered (collation : rstring -> rstring -> bool) (name_error : ConsumerNameError -> rstring)
    (db : OutboxDb) : result (list ConsumerName) StorageError :=
  collect ((fun name => map_err (fun e => StorageInternal (name_error e)) (ConsumerName.new name))
             <$> sort_by collation (elements (ob_consumers db))).

Definition retire (now : Timestamp) (consumer : ConsumerName) (db : OutboxDb) :
    result (OutboxDb * RetireOutcome) StorageError :=
  let consumer := ConsumerName.as_str consumer in
  let owed := lanes_where consumer (fun _ lane => bool_decide (lane_state lane <> LanePublished)) db in
  if negb (bool_decide (consumer ∈ ob_consumers db)) then Ok (db, NotRegistered)
  else
    let db := with_lanes (filter (fun '(k, _) => k.2 <> consumer))
                (with_consumers (fun names => names ∖ {[ consumer ]}) db) in
    Ok (settle_records now owed db, Retired (N.of_nat (length owed))).

(** ** Retention, forgetting and erasure *)

(** [PRUNE_PUBLISHED_SQL]; [scan] is the order the rows are read in, which
    [ORDER BY published_at] keeps between equal times. *)
Definition prune_published (now : Timestamp) (scan : list Uuid) (older_than : Duration) (limit : N)
    (db : OutboxDb) : result (OutboxDb * N) StorageError :=
  let horizon := (now - make_interval older_than)%Z in
  let rows := omap (fun t =>
                let* row := ob_records db !! t in
                let* at_ := row_published_at row in
                if bool_decide (row_state row = RecordPublished) && (at_ <? horizon)%Z
                then Some (t, at_) else None) scan in
  let chosen := (take (N.to_nat limit) (sort_by (fun a b => a.2 <=? b.2)%Z rows)).*1 in
  Ok (delete_records chosen db, N.of_nat (length chosen)).

Definition cancel_undelivered_for_forget (now : Timestamp) (t : Uuid) (db : OutboxDb) : OutboxDb :=
  match ob_records db !! t with
  | None => db
  | Some _ =>
      let db := with_lanes (filter (fun '(k, lane) => ~ (k.1 = t /\ lane_state lane <> LanePublished))) db in
      if bool_decide (map_Exists (fun k _ => k.1 = t) (ob_lanes db))
      then settle_records now [t] db
      else delete_records [t] db
  end.

(** What erasing the Fact [t] does here: the erase witness of its [memory] row,
    its origin and its record. *)
Definition erase_publication (t : Uuid) (db : OutboxDb) : OutboxDb :=
  delete_records [t]
    (mk_OutboxDb (ob_consumers db) (ob_records db) (ob_lanes db) (delete t (ob_origins db))
       (ob_counters db) (ob_backlog db) (ob_owners db) (ob_heads db) (delete t (ob_facts db))
       ({[ t ]} ∪ ob_erased db)).

(** [selected_origin_ts_sql!()]: the selected Facts, and the origins of the
    erased owner (and source, when narrowed). *)
Definition selected_origin_ts (selected_facts : list Uuid) (owner : OwnerId) (source : option rstring)
    (db : OutboxDb) : list Uuid :=
  selected_facts
  ++ omap (fun '(t, origin) =>
       if (original_owner_id origin =? OwnerId_0 owner)%N
          && match source with
             | None => true
             | Some s => bool_decide (origin_source_id origin = Some s)
             end
       then Some t else None) (map_to_list (ob_origins db)).

(** How many origins and records a whole-owner or source erase revoked. *)
Definition revoke_original_publications (selected_facts : list Uuid) (owner : OwnerId)
    (source : option rstring) (db : OutboxDb) : OutboxDb * (N * N) :=
  let ts := selected_origin_ts selected_facts owner source db in
  let publications := filter (fun '(t, _) => t ∈ ts) (ob_records db) in
  let origins := filter (fun '(t, _) => t ∈ ts) (ob_origins db) in
  (with_origins (filter (fun '(t, _) => t ∉ ts)) (delete_records ts db),
   (N.of_nat (size origins), N.of_nat (size publications))).

(** A series' counter goes once nothing of the series is left. *)
Definition erase_series_counter (handle : Uuid) (db : OutboxDb) : OutboxDb :=
  with_counters (delete handle) db.

Inductive PublicationOriginEligibility := Eligible | Ineligible.

Definition check_in_transaction (original_owner : OwnerId) (fact_id : MemoryId) (db : OutboxDb) :
    PublicationOriginEligibility :=
  match ob_origins db !! MemoryId_0 fact_id with
  | Some origin =>
      if (original_owner_id origin =? OwnerId_0 original_owner)%N
         && negb (bool_decide (MemoryId_0 fact_id ∈ ob_erased db))
      then Eligible else Ineligible
  | None => Ineligible
  end.

End operations.

(** ** Lookups *)

Lemma lookup_update_lanes consumer f lanes t c :
  update_lanes consumer f lanes !! (t, c)
  = (fun lane => if bool_decide (c = consumer) then default lane (f t lane) else lane)
      <$> lanes !! (t, c).
Proof. unfold update_lanes. rewrite map_lookup_imap. by destruct (lanes !! (t, c)). Qed.

Lemma elem_of_lanes_of t lane consumer db :
  (t, lane) ∈ lanes_of consumer db <-> ob_lanes db !! (t, consumer) = Some lane.
Proof.
  unfold lanes_of. rewrite list_elem_of_omap. split.
  - intros ([[t' c] lane'] & Hin%elem_of_map_to_list & E). case_bool_decide; naive_solver.
  - intros E%elem_of_map_to_list. exists ((t, consumer), lane). by rewrite bool_decide_true.
Qed.

Lemma NoDup_lanes_of consumer db : NoDup (lanes_of consumer db).*1.
Proof.
  assert ((lanes_of consumer db).*1
          = omap (fun '(t, c) => if bool_decide (c = consumer) then Some t else None)
              (map_to_list (ob_lanes db)).*1) as ->.
  { unfold lanes_of. induction (map_to_list (ob_lanes db)) as [|[[t c] lane] l IH]; [done|].
    cbn. case_bool_decide; cbn; by rewrite IH. }
  apply omap_NoDup; [|apply NoDup_fst_map_to_list].
  intros [t c] [t' c'] z. repeat case_bool_decide; naive_solver.
Qed.

Lemma all_delivered_true t db :
  all_delivered t db = true
  <-> forall c lane, ob_lanes db !! (t, c) = Some lane -> lane_state lane = LanePublished.
Proof.
  unfold all_delivered. rewrite bool_decide_eq_true. split.
  - intros Hall c lane E. by apply (Hall (t, c) lane E).
  - intros Hall [t' c] lane E Ht. cbn in Ht. subst t'. eauto.
Qed.

Lemma lookup_settle now ids db t :
  ob_records (settle_records now ids db) !! t
  = (fun row => if slice_contains t ids && bool_decide (row_state row <> RecordPublished)
                   && all_delivered t db
                then mk_OutboxRow (row_event row) RecordPublished (Some now) else row)
      <$> ob_records db !! t.
Proof. unfold settle_records, with_records. cbn. rewrite map_lookup_imap. by destruct (ob_records db !! t). Qed.

Lemma settle_nothing now db : settle_records now [] db = db.
Proof.
  destruct db. unfold settle_records, with_records. cbn. f_equal. apply map_eq. intros t.
  rewrite map_lookup_imap. by destruct (_ !! t).
Qed.

Lemma update_lanes_id consumer f lanes :
  (forall t lane, lanes !! (t, consumer) = Some lane -> f t lane = None) ->
  update_lanes consumer f lanes = lanes.
Proof.
  intros Hf. apply map_eq. intros [t c]. rewrite lookup_update_lanes.
  destruct (lanes !! (t, c)) as [lane|] eqn:E; [|done]. cbn.
  case_bool_decide; [|done]. subst. by rewrite (Hf t lane E).
Qed.

Lemma update_lanes_ext consumer f g lanes :
  (forall t lane, lanes !! (t, consumer) = Some lane -> f t lane = g t lane) ->
  update_lanes consumer f lanes = update_lanes consumer g lanes.
Proof.
  intros Hf. apply map_eq. intros [t c]. rewrite !lookup_update_lanes.
  destruct (lanes !! (t, c)) as [lane|] eqn:E; [|done]. cbn.
  case_bool_decide; [|done]. subst. by rewrite (Hf t lane E).
Qed.

Lemma with_lanes_id db : with_lanes id db = db.
Proof. by destruct db. Qed.

Lemma elem_of_lanes_where consumer P db t :
  t ∈ lanes_where consumer P db
  <-> exists lane, ob_lanes db !! (t, consumer) = Some lane /\ P t lane = true.
Proof.
  unfold lanes_where. rewrite list_elem_of_fmap. split.
  - intros ([t' lane] & -> & [HP Hin%elem_of_lanes_of]%list_elem_of_filter). eauto.
  - intros (lane & Hin%elem_of_lanes_of & HP). exists (t, lane). by rewrite list_elem_of_filter.
Qed.

Lemma lanes_where_contains consumer P db t :
  slice_contains t (lanes_where consumer P db)
  = match ob_lanes db !! (t, consumer) with Some lane => P t lane | None => false end.
Proof.
  apply eq_true_iff_eq. rewrite slice_contains_true, elem_of_lanes_where.
  destruct (ob_lanes db !! (t, consumer)) as [lane|]; naive_solver.
Qed.

Lemma NoDup_lanes_where consumer P db : NoDup (lanes_where consumer P db).
Proof.
  unfold lanes_where. apply NoDup_filter_fst, NoDup_lanes_of.
Qed.

(** A mark of a batch publishes the lanes it names, under their tokens, while
    the lease holds and the record is deliverable. *)
Definition marks (now : Timestamp) (claims : list (Uuid * ClaimToken)) (db : OutboxDb) (t : Uuid)
    (lane : LaneRow) : bool :=
  asked claims t lane && lane_claimed lane && lease_holds now lane && deliverable db t.

Definition marked_lanes (now : Timestamp) (consumer : rstring) (claims : list (Uuid * ClaimToken))
    (db : OutboxDb) : OutboxDb :=
  with_lanes (update_lanes consumer (fun t lane =>
    if marks now claims db t lane then Some (published_lane now lane) else None)) db.

Definition ack_of (now : Timestamp) (consumer : rstring) (claims : list (Uuid * ClaimToken))
    (db : OutboxDb) (id : Uuid) : AckOutcome :=
  match ob_lanes db !! (id, consumer) with
  | Some lane =>
      if marks now claims db id lane then AckPublished
      else if bool_decide (lane_state lane = LanePublished) then AckAlreadyPublished
      else AckStaleClaim
  | None => AckStaleClaim
  end.

Lemma lanes_where_ext (P Q : Uuid -> LaneRow -> bool) consumer db :
  (forall t lane, ob_lanes db !! (t, consumer) = Some lane -> P t lane = Q t lane) ->
  lanes_where consumer P db = lanes_where consumer Q db.
Proof.
  intros HPQ. unfold lanes_where. f_equal.
  assert (forall x, x ∈ lanes_of consumer db -> P x.1 x.2 = Q x.1 x.2) as Hall.
  { intros [t lane] Hin%elem_of_lanes_of. by apply HPQ. }
  induction (lanes_of consumer db) as [|[t lane] l IH]; [done|]. rewrite !filter_cons.
  pose proof (Hall (t, lane) ltac:(left)) as E. cbn in E.
  rewrite IH by (intros x Hx; apply Hall; by right).
  repeat case_decide; congruence.
Qed.

Lemma lanes_where_none consumer P db :
  (forall t lane, ob_lanes db !! (t, consumer) = Some lane -> P t lane = false) ->
  lanes_where consumer P db = [].
Proof.
  intros HP. destruct (lanes_where consumer P db) as [|t l] eqn:E; [done|].
  assert (t ∈ lanes_where consumer P db) as (lane & Hl & HPl)%elem_of_lanes_where by (rewrite E; left).
  by rewrite (HP t lane Hl) in HPl.
Qed.

Lemma mark_published_batch_eq now consumer claims db :
  let c := ConsumerName.as_str consumer in
  mark_published_batch now consumer claims db
  = Ok (settle_records now (lanes_where c (marks now claims db) db) (marked_lanes now c claims db),
        ack_of now c claims db <$> claims.*1).
Proof.
  intros c. unfold mark_published_batch. destruct claims as [|claim0 claims0] eqn:Ecl.
  { cbn [is_empty]. rewrite lanes_where_none by done. rewrite settle_nothing. unfold marked_lanes.
    assert (update_lanes c (fun t lane => if marks now [] db t lane then Some (published_lane now lane) else None)
              (ob_lanes db) = ob_lanes db) as E by (apply update_lanes_id; done).
    do 2 f_equal. unfold with_lanes. rewrite E. by destruct db. }
  cbn [is_empty]. rewrite <-Ecl. fold c. clear Ecl claim0 claims0.
  set (D := lanes_where c (fun t lane => asked claims t lane && lane_claimed lane
              && lease_holds now lane && deliverable db t) db).
  assert (forall t lane, ob_lanes db !! (t, c) = Some lane ->
            asked claims t lane && slice_contains t D && lane_claimed lane = marks now claims db t lane) as HD.
  { intros t lane Hl. unfold marks, D. rewrite lanes_where_contains, Hl.
    destruct (asked claims t lane), (lane_claimed lane), (lease_holds now lane), (deliverable db t); done. }
  rewrite (lanes_where_ext _ (marks now claims db) c db) by done.
  assert (with_lanes (update_lanes c (fun t lane =>
            if asked claims t lane && slice_contains t D && lane_claimed lane
            then Some (published_lane now lane) else None)) db = marked_lanes now c claims db) as ->.
  { unfold marked_lanes, with_lanes. f_equal. apply update_lanes_ext. intros t lane Hl.
    by rewrite (HD t lane Hl). }
  set (pub := lanes_where c (marks now claims db) db).
  assert ((if is_empty pub then marked_lanes now c claims db
           else settle_records now pub (marked_lanes now c claims db))
          = settle_records now pub (marked_lanes now c claims db)) as ->.
  { destruct pub; [by rewrite settle_nothing|done]. }
  do 2 f_equal. apply list_fmap_ext. intros i id Hid. unfold ack_of, pub.
  rewrite !lanes_where_contains. cbn [ob_lanes settle_records with_records marked_lanes with_lanes].
  rewrite lookup_update_lanes, bool_decide_true by done.
  destruct (ob_lanes db !! (id, c)) as [lane|] eqn:Hl; [|done]. cbn [fmap option_fmap option_map].
  destruct (marks now claims db id lane) eqn:Hm; [done|]. cbn [default].
  assert (slice_contains id claims.*1 = true) as ->; [|done].
  apply slice_contains_true. by eapply list_elem_of_lookup_2.
Qed.

(** ** The tables' invariant *)

(** A lane's columns agree with its state. *)
Definition lane_ok (lane : LaneRow) : Prop :=
  (0 <= lane_attempts lane <= I32_MAX)%Z /\
  match lane_state lane with
  | LanePending =>
      lane_claim_token lane = None /\ lane_claimed_by lane = None
      /\ lane_lease_expires_at lane = None /\ lane_published_at lane = None
  | LaneClaimed =>
      is_Some (lane_claim_token lane) /\ is_Some (lane_claimed_by lane)
      /\ is_Some (lane_lease_expires_at lane) /\ lane_published_at lane = None
  | LanePublished =>
      lane_claim_token lane = None /\ lane_claimed_by lane = None
      /\ lane_lease_expires_at lane = None /\ is_Some (lane_published_at lane)
  end.

Definition record_ok (db : OutboxDb) (row : OutboxRow) : Prop :=
  length (ev_envelope_digest (row_event row)) = 32
  /\ (0 <= ev_schema_version (row_event row) <= I32_MAX)%Z
  /\ ev_owner_id (row_event row) ∈ ob_owners db
  /\ (row_state row = RecordPublished <-> is_Some (row_published_at row)).

(** Lanes belong to records and to registered consumers; rows, counters, counts
    and names are in range. *)
Record tables_ok (db : OutboxDb) : Prop := {
  ok_lane t c lane :
    ob_lanes db !! (t, c) = Some lane ->
    lane_ok lane /\ is_Some (ob_records db !! t) /\ c ∈ ob_consumers db;
  ok_record t row : ob_records db !! t = Some row -> record_ok db row;
  ok_consumer c : c ∈ ob_consumers db -> ConsumerName.new c = Ok (mk_ConsumerName c);
  ok_counter handle c : ob_counters db !! handle = Some c -> (0 < counter_sequence c <= I64_MAX)%Z;
  ok_backlog : (0 <= backlog_pending (ob_backlog db))%Z;
}.

(** A record is published exactly when it owes no delivery. *)
Definition settled (db : OutboxDb) : Prop :=
  forall t row, ob_records db !! t = Some row ->
    row_state row = RecordPublished <-> all_delivered t db = true.

Definition outbox_wf (db : OutboxDb) : Prop := tables_ok db /\ settled db.

Lemma installed_wf : outbox_wf installed.
Proof.
  split; [split|intros ??]; cbn; try done. intros c ->%elem_of_singleton. by vm_compute.
Qed.

(** What a write to lanes alone must keep: the same lanes, each still in order
    and as delivered as it was. *)
Lemma wf_with_lanes db lanes :
  outbox_wf db ->
  (forall t c, match ob_lanes db !! (t, c), lanes !! (t, c) with
               | Some old, Some new =>
                   lane_ok new /\ (lane_state old = LanePublished <-> lane_state new = LanePublished)
               | None, None => True
               | _, _ => False
               end) ->
  outbox_wf (with_lanes (fun _ => lanes) db).
Proof.
  intros [W S] Hl. split; [split|]; cbn; try apply W.
  - intros t c lane E. specialize (Hl t c). rewrite E in Hl.
    destruct (ob_lanes db !! (t, c)) as [old|] eqn:Eo; [|done]. split; [apply Hl|by eapply W].
  - intros t row E. rewrite (S t row E), !all_delivered_true. cbn.
    split; intros Hall c lane El; specialize (Hl t c); rewrite El in Hl.
    + destruct (ob_lanes db !! (t, c)) as [old|] eqn:Eo; [|done]. apply Hl. by eapply Hall.
    + destruct (lanes !! (t, c)) as [new|] eqn:En; [|done]. apply Hl. by eapply Hall.
Qed.

(** An update that keeps the claimed and pending lanes undelivered. *)
Lemma wf_update_lanes db consumer f :
  outbox_wf db ->
  (forall t lane lane', ob_lanes db !! (t, consumer) = Some lane -> f t lane = Some lane' ->
     lane_ok lane' /\ (lane_state lane = LanePublished <-> lane_state lane' = LanePublished)) ->
  outbox_wf (with_lanes (update_lanes consumer f) db).
Proof.
  intros W Hf. apply (wf_with_lanes db (update_lanes consumer f (ob_lanes db)) W). intros t c.
  rewrite lookup_update_lanes. destruct (ob_lanes db !! (t, c)) as [lane|] eqn:E; [|done]. cbn.
  assert (lane_ok lane) by (by eapply W).
  case_bool_decide as Hc; [subst c|done]. destruct (f t lane) as [lane'|] eqn:Ef; [|done]. cbn. eauto.
Qed.

(** Settling [ids] where everything else already is. *)
Lemma wf_settle db now ids :
  tables_ok db ->
  (forall t row, ob_records db !! t = Some row ->
     (row_state row = RecordPublished -> all_delivered t db = true)
     /\ (t ∉ ids -> all_delivered t db = true -> row_state row = RecordPublished)) ->
  outbox_wf (settle_records now ids db).
Proof.
  intros W Hs. split; [split; try apply W|].
  - intros t c lane E. rewrite lookup_settle, fmap_is_Some. by apply W.
  - intros t row. rewrite lookup_settle. intros (row0 & E & ->)%fmap_Some.
    pose proof (ok_record _ W t row0 E) as (? & ? & ? & ?). by destruct (slice_contains t ids && _ && _).
  - intros t row. rewrite lookup_settle. intros (row0 & E & ->)%fmap_Some.
    destruct (Hs t row0 E) as [Hpub Hset]. change (all_delivered t (settle_records now ids db)) with (all_delivered t db).
    destruct (slice_contains t ids) eqn:Hin; cbn [andb].
    + case_bool_decide as Hst; cbn [andb]; [|split; [|tauto]; intros _; apply Hpub; destruct (row_state row0); naive_solver].
      destruct (all_delivered t db) eqn:Ha; [done|]. split; [intros He; by rewrite Hpub in Ha|done].
    + split; [done|]. apply Hset. rewrite <-slice_contains_true. by rewrite Hin.
Qed.

(** ** Claims *)

Lemma collect_omap {A A' B E} (h : A -> A') (f : A' -> option (result B E)) (g : A -> option B) l :
  (forall x, x ∈ l -> f (h x) = Ok <$> g x) -> collect (omap f (h <$> l)) = Ok (omap g l).
Proof.
  induction l as [|x l IH]; [done|]. intros Hf. cbn. rewrite Hf by left.
  destruct (g x); cbn; rewrite IH by (intros y Hy; apply Hf; by right); done.
Qed.

Lemma lane_leb_true a b :
  lane_leb a b = true
  <-> (lane_attempts a.2 < lane_attempts b.2)%Z
      \/ (lane_attempts a.2 = lane_attempts b.2 /\ (a.1 <= b.1)%N).
Proof. unfold lane_leb. by rewrite orb_true_iff, andb_true_iff, Z.ltb_lt, Z.eqb_eq, N.leb_le. Qed.

Lemma lane_leb_total a b : lane_leb a b = true \/ lane_leb b a = true.
Proof. rewrite !lane_leb_true. lia. Qed.

Lemma lane_leb_trans a b c : lane_leb a b = true -> lane_leb b c = true -> lane_leb a c = true.
Proof. rewrite !lane_leb_true. lia. Qed.

Section claims.
Context `{PgText} `{PgInterval} `{UuidText}.

Lemma elem_of_claimable now consumer locked db t lane :
  (t, lane) ∈ claimable now consumer locked db
  <-> ob_lanes db !! (t, consumer) = Some lane /\ lane_due now lane = true
      /\ deliverable db t = true /\ locked t = false.
Proof.
  unfold claimable. rewrite sort_by_elem_of, list_elem_of_filter, elem_of_lanes_of. tauto.
Qed.

Lemma claimable_sorted now consumer locked db :
  StronglySorted (fun a b => lane_leb a b = true) (claimable now consumer locked db).
Proof. apply sort_by_StronglySorted; [exact lane_leb_total|exact lane_leb_trans]. Qed.

(** The lanes a claim takes, as they were. *)
Definition chosen_lanes (now : Timestamp) (consumer : rstring) (locked : Uuid -> bool) (limit : N)
    (db : OutboxDb) : list (Uuid * LaneRow) :=
  take (N.to_nat limit) (claimable now consumer locked db).

Lemma elem_of_chosen now consumer locked limit db t lane :
  (t, lane) ∈ chosen_lanes now consumer locked limit db ->
  ob_lanes db !! (t, consumer) = Some lane /\ lane_due now lane = true
  /\ deliverable db t = true /\ locked t = false.
Proof. intros Hin%subseteq_take. by apply elem_of_claimable in Hin. Qed.

Lemma elem_of_chosen_fst now consumer locked limit db t :
  t ∈ (chosen_lanes now consumer locked limit db).*1 ->
  exists lane, ob_lanes db !! (t, consumer) = Some lane /\ lane_due now lane = true
    /\ (t, lane) ∈ chosen_lanes now consumer locked limit db.
Proof.
  intros ([t' lane] & -> & Hin)%list_elem_of_fmap. exists lane.
  by pose proof (elem_of_chosen _ _ _ _ _ _ _ Hin) as (? & ? & ?).
Qed.

Definition leased_lanes (mint : Uuid -> Uuid) (consumer : rstring) (publisher : PublisherId)
    (expires : Timestamp) (chosen : list Uuid) (db : OutboxDb) : OutboxDb :=
  with_lanes (update_lanes consumer (fun t lane =>
    if slice_contains t chosen then Some (leased_lane publisher expires (mint t) lane) else None)) db.

(** What a publisher is handed for a chosen lane. *)
Definition delivery (mint : Uuid -> Uuid) (expires : Timestamp) (db : OutboxDb) (x : Uuid * LaneRow) :
    option ClaimedPublication :=
  (fun row =>
     mk_ClaimedPublication x.1 (ev_event_id (row_event row)) (ev_owner_id (row_event row))
       (ev_schema_id (row_event row)) (Z.to_N (ev_schema_version (row_event row)))
       (ev_event_type (row_event row)) (ev_envelope (row_event row)) (ev_envelope_digest (row_event row))
       (Z.to_N (lane_attempts x.2 + 1)) (mk_ClaimToken (mint x.1)) expires)
    <$> ob_records db !! x.1.

Lemma sorted_chosen now consumer locked limit db :
  StronglySorted (fun a b => lane_leb a b = true) (chosen_lanes now consumer locked limit db).
Proof.
  unfold chosen_lanes. generalize (N.to_nat limit) (claimable_sorted now consumer locked db).
  induction (claimable now consumer locked db) as [|x l IH]; intros [|n] Hs; cbn; try constructor.
  - inversion Hs; subst. by apply IH.
  - inversion Hs; subst. by apply Forall_take.
Qed.

(** Leasing adds one attempt to each lane, which keeps their order. *)
Lemma sort_leased now consumer locked limit db publisher expires mint :
  let lease '(t, lane) := (t, leased_lane publisher expires (mint t) lane) in
  sort_by lane_leb (lease <$> chosen_lanes now consumer locked limit db)
  = lease <$> chosen_lanes now consumer locked limit db.
Proof.
  intros lease.
  assert (forall a b, lane_leb (lease a) (lease b) = lane_leb a b) as Hl.
  { intros [ta a] [tb b]. apply eq_true_iff_eq. rewrite !lane_leb_true. cbn. lia. }
  eapply StronglySorted_unique_strong;
    [|apply sort_by_StronglySorted; [exact lane_leb_total|exact lane_leb_trans]
     | |apply sort_by_Permutation].
  - intros x1 x2 Hx1%sort_by_elem_of Hx2.
    apply list_elem_of_fmap in Hx1 as ([t1 l1] & -> & Hc1%elem_of_chosen).
    apply list_elem_of_fmap in Hx2 as ([t2 l2] & -> & Hc2%elem_of_chosen).
    rewrite !Hl, !lane_leb_true. cbn. intros L1 L2. assert (t1 = t2) as <- by lia. naive_solver.
  - pose proof (sorted_chosen now consumer locked limit db) as Hs.
    induction Hs as [|x l Hs IH Hx]; cbn; constructor; [done|].
    apply Forall_fmap, list.Forall_forall. intros y Hy. cbn. rewrite Hl.
    by apply (proj1 (list.Forall_forall _ _) Hx).
Qed.

(** A claim of well-formed tables is its choice, leased and handed over in
    order; it fails only on a short lease or on a lane out of attempts. *)
Lemma claim_eq now locked mint consumer publisher limit lease db :
  tables_ok db ->
  (MIN_CLAIM_LEASE <= lease)%Z ->
  let c := ConsumerName.as_str consumer in
  let chosen := chosen_lanes now c locked limit db in
  let expires := (now + make_interval lease)%Z in
  claim now locked mint consumer publisher limit lease db
  = if existsb (fun '(_, lane) => I32_MAX <? lane_attempts lane + 1)%Z chosen
    then Err (PgError.map_err NumericValueOutOfRange)
    else Ok (refresh_backlog_estimate now (leased_lanes mint c publisher expires chosen.*1 db),
             omap (delivery mint expires db) chosen).
Proof.
  intros W Hlease c chosen expires. unfold claim. rewrite (proj2 (Z.ltb_ge _ _) Hlease).
  fold c. fold expires. fold (chosen_lanes now c locked limit db). fold chosen.
  destruct (existsb _ chosen) eqn:Hmax; [done|]. cbn [pg_ok map_err].
  unfold chosen. rewrite sort_leased. fold chosen.
  assert (forall t lane, (t, lane) ∈ chosen -> lane_ok lane) as Hok.
  { intros t lane [Hl _]%elem_of_chosen. by eapply W. }
  erewrite (collect_omap _ _ (delivery mint expires db)); [done|].
  intros [t lane] Hin. cbn. unfold delivery. cbn.
  destruct (ob_records db !! t) as [row|] eqn:Er; [|done]. cbn.
  destruct (ok_record _ W t row Er) as (Hd & Hv & Ho & _). rewrite bool_decide_true by done.
  unfold claimed_from_row. rewrite Hd. cbn [Nat.eqb negb].
  destruct (Hok t lane Hin) as [Ha _].
  rewrite (proj2 (Z.ltb_ge _ 0)) by lia. rewrite (proj2 (Z.ltb_ge _ 0)) by lia. done.
Qed.

Lemma claim_short now locked mint consumer publisher limit lease db r :
  claim now locked mint consumer publisher limit lease db = Ok r -> (MIN_CLAIM_LEASE <= lease)%Z.
Proof. unfold claim. destruct (lease <? MIN_CLAIM_LEASE)%Z eqn:E; [done|]. intros _. lia. Qed.

End claims.

(** ** Every operation keeps the invariant *)

Section preservation.
Context `{PgText} `{PgInterval} `{UuidText}.

Lemma wf_refresh now db : outbox_wf db -> outbox_wf (refresh_backlog_estimate now db).
Proof.
  intros [W S]. unfold refresh_backlog_estimate. case_match; [|done].
  split; [split; try apply W|exact S]. cbn. lia.
Qed.

Lemma wf_claim now locked mint consumer publisher limit lease db db' handed :
  outbox_wf db ->
  claim now locked mint consumer publisher limit lease db = Ok (db', handed) -> outbox_wf db'.
Proof.
  intros W Hc. pose proof (claim_short _ _ _ _ _ _ _ _ _ Hc) as Hlease.
  rewrite claim_eq in Hc by (done || apply W). destruct (existsb _ _) eqn:Hmax; [done|].
  injection Hc as <- _. apply wf_refresh, wf_update_lanes; [done|].
  intros t lane lane' Hl Hf. destruct (slice_contains _ _) eqn:Hin; [|done]. injection Hf as <-.
  apply slice_contains_true, elem_of_chosen_fst in Hin as (lane0 & Hl0 & Hdue & Hin).
  rewrite Hl in Hl0. injection Hl0 as <-. destruct (ok_lane _ (proj1 W) _ _ _ Hl) as [[Ha Hst] _].
  rewrite <-not_true_iff_false, existsb_exists in Hmax.
  assert (lane_attempts lane + 1 <= I32_MAX)%Z as Hmax'.
  { destruct (Z.le_gt_cases (lane_attempts lane + 1) I32_MAX) as [|Hgt]; [done|]. destruct Hmax.
    exists (t, lane). split; [by apply list_elem_of_In|]. by apply Z.ltb_lt. }
  unfold leased_lane, lane_ok, lane_due in *. destruct (lane_state lane) eqn:Est;
    [| |done]; cbn in *; destruct Hst as (? & ? & ? & ?); repeat split; (lia || done || by eexists).
Qed.

Lemma wf_renew now consumer id claim lease db db' held :
  outbox_wf db -> renew_claim now consumer id claim lease db = Ok (db', held) -> outbox_wf db'.
Proof.
  intros W. unfold renew_claim. case_match; [done|]. injection 1 as <- _.
  apply wf_update_lanes; [done|]. intros t lane lane' Hl Hf. case_match eqn:Hr; [|done]. injection Hf as <-.
  destruct (ok_lane _ (proj1 W) _ _ _ Hl) as [[Ha Hst] _]. bools.
  unfold lane_claimed in *. bools. unfold lane_ok. cbn.
  destruct (lane_state lane); naive_solver.
Qed.

Lemma wf_release consumer id claim db db' outcome :
  outbox_wf db -> release consumer id claim db = Ok (db', outcome) -> outbox_wf db'.
Proof.
  intros W. unfold release. injection 1 as <- _.
  apply wf_update_lanes; [done|]. intros t lane lane' Hl Hf. case_match eqn:Hr; [|done]. injection Hf as <-.
  destruct (ok_lane _ (proj1 W) _ _ _ Hl) as [[Ha Hst] _]. bools. unfold lane_claimed in *. bools.
  unfold lane_ok. cbn. destruct (lane_state lane); naive_solver.
Qed.

Lemma wf_mark now consumer claims db db' outcomes :
  outbox_wf db -> mark_published_batch now consumer claims db = Ok (db', outcomes) -> outbox_wf db'.
Proof.
  intros [W S]. rewrite mark_published_batch_eq. injection 1 as <- _.
  set (c := ConsumerName.as_str consumer). apply wf_settle.
  - split; try apply W. cbn. intros t c' lane. rewrite lookup_update_lanes.
    intros (lane0 & Hl & ->)%fmap_Some. destruct (ok_lane _ W _ _ _ Hl) as [[Ha Hst] Hrest].
    split; [|done]. case_bool_decide; [|by split]. destruct (marks now claims db t lane0); cbn; [|by split].
    split; [done|]. cbn. by eauto.
  - intros t row Hr. rewrite !all_delivered_true. cbn. setoid_rewrite lookup_update_lanes. split.
    + intros Hp c' lane (lane0 & Hl & ->)%fmap_Some.
      assert (lane_state lane0 = LanePublished).
      { apply (S t row Hr) in Hp. rewrite all_delivered_true in Hp. by eapply Hp. }
      case_bool_decide; [|done]. by case_match.
    + intros Hnot Hall. apply (S t row Hr), all_delivered_true. intros c' lane Hl.
      specialize (Hall c'). rewrite Hl in Hall. cbn in Hall. specialize (Hall _ eq_refl).
      case_bool_decide as Hc; [|done]. subst c'. destruct (marks now claims db t lane) eqn:Hm; [|done].
      destruct Hnot. apply elem_of_lanes_where. eauto.
Qed.

Lemma wf_register consumer db db' :
  ConsumerName.new (ConsumerName.as_str consumer) = Ok consumer ->
  outbox_wf db -> register consumer db = Ok db' -> outbox_wf db'.
Proof.
  intros Hn [W S]. unfold register. case_bool_decide; injection 1 as <-; [done|].
  split; [split; try apply W|exact S]; cbn.
  - intros t c lane Hl. destruct (ok_lane _ W _ _ _ Hl) as (? & ? & ?). set_solver.
  - intros c [->%elem_of_singleton|Hc]%elem_of_union; [|by apply W]. rewrite Hn. by destruct consumer.
Qed.

Lemma wf_retire now consumer db db' outcome :
  outbox_wf db -> retire now consumer db = Ok (db', outcome) -> outbox_wf db'.
Proof.
  intros [W S]. unfold retire. case_match; injection 1 as <- _; [done|].
  set (c := ConsumerName.as_str consumer) in *. apply wf_settle.
  - split; try apply W; cbn.
    + intros t c' lane [Hl Hne]%map_lookup_filter_Some. cbn in Hne.
      destruct (ok_lane _ W _ _ _ Hl) as (? & ? & ?). set_solver.
    + intros c' Hc'. apply W. set_solver.
  - intros t row Hr. rewrite !all_delivered_true. cbn. setoid_rewrite map_lookup_filter_Some. cbn. split.
    + intros Hp c' lane [Hl _]. apply (S t row Hr) in Hp. rewrite all_delivered_true in Hp. eauto.
    + intros Hnot Hall. apply (S t row Hr), all_delivered_true. intros c' lane Hl.
      destruct (decide (c' = c)) as [->|Hne]; [|by eapply Hall].
      destruct (decide (lane_state lane = LanePublished)) as [|Hst]; [done|]. destruct Hnot.
      apply elem_of_lanes_where. exists lane. by rewrite bool_decide_true.
Qed.

End preservation.

Lemma lookup_new_lanes (t : Uuid) (consumers : gset rstring) (t' : Uuid) (c : rstring) lane :
  (set_to_map (fun name => ((t, name), new_lane)) consumers : gmap (Uuid * rstring) LaneRow) !! (t', c)
  = Some lane <-> t' = t /\ c ∈ consumers /\ lane = new_lane.
Proof.
  rewrite lookup_set_to_map by naive_solver. split; [naive_solver|].
  intros (-> & Hc & ->). eauto.
Qed.

Lemma lookup_delete_record ts db t :
  ob_records (delete_records ts db) !! t = if decide (t ∈ ts) then None else ob_records db !! t.
Proof.
  cbn. case_decide as Ht; [by apply map_lookup_filter_None; naive_solver|].
  destruct (ob_records db !! t) eqn:E; [by apply map_lookup_filter_Some|].
  apply map_lookup_filter_None. by left.
Qed.

Lemma lookup_delete_lane ts db t c :
  ob_lanes (delete_records ts db) !! (t, c) = if decide (t ∈ ts) then None else ob_lanes db !! (t, c).
Proof.
  cbn. case_decide as Ht; [by apply map_lookup_filter_None; right; intros ? _; cbn; tauto|].
  destruct (ob_lanes db !! (t, c)) eqn:E; [by apply map_lookup_filter_Some|].
  apply map_lookup_filter_None. by left.
Qed.

Lemma wf_delete_records ts db :
  tables_ok db ->
  (forall t row, t ∉ ts -> ob_records db !! t = Some row ->
     row_state row = RecordPublished <-> all_delivered t db = true) ->
  outbox_wf (delete_records ts db).
Proof.
  intros W S. split; [split; try apply W|].
  - intros t c lane. rewrite lookup_delete_lane, lookup_delete_record. case_decide; [done|]. apply W.
  - intros t row. rewrite lookup_delete_record. case_decide; [done|]. apply (ok_record _ W).
  - intros t row. rewrite lookup_delete_record. case_decide as Ht; [done|]. intros Hr.
    rewrite (S t row Ht Hr), !all_delivered_true.
    split; intros Hall c lane El; apply (Hall c lane); revert El; by rewrite lookup_delete_lane, decide_False.
Qed.

Section removals.
Context `{PgText} `{PgInterval} `{UuidText}.

Lemma wf_prune now scan older_than limit db db' n :
  outbox_wf db -> prune_published now scan older_than limit db = Ok (db', n) -> outbox_wf db'.
Proof.
  intros [W S]. unfold prune_published. injection 1 as <- _. apply wf_delete_records; [done|].
  intros t row _. apply S.
Qed.

Lemma lookup_cancelled t db t' c :
  filter (fun '(k, lane) => ~ (k.1 = t /\ lane_state lane <> LanePublished)) (ob_lanes db) !! (t', c)
  = let* lane := ob_lanes db !! (t', c) in
    if decide (t' = t /\ lane_state lane <> LanePublished) then None else Some lane.
Proof.
  destruct (ob_lanes db !! (t', c)) as [lane|] eqn:E.
  - case_decide; [apply map_lookup_filter_None; right|by apply map_lookup_filter_Some].
    intros lane'. rewrite E. intros [= <-]. cbn. tauto.
  - apply map_lookup_filter_None. by left.
Qed.

Lemma wf_forget now t db : outbox_wf db -> outbox_wf (cancel_undelivered_for_forget now t db).
Proof.
  intros [W S]. unfold cancel_undelivered_for_forget.
  destruct (ob_records db !! t) as [row0|] eqn:Er; [|done].
  set (db1 := with_lanes _ db).
  assert (tables_ok db1) as W1.
  { split; try apply W. cbn. intros t' c lane. rewrite lookup_cancelled.
    destruct (ob_lanes db !! (t', c)) eqn:El; [|done]. case_decide; [done|]. intros [= <-]. by apply W in El. }
  assert (forall t' row, t' <> t -> ob_records db !! t' = Some row ->
            row_state row = RecordPublished <-> all_delivered t' db1 = true) as Sother.
  { intros t' row Hne Hr. rewrite (S t' row Hr), !all_delivered_true. cbn. setoid_rewrite lookup_cancelled.
    split; intros Hall c lane; specialize (Hall c);
      destruct (ob_lanes db !! (t', c)); try done; rewrite decide_False in * by naive_solver; by apply Hall. }
  case_bool_decide as Hex.
  - apply wf_settle; [done|]. intros t' row Hr. split.
    + intros Hp. apply (S t' row Hr) in Hp. rewrite all_delivered_true in *. cbn. intros c lane.
      rewrite lookup_cancelled. destruct (ob_lanes db !! (t', c)) eqn:El; [|done]. case_decide; [done|].
      intros [= <-]. eauto.
    + intros Hne. apply Sother; [|done]. set_solver.
  - apply wf_delete_records; [done|]. intros t' row Hne. apply Sother. set_solver.
Qed.

Lemma wf_erase t db : outbox_wf db -> outbox_wf (erase_publication t db).
Proof.
  intros [W S]. apply wf_delete_records; [by split; apply W|]. intros t' row _. apply S.
Qed.

Lemma wf_revoke selected owner source db :
  outbox_wf db -> outbox_wf (revoke_original_publications selected owner source db).1.
Proof.
  intros [W S]. set (ts := selected_origin_ts selected owner source db).
  destruct (wf_delete_records ts db W (fun t row _ => S t row)) as [W1 S1]. by split; [split; apply W1|].
Qed.

Lemma wf_erase_counter handle db : outbox_wf db -> outbox_wf (erase_series_counter handle db).
Proof.
  intros [W S]. split; [split; try apply W|exact S]. cbn. intros h c [_ Hc]%lookup_delete_Some. by apply (ok_counter _ W h).
Qed.

Lemma wf_next_position handle db db' position :
  outbox_wf db -> next_series_position handle db = Ok (db', position) -> outbox_wf db'.
Proof.
  intros [W S]. unfold next_series_position. intros Hn. destruct (ob_heads db !! handle) as [owner|]; [|done].
  destruct (pg_ok _) as [row|] eqn:Ep; [|done]. rewrite pg_ok_Ok in Ep.
  destruct (counter_sequence row <=? 0)%Z eqn:Hpos; [done|]. injection Hn as <- _.
  split; [split; try apply W|exact S]. cbn. intros h c [[<- <-]|[Hne Hc]]%lookup_insert_Some; [|by apply (ok_counter _ W h)].
  destruct (ob_counters db !! handle) as [c|] eqn:Ec; [|injection Ep as <-; unfold I64_MAX; cbn; lia].
  destruct (I64_MAX <? _)%Z eqn:Hm; [done|]. injection Ep as <-. cbn in *. lia.
Qed.

End removals.

(** ** What a capture writes *)

Section captures.
Context `{PgText} `{PgInterval} `{UuidText}.
Context {OffsetDateTime : Type} (rfc3339 : OffsetDateTime -> result rstring rstring)
  (to_vec : list (rstring * Json) -> result (list N) rstring) (hash : list N -> list N).

Abbreviation capture := (capture_publication_in_tx rfc3339 to_vec hash).
Abbreviation seal := (SealedPublication.seal rfc3339 to_vec hash).

(** The record of a sealed event. *)
Definition captured_event (now : Timestamp) (owner_id : Uuid) (sealed : SealedPublication) : CapturedEvent :=
  mk_CapturedEvent owner_id (SchemaId_0 (sealed_schema_id sealed))
    (Z.of_N (SchemaVersion_0 (sealed_schema_version sealed))) (sealed_event_type sealed)
    (sealed_event_id sealed) (sealed_bytes sealed) (sealed_digest sealed) now.

Record capture_effect (now : Timestamp) (owner_id t : Uuid) (at_ : OffsetDateTime) (plan : PublicationPlan)
    (position : SubjectPosition) (db db' : OutboxDb) : Prop := {
  ce_room : refuse_when_full now (plan_limits plan) db = Ok tt;
  ce_sealed : exists sealed, seal plan t at_ position = Ok sealed
    /\ (Z.of_N (SchemaVersion_0 (sealed_schema_version sealed)) <= I32_MAX)%Z
    /\ length (sealed_digest sealed) = 32
    /\ ob_records db'
       = <[t := if bool_decide (ob_consumers db = ∅)
                then mk_OutboxRow (captured_event now owner_id sealed) RecordPublished (Some now)
                else mk_OutboxRow (captured_event now owner_id sealed) RecordPending None]> (ob_records db);
  ce_new : ob_records db !! t = None;
  ce_owner : owner_id ∈ ob_owners db;
  ce_lanes : ob_lanes db' = set_to_map (fun name => ((t, name), new_lane)) (ob_consumers db) ∪ ob_lanes db;
  ce_origin : exists source, ob_facts db !! t = Some (mk_FactRow owner_id source)
    /\ ob_origins db !! t = None /\ ob_origins db' = <[t := mk_OriginRow owner_id source]> (ob_origins db);
  ce_rest : ob_consumers db' = ob_consumers db /\ ob_counters db' = ob_counters db
    /\ ob_backlog db' = ob_backlog db /\ ob_owners db' = ob_owners db /\ ob_heads db' = ob_heads db
    /\ ob_facts db' = ob_facts db /\ ob_erased db' = ob_erased db;
}.

Lemma insert_outbox_Ok t event db db' :
  insert_outbox t event db = Ok db' ->
  length (ev_envelope_digest event) = 32 /\ ob_records db !! t = None /\ ev_owner_id event ∈ ob_owners db
  /\ db' = with_records <[t := mk_OutboxRow event RecordPending None]> db.
Proof.
  unfold insert_outbox. destruct (length _ =? 32)%nat eqn:Hd; cbn [negb]; [|done].
  destruct (ob_records db !! t); [done|]. cbn [is_some orb]. case_bool_decide; [done|].
  case_bool_decide; [|done]. cbn. intros [= <-]. by apply Nat.eqb_eq in Hd.
Qed.

Lemma insert_lanes_Ok t db db' n :
  insert_lanes t db = Ok (db', n) ->
  db' = with_lanes (fun lanes => set_to_map (fun name => ((t, name), new_lane)) (ob_consumers db) ∪ lanes) db
  /\ n = size (ob_consumers db).
Proof. unfold insert_lanes. case_match; [done|]. by intros [= <- <-]. Qed.

Lemma captured_source_Some t owner_id db source :
  captured_source t owner_id db = Some source -> ob_facts db !! t = Some (mk_FactRow owner_id source).
Proof.
  unfold captured_source. destruct (ob_facts db !! t) as [[o src]|]; [|done]. cbn.
  destruct (o =? owner_id)%N eqn:Ho; [|done]. case_bool_decide; [|done]. intros [= <-]. bools. by subst.
Qed.

Lemma insert_origin_Ok t origin db db' :
  insert_origin t origin db = Ok db' ->
  ob_origins db !! t = None /\ db' = with_origins <[t := origin]> db.
Proof.
  unfold insert_origin. destruct (ob_origins db !! t); [done|]. cbn [is_some]. case_match; [done|].
  by intros [= <-].
Qed.

Lemma seal_id plan t at_ position sealed : seal plan t at_ position = Ok sealed -> sealed_id sealed = t.
Proof. unfold SealedPublication.seal. intros Hs. run_ok. done. Qed.

Lemma seal_event_id plan t at_ position sealed :
  seal plan t at_ position = Ok sealed -> sealed_event_id sealed = hyphenated t.
Proof. unfold SealedPublication.seal. intros Hs. run_ok. done. Qed.

Lemma capture_spec now owner_id t occurred_at plan position db db' :
  capture now owner_id t occurred_at plan position db = Ok db' ->
  exists at_, occurred_at = Some at_ /\ capture_effect now owner_id t at_ plan position db db'.
Proof.
  unfold capture_publication_in_tx. intros Hc.
  destruct occurred_at as [at_|]; [|done]. cbn [ok_or] in Hc. exists at_. split; [done|].
  destruct (refuse_when_full _ _ _) as [[]|] eqn:Hroom; [|done].
  destruct (seal plan t at_ position) as [sealed|] eqn:Hs; [|done]. cbn [map_err] in Hc.
  destruct (I32_MAX <? _)%Z eqn:Hv; [done|]. rewrite (seal_id _ _ _ _ _ Hs) in Hc.
  destruct (pg_ok (insert_outbox _ _ _)) as [db1|] eqn:E1; [|done].
  destruct (pg_ok (insert_lanes _ _)) as [[db2 n]|] eqn:E2; [|done].
  destruct (ok_or _ _) as [source|] eqn:E3; [|done].
  apply pg_ok_Ok in E1, E2, Hc. apply insert_outbox_Ok in E1 as (Hd & Hnew & Ho & ->).
  apply insert_lanes_Ok in E2 as [-> ->]. rewrite ok_or_Ok in E3. apply captured_source_Some in E3.
  apply insert_origin_Ok in Hc as [Hor ->]. cbn [ob_consumers with_records] in *.
  assert ((size (ob_consumers db) =? 0)%nat = bool_decide (ob_consumers db = ∅)) as Hn.
  { apply eq_true_iff_eq. rewrite Nat.eqb_eq, bool_decide_eq_true, size_empty_iff. by fold_leibniz. }
  rewrite Hn in *. clear Hn. case_bool_decide as Hempty; split; try done; cbn in *; eauto.
  - exists sealed. split_and!; [done|lia|done|]. by rewrite alter_insert_eq, bool_decide_true.
  - exists sealed. split_and!; [done|lia|done|]. by rewrite bool_decide_false.
Qed.

Lemma lookup_captured_lane now owner_id t at_ plan position db db' t' c lane :
  capture_effect now owner_id t at_ plan position db db' -> tables_ok db ->
  ob_lanes db' !! (t', c) = Some lane
  <-> (t' = t /\ c ∈ ob_consumers db /\ lane = new_lane) \/ (t' <> t /\ ob_lanes db !! (t', c) = Some lane).
Proof.
  intros C W. rewrite (ce_lanes _ _ _ _ _ _ _ _ C), lookup_union_Some_raw, lookup_new_lanes.
  assert (forall c', ob_lanes db !! (t, c') = None) as Hnone.
  { intros c'. destruct (ob_lanes db !! (t, c')) as [lane'|] eqn:E; [|done].
    destruct (ok_lane _ W _ _ _ E) as (_ & [row Hr] & _). by rewrite (ce_new _ _ _ _ _ _ _ _ C) in Hr. }
  split; intros [Hl|[Hn Hl]]; auto.
  - right. split; [intros ->; by rewrite Hnone in Hl|done].
  - right. split; [|done]. apply eq_None_not_Some. intros [lane' Hl']. by apply lookup_new_lanes in Hl' as [? _].
Qed.

Lemma wf_capture now owner_id t at_ plan position db db' :
  capture_effect now owner_id t at_ plan position db db' -> outbox_wf db -> outbox_wf db'.
Proof.
  intros C [W S]. pose proof (fun t' c lane => lookup_captured_lane _ _ _ _ _ _ _ _ t' c lane C W) as Hlane.
  destruct (ce_sealed _ _ _ _ _ _ _ _ C) as (sealed & Hs & Hv & Hd & Hrec).
  destruct (ce_rest _ _ _ _ _ _ _ _ C) as (Ec & Ect & Eb & Eo & _). split; [split|].
  - intros t' c lane. rewrite Hlane, Hrec, Ec, lookup_insert_is_Some'.
    intros [(-> & Hc & ->)|[Hne Hl]].
    + split; [|by auto]. split; [unfold I32_MAX; cbn; lia|done].
    + destruct (ok_lane _ W _ _ _ Hl) as (? & ? & ?). auto.
  - intros t' row. rewrite Hrec, lookup_insert_Some. unfold record_ok. rewrite Eo.
    intros [[<- <-]|[_ Hr]]; [|by apply W in Hr]. pose proof (ce_owner _ _ _ _ _ _ _ _ C).
    case_bool_decide; cbn; split_and!; (done || lia || by split; [eauto|intros []]).
  - rewrite Ec. apply W.
  - rewrite Ect. apply W.
  - rewrite Eb. apply W.
  - intros t' row. rewrite Hrec, lookup_insert_Some, all_delivered_true.
    setoid_rewrite Hlane. intros [[<- <-]|[Hne Hr]].
    + case_bool_decide as He; cbn; [split; [set_solver|done]|]. split; [done|]. intros Hall.
      apply set_choose_L in He as [c Hc]. discriminate (Hall c new_lane ltac:(auto)).
    + rewrite (S t' row Hr), all_delivered_true. naive_solver.
Qed.

End captures.

(** ** A batch of marks is its marks, one by one *)

Section batches.
Context (now : Timestamp) (consumer : ConsumerName).
Abbreviation c := (ConsumerName.as_str consumer).

Lemma db_ext db db' :
  ob_records db = ob_records db' -> ob_lanes db = ob_lanes db' ->
  (ob_consumers db, ob_origins db, ob_counters db, ob_backlog db, ob_owners db, ob_heads db, ob_facts db, ob_erased db)
  = (ob_consumers db', ob_origins db', ob_counters db', ob_backlog db', ob_owners db', ob_heads db', ob_facts db',
     ob_erased db') ->
  db = db'.
Proof. destruct db, db'. cbn. congruence. Qed.

Definition batch_db (claims : list (Uuid * ClaimToken)) (db : OutboxDb) : OutboxDb :=
  settle_records now (lanes_where c (marks now claims db) db) (marked_lanes now c claims db).

Lemma batch_event claims db t :
  row_event <$> ob_records (batch_db claims db) !! t = row_event <$> ob_records db !! t.
Proof.
  unfold batch_db. rewrite lookup_settle. cbn. destruct (ob_records db !! t); [|done]. cbn. by case_match.
Qed.

Lemma batch_deliverable claims db t : deliverable (batch_db claims db) t = deliverable db t.
Proof.
  pose proof (batch_event claims db t) as E. unfold deliverable.
  destruct (ob_records db !! t), (ob_records (batch_db claims db) !! t); try done. cbn in E. injection E as E.
  by rewrite <-E.
Qed.

Lemma asked_other id claim rest t lane : t <> id -> asked ((id, claim) :: rest) t lane = asked rest t lane.
Proof. intros Hne. unfold asked. cbn. by rewrite (proj2 (N.eqb_neq id t)). Qed.

Lemma asked_absent rest t lane : t ∉ rest.*1 -> asked rest t lane = false.
Proof.
  intros Hnot. unfold asked. apply not_true_iff_false. rewrite existsb_exists. intros ([id claim] & Hin & E).
  bools. subst id. apply Hnot. apply list_elem_of_fmap. exists (t, claim). split; [done|by apply list_elem_of_In].
Qed.

Lemma asked_own id claim rest lane :
  id ∉ rest.*1 -> asked ((id, claim) :: rest) id lane = asked [(id, claim)] id lane.
Proof. intros Hnot. pose proof (asked_absent rest id lane Hnot) as E. unfold asked in *. cbn. by rewrite E, orb_false_r. Qed.

Lemma batch_lane claims db t c' :
  ob_lanes (batch_db claims db) !! (t, c')
  = (fun lane => if bool_decide (c' = c) && marks now claims db t lane then published_lane now lane else lane)
      <$> ob_lanes db !! (t, c').
Proof.
  unfold batch_db. cbn. rewrite lookup_update_lanes. destruct (ob_lanes db !! (t, c')) as [lane|]; [|done]. cbn.
  case_bool_decide; cbn; by destruct (marks now claims db t lane).
Qed.

(** Marks of [rest] do not see what the first mark did. *)
Lemma batch_marks id claim rest db t lane :
  t <> id -> marks now ((id, claim) :: rest) db t lane = marks now rest (batch_db [(id, claim)] db) t lane.
Proof. intros Hne. unfold marks. by rewrite asked_other, batch_deliverable. Qed.

Lemma all_delivered_ext t db db' :
  (forall c', ob_lanes db' !! (t, c') = ob_lanes db !! (t, c')) -> all_delivered t db' = all_delivered t db.
Proof. intros E. apply eq_true_iff_eq. rewrite !all_delivered_true. by setoid_rewrite E. Qed.

Lemma batch_cons_lane id claim rest db t c' :
  id ∉ rest.*1 ->
  ob_lanes (batch_db ((id, claim) :: rest) db) !! (t, c')
  = ob_lanes (batch_db rest (batch_db [(id, claim)] db)) !! (t, c').
Proof.
  intros Hnot. rewrite !batch_lane. destruct (ob_lanes db !! (t, c')) as [lane|]; [|done]. cbn.
  case_bool_decide; [|done]. cbn. f_equal. destruct (decide (t = id)) as [->|Hne].
  - assert (marks now ((id, claim) :: rest) db id lane = marks now [(id, claim)] db id lane) as ->
      by (unfold marks; by rewrite asked_own).
    assert (forall lane', marks now rest (batch_db [(id, claim)] db) id lane' = false) as Hno
      by (intros lane'; unfold marks; by rewrite asked_absent).
    by rewrite Hno.
  - assert (marks now [(id, claim)] db t lane = false) as ->
      by (unfold marks; rewrite asked_absent; [done|cbn; set_solver]).
    by rewrite (batch_marks id claim rest db t lane Hne).
Qed.

Definition batch_hits (claims : list (Uuid * ClaimToken)) (db : OutboxDb) (t : Uuid) : bool :=
  match ob_lanes db !! (t, c) with Some lane => marks now claims db t lane | None => false end.

Lemma batch_record claims db t :
  ob_records (batch_db claims db) !! t
  = (fun row => if batch_hits claims db t && bool_decide (row_state row <> RecordPublished)
                   && all_delivered t (batch_db claims db)
                then mk_OutboxRow (row_event row) RecordPublished (Some now) else row)
      <$> ob_records db !! t.
Proof. unfold batch_db at 1. rewrite lookup_settle, lanes_where_contains. done. Qed.

Lemma batch_hits_own id claim rest db :
  id ∉ rest.*1 -> batch_hits ((id, claim) :: rest) db id = batch_hits [(id, claim)] db id.
Proof. intros Hnot. unfold batch_hits, marks. destruct (ob_lanes db !! (id, c)); [|done]. by rewrite asked_own. Qed.

Lemma batch_hits_other id claim rest db t :
  t <> id ->
  batch_hits ((id, claim) :: rest) db t = batch_hits rest (batch_db [(id, claim)] db) t
  /\ batch_hits [(id, claim)] db t = false.
Proof.
  intros Hne. unfold batch_hits. rewrite batch_lane. destruct (ob_lanes db !! (t, c)) as [lane|]; [|done]. cbn.
  assert (marks now [(id, claim)] db t lane = false) as E
    by (unfold marks; rewrite asked_absent; [done|cbn; set_solver]).
  rewrite E, andb_false_r. split; [by apply batch_marks|done].
Qed.

Lemma batch_cons_record id claim rest db t :
  id ∉ rest.*1 ->
  ob_records (batch_db ((id, claim) :: rest) db) !! t
  = ob_records (batch_db rest (batch_db [(id, claim)] db)) !! t.
Proof.
  intros Hnot. rewrite !batch_record. destruct (ob_records db !! t) as [row|]; [|done]. cbn. f_equal.
  rewrite (all_delivered_ext t (batch_db rest (batch_db [(id, claim)] db)) (batch_db ((id, claim) :: rest) db))
    by (intros c'; by apply batch_cons_lane).
  destruct (decide (t = id)) as [->|Hne].
  - rewrite batch_hits_own by done.
    assert (batch_hits rest (batch_db [(id, claim)] db) id = false) as ->.
    { unfold batch_hits, marks. case_match; [by rewrite asked_absent|done]. }
    cbn. by rewrite (all_delivered_ext id (batch_db [(id, claim)] db) (batch_db rest (batch_db [(id, claim)] db)))
      by (intros c'; rewrite batch_lane; unfold marks; destruct (ob_lanes _ !! _) as [lane|]; [cbn|done];
          rewrite asked_absent by done; by rewrite andb_false_r).
  - destruct (batch_hits_other id claim rest db t Hne) as [-> ->]. done.
Qed.

Lemma batch_cons_db id claim rest db :
  id ∉ rest.*1 -> batch_db ((id, claim) :: rest) db = batch_db rest (batch_db [(id, claim)] db).
Proof.
  intros Hnot.
  pose proof (map_eq _ _ (fun t => batch_cons_record id claim rest db t Hnot)) as Er.
  assert (ob_lanes (batch_db ((id, claim) :: rest) db) = ob_lanes (batch_db rest (batch_db [(id, claim)] db))) as El.
  { apply map_eq. intros [t c']. by apply batch_cons_lane. }
  by apply db_ext.
Qed.

End batches.

(** Marking claims one transaction at a time. *)
Fixpoint mark_each (now : Timestamp) (consumer : ConsumerName) (claims : list (Uuid * ClaimToken))
    (db : OutboxDb) : result (OutboxDb * list AckOutcome) StorageError :=
  match claims with
  | [] => Ok (db, [])
  | (id, claim) :: rest =>
      let? (db, outcome) := mark_published now consumer id claim db in
      let? (db, outcomes) := mark_each now consumer rest db in
      Ok (db, outcome :: outcomes)
  end.

(** A batch of marks on distinct records does what its marks do one after
    the other: the same answer for each claim, in order, and the same tables, so
    a stale claim holds back none of the others. *)
Theorem mark_batch_is_its_marks (now : Timestamp) (consumer : ConsumerName)
    (claims : list (Uuid * ClaimToken)) (db : OutboxDb) (Hids : NoDup claims.*1) :
  mark_published_batch now consumer claims db = mark_each now consumer claims db.
Proof.
  revert db. induction claims as [|[id claim] rest IH]; intros db; [done|].
  cbn in Hids. apply list.NoDup_cons in Hids as [Hnot Hids]. cbn [mark_each]. unfold mark_published.
  specialize (IH Hids (batch_db now consumer [(id, claim)] db)).
  rewrite !mark_published_batch_eq in *. fold (batch_db now consumer [(id, claim)] db).
  cbn [fmap list_fmap fst] in *. rewrite <-IH. fold (batch_db now consumer ((id, claim) :: rest) db).
  rewrite batch_cons_db by done. do 3 f_equal.
  - unfold ack_of, marks. case_match; [|done]. by rewrite asked_own.
  - apply list_fmap_ext. intros i t Ht. assert (t <> id) as Hne.
    { intros ->. apply Hnot. by eapply list_elem_of_lookup_2. }
    unfold ack_of. rewrite batch_lane.
    destruct (batch_hits_other now consumer id claim rest db t Hne) as [E1 E2]. unfold batch_hits in *.
    rewrite batch_lane in E1. destruct (ob_lanes db !! _) as [lane|] eqn:El; [|done]. cbn in *.
    rewrite E2, andb_false_r in *. by rewrite E1.
Qed.

(** ** The pending ceiling *)

Section ceiling.
Context `{PgText} `{PgInterval} `{UuidText}.
Context {OffsetDateTime : Type} (rfc3339 : OffsetDateTime -> result rstring rstring)
  (to_vec : list (rstring * Json) -> result (list N) rstring) (hash : list N -> list N).

Lemma refuse_when_full_spec now limits db :
  match refuse_when_full now limits db with
  | Ok _ => (pending_records db < max_pending limits)%N
            \/ exists p, fresh_backlog_estimate now db = Some p /\ (0 <= p < Z.of_N (max_pending limits))%Z
  | Err (PublicationRefused (OutboxCapacityExhausted p m)) =>
      p = max_pending limits /\ m = max_pending limits /\ (max_pending limits <= pending_records db)%N
  | Err _ => (I64_MAX < Z.of_N (max_pending limits) - 1)%Z
  end.
Proof.
  unfold refuse_when_full. destruct (is_some_and _ _) eqn:Hest.
  { right. destruct (fresh_backlog_estimate now db) as [p|]; [|done]. cbn in Hest. exists p. split; [done|lia]. }
  destruct (N.eqb_spec (max_pending limits) 0) as [->|Hne]; [split_and!; lia|].
  destruct (I64_MAX <? _)%Z eqn:Hbig; [apply Z.ltb_lt in Hbig; rewrite N2Z.inj_sub in Hbig by lia; done|].
  destruct (N.ltb_spec (max_pending limits - 1) (pending_records db)) as [Hover|Hover]; [split_and!; [done..|lia]|left; lia].
Qed.

Lemma seal_not_capacity plan t at_ position p m :
  SealedPublication.seal rfc3339 to_vec hash plan t at_ position <> Err (OutboxCapacityExhausted p m).
Proof.
  unfold SealedPublication.seal. destruct (rfc3339 at_); cbn; [|done]. destruct (to_vec _); cbn; [|done]. by case_match.
Qed.

Lemma capture_pending now owner_id t at_ plan position db db' :
  capture_effect rfc3339 to_vec hash now owner_id t at_ plan position db db' ->
  (pending_records db' <= pending_records db + 1)%N.
Proof.
  intros C. destruct (ce_sealed _ _ _ _ _ _ _ _ _ _ _ C) as (sealed & _ & _ & _ & Hrec).
  set (row := if bool_decide _ then _ else _) in Hrec. clearbody row.
  unfold pending_records, undelivered_records. rewrite Hrec, map_filter_insert. case_decide.
  - rewrite map_size_insert. case_match; unfold id; lia.
  - assert (size (undelivered_records (with_records (delete t) db)) <= size (undelivered_records db)) as Hle
      by apply map_subseteq_size, map_filter_subseteq_mono, delete_subseteq.
    unfold undelivered_records in Hle. cbn in Hle. lia.
Qed.

(** The pending ceiling: an admitted capture adds at most one undelivered
    record, and leaves at most [max_pending] of them unless it was admitted on a
    fresh estimate below the ceiling; a refusal for capacity is never decided by
    an estimate: at least [max_pending] records are then undelivered. *)
Theorem capture_honours_ceiling (now : Timestamp) (owner_id t : Uuid) (occurred_at : option OffsetDateTime)
    (plan : PublicationPlan) (position : SubjectPosition) (db : OutboxDb) :
  let max := max_pending (plan_limits plan) in
  match capture_publication_in_tx rfc3339 to_vec hash now owner_id t occurred_at plan position db with
  | Ok db' =>
      (pending_records db' <= pending_records db + 1)%N
      /\ ((pending_records db' <= max)%N
          \/ exists p, fresh_backlog_estimate now db = Some p /\ (0 <= p < Z.of_N max)%Z)
  | Err (PublicationRefused (OutboxCapacityExhausted p m)) =>
      p = max /\ m = max /\ (max <= pending_records db)%N
  | Err _ => True
  end.
Proof.
  intros max. pose proof (refuse_when_full_spec now (plan_limits plan) db) as Hfull.
  destruct (capture_publication_in_tx _ _ _ _ _ _ _ _ _ _) as [db'|e] eqn:Hc.
  - apply capture_spec in Hc as (at_ & _ & C). rewrite (ce_room _ _ _ _ _ _ _ _ _ _ _ C) in Hfull.
    pose proof (capture_pending _ _ _ _ _ _ _ _ C). split; [done|]. destruct Hfull as [Hlt|]; [left; fold max in Hlt; lia|by right].
  - unfold capture_publication_in_tx in Hc. destruct occurred_at as [at_|]; [|by injection Hc as <-]. cbn [ok_or] in Hc.
    destruct (refuse_when_full _ _ _) as [[]|e0] eqn:Er; [|injection Hc as ->; by destruct e as [| | | | | | | | | | | |[]| | | |]].
    destruct (SealedPublication.seal _ _ _ _ _ _ _) as [sealed|pe] eqn:Es; cbn [map_err] in Hc.
    2:{ injection Hc as <-. destruct pe; try done. by apply seal_not_capacity in Es. }
    clear Hfull. destruct (I32_MAX <? _)%Z; [by injection Hc as <-|].
    destruct (pg_ok (insert_outbox _ _ _)) as [db1|] eqn:E1; [|by injection Hc as <-; destruct (insert_outbox _ _ _) as [|[]]; cbn in E1; try done; injection E1 as <-].
    destruct (pg_ok (insert_lanes _ _)) as [[db2 n]|] eqn:E2; [|by injection Hc as <-; destruct (insert_lanes _ _) as [|[]]; cbn in E2; try done; injection E2 as <-].
    destruct (captured_source _ _ _); cbn [ok_or] in Hc; [|by injection Hc as <-].
    destruct (insert_origin _ _ _) as [|[]]; cbn in Hc; try done; by injection Hc as <-.
Qed.

End ceiling.
