(* ===== verification/OutboxDelivery.v ===== *)
(** * Delivery through the outbox

    Runs of the transactions of [Outbox] against one database: publishers
    claiming, renewing, marking and releasing, writers capturing, operators
    registering, retiring and pruning, forgetting and erasure, in any order and
    at any times.  What happens to one consumer's lane is a small state machine
    ([lane_move]); the delivery guarantees are read off it. *)

From S2P Require Import Prelude Ids Decimal Json Publication Errors Outbox.

(** ** Runs *)

(** The tables, and every claim token [uuidv7()] has produced. *)
Record OutboxWorld := mk_OutboxWorld {
  w_db : OutboxDb;
  w_issued : gset Uuid;
}.

Inductive OutboxAct :=
| ActEnvironment
| ActCapture (t : Uuid)
| ActPublish (position : SubjectPosition) (t : Uuid)
| ActClaim (now : Timestamp) (consumer : rstring) (handed : list ClaimedPublication)
| ActMark (now : Timestamp) (consumer : rstring) (claims : list (Uuid * ClaimToken))
    (outcomes : list AckOutcome)
| ActRenew (now : Timestamp) (consumer : rstring) (id : Uuid) (claim : ClaimToken)
| ActRelease (consumer : rstring) (id : Uuid) (claim : ClaimToken)
| ActRegister (consumer : rstring)
| ActRetire (consumer : rstring)
| ActPrune (now : Timestamp)
| ActForget (t : Uuid)
| ActErase (ts : list Uuid)
| ActSeriesErased (handle : Uuid).

(** Writes of other parts of the store: owners appear, series and Facts come
    and go or change owner (their counters with them), erasures are recorded. *)
Definition environment_write (db db' : OutboxDb) : Prop :=
  ob_consumers db' = ob_consumers db /\ ob_records db' = ob_records db /\ ob_lanes db' = ob_lanes db
  /\ ob_origins db' = ob_origins db /\ counter_sequence <$> ob_counters db' = counter_sequence <$> ob_counters db
  /\ ob_backlog db' = ob_backlog db /\ ob_owners db ⊆ ob_owners db' /\ ob_erased db ⊆ ob_erased db'.

Section delivery.
Context `{PgText} `{PgInterval} `{UuidText}.
Context {OffsetDateTime : Type} (rfc3339 : OffsetDateTime -> result rstring rstring)
  (to_vec : list (rstring * Json) -> result (list N) rstring) (hash : list N -> list N).

Abbreviation capture := (capture_publication_in_tx rfc3339 to_vec hash).

Definition handed_tokens (handed : list ClaimedPublication) : gset Uuid :=
  list_to_set ((fun cp => ClaimToken_0 (cp_claim cp)) <$> handed).

Inductive outbox_step (w : OutboxWorld) : OutboxAct -> OutboxWorld -> Prop :=
| st_environment db' :
    environment_write (w_db w) db' ->
    outbox_step w ActEnvironment (mk_OutboxWorld db' (w_issued w))
| st_capture now owner_id t occurred_at plan position db' :
    capture now owner_id t occurred_at plan position (w_db w) = Ok db' ->
    outbox_step w (ActCapture t) (mk_OutboxWorld db' (w_issued w))
| st_publish now owner_id handle t occurred_at plan position db1 db' :
    next_series_position handle (w_db w) = Ok (db1, position) ->
    capture now owner_id t occurred_at plan position db1 = Ok db' ->
    outbox_step w (ActPublish position t) (mk_OutboxWorld db' (w_issued w))
| st_claim now locked mint consumer publisher limit lease db' handed :
    Inj (=) (=) mint ->
    (forall t, mint t ∉ w_issued w) ->
    claim now locked mint consumer publisher limit lease (w_db w) = Ok (db', handed) ->
    outbox_step w (ActClaim now (ConsumerName.as_str consumer) handed)
      (mk_OutboxWorld db' (handed_tokens handed ∪ w_issued w))
| st_mark now consumer claims outcomes db' :
    mark_published_batch now consumer claims (w_db w) = Ok (db', outcomes) ->
    outbox_step w (ActMark now (ConsumerName.as_str consumer) claims outcomes)
      (mk_OutboxWorld db' (w_issued w))
| st_renew now consumer id claim lease held db' :
    renew_claim now consumer id claim lease (w_db w) = Ok (db', held) ->
    outbox_step w (ActRenew now (ConsumerName.as_str consumer) id claim)
      (mk_OutboxWorld db' (w_issued w))
| st_release consumer id claim outcome db' :
    release consumer id claim (w_db w) = Ok (db', outcome) ->
    outbox_step w (ActRelease (ConsumerName.as_str consumer) id claim) (mk_OutboxWorld db' (w_issued w))
| st_register consumer db' :
    ConsumerName.new (ConsumerName.as_str consumer) = Ok consumer ->
    register consumer (w_db w) = Ok db' ->
    outbox_step w (ActRegister (ConsumerName.as_str consumer)) (mk_OutboxWorld db' (w_issued w))
| st_retire now consumer outcome db' :
    retire now consumer (w_db w) = Ok (db', outcome) ->
    outbox_step w (ActRetire (ConsumerName.as_str consumer)) (mk_OutboxWorld db' (w_issued w))
| st_prune now scan older_than limit n db' :
    prune_published now scan older_than limit (w_db w) = Ok (db', n) ->
    outbox_step w (ActPrune now) (mk_OutboxWorld db' (w_issued w))
| st_forget now t :
    outbox_step w (ActForget t) (mk_OutboxWorld (cancel_undelivered_for_forget now t (w_db w)) (w_issued w))
| st_erase t :
    outbox_step w (ActErase [t]) (mk_OutboxWorld (erase_publication t (w_db w)) (w_issued w))
| st_revoke selected owner source :
    outbox_step w (ActErase (selected_origin_ts selected owner source (w_db w)))
      (mk_OutboxWorld (revoke_original_publications selected owner source (w_db w)).1 (w_issued w))
| st_series_erased handle :
    outbox_step w (ActSeriesErased handle)
      (mk_OutboxWorld (erase_series_counter handle (w_db w)) (w_issued w)).

(** A run: its acts, oldest first. *)
Inductive outbox_run (w : OutboxWorld) : list OutboxAct -> OutboxWorld -> Prop :=
| run_nil : outbox_run w [] w
| run_step a w1 acts w' : outbox_step w a w1 -> outbox_run w1 acts w' -> outbox_run w (a :: acts) w'.

Definition installed_world : OutboxWorld := mk_OutboxWorld installed ∅.

(** The tables are in order and hold no token that was not produced. *)
Definition world_ok (w : OutboxWorld) : Prop :=
  outbox_wf (w_db w)
  /\ forall t c lane token, ob_lanes (w_db w) !! (t, c) = Some lane ->
       lane_claim_token lane = Some token -> token ∈ w_issued w.

(** ** The life of one lane *)

(** What an act makes of the lane of [t] for [c]. *)
Inductive lane_move (a : OutboxAct) (t : Uuid) (c : rstring) (lane : LaneRow) : option LaneRow -> Prop :=
| lm_stay : lane_move a t c lane (Some lane)
| lm_claim now handed cp publisher :
    a = ActClaim now c handed -> lane_due now lane = true -> cp ∈ handed -> cp_id cp = t ->
    lane_move a t c lane
      (Some (leased_lane publisher (cp_lease_expires_at cp) (ClaimToken_0 (cp_claim cp)) lane))
| lm_renew now token expires :
    a = ActRenew now c t (mk_ClaimToken token) -> lane_state lane = LaneClaimed ->
    lane_claim_token lane = Some token ->
    lane_move a t c lane
      (Some (mk_LaneRow LaneClaimed (Some token) (lane_claimed_by lane) (Some expires) (lane_attempts lane)
               (lane_published_at lane)))
| lm_release token :
    a = ActRelease c t (mk_ClaimToken token) -> lane_state lane = LaneClaimed ->
    lane_claim_token lane = Some token ->
    lane_move a t c lane (Some (released_lane lane))
| lm_publish now claims outcomes token i :
    a = ActMark now c claims outcomes -> lane_state lane = LaneClaimed ->
    lane_claim_token lane = Some token -> lease_holds now lane = true ->
    claims !! i = Some (t, mk_ClaimToken token) -> outcomes !! i = Some AckPublished ->
    lane_move a t c lane (Some (published_lane now lane))
| lm_retired : a = ActRetire c -> lane_move a t c lane None
| lm_forgotten : a = ActForget t -> lane_state lane <> LanePublished -> lane_move a t c lane None
| lm_erased ts : a = ActErase ts -> t ∈ ts -> lane_move a t c lane None
| lm_pruned now : a = ActPrune now -> lane_state lane = LanePublished -> lane_move a t c lane None.

(** The acts, one by one. *)
Ltac step_cases Hstep :=
  destruct Hstep as
    [db' (Ec & Er & El & Eo & Ect & Eb & Eow & Eer)|now owner_id t' occurred_at plan position db' Hc
    |now owner_id handle t' occurred_at plan position db1 db' Hn Hc
    |now locked mint consumer publisher limit lease db' handed Hinj Hfresh Hc
    |now consumer claims outcomes db' Hm
    |now consumer id claim lease held db' Hr|consumer id claim outcome db' Hr|consumer db' Hname Hr
    |now consumer outcome db' Hr|now scan older_than limit n db' Hp|now t'|t'|selected owner source|handle]; cbn [w_db].

Lemma refresh_lanes now db : ob_lanes (refresh_backlog_estimate now db) = ob_lanes db.
Proof. unfold refresh_backlog_estimate. by case_match. Qed.

Lemma claim_moves now locked mint consumer publisher limit lease db db' handed t c lane :
  tables_ok db ->
  claim now locked mint consumer publisher limit lease db = Ok (db', handed) ->
  ob_lanes db !! (t, c) = Some lane ->
  lane_move (ActClaim now (ConsumerName.as_str consumer) handed) t c lane (ob_lanes db' !! (t, c)).
Proof.
  intros W Hc Hl. pose proof (claim_short _ _ _ _ _ _ _ _ _ Hc) as Hlease.
  rewrite claim_eq in Hc by done. destruct (existsb _ _); [done|]. injection Hc as <- <-.
  rewrite refresh_lanes. unfold leased_lanes. cbn. rewrite lookup_update_lanes, Hl. cbn.
  case_bool_decide as Ec; [|constructor]. destruct (slice_contains t _) eqn:Hin; [|constructor]. cbn.
  apply slice_contains_true, elem_of_chosen_fst in Hin as (lane0 & Hl0 & Hdue & Hin). subst c.
  rewrite Hl in Hl0. injection Hl0 as <-. destruct (ok_lane _ W _ _ _ Hl) as (_ & [row Hr] & _).
  destruct (delivery mint (now + make_interval lease)%Z db (t, lane)) as [cp|] eqn:Hcp;
    [|unfold delivery in Hcp; cbn in Hcp; by rewrite Hr in Hcp].
  assert (cp_id cp = t
          /\ leased_lane publisher (now + make_interval lease) (mint t) lane
             = leased_lane publisher (cp_lease_expires_at cp) (ClaimToken_0 (cp_claim cp)) lane) as [Hid ->].
  { unfold delivery in Hcp. cbn in Hcp. rewrite Hr in Hcp. injection Hcp as <-. done. }
  eapply lm_claim; try done. apply list_elem_of_omap. eauto.
Qed.

Lemma mark_moves now consumer claims db db' outcomes t c lane :
  mark_published_batch now consumer claims db = Ok (db', outcomes) ->
  ob_lanes db !! (t, c) = Some lane ->
  lane_move (ActMark now (ConsumerName.as_str consumer) claims outcomes) t c lane (ob_lanes db' !! (t, c)).
Proof.
  rewrite mark_published_batch_eq. intros [= <- <-] Hl. cbn. rewrite lookup_update_lanes, Hl. cbn.
  case_bool_decide as Ec; [|constructor]. destruct (marks now claims db t lane) eqn:Hm; [|constructor]. cbn.
  pose proof Hm as Hm'. unfold marks, lane_claimed in Hm'. bools.
  match goal with Ha : asked _ _ _ = true |- _ => unfold asked in Ha; apply existsb_exists in Ha as ([id claim] & Hin & Ha) end.
  bools. subst id. apply list_elem_of_In, list_elem_of_lookup in Hin as [i Hi]. subst c.
  eapply (lm_publish _ _ _ _ now claims _ (ClaimToken_0 claim) i); try done; [by destruct claim|].
  rewrite list_lookup_fmap, list_lookup_fmap, Hi. cbn. unfold ack_of. by rewrite Hl, Hm.
Qed.

Lemma forget_moves now t' db t c lane :
  tables_ok db -> ob_lanes db !! (t, c) = Some lane ->
  lane_move (ActForget t') t c lane (ob_lanes (cancel_undelivered_for_forget now t' db) !! (t, c)).
Proof.
  intros W Hl. unfold cancel_undelivered_for_forget. destruct (ob_records db !! t'); [|rewrite Hl; constructor].
  set (db1 := with_lanes _ db).
  assert (lane_move (ActForget t') t c lane (ob_lanes db1 !! (t, c))) as Hmove.
  { unfold db1. cbn [ob_lanes with_lanes]. rewrite lookup_cancelled, Hl. case_decide as Hd; [|constructor].
    destruct Hd as [-> Hne]. by apply lm_forgotten. }
  case_bool_decide as Hex; [done|]. rewrite lookup_delete_lane. case_decide as Hin; [|done].
  apply list_elem_of_singleton in Hin as ->. destruct (ob_lanes db1 !! (t', c)) as [lane1|] eqn:E; [|done].
  destruct Hex. by exists (t', c), lane1.
Qed.

Lemma prune_moves now scan older_than limit db db' n t c lane :
  outbox_wf db -> prune_published now scan older_than limit db = Ok (db', n) ->
  ob_lanes db !! (t, c) = Some lane ->
  lane_move (ActPrune now) t c lane (ob_lanes db' !! (t, c)).
Proof.
  intros [W S]. unfold prune_published. intros [= <- _] Hl. rewrite lookup_delete_lane.
  case_decide as Hin; [|rewrite Hl; constructor].
  apply list_elem_of_fmap in Hin as ([t0 at_] & -> & Hin%subseteq_take). cbn in *.
  rewrite sort_by_elem_of in Hin. apply list_elem_of_omap in Hin as (t1 & _ & E).
  destruct (ob_records db !! t1) as [row|] eqn:Hr; [|done]. destruct (row_published_at row); [|done].
  case_bool_decide as Hp; [|done]. destruct (_ <? _)%Z; [|done]. injection E as -> ->.
  apply (S t0 row Hr) in Hp. rewrite all_delivered_true in Hp. eapply lm_pruned; [done|by eapply Hp].
Qed.

Lemma next_position_keeps handle db db' position :
  next_series_position handle db = Ok (db', position) ->
  ob_lanes db' = ob_lanes db /\ ob_records db' = ob_records db /\ ob_consumers db' = ob_consumers db.
Proof.
  unfold next_series_position. destruct (ob_heads db !! handle); [|done].
  destruct (pg_ok _); [|done]. case_match; [done|]. by intros [= <- _].
Qed.

Lemma capture_moves now owner_id t' occurred_at plan position db db' a t c lane :
  tables_ok db -> capture now owner_id t' occurred_at plan position db = Ok db' ->
  ob_lanes db !! (t, c) = Some lane -> lane_move a t c lane (ob_lanes db' !! (t, c)).
Proof.
  intros W Hc Hl. apply capture_spec in Hc as (at_ & _ & C).
  destruct (ok_lane _ W _ _ _ Hl) as (_ & [row Hr] & _).
  assert (ob_lanes db' !! (t, c) = Some lane) as ->; [|constructor].
  eapply lookup_captured_lane; [done|done|]. right. split; [|done].
  intros ->. by rewrite (ce_new _ _ _ _ _ _ _ _ _ _ _ C) in Hr.
Qed.

Lemma lane_step w a w' t c lane :
  outbox_wf (w_db w) -> outbox_step w a w' -> ob_lanes (w_db w) !! (t, c) = Some lane ->
  lane_move a t c lane (ob_lanes (w_db w') !! (t, c)).
Proof.
  intros W Hstep Hl. step_cases Hstep.
  - rewrite El, Hl. constructor.
  - by eapply capture_moves; [apply W| |].
  - pose proof (wf_next_position _ _ _ _ W Hn) as [W1 _]. apply next_position_keeps in Hn as (E & _).
    rewrite <-E in Hl. by eapply capture_moves.
  - by eapply claim_moves; [apply W| |].
  - by eapply mark_moves.
  - unfold renew_claim in Hr. case_match; [done|]. injection Hr as <- _. cbn. rewrite lookup_update_lanes, Hl. cbn.
    case_bool_decide as Ec; [|constructor]. case_match eqn:Hre; [|constructor]. unfold lane_claimed in Hre. bools. cbn.
    subst. destruct claim as [token]. cbn in *.
    match goal with Hs : lane_state lane = _, Ht : lane_claim_token lane = _ |- _ => rewrite Hs, Ht end.
    by eapply lm_renew.
  - unfold release in Hr. injection Hr as <- _. cbn. rewrite lookup_update_lanes, Hl. cbn.
    case_bool_decide as Ec; [|constructor]. case_match eqn:Hre; [|constructor]. unfold lane_claimed in Hre. bools. cbn.
    subst. destruct claim as [token]. by eapply lm_release.
  - unfold register in Hr. case_bool_decide; injection Hr as <-; cbn; rewrite Hl; constructor.
  - unfold retire in Hr. case_match; injection Hr as <- _; [rewrite Hl; constructor|]. cbn.
    destruct (decide (c = ConsumerName.as_str consumer)) as [->|Hne].
    + rewrite map_lookup_filter_None_2 by (right; intros ? _; cbn; tauto). by apply lm_retired.
    + rewrite (map_lookup_filter_Some_2 _ _ _ lane) by done. constructor.
  - by eapply prune_moves.
  - apply forget_moves; [apply W|done].
  - unfold erase_publication. rewrite lookup_delete_lane. case_decide as Hin; [|cbn; rewrite Hl; constructor].
    by eapply lm_erased.
  - unfold revoke_original_publications. cbn [fst ob_lanes with_origins]. rewrite lookup_delete_lane.
    case_decide as Hin; [|rewrite Hl; constructor]. by eapply lm_erased.
  - cbn. rewrite Hl. constructor.
Qed.

(** The record an act captures. *)
Definition captured (a : OutboxAct) : option Uuid :=
  match a with ActCapture t | ActPublish _ t => Some t | _ => None end.

(** The only lanes that appear are fresh ones, on the record just captured. *)
Lemma lane_appears w a w' t c lane :
  outbox_wf (w_db w) -> outbox_step w a w' ->
  ob_lanes (w_db w) !! (t, c) = None -> ob_lanes (w_db w') !! (t, c) = Some lane ->
  lane = new_lane /\ captured a = Some t.
Proof.
  intros W Hstep Hnone. step_cases Hstep.
  - by rewrite El, Hnone.
  - apply capture_spec in Hc as (at_ & _ & C). intros Hl.
    eapply lookup_captured_lane in Hl; [|done|apply W]. rewrite Hnone in Hl. naive_solver.
  - pose proof (wf_next_position _ _ _ _ W Hn) as [W1 _]. apply next_position_keeps in Hn as (E & _).
    rewrite <-E in Hnone. apply capture_spec in Hc as (at_ & _ & C). intros Hl.
    eapply lookup_captured_lane in Hl; [|done|done]. rewrite Hnone in Hl. naive_solver.
  - pose proof (claim_short _ _ _ _ _ _ _ _ _ Hc) as Hlease. rewrite claim_eq in Hc by (done || apply W).
    destruct (existsb _ _); [done|]. injection Hc as <- _. rewrite refresh_lanes. cbn.
    by rewrite lookup_update_lanes, Hnone.
  - rewrite mark_published_batch_eq in Hm. injection Hm as <- _. cbn. by rewrite lookup_update_lanes, Hnone.
  - unfold renew_claim in Hr. case_match; [done|]. injection Hr as <- _. cbn. by rewrite lookup_update_lanes, Hnone.
  - unfold release in Hr. injection Hr as <- _. cbn. by rewrite lookup_update_lanes, Hnone.
  - unfold register in Hr. case_bool_decide; injection Hr as <-; cbn; by rewrite Hnone.
  - unfold retire in Hr. case_match; injection Hr as <- _; cbn; [by rewrite Hnone|].
    intros [Hl _]%map_lookup_filter_Some. by rewrite Hnone in Hl.
  - unfold prune_published in Hp. injection Hp as <- _. rewrite lookup_delete_lane. case_decide; [done|by rewrite Hnone].
  - unfold cancel_undelivered_for_forget. destruct (ob_records _ !! t'); [|by rewrite Hnone].
    case_bool_decide; [cbn; by rewrite lookup_cancelled, Hnone|]. rewrite lookup_delete_lane. case_decide; [done|].
    cbn. by rewrite lookup_cancelled, Hnone.
  - unfold erase_publication. rewrite lookup_delete_lane. case_decide; [done|]. cbn. by rewrite Hnone.
  - unfold revoke_original_publications. cbn [fst ob_lanes with_origins]. rewrite lookup_delete_lane.
    case_decide; [done|by rewrite Hnone].
  - cbn. by rewrite Hnone.
Qed.

Lemma step_wf w a w' : outbox_wf (w_db w) -> outbox_step w a w' -> outbox_wf (w_db w').
Proof.
  intros W Hstep. step_cases Hstep.
  - destruct W as [W S]. split; [split|].
    + rewrite El, Er, Ec. exact (ok_lane _ W).
    + rewrite Er. intros t row Hr. destruct (ok_record _ W t row Hr) as (? & ? & ? & ?). split_and!; (done || lia || set_solver).
    + rewrite Ec. exact (ok_consumer _ W).
    + intros h counter Hh. pose proof (f_equal (lookup h) Ect) as E. rewrite !lookup_fmap, Hh in E. cbn in E.
      symmetry in E. apply fmap_Some in E as (counter0 & E & ->). by apply (ok_counter _ W h).
    + rewrite Eb. exact (ok_backlog _ W).
    + intros t row. rewrite Er. intros Hr. rewrite (S t row Hr), !all_delivered_true. by rewrite El.
  - apply capture_spec in Hc as (at_ & _ & C). by eapply wf_capture.
  - apply capture_spec in Hc as (at_ & _ & C). eapply wf_capture; [done|]. by eapply wf_next_position.
  - by eapply wf_claim.
  - by eapply wf_mark.
  - by eapply wf_renew.
  - by eapply wf_release.
  - by eapply wf_register.
  - by eapply wf_retire.
  - by eapply wf_prune.
  - by apply wf_forget.
  - by apply wf_erase.
  - by apply wf_revoke.
  - by apply wf_erase_counter.
Qed.

Lemma step_issued w a w' :
  outbox_step w a w' ->
  w_issued w ⊆ w_issued w' /\ (forall now c handed, a = ActClaim now c handed -> handed_tokens handed ⊆ w_issued w').
Proof. intros Hstep. step_cases Hstep; cbn; (split; [set_solver|intros ???; naive_solver set_solver]). Qed.

Lemma step_ok w a w' : world_ok w -> outbox_step w a w' -> world_ok w'.
Proof.
  intros [W Hiss] Hstep. split; [by eapply step_wf|]. intros t c lane' token Hl' Htok.
  destruct (step_issued _ _ _ Hstep) as [Hsub Hhand].
  destruct (ob_lanes (w_db w) !! (t, c)) as [lane|] eqn:Hl.
  - pose proof (lane_step _ _ _ _ _ _ W Hstep Hl) as Hmove. rewrite Hl' in Hmove.
    inversion Hmove as [|now handed cp publisher Ea Hdue Hcp Hid| | | | | | |]; subst; try done.
    + by eauto.
    + cbn in Htok. injection Htok as <-. apply (Hhand _ _ _ eq_refl). unfold handed_tokens.
      apply elem_of_list_to_set, list_elem_of_fmap. eauto.
    + cbn in Htok. injection Htok as <-. by eauto.
  - destruct (lane_appears _ _ _ _ _ _ W Hstep Hl Hl') as [-> _]. done.
Qed.

Lemma run_world_ok w acts w' : world_ok w -> outbox_run w acts w' -> world_ok w'.
Proof. intros Hw Hrun. induction Hrun; eauto using step_ok. Qed.

Lemma installed_world_ok : world_ok installed_world.
Proof. split; [apply installed_wf|done]. Qed.

(** C30. However captures, claims, marks, renewals, releases, registrations,
    retirements, prunes, forgets and erasures interleave, the outbox stays in
    order: a record is published exactly when no lane of it is undelivered,
    every lane belongs to a record and to a registered consumer and its columns
    agree with its state, and counters, versions and names are in range. *)
Theorem outbox_stays_settled (acts : list OutboxAct) (w : OutboxWorld)
    (Hrun : outbox_run installed_world acts w) : outbox_wf (w_db w).
Proof. eapply run_world_ok; [apply installed_world_ok|done]. Qed.

(** ** Nothing undelivered is lost *)

Definition undelivered (w : OutboxWorld) (t : Uuid) (c : rstring) : Prop :=
  exists lane, ob_lanes (w_db w) !! (t, c) = Some lane /\ lane_state lane <> LanePublished.

(** Some mark of [c] in the run reported [t] published. *)
Definition reported_published (acts : list OutboxAct) (t : Uuid) (c : rstring) : Prop :=
  exists now claims outcomes token i,
    ActMark now c claims outcomes ∈ acts
    /\ claims !! i = Some (t, token) /\ outcomes !! i = Some AckPublished.

(** What can end a lane's wait. *)
Definition settled_by (acts : list OutboxAct) (t : Uuid) (c : rstring) : Prop :=
  reported_published acts t c \/ ActRetire c ∈ acts \/ ActForget t ∈ acts
  \/ exists ts, ActErase ts ∈ acts /\ t ∈ ts.

Lemma settled_by_weaken acts acts' t c : acts ⊆ acts' -> settled_by acts t c -> settled_by acts' t c.
Proof.
  intros Hsub [(now & claims & outcomes & token & i & Hin & Hpub)|[Hin|[Hin|(ts & Hin & Ht)]]]; unfold settled_by.
  - left. exists now, claims, outcomes, token, i. eauto.
  - eauto.
  - eauto.
  - eauto 10.
Qed.

Lemma step_undelivered w a w' t c :
  outbox_wf (w_db w) -> outbox_step w a w' -> undelivered w t c ->
  undelivered w' t c \/ settled_by [a] t c.
Proof.
  intros W Hstep (lane & Hl & Hu). pose proof (lane_step _ _ _ _ _ _ W Hstep Hl) as Hmove.
  unfold undelivered, settled_by. setoid_rewrite list_elem_of_singleton.
  inversion Hmove as [Hm|now handed cp publisher Ea _ _ _ Hm|now token expires Ea _ _ Hm
    |token Ea _ _ Hm|now claims outcomes token i Ea _ _ _ Hi Ho Hm|Ea Hm|Ea _ Hm|ts Ea Hin Hm|now Ea Hp Hm];
    try done; subst; eauto 10.
  right; left. exists now, claims, outcomes, (mk_ClaimToken token), i. split; [left|done].
Qed.

Lemma run_undelivered w acts w' t c :
  world_ok w -> undelivered w t c -> outbox_run w acts w' ->
  undelivered w' t c \/ settled_by acts t c.
Proof.
  intros Hw Howed Hrun. induction Hrun as [w|w a w1 acts w' Hstep Hrun IH]; [by left|].
  destruct (step_undelivered w a w1 t c) as [Hu|Hs]; [apply Hw|done|done| |].
  - destruct (IH (step_ok _ _ _ Hw Hstep) Hu) as [|Hs]; [by left|right].
    eapply settled_by_weaken; [|done]. set_solver.
  - right. eapply settled_by_weaken; [|done]. set_solver.
Qed.

(** A lane that is owed a delivery stays owed until a mark of its own
    consumer reports it published: claims, expiring leases, releases, other
    consumers' acts, prunes and new registrations never lose it.  Only retiring
    the consumer, forgetting the Fact or erasing it cancels the delivery. *)
Theorem undelivered_until_marked (before acts : list OutboxAct) (w w' : OutboxWorld) (t : Uuid) (c : rstring)
    (Hreach : outbox_run installed_world before w)
    (Howed : undelivered w t c)
    (Hrun : outbox_run w acts w')
    (Hretire : ActRetire c ∉ acts) (Hforget : ActForget t ∉ acts)
    (Herase : forall ts, ActErase ts ∈ acts -> t ∉ ts) :
  undelivered w' t c \/ reported_published acts t c.
Proof.
  apply (run_world_ok _ _ _ installed_world_ok) in Hreach.
  destruct (run_undelivered _ _ _ _ _ Hreach Howed Hrun) as [|[|[|[|(ts & Hin & Ht)]]]]; [by left|by right|done..|].
  by destruct (Herase ts).
Qed.

(** ** Fencing *)

Definition holds_claim (w : OutboxWorld) (t : Uuid) (c : rstring) (token : Uuid) : Prop :=
  exists lane, ob_lanes (w_db w) !! (t, c) = Some lane /\ lane_claim_token lane = Some token.

Lemma handed_fresh w a w' at_ c given cp :
  outbox_wf (w_db w) -> outbox_step w a w' -> a = ActClaim at_ c given -> cp ∈ given ->
  ClaimToken_0 (cp_claim cp) ∉ w_issued w.
Proof.
  intros W Hstep Ea Hcp. step_cases Hstep; try done. injection Ea as <- <- <-.
  pose proof (claim_short _ _ _ _ _ _ _ _ _ Hc) as Hlease. rewrite claim_eq in Hc by (done || apply W).
  destruct (existsb _ _); [done|]. injection Hc as _ <-.
  apply list_elem_of_omap in Hcp as ([t lane] & _ & Hd). unfold delivery in Hd. cbn in Hd.
  apply fmap_Some in Hd as (row & _ & ->). cbn. apply Hfresh.
Qed.

(** A token once lost is never held again. *)
Lemma step_not_holding w a w' t c token :
  world_ok w -> outbox_step w a w' -> token ∈ w_issued w -> ~ holds_claim w t c token ->
  ~ holds_claim w' t c token.
Proof.
  intros [W Hiss] Hstep Htok Hnot (lane' & Hl' & Ht').
  destruct (ob_lanes (w_db w) !! (t, c)) as [lane|] eqn:Hl.
  - pose proof (lane_step _ _ _ _ _ _ W Hstep Hl) as Hmove. rewrite Hl' in Hmove.
    inversion Hmove as [|now handed cp publisher Ea _ Hcp _|now token' e Ea _ Ht| | | | | |]; subst; try done.
    + apply Hnot. by exists lane'.
    + cbn in Ht'. injection Ht' as <-. by destruct (handed_fresh _ _ _ _ _ _ _ W Hstep eq_refl Hcp).
    + cbn in Ht'. apply Hnot. exists lane. split; [done|congruence].
  - destruct (lane_appears _ _ _ _ _ _ W Hstep Hl Hl') as [-> _]. done.
Qed.

Lemma run_not_holding w acts w' t c token :
  world_ok w -> outbox_run w acts w' -> token ∈ w_issued w -> ~ holds_claim w t c token ->
  ~ holds_claim w' t c token.
Proof.
  intros Hw Hrun. induction Hrun as [|w a w1 acts w' Hstep _ IH]; [done|]. intros Htok Hnot. apply IH.
  - by eapply step_ok.
  - by apply (step_issued _ _ _ Hstep).
  - by eapply step_not_holding.
Qed.

Lemma db_eta db f : f (ob_lanes db) = ob_lanes db -> with_lanes f db = db.
Proof. unfold with_lanes. intros ->. by destruct db. Qed.

(** A claim token a lane no longer holds is dead for good.  After any
    further acts, marking with it publishes nothing and answers stale or already
    published, renewing with it answers no, and releasing with it hands nothing
    back; the tables are untouched. *)
Theorem superseded_claim_is_fenced (before acts : list OutboxAct) (w w' : OutboxWorld) (t : Uuid)
    (consumer : ConsumerName) (claim : ClaimToken) (now : Timestamp) (lease : Duration)
    (Hreach : outbox_run installed_world before w)
    (Hissued : ClaimToken_0 claim ∈ w_issued w)
    (Hlost : ~ holds_claim w t (ConsumerName.as_str consumer) (ClaimToken_0 claim))
    (Hrun : outbox_run w acts w')
    (Hlease : (MIN_CLAIM_LEASE <= lease)%Z) :
  (exists outcome, outcome <> AckPublished
     /\ mark_published now consumer t claim (w_db w') = Ok (w_db w', outcome))
  /\ renew_claim now consumer t claim lease (w_db w') = Ok (w_db w', false)
  /\ (exists outcome, outcome <> Released
        /\ release consumer t claim (w_db w') = Ok (w_db w', outcome)).
Proof.
  apply (run_world_ok _ _ _ installed_world_ok) in Hreach as Hw.
  pose proof (run_not_holding _ _ _ _ _ _ Hw Hrun Hissued Hlost) as Hnot.
  set (c := ConsumerName.as_str consumer) in *. set (db := w_db w') in *.
  assert (forall lane, ob_lanes db !! (t, c) = Some lane ->
            bool_decide (lane_claim_token lane = Some (ClaimToken_0 claim)) = false) as Hno.
  { intros lane Hl. apply bool_decide_eq_false. intros Ht. apply Hnot. by exists lane. }
  assert (forall t' lane, ob_lanes db !! (t', c) = Some lane -> asked [(t, claim)] t' lane = false) as Hask.
  { intros t' lane Hl. unfold asked. cbn. destruct (N.eqb_spec t t') as [<-|]; [|done]. by rewrite Hno. }
  split_and!.
  - exists (ack_of now c [(t, claim)] db t). split.
    { unfold ack_of. destruct (ob_lanes db !! (t, c)) as [lane|] eqn:Hl; [|done].
      unfold marks. rewrite Hask by done. cbn. by case_bool_decide. }
    unfold mark_published. rewrite mark_published_batch_eq. fold c. cbn [fmap list_fmap fst].
    rewrite lanes_where_none by (intros t' lane Hl; unfold marks; by rewrite (Hask t' lane Hl)).
    rewrite settle_nothing. do 2 f_equal. apply db_eta, update_lanes_id. intros t' lane Hl.
    unfold marks. by rewrite (Hask t' lane Hl).
  - unfold renew_claim. rewrite (proj2 (Z.ltb_ge _ _) Hlease). fold c.
    rewrite lanes_where_none; [do 2 f_equal; apply db_eta, update_lanes_id|]; intros t' lane Hl;
      (destruct (N.eqb_spec t' t) as [->|]; [|done]); rewrite (Hno lane Hl); by rewrite !andb_false_r.
  - unfold release. fold c. rewrite lanes_where_none;
      [|intros t' lane Hl; destruct (N.eqb_spec t' t) as [->|]; [|done]; rewrite (Hno lane Hl); apply andb_false_r].
    rewrite (db_eta db) by (apply update_lanes_id; intros t' lane Hl; destruct (N.eqb_spec t' t) as [->|]; [|done];
      rewrite (Hno lane Hl); by rewrite andb_false_r).
    eexists. split; [|done]. cbn. by repeat case_match.
Qed.

(** While a publisher's lease runs nobody else gets the lane: it keeps the
    lane under its own token through every act but a release or a timely mark
    with that token, a claim made after the lease expired, and the retirement,
    forget or erasure that removes the lane. *)
Theorem a_lease_is_exclusive (before : list OutboxAct) (w w' : OutboxWorld) (a : OutboxAct) (t : Uuid)
    (c : rstring) (lane : LaneRow) (token : Uuid) (expires : Timestamp)
    (Hreach : outbox_run installed_world before w)
    (Hlane : ob_lanes (w_db w) !! (t, c) = Some lane)
    (Htoken : lane_claim_token lane = Some token) (Hexpires : lane_lease_expires_at lane = Some expires)
    (Hstep : outbox_step w a w') :
  holds_claim w' t c token
  \/ a = ActRelease c t (mk_ClaimToken token)
  \/ (exists now claims outcomes, a = ActMark now c claims outcomes
        /\ (t, mk_ClaimToken token) ∈ claims /\ (now < expires)%Z)
  \/ (exists now handed, a = ActClaim now c handed /\ (expires < now)%Z)
  \/ a = ActRetire c \/ a = ActForget t \/ (exists ts, a = ActErase ts /\ t ∈ ts).
Proof.
  apply (run_world_ok _ _ _ installed_world_ok) in Hreach as [W _].
  pose proof (lane_step _ _ _ _ _ _ W Hstep Hlane) as Hmove. pose proof (ok_lane _ (proj1 W) _ _ _ Hlane) as [[_ Hok] _].
  unfold holds_claim. inversion Hmove as [Hm|now handed cp publisher Ea Hdue _ _ Hm|now token' e Ea _ Ht Hm
    |token' Ea _ Ht Hm|now claims outcomes token' i Ea _ Ht Hh Hi Ho Hm|Ea Hm|Ea _ Hm|ts Ea Hin Hm|now Ea Hp Hm]; subst.
  - left. eauto.
  - right; right; right; left. exists now, handed. split; [done|]. unfold lane_due in Hdue. rewrite Hexpires in Hdue.
    destruct (lane_state lane); cbn in Hdue; [|lia|done]. naive_solver.
  - left. eexists. split; [done|]. cbn. congruence.
  - right; left. congruence.
  - right; right; left. exists now, claims, outcomes. unfold lease_holds in Hh. rewrite Hexpires in Hh. cbn in Hh.
    assert (token' = token) as -> by congruence. split_and!; [done|by eapply list_elem_of_lookup_2|lia].
  - tauto.
  - tauto.
  - eauto 10.
  - rewrite Hp in Hok. naive_solver.
Qed.

(** ** The queue discipline *)

(** How many claims an undelivered lane of the consumer may take before it
    stands behind a lane with [bound] attempts, and their sum. *)
Definition slack (bound : Z) (c : rstring) (db : OutboxDb) (t : Uuid) : nat :=
  match ob_lanes db !! (t, c) with
  | Some lane =>
      if bool_decide (lane_state lane = LanePublished) then 0 else Z.to_nat (bound + 1 - lane_attempts lane)
  | None => 0
  end.

Definition ahead (bound : Z) (c : rstring) (db : OutboxDb) : nat :=
  sum_list_with (slack bound c db) (lanes_of c db).*1.

Lemma elem_of_lanes_fst c db t : t ∈ (lanes_of c db).*1 <-> is_Some (ob_lanes db !! (t, c)).
Proof.
  rewrite list_elem_of_fmap. split.
  - intros ([t' lane] & -> & Hin%elem_of_lanes_of). by exists lane.
  - intros [lane Hin%elem_of_lanes_of]. by exists (t, lane).
Qed.

Lemma step_slack w a w' bound c t :
  outbox_wf (w_db w) -> outbox_step w a w' -> is_Some (ob_lanes (w_db w) !! (t, c)) ->
  slack bound c (w_db w') t <= slack bound c (w_db w) t.
Proof.
  intros W Hstep [lane Hl]. pose proof (lane_step _ _ _ _ _ _ W Hstep Hl) as Hmove.
  unfold slack. rewrite Hl.
  inversion Hmove as [Hm|now handed cp publisher Ea Hdue _ _ Hm|now token e Ea Hs _ Hm|token Ea Hs _ Hm
    |now claims outcomes token i Ea Hs _ _ _ _ Hm| | | |]; subst; cbn [leased_lane released_lane published_lane
    lane_state lane_attempts]; try lia.
  - assert (lane_state lane <> LanePublished) by (intros E; unfold lane_due in Hdue; by rewrite E in Hdue).
    rewrite !bool_decide_false by done. lia.
  - rewrite !bool_decide_false by congruence. lia.
  - rewrite !bool_decide_false by congruence. lia.
  - rewrite bool_decide_true by done. lia.
Qed.

(** Each captured record adds at most [bound + 1]. *)
Lemma step_ahead w a w' bound c :
  outbox_wf (w_db w) -> outbox_step w a w' ->
  ahead bound c (w_db w') <= ahead bound c (w_db w) + (if is_some (captured a) then Z.to_nat (bound + 1) else 0).
Proof.
  intros W Hstep. unfold ahead. set (l := (lanes_of c (w_db w)).*1). set (l' := (lanes_of c (w_db w')).*1).
  destruct (captured a) as [t'|] eqn:Ea.
  - transitivity (sum_list_with (fun t => if decide (t ∈ l) then slack bound c (w_db w) t else Z.to_nat (bound + 1))
                    (if decide (t' ∈ l) then l else t' :: l)).
    + apply sum_list_with_subset; [apply NoDup_lanes_of|]. intros t Ht.
      destruct (decide (t ∈ l)) as [Hin|Hnot].
      { split; [case_decide; [done|by right]|]. eapply step_slack; [done..|]. by apply elem_of_lanes_fst. }
      apply elem_of_lanes_fst in Ht as [lane' Hl']. unfold l in Hnot. rewrite elem_of_lanes_fst in Hnot.
      apply eq_None_not_Some in Hnot as Hl. destruct (lane_appears _ _ _ _ _ _ W Hstep Hl Hl') as [-> E].
      rewrite Ea in E. injection E as ->. split; [rewrite decide_False; [left|unfold l; by rewrite elem_of_lanes_fst]|].
      unfold slack. rewrite Hl', bool_decide_false by done. cbn [new_lane lane_attempts]. lia.
    + assert (forall k, (forall x, x ∈ k -> x ∈ l) -> sum_list_with (fun t => if decide (t ∈ l) then slack bound c (w_db w) t
                  else Z.to_nat (bound + 1)) k = sum_list_with (slack bound c (w_db w)) k) as Hsame.
      { induction k as [|x k IH]; [done|]. intros Hk. cbn. rewrite decide_True by (apply Hk; left).
        rewrite IH; [done|]. intros y Hy. apply Hk. by right. }
      case_decide as Hin; cbn; [rewrite Hsame by done; lia|]. rewrite Hsame by done. rewrite decide_False by done. lia.
  - rewrite Nat.add_0_r. apply sum_list_with_subset; [apply NoDup_lanes_of|]. intros t Ht.
    assert (is_Some (ob_lanes (w_db w) !! (t, c))) as Hs.
    { apply elem_of_lanes_fst in Ht as [lane' Hl']. apply not_eq_None_Some. intros Hl.
      destruct (lane_appears _ _ _ _ _ _ W Hstep Hl Hl') as [_ E]. by rewrite Ea in E. }
    split; [by apply elem_of_lanes_fst|by eapply step_slack].
Qed.

(** A claim of the consumer that could have taken its lane on [t] and did not. *)
Definition passes_over (w : OutboxWorld) (a : OutboxAct) (w' : OutboxWorld) (t : Uuid) (c : rstring) : Prop :=
  exists now locked mint consumer publisher limit lease handed lane,
    a = ActClaim now (ConsumerName.as_str consumer) handed /\ c = ConsumerName.as_str consumer
    /\ claim now locked mint consumer publisher limit lease (w_db w) = Ok (w_db w', handed)
    /\ (0 < limit)%N /\ ob_lanes (w_db w) !! (t, c) = Some lane /\ lane_due now lane = true
    /\ deliverable (w_db w) t = true /\ locked t = false /\ t ∉ cp_id <$> handed.

(** A consumer's lane on [t] passed over [n] times while [m] records were
    captured, never handed out and never removed. *)
Inductive overtaken (t : Uuid) (c : rstring) (w : OutboxWorld) : nat -> nat -> OutboxWorld -> Prop :=
| ov_nil : overtaken t c w 0 0 w
| ov_pass a w1 n m w' :
    outbox_step w a w1 -> passes_over w a w1 t c -> overtaken t c w1 n m w' -> overtaken t c w (S n) m w'
| ov_other a w1 n m w' :
    outbox_step w a w1 ->
    (forall now handed, a = ActClaim now c handed -> t ∉ cp_id <$> handed) ->
    is_Some (ob_lanes (w_db w1) !! (t, c)) ->
    overtaken t c w1 n m w' ->
    overtaken t c w n ((if is_some (captured a) then 1 else 0) + m) w'.

(** A lane that is not handed out keeps its attempts. *)
Lemma step_attempts w a w' t c lane lane' :
  outbox_wf (w_db w) -> outbox_step w a w' ->
  (forall now handed, a = ActClaim now c handed -> t ∉ cp_id <$> handed) ->
  ob_lanes (w_db w) !! (t, c) = Some lane -> ob_lanes (w_db w') !! (t, c) = Some lane' ->
  lane_attempts lane' = lane_attempts lane.
Proof.
  intros W Hstep Hnot Hl Hl'. pose proof (lane_step _ _ _ _ _ _ W Hstep Hl) as Hmove. rewrite Hl' in Hmove.
  inversion Hmove as [Hm|now handed cp publisher Ea _ Hcp Hid Hm|now token e Ea _ _ Hm|token Ea _ _ Hm
    |now claims outcomes token i Ea _ _ _ _ _ Hm| | | |]; subst; try done.
  destruct (Hnot now handed eq_refl). apply list_elem_of_fmap. eauto.
Qed.

Lemma claim_lookup now locked mint consumer publisher limit lease db db' handed t :
  let c := ConsumerName.as_str consumer in
  tables_ok db -> claim now locked mint consumer publisher limit lease db = Ok (db', handed) ->
  ob_lanes db' !! (t, c)
  = (fun lane => if slice_contains t (chosen_lanes now c locked limit db).*1
                 then leased_lane publisher (now + make_interval lease) (mint t) lane else lane)
      <$> ob_lanes db !! (t, c).
Proof.
  intros c W Hc. pose proof (claim_short _ _ _ _ _ _ _ _ _ Hc) as Hlease.
  rewrite claim_eq in Hc by done. fold c in Hc. destruct (existsb _ _); [done|]. injection Hc as <- _.
  rewrite refresh_lanes. cbn. rewrite lookup_update_lanes, bool_decide_true by done.
  destruct (ob_lanes db !! (t, c)); [|done]. cbn. by case_match.
Qed.

(** The first due lane, which any claim takes, has no more attempts than another. *)
Lemma claimable_head now c locked limit db t lane :
  (t, lane) ∈ claimable now c locked db -> (0 < limit)%N ->
  exists t0 lane0, ob_lanes db !! (t0, c) = Some lane0 /\ lane_due now lane0 = true
    /\ (lane_attempts lane0 <= lane_attempts lane)%Z
    /\ slice_contains t0 (chosen_lanes now c locked limit db).*1 = true.
Proof.
  intros Hin Hlimit. pose proof (claimable_sorted now c locked db) as Hsorted. unfold chosen_lanes.
  pose proof (fun t0 lane0 => proj1 (elem_of_claimable now c locked db t0 lane0)) as Hspec.
  destruct (claimable now c locked db) as [|[t0 lane0] rest]; [by apply elem_of_nil in Hin|].
  exists t0, lane0. destruct (Hspec t0 lane0) as (Hl0 & Hdue0 & _); [left|]. split_and!; [done|done| |].
  - inversion Hsorted as [|? ? _ Hall]; subst. apply elem_of_cons in Hin as [[= -> ->]|Hin]; [done|].
    rewrite list.Forall_forall in Hall. specialize (Hall _ Hin). apply lane_leb_true in Hall. cbn in Hall. lia.
  - apply slice_contains_true. destruct (N.to_nat limit) as [|n] eqn:En; [lia|]. cbn. left.
Qed.

(** A claim that passes a lane over takes an attempt from the lanes ahead. *)
Lemma pass_ahead w a w' t c lane :
  outbox_wf (w_db w) -> outbox_step w a w' -> passes_over w a w' t c ->
  ob_lanes (w_db w) !! (t, c) = Some lane ->
  ahead (lane_attempts lane) c (w_db w') < ahead (lane_attempts lane) c (w_db w)
  /\ exists lane', ob_lanes (w_db w') !! (t, c) = Some lane' /\ lane_attempts lane' = lane_attempts lane.
Proof.
  intros W Hstep (now & locked & mint & consumer & publisher & limit & lease & handed & lane0 & Ea & Ec & Hc
    & Hlimit & Hl0 & Hdue & Hdel & Hlock & Hnot) Hl.
  rewrite Hl in Hl0. injection Hl0 as <-. subst c a. set (c := ConsumerName.as_str consumer) in *.
  pose proof (claim_moves _ _ _ _ _ _ _ _ _ _ _ _ _ (proj1 W) Hc Hl) as Hmove. fold c in Hmove.
  assert (exists lane', ob_lanes (w_db w') !! (t, c) = Some lane' /\ lane_attempts lane' = lane_attempts lane) as Hkeep.
  { inversion Hmove as [Hm|? ? cp ? [= <- <-] _ Hcp Hid Hm| | | | | | |]; try done; [eauto|].
    destruct Hnot. apply list_elem_of_fmap. eauto. }
  split; [|done]. pose proof (fun t1 => claim_lookup _ _ _ _ _ _ _ _ _ _ t1 (proj1 W) Hc) as Hlanes. fold c in Hlanes.
  destruct (claimable_head now c locked limit (w_db w) t lane) as (t0 & lane0 & Hl0 & Hdue0 & Hle & Hhead);
    [by apply elem_of_claimable|done|].
  apply sum_list_with_subset_lt with t0; [apply NoDup_lanes_of| | |].
  - intros t1 [lane1 Hl1]%elem_of_lanes_fst.
    assert (is_Some (ob_lanes (w_db w) !! (t1, c))) by (rewrite Hlanes, fmap_Some in Hl1; naive_solver).
    split; [by apply elem_of_lanes_fst|by eapply step_slack].
  - apply elem_of_lanes_fst. rewrite Hlanes, Hl0. by eexists.
  - unfold slack. rewrite Hlanes, Hl0, Hhead. cbn [fmap option_fmap option_map leased_lane lane_state lane_attempts].
    assert (lane_state lane0 <> LanePublished) by (intros E; unfold lane_due in Hdue0; by rewrite E in Hdue0).
    rewrite !bool_decide_false by done. lia.
Qed.

(** Fewest attempts first, so no lane waits forever behind failing ones: a
    lane that stays due is passed over by its consumer's claims at most as often
    as the undelivered lanes at or below its attempt count have attempts to
    catch up, plus one such count for each record captured meanwhile. *)
Theorem overtaking_is_bounded (before : list OutboxAct) (w w' : OutboxWorld) (t : Uuid) (c : rstring)
    (lane : LaneRow) (n m : nat)
    (Hreach : outbox_run installed_world before w)
    (Hlane : ob_lanes (w_db w) !! (t, c) = Some lane)
    (Hover : overtaken t c w n m w') :
  n <= ahead (lane_attempts lane) c (w_db w) + m * Z.to_nat (lane_attempts lane + 1).
Proof.
  apply (run_world_ok _ _ _ installed_world_ok) in Hreach as Hw. clear Hreach.
  revert lane Hlane. induction Hover as [w|w a w1 n m w' Hstep Hpass Hover IH|w a w1 n m w' Hstep Hnot [lane1 Hl1] Hover IH];
    intros lane Hl; [lia| |].
  - destruct (pass_ahead _ _ _ _ _ _ (proj1 Hw) Hstep Hpass Hl) as (Hlt & lane1 & Hl1 & Ha).
    specialize (IH (step_ok _ _ _ Hw Hstep) lane1 Hl1). rewrite Ha in IH. lia.
  - pose proof (step_attempts _ _ _ _ _ _ _ (proj1 Hw) Hstep Hnot Hl Hl1) as Ha.
    specialize (IH (step_ok _ _ _ Hw Hstep) lane1 Hl1). rewrite Ha in IH.
    pose proof (step_ahead _ _ _ (lane_attempts lane) c (proj1 Hw) Hstep). destruct (is_some (captured a)); lia.
Qed.

(** ** What a claim hands out *)

Lemma delivery_ids mint expires db l :
  (forall x, x ∈ l -> is_Some (ob_records db !! x.1)) ->
  cp_id <$> omap (delivery mint expires db) l = l.*1.
Proof.
  induction l as [|x l IH]; [done|]. intros Hrec. cbn. destruct (Hrec x) as [row Hr]; [left|].
  unfold delivery at 1. rewrite Hr. cbn. f_equal. apply IH. intros y Hy. apply Hrec. by right.
Qed.

Lemma chosen_before now c locked limit db t lane x :
  (t, lane) ∈ claimable now c locked db -> (t, lane) ∉ chosen_lanes now c locked limit db ->
  length (chosen_lanes now c locked limit db) = N.to_nat limit
  /\ (x ∈ chosen_lanes now c locked limit db -> lane_leb x (t, lane) = true).
Proof.
  unfold chosen_lanes. intros [i Hi]%list_elem_of_lookup Hnot.
  assert (N.to_nat limit <= i) as Hle.
  { destruct (decide (i < N.to_nat limit)) as [Hlt|]; [|lia]. destruct Hnot.
    eapply list_elem_of_lookup_2. by rewrite lookup_take_lt. }
  pose proof (lookup_lt_Some _ _ _ Hi). split; [rewrite length_take; lia|]. intros Hx.
  apply elem_of_take in Hx as (j & Hj & Hlt). revert Hi Hj.
  pose proof (claimable_sorted now c locked db) as Hs. intros Hi Hj.
  eapply (StronglySorted_lookup _ _ j i x (t, lane) Hs); [lia|done|done].
Qed.

(** What a claim hands out.  On well-formed tables a claim with a lawful
    lease succeeds; each record it hands over was due, deliverable and unlocked,
    carries the captured envelope, and is now leased to the publisher under the
    returned token with one attempt more; a due lane it leaves behind means the
    limit was reached with lanes of fewer attempts, or as many and an older
    record; every other lane and every record is untouched. *)
Theorem claim_hands_out_the_next_lanes (now : Timestamp) (locked : Uuid -> bool) (mint : Uuid -> Uuid)
    (consumer : ConsumerName) (publisher : PublisherId) (limit : N) (lease : Duration) (db : OutboxDb)
    (Hwf : outbox_wf db) (Hlease : (MIN_CLAIM_LEASE <= lease)%Z)
    (Hroom : forall t lane, ob_lanes db !! (t, ConsumerName.as_str consumer) = Some lane ->
               (lane_attempts lane < I32_MAX)%Z) :
  let c := ConsumerName.as_str consumer in
  exists db' handed,
    claim now locked mint consumer publisher limit lease db = Ok (db', handed)
    /\ (forall cp, cp ∈ handed -> exists lane row,
          ob_lanes db !! (cp_id cp, c) = Some lane /\ lane_due now lane = true
          /\ deliverable db (cp_id cp) = true /\ locked (cp_id cp) = false
          /\ ob_records db !! cp_id cp = Some row /\ cp_envelope cp = ev_envelope (row_event row)
          /\ Z.of_N (cp_attempts cp) = (lane_attempts lane + 1)%Z
          /\ ob_lanes db' !! (cp_id cp, c)
             = Some (leased_lane publisher (now + make_interval lease) (ClaimToken_0 (cp_claim cp)) lane))
    /\ (forall t lane, ob_lanes db !! (t, c) = Some lane -> lane_due now lane = true ->
          deliverable db t = true -> locked t = false -> t ∉ cp_id <$> handed ->
          length handed = N.to_nat limit
          /\ forall cp, cp ∈ handed -> exists lane', ob_lanes db !! (cp_id cp, c) = Some lane'
               /\ lane_leb (cp_id cp, lane') (t, lane) = true)
    /\ (forall t c', c' <> c \/ t ∉ cp_id <$> handed -> ob_lanes db' !! (t, c') = ob_lanes db !! (t, c'))
    /\ ob_records db' = ob_records db.
Proof.
  intros c. set (chosen := chosen_lanes now c locked limit db). set (expires := (now + make_interval lease)%Z).
  destruct Hwf as [W S]. pose proof (claim_eq now locked mint consumer publisher limit lease db W Hlease) as Hc.
  cbv zeta in Hc. fold c in Hc. fold chosen in Hc. fold expires in Hc.
  assert (existsb (fun '(_, lane) => I32_MAX <? lane_attempts lane + 1)%Z chosen = false) as Hmax.
  { apply not_true_iff_false. rewrite existsb_exists. intros ([t lane] & Hin%list_elem_of_In & Hgt).
    apply elem_of_chosen in Hin as [Hl _]. apply Hroom in Hl. apply Z.ltb_lt in Hgt. lia. }
  rewrite Hmax in Hc.
  assert (cp_id <$> omap (delivery mint expires db) chosen = chosen.*1) as Hids.
  { apply delivery_ids. intros [t lane] [Hl _]%elem_of_chosen. by apply W in Hl as (_ & ? & _). }
  pose proof (fun t => claim_lookup _ _ _ _ _ _ _ _ _ _ t W Hc) as Hlanes. fold c in Hlanes. fold chosen in Hlanes.
  eexists _, _. split; [exact Hc|]. rewrite Hids. split_and!.
  - intros cp ([t lane] & Hin & Hd)%list_elem_of_omap. unfold delivery in Hd. cbn in Hd.
    apply fmap_Some in Hd as (row & Hr & ->). cbn. pose proof (elem_of_chosen _ _ _ _ _ _ _ Hin) as (Hl & ? & ? & ?).
    destruct (ok_lane _ W _ _ _ Hl) as [[Ha _] _]. exists lane, row. split_and!; try done; [lia|].
    rewrite Hlanes, Hl. cbn. by rewrite (proj2 (slice_contains_true _ _)) by (apply list_elem_of_fmap; by exists (t, lane)).
  - intros t lane Hl Hdue Hdel Hlock Hnot.
    assert ((t, lane) ∈ claimable now c locked db) as Hin by by apply elem_of_claimable.
    assert ((t, lane) ∉ chosen) as Hout by (intros Hch; apply Hnot, list_elem_of_fmap; by exists (t, lane)).
    split; [rewrite <-(length_fmap cp_id), Hids, length_fmap; by apply (chosen_before now c locked limit db t lane (t, lane))|].
    intros cp ([t' lane'] & Hin' & Hd)%list_elem_of_omap. unfold delivery in Hd. cbn in Hd.
    apply fmap_Some in Hd as (row & _ & ->). cbn. exists lane'. split; [by apply elem_of_chosen in Hin' as [? _]|].
    by apply (chosen_before now c locked limit db t lane (t', lane')).
  - intros t c' Hother. rewrite refresh_lanes. cbn. rewrite lookup_update_lanes.
    destruct (ob_lanes db !! (t, c')); [|done]. cbn. case_bool_decide; [|done]. destruct Hother as [|Hnot]; [done|].
    destruct (slice_contains t chosen.*1) eqn:E; [|done]. by apply slice_contains_true in E.
  - unfold refresh_backlog_estimate. by case_match.
Qed.

(** ** Captured events do not change *)

Lemma settle_event now ids db t row' :
  ob_records (settle_records now ids db) !! t = Some row' ->
  exists row, ob_records db !! t = Some row /\ row_event row' = row_event row.
Proof. rewrite lookup_settle. intros (row & Hr & ->)%fmap_Some. exists row. split; [done|by case_match]. Qed.

(** A record after a step was captured by it, or had the same event before. *)
Lemma record_step w a w' t row' :
  outbox_wf (w_db w) -> outbox_step w a w' -> ob_records (w_db w') !! t = Some row' ->
  captured a = Some t \/ exists row, ob_records (w_db w) !! t = Some row /\ row_event row' = row_event row.
Proof.
  intros W Hstep Hr'. step_cases Hstep; cbn [w_db] in Hr'; cbn [captured].
  - right. rewrite Er in Hr'. eauto.
  - apply capture_spec in Hc as (at_ & _ & C). destruct (ce_sealed _ _ _ _ _ _ _ _ _ _ _ C) as (sealed & _ & _ & _ & Hrec).
    rewrite Hrec in Hr'. apply lookup_insert_Some in Hr' as [[-> _]|[_ Hr']]; [by left|right; eauto].
  - apply next_position_keeps in Hn as (_ & En & _).
    apply capture_spec in Hc as (at_ & _ & C). destruct (ce_sealed _ _ _ _ _ _ _ _ _ _ _ C) as (sealed & _ & _ & _ & Hrec).
    rewrite Hrec, En in Hr'. apply lookup_insert_Some in Hr' as [[-> _]|[_ Hr']]; [by left|right; eauto].
  - right. pose proof (claim_short _ _ _ _ _ _ _ _ _ Hc). rewrite claim_eq in Hc by (done || apply W).
    destruct (existsb _ _); [done|]. injection Hc as <- _. unfold refresh_backlog_estimate in Hr'. case_match; eauto.
  - right. rewrite mark_published_batch_eq in Hm. injection Hm as <- _. by apply settle_event in Hr'.
  - right. unfold renew_claim in Hr. case_match; [done|]. injection Hr as <- _. eauto.
  - right. unfold release in Hr. injection Hr as <- _. eauto.
  - right. unfold register in Hr. case_bool_decide; injection Hr as <-; eauto.
  - right. unfold retire in Hr. case_match; injection Hr as <- _; [eauto|]. by apply settle_event in Hr'.
  - right. unfold prune_published in Hp. injection Hp as <- _. rewrite lookup_delete_record in Hr'. case_decide; [done|eauto].
  - right. unfold cancel_undelivered_for_forget in Hr'. destruct (ob_records (w_db w) !! t'); [|eauto].
    case_bool_decide; [by apply settle_event in Hr'|]. rewrite lookup_delete_record in Hr'. case_decide; [done|eauto].
  - right. unfold erase_publication in Hr'. rewrite lookup_delete_record in Hr'. case_decide; [done|eauto].
  - right. cbn [revoke_original_publications fst ob_records with_origins] in Hr'. rewrite lookup_delete_record in Hr'. case_decide; [done|eauto].
  - right. eauto.
Qed.

Lemma record_run w acts w' t row' :
  world_ok w -> outbox_run w acts w' -> (forall a, a ∈ acts -> captured a <> Some t) ->
  ob_records (w_db w') !! t = Some row' ->
  exists row, ob_records (w_db w) !! t = Some row /\ row_event row' = row_event row.
Proof.
  intros Hw Hrun. induction Hrun as [|w a w1 acts w' Hstep _ IH]; intros Hnot Hr'; [eauto|].
  destruct IH as (row1 & Hr1 & E1); [by eapply step_ok|intros b Hb; apply Hnot; by right|done|].
  destruct (record_step _ _ _ _ _ (proj1 Hw) Hstep Hr1) as [Hcap|(row & Hr & E)]; [|rewrite E1; eauto].
  by destruct (Hnot a ltac:(left)).
Qed.

(** What a claim hands over is the captured row. *)
Lemma handed_record now locked mint consumer publisher limit lease db db' handed cp :
  tables_ok db -> claim now locked mint consumer publisher limit lease db = Ok (db', handed) -> cp ∈ handed ->
  exists row lane, ob_records db !! cp_id cp = Some row
    /\ ob_lanes db !! (cp_id cp, ConsumerName.as_str consumer) = Some lane
    /\ cp_event_id cp = ev_event_id (row_event row) /\ cp_owner_id cp = ev_owner_id (row_event row)
    /\ cp_envelope cp = ev_envelope (row_event row) /\ Z.of_N (cp_attempts cp) = (lane_attempts lane + 1)%Z.
Proof.
  intros W Hc Hcp. pose proof (claim_short _ _ _ _ _ _ _ _ _ Hc) as Hlease. rewrite claim_eq in Hc by done.
  destruct (existsb _ _); [done|]. injection Hc as _ <-.
  apply list_elem_of_omap in Hcp as ([t lane] & Hin & Hd). unfold delivery in Hd. cbn in Hd.
  apply fmap_Some in Hd as (row & Hr & ->). cbn. apply elem_of_chosen in Hin as [Hl _].
  destruct (ok_lane _ W _ _ _ Hl) as [[Ha _] _]. exists row, lane. split_and!; try done. lia.
Qed.

(** ** Series positions *)

Definition series_count (db : OutboxDb) (handle : Uuid) : Z :=
  match ob_counters db !! handle with Some c => counter_sequence c | None => 0 end.

Lemma next_position_counts handle db db' position :
  next_series_position handle db = Ok (db', position) ->
  position_subject position = handle /\ Z.of_N (position_sequence position) = series_count db' handle
  /\ (series_count db handle < series_count db' handle)%Z
  /\ forall h, h <> handle -> series_count db' h = series_count db h.
Proof.
  unfold next_series_position, series_count. destruct (ob_heads db !! handle) as [owner|]; [|done].
  destruct (pg_ok _) as [row|] eqn:Ep; [|done]. apply pg_ok_Ok in Ep.
  destruct (counter_sequence row <=? 0)%Z eqn:Hpos; [done|]. intros [= <- <-]. cbn.
  rewrite lookup_insert_eq. split_and!; [done|lia| |].
  - destruct (ob_counters db !! handle) as [c|]; [|lia].
    destruct (I64_MAX <? _)%Z; [done|]. injection Ep as <-. cbn. lia.
  - intros h Hne. by rewrite lookup_insert_ne.
Qed.

Lemma capture_counts now owner_id t occurred_at plan position db db' h :
  capture now owner_id t occurred_at plan position db = Ok db' -> series_count db' h = series_count db h.
Proof.
  intros (at_ & _ & C)%capture_spec. destruct (ce_rest _ _ _ _ _ _ _ _ _ _ _ C) as (_ & E & _).
  unfold series_count. by rewrite E.
Qed.

(** Counters only grow, until their series is erased. *)
Lemma step_counts w a w' h :
  outbox_wf (w_db w) -> outbox_step w a w' -> a <> ActSeriesErased h ->
  (series_count (w_db w) h <= series_count (w_db w') h)%Z.
Proof.
  intros W Hstep Hne. step_cases Hstep; try reflexivity.
  - unfold series_count. pose proof (f_equal (lookup h) Ect) as E. rewrite !lookup_fmap in E.
    destruct (ob_counters (w_db w) !! h), (ob_counters db' !! h); cbn in E; try done. injection E as ->. done.
  - by rewrite (capture_counts _ _ _ _ _ _ _ _ h Hc).
  - rewrite (capture_counts _ _ _ _ _ _ _ _ h Hc). apply next_position_counts in Hn as (_ & _ & Hlt & Hother).
    destruct (decide (h = handle)) as [->|Hh]; [lia|]. by rewrite Hother.
  - pose proof (claim_short _ _ _ _ _ _ _ _ _ Hc). rewrite claim_eq in Hc by (done || apply W).
    destruct (existsb _ _); [done|]. injection Hc as <- _. unfold refresh_backlog_estimate. by case_match.
  - rewrite mark_published_batch_eq in Hm. by injection Hm as <- _.
  - unfold renew_claim in Hr. case_match; [done|]. by injection Hr as <- _.
  - unfold release in Hr. by injection Hr as <- _.
  - unfold register in Hr. case_bool_decide; by injection Hr as <-.
  - unfold retire in Hr. case_match; by injection Hr as <- _.
  - unfold prune_published in Hp. by injection Hp as <- _.
  - unfold cancel_undelivered_for_forget. by repeat case_match.
  - unfold series_count. cbn. rewrite lookup_delete_ne by congruence. done.
Qed.

Lemma run_counts w acts w' h :
  world_ok w -> outbox_run w acts w' -> ActSeriesErased h ∉ acts ->
  (series_count (w_db w) h <= series_count (w_db w') h)%Z.
Proof.
  intros Hw Hrun. induction Hrun as [|w a w1 acts w' Hstep _ IH]; [done|]. rewrite elem_of_cons. intros Hnot.
  etrans; [eapply step_counts; [apply Hw|done|naive_solver]|]. apply IH; [by eapply step_ok|naive_solver].
Qed.

Lemma run_app_inv w acts1 acts2 w' :
  outbox_run w (acts1 ++ acts2) w' -> exists w1, outbox_run w acts1 w1 /\ outbox_run w1 acts2 w'.
Proof.
  revert w. induction acts1 as [|a acts1 IH]; intros w Hrun; [exists w; by split; [constructor|]|].
  inversion Hrun as [|? w1 ? ? Hstep Hrest]; subst. apply IH in Hrest as (w2 & H12 & H23).
  exists w2. split; [by econstructor|done].
Qed.

Lemma publish_counts w position t w' :
  outbox_step w (ActPublish position t) w' ->
  let h := position_subject position in
  Z.of_N (position_sequence position) = series_count (w_db w') h
  /\ (series_count (w_db w) h < series_count (w_db w') h)%Z.
Proof.
  intros Hstep h. inversion Hstep as [| |now owner_id handle t' occurred_at plan p db1 db' Hn Hc E| | | | | | | | | | |]; subst.
  cbn [w_db]. rewrite (capture_counts _ _ _ _ _ _ _ _ h Hc).
  by apply next_position_counts in Hn as (<- & ? & ? & _).
Qed.

(** The positions of one series' events only grow: of two Facts published
    in a series, the later always carries the greater sequence number, whatever
    was forgotten, transferred or delivered in between, as long as the series
    itself was not erased. *)
Theorem series_positions_increase (before between : list OutboxAct) (p p' : SubjectPosition) (t t' : Uuid)
    (w : OutboxWorld)
    (Hrun : outbox_run installed_world (before ++ ActPublish p t :: between ++ [ActPublish p' t']) w)
    (Hsubject : position_subject p' = position_subject p)
    (Hkept : ActSeriesErased (position_subject p) ∉ between) :
  (position_sequence p < position_sequence p')%N.
Proof.
  apply run_app_inv in Hrun as (w0 & Hbefore & Hrun). inversion Hrun as [|? w1 ? ? Hfirst Hrest]; subst.
  apply run_app_inv in Hrest as (w2 & Hbetween & Hlast). inversion Hlast as [|? w3 ? ? Hsecond Hnil]; subst.
  pose proof (run_world_ok _ _ _ installed_world_ok Hbefore) as Hw0. pose proof (step_ok _ _ _ Hw0 Hfirst) as Hw1.
  destruct (publish_counts _ _ _ _ Hfirst) as [E1 _]. destruct (publish_counts _ _ _ _ Hsecond) as [E2 Hlt].
  pose proof (run_counts _ _ _ _ Hw1 Hbetween Hkept). rewrite Hsubject in *. lia.
Qed.

End delivery.

(** ** A run, for the witnesses

    Two Facts of one series are published; the consumer [default] claims the
    first, lets its lease run out, claims it again and marks it. *)

Module SampleRun.

#[local] Instance texts : PgText := fun _ => [].
#[local] Instance intervals : PgInterval := fun d => (d / 1000)%Z.
#[local] Instance uuids : UuidText := {| hyphenated := display_u64; try_parse s := Some (numeral s) |}.

Definition rfc3339 (_ : unit) : result rstring rstring := Ok (str "2026-01-01T00:00:00Z").
Definition to_vec (members : list (rstring * Json)) : result (list N) rstring := Ok [N.of_nat (length members)].
Definition hash (_ : list N) : list N := repeat 0%N 32.

Abbreviation step := (outbox_step rfc3339 to_vec hash).
Abbreviation run := (outbox_run rfc3339 to_vec hash).

Definition committed {A} (r : result (OutboxDb * A) StorageError) : OutboxDb :=
  match r with Ok (db, _) => db | Err _ => installed end.
Definition answered {A} (a : A) (r : result (OutboxDb * A) StorageError) : A :=
  match r with Ok (_, a) => a | Err _ => a end.

Definition consumer : ConsumerName := ConsumerName.default.
Definition publisher : PublisherId := mk_PublisherId (str "proxiima:1").

Definition db1 : OutboxDb :=
  mk_OutboxDb (ob_consumers installed) ∅ ∅ ∅ ∅ (ob_backlog installed) {[ 5%N ]} {[ 77%N := 5%N ]}
    (<[ 9%N := mk_FactRow 5 None ]> {[ 10%N := mk_FactRow 5 None ]}) ∅.

Definition publish (now : Timestamp) (t : Uuid) (db : OutboxDb) : result (OutboxDb * SubjectPosition) StorageError :=
  let? (db, position) := next_series_position 77 db in
  let? db := capture_publication_in_tx rfc3339 to_vec hash now 5 t (Some tt) sample_plan position db in
  Ok (db, position).

Definition db2 : OutboxDb := committed (publish 100 9 db1).
Definition db3 : OutboxDb := committed (publish 200 10 db2).

Definition claim_at (now : Timestamp) (first : Uuid) (db : OutboxDb) :
    result (OutboxDb * list ClaimedPublication) StorageError :=
  claim now (fun _ => false) (fun t => first + t)%N consumer publisher 1 2000000000 db.

Definition db4 : OutboxDb := committed (claim_at 1000 1000 db3).
Definition handed4 : list ClaimedPublication := answered [] (claim_at 1000 1000 db3).
Definition db5 : OutboxDb := committed (claim_at 1000 2000 db4).
Definition handed5 : list ClaimedPublication := answered [] (claim_at 1000 2000 db4).
Definition db6 : OutboxDb := committed (claim_at 3000000 3000 db5).
Definition handed6 : list ClaimedPublication := answered [] (claim_at 3000000 3000 db5).
Definition db7 : OutboxDb :=
  committed (mark_published_batch 3000100 consumer [(9%N, mk_ClaimToken 3009)] db6).

Definition w1 : OutboxWorld := mk_OutboxWorld db1 ∅.
Definition w2 : OutboxWorld := mk_OutboxWorld db2 ∅.
Definition w3 : OutboxWorld := mk_OutboxWorld db3 ∅.
Definition w4 : OutboxWorld := mk_OutboxWorld db4 (handed_tokens handed4 ∪ w_issued w3).
Definition w5 : OutboxWorld := mk_OutboxWorld db5 (handed_tokens handed5 ∪ w_issued w4).
Definition w6 : OutboxWorld := mk_OutboxWorld db6 (handed_tokens handed6 ∪ w_issued w5).
Definition w7 : OutboxWorld := mk_OutboxWorld db7 (w_issued w6).

Definition default_lane : rstring := ConsumerName.DEFAULT.

Lemma tokens4 x : x ∈ w_issued w4 <-> x = 1009%N.
Proof.
  unfold w4. cbn [w_issued w3]. replace (handed_tokens handed4) with ({[ 1009%N ]} : gset Uuid) by (vm_compute; reflexivity).
  set_solver.
Qed.

Lemma tokens5 x : x ∈ w_issued w5 <-> x = 2010%N \/ x = 1009%N.
Proof.
  unfold w5. cbn [w_issued]. rewrite elem_of_union, tokens4.
  replace (handed_tokens handed5) with ({[ 2010%N ]} : gset Uuid) by (vm_compute; reflexivity).
  by rewrite elem_of_singleton.
Qed.

Lemma step1 : step installed_world ActEnvironment w1.
Proof. apply st_environment. split_and!; try reflexivity; cbn; set_solver. Qed.

Lemma step2 : step w1 (ActPublish (mk_SubjectPosition 77 1) 9) w2.
Proof.
  apply (st_publish _ _ _ w1 100 5 77 9 (Some tt) sample_plan (mk_SubjectPosition 77 1)
           (committed (next_series_position 77 db1)) db2); vm_compute; reflexivity.
Qed.

Lemma step3 : step w2 (ActPublish (mk_SubjectPosition 77 2) 10) w3.
Proof.
  apply (st_publish _ _ _ w2 200 5 77 10 (Some tt) sample_plan (mk_SubjectPosition 77 2)
           (committed (next_series_position 77 db2)) db3); vm_compute; reflexivity.
Qed.

Lemma step4 : step w3 (ActClaim 1000 default_lane handed4) w4.
Proof.
  apply (st_claim _ _ _ w3 1000 (fun _ => false) (fun t => 1000 + t)%N consumer publisher 1 2000000000 db4 handed4);
    [intros x y; lia|set_solver|vm_compute; reflexivity].
Qed.

Lemma step5 : step w4 (ActClaim 1000 default_lane handed5) w5.
Proof.
  apply (st_claim _ _ _ w4 1000 (fun _ => false) (fun t => 2000 + t)%N consumer publisher 1 2000000000 db5 handed5);
    [intros x y; lia|intros t; rewrite tokens4; lia|vm_compute; reflexivity].
Qed.

Lemma step6 : step w5 (ActClaim 3000000 default_lane handed6) w6.
Proof.
  apply (st_claim _ _ _ w5 3000000 (fun _ => false) (fun t => 3000 + t)%N consumer publisher 1 2000000000 db6 handed6);
    [intros x y; lia|intros t; rewrite tokens5; lia|vm_compute; reflexivity].
Qed.

Lemma step7 :
  step w6 (ActMark 3000100 default_lane [(9%N, mk_ClaimToken 3009)] [AckPublished]) w7.
Proof. apply (st_mark _ _ _ w6 3000100 consumer _ _ db7). vm_compute. reflexivity. Qed.

Definition acts3 : list OutboxAct :=
  [ActEnvironment; ActPublish (mk_SubjectPosition 77 1) 9; ActPublish (mk_SubjectPosition 77 2) 10].
Definition acts4 : list OutboxAct := acts3 ++ [ActClaim 1000 default_lane handed4].
Definition acts6 : list OutboxAct :=
  acts4 ++ [ActClaim 1000 default_lane handed5; ActClaim 3000000 default_lane handed6].
Definition last_mark : OutboxAct :=
  ActMark 3000100 default_lane [(9%N, mk_ClaimToken 3009)] [AckPublished].
Definition acts7 : list OutboxAct := acts6 ++ [last_mark].

Lemma run3 : run installed_world acts3 w3.
Proof.
  eapply run_step; [exact step1|]. eapply run_step; [exact step2|]. eapply run_step; [exact step3|]. apply run_nil.
Qed.

Lemma run_trans w acts1 w0 acts2 w' : run w acts1 w0 -> run w0 acts2 w' -> run w (acts1 ++ acts2) w'.
Proof. induction 1; [done|]. intros Hrest. cbn. eapply run_step; eauto. Qed.

Lemma run4 : run installed_world acts4 w4.
Proof. eapply run_trans; [exact run3|]. eapply run_step; [exact step4|]. apply run_nil. Qed.

Lemma run6 : run installed_world acts6 w6.
Proof.
  eapply run_trans; [exact run4|]. eapply run_step; [exact step5|]. eapply run_step; [exact step6|]. apply run_nil.
Qed.

Lemma run67 : run w6 [last_mark] w7.
Proof. eapply run_step; [exact step7|]. apply run_nil. Qed.

Lemma run7 : run installed_world acts7 w7.
Proof. eapply run_trans; [exact run6|exact run67]. Qed.

Definition delivery_acts : list OutboxAct :=
  [ActClaim 1000 default_lane handed4; ActClaim 1000 default_lane handed5;
   ActClaim 3000000 default_lane handed6; last_mark].

Lemma run37 : run w3 delivery_acts w7.
Proof.
  eapply run_step; [exact step4|]. eapply run_step; [exact step5|]. eapply run_step; [exact step6|]. exact run67.
Qed.

Definition lane_at (db : OutboxDb) (t : Uuid) : LaneRow := default new_lane (ob_lanes db !! (t, default_lane)).

Lemma lane3 t : t = 9%N \/ t = 10%N -> ob_lanes db3 !! (t, default_lane) = Some (lane_at db3 t).
Proof. intros [-> | ->]; vm_compute; reflexivity. Qed.
Lemma lane4 : ob_lanes db4 !! (9%N, default_lane) = Some (lane_at db4 9).
Proof. vm_compute. reflexivity. Qed.
Lemma lane6 : ob_lanes db6 !! (9%N, default_lane) = Some (lane_at db6 9).
Proof. vm_compute. reflexivity. Qed.

Lemma token6 : lane_claim_token (lane_at db6 9) = Some 3009%N.
Proof. vm_compute. reflexivity. Qed.

Lemma outbox_stays_settled_witness : outbox_wf db7.
Proof. apply (outbox_stays_settled rfc3339 to_vec hash acts7 w7 run7). Defined.

Lemma undelivered_until_marked_witness :
  undelivered w7 9 default_lane
  \/ reported_published delivery_acts 9 default_lane.
Proof.
  apply (undelivered_until_marked rfc3339 to_vec hash acts3 delivery_acts w3 w7 9 default_lane run3).
  - exists (lane_at db3 9). split; [apply lane3; by left|vm_compute; discriminate].
  - exact run37.
  - unfold delivery_acts, last_mark. rewrite !not_elem_of_cons. split_and!; try discriminate. apply not_elem_of_nil.
  - unfold delivery_acts, last_mark. rewrite !not_elem_of_cons. split_and!; try discriminate. apply not_elem_of_nil.
  - intros ts. unfold delivery_acts, last_mark. rewrite !elem_of_cons. intros [E|[E|[E|[E|E]]]]; try discriminate. by apply elem_of_nil in E.
Defined.

Lemma superseded_claim_is_fenced_witness :
  renew_claim 3000200 consumer 9 (mk_ClaimToken 1009) 2000000000 db7 = Ok (db7, false).
Proof.
  destruct (superseded_claim_is_fenced rfc3339 to_vec hash acts6 [last_mark] w6 w7 9 consumer
              (mk_ClaimToken 1009) 3000200 2000000000 run6) as (_ & Hrenew & _); [| | | |exact Hrenew].
  - cbn [ClaimToken_0]. unfold w6. cbn [w_issued]. apply elem_of_union_r, tokens5. by right.
  - intros (lane & Hl & Ht). cbn [w_db w6] in Hl. change (ConsumerName.as_str consumer) with default_lane in Hl.
    rewrite lane6 in Hl. apply (inj Some) in Hl. rewrite <-Hl, token6 in Ht. discriminate Ht.
  - exact run67.
  - vm_compute. discriminate.
Defined.

Lemma a_lease_is_exclusive_witness :
  holds_claim w5 9 default_lane 1009
  \/ ActClaim 1000 default_lane handed5 = ActRelease default_lane 9 (mk_ClaimToken 1009)
  \/ (exists now claims outcomes, ActClaim 1000 default_lane handed5 = ActMark now default_lane claims outcomes
        /\ (9%N, mk_ClaimToken 1009) ∈ claims /\ (now < 2001000)%Z)
  \/ (exists now handed, ActClaim 1000 default_lane handed5 = ActClaim now default_lane handed /\ (2001000 < now)%Z)
  \/ ActClaim 1000 default_lane handed5 = ActRetire default_lane
  \/ ActClaim 1000 default_lane handed5 = ActForget 9
  \/ (exists ts, ActClaim 1000 default_lane handed5 = ActErase ts /\ 9%N ∈ ts).
Proof.
  apply (a_lease_is_exclusive rfc3339 to_vec hash acts4 w4 w5 _ 9 default_lane (lane_at db4 9) 1009 2001000 run4 lane4);
    [vm_compute; reflexivity|vm_compute; reflexivity|exact step5].
Defined.

Lemma overtaken4 : overtaken rfc3339 to_vec hash 10 default_lane w3 1 0 w4.
Proof.
  eapply ov_pass; [exact step4| |apply ov_nil].
  exists 1000%Z, (fun _ => false), (fun t => 1000 + t)%N, consumer, publisher, 1%N, 2000000000%Z, handed4, (lane_at db3 10).
  split_and!; [reflexivity|reflexivity|vm_compute; reflexivity|done|apply lane3; by right|vm_compute; reflexivity
    |vm_compute; reflexivity|reflexivity|].
  replace (cp_id <$> handed4) with [9%N] by (vm_compute; reflexivity). set_solver.
Qed.

Lemma overtaking_is_bounded_witness :
  1 <= ahead (lane_attempts (lane_at db3 10)) default_lane db3
       + 0 * Z.to_nat (lane_attempts (lane_at db3 10) + 1).
Proof.
  apply (overtaking_is_bounded rfc3339 to_vec hash acts3 w3 w4 10 default_lane (lane_at db3 10) 1 0 run3);
    [apply lane3; by right|exact overtaken4].
Defined.

Lemma series_positions_increase_witness : (1 < 2)%N.
Proof.
  apply (series_positions_increase rfc3339 to_vec hash [ActEnvironment] [] (mk_SubjectPosition 77 1)
           (mk_SubjectPosition 77 2) 9 10 w3);
    [exact run3|reflexivity|apply not_elem_of_nil].
Defined.

Lemma mark_batch_is_its_marks_witness :
  mark_published_batch 3000100 consumer [(9%N, mk_ClaimToken 3009); (10%N, mk_ClaimToken 1009)] db6
  = mark_each 3000100 consumer [(9%N, mk_ClaimToken 3009); (10%N, mk_ClaimToken 1009)] db6.
Proof. apply (mark_batch_is_its_marks 3000100 consumer). repeat constructor; set_solver. Defined.

Lemma claim_hands_out_the_next_lanes_witness :
  exists db' handed,
    claim 1000 (fun _ => false) (fun t => 1000 + t)%N consumer publisher 1 2000000000 db3 = Ok (db', handed)
    /\ ob_records db' = ob_records db3.
Proof.
  destruct (claim_hands_out_the_next_lanes 1000 (fun _ => false) (fun t => 1000 + t)%N consumer publisher 1 2000000000 db3)
    as (db' & handed & Hc & _ & _ & _ & Hr).
  - apply (run_world_ok rfc3339 to_vec hash _ _ _ (installed_world_ok) run3).
  - vm_compute. discriminate.
  - intros t lane Hl. change (ConsumerName.as_str consumer) with default_lane in Hl.
    assert (map_Forall (fun _ lane => lane_attempts lane < I32_MAX)%Z (ob_lanes db3)) as Hall.
    { apply (bool_decide_unpack _). vm_compute. exact I. }
    by apply (Hall (t, default_lane)).
  - exact (ex_intro _ db' (ex_intro _ handed (conj Hc Hr))).
Defined.

End SampleRun.
