(* ===== verification/Intake.v ===== *)
(** * Receiving captured events

    [crates/core/src/publication/intake.rs]: the envelope as read back from the
    captured bytes, the event a durable intake is handed for a claimed record,
    and the identity it deduplicates on. *)

From S2P Require Import Prelude Ids Decimal Json Publication Errors Outbox OutboxDelivery.

(** ** The received envelope *)

(** [CloudEventEnvelope] on the receiving side. *)
Record ReceivedEnvelope := mk_ReceivedEnvelope {
  env_specversion : rstring;
  env_id : rstring;
  env_source : rstring;
  env_event_type : rstring;
  env_datacontenttype : option rstring;
  env_dataschema : option rstring;
  env_time : option rstring;
  env_subject : option rstring;
  env_sequence : option rstring;
  env_proxiimaowner : option rstring;
  env_proxiimamodel : option rstring;
  env_extensions : gmap rstring Json;
  env_data : Json;
}.

(** Why captured bytes are not an event; the caller only looks at the category. *)
Inductive EnvelopeError :=
| NotAnObject
| DuplicateField (name : rstring)
| InvalidType (name : rstring)
| MissingField (name : rstring)
| MissingPosition
| BadPosition (error : SubjectPositionError).

Module ReceivedEnvelope.

Definition required : list rstring := [str "specversion"; str "id"; str "source"; str "type"].
Definition optional : list rstring :=
  [str "datacontenttype"; str "dataschema"; str "time"; str "subject"; str "sequence"; str "proxiimaowner";
   str "proxiimamodel"].

Definition is_required (name : rstring) : bool := slice_contains name required.
Definition is_optional (name : rstring) : bool := slice_contains name optional.
Definition is_data (name : rstring) : bool := bool_decide (name = str "data").
Definition known (name : rstring) : bool := is_required name || is_optional name || is_data name.

(** A value of the field's type: a string, a string or null, or anything. *)
Definition typed (name : rstring) (value : Json) : bool :=
  if is_required name then is_some (Json.as_str value)
  else if is_optional name then match value with JNull | JString _ => true | _ => false end
  else true.

(** The derived [visit_map]: a named field once and of its type, anything else
    set aside for [extensions]. *)
Fixpoint visit (seen : list rstring) (members : list (rstring * Json)) : result unit EnvelopeError :=
  match members with
  | [] => Ok tt
  | (name, value) :: rest =>
      if negb (known name) then visit seen rest
      else if slice_contains name seen then Err (DuplicateField name)
      else if negb (typed name value) then Err (InvalidType name)
      else visit (name :: seen) rest
  end.

Definition string_field (name : rstring) (members : list (rstring * Json)) : result rstring EnvelopeError :=
  ok_or (Json.lookup name members ≫= Json.as_str) (MissingField name).
Definition optional_field (name : rstring) (members : list (rstring * Json)) : option rstring :=
  Json.lookup name members ≫= Json.as_str.

(** [#[serde(flatten)]]: every member no field names, a later one winning. *)
Definition flattened (members : list (rstring * Json)) : gmap rstring Json :=
  list_to_map (reverse (filter (fun m => known m.1 = false) members)).

Definition deserialize (members : list (rstring * Json)) : result ReceivedEnvelope EnvelopeError :=
  let? _ := visit [] members in
  let? specversion := string_field (str "specversion") members in
  let? id := string_field (str "id") members in
  let? source := string_field (str "source") members in
  let? event_type := string_field (str "type") members in
  let? data := ok_or (Json.lookup (str "data") members) (MissingField (str "data")) in
  Ok (mk_ReceivedEnvelope specversion id source event_type
        (optional_field (str "datacontenttype") members) (optional_field (str "dataschema") members)
        (optional_field (str "time") members) (optional_field (str "subject") members)
        (optional_field (str "sequence") members) (optional_field (str "proxiimaowner") members)
        (optional_field (str "proxiimamodel") members) (flattened members) data).

End ReceivedEnvelope.

(** ** Events *)

Record ReceivedEvent := mk_ReceivedEvent {
  re_id : rstring;
  re_owner : OwnerId;
  re_delivered_count : N;
  re_raw : list N;
  re_envelope : ReceivedEnvelope;
  re_position : SubjectPosition;
}.

Inductive EventIdentity :=
| IdentityFact (id : MemoryId)
| IdentityOpaque (id : rstring).

(** [Intake] and [IntakeError]. *)
Inductive Intake := IntakeAccepted | IntakeRejected (reason : rstring).
Record IntakeError := mk_IntakeError { intake_message : rstring }.

Section intake.
Context `{UuidText}.

(** [serde_json]'s parser on bytes: the members of the object they spell. *)
Context (from_slice : list N -> option (list (rstring * Json))).

Definition from_record (record : ClaimedPublication) : result ReceivedEvent EnvelopeError :=
  let? members := ok_or (from_slice (cp_envelope record)) NotAnObject in
  let? envelope := ReceivedEnvelope.deserialize members in
  match env_subject envelope, env_sequence envelope with
  | Some subject, Some sequence =>
      let? position := map_err BadPosition (SubjectPosition.parse subject sequence) in
      Ok (mk_ReceivedEvent (cp_event_id record) (mk_OwnerId (cp_owner_id record)) (cp_attempts record)
            (cp_envelope record) envelope position)
  | _, _ => Err MissingPosition
  end.

Definition identity (self : ReceivedEvent) : EventIdentity :=
  match try_parse (re_id self) with
  | Some uuid => if bool_decide (hyphenated uuid = re_id self) then IdentityFact (mk_MemoryId uuid)
                 else IdentityOpaque (re_id self)
  | None => IdentityOpaque (re_id self)
  end.

(** Deduplicating on the typed identity and on the event id agree: two
    events have the same identity exactly when they have the same id. *)
Theorem identities_agree_with_ids (a b : ReceivedEvent) :
  identity a = identity b <-> re_id a = re_id b.
Proof.
  unfold identity. split; [|by intros ->].
  destruct (try_parse (re_id a)) as [u|]; [case_bool_decide as Hu|];
    (destruct (try_parse (re_id b)) as [v|]; [case_bool_decide as Hv|]); intros E; try done; injection E; congruence.
Qed.

End intake.

(** ** What was sealed is what is received *)

Lemma known_substrate name : ReceivedEnvelope.known name = true <-> name ∈ substrate_names.
Proof.
  unfold ReceivedEnvelope.known, ReceivedEnvelope.is_required, ReceivedEnvelope.is_optional, ReceivedEnvelope.is_data.
  rewrite !orb_true_iff, !slice_contains_true, bool_decide_eq_true.
  unfold ReceivedEnvelope.required, ReceivedEnvelope.optional, substrate_names. set_solver.
Qed.

Lemma visit_ok seen members :
  NoDup members.*1 -> (forall name, name ∈ members.*1 -> name ∉ seen) ->
  (forall name value, (name, value) ∈ members -> ReceivedEnvelope.known name = true ->
     ReceivedEnvelope.typed name value = true) ->
  ReceivedEnvelope.visit seen members = Ok tt.
Proof.
  revert seen. induction members as [|[name value] rest IH]; intros seen Hnd Hseen Hty; [done|]. cbn.
  cbn in Hnd. apply list.NoDup_cons in Hnd as [Hn Hnd].
  destruct (ReceivedEnvelope.known name) eqn:Hk; cbn.
  - assert (slice_contains name seen = false) as ->.
    { apply not_true_iff_false. rewrite slice_contains_true. apply Hseen. left. }
    rewrite (Hty name value) by (done || left). cbn. apply IH; [done| |].
    + intros n Hin. rewrite not_elem_of_cons. split; [congruence|]. apply Hseen. by right.
    + intros n v Hin. apply Hty. by right.
  - apply IH; [done| |]; [intros n Hin; apply Hseen; by right|intros n v Hin; apply Hty; by right].
Qed.

Section received.
Context (id source event_type dataschema time subject sequence owner : rstring) (model : option rstring)
  (extensions : PublicationExtensions) (data : Json).
Context (Hwf : extensions_wf extensions).

Let envelope : list (rstring * Json) :=
  CloudEventEnvelope id source event_type dataschema time subject sequence owner model extensions data.

Lemma extension_unknown name value :
  PublicationExtensions_0 extensions !! name = Some value -> ReceivedEnvelope.known name = false.
Proof.
  intros Hin. apply not_true_iff_false. rewrite known_substrate. intros Hs.
  destruct Hwf as [_ Hval]. apply Hval in Hin as [Hin _]. by apply (substrate_names_reserved name Hs).
Qed.

(** A member is a substrate attribute or a bound extension. *)
Lemma envelope_member name value :
  (name, value) ∈ envelope ->
  ReceivedEnvelope.typed name value = true
  /\ (ReceivedEnvelope.known name = true
      \/ exists v, PublicationExtensions_0 extensions !! name = Some v /\ value = extension_json v).
Proof.
  unfold envelope, CloudEventEnvelope. rewrite !elem_of_app, list_elem_of_singleton.
  intros [Hin|[Hin|[Hin|[= -> ->]]]].
  - rewrite !elem_of_cons in Hin.
    repeat (destruct Hin as [[= -> ->]|Hin]; [split; [done|left; apply known_substrate; unfold substrate_names; set_solver]|]).
    by apply elem_of_nil in Hin.
  - destruct model; [|by apply elem_of_nil in Hin]. apply list_elem_of_singleton in Hin as [= -> ->].
    split; [done|left; apply known_substrate; unfold substrate_names; set_solver].
  - apply list_elem_of_fmap in Hin as ([n v] & [= -> ->] & Hin%iter_elem). split; [|by eauto].
    pose proof (extension_unknown n v Hin) as Hk. unfold ReceivedEnvelope.known in Hk.
    apply orb_false_iff in Hk as [[Hr Ho]%orb_false_iff _]. unfold ReceivedEnvelope.typed. by rewrite Hr, Ho.
  - split; [done|left; apply known_substrate; unfold substrate_names; set_solver].
Qed.

Lemma envelope_nodup : NoDup envelope.*1.
Proof. by apply envelope_distinct. Qed.

Lemma lookup_member name value : (name, value) ∈ envelope -> Json.lookup name envelope = Some value.
Proof. apply json_lookup_Some, envelope_nodup. Qed.

Lemma flattened_extensions :
  ReceivedEnvelope.flattened envelope = extension_json <$> PublicationExtensions_0 extensions.
Proof.
  unfold ReceivedEnvelope.flattened. apply map_eq. intros name. apply option_eq. intros value.
  rewrite <-elem_of_list_to_map, elem_of_reverse, list_elem_of_filter, lookup_fmap, fmap_Some.
  2:{ rewrite reverse_Permutation. apply NoDup_filter_fst, envelope_nodup. }
  split.
  - intros [Hk Hin]. apply envelope_member in Hin as [_ [Hkn|Hext]]; [cbn in Hk; congruence|done].
  - intros (v & Hv & ->). split; [by eapply extension_unknown|].
    unfold envelope, CloudEventEnvelope. rewrite !elem_of_app. do 2 right. left.
    apply list_elem_of_fmap. exists (name, v). split; [done|by apply iter_elem].
Qed.

Lemma model_present m : model = Some m -> Json.lookup (str "proxiimamodel") envelope = Some (JString m).
Proof.
  intros Em. apply lookup_member. unfold envelope, CloudEventEnvelope. rewrite Em, !elem_of_app.
  right. left. by apply list_elem_of_singleton.
Qed.

Lemma model_absent : model = None -> Json.lookup (str "proxiimamodel") envelope = None.
Proof.
  intros Em. apply json_lookup_None. intros ([n v] & En & Hin)%list_elem_of_fmap. cbn in En. subst n.
  revert Hin. unfold envelope, CloudEventEnvelope. rewrite Em, !elem_of_app, list_elem_of_singleton.
  intros [Hin|[Hin|[Hin|Hin]]].
  - rewrite !elem_of_cons in Hin. repeat (destruct Hin as [Hin|Hin]; [discriminate Hin|]). by apply elem_of_nil in Hin.
  - by apply elem_of_nil in Hin.
  - apply list_elem_of_fmap in Hin as ([n v'] & [= <- ->] & Hin%iter_elem%extension_unknown). discriminate Hin.
  - discriminate Hin.
Qed.

Lemma model_lookup : ReceivedEnvelope.optional_field (str "proxiimamodel") envelope = model.
Proof.
  unfold ReceivedEnvelope.optional_field. pose proof model_present as Hs. pose proof model_absent as Hn.
  revert Hs Hn. generalize (Json.lookup (str "proxiimamodel") envelope). intros o Hs Hn.
  destruct model as [m|]; [by rewrite (Hs m)|by rewrite Hn].
Qed.

Lemma deserialize_sealed :
  ReceivedEnvelope.deserialize envelope
  = Ok (mk_ReceivedEnvelope CLOUDEVENTS_SPEC_VERSION id source event_type (Some CLOUDEVENTS_DATA_CONTENT_TYPE)
          (Some dataschema) (Some time) (Some subject) (Some sequence) (Some owner) model
          (extension_json <$> PublicationExtensions_0 extensions) data).
Proof.
  unfold ReceivedEnvelope.deserialize. rewrite visit_ok;
    [|apply envelope_nodup|intros n _; apply not_elem_of_nil|intros n v Hin _; by apply envelope_member in Hin as [Hty _]].
  rewrite model_lookup, flattened_extensions.
  unfold ReceivedEnvelope.string_field, ReceivedEnvelope.optional_field.
  rewrite (lookup_member (str "specversion") (JString CLOUDEVENTS_SPEC_VERSION)),
    (lookup_member (str "id") (JString id)), (lookup_member (str "source") (JString source)),
    (lookup_member (str "type") (JString event_type)),
    (lookup_member (str "datacontenttype") (JString CLOUDEVENTS_DATA_CONTENT_TYPE)),
    (lookup_member (str "dataschema") (JString dataschema)), (lookup_member (str "time") (JString time)),
    (lookup_member (str "subject") (JString subject)), (lookup_member (str "sequence") (JString sequence)),
    (lookup_member (str "proxiimaowner") (JString owner)), (lookup_member (str "data") data); [done|..];
    unfold envelope, CloudEventEnvelope; rewrite !elem_of_app;
    first [do 3 right; by apply list_elem_of_singleton|left; rewrite !elem_of_cons; tauto].
Qed.

End received.

(** ** From capture to intake *)

(** An integer of 64 bits, signed or not, as [serde_json] prints it. *)
Definition integer_literal (literal : rstring) : bool :=
  match literal with
  | [] => false
  | c :: digits =>
      if (c =? chr "-")%N
      then bool_decide (digits = display_u64 (numeral digits)) && (0 <? numeral digits)%N && (numeral digits <=? 2 ^ 63)%N
      else bool_decide (literal = display_u64 (numeral literal)) && (numeral literal <? 2 ^ 64)%N
  end.

(** A value with integers for numbers, and each key of an object once. *)
Fixpoint json_exact (v : Json) : bool :=
  match v with
  | JNull | JBool _ | JString _ => true
  | JNumber literal => integer_literal literal
  | JArray items => forallb json_exact items
  | JObject members => bool_decide (NoDup (map fst members)) && forallb (fun '(_, w) => json_exact w) members
  end.

Fixpoint json_depth (v : Json) : nat :=
  match v with
  | JArray items => S (foldr max 0 (map json_depth items))
  | JObject members => S (foldr max 0 (map (fun '(_, w) => json_depth w) members))
  | _ => 0
  end.

(** A member of an object that [serde_json] reads back as it wrote it.  Floats
    are left out: without the feature [float_roundtrip] reading one back may
    change its last digit.  The parser's recursion limit is 128 deep, and the
    object itself is one level. *)
Definition reads_back (v : Json) : bool := json_exact v && (json_depth v <=? 126).

Lemma display_u64_head n c rest : display_u64 n = c :: rest -> c <> chr "-".
Proof.
  intros E. pose proof (proj1 (display_u64_spec n)) as Hd. rewrite E in Hd. cbn [forallb] in Hd.
  apply andb_prop in Hd as [Hd _]. apply is_ascii_digit_bounds in Hd. intros ->. vm_compute in Hd. destruct Hd as [Hd _]. by apply Hd.
Qed.

Lemma display_u64_nonempty n : display_u64 n <> [].
Proof.
  unfold display_u64. cbn [digits_fuel]. destruct (_ =? 0)%N; [done|]. rewrite digits_fuel_app.
  by destruct (digits_fuel _ _ []).
Qed.

Lemma integer_literal_i32 i : (- 2 ^ 31 <= i < 2 ^ 31)%Z -> integer_literal (display_i32 i) = true.
Proof.
  intros Hi. unfold display_i32, integer_literal. destruct (Z.ltb_spec i 0).
  - destruct (display_u64_spec (Z.to_N (- i))) as [_ ->]. cbn [N.eqb]. rewrite N.eqb_refl, bool_decide_true by done.
    cbn [andb]. apply andb_true_intro. split; [apply N.ltb_lt|apply N.leb_le]; lia.
  - destruct (display_u64 (Z.to_N i)) as [|c rest] eqn:E.
    { by apply display_u64_nonempty in E. }
    rewrite (proj2 (N.eqb_neq _ _) (display_u64_head _ _ _ E)), <-E, (proj2 (display_u64_spec _)), bool_decide_true by done.
    apply N.ltb_lt. lia.
Qed.

(** The type invariant of an integer attribute, an [i32]. *)
Definition i32_extensions (extensions : PublicationExtensions) : Prop :=
  forall name i, PublicationExtensions_0 extensions !! name = Some (EInteger i) -> (- 2 ^ 31 <= i < 2 ^ 31)%Z.

(** Every member of an envelope reads back when its data does. *)
Lemma envelope_reads_back id source event_type dataschema time subject sequence owner model extensions data :
  i32_extensions extensions -> reads_back data = true ->
  Forall (fun member => reads_back member.2 = true)
    (CloudEventEnvelope id source event_type dataschema time subject sequence owner model extensions data).
Proof.
  intros Hi Hd. unfold CloudEventEnvelope. rewrite !list.Forall_app. split_and!.
  - by repeat constructor.
  - destruct model; by repeat constructor.
  - apply list.Forall_forall. intros m ([name v] & -> & Hin%iter_elem)%list_elem_of_fmap. cbn.
    destruct v as [s|i|b]; [done| |done]. unfold reads_back. cbn. by rewrite integer_literal_i32 by (by eapply Hi).
  - by repeat constructor.
Qed.

Section end_to_end.
Context `{PgText} `{PgInterval} `{!UuidText} `{!UuidTextLaws}.
Context {OffsetDateTime : Type} (rfc3339 : OffsetDateTime -> result rstring rstring)
  (to_vec : list (rstring * Json) -> result (list N) rstring) (hash : list N -> list N)
  (from_slice : list N -> option (list (rstring * Json))).

(** [serde_json] reads back an object it wrote, where its members read back. *)
Hypothesis serde_json_round_trip : forall members bytes,
  Forall (fun member => reads_back member.2 = true) members -> to_vec members = Ok bytes -> from_slice bytes = Some members.

Lemma sealed_is_received plan t at_ position sealed cp :
  extensions_wf (draft_extensions (plan_draft plan)) -> position_wf position ->
  i32_extensions (draft_extensions (plan_draft plan)) -> reads_back (draft_data (plan_draft plan)) = true ->
  SealedPublication.seal rfc3339 to_vec hash plan t at_ position = Ok sealed ->
  cp_envelope cp = sealed_bytes sealed ->
  exists event time, from_record from_slice cp = Ok event
    /\ rfc3339 at_ = Ok time
    /\ re_id event = cp_event_id cp /\ re_owner event = mk_OwnerId (cp_owner_id cp)
    /\ re_delivered_count event = cp_attempts cp /\ re_raw event = cp_envelope cp
    /\ re_position event = position
    /\ env_id (re_envelope event) = hyphenated t
    /\ env_source (re_envelope event) = PublicationSource.as_str (draft_source (plan_draft plan))
    /\ env_event_type (re_envelope event) = draft_event_type (plan_draft plan)
    /\ env_time (re_envelope event) = Some time
    /\ env_proxiimamodel (re_envelope event) = draft_model_id (plan_draft plan)
    /\ env_extensions (re_envelope event)
       = extension_json <$> PublicationExtensions_0 (draft_extensions (plan_draft plan))
    /\ env_data (re_envelope event) = draft_data (plan_draft plan).
Proof.
  intros Hwf Hpos Hi Hdata Hs Hbytes. unfold SealedPublication.seal in Hs.
  destruct (rfc3339 at_) as [time|] eqn:Ht; [|discriminate]. cbn [map_err] in Hs.
  match type of Hs with context [to_vec ?e] => set (env := e) in * end.
  destruct (to_vec env) as [bs|] eqn:Hv; [|discriminate]. cbn [map_err] in Hs.
  destruct (_ <? _)%N; [discriminate|]. injection Hs as <-. cbn [sealed_bytes] in Hbytes.
  unfold from_record. rewrite Hbytes, (serde_json_round_trip env bs) by (done || by apply envelope_reads_back). cbn [ok_or].
  unfold env at 1. rewrite deserialize_sealed by done. cbn [env_subject env_sequence].
  rewrite (subject_position_parses position Hpos). cbn [map_err].
  eexists _, time. split; [reflexivity|]. by split_and!.
Qed.

(** C32. A captured event reaches the intake verbatim.  Whatever happened to
    the outbox since the capture, when a claim hands the record over, its bytes
    are the ones sealed at the capture.  Where the event's data holds no float
    and is nested at most 126 deep, which is what [serde_json] reads back as it
    wrote it, the record is an event for the intake with those bytes, the Fact's
    id as the key to deduplicate on, its owner, its series position, its source,
    type, time, model and data, and exactly the extension attributes the host
    bound, whose integers are [i32] by their type. *)
Theorem captured_event_reaches_intake
    (before acts : list OutboxAct) (w0 w : OutboxWorld) (now : Timestamp) (owner_id t : Uuid) (at_ : OffsetDateTime)
    (plan : PublicationPlan) (position : SubjectPosition) (db1 db' : OutboxDb)
    (now' : Timestamp) (locked : Uuid -> bool) (mint : Uuid -> Uuid) (consumer : ConsumerName)
    (publisher : PublisherId) (limit : N) (lease : Duration) (handed : list ClaimedPublication)
    (cp : ClaimedPublication)
    (Hreach : outbox_run rfc3339 to_vec hash installed_world before w0)
    (Hcapture : capture_publication_in_tx rfc3339 to_vec hash now owner_id t (Some at_) plan position (w_db w0)
                = Ok db1)
    (Hrun : outbox_run rfc3339 to_vec hash (mk_OutboxWorld db1 (w_issued w0)) acts w)
    (Honce : forall a, a ∈ acts -> captured a <> Some t)
    (Hclaim : claim now' locked mint consumer publisher limit lease (w_db w) = Ok (db', handed))
    (Hcp : cp ∈ handed) (Hid : cp_id cp = t)
    (Hext : extensions_wf (draft_extensions (plan_draft plan))) (Hpos : position_wf position)
    (Hi32 : i32_extensions (draft_extensions (plan_draft plan))) :
  exists sealed, SealedPublication.seal rfc3339 to_vec hash plan t at_ position = Ok sealed
    /\ cp_envelope cp = sealed_bytes sealed
    /\ (reads_back (draft_data (plan_draft plan)) = true ->
        exists event time, from_record from_slice cp = Ok event
          /\ rfc3339 at_ = Ok time
          /\ re_raw event = sealed_bytes sealed
          /\ re_id event = hyphenated t /\ re_owner event = mk_OwnerId owner_id /\ re_position event = position
          /\ (0 < re_delivered_count event)%N
          /\ env_id (re_envelope event) = hyphenated t
          /\ env_source (re_envelope event) = PublicationSource.as_str (draft_source (plan_draft plan))
          /\ env_event_type (re_envelope event) = draft_event_type (plan_draft plan)
          /\ env_time (re_envelope event) = Some time
          /\ env_proxiimamodel (re_envelope event) = draft_model_id (plan_draft plan)
          /\ env_extensions (re_envelope event)
             = extension_json <$> PublicationExtensions_0 (draft_extensions (plan_draft plan))
          /\ env_data (re_envelope event) = draft_data (plan_draft plan)).
Proof.
  pose proof (run_world_ok _ _ _ _ _ _ installed_world_ok Hreach) as Hw0.
  assert (world_ok (mk_OutboxWorld db1 (w_issued w0))) as Hw1.
  { eapply step_ok; [exact Hw0|]. by eapply st_capture. }
  pose proof (run_world_ok _ _ _ _ _ _ Hw1 Hrun) as Hw.
  destruct (handed_record _ _ _ _ _ _ _ _ _ _ _ (proj1 (proj1 Hw)) Hclaim Hcp)
    as (row & lane & Hr & Hl & Eid & Eown & Eenv & Eatt). rewrite Hid in *.
  destruct (record_run _ _ _ _ _ _ _ _ Hw1 Hrun Honce Hr) as (row1 & Hr1 & E).
  apply capture_spec in Hcapture as (at' & [= <-] & C).
  destruct (ce_sealed _ _ _ _ _ _ _ _ _ _ _ C) as (sealed & Hs & _ & _ & Hrec).
  cbn [w_db] in Hr1. rewrite Hrec, lookup_insert_eq in Hr1.
  assert (row_event row = captured_event now owner_id sealed) as Hev.
  { rewrite E. injection Hr1 as <-. by case_bool_decide. }
  rewrite Hev in *. cbn in Eid, Eown, Eenv.
  exists sealed. split; [done|]. split; [done|]. intros Hdata.
  destruct (sealed_is_received plan t at_ position sealed cp Hext Hpos Hi32 Hdata Hs Eenv)
    as (event & time & Hev' & Htime & Hrid & Hrown & Hcount & Hraw & Hrest).
  exists event, time. split_and!; try done; try apply Hrest.
  - by rewrite Hraw.
  - rewrite Hrid, Eid. by eapply seal_event_id.
  - by rewrite Hrown, Eown.
  - rewrite Hcount. apply (ok_lane _ (proj1 (proj1 Hw))) in Hl as [[Ha _] _]. lia.
Qed.

End end_to_end.

(** ** A serializer and a delivery, for the witness

    Strings and nulls, each behind its tag and length. *)

Module SampleDelivery.

Definition write_string (s : rstring) : list N := N.of_nat (length s) :: s.

Fixpoint to_vec (members : list (rstring * Json)) : result (list N) rstring :=
  match members with
  | [] => Ok []
  | (name, value) :: rest =>
      let? tail := to_vec rest in
      match value with
      | JNull => Ok (write_string name ++ 0%N :: tail)
      | JString s => Ok (write_string name ++ 1%N :: write_string s ++ tail)
      | _ => Err (str "unsupported")
      end
  end.

Definition read_string (l : list N) : option (rstring * list N) :=
  match l with
  | [] => None
  | n :: rest => Some (take (N.to_nat n) rest, drop (N.to_nat n) rest)
  end.

Fixpoint read (fuel : nat) (l : list N) : option (list (rstring * Json)) :=
  match fuel with
  | O => None
  | S fuel =>
      match l with
      | [] => Some []
      | _ =>
          let* (name, l) := read_string l in
          match l with
          | 0%N :: l => let* rest := read fuel l in Some ((name, JNull) :: rest)
          | _ :: l =>
              let* (s, l) := read_string l in
              let* rest := read fuel l in
              Some ((name, JString s) :: rest)
          | [] => None
          end
      end
  end.

Definition from_slice (l : list N) : option (list (rstring * Json)) := read (S (length l)) l.

Lemma read_write_string s rest : read_string (write_string s ++ rest) = Some (s, rest).
Proof. cbn. rewrite Nat2N.id, take_app_length, drop_app_length. done. Qed.

(** One member: its name, then its tagged value. *)
Lemma read_member fuel name l :
  read (S fuel) (write_string name ++ l)
  = match l with
    | 0%N :: l => let* rest := read fuel l in Some ((name, JNull) :: rest)
    | _ :: l =>
        let* (s, l) := read_string l in
        let* rest := read fuel l in
        Some ((name, JString s) :: rest)
    | [] => None
    end.
Proof. cbn [read write_string app read_string]. by rewrite Nat2N.id, take_app_length, drop_app_length. Qed.

Lemma read_written members bytes fuel :
  to_vec members = Ok bytes -> length bytes < fuel -> read fuel bytes = Some members.
Proof.
  revert bytes fuel. induction members as [|[name value] rest IH]; intros bytes [|fuel] Hv Hf; try lia.
  - injection Hv as <-. done.
  - cbn [to_vec] in Hv. destruct (to_vec rest) as [tail|] eqn:Et; [|done].
    destruct value as [| | |s| |]; try done.
    + assert (bytes = write_string name ++ 0%N :: tail) as -> by congruence.
      rewrite length_app in Hf. cbn in Hf. rewrite read_member. by rewrite (IH tail) by (done || lia).
    + assert (bytes = write_string name ++ 1%N :: write_string s ++ tail) as -> by congruence.
      rewrite length_app, length_cons, length_app in Hf. cbn in Hf. rewrite read_member, read_write_string.
      by rewrite (IH tail) by (done || lia).
Qed.

Lemma round_trip members bytes : to_vec members = Ok bytes -> from_slice bytes = Some members.
Proof. intros Hv. apply (read_written _ _ _ Hv). lia. Qed.

#[local] Existing Instance SampleRun.texts.
#[local] Existing Instance SampleRun.intervals.
#[local] Existing Instance SampleRun.uuids.

#[local] Instance uuid_laws : UuidTextLaws.
Proof. constructor. intros u _. cbn. f_equal. apply display_u64_spec. Qed.

Definition w1 : OutboxWorld := mk_OutboxWorld SampleRun.db1 ∅.

Definition captured_db : OutboxDb :=
  default installed (ok (capture_publication_in_tx SampleRun.rfc3339 to_vec SampleRun.hash 100 5 9 (Some tt)
                           sample_plan (mk_SubjectPosition 77 1) SampleRun.db1)).

Definition claimed : result (OutboxDb * list ClaimedPublication) StorageError :=
  claim 1000 (fun _ => false) (fun t => 1000 + t)%N SampleRun.consumer SampleRun.publisher 1 2000000000 captured_db.

Definition cp : ClaimedPublication :=
  default (mk_ClaimedPublication 0 [] 0 [] 0 [] [] [] 0 (mk_ClaimToken 0) 0) (head (SampleRun.answered [] claimed)).

Lemma captured_eq :
  capture_publication_in_tx SampleRun.rfc3339 to_vec SampleRun.hash 100 5 9 (Some tt) sample_plan
    (mk_SubjectPosition 77 1) SampleRun.db1 = Ok captured_db.
Proof. vm_compute. reflexivity. Qed.

Lemma claimed_eq : claimed = Ok (SampleRun.committed claimed, [cp]).
Proof. vm_compute. reflexivity. Qed.

Lemma run1 : outbox_run SampleRun.rfc3339 to_vec SampleRun.hash installed_world [ActEnvironment] w1.
Proof.
  eapply (run_step _ _ _ _ _ w1); [|apply run_nil].
  apply (st_environment _ _ _ installed_world SampleRun.db1). split_and!; try reflexivity; cbn; set_solver.
Qed.

Lemma captured_event_reaches_intake_witness :
  exists sealed event, from_record from_slice cp = Ok event /\ re_raw event = sealed_bytes sealed /\
    re_position event = mk_SubjectPosition 77 1.
Proof.
  destruct (captured_event_reaches_intake SampleRun.rfc3339 to_vec SampleRun.hash from_slice (fun members bytes _ => round_trip members bytes)
              [ActEnvironment] [] w1 (mk_OutboxWorld captured_db ∅) 100 5 9 tt sample_plan (mk_SubjectPosition 77 1)
              captured_db (SampleRun.committed claimed) 1000 (fun _ => false) (fun t => 1000 + t)%N SampleRun.consumer
              SampleRun.publisher 1 2000000000 [cp] cp run1 captured_eq) as (sealed & _ & _ & Hevent).
  - apply run_nil.
  - intros a Ha. by apply elem_of_nil in Ha.
  - exact claimed_eq.
  - left.
  - vm_compute. reflexivity.
  - split; [apply Nat.leb_le; vm_compute; reflexivity|]. apply map_Forall_singleton. split; vm_compute; reflexivity.
  - split; vm_compute; [reflexivity|split; [reflexivity|discriminate]].
  - intros name i Hin. change (({[ str "workflowrun" := EString (str "w1") ]} : gmap rstring ExtensionValue) !! name = Some (EInteger i)) in Hin.
    apply lookup_singleton_Some in Hin as [_ Hin]. discriminate Hin.
  - destruct Hevent as (event & time & Hev & _ & Hraw & _ & _ & Hpos & _); [vm_compute; reflexivity|].
    exact (ex_intro _ sealed (ex_intro _ event (conj Hev (conj Hraw Hpos)))).
Defined.

End SampleDelivery.
