(* ===== verification/Drain.v ===== *)
(** * The outbox drain

    [crates/proxiima/src/in_process_outbox.rs]: one consumer's claim, accept and
    mark loop over the outbox port, with its hand-back on shutdown and its
    backoff.

    The outbox is the port's interface: any implementation whose calls answer
    and change its state [S].  Other processes, the clock, shutdown and the
    intake act through [S] too.  Every call a pass makes is recorded as a
    [DrainEvent], in order. *)

From S2P Require Import Prelude Ids Decimal Json Publication Errors Outbox OutboxDelivery Intake.

(** ** Settings and backoff *)

(** [Duration::MAX], in nanoseconds. *)
Definition DURATION_MAX : Duration := 18446744073709551615 * 1000000000 + 999999999.

(** [Duration::saturating_mul]. *)
Definition saturating_mul (d : Duration) (n : Z) : Duration := Z.min (d * n) DURATION_MAX.

Definition MAX_BACKOFF : Duration := 30000000000.

Record Settings := mk_Settings {
  set_publisher_id : PublisherId;
  set_batch : N;
  set_lease : Duration;
  set_poll_interval : Duration;
  set_idle_poll_max : Duration;
  set_accept_timeout : Duration;
}.

Module Settings.

(** The shipped values, for a process id. *)
Definition new (process_id : N) : option Settings :=
  match PublisherId.new (str "proxiima:" ++ display_u64 process_id) with
  | Ok publisher => Some (mk_Settings publisher 64 30000000000 500000000 MAX_BACKOFF 5000000000)
  | Err _ => None
  end.

End Settings.

Definition next_backoff (current floor ceiling : Duration) : Duration :=
  Z.max (Z.min (saturating_mul current 2) ceiling) floor.

(** ** The outbox, the intake and the rest of the process *)

Class PublicationOutboxPort (S : Type) := {
  port_claim : ConsumerName -> PublisherId -> N -> Duration -> S ->
    result (list ClaimedPublication) StorageError * S;
  port_mark_published_batch : ConsumerName -> list (Uuid * ClaimToken) -> S ->
    result (list AckOutcome) StorageError * S;
  port_renew_claim : ConsumerName -> Uuid -> ClaimToken -> Duration -> S -> result bool StorageError * S;
  port_release : ConsumerName -> Uuid -> ClaimToken -> S -> result ReleaseOutcome StorageError * S;
}.

(** The port's contract the drain counts on: a batch mark that succeeds answers
    each claim. *)
Class PublicationOutboxLaws (S : Type) `{PublicationOutboxPort S} : Prop := {
  mark_answers_each consumer claims s outcomes :
    (port_mark_published_batch consumer claims s).1 = Ok outcomes -> length outcomes = length claims;
}.

(** How one [accept] ends: shutdown wins the race, the timeout does, or the
    intake answers. *)
Inductive AcceptRace :=
| RaceCancelled
| RaceTimedOut
| RaceAnswered (answer : result Intake IntakeError).

(** What ended an idle sleep. *)
Inductive Wake := WakeCancelled | WakeGate | WakeWrite | WakeTimer.

(** What a drain reads and calls beside the port: the cancellation token, the
    pause gate with its checkpoint ([true] is [Cancelled]), the clock, its
    intake, its hook ([true] is [Break]), and its sleeps (a failing drain's
    answers whether it was cancelled). *)
Record DrainHost (S : Type) := mk_DrainHost {
  is_cancelled : S -> bool;
  is_closing : S -> bool;
  instant : S -> Z * S;
  accept : ReceivedEvent -> S -> AcceptRace * S;
  after_accept : rstring -> S -> bool * S;
  checkpoint : S -> bool * S;
  idle_sleep : Duration -> S -> Wake * S;
  failure_sleep : Duration -> S -> bool * S;
}.
Arguments is_cancelled {S} _ _.
Arguments is_closing {S} _ _.
Arguments instant {S} _ _.
Arguments accept {S} _ _ _.
Arguments after_accept {S} _ _ _.
Arguments checkpoint {S} _ _.
Arguments idle_sleep {S} _ _ _.
Arguments failure_sleep {S} _ _ _.

(** The shipped hook, [Proceed]: carry on. *)
Definition Proceed {S} (host : DrainHost S) : DrainHost S :=
  mk_DrainHost S (is_cancelled host) (is_closing host) (instant host) (accept host) (fun _ s => (false, s))
    (checkpoint host) (idle_sleep host) (failure_sleep host).

Inductive Failure := FailStorage | FailMalformed | FailIntake | FailTimedOut.

Inductive Flow := FlowAccepted | FlowStale | FlowAbort | FlowHandBack.

(** Records taken by the intake whose mark is still owed. *)
Record Accepted := mk_Accepted {
  acc_records : list ClaimedPublication;
  acc_since : option Z;
}.

Module Accepted.

Definition empty : Accepted := mk_Accepted [] None.

Definition push (now : Z) (record : ClaimedPublication) (self : Accepted) : Accepted :=
  mk_Accepted (acc_records self ++ [record]) (Some (default now (acc_since self))).

Definition age (now : Z) (self : Accepted) : Duration :=
  match acc_since self with Some since => Z.max 0 (now - since) | None => 0%Z end.

End Accepted.

(** What a drain did, in order. *)
Inductive DrainEvent :=
| EvClaimed (batch : list ClaimedPublication)
| EvRenewed (record : ClaimedPublication) (held : bool)
| EvAccepted (record : ClaimedPublication) (decision : Intake)
| EvMarked (claims : list (Uuid * ClaimToken)) (answer : result (list AckOutcome) StorageError)
| EvReleased (record : ClaimedPublication)
| EvPass (answer : result nat Failure)
| EvIdle (sleep : Duration)
| EvWake (wake : Wake)
| EvBackoff (sleep : Duration).

(** A step of the drain: an answer, its events, and the state it leaves. *)
Definition Act (S A : Type) : Type := S -> A * (list DrainEvent * S).

Definition ret {S A} (a : A) : Act S A := fun s => (a, ([], s)).
Definition bind {S A B} (m : Act S A) (k : A -> Act S B) : Act S B :=
  fun s => let '(a, (l1, s)) := m s in let '(b, (l2, s)) := k a s in (b, (l1 ++ l2, s)).
Definition ask {S A} (f : S -> A) : Act S A := fun s => (f s, ([], s)).
Definition call {S A} (f : S -> A * S) : Act S A := fun s => let '(a, s) := f s in (a, ([], s)).
Definition tell {S} (ev : DrainEvent) : Act S unit := fun s => (tt, ([ev], s)).

Notation "'let^' x ':=' c 'in' k" :=
  (bind c (fun x => k)) (at level 10, x pattern, c at level 100, k at level 200) : rust_scope.

(** ** The drain *)

Section drain.
Context {S : Type} `{PublicationOutboxPort S} `{UuidText}.
Context (from_slice : list N -> option (list (rstring * Json))).
Context (host : DrainHost S) (consumer : ConsumerName) (settings : Settings).

Definition deliver (record : ClaimedPublication) : Act S (result Flow Failure) :=
  let^ cancelled := ask (is_cancelled host) in
  if (cancelled : bool) then ret (Ok FlowHandBack)
  else
    match from_record from_slice record with
    | Err _ => ret (Err FailMalformed)
    | Ok event =>
        let^ renewed := call (port_renew_claim consumer (cp_id record) (cp_claim record) (set_lease settings)) in
        match renewed with
        | Err _ => ret (Err FailStorage)
        | Ok still_ours =>
            let^ _ := tell (EvRenewed record still_ours) in
            if negb still_ours then ret (Ok FlowStale)
            else
              let^ race := call (accept host event) in
              match race with
              | RaceCancelled => ret (Ok FlowHandBack)
              | RaceTimedOut => ret (Err FailTimedOut)
              | RaceAnswered (Err _) => ret (Err FailIntake)
              | RaceAnswered (Ok decision) =>
                  let^ _ := tell (EvAccepted record decision) in
                  let^ break := call (after_accept host (cp_event_id record)) in
                  ret (Ok (if (break : bool) then FlowAbort else FlowAccepted))
              end
        end
    end.

Definition release_claim (record : ClaimedPublication) : Act S unit :=
  let^ _ := call (port_release consumer (cp_id record) (cp_claim record)) in
  tell (EvReleased record).

Fixpoint release_all (records : list ClaimedPublication) : Act S unit :=
  match records with
  | [] => ret tt
  | record :: rest => let^ _ := release_claim record in release_all rest
  end.

Definition counts_delivered (outcome : AckOutcome) : bool :=
  match outcome with AckPublished | AckAlreadyPublished => true | AckStaleClaim => false end.

(** The claims of a batch mark. *)
Definition claim_key (record : ClaimedPublication) : Uuid * ClaimToken := (cp_id record, cp_claim record).

Definition mark (accepted : Accepted) (delivered : nat) (first_failure : option Failure) :
    Act S (nat * option Failure) :=
  let records := acc_records accepted in
  if is_empty records then ret (delivered, first_failure)
  else
    let claims := claim_key <$> records in
    let^ answer := call (port_mark_published_batch consumer claims) in
    let^ _ := tell (EvMarked claims answer) in
    match answer with
    | Ok outcomes =>
        ret (delivered + length (filter (fun '(_, o) => counts_delivered o = true) (zip records outcomes)),
             first_failure)
    | Err _ => ret (delivered, Some (default FailStorage first_failure))
    end.

Fixpoint pass_records (count : nat) (records : list ClaimedPublication) (accepted : Accepted)
    (delivered : nat) (first_failure : option Failure) : Act S (result nat Failure) :=
  match records with
  | [] =>
      let^ (delivered, first_failure) := mark accepted delivered first_failure in
      ret (match first_failure with
           | Some failure => if (delivered =? 0)%nat then Err failure else Ok count
           | None => Ok count
           end)
  | record :: rest =>
      let^ closing := ask (is_closing host) in
      let^ flow := if (closing : bool) then ret (Ok FlowHandBack) else deliver record in
      match flow with
      | Ok FlowAccepted =>
          let^ now := call (instant host) in
          let accepted := Accepted.push now record accepted in
          let^ now := call (instant host) in
          if (set_lease settings / 2 <=? Accepted.age now accepted)%Z
          then
            let^ (delivered, first_failure) := mark accepted delivered first_failure in
            pass_records count rest Accepted.empty delivered first_failure
          else pass_records count rest accepted delivered first_failure
      | Ok FlowStale => pass_records count rest accepted delivered first_failure
      | Ok FlowAbort => ret (Ok count)
      | Ok FlowHandBack =>
          let^ _ := mark accepted delivered first_failure in
          let^ _ := release_claim record in
          let^ _ := release_all rest in
          ret (Ok count)
      | Err failure =>
          let^ _ := release_claim record in
          pass_records count rest accepted delivered (Some (default failure first_failure))
      end
  end.

Definition pass : Act S (result nat Failure) :=
  let^ claimed := call (port_claim consumer (set_publisher_id settings) (set_batch settings) (set_lease settings)) in
  match claimed with
  | Err _ => ret (Err FailStorage)
  | Ok batch =>
      let^ _ := tell (EvClaimed batch) in
      pass_records (length batch) batch Accepted.empty 0 None
  end.

(** ** Between passes *)

Record RunState := mk_RunState {
  idle_wait : Duration;
  failure_wait : Duration;
}.

Definition run_start : RunState := mk_RunState (set_poll_interval settings) (set_poll_interval settings).

(** The drain's loop, for as many rounds as [rounds] or until it is cancelled. *)
Fixpoint run_rounds (rounds : nat) (st : RunState) : Act S unit :=
  match rounds with
  | O => ret tt
  | Datatypes.S rounds =>
      let floor := set_poll_interval settings in
      let^ cancelled := call (checkpoint host) in
      if (cancelled : bool) then ret tt
      else
        let^ answer := pass in
        let^ _ := tell (EvPass answer) in
        match answer with
        | Ok claimed =>
            if (0 <? claimed)%nat then run_rounds rounds (mk_RunState floor floor)
            else
              let sleep := idle_wait st in
              let idle_wait := next_backoff sleep floor (set_idle_poll_max settings) in
              let^ _ := tell (EvIdle sleep) in
              let^ wake := call (idle_sleep host sleep) in
              let^ _ := tell (EvWake wake) in
              match wake with
              | WakeCancelled => ret tt
              | WakeWrite => run_rounds rounds (mk_RunState floor floor)
              | WakeGate | WakeTimer => run_rounds rounds (mk_RunState idle_wait floor)
              end
        | Err _ =>
            let failure_wait := next_backoff (failure_wait st) floor MAX_BACKOFF in
            let^ _ := tell (EvBackoff failure_wait) in
            let^ cancelled := call (failure_sleep host failure_wait) in
            if (cancelled : bool) then ret tt else run_rounds rounds (mk_RunState floor failure_wait)
        end
  end.

Definition run (rounds : nat) : Act S unit := run_rounds rounds run_start.

End drain.

(** ** What a pass leaves behind *)

Definition accepted_of (log : list DrainEvent) : list ClaimedPublication :=
  omap (fun ev => match ev with EvAccepted record _ => Some record | _ => None end) log.
Definition released_of (log : list DrainEvent) : list ClaimedPublication :=
  omap (fun ev => match ev with EvReleased record => Some record | _ => None end) log.
Definition stale_of (log : list DrainEvent) : list ClaimedPublication :=
  omap (fun ev => match ev with EvRenewed record false => Some record | _ => None end) log.
Definition marked_of (log : list DrainEvent) : list (Uuid * ClaimToken) :=
  log ≫= fun ev => match ev with EvMarked claims _ => claims | _ => [] end.
Definition delivered_of (log : list DrainEvent) : nat :=
  sum_list_with (fun ev => match ev with
                           | EvMarked _ (Ok outcomes) => length (filter (fun o => counts_delivered o = true) outcomes)
                           | _ => 0
                           end) log.

(** Every [accept] directly follows a renewal that still held the claim. *)
Definition renewed_first (log : list DrainEvent) : Prop :=
  forall i record decision, log !! i = Some (EvAccepted record decision) ->
    exists j, i = S j /\ log !! j = Some (EvRenewed record true).

Lemma renewed_first_app l1 l2 : renewed_first l1 -> renewed_first l2 -> renewed_first (l1 ++ l2).
Proof.
  intros H1 H2 i record decision [Hi|[Hle Hi]]%lookup_app_Some.
  - destruct (H1 i record decision Hi) as (j & -> & Hj). exists j. split; [done|]. by apply lookup_app_l_Some.
  - destruct (H2 _ record decision Hi) as (j & Ej & Hj). exists (length l1 + j). split; [lia|].
    by rewrite lookup_app_r, Nat.add_comm, Nat.add_sub by lia.
Qed.

Lemma bind_run {S A B} (m : Act S A) (k : A -> Act S B) s b log s' :
  bind m k s = (b, (log, s')) ->
  exists a l1 s1 l2, m s = (a, (l1, s1)) /\ k a s1 = (b, (l2, s')) /\ log = l1 ++ l2.
Proof.
  unfold bind. destruct (m s) as [a [l1 s1]]. destruct (k a s1) as [b' [l2 s2]] eqn:E. intros [= <- <- <-]. eauto 10.
Qed.

(** Take a run of the drain apart, call by call. *)
Ltac act_run :=
  repeat match goal with
  | Hr : bind _ _ _ = (_, (_, _)) |- _ =>
      let a := fresh "a" in let l1 := fresh "l" in let s1 := fresh "s" in let l2 := fresh "l" in
      let E1 := fresh "E" in let E2 := fresh "Hr" in
      apply bind_run in Hr as (a & l1 & s1 & l2 & E1 & E2 & ->); cbv beta zeta in E2
  | Hr : ret _ _ = (_, (_, _)) |- _ => unfold ret in Hr; injection Hr as <- <- <-
  | Hr : ask _ _ = (_, (_, _)) |- _ => unfold ask in Hr; injection Hr as <- <- <-
  | Hr : tell _ _ = (_, (_, _)) |- _ => unfold tell in Hr; injection Hr as <- <- <-
  | Hr : call ?f ?s = (_, (_, _)) |- _ =>
      let E := fresh "Ecall" in
      unfold call in Hr; destruct (f s) eqn:E; injection Hr as <- <- <-
  end.

(** The same, with every case the answers leave open. *)
Ltac act_cases :=
  repeat (act_run;
    match goal with
    | Hr : (match ?x with _ => _ end) _ = (_, (_, _)) |- _ => destruct x eqn:?; cbv beta iota in Hr
    end);
  act_run.

Section ledger.
Context {S : Type} `{!PublicationOutboxPort S} `{!PublicationOutboxLaws S} `{!UuidText}.
Context (from_slice : list N -> option (list (rstring * Json))).
Context (host : DrainHost S) (consumer : ConsumerName) (settings : Settings).

Lemma deliver_log h record s flow log s' :
  deliver from_slice h consumer settings record s = (flow, (log, s')) ->
  match flow with
  | Ok FlowAccepted | Ok FlowAbort => exists decision, log = [EvRenewed record true; EvAccepted record decision]
  | Ok FlowStale => log = [EvRenewed record false]
  | Ok FlowHandBack | Err _ => log = [] \/ log = [EvRenewed record true]
  end.
Proof.
  unfold deliver. intros Hr. act_cases; bools; subst; cbn [app]; try match goal with |- context [if ?b then _ else _] => destruct b end; eauto.
Qed.

Lemma zip_delivered (records : list ClaimedPublication) outcomes :
  length outcomes = length records ->
  length (filter (fun '(_, o) => counts_delivered o = true) (zip records outcomes))
  = length (filter (fun o => counts_delivered o = true) outcomes).
Proof.
  revert outcomes. induction records as [|x l IH]; intros [|o os] Hlen; try done.
  injection Hlen as Hlen. cbn [zip zip_with]. rewrite !filter_cons.
  repeat case_decide; cbn [length]; rewrite IH; congruence || done.
Qed.

Lemma mark_log accepted delivered first_failure s r log s' :
  mark consumer accepted delivered first_failure s = (r, (log, s')) ->
  marked_of log = claim_key <$> acc_records accepted /\ accepted_of log = [] /\ released_of log = []
  /\ stale_of log = [] /\ renewed_first log /\ r.1 = delivered + delivered_of log.
Proof.
  unfold mark. intros Hr. destruct (acc_records accepted) as [|record rest] eqn:Ea; cbn [is_empty] in Hr.
  { act_run. split_and!; try done; cbn; lia. }
  rewrite <-Ea in *. act_cases; cbn; rewrite ?app_nil_r;
    (split_and!; [done|done|done|done|intros [|[]] ???; done|]); unfold delivered_of; cbn; [|lia].
  rewrite Nat.add_0_r. f_equal. apply zip_delivered. rewrite <-(length_fmap claim_key).
  eapply mark_answers_each. by erewrite Ecall.
Qed.

Lemma release_all_log records s u log s' :
  release_all consumer records s = (u, (log, s')) ->
  log = EvReleased <$> records.
Proof.
  revert s log. induction records as [|record rest IH]; intros s log Hr; cbn in Hr; [by act_run|].
  unfold release_claim in Hr. act_run. cbn. f_equal. by eapply IH.
Qed.

Lemma accepted_of_app l1 l2 : accepted_of (l1 ++ l2) = accepted_of l1 ++ accepted_of l2.
Proof. apply omap_app. Qed.
Lemma released_of_app l1 l2 : released_of (l1 ++ l2) = released_of l1 ++ released_of l2.
Proof. apply omap_app. Qed.
Lemma stale_of_app l1 l2 : stale_of (l1 ++ l2) = stale_of l1 ++ stale_of l2.
Proof. apply omap_app. Qed.
Lemma marked_of_app l1 l2 : marked_of (l1 ++ l2) = marked_of l1 ++ marked_of l2.
Proof. apply bind_app. Qed.
Lemma delivered_of_app l1 l2 : delivered_of (l1 ++ l2) = delivered_of l1 + delivered_of l2.
Proof. apply sum_list_with_app. Qed.

Lemma released_log records :
  accepted_of (EvReleased <$> records) = [] /\ released_of (EvReleased <$> records) = records
  /\ stale_of (EvReleased <$> records) = [] /\ marked_of (EvReleased <$> records) = []
  /\ delivered_of (EvReleased <$> records) = 0 /\ renewed_first (EvReleased <$> records).
Proof.
  split_and!; try (induction records as [|x l IH]; [done|]; cbn; try rewrite IH; done).
  - induction records as [|x l IH]; [done|]. cbn. f_equal. apply IH.
  - intros i record decision. rewrite list_lookup_fmap. by destruct (records !! i).
Qed.

(** What has become of [records], with [owed] accepted before them. *)
Definition ledger (owed records : list ClaimedPublication) (log : list DrainEvent) : Prop :=
  marked_of log = claim_key <$> owed ++ accepted_of log
  /\ records ≡ₚ accepted_of log ++ released_of log ++ stale_of log
  /\ renewed_first log.

Lemma deliver_proceeds record s flow log s' :
  deliver from_slice (Proceed host) consumer settings record s = (flow, (log, s')) -> flow <> Ok FlowAbort.
Proof.
  unfold deliver. intros Hr. act_cases; try done.
  match goal with E : after_accept (Proceed host) _ _ = _ |- _ => cbn in E; injection E as <- <- end. done.
Qed.

Lemma renewed_first_small record decision held :
  renewed_first [] /\ renewed_first [EvRenewed record held]
  /\ renewed_first [EvRenewed record true; EvAccepted record decision] /\ renewed_first [EvReleased record].
Proof.
  split_and!; intros [|[|i]] r d Hi; try done. cbn in Hi. injection Hi as -> _. by exists 0.
Qed.

(** Entries for the first of [records], then for the rest of them. *)
Lemma ledger_app owed owed' records rest l1 l2 :
  marked_of l1 ++ (claim_key <$> owed') = claim_key <$> owed ++ accepted_of l1 ->
  records ≡ₚ (accepted_of l1 ++ released_of l1 ++ stale_of l1) ++ rest ->
  renewed_first l1 -> ledger owed' rest l2 -> ledger owed records (l1 ++ l2).
Proof.
  intros Hm Hp Hf (Hm' & Hp' & Hf'). unfold ledger.
  rewrite marked_of_app, accepted_of_app, released_of_app, stale_of_app, Hm'. split_and!; [| |by apply renewed_first_app].
  - by rewrite fmap_app, app_assoc, Hm, <-fmap_app, <-app_assoc.
  - rewrite Hp, Hp'. solve_Permutation.
Qed.

Lemma ledger_mark accepted delivered first_failure s x l1 s1 records l2 :
  mark consumer accepted delivered first_failure s = (x, (l1, s1)) ->
  ledger [] records l2 -> ledger (acc_records accepted) records (l1 ++ l2).
Proof.
  intros (Hm & Ha & Hrel & Hst & Hf & _)%mark_log Hl. apply (ledger_app _ [] _ records); [| |done|done].
  - by rewrite Hm, Ha, !app_nil_r.
  - by rewrite Ha, Hrel, Hst.
Qed.

Lemma ledger_released owed records : owed = [] -> ledger owed records (EvReleased <$> records).
Proof.
  intros ->. destruct (released_log records) as (Ha & Hr & Hs & Hm & _ & Hf). unfold ledger.
  rewrite Ha, Hr, Hs, Hm, !app_nil_r. by split_and!.
Qed.

Lemma ledger_renewed record owed records l1 l2 :
  l1 = [] \/ l1 = [EvRenewed record true] -> ledger owed records l2 -> ledger owed records (l1 ++ l2).
Proof.
  intros [->| ->] Hl; [done|]. apply (ledger_app _ owed _ records); [by rewrite app_nil_r|done| |done].
  apply (renewed_first_small record IntakeAccepted true).
Qed.

(** Every record of a batch is accounted for. *)
Lemma pass_records_ledger count records accepted delivered first_failure s r log s' :
  pass_records from_slice (Proceed host) consumer settings count records accepted delivered first_failure s
  = (r, (log, s')) ->
  ledger (acc_records accepted) records log
  /\ match r with Ok n => n = count | Err _ => delivered + delivered_of log = 0 end.
Proof.
  revert accepted delivered first_failure s log.
  induction records as [|record rest IH]; intros accepted delivered first_failure s log Hr; cbn [pass_records] in Hr.
  - apply bind_run in Hr as ([d ff] & l1 & s1 & l2 & Em & Hr & ->). act_run. rewrite app_nil_r.
    apply mark_log in Em as (Hm & Ha & Hrel & Hst & Hf & Hd). unfold ledger. rewrite Ha, Hrel, Hst, app_nil_r. split; [done|].
    cbn in Hd. destruct ff; [|done]. destruct (Nat.eqb_spec d 0); [lia|done].
  - apply bind_run in Hr as (closing & l0 & s0 & l & Eask & Hr & ->). unfold ask in Eask. injection Eask as <- <- <-.
    apply bind_run in Hr as (flow & l1 & s1 & l2 & Ed & Hr & ->). cbn [app].
    assert (match flow with
            | Ok FlowAccepted => exists decision, l1 = [EvRenewed record true; EvAccepted record decision]
            | Ok FlowStale => l1 = [EvRenewed record false]
            | Ok FlowAbort => False
            | Ok FlowHandBack | Err _ => l1 = [] \/ l1 = [EvRenewed record true]
            end) as Hflow.
    { clear Hr. destruct (is_closing host s); [act_run; by left|].
      pose proof (deliver_log _ _ _ _ _ _ Ed) as Hd. destruct flow as [[]|]; try done.
      by destruct (deliver_proceeds _ _ _ _ _ Ed). }
    clear Ed. destruct flow as [[]|failure].
    + destruct Hflow as [decision ->]. destruct (renewed_first_small record decision true) as (_ & _ & Hf3 & _).
      act_run. match goal with Hr : (if ?b then _ else _) _ = _ |- _ => destruct b end; act_run; cbn [app].
      * destruct a as [d ff]. apply IH in Hr0 as [Hl Hres].
        pose proof (ledger_mark _ _ _ _ _ _ _ _ _ E Hl) as Hl'. apply mark_log in E as (_ & _ & _ & _ & _ & Hd). cbn in Hd.
        split; [|destruct r; [done|]; unfold delivered_of in *; cbn; rewrite sum_list_with_app; lia].
        eapply (ledger_app _ _ _ rest [_; _] _); [| | |apply Hl']; done.
      * apply IH in Hr as [Hl Hres]. split; [|done].
        eapply (ledger_app _ _ _ rest [_; _] _); [| | |apply Hl]; done.
    + subst l1. apply IH in Hr as [Hl Hres]. split; [|done].
      eapply (ledger_app _ _ _ rest [_] _); [| | |apply Hl]; [by rewrite app_nil_r|done|].
      by apply (renewed_first_small record IntakeAccepted false).
    + done.
    + unfold release_claim in Hr. act_run. split; [|done]. rewrite app_nil_r.
      apply (ledger_renewed record); [done|]. eapply ledger_mark; [done|].
      rewrite (release_all_log _ _ _ _ _ E1). by apply (ledger_released [] (record :: rest)).
    + unfold release_claim in Hr. act_run. apply IH in Hr0 as [Hl Hres]. cbn [app]. split.
      * apply (ledger_renewed record); [done|].
        apply (ledger_app _ (acc_records accepted) _ rest [_]); [by rewrite app_nil_r|done| |done].
        apply (renewed_first_small record IntakeAccepted true).
      * destruct r; [done|]. rewrite delivered_of_app. destruct Hflow as [->| ->]; done.
Qed.

(** What a pass that claimed [batch] and went on as [log] answers [r]. *)
Definition pass_account (batch : list ClaimedPublication) (log : list DrainEvent) (r : result nat Failure) : Prop :=
  batch ≡ₚ accepted_of log ++ released_of log ++ stale_of log
  /\ marked_of log = claim_key <$> accepted_of log
  /\ renewed_first log
  /\ match r with Ok n => n = length batch | Err _ => delivered_of log = 0 end.

(** The pass could not claim, or accounts for the batch it claimed. *)
Definition accounted (log : list DrainEvent) (r : result nat Failure) : Prop :=
  (log = [] /\ r = Err FailStorage)
  \/ exists batch rest, log = EvClaimed batch :: rest /\ pass_account batch rest r.

Lemma pass_log s r log s' :
  pass from_slice (Proceed host) consumer settings s = (r, (log, s')) -> accounted log r.
Proof.
  unfold pass. intros Hr. act_cases; [right|by left].
  match goal with E : pass_records _ _ _ _ _ _ _ _ _ _ = _ |- _ => apply pass_records_ledger in E as [(Hm & Hp & Hf) Hres] end.
  do 2 eexists. split; [done|]. by split_and!.
Qed.

(** A pass accounts for every claim it took: the claimed records are, as a
    multiset, those the intake took, those handed back and those found to
    belong to another publisher; a mark is asked for exactly the ones the intake
    took, in order; nothing reaches the intake but under a claim renewed just
    before; and the pass reports a failure only when no delivery was recorded. *)
Theorem pass_accounts_for_every_claim (s : S) :
  accounted (pass from_slice (Proceed host) consumer settings s).2.1
    (pass from_slice (Proceed host) consumer settings s).1.
Proof.
  destruct (pass from_slice (Proceed host) consumer settings s) as [r [log s']] eqn:Hr. by eapply pass_log.
Qed.

Lemma run_rounds_marks rounds st s u log s' :
  run_rounds from_slice (Proceed host) consumer settings rounds st s = (u, (log, s')) ->
  marked_of log = claim_key <$> accepted_of log.
Proof.
  revert st s log. induction rounds as [|rounds IH]; intros st s log Hr; cbn [run_rounds] in Hr; [by act_run|].
  apply bind_run in Hr as (cancelled & l0 & s0 & l & Ec & Hr & ->).
  act_run. match goal with Hr : (if ?b then _ else _) _ = _ |- _ => destruct b end; [by act_run|].
  apply bind_run in Hr as (answer & l1 & s3 & l2 & Ep & Hr & ->). cbn [app].
  assert (marked_of l1 = claim_key <$> accepted_of l1) as Hl1.
  { apply pass_log in Ep as [[-> _]|(batch & rest & -> & _ & Hm & _)]; done. }
  assert (marked_of l2 = claim_key <$> accepted_of l2) as Hl2.
  { act_cases; cbn; rewrite ?app_nil_r; (done || by eapply IH). }
  by rewrite marked_of_app, accepted_of_app, fmap_app, Hl1, Hl2.
Qed.

End ledger.

(** ** Waiting *)

(** [floor] after [k] doublings, under [ceiling]; a [floor] above it wins. *)
Definition waited (floor ceiling : Duration) (k : nat) : Duration :=
  if (k =? 0)%nat then floor else Z.max floor (Z.min (floor * 2 ^ Z.of_nat k) ceiling).

Lemma next_waited floor ceiling k :
  (0 <= floor <= DURATION_MAX)%Z -> (ceiling <= DURATION_MAX)%Z ->
  next_backoff (waited floor ceiling k) floor ceiling = waited floor ceiling (S k).
Proof.
  intros Hf Hc. unfold waited, next_backoff, saturating_mul. cbn [Nat.eqb]. rewrite Nat2Z.inj_succ, Z.pow_succ_r by lia.
  pose proof (Z.pow_pos_nonneg 2 (Z.of_nat k)). assert (floor <= floor * 2 ^ Z.of_nat k)%Z by nia.
  destruct k as [|k]; cbn [Nat.eqb]; [cbn; lia|]. lia.
Qed.

(** Failed passes in a row at the end of a log. *)
Definition failures (log : list DrainEvent) : nat :=
  foldl (fun n ev => match ev with EvPass (Err _) => S n | EvPass (Ok _) => 0 | _ => n end) 0 log.

(** Empty claims in a row at the end of a log, no write having woken the drain
    since. *)
Definition empties (log : list DrainEvent) : nat :=
  foldl (fun n ev => match ev with
                     | EvPass (Ok 0) => S n
                     | EvPass _ | EvWake WakeWrite => 0
                     | _ => n
                     end) 0 log.

Lemma failures_snoc log ev :
  failures (log ++ [ev])
  = match ev with EvPass (Err _) => S (failures log) | EvPass (Ok _) => 0 | _ => failures log end.
Proof. unfold failures. by rewrite foldl_app. Qed.

Lemma empties_snoc log ev :
  empties (log ++ [ev])
  = match ev with EvPass (Ok 0) => S (empties log) | EvPass _ | EvWake WakeWrite => 0 | _ => empties log end.
Proof. unfold empties. by rewrite foldl_app. Qed.

(** Entries of a single pass, which neither sleeps nor ends one. *)
Definition within_pass (ev : DrainEvent) : Prop :=
  match ev with EvPass _ | EvIdle _ | EvWake _ | EvBackoff _ => False | _ => True end.

Section streaks.
Context {S : Type} `{!PublicationOutboxPort S} `{!UuidText}.
Context (from_slice : list N -> option (list (rstring * Json))).
Context (host : DrainHost S) (consumer : ConsumerName) (settings : Settings).

Lemma ret_within {A} (a b : A) (s s' : S) log : ret a s = (b, (log, s')) -> Forall within_pass log.
Proof. unfold ret. injection 1 as <- <- <-. constructor. Qed.

Lemma mark_within accepted delivered first_failure s r log s' :
  mark consumer accepted delivered first_failure s = (r, (log, s')) -> Forall within_pass log.
Proof. unfold mark. intros Hr. act_cases; by repeat constructor. Qed.

Lemma deliver_within record s flow log s' :
  deliver from_slice host consumer settings record s = (flow, (log, s')) -> Forall within_pass log.
Proof. unfold deliver. intros Hr. act_cases; by repeat constructor. Qed.

Lemma release_all_within records s u log s' :
  release_all consumer records s = (u, (log, s')) -> Forall within_pass log.
Proof. intros ->%release_all_log. by apply Forall_fmap, list.Forall_true. Qed.

Lemma pass_records_within count records accepted delivered first_failure s r log s' :
  pass_records from_slice host consumer settings count records accepted delivered first_failure s
  = (r, (log, s')) -> Forall within_pass log.
Proof.
  revert accepted delivered first_failure s log.
  induction records as [|record rest IH]; intros accepted delivered first_failure s log Hr;
    cbn [pass_records] in Hr; unfold release_claim in Hr; act_cases;
    repeat apply Forall_app_2; eauto using ret_within, mark_within, deliver_within, release_all_within;
    by repeat constructor.
Qed.

Lemma pass_within s r log s' :
  pass from_slice host consumer settings s = (r, (log, s')) -> Forall within_pass log.
Proof.
  unfold pass. intros Hr. act_cases; [|constructor]. repeat constructor. by eapply pass_records_within.
Qed.


(** The sleeps of a log, after [hist], are the waits its passes call for. *)
Definition wait_ok (hist : list DrainEvent) (ev : DrainEvent) : Prop :=
  match ev with
  | EvIdle sleep => sleep = waited (set_poll_interval settings) (set_idle_poll_max settings) (empties hist - 1)
  | EvBackoff sleep => sleep = waited (set_poll_interval settings) MAX_BACKOFF (failures hist)
  | _ => True
  end.

Fixpoint waits_ok (hist log : list DrainEvent) : Prop :=
  match log with
  | [] => True
  | ev :: log => wait_ok hist ev /\ waits_ok (hist ++ [ev]) log
  end.

Lemma waits_ok_app hist l1 l2 : waits_ok hist l1 -> waits_ok (hist ++ l1) l2 -> waits_ok hist (l1 ++ l2).
Proof.
  revert hist. induction l1 as [|ev l1 IH]; intros hist; cbn; [by rewrite app_nil_r|].
  intros [Hev H1] H2. split; [done|]. apply IH; [done|]. by rewrite <-app_assoc.
Qed.

Lemma within_waits hist log :
  Forall within_pass log ->
  waits_ok hist log /\ failures (hist ++ log) = failures hist /\ empties (hist ++ log) = empties hist.
Proof.
  intros Hw. revert hist. induction Hw as [|ev log Hev Hw IH]; intros hist; [by rewrite app_nil_r|].
  destruct (IH (hist ++ [ev])) as (H1 & H2 & H3). rewrite <-app_assoc in H2, H3. cbn in *.
  rewrite H2, H3, failures_snoc, empties_snoc. by destruct ev.
Qed.

Lemma run_rounds_waits (Hfloor : (0 <= set_poll_interval settings <= DURATION_MAX)%Z)
    (Hmax : (set_idle_poll_max settings <= DURATION_MAX)%Z) rounds hist st s u log s' :
  idle_wait st = waited (set_poll_interval settings) (set_idle_poll_max settings) (empties hist) ->
  failure_wait st = waited (set_poll_interval settings) MAX_BACKOFF (failures hist) ->
  run_rounds from_slice host consumer settings rounds st s = (u, (log, s')) -> waits_ok hist log.
Proof.
  revert hist st s log. induction rounds as [|rounds IH]; intros hist st s log Hi Hf Hr; cbn [run_rounds] in Hr; [by act_run|].
  apply bind_run in Hr as (cancelled & l0 & s0 & l & Ec & Hr & ->).
  act_run. match goal with Hr : (if ?b then _ else _) _ = _ |- _ => destruct b end; [by act_run|].
  apply bind_run in Hr as (answer & l1 & s3 & l2 & Ep & Hr & ->). cbn [app].
  apply pass_within in Ep. destruct (within_waits hist l1 Ep) as (Hw & Ef & Ee). apply waits_ok_app; [done|].
  rewrite <-Ef in Hf. rewrite <-Ee in Hi. set (past := hist ++ l1) in *. clearbody past. clear Ep Hw Ef Ee.
  assert (next_backoff (failure_wait st) (set_poll_interval settings) MAX_BACKOFF
          = waited (set_poll_interval settings) MAX_BACKOFF (Datatypes.S (failures past))) as Hf'
    by (rewrite Hf; apply next_waited; unfold MAX_BACKOFF, DURATION_MAX in *; lia).
  assert (next_backoff (idle_wait st) (set_poll_interval settings) (set_idle_poll_max settings)
          = waited (set_poll_interval settings) (set_idle_poll_max settings) (Datatypes.S (empties past))) as Hi'
    by (rewrite Hi; by apply next_waited).
  act_cases; cbn [app waits_ok]; (split; [done|]); (try match goal with E : (0 <? ?n) = _ |- _ => destruct n end; try done);
    repeat (split; [cbn [wait_ok]; rewrite ?failures_snoc, ?empties_snoc, ?Nat.sub_1_r; done|]); try done;
    (eapply IH; [| |done]); rewrite ?failures_snoc, ?empties_snoc; done.
Qed.

(** A drain waits by its record: after [k] failed passes in a row it
    sleeps the poll interval doubled [k] times, and at its [k]th empty claim in a
    row (counted afresh after a committed write) the interval doubled [k - 1]
    times, never above the ceiling unless the interval itself is; no product
    overflows on the way. *)
Theorem drain_waits_by_its_streak (rounds : nat) (s : S)
    (Hfloor : (0 <= set_poll_interval settings <= DURATION_MAX)%Z)
    (Hmax : (set_idle_poll_max settings <= DURATION_MAX)%Z) :
  waits_ok [] (run from_slice host consumer settings rounds s).2.1.
Proof.
  destruct (run from_slice host consumer settings rounds s) as [u [log s']] eqn:Hr.
  eapply run_rounds_waits; [done|done| | |exact Hr]; done.
Qed.

End streaks.
