(* ===== verification/DrainPostgres.v ===== *)
(** * The drain over Postgres

    The Postgres outbox of [Outbox] as the port the drain of [Drain] works on:
    each port call is one transaction on the tables.  Between two calls other
    sessions run any transactions of their own ([OutboxDelivery]), and a
    connection may be lost before a transaction starts or after it commits.
    A drain's run is then a run of the outbox, it marks only what it was handed,
    still held and had accepted, and it loses no delivery. *)

From S2P Require Import Prelude Ids Decimal Json Publication Errors Outbox OutboxDelivery Intake Drain.

(** Whose transaction. *)
Inductive Party := Mine | Theirs.

#[export] Instance Party_eq_dec : EqDecision Party.
Proof. solve_decision. Defined.

(** The drain's session: the tables as its last call left them, every
    transaction since it started, and how many calls it has made. *)
Record Session := mk_Session {
  se_world : OutboxWorld;
  se_history : list (Party * OutboxAct);
  se_calls : nat;
}.

Inductive Connection :=
| Connected
| LostBefore (e : StorageError)
| LostAfter (e : StorageError).

(** What a call meets: the database's clock, the rows other transactions hold
    locked, the tokens [uuidv7()] gives, what other sessions did since the last
    call, and the connection. *)
Record Surroundings := mk_Surroundings {
  su_now : nat -> Timestamp;
  su_locked : nat -> Uuid -> bool;
  su_mint : nat -> OutboxWorld -> Uuid -> Uuid;
  su_others : nat -> OutboxWorld -> list OutboxAct * OutboxWorld;
  su_connection : nat -> Connection;
}.

Definition session_start (w : OutboxWorld) : Session := mk_Session w [] 0.

(** One call: [f] is its transaction, [act] what the others see of it. *)
Definition transact {A} (su : Surroundings) (act : nat -> A -> OutboxAct) (issue : A -> gset Uuid)
    (f : nat -> OutboxWorld -> result (OutboxDb * A) StorageError) (s : Session) :
    result A StorageError * Session :=
  let n := se_calls s in
  let '(acts, w) := su_others su n (se_world s) in
  let history := se_history s ++ (pair Theirs <$> acts) in
  match su_connection su n with
  | LostBefore e => (Err e, mk_Session w history (S n))
  | Connected | LostAfter _ =>
      match f n w with
      | Err e => (Err e, mk_Session w history (S n))
      | Ok (db, a) =>
          (match su_connection su n with LostAfter e => Err e | _ => Ok a end,
           mk_Session (mk_OutboxWorld db (issue a ∪ w_issued w)) (history ++ [(Mine, act n a)]) (S n))
      end
  end.

(** A call on the session, beside the state of the rest of the process. *)
Definition on_session {X A} (f : Session -> A * Session) (s : Session * X) : A * (Session * X) :=
  let '(a, session) := f s.1 in (a, (session, s.2)).

Section postgres.
Context `{PgText} `{PgInterval} `{UuidText} {X : Type} (su : Surroundings).

#[local] Instance PgPublicationOutbox : PublicationOutboxPort (Session * X) := {|
  port_claim consumer publisher limit lease :=
    on_session (transact su (fun n => ActClaim (su_now su n) (ConsumerName.as_str consumer)) handed_tokens
      (fun n w => claim (su_now su n) (su_locked su n) (su_mint su n w) consumer publisher limit lease (w_db w)));
  port_mark_published_batch consumer claims :=
    on_session (transact su (fun n => ActMark (su_now su n) (ConsumerName.as_str consumer) claims) (fun _ => ∅)
      (fun n w => mark_published_batch (su_now su n) consumer claims (w_db w)));
  port_renew_claim consumer id token lease :=
    on_session (transact su (fun n _ => ActRenew (su_now su n) (ConsumerName.as_str consumer) id token) (fun _ => ∅)
      (fun n w => renew_claim (su_now su n) consumer id token lease (w_db w)));
  port_release consumer id token :=
    on_session (transact su (fun n _ => ActRelease (ConsumerName.as_str consumer) id token) (fun _ => ∅)
      (fun n w => release consumer id token (w_db w)));
|}.

(** A host that acts on the rest of the process only. *)
Definition beside_session (host : DrainHost X) : DrainHost (Session * X) :=
  let lift {A} (f : X -> A * X) (s : Session * X) := let '(a, x) := f s.2 in (a, (s.1, x)) in
  mk_DrainHost _ (fun s => is_cancelled host s.2) (fun s => is_closing host s.2) (lift (instant host))
    (fun event => lift (accept host event)) (fun id => lift (after_accept host id)) (lift (checkpoint host))
    (fun d => lift (idle_sleep host d)) (fun d => lift (failure_sleep host d)).

#[local] Instance PgOutboxLaws : PublicationOutboxLaws (Session * X).
Proof.
  constructor. intros consumer claims [s x] outcomes. cbn. unfold on_session, transact. cbn.
  destruct (su_others su (se_calls s) (se_world s)) as [acts w].
  destruct (su_connection su (se_calls s)); rewrite ?mark_published_batch_eq; cbn; [|done|done].
  intros [= <-]. by rewrite !length_fmap.
Qed.


(** ** A drain's run is a run of the outbox *)

Section delivery.
Context {OffsetDateTime : Type} (rfc3339 : OffsetDateTime -> result rstring rstring)
  (to_vec : list (rstring * Json) -> result (list N) rstring) (hash : list N -> list N).
Context (from_slice : list N -> option (list (rstring * Json))).

Abbreviation outbox_run := (outbox_run rfc3339 to_vec hash).
Abbreviation outbox_step := (outbox_step rfc3339 to_vec hash).

(** Other sessions run transactions of the outbox, and [uuidv7()] gives every
    row a token of its own that was never given before. *)
Record surroundings_ok : Prop := {
  others_run n w : outbox_run w (su_others su n w).1 (su_others su n w).2;
  mint_inj n w : Inj (=) (=) (su_mint su n w);
  mint_fresh n w t : su_mint su n w t ∉ w_issued w;
}.

Context (Hsu : surroundings_ok) (host : DrainHost X) (consumer : ConsumerName) (settings : Settings).

(** The drain's own transactions: port calls, with marks its log shows. *)
Definition drain_act (log : list DrainEvent) (act : OutboxAct) : Prop :=
  match act with
  | ActMark _ c claims _ => c = ConsumerName.as_str consumer /\ forall key, key ∈ claims -> key ∈ marked_of log
  | ActClaim _ _ _ | ActRenew _ _ _ _ | ActRelease _ _ _ => True
  | _ => False
  end.

(** What a part of a drain that left [log] did to its session. *)
Definition extends (s : Session) (log : list DrainEvent) (s' : Session) : Prop :=
  exists acts,
    se_history s' = se_history s ++ acts
    /\ outbox_run (se_world s) acts.*2 (se_world s')
    /\ forall act, (Mine, act) ∈ acts -> drain_act log act.

Lemma run_app w acts1 w1 acts2 w' : outbox_run w acts1 w1 -> outbox_run w1 acts2 w' -> outbox_run w (acts1 ++ acts2) w'.
Proof. induction 1; intros; [done|]. cbn. econstructor; eauto. Qed.

Lemma extends_refl s log : extends s log s.
Proof. exists []. rewrite app_nil_r. split_and!; [done|constructor|]. intros act Hin. by apply not_elem_of_nil in Hin. Qed.

Lemma extends_trans s l1 s1 l2 s2 : extends s l1 s1 -> extends s1 l2 s2 -> extends s (l1 ++ l2) s2.
Proof.
  intros (a1 & E1 & R1 & M1) (a2 & E2 & R2 & M2). exists (a1 ++ a2). split_and!.
  - by rewrite E2, E1, app_assoc.
  - rewrite fmap_app. by eapply run_app.
  - intros act [Hin|Hin]%elem_of_app; [apply M1 in Hin|apply M2 in Hin]; destruct act; try done; cbn in *;
      destruct Hin as [-> Hin]; (split; [done|]); intros key Hk; rewrite marked_of_app; apply elem_of_app; eauto.
Qed.

(** A call's session, given that its transaction is a step. *)
Lemma transact_extends {A} (act : nat -> A -> OutboxAct) issue f s answer s' log :
  (forall n w db a, f n w = Ok (db, a) -> outbox_step w (act n a) (mk_OutboxWorld db (issue a ∪ w_issued w))) ->
  (forall n a, drain_act log (act n a)) ->
  transact su act issue f s = (answer, s') -> extends s log s'.
Proof.
  intros Hstep Hmark. unfold transact. pose proof (others_run Hsu (se_calls s) (se_world s)) as Hrun.
  destruct (su_others su (se_calls s) (se_world s)) as [acts w]. cbn in Hrun.
  assert (forall log, extends s log (mk_Session w (se_history s ++ (pair Theirs <$> acts)) (S (se_calls s)))) as Hquiet.
  { intros log'. exists (pair Theirs <$> acts). split_and!; [done| |].
    - rewrite <-list_fmap_compose, list_fmap_id. done.
    - intros act' Hin. apply list_elem_of_fmap in Hin as (? & [=] & _). }
  assert (forall db a, f (se_calls s) w = Ok (db, a) ->
    extends s log (mk_Session (mk_OutboxWorld db (issue a ∪ w_issued w))
      ((se_history s ++ (pair Theirs <$> acts)) ++ [(Mine, act (se_calls s) a)]) (S (se_calls s)))) as Hmine.
  { intros db a Ef. apply (extends_trans _ [] _ log _ (Hquiet [])). exists [(Mine, act (se_calls s) a)].
    split_and!; [done|cbn; econstructor; [by apply Hstep|constructor]|].
    intros act' [= ->]%list_elem_of_singleton. apply Hmark. }
  destruct (su_connection su (se_calls s)); [|by intros [= <- <-]|];
    (destruct (f (se_calls s) w) as [[db a]|] eqn:Ef; intros [= <- <-]; eauto).
Qed.

(** ** Every part of the drain *)

Definition keeps {A} (m : Act (Session * X) A) : Prop :=
  forall s a l s', m s = (a, (l, s')) -> extends s.1 l s'.1.

Lemma keeps_ret {A} (a : A) : keeps (ret (S := Session * X) a).
Proof. intros s b l s' Hr. unfold ret in Hr. injection Hr as <- <- <-. apply extends_refl. Qed.

Lemma keeps_ask {A} (f : Session * X -> A) : keeps (ask f).
Proof. intros s b l s' Hr. unfold ask in Hr. injection Hr as <- <- <-. apply extends_refl. Qed.

Lemma keeps_tell ev : keeps (tell (S := Session * X) ev).
Proof. intros s b l s' Hr. unfold tell in Hr. injection Hr as <- <- <-. apply extends_refl. Qed.

Lemma keeps_bind {A B} (m : Act (Session * X) A) (k : A -> Act (Session * X) B) :
  keeps m -> (forall a, keeps (k a)) -> keeps (bind m k).
Proof. intros Hm Hk s b l s' (a & l1 & s1 & l2 & E1 & E2 & ->)%bind_run. eapply extends_trans; [by eapply Hm|by eapply Hk]. Qed.

Lemma keeps_host {A} (f : X -> A * X) : keeps (call (fun s : Session * X => let '(a, x) := f s.2 in (a, (s.1, x)))).
Proof.
  intros [s x] a l s' Hr. unfold call in Hr. cbn in Hr. destruct (f x). injection Hr as <- <- <-. apply extends_refl.
Qed.

Lemma keeps_transact {A} (act : nat -> A -> OutboxAct) issue f :
  (forall n w db a, f n w = Ok (db, a) -> outbox_step w (act n a) (mk_OutboxWorld db (issue a ∪ w_issued w))) ->
  (forall n a, drain_act [] (act n a)) ->
  keeps (call (on_session (X := X) (transact su act issue f))).
Proof.
  intros Hstep Hmark [s x] answer l s' Hr. unfold call, on_session in Hr. cbn in Hr.
  destruct (transact su act issue f s) as [a s1] eqn:Et. injection Hr as <- <- <-. cbn.
  by eapply transact_extends.
Qed.

Abbreviation pg_host := (Proceed (beside_session host)).

Lemma keeps_claim publisher limit lease : keeps (call (port_claim consumer publisher limit lease)).
Proof.
  apply keeps_transact; [|done]. intros n w db a Hc. eapply st_claim; [apply (mint_inj Hsu)|apply (mint_fresh Hsu)|done].
Qed.

Lemma keeps_renew id token lease : keeps (call (port_renew_claim consumer id token lease)).
Proof. apply keeps_transact; [|done]. intros n w db a Hc. rewrite (left_id_L ∅ (∪)). by eapply st_renew. Qed.

Lemma keeps_release record : keeps (release_claim consumer record).
Proof.
  apply keeps_bind; [|intros ?; apply keeps_tell]. apply keeps_transact; [|done].
  intros n w db a Hc. rewrite (left_id_L ∅ (∪)). by eapply st_release.
Qed.

Lemma keeps_mark accepted delivered first_failure : keeps (mark consumer accepted delivered first_failure).
Proof.
  unfold mark. case_match; [apply keeps_ret|]. intros s a l s' Hr.
  apply bind_run in Hr as (answer & l1 & s1 & l2 & Em & Hr & ->).
  apply bind_run in Hr as (u & l3 & s3 & l4 & Et & Hr & ->).
  unfold tell in Et. injection Et as <- <- <-. rewrite app_assoc.
  assert (s' = s1) as -> by (destruct answer; unfold ret in Hr; by injection Hr).
  eapply extends_trans; [|apply extends_refl].
  unfold call in Em. cbn in Em. unfold on_session in Em. destruct (transact _ _ _ _ _) as [b s4] eqn:Et.
  injection Em as <- <- <-. eapply transact_extends; [| |exact Et].
  - intros n w db outcomes Hc. cbv beta in *. rewrite (left_id_L ∅ (∪)). by eapply st_mark.
  - intros n outcomes. split; [done|]. intros key Hk. cbn. by rewrite app_nil_r.
Qed.

(** Take a part of the drain apart, and what each call does to the session. *)
Ltac keep :=
  repeat first
    [ apply keeps_mark | apply keeps_release | apply keeps_bind; [|intros ?] | apply keeps_ret | apply keeps_ask
    | apply keeps_tell | apply keeps_claim | apply keeps_renew | apply keeps_host | case_match | done ].

Lemma keeps_deliver record : keeps (deliver from_slice pg_host consumer settings record).
Proof. unfold deliver. keep. Qed.

Lemma keeps_release_all records : keeps (release_all consumer records).
Proof. induction records as [|record rest IH]; cbn [release_all]; keep. Qed.

Lemma keeps_pass_records count records accepted delivered first_failure :
  keeps (pass_records from_slice pg_host consumer settings count records accepted delivered first_failure).
Proof.
  revert accepted delivered first_failure.
  induction records as [|record rest IH]; intros; cbn [pass_records]; [keep|].
  apply keeps_bind; [apply keeps_ask|intros closing]. apply keeps_bind; [destruct closing; [apply keeps_ret|apply keeps_deliver]|].
  intros [[]|]; keep; (apply IH || apply keeps_release_all).
Qed.

Lemma keeps_run rounds st : keeps (run_rounds from_slice pg_host consumer settings rounds st).
Proof.
  revert st. induction rounds as [|rounds IH]; intros st; cbn [run_rounds]; [apply keeps_ret|].
  apply keeps_bind; [apply keeps_host|intros []; [apply keeps_ret|]].
  apply keeps_bind; [unfold pass; keep; apply keeps_pass_records|intros answer]. keep; apply IH.
Qed.

(** ** What a drain marks *)

Section marks.
Context (w0 : OutboxWorld).

(** A claim of this drain handed [record] over. *)
Definition claimed_in (h : list (Party * OutboxAct)) (record : ClaimedPublication) (j : nat) : Prop :=
  exists now batch, h !! j = Some (Mine, ActClaim now (ConsumerName.as_str consumer) batch) /\ record ∈ batch.

(** A renewal of this drain found the claim still held. *)
Definition leased_in (h : list (Party * OutboxAct)) (record : ClaimedPublication) (k : nat) : Prop :=
  exists now w db,
    h !! k = Some (Mine, ActRenew now (ConsumerName.as_str consumer) (cp_id record) (cp_claim record))
    /\ outbox_run w0 (take k h).*2 w
    /\ renew_claim now consumer (cp_id record) (cp_claim record) (set_lease settings) (w_db w) = Ok (db, true).

(** The intake decided on the event of [record]. *)
Definition decided (record : ClaimedPublication) : Prop :=
  exists event decision x x', from_record from_slice record = Ok event
    /\ accept host event x = (RaceAnswered (Ok decision), x').

Definition earned (h : list (Party * OutboxAct)) (record : ClaimedPublication) : Prop :=
  decided record /\ exists j k, j < k < length h /\ claimed_in h record j /\ leased_in h record k.

(** Every mark of the drain is of records it has earned. *)
Definition marks_earned (h : list (Party * OutboxAct)) : Prop :=
  forall i now c claims outcomes key,
    h !! i = Some (Mine, ActMark now c claims outcomes) -> key ∈ claims ->
    c = ConsumerName.as_str consumer /\ exists record, claim_key record = key /\ earned (take i h) record.

Definition in_order (s : Session) : Prop := outbox_run w0 (se_history s).*2 (se_world s) /\ marks_earned (se_history s).

Lemma claimed_in_app h h' record j : claimed_in h record j -> claimed_in (h ++ h') record j.
Proof. intros (now & batch & Hj & Hin). exists now, batch. split; [by apply lookup_app_l_Some|done]. Qed.

Lemma claimed_in_lt h record j : claimed_in h record j -> j < length h.
Proof. intros (now & batch & Hj & _). by eapply lookup_lt_Some. Qed.

Lemma leased_in_app h h' record k : leased_in h record k -> leased_in (h ++ h') record k.
Proof.
  intros (now & w & db & Hk & Hrun & Hr). exists now, w, db. split; [by apply lookup_app_l_Some|]. split; [|done].
  rewrite take_app_le; [done|]. apply lookup_lt_Some in Hk. lia.
Qed.

Lemma earned_app h h' record : earned h record -> earned (h ++ h') record.
Proof.
  intros (Hd & j & k & Hjk & Hj & Hk). split; [done|]. exists j, k. rewrite length_app.
  split; [lia|]. split; [by apply claimed_in_app|by apply leased_in_app].
Qed.

Lemma marks_earned_app h h' :
  marks_earned h ->
  (forall i now c claims outcomes key, h' !! i = Some (Mine, ActMark now c claims outcomes) -> key ∈ claims ->
     c = ConsumerName.as_str consumer /\ exists record, claim_key record = key /\ earned (h ++ take i h') record) ->
  marks_earned (h ++ h').
Proof.
  intros Hh Hh' i now c claims outcomes key [Hi|[Hle Hi]]%lookup_app_Some Hkey.
  - destruct (Hh _ _ _ _ _ _ Hi Hkey) as (-> & record & Hk & He). split; [done|]. exists record. split; [done|].
    rewrite take_app_le; [done|]. apply lookup_lt_Some in Hi. lia.
  - rewrite take_app_ge by done. by eapply Hh'.
Qed.

(** A part that marked nothing keeps the order. *)
Lemma in_order_unmarked s log s' : in_order s -> extends s log s' -> marked_of log = [] -> in_order s'.
Proof.
  intros [Hrun Hm] (acts & Eh & Hacts & Hmine) Hlog. split; [rewrite Eh, fmap_app; by eapply run_app|].
  rewrite Eh. apply marks_earned_app; [done|]. intros i now c claims outcomes key Hi Hkey.
  apply list_elem_of_lookup_2, Hmine in Hi as [_ Hi]. apply Hi in Hkey. rewrite Hlog in Hkey. by apply elem_of_nil in Hkey.
Qed.

Lemma extends_claims s log s' records :
  extends s log s' -> Forall (fun record => exists j, claimed_in (se_history s) record j) records ->
  Forall (fun record => exists j, claimed_in (se_history s') record j) records.
Proof.
  intros (acts & -> & _) Hf. eapply list.Forall_impl; [exact Hf|]. intros record (j & Hj). exists j. by apply claimed_in_app.
Qed.

Lemma extends_earned s log s' records :
  extends s log s' -> Forall (earned (se_history s)) records -> Forall (earned (se_history s')) records.
Proof. intros (acts & -> & _) Hf. eapply list.Forall_impl; [exact Hf|]. intros record. apply earned_app. Qed.

(** A call that answered: its transaction is the last of the history. *)
Lemma transact_answers {A} (act : nat -> A -> OutboxAct) issue f s a s' :
  in_order s -> transact su act issue f s = (Ok a, s') ->
  exists n w db acts, f n w = Ok (db, a) /\ outbox_run w0 (se_history s ++ acts).*2 w
    /\ se_history s' = (se_history s ++ acts) ++ [(Mine, act n a)].
Proof.
  intros [Hrun _]. unfold transact. pose proof (others_run Hsu (se_calls s) (se_world s)) as Hothers.
  destruct (su_others su (se_calls s) (se_world s)) as [acts w]. cbn in Hothers.
  assert (outbox_run w0 (se_history s ++ (pair Theirs <$> acts)).*2 w) as Hw.
  { rewrite fmap_app, <-list_fmap_compose, list_fmap_id. by eapply run_app. }
  destruct (su_connection su (se_calls s)); [|done|];
    (destruct (f (se_calls s) w) as [[db b]|] eqn:Ef; intros [= -> <-]).
  exists (se_calls s), w, db, (pair Theirs <$> acts). by split_and!.
Qed.

Lemma claim_hands publisher limit lease s batch log s' :
  in_order s.1 -> call (port_claim consumer publisher limit lease) s = (Ok batch, (log, s')) ->
  Forall (fun record => exists j, claimed_in (se_history s'.1) record j) batch.
Proof.
  intros Hs Hr. unfold call in Hr. cbn in Hr. unfold on_session in Hr.
  destruct (transact _ _ _ _ _) as [answer s1] eqn:Et. injection Hr as -> <- <-. cbn.
  apply transact_answers in Et as (n & w & db & acts & _ & _ & ->); [|done]. apply list.Forall_forall. intros record Hin.
  eexists (length (se_history s.1 ++ acts)), _, batch. by rewrite list_lookup_middle.
Qed.

Lemma deliver_earns record s log s' :
  in_order s.1 -> (exists j, claimed_in (se_history s.1) record j) ->
  deliver from_slice pg_host consumer settings record s = (Ok FlowAccepted, (log, s')) -> earned (se_history s'.1) record.
Proof.
  intros Hs (j & Hj). unfold deliver. intros Hr. act_cases; try discriminate; bools; subst.
  match goal with E : port_renew_claim _ _ _ _ s = (Ok true, ?q) |- _ => rename q into s1, E into Erenew end.
  match goal with E : accept _ ?e s1 = (RaceAnswered (Ok ?d), _) |- _ => rename e into event, d into decision, E into Eaccept end.
  cbn in Erenew. unfold on_session in Erenew. destruct (transact _ _ _ _ _) as [answer session] eqn:Et.
  injection Erenew as -> <-. cbn in Eaccept. destruct (accept host event s.2) as [race x] eqn:Ea. injection Eaccept as -> <-.
  cbn in *. simplify_eq. unfold ret in Hr. injection Hr as <- <-. cbn.
  apply transact_answers in Et as (n & w & db & acts & Hrenew & Hrun & ->); [|done]. split; [by exists event, decision, s.2, x|].
  pose proof (claimed_in_lt _ _ _ Hj). exists j, (length (se_history s.1 ++ acts)).
  split; [rewrite !length_app; cbn; lia|]. split.
  - by apply claimed_in_app, claimed_in_app.
  - eexists _, w, db. rewrite list_lookup_middle, take_app_length by done. by split_and!.
Qed.

Lemma mark_in_order accepted delivered first_failure s r log s' :
  in_order s.1 -> Forall (earned (se_history s.1)) (acc_records accepted) ->
  mark consumer accepted delivered first_failure s = (r, (log, s')) -> in_order s'.1.
Proof.
  intros Hs Hacc Hr. pose proof (keeps_mark accepted delivered first_failure _ _ _ _ Hr) as (acts & Eh & Hrun & Hmine).
  pose proof (mark_log _ _ _ _ _ _ _ _ Hr) as (Elog & _). split; [rewrite Eh, fmap_app; eapply run_app; [apply Hs|done]|].
  rewrite Eh. apply marks_earned_app; [apply Hs|]. intros i now c claims outcomes key Hi Hkey.
  pose proof (list_elem_of_lookup_2 _ _ _ Hi) as Hin. destruct (Hmine _ Hin) as [-> Hm]. specialize (Hm key Hkey).
  rewrite Elog in Hm. apply list_elem_of_fmap in Hm as (record & -> & Hrec).
  split; [done|]. exists record. split; [done|]. apply earned_app. by eapply list.Forall_forall in Hacc.
Qed.

(** A part of the drain that leaves the order as it was. *)
Definition orderly {A} (m : Act (Session * X) A) : Prop :=
  forall s a log s', in_order s.1 -> m s = (a, (log, s')) -> in_order s'.1.

Lemma orderly_unmarked {A} (m : Act (Session * X) A) :
  keeps m -> (forall s a log s', m s = (a, (log, s')) -> marked_of log = []) -> orderly m.
Proof. intros Hk Hlog s a log s' Hs Hr. eapply in_order_unmarked; [done|by eapply Hk|by eapply Hlog]. Qed.

Lemma orderly_release_all records : orderly (release_all consumer records).
Proof.
  apply orderly_unmarked; [apply keeps_release_all|]. intros s a log s' ->%release_all_log. by induction records.
Qed.

Lemma orderly_release record : orderly (release_claim consumer record).
Proof. apply orderly_unmarked; [apply keeps_release|]. intros s a log s' Hr. unfold release_claim in Hr. by act_run. Qed.

Lemma orderly_deliver record : orderly (deliver from_slice pg_host consumer settings record).
Proof.
  apply orderly_unmarked; [apply keeps_deliver|]. intros s [[]|] log s' Hr%deliver_log; naive_solver.
Qed.

(** A drain between two records: in order, with what is left of its batch
    claimed and what the intake took earned. *)
Definition on_course (s : Session) (records : list ClaimedPublication) (accepted : Accepted) : Prop :=
  in_order s /\ Forall (fun record => exists j, claimed_in (se_history s) record j) records
  /\ Forall (earned (se_history s)) (acc_records accepted).

Lemma on_course_extends s log s' records accepted :
  on_course s records accepted -> extends s log s' -> in_order s' -> on_course s' records accepted.
Proof.
  intros (_ & Hr & Ha) Hx Hs. split_and!; [done|by eapply extends_claims|by eapply extends_earned].
Qed.

Lemma on_course_push now record s records accepted :
  on_course s records accepted -> earned (se_history s) record -> on_course s records (Accepted.push now record accepted).
Proof. intros (Hs & Hr & Ha) He. split_and!; [done|done|]. cbn. apply list.Forall_app. by split; [|constructor]. Qed.

Lemma on_course_empty s records accepted : on_course s records accepted -> on_course s records Accepted.empty.
Proof. intros (Hs & Hr & _). split_and!; [done|done|constructor]. Qed.

Lemma instant_stays s now log s' : call (instant pg_host) s = (now, (log, s')) -> s'.1 = s.1.
Proof. unfold call. cbn. destruct (instant host s.2). by intros [= _ _ <-]. Qed.

Lemma orderly_pass_records count records accepted delivered first_failure s r log s' :
  on_course s.1 records accepted ->
  pass_records from_slice pg_host consumer settings count records accepted delivered first_failure s = (r, (log, s')) ->
  in_order s'.1.
Proof.
  revert accepted delivered first_failure s log.
  induction records as [|record rest IH]; intros accepted delivered first_failure s log Hs Hr; cbn [pass_records] in Hr.
  { apply bind_run in Hr as ([d f] & l1 & s1 & l2 & Em & Hr & ->). unfold ret in Hr. injection Hr as _ _ <-.
    destruct Hs as (Ho & _ & Ha). by eapply mark_in_order. }
  apply bind_run in Hr as (closing & l1 & s1 & l2 & Ec & Hr & ->). unfold ask in Ec. injection Ec as <- <- <-.
  apply bind_run in Hr as (flow & l3 & s3 & l4 & Ef & Hr & ->).
  assert (Hrest : on_course s.1 rest accepted).
  { destruct Hs as (Ho & [_ Hc]%list.Forall_cons & Ha). by split_and!. }
  assert (Hflow : on_course s3.1 rest accepted /\ (flow = Ok FlowAccepted -> earned (se_history s3.1) record)).
  { destruct (is_closing _ _); [unfold ret in Ef; by injection Ef as <- <- <-|].
    destruct Hs as (Ho & [Hc _]%list.Forall_cons & _). split.
    - eapply on_course_extends; [done|by eapply keeps_deliver|by eapply orderly_deliver].
    - intros ->. by eapply deliver_earns. }
  destruct Hflow as [Hs3 Hearned]. clear Ef. destruct flow as [[]|failure].
  - apply bind_run in Hr as (now & l5 & s5 & l6 & En & Hr & ->). apply instant_stays in En.
    apply bind_run in Hr as (now' & l7 & s7 & l8 & En' & Hr & ->). apply instant_stays in En'.
    rewrite <-En, <-En' in *.
    assert (on_course s7.1 rest (Accepted.push now record accepted)) as Hpush by by apply on_course_push, Hearned.
    destruct (_ <=? _)%Z; [|by eapply IH].
    apply bind_run in Hr as ([d f] & l9 & s9 & l10 & Em & Hr & ->). eapply IH; [|exact Hr].
    eapply on_course_extends; [by eapply on_course_empty|by eapply keeps_mark|]. destruct Hpush as (Ho & _ & Ha).
    by eapply mark_in_order.
  - by eapply IH.
  - unfold ret in Hr. injection Hr as _ _ <-. apply Hs3.
  - apply bind_run in Hr as (? & ? & s5 & ? & Em & Hr & ->). apply bind_run in Hr as (? & ? & s6 & ? & Er & Hr & ->).
    apply bind_run in Hr as (? & ? & s7 & ? & Ea & Hr & ->). unfold ret in Hr. injection Hr as _ _ <-.
    destruct Hs3 as (Ho & _ & Ha). eapply orderly_release_all; [|exact Ea]. eapply orderly_release; [|exact Er].
    by eapply mark_in_order.
  - apply bind_run in Hr as (? & ? & s5 & ? & Er & Hr & ->). eapply IH; [|exact Hr].
    eapply on_course_extends; [exact Hs3|by eapply keeps_release|]. eapply orderly_release; [apply Hs3|exact Er].
Qed.

Lemma orderly_pass : orderly (pass from_slice pg_host consumer settings).
Proof.
  intros s a log s' Hs Hr. unfold pass in Hr. apply bind_run in Hr as (claimed & l1 & s1 & l2 & Ec & Hr & ->).
  assert (in_order s1.1) as Hs1.
  { eapply in_order_unmarked; [exact Hs|by eapply keeps_claim|]. unfold call in Ec. destruct (port_claim _ _ _ _ _). by injection Ec as _ <- _. }
  destruct claimed as [batch|]; [|unfold ret in Hr; by injection Hr as _ _ <-].
  apply bind_run in Hr as (? & ? & s2 & ? & Et & Hr & ->). unfold tell in Et. injection Et as _ _ <-.
  eapply orderly_pass_records; [|exact Hr]. split_and!; [done|exact (claim_hands _ _ _ _ _ _ _ Hs Ec)|constructor].
Qed.

Lemma orderly_bind {A B} (m : Act (Session * X) A) (k : A -> Act (Session * X) B) :
  orderly m -> (forall a, orderly (k a)) -> orderly (bind m k).
Proof. intros Hm Hk s b log s' Hs (a & l1 & s1 & l2 & E1 & E2 & ->)%bind_run. eapply Hk; [by eapply Hm|exact E2]. Qed.

Lemma orderly_ret {A} (a : A) : orderly (ret a).
Proof. apply orderly_unmarked; [apply keeps_ret|]. intros s b log s' Hr. unfold ret in Hr. by injection Hr as _ <- _. Qed.

Lemma orderly_host {A} (f : X -> A * X) : orderly (call (fun s : Session * X => let '(a, x) := f s.2 in (a, (s.1, x)))).
Proof.
  intros [s x] a log s' Hs Hr. unfold call in Hr. cbn in Hr. destruct (f x). by injection Hr as _ _ <-.
Qed.

Lemma orderly_tell ev : orderly (tell ev).
Proof. intros s a log s' Hs Hr. unfold tell in Hr. by injection Hr as _ _ <-. Qed.

Lemma orderly_run rounds st : orderly (run_rounds from_slice pg_host consumer settings rounds st).
Proof.
  revert st. induction rounds as [|rounds IH]; intros st; cbn [run_rounds]; [apply orderly_ret|].
  apply orderly_bind; [apply orderly_host|intros []; [apply orderly_ret|]].
  apply orderly_bind; [apply orderly_pass|intros answer].
  repeat first [apply orderly_bind; [|intros ?] | apply orderly_tell | apply orderly_host | apply orderly_ret | apply IH | case_match].
Qed.

End marks.

(** C33. A drain marks only what it earned.  In a run over Postgres, whatever
    other sessions do in between and wherever its connection is lost, the tables
    are the ones the transactions made, its own and the others'; and every record
    in every mark the drain committed was handed to it by a claim of its own, was
    still held in the tables at a later renewal of its own, all before the mark,
    and is an event that the intake answered with a decision. *)
Theorem drain_marks_are_earned (rounds : nat) (before : list OutboxAct) (w : OutboxWorld) (x : X)
    (Hreach : outbox_run installed_world before w) :
  let s' := (run from_slice pg_host consumer settings rounds (session_start w, x)).2.2.1 in
  outbox_run installed_world (before ++ (se_history s').*2) (se_world s') /\ marks_earned w (se_history s').
Proof.
  intros s'. destruct (run _ _ _ _ _ _) as [u [log [s1 x1]]] eqn:Hr in s'. cbn in s'. subst s'.
  apply (orderly_run w) in Hr as [Hrun Hmarks]; [|split; [constructor|intros ?????? Hi; discriminate Hi]]. split; [by eapply run_app|done].
Qed.

(** At the end of a run the lane is still owed its delivery, or the intake has
    taken the record, or a transaction of someone else settled it. *)
Definition loses_no_delivery (t : Uuid) (c : rstring) (log : list DrainEvent) (s' : Session) : Prop :=
  undelivered (se_world s') t c
  \/ (exists record, record ∈ accepted_of log /\ cp_id record = t)
  \/ settled_by (filter (fun entry => entry.1 = Theirs) (se_history s')).*2 t c.

(** C31. A drain loses no delivery.  Whatever fails on the way (a lost
    connection, a lapsed lease, an intake that errs or times out, a shutdown),
    a delivery its consumer is owed is still owed when the run ends, or the
    intake has taken the record.  Others can settle it too: by a mark of the
    same consumer, by retiring it, or by forgetting or erasing the Fact. *)
Theorem drain_loses_no_delivery (rounds : nat) (before : list OutboxAct) (w : OutboxWorld) (x : X) (t : Uuid)
    (Hreach : outbox_run installed_world before w)
    (Howed : undelivered w t (ConsumerName.as_str consumer)) :
  loses_no_delivery t (ConsumerName.as_str consumer)
    (run from_slice pg_host consumer settings rounds (session_start w, x)).2.1
    (run from_slice pg_host consumer settings rounds (session_start w, x)).2.2.1.
Proof.
  destruct (run _ _ _ _ _ _) as [u [log [s1 x1]]] eqn:Hr. cbn [fst snd]. unfold loses_no_delivery.
  set (theirs := (filter (fun entry => entry.1 = Theirs) (se_history s1)).*2).
  apply (run_world_ok _ _ _ _ _ _ (installed_world_ok)) in Hreach.
  pose proof (run_rounds_marks _ _ _ _ _ _ _ _ _ _ Hr) as Hm.
  apply keeps_run in Hr as (acts & Eh & Hacts & Hmine). cbn in Eh, Hacts. subst acts.
  destruct (run_undelivered _ _ _ _ _ _ _ _ Hreach Howed Hacts) as [|Hset]; [by left|right].
  assert (forall act, act ∈ (se_history s1).*2 -> act ∈ theirs \/ drain_act log act) as Hwhose.
  { intros act ([[] act'] & -> & Hin)%list_elem_of_fmap; [right; by apply Hmine|left].
    apply list_elem_of_fmap. exists (Theirs, act'). split; [done|]. by apply list_elem_of_filter. }
  destruct Hset as [(now & claims & outcomes & token & i & Hin & Hi & Ho)|[Hin|[Hin|(ts & Hin & Ht)]]];
    destruct (Hwhose _ Hin) as [Hin'|Hact]; try done; unfold settled_by.
  - right; left. by exists now, claims, outcomes, token, i.
  - left. destruct Hact as [_ Hact]. specialize (Hact (t, token)). rewrite Hm in Hact.
    apply list_elem_of_lookup_2, Hact, list_elem_of_fmap in Hi as (record & [= -> ->] & Hrec). eauto.
  - eauto.
  - eauto.
  - eauto 10.
Qed.

End delivery.
End postgres.

(** ** A drain, for the witnesses

    One captured Fact; the intake is down at the first attempt and takes the
    record at the second. *)

Module SampleDrain.

#[local] Existing Instance SampleRun.texts.
#[local] Existing Instance SampleRun.intervals.
#[local] Existing Instance SampleRun.uuids.

Definition w2 : OutboxWorld := mk_OutboxWorld SampleDelivery.captured_db ∅.

(** One above every token given. *)
Definition next_token (w : OutboxWorld) : N := (1 + foldr N.max 0 (elements (w_issued w)))%N.

Definition surroundings : Surroundings :=
  mk_Surroundings (fun n => 1000 + Z.of_nat n)%Z (fun _ _ => false) (fun _ w t => next_token w + t)%N
    (fun _ w => ([], w)) (fun _ => Connected).

(** The host's state: how often the intake was asked. *)
Definition host : DrainHost nat :=
  mk_DrainHost nat (fun _ => false) (fun _ => false) (fun n => (0%Z, n))
    (fun _ n => (RaceAnswered (if (n =? 0)%nat then Err (mk_IntakeError []) else Ok IntakeAccepted), S n))
    (fun _ n => (false, n)) (fun n => (false, n)) (fun _ n => (WakeTimer, n)) (fun _ n => (false, n)).

Definition settings : Settings :=
  mk_Settings SampleRun.publisher 64 30000000000 500000000 MAX_BACKOFF 5000000000.

#[local] Instance port : PublicationOutboxPort (Session * nat) := PgPublicationOutbox surroundings.
#[local] Instance port_laws : PublicationOutboxLaws (Session * nat) := PgOutboxLaws surroundings.

Definition start : Session * nat := (session_start w2, 0).
Abbreviation sample_host := (Proceed (beside_session host)).

Lemma reached : outbox_run SampleRun.rfc3339 SampleDelivery.to_vec SampleRun.hash installed_world
  [ActEnvironment; ActCapture 9] w2.
Proof.
  eapply run_step; [|eapply (run_step _ _ _ SampleDelivery.w1 _ w2); [|apply run_nil]].
  - apply (st_environment _ _ _ installed_world SampleRun.db1). split_and!; try reflexivity; cbn; set_solver.
  - exact (st_capture _ _ _ SampleDelivery.w1 _ _ _ _ _ _ _ SampleDelivery.captured_eq).
Qed.

Lemma elem_of_max x l : x ∈ l -> (x <= foldr N.max 0 l)%N.
Proof. induction 1; cbn; lia. Qed.

Lemma surroundings_fine :
  surroundings_ok surroundings SampleRun.rfc3339 SampleDelivery.to_vec SampleRun.hash.
Proof.
  split.
  - intros n w. apply run_nil.
  - intros n w x y. cbn. lia.
  - intros n w t Hin. cbn in Hin. apply elem_of_elements, elem_of_max in Hin. unfold next_token in Hin. lia.
Qed.

Lemma owed : undelivered w2 9 (ConsumerName.as_str SampleRun.consumer).
Proof.
  exists new_lane. split; [|discriminate]. vm_compute. reflexivity.
Qed.

(** The record is handed back, then delivered. *)
Lemma drained :
  let log := (run SampleDelivery.from_slice sample_host SampleRun.consumer settings 3 start).2.1 in
  cp_id <$> released_of log = [9%N] /\ cp_id <$> accepted_of log = [9%N] /\ delivered_of log = 1.
Proof. vm_compute. done. Qed.

Lemma pass_accounts_for_every_claim_witness :
  accounted (pass SampleDelivery.from_slice sample_host SampleRun.consumer settings start).2.1
    (pass SampleDelivery.from_slice sample_host SampleRun.consumer settings start).1.
Proof. exact (pass_accounts_for_every_claim SampleDelivery.from_slice (beside_session host) SampleRun.consumer settings start). Defined.

Lemma drain_waits_by_its_streak_witness :
  waits_ok settings [] (run SampleDelivery.from_slice sample_host SampleRun.consumer settings 9 start).2.1.
Proof. apply drain_waits_by_its_streak; split || idtac; vm_compute; discriminate. Defined.

(** The one mark is earned. *)
Lemma drain_marks_are_earned_witness :
  let s' := (run SampleDelivery.from_slice sample_host SampleRun.consumer settings 3 start).2.2.1 in
  (exists i now outcomes, se_history s' !! i = Some (Mine, ActMark now (ConsumerName.as_str SampleRun.consumer) [(9%N, mk_ClaimToken 20)] outcomes))
  /\ marks_earned SampleRun.rfc3339 SampleDelivery.to_vec SampleRun.hash SampleDelivery.from_slice host SampleRun.consumer
       settings w2 (se_history s').
Proof.
  split.
  - eexists 5, _, _. vm_compute. reflexivity.
  - exact (proj2 (drain_marks_are_earned surroundings SampleRun.rfc3339 SampleDelivery.to_vec SampleRun.hash
                    SampleDelivery.from_slice surroundings_fine host SampleRun.consumer settings 3 _ w2 0 reached)).
Defined.

Lemma drain_loses_no_delivery_witness :
  loses_no_delivery 9 (ConsumerName.as_str SampleRun.consumer)
    (run SampleDelivery.from_slice sample_host SampleRun.consumer settings 3 start).2.1
    (run SampleDelivery.from_slice sample_host SampleRun.consumer settings 3 start).2.2.1.
Proof.
  exact (drain_loses_no_delivery surroundings SampleRun.rfc3339 SampleDelivery.to_vec SampleRun.hash
           SampleDelivery.from_slice surroundings_fine host SampleRun.consumer settings 3 _ w2 0 9 reached owed).
Defined.

End SampleDrain.
