(* ===== verification/Net.v ===== *)
(** * Outbound endpoints

    [crates/core/src/net.rs]: which outbound URLs may be plaintext, and the
    setting that names hosts for it; with the standard library's parser of IP
    addresses, which decides what is a literal.  The parser of URLs is the
    [http] crate's, an argument here. *)

From S2P Require Import Prelude Ids Bytes Decimal.

(** ** Strings *)

(** [str::split] on a character. *)
Fixpoint split (c : char) (s : rstring) : list rstring :=
  match s with
  | [] => [[]]
  | a :: s' =>
      if (a =? c)%N then [] :: split c s'
      else match split c s' with
           | [] => [[a]]
           | piece :: pieces => (a :: piece) :: pieces
           end
  end.

(** [str::strip_suffix], of a character. *)
Definition strip_last (c : char) (s : rstring) : option rstring :=
  match reverse s with
  | a :: r => if (a =? c)%N then Some (reverse r) else None
  | [] => None
  end.

Definition eq_ignore_ascii_case (a b : rstring) : bool :=
  bool_decide (to_ascii_lowercase a = to_ascii_lowercase b).

(** ** [std::net::IpAddr]: parsing *)

Inductive IpAddr :=
| V4 (octets : list N)
| V6 (segments : list N).

#[export] Instance IpAddr_eq_dec : EqDecision IpAddr.
Proof. solve_decision. Defined.

Definition Parser (A : Type) : Type := rstring -> option (A * rstring).

(** [char::to_digit]. *)
Definition to_digit (radix : N) (c : char) : option N :=
  let* digit :=
    (if is_ascii_digit c then Some (c - 48)
     else if is_ascii_lowercase c then Some (c - 87)
     else if is_ascii_uppercase c then Some (c - 55)
     else None)%N in
  if (digit <? radix)%N then Some digit else None.

(** The digits at the front, with the number they spell and how many they are. *)
Fixpoint read_digits (radix : N) (acc : N) (count : nat) (s : rstring) : N * nat * rstring :=
  match s with
  | [] => (acc, count, [])
  | c :: s' =>
      match to_digit radix c with
      | Some digit => read_digits radix (acc * radix + digit) (S count) s'
      | None => (acc, count, s)
      end
  end.

(** [Parser::read_number], for numbers up to [max]. *)
Definition read_number (radix : N) (max_digits : nat) (allow_zero_prefix : bool) (max : N) : Parser N :=
  fun s =>
    let '(result, digit_count, rest) := read_digits radix 0 0 s in
    let has_leading_zero := match s with c :: _ => (c =? chr "0")%N | [] => false end in
    if (max_digits <? digit_count)%nat then None
    else if (digit_count =? 0)%nat then None
    else if negb allow_zero_prefix && has_leading_zero && (1 <? digit_count)%nat then None
    else if (max <? result)%N then None else Some (result, rest).

(** [Parser::read_separator]. *)
Definition read_separator {A} (sep : char) (index : nat) (inner : Parser A) : Parser A :=
  fun s =>
    match index with
    | O => inner s
    | S _ => match s with c :: s' => if (c =? sep)%N then inner s' else None | [] => None end
    end.

(** [Parser::read_ipv4_addr]: the octets from the [i]th on. *)
Fixpoint read_octets (i missing : nat) : Parser (list N) :=
  fun s =>
    match missing with
    | O => Some ([], s)
    | S missing =>
        let* (octet, s) := read_separator (chr ".") i (read_number 10 3 false 255) s in
        let* (octets, s) := read_octets (S i) missing s in
        Some (octet :: octets, s)
    end.

Definition read_ipv4_addr : Parser (list N) := read_octets 0 4.

(** The two groups of an embedded IPv4 address. *)
Definition embedded_groups (octets : list N) : list N :=
  match octets with
  | [one; two; three; four] => [from_be_bytes [one; two]; from_be_bytes [three; four]]
  | _ => []
  end.

(** One turn of [read_groups]: an embedded IPv4 address, which ends it and needs
    two groups of room, or one group. *)
Definition read_group (i room : nat) (s : rstring) : option (list N * bool * rstring) :=
  match (if (0 <? room)%nat then read_separator (chr ":") i read_ipv4_addr s else None) with
  | Some (octets, s) => Some (embedded_groups octets, true, s)
  | None => let* (group, s) := read_separator (chr ":") i (read_number 16 4 true 65535) s in Some ([group], false, s)
  end.

(** [read_groups]: up to [room] groups from the [i]th on, and whether they end
    in an embedded IPv4 address. *)
Fixpoint read_groups (i room : nat) (s : rstring) : list N * bool * rstring :=
  match room with
  | O => ([], false, s)
  | S room =>
      match read_group i room s with
      | Some (group, true, s) => (group, true, s)
      | Some (group, false, s) =>
          let '(groups, embedded, s) := read_groups (S i) room s in (group ++ groups, embedded, s)
      | None => ([], false, s)
      end
  end.

(** [Parser::read_ipv6_addr]. *)
Definition read_ipv6_addr : Parser (list N) :=
  fun s =>
    let '(head, head_ipv4, s) := read_groups 0 8 s in
    if (length head =? 8)%nat then Some (head, s)
    else if (head_ipv4 : bool) then None
    else
      let* s := strip_prefix (str "::") s in
      let '(tail, _, s) := read_groups 0 (8 - (length head + 1)) s in
      Some (head ++ replicate (8 - length head - length tail) 0%N ++ tail, s).

(** [str::parse::<IpAddr>]. *)
Definition parse_ip (s : rstring) : option IpAddr :=
  match read_ipv4_addr s with
  | Some (octets, rest) => if is_empty rest then Some (V4 octets) else None
  | None =>
      let* (segments, rest) := read_ipv6_addr s in
      if is_empty rest then Some (V6 segments) else None
  end.

(** [IpAddr::is_loopback]. *)
Definition is_loopback (address : IpAddr) : bool :=
  match address with
  | V4 octets => bool_decide (head octets = Some 127%N)
  | V6 segments => bool_decide (segments = [0; 0; 0; 0; 0; 0; 0; 1]%N)
  end.

(** [Display] of an IPv4 address. *)
Definition display_ipv4 (octets : list N) : rstring := join (str ".") (display_u64 <$> octets).

(** ** Policies *)

Definition PROXIIMA_PLAINTEXT_HOSTS : rstring := str "PROXIIMA_PLAINTEXT_HOSTS".

Inductive EndpointUrlPolicy := HttpsOnly | AllowLoopbackHttp.

#[export] Instance EndpointUrlPolicy_eq_dec : EqDecision EndpointUrlPolicy.
Proof. solve_decision. Defined.

Record PlaintextHostsError := mk_PlaintextHostsError {
  refused_entry : rstring;
  refused_reason : rstring;
}.

Record PlaintextHosts := mk_PlaintextHosts { PlaintextHosts_0 : gset rstring }.

Inductive EndpointUrlError :=
| InvalidUrl (message : rstring)
| InsecureTransport.

(** A host without the brackets of an IPv6 literal. *)
Definition unbracketed (host : rstring) : rstring :=
  default host (let* rest := strip_prefix (str "[") host in strip_last (chr "]") rest).

Definition numeric_label (label : rstring) : bool := negb (is_empty label) && forallb is_ascii_digit label.

Definition label_ok (label : rstring) : bool :=
  negb (is_empty label)
  && forallb (fun c => is_ascii_alphanumeric c || (c =? chr "-")%N || (c =? chr "_")%N) label.

Definition parse_plaintext_host (entry : rstring) : result rstring PlaintextHostsError :=
  let entry := trim entry in
  let refuse reason := Err (mk_PlaintextHostsError entry (str reason)) in
  if is_empty entry then refuse "empty entry"%string
  else if contains (chr "*") entry then refuse "wildcards are not accepted"%string
  else if contains (chr "/") entry then refuse "address ranges are not accepted"%string
  else
    let unbracketed := unbracketed entry in
    let last_label := List.last (split (chr ".") unbracketed) [] in
    if is_some (parse_ip unbracketed)
       || existsb numeric_label (split (chr ".") unbracketed)
       || starts_with (str "0x") (to_ascii_lowercase last_label)
    then refuse "address literals and ranges are not accepted"%string
    else if negb (forallb label_ok (split (chr ".") entry))
    then refuse "only ASCII letters, digits, '-', '_' and '.' between non-empty labels"%string
    else Ok (to_ascii_lowercase entry).

(** [core/src/env.rs]: a configuration value, trimmed; a blank one is unset. *)
Definition env_value (lookup : rstring -> option rstring) (key : rstring) : option rstring :=
  let* value := lookup key in
  let trimmed := trim value in
  if is_empty trimmed then None else Some trimmed.

Module PlaintextHosts.

Definition none : PlaintextHosts := mk_PlaintextHosts ∅.

(** The first refused entry refuses the list. *)
Fixpoint collect (entries : list rstring) : result (gset rstring) PlaintextHostsError :=
  match entries with
  | [] => Ok ∅
  | entry :: rest =>
      let? host := parse_plaintext_host entry in
      let? hosts := collect rest in
      Ok ({[ host ]} ∪ hosts)
  end.

Definition parse (raw : rstring) : result PlaintextHosts PlaintextHostsError :=
  if is_empty (trim raw) then Ok none
  else
    let? hosts := collect (split (chr ",") raw) in
    Ok (mk_PlaintextHosts hosts).

Definition from_lookup (lookup : rstring -> option rstring) : result PlaintextHosts PlaintextHostsError :=
  match env_value lookup PROXIIMA_PLAINTEXT_HOSTS with
  | Some raw => parse raw
  | None => Ok none
  end.

Definition is_empty (self : PlaintextHosts) : bool := bool_decide (PlaintextHosts_0 self = ∅).

Definition contains (host : rstring) (self : PlaintextHosts) : bool :=
  negb (is_empty self) && bool_decide (to_ascii_lowercase (trim host) ∈ PlaintextHosts_0 self).

End PlaintextHosts.

Definition is_loopback_host (host : rstring) : bool :=
  let host := unbracketed (trim host) in
  eq_ignore_ascii_case host (str "localhost") || is_some_and (parse_ip host) is_loopback.

(** What the [http] crate reads in a URL. *)
Record Uri := mk_Uri {
  scheme_str : option rstring;
  uri_host : option rstring;
}.

Section validation.
Context (parse_uri : rstring -> result Uri rstring).

Definition validate_endpoint_url_for_hosts (raw : rstring) (policy : EndpointUrlPolicy)
    (plaintext_hosts : PlaintextHosts) : result unit EndpointUrlError :=
  let? uri := map_err InvalidUrl (parse_uri raw) in
  let? scheme := ok_or (scheme_str uri) (InvalidUrl (str "missing scheme")) in
  let? host := ok_or (uri_host uri) (InvalidUrl (str "missing host")) in
  if eq_ignore_ascii_case scheme (str "https") then Ok tt
  else if eq_ignore_ascii_case scheme (str "http")
          && bool_decide (policy = AllowLoopbackHttp)
          && (is_loopback_host host || PlaintextHosts.contains host plaintext_hosts)
  then Ok tt
  else Err InsecureTransport.

Definition validate_endpoint_url (raw : rstring) (policy : EndpointUrlPolicy) : result unit EndpointUrlError :=
  validate_endpoint_url_for_hosts raw policy PlaintextHosts.none.

Definition is_loopback_endpoint (raw : rstring) : bool :=
  default false (let* uri := ok (parse_uri raw) in let* host := uri_host uri in Some (is_loopback_host host)).

End validation.

(** The settings the code's tests refuse, and the hosts they take for local. *)
Example refused_settings :
  forallb (fun raw => negb (is_ok (PlaintextHosts.parse (str raw))))
    ["*"; "*.internal"; "gate*"; "gateway,*"; "10.0.0.0/8"; "10.0.0.1-10.0.0.9"; "10.0.0.1-9"; "0x7f.1"; "0x7f000001";
     "10.0.0.5"; "10.0"; "::1"; "[::1]"; "fd00::/8"; "gateway:9090"; "http://gateway"; "gateway/"; "user@gateway";
     "gateway,,other"; "gateway,"; ",gateway"; "gateway."; ".gateway"; "gate way"]%string = true.
Proof. vm_compute. reflexivity. Qed.

Example loopback_hosts :
  (fun host => is_loopback_host (str host)) <$>
    ["LOCALHOST"; "127.0.0.1"; "[::1]"; "0:0:0:0:0:0:0:1"; "0::0:1"; "::127.0.0.1"; "127.1"; "127.0.0.01"; "128.0.0.1"]%string
  = [true; true; true; true; true; false; false; false; false].
Proof. vm_compute. reflexivity. Qed.

(** ** What the readers consume *)

Lemma to_digit_10 c : is_some (to_digit 10 c) = is_ascii_digit c.
Proof.
  unfold to_digit. destruct (is_ascii_digit c) eqn:Ed; [apply is_ascii_digit_bounds in Ed|].
  { cbn. by rewrite (proj2 (N.ltb_lt _ _)) by lia. }
  unfold is_ascii_lowercase, is_ascii_uppercase, in_range.
  destruct (N.leb_spec 97 c), (N.leb_spec c 122); cbn;
    try (rewrite (proj2 (N.ltb_ge _ _)) by lia; done);
    destruct (N.leb_spec 65 c), (N.leb_spec c 90); cbn; try done; by rewrite (proj2 (N.ltb_ge _ _)) by lia.
Qed.

Lemma read_digits_spec radix acc n s r count rest :
  read_digits radix acc n s = (r, count, rest) ->
  exists digits, s = digits ++ rest /\ count = (n + length digits)%nat
    /\ forallb (fun c => is_some (to_digit radix c)) digits = true.
Proof.
  revert acc n. induction s as [|c s IH]; intros acc n; cbn [read_digits].
  { intros [= <- <- <-]. exists []. rewrite Nat.add_0_r. done. }
  destruct (to_digit radix c) as [digit|] eqn:Ed.
  - intros (digits & -> & -> & Hall)%IH. exists (c :: digits). cbn. rewrite Ed, Hall. split_and!; [done|lia|done].
  - intros [= <- <- <-]. exists []. rewrite Nat.add_0_r. done.
Qed.

Lemma read_number_spec radix max_digits allow max s n rest :
  read_number radix max_digits allow max s = Some (n, rest) ->
  exists digits, s = digits ++ rest /\ digits <> []
    /\ forallb (fun c => is_some (to_digit radix c)) digits = true.
Proof.
  unfold read_number. destruct (read_digits radix 0 0 s) as [[r count] rest'] eqn:Er.
  destruct (max_digits <? count)%nat; [done|]. destruct (count =? 0)%nat eqn:Ec; [done|].
  destruct (negb allow && _ && _); [done|]. destruct (max <? r)%N; [done|]. intros [= <- <-].
  apply read_digits_spec in Er as (digits & -> & -> & Hall). exists digits. split_and!; [done| |done].
  by destruct digits.
Qed.

Lemma read_separator_spec {A} sep i (inner : Parser A) s a rest :
  read_separator sep i inner s = Some (a, rest) ->
  exists s', (s = s' /\ i = 0 \/ s = sep :: s') /\ inner s' = Some (a, rest).
Proof.
  unfold read_separator. destruct i; [eauto|]. destruct s as [|c s']; [done|].
  destruct (N.eqb_spec c sep) as [->|]; [|done]. eauto.
Qed.

Lemma read_octets_spec i missing s octets rest :
  read_octets i missing s = Some (octets, rest) -> length octets = missing /\ rest `suffix_of` s.
Proof.
  revert i s octets. induction missing as [|missing IH]; intros i s octets Hr; cbn [read_octets] in Hr.
  { by injection Hr as <- <-. }
  destruct (read_separator _ _ _ s) as [[octet s1]|] eqn:Es; [|done].
  destruct (read_octets (S i) missing s1) as [[os s2]|] eqn:Eo; [|done]. injection Hr as <- <-.
  apply IH in Eo as [<- Eo]. split; [done|]. apply read_separator_spec in Es as (s0 & Hs & Hn).
  apply read_number_spec in Hn as (digits & -> & _). etrans; [exact Eo|].
  destruct Hs as [[-> _]| ->]; [by apply suffix_app_r|]. by apply suffix_cons_r, suffix_app_r.
Qed.

(** What a turn of [read_groups] consumes: a colon before every group but the
    first. *)
Lemma read_group_spec i room s group embedded rest :
  read_group i room s = Some (group, embedded, rest) ->
  (exists s0, (s = s0 /\ i = 0 \/ s = chr ":" :: s0) /\ rest `suffix_of` s0)
  /\ length group = (if embedded then 2 else 1).
Proof.
  unfold read_group. intros Hr.
  destruct (if (0 <? room)%nat then _ else None) as [[octets s1]|] eqn:E4.
  - injection Hr as <- <- <-. destruct (0 <? room)%nat; [|done].
    apply read_separator_spec in E4 as (s0 & Hs & (Hlen & Hsuf)%read_octets_spec). split; [by exists s0|].
    by do 5 (destruct octets as [|? octets]; try done).
  - destruct (read_separator _ _ (read_number _ _ _ _) s) as [[g s1]|] eqn:En; [|done]. injection Hr as <- <- <-.
    apply read_separator_spec in En as (s0 & Hs & (digits & -> & _)%read_number_spec). split; [|done].
    eexists. split; [exact Hs|]. by apply suffix_app_r.
Qed.

Lemma read_groups_suffix i room s groups embedded rest :
  read_groups i room s = (groups, embedded, rest) -> rest `suffix_of` s.
Proof.
  revert i s groups embedded. induction room as [|room IH]; intros i s groups embedded; cbn [read_groups].
  { by intros [= <- <- <-]. }
  destruct (read_group i room s) as [[[group b] s1]|] eqn:Eg; [|by intros [= <- <- <-]].
  apply read_group_spec in Eg as [(s0 & Hs & Hsuf) _].
  assert (s1 `suffix_of` s) as Hs1 by (destruct Hs as [[-> _]| ->]; [done|by apply suffix_cons_r]).
  destruct b; [by intros [= <- <- <-]|]. destruct (read_groups (S i) room s1) as [[gs b'] s2] eqn:Er.
  intros [= <- <- <-]. apply IH in Er. by etrans.
Qed.

(** An IPv6 address has a colon. *)
Lemma read_ipv6_colon s segments rest : read_ipv6_addr s = Some (segments, rest) -> chr ":" ∈ s.
Proof.
  unfold read_ipv6_addr. destruct (read_groups 0 8 s) as [[head embedded] s1] eqn:Eh.
  destruct (length head =? 8)%nat eqn:E8; [intros _|].
  - apply Nat.eqb_eq in E8. cbn [read_groups] in Eh.
    destruct (read_group 0 7 s) as [[[g b] s2]|] eqn:Eg; [|by injection Eh as <-].
    apply read_group_spec in Eg as [(s0 & Hs & Hsuf) Hg]. destruct b; [injection Eh as <- _ _; lia|].
    assert (s2 `suffix_of` s) as [pre ->] by (destruct Hs as [[-> _]| ->]; [done|by apply suffix_cons_r]).
    apply elem_of_app; right. change (read_groups 1 7 s2) with
      (match read_group 1 6 s2 with
       | Some (group, true, s) => (group, true, s)
       | Some (group, false, s) => let '(groups, embedded, s) := read_groups 2 6 s in (group ++ groups, embedded, s)
       | None => ([], false, s2)
       end) in Eh.
    destruct (read_group 1 6 s2) as [[[g2 b2] s3]|] eqn:Eg2;
      [|injection Eh as <- _ _; rewrite app_nil_r in E8; lia].
    apply read_group_spec in Eg2 as [(s4 & [[_ ?]| ->] & _) _]; [done|]. left.
  - destruct embedded; [done|]. destruct (strip_prefix (str "::") s1) as [s2|] eqn:Es; [|done]. intros _.
    apply read_groups_suffix in Eh as [pre ->]. apply elem_of_app; right.
    destruct s1 as [|c s1]; [done|]. cbn in Es.
    destruct (N.eqb_spec 58 c) as [<-|]; [left|]. by rewrite ?(proj2 (N.eqb_neq _ _)) in Es.
Qed.

(** ** Names are not addresses *)

Lemma split_cons c s : exists piece pieces, split c s = piece :: pieces.
Proof. destruct s as [|a s]; cbn; [eauto|]. case_match; [eauto|]. case_match; eauto. Qed.

Lemma split_app c s rest : c ∉ s -> split c (s ++ c :: rest) = s :: split c rest.
Proof.
  induction s as [|a s IH]; cbn; intros Hc; [by rewrite N.eqb_refl|].
  apply not_elem_of_cons in Hc as [Hne Hc]. rewrite (proj2 (N.eqb_neq a c)) by done. by rewrite IH.
Qed.

(** An IPv4 address has a numeric label. *)
Lemma read_ipv4_numeric s octets rest :
  read_ipv4_addr s = Some (octets, rest) -> existsb numeric_label (split (chr ".") s) = true.
Proof.
  unfold read_ipv4_addr. cbn [read_octets read_separator]. intros Hr.
  destruct (read_number 10 3 false 255 s) as [[octet s1]|] eqn:En; [|done].
  apply read_number_spec in En as (digits & -> & Hne & Hall).
  destruct s1 as [|c s1]; [done|]. destruct (N.eqb_spec c (chr ".")) as [->|]; [|done]. clear Hr.
  assert (all_digits digits = true) as Hd.
  { rewrite <-Hall. clear. induction digits as [|c d IH]; [done|]. cbn [forallb]. by rewrite IH, to_digit_10. }
  rewrite split_app.
  - cbn [existsb]. unfold numeric_label. rewrite Hd. by destruct digits.
  - intros Hin. rewrite forallb_forall in Hd. apply list_elem_of_In, Hd in Hin. done.
Qed.

Abbreviation lower := (fun c : char => if is_ascii_uppercase c then (c + 32)%N else c).

Lemma lower_cases c :
  ((65 <= c <= 90)%N /\ lower c = (c + 32)%N) \/ (~ (65 <= c <= 90)%N /\ lower c = c).
Proof. unfold is_ascii_uppercase, in_range. destruct (N.leb_spec 65 c), (N.leb_spec c 90); cbn; lia. Qed.

Lemma split_lower s : split (chr ".") (to_ascii_lowercase s) = to_ascii_lowercase <$> split (chr ".") s.
Proof.
  induction s as [|c s IH]; [done|]. cbn [to_ascii_lowercase fmap list_fmap split]. fold (to_ascii_lowercase s).
  rewrite IH. replace (lower c =? chr ".")%N with (c =? chr ".")%N.
  - destruct (c =? chr ".")%N; [done|]. destruct (split_cons (chr ".") s) as (piece & pieces & ->). done.
  - destruct (N.eqb_spec c (chr ".")) as [->|Hne]; [done|]. symmetry. apply N.eqb_neq.
    change (chr ".") with 46%N in *. destruct (lower_cases c) as [[? ->]|[? ->]]; lia.
Qed.

Lemma digits_lower s : all_digits (to_ascii_lowercase s) = all_digits s.
Proof.
  induction s as [|c s IH]; [done|]. cbn [to_ascii_lowercase fmap list_fmap forallb].
  fold (to_ascii_lowercase s). rewrite IH. f_equal. unfold is_ascii_digit, in_range.
  destruct (lower_cases c) as [[? ->]|[? ->]]; [|done]. rewrite !(proj2 (N.leb_gt _ 57)) by lia. by rewrite !andb_false_r.
Qed.

Lemma numeric_lower label : numeric_label (to_ascii_lowercase label) = numeric_label label.
Proof. unfold numeric_label. rewrite digits_lower. by destruct label. Qed.

Lemma elem_of_split x c s : x ∈ s -> x = c \/ exists piece, piece ∈ split c s /\ x ∈ piece.
Proof.
  induction s as [|a s IH]; [by intros ?%elem_of_nil|]. cbn [split]. intros Hx.
  destruct (split_cons c s) as (piece & pieces & E). rewrite E in *.
  apply elem_of_cons in Hx as [->|Hx].
  - destruct (N.eqb_spec a c) as [->|]; [by left|]. right. exists (a :: piece). split; left.
  - destruct (IH Hx) as [->|(p & Hp & Hin)]; [by left|right]. destruct (a =? c)%N; [exists p; split; [by right|done]|].
    apply elem_of_cons in Hp as [->|Hp]; [exists (a :: piece); split; [left|by right]|exists p; split; [by right|done]].
Qed.

(** The characters of an entry whose labels are all well-formed. *)
Lemma labels_ok_chars s x :
  forallb label_ok (split (chr ".") s) = true -> x ∈ s ->
  is_ascii_alphanumeric x = true \/ x = chr "-" \/ x = chr "_" \/ x = chr ".".
Proof.
  intros Hall Hx. destruct (elem_of_split _ (chr ".") _ Hx) as [->|(p & Hp & Hin)]; [tauto|].
  rewrite forallb_forall in Hall. apply list_elem_of_In, Hall in Hp. unfold label_ok in Hp. bools.
  rewrite forallb_forall in H0. apply list_elem_of_In, H0 in Hin. rewrite !orb_true_iff, !N.eqb_eq in Hin. tauto.
Qed.

Lemma named_host_is_a_name entry host :
  parse_plaintext_host entry = Ok host -> host = to_ascii_lowercase (trim entry) /\ parse_ip host = None.
Proof.
  unfold parse_plaintext_host. set (e := trim entry). intros Hp.
  destruct (is_empty e); [done|]. destruct (contains (chr "*") e); [done|]. destruct (contains (chr "/") e); [done|].
  destruct (_ || _ || _) eqn:Enum; [done|]. destruct (forallb label_ok (split (chr ".") e)) eqn:Elab; [|done].
  cbn [negb] in Hp. injection Hp as <-. split; [done|].
  assert (unbracketed e = e) as Eu.
  { unfold unbracketed. destruct (strip_prefix (str "[") e) as [r|] eqn:Es; [|done]. exfalso.
    destruct e as [|c e']; [done|]. destruct (labels_ok_chars _ c Elab) as [Hc|[->|[->| ->]]]; try done; [left|].
    cbn in Es. destruct (N.eqb_spec 91 c) as [<-|]; [done|]. by rewrite ?(proj2 (N.eqb_neq _ _)) in Es. }
  rewrite Eu in Enum. apply orb_false_iff in Enum as [[_ Enum]%orb_false_iff _]. unfold parse_ip.
  destruct (read_ipv4_addr (to_ascii_lowercase e)) as [[octets rest]|] eqn:E4.
  - apply read_ipv4_numeric in E4. rewrite split_lower in E4. apply existsb_exists in E4 as (l & Hl & Hn).
    apply list_elem_of_In, list_elem_of_fmap in Hl as (label & -> & Hl). rewrite numeric_lower in Hn.
    rewrite <-not_true_iff_false, existsb_exists in Enum. destruct Enum. exists label. by rewrite <-list_elem_of_In.
  - destruct (read_ipv6_addr (to_ascii_lowercase e)) as [[segments rest]|] eqn:E6; [|done]. exfalso.
    apply read_ipv6_colon, list_elem_of_fmap in E6 as (c & Ec & Hc).
    destruct (lower_cases c) as [[? E]|[? E]]; rewrite E in Ec; [change (chr ":") with 58%N in Ec; lia|subst c].
    by destruct (labels_ok_chars _ _ Elab Hc) as [?|[?|[?|?]]].
Qed.

(** ** Printed addresses parse back *)

Definition no_digit_next (rest : rstring) : Prop := match rest with c :: _ => is_ascii_digit c = false | [] => True end.

Lemma read_digits_app digits rest acc count :
  all_digits digits = true -> no_digit_next rest ->
  read_digits 10 acc count (digits ++ rest)
  = ((acc * 10 ^ N.of_nat (length digits) + numeral digits)%N, (count + length digits)%nat, rest).
Proof.
  intros Hd Hrest. revert acc count. induction digits as [|c digits IH]; intros acc count.
  - cbn [app length numeral]. rewrite Nat.add_0_r, N.mul_1_r, N.add_0_r. destruct rest as [|c rest]; [done|].
    cbn [read_digits]. cbn in Hrest. pose proof (to_digit_10 c) as Ed. rewrite Hrest in Ed. by destruct (to_digit 10 c) as [?|].
  - cbn [forallb] in Hd. apply andb_true_iff in Hd as [Hc Hd]. cbn [app read_digits].
    assert (to_digit 10 c = Some (c - 48)%N) as ->.
    { unfold to_digit. rewrite Hc. apply is_ascii_digit_bounds in Hc. cbn. by rewrite (proj2 (N.ltb_lt _ _)) by lia. }
    rewrite (IH Hd). cbn [numeral length]. rewrite Nat2N.inj_succ, N.pow_succ_r'.
    apply f_equal2; [apply f_equal2; [ring|lia]|done].
Qed.

Definition octet_text_ok (n : N) : bool :=
  let text := display_u64 n in
  all_digits text && (numeral text =? n)%N && (0 <? length text)%nat && (length text <=? 3)%nat
  && (negb (match text with c :: _ => (c =? chr "0")%N | [] => false end) || (length text =? 1)%nat).

Lemma octet_texts n : (n < 256)%N -> octet_text_ok n = true.
Proof.
  intros Hn. assert (forallb octet_text_ok (N.of_nat <$> seq 0 256) = true) as Hall by (vm_compute; reflexivity).
  rewrite forallb_forall in Hall. apply Hall, list_elem_of_In, list_elem_of_fmap. exists (N.to_nat n).
  split; [lia|]. apply elem_of_seq. lia.
Qed.

Lemma read_octet n rest :
  (n < 256)%N -> no_digit_next rest -> read_number 10 3 false 255 (display_u64 n ++ rest) = Some (n, rest).
Proof.
  intros Hn Hrest. pose proof (octet_texts n Hn) as Hok. unfold octet_text_ok in Hok. unfold read_number.
  rewrite !andb_true_iff in Hok. destruct Hok as [[[[Hd Hv%N.eqb_eq] H1%Nat.ltb_lt] H3%Nat.leb_le] Hz].
  rewrite (read_digits_app _ _ _ _ Hd Hrest), Hv. cbn [Nat.add].
  rewrite (proj2 (Nat.ltb_ge _ _) H3), (proj2 (Nat.eqb_neq _ _)) by lia.
  destruct (display_u64 n) as [|c text]; [cbn in H1; lia|]. cbn [app negb andb].
  apply orb_true_iff in Hz as [Hz|Hz%Nat.eqb_eq].
  - apply negb_true_iff in Hz. rewrite Hz. cbn [andb]. rewrite N.mul_0_l, N.add_0_l. by rewrite (proj2 (N.ltb_ge _ _)) by lia.
  - rewrite Hz, andb_false_r, N.mul_0_l, N.add_0_l. by rewrite (proj2 (N.ltb_ge _ _)) by lia.
Qed.

Lemma read_octets_step i missing n rest :
  (n < 256)%N -> no_digit_next rest ->
  read_octets i (S missing) (match i with O => [] | S _ => str "." end ++ display_u64 n ++ rest)
  = (let* (octets, s) := read_octets (S i) missing rest in Some (n :: octets, s)).
Proof.
  intros Hn Hrest. cbn [read_octets]. destruct i; [cbn [read_separator app]; by rewrite read_octet|].
  change (str ".") with [chr "."]. cbn [read_separator app]. by rewrite N.eqb_refl, read_octet.
Qed.

Lemma parse_display_ipv4 a b c d :
  (a < 256)%N -> (b < 256)%N -> (c < 256)%N -> (d < 256)%N ->
  parse_ip (display_ipv4 [a; b; c; d]) = Some (V4 [a; b; c; d]).
Proof.
  intros Ha Hb Hc Hd. unfold parse_ip.
  assert (read_ipv4_addr (display_ipv4 [a; b; c; d]) = Some ([a; b; c; d], [])) as ->; [|done].
  unfold read_ipv4_addr, display_ipv4. cbn [fmap list_fmap join]. rewrite <-(app_nil_r (display_u64 d)).
  etrans; [by apply (read_octets_step 0 3 a)|].
  rewrite (read_octets_step 1 2 b), (read_octets_step 2 1 c), (read_octets_step 3 0 d); done.
Qed.

(** ** Plaintext *)

Lemma collect_spec entries hosts host :
  PlaintextHosts.collect entries = Ok hosts -> host ∈ hosts ->
  exists entry, entry ∈ entries /\ parse_plaintext_host entry = Ok host.
Proof.
  revert hosts. induction entries as [|entry rest IH]; intros hosts; cbn [PlaintextHosts.collect].
  { intros [= <-]. set_solver. }
  destruct (parse_plaintext_host entry) as [h|] eqn:Eh; [|done].
  destruct (PlaintextHosts.collect rest) as [hs|] eqn:Er; [|done]. intros [= <-] [->%elem_of_singleton|Hin]%elem_of_union.
  - exists entry. split; [left|done].
  - destruct (IH hs eq_refl Hin) as (e & He & Hp). exists e. split; [by right|done].
Qed.

Lemma parse_hosts_spec raw hosts host :
  PlaintextHosts.parse raw = Ok hosts -> PlaintextHosts.contains host hosts = true ->
  (exists entry, entry ∈ split (chr ",") raw /\ to_ascii_lowercase (trim entry) = to_ascii_lowercase (trim host))
  /\ parse_ip (to_ascii_lowercase (trim host)) = None.
Proof.
  unfold PlaintextHosts.parse, PlaintextHosts.contains. intros Hp Hc. bools.
  destruct (is_empty (trim raw)); [injection Hp as <-; set_solver|].
  destruct (PlaintextHosts.collect _) as [hs|] eqn:Ec; [|done]. injection Hp as <-.
  destruct (collect_spec _ _ _ Ec H0) as (entry & He & [Eq Hip]%named_host_is_a_name). eauto.
Qed.

Lemma trim_solid s : Forall (fun c => is_whitespace c = false) s -> trim s = s.
Proof.
  intros Hs. assert (forall t, Forall (fun c => is_whitespace c = false) t -> trim_start t = t) as Hstart.
  { intros [|c t] Ht; [done|]. apply list.Forall_cons in Ht as [Hc _]. cbn. by rewrite Hc. }
  unfold trim. rewrite (Hstart s Hs), Hstart by by apply Forall_reverse. apply reverse_involutive.
Qed.

Lemma digit_solid c : is_ascii_digit c = true -> is_whitespace c = false.
Proof.
  intros Hc%is_ascii_digit_bounds. assert (forallb (fun c => negb (is_whitespace c)) (N.of_nat <$> seq 48 10) = true) as Hall
    by reflexivity.
  rewrite forallb_forall in Hall. apply negb_true_iff, Hall, list_elem_of_In, list_elem_of_fmap.
  exists (N.to_nat c). split; [lia|]. apply elem_of_seq. lia.
Qed.

(** The characters of a printed IPv4 address. *)
Lemma display_ipv4_chars octets : Forall (fun c => is_ascii_digit c = true \/ c = chr ".") (display_ipv4 octets).
Proof.
  unfold display_ipv4. induction octets as [|n octets IH]; [constructor|].
  assert (Forall (fun c => is_ascii_digit c = true \/ c = chr ".") (display_u64 n)) as Hn.
  { apply list.Forall_forall. intros c Hc. left. destruct (display_u64_spec n) as [Hd _].
    rewrite forallb_forall in Hd. by apply Hd, list_elem_of_In. }
  destruct octets as [|m octets]; [done|]. cbn [fmap list_fmap join] in *. apply Forall_app_2; [done|].
  apply Forall_app_2; [|done]. apply Forall_singleton. by right.
Qed.

Lemma loopback_ipv4 a b c d :
  (a < 256)%N -> (b < 256)%N -> (c < 256)%N -> (d < 256)%N ->
  is_loopback_host (display_ipv4 [a; b; c; d]) = (a =? 127)%N
  /\ parse_ip (to_ascii_lowercase (trim (display_ipv4 [a; b; c; d]))) = Some (V4 [a; b; c; d]).
Proof.
  intros Ha Hb Hc Hd. pose proof (display_ipv4_chars [a; b; c; d]) as Hchars.
  set (text := display_ipv4 [a; b; c; d]) in *.
  assert (parse_ip text = Some (V4 [a; b; c; d])) as Hp by by apply parse_display_ipv4.
  assert (trim text = text) as Et.
  { apply trim_solid. eapply Forall_impl; [|exact Hchars]. intros x [Hx| ->]; [|done]. by apply digit_solid. }
  assert (to_ascii_lowercase text = text) as El.
  { unfold to_ascii_lowercase. rewrite <-(list_fmap_id text) at 2. apply list_fmap_ext. intros i x Hx.
    destruct (lower_cases x) as [[Hup _]|[_ ->]]; [|done]. apply list_elem_of_lookup_2 in Hx.
    rewrite list.Forall_forall in Hchars. destruct (Hchars x Hx) as [Hd'%is_ascii_digit_bounds| ->]; [lia|].
    change (chr ".") with 46%N in Hup. lia. }
  rewrite Et, El. split; [|done]. unfold is_loopback_host. rewrite Et.
  assert (unbracketed text = text) as ->.
  { unfold unbracketed. destruct text as [|x text']; [done|]. apply list.Forall_cons in Hchars as [Hx _].
    cbn. destruct (N.eqb_spec 91 x) as [<-|Hne]; [by destruct Hx|]. by rewrite ?(proj2 (N.eqb_neq _ _)). }
  rewrite Hp. unfold eq_ignore_ascii_case. rewrite El. cbn [is_some_and is_loopback head].
  rewrite (bool_decide_eq_false_2 (text = _)) by (intros E; rewrite E in Hp; by vm_compute in Hp). cbn [orb].
  destruct (N.eqb_spec a 127) as [->|Hne]; [done|]. apply bool_decide_eq_false_2. congruence.
Qed.

(** Plaintext goes to the local machine or to a host the operator spelled.
    A URL that is not https is accepted only as http, under the policy that
    allows it, to a loopback host or to one of the comma-separated names of the
    setting, letter case aside; no name in the setting is an IP address.  So to
    an IPv4 address plaintext is accepted exactly when it is in 127.0.0.0/8,
    whatever the setting names. *)
Theorem plaintext_is_loopback_or_named (parse_uri : rstring -> result Uri rstring) (setting : rstring)
    (hosts : PlaintextHosts) (url : rstring) (policy : EndpointUrlPolicy) (scheme host : rstring)
    (Hhosts : PlaintextHosts.parse setting = Ok hosts)
    (Huri : parse_uri url = Ok (mk_Uri (Some scheme) (Some host)))
    (Hplain : eq_ignore_ascii_case scheme (str "https") = false) :
  (validate_endpoint_url_for_hosts parse_uri url policy hosts = Ok tt ->
     eq_ignore_ascii_case scheme (str "http") = true /\ policy = AllowLoopbackHttp
     /\ (is_loopback_host host = true
         \/ (exists entry, entry ∈ split (chr ",") setting
              /\ to_ascii_lowercase (trim entry) = to_ascii_lowercase (trim host))
            /\ parse_ip (to_ascii_lowercase (trim host)) = None))
  /\ (forall a b c d, (a < 256)%N -> (b < 256)%N -> (c < 256)%N -> (d < 256)%N -> host = display_ipv4 [a; b; c; d] ->
       (validate_endpoint_url_for_hosts parse_uri url policy hosts = Ok tt
        <-> eq_ignore_ascii_case scheme (str "http") = true /\ policy = AllowLoopbackHttp /\ a = 127%N)).
Proof.
  unfold validate_endpoint_url_for_hosts. rewrite Huri. cbn [map_err ok_or scheme_str uri_host]. rewrite Hplain.
  pose proof (parse_hosts_spec _ _ host Hhosts) as Hnamed. split.
  - destruct (_ && _) eqn:E; [|done]. intros _. apply andb_true_iff in E as [[E1 E2%bool_decide_eq_true]%andb_true_iff E3].
    apply orb_true_iff in E3 as [|E3]; [by auto|]. split_and!; [done|done|]. right. by apply Hnamed.
  - intros a b c d Ha Hb Hc Hd ->. destruct (loopback_ipv4 a b c d Ha Hb Hc Hd) as [-> Hip].
    assert (PlaintextHosts.contains (display_ipv4 [a; b; c; d]) hosts = false) as ->.
    { apply not_true_iff_false. intros [_ Hno]%Hnamed. by rewrite Hip in Hno. }
    rewrite orb_false_r. destruct (_ && _) eqn:E.
    + apply andb_true_iff in E as [[E1 E2%bool_decide_eq_true]%andb_true_iff E3%N.eqb_eq]. tauto.
    + split; [done|]. intros (E1 & -> & ->). by rewrite E1 in E.
Qed.

Lemma plaintext_is_loopback_or_named_witness :
  validate_endpoint_url_for_hosts (fun _ => Ok (mk_Uri (Some (str "HTTP")) (Some (str "127.8.0.1")))) (str "HTTP://127.8.0.1/v1")
    AllowLoopbackHttp (mk_PlaintextHosts {[ str "gateway" ]}) = Ok tt.
Proof.
  apply (plaintext_is_loopback_or_named (fun _ => Ok (mk_Uri (Some (str "HTTP")) (Some (str "127.8.0.1"))))
           (str " Gateway") (mk_PlaintextHosts {[ str "gateway" ]}) (str "HTTP://127.8.0.1/v1") AllowLoopbackHttp
           (str "HTTP") (str "127.8.0.1")) with (a := 127%N) (b := 8%N) (c := 0%N) (d := 1%N);
    vm_compute; auto.
Defined.
