(* ===== verification/HttpSink.v ===== *)
(** * The HTTP outbox sink

    [crates/proxiima/src/outbox_http.rs]: the built-in intake that posts every
    captured event to one URL, and what the receiver's answer decides.  URL
    parsing, certificates, the HTTP client and the file system are arguments;
    reading a rejection's body and bounding it is modelled. *)

From S2P Require Import Prelude Utf8 Ids Decimal Json Publication Outbox Intake Net.

(** ** The sink *)

Definition ENV_URL : rstring := str "PROXIIMA_OUTBOX_HTTP_URL".
Definition ENV_TOKEN_FILE : rstring := str "PROXIIMA_OUTBOX_HTTP_TOKEN_FILE".
Definition ENV_CA_FILE : rstring := str "PROXIIMA_OUTBOX_HTTP_CA_FILE".
Definition CONSUMER : rstring := str "http".
Definition REQUEST_TIMEOUT : Duration := 4500000000.
Definition MAX_REASON_CHARS : nat := 512.
Definition MAX_REASON_BYTES : nat := MAX_REASON_CHARS * 4.
Definition CONTENT_TYPE : rstring := str "application/cloudevents+json".
Definition DELIVERY_COUNT_HEADER : rstring := str "Proxiima-Delivery-Count".

Definition consumer_name : option ConsumerName := ok (ConsumerName.new CONSUMER).

(** The runtime's configuration error. *)
Record ConfigError := mk_ConfigError { config_message : rstring }.

(** [reqwest::Url], as far as the sink reads it. *)
Record Url := mk_Url {
  url_scheme : rstring;
  url_as_str : rstring;
  url_host_str : option rstring;
}.

(** The client's configuration: its deadline, no redirect followed, and the only
    certificates trusted, if any are named. *)
Record ClientConfig (Cert : Type) := mk_ClientConfig {
  cc_timeout : Duration;
  cc_follow_redirects : bool;
  cc_certs_only : option (list Cert);
}.
Arguments mk_ClientConfig {Cert}.
Arguments cc_certs_only {Cert} _.

Record HttpIntake (Client : Type) := mk_HttpIntake {
  hi_client : Client;
  hi_url : Url;
  hi_token_file : option rstring;
}.
Arguments mk_HttpIntake {Client}.
Arguments hi_client {Client} _.
Arguments hi_url {Client} _.
Arguments hi_token_file {Client} _.

Record Request := mk_Request {
  rq_url : Url;
  rq_headers : list (rstring * rstring);
  rq_body : list N;
}.

(** A response: its status and the chunks of its body, the last [Ok] one before
    the end or an error. *)
Record Response := mk_Response {
  rs_status : N;
  rs_chunks : list (result (list N) rstring);
}.

(** [http::StatusCode]. *)
Class StatusCode := {
  is_success : N -> bool;
  canonical_reason : N -> option rstring;
}.

(** A success is a status within 200-299. *)
Class StatusCodeLaws `{StatusCode} : Prop := is_success_range status : is_success status = in_range 200 299 status.

Section sink.
Context `{StatusCode}.

Definition classify (status : N) (body : rstring) : result Intake IntakeError :=
  if is_success status then Ok IntakeAccepted
  else if (status =? 400)%N || (status =? 422)%N then
    let detail := take MAX_REASON_CHARS (trim body) in
    let detail := if is_empty detail then default (str "rejected") (canonical_reason status) else detail in
    Ok (IntakeRejected (str "HTTP " ++ display_u64 status ++ str ": " ++ detail))
  else Err (mk_IntakeError (str "outbox receiver answered HTTP " ++ display_u64 status ++ str "; retrying")).

(** The loop of [reason_body]. *)
Fixpoint read_chunks (acc : list N) (chunks : list (result (list N) rstring)) : list N :=
  if (length acc <? MAX_REASON_BYTES)%nat then
    match chunks with
    | Ok chunk :: rest => read_chunks (acc ++ take (MAX_REASON_BYTES - length acc) chunk) rest
    | Err _ :: _ | [] => acc
    end
  else acc.

Definition reason_body (response : Response) : rstring := from_utf8_lossy (read_chunks [] (rs_chunks response)).

Section client.
Context {Cert Client : Type}.
Context (parse_url : rstring -> result Url rstring) (parse_uri : rstring -> result Uri rstring)
  (read : rstring -> result (list N) rstring) (from_pem_bundle : list N -> result (list Cert) rstring)
  (build : ClientConfig Cert -> result Client rstring).
Context (read_to_string : rstring -> result rstring rstring) (send : Client -> Request -> result Response rstring).

Definition scheme_check (url : Url) (plaintext_hosts : PlaintextHosts) : result unit ConfigError :=
  if bool_decide (url_scheme url = str "https") then Ok tt
  else if bool_decide (url_scheme url = str "http") then
    map_err (fun _ => mk_ConfigError (ENV_URL
        ++ str " must be https:// unless its host is loopback or named in " ++ PROXIIMA_PLAINTEXT_HOSTS
        ++ str ": memory events require a trusted plaintext host"))
      (validate_endpoint_url_for_hosts parse_uri (url_as_str url) AllowLoopbackHttp plaintext_hosts)
  else Err (mk_ConfigError (ENV_URL ++ str " must be an http(s) URL, got scheme " ++ [34%N] ++ url_scheme url ++ [34%N])).

Definition ca_certs (ca_file : option rstring) : result (option (list Cert)) ConfigError :=
  match ca_file with
  | None => Ok None
  | Some ca_file =>
      let? pem := map_err (fun err => mk_ConfigError (ENV_CA_FILE ++ str " could not be read: " ++ err)) (read ca_file) in
      let? certs := map_err (fun err => mk_ConfigError (ENV_CA_FILE ++ str " is not a PEM bundle: " ++ err))
                      (from_pem_bundle pem) in
      if is_empty certs then Err (mk_ConfigError (ENV_CA_FILE ++ str " holds no certificate"))
      else Ok (Some certs)
  end.

Definition new (url : rstring) (token_file ca_file : option rstring) (plaintext_hosts : PlaintextHosts) :
    result (HttpIntake Client) ConfigError :=
  let? url := map_err (fun err => mk_ConfigError (ENV_URL ++ str " is not a URL: " ++ err)) (parse_url url) in
  let? _ := scheme_check url plaintext_hosts in
  let? _ := ok_or (url_host_str url) (mk_ConfigError (ENV_URL ++ str " has no host")) in
  let? certs := ca_certs ca_file in
  let? client := map_err (fun err => mk_ConfigError (str "outbox HTTP client could not be built: " ++ err))
                   (build (mk_ClientConfig REQUEST_TIMEOUT false certs)) in
  Ok (mk_HttpIntake client url token_file).

(** [show] is the setting error's message. *)
Definition from_lookup (show : PlaintextHostsError -> rstring) (lookup : rstring -> option rstring) :
    result (option (HttpIntake Client)) ConfigError :=
  let? plaintext_hosts := map_err (fun err => mk_ConfigError (show err)) (PlaintextHosts.from_lookup lookup) in
  match lookup ENV_URL with
  | None => Ok None
  | Some url =>
      let? intake := new url (lookup ENV_TOKEN_FILE) (lookup ENV_CA_FILE) plaintext_hosts in
      Ok (Some intake)
  end.

Definition bearer (self : HttpIntake Client) : result (option rstring) IntakeError :=
  match hi_token_file self with
  | None => Ok None
  | Some path =>
      let? token := map_err (fun err => mk_IntakeError (ENV_TOKEN_FILE ++ str " unreadable: " ++ err))
                      (read_to_string path) in
      let token := trim token in
      if is_empty token then Err (mk_IntakeError (ENV_TOKEN_FILE ++ str " is empty"))
      else Ok (Some (str "Bearer " ++ token))
  end.

(** The request as the sink builds it.  The client makes a basic authorization
    header of credentials in the URL on its own; that is not part of it. *)
Definition request (self : HttpIntake Client) (event : ReceivedEvent) (bearer : option rstring) : Request :=
  mk_Request (hi_url self)
    ([(str "content-type", CONTENT_TYPE); (DELIVERY_COUNT_HEADER, display_u64 (re_delivered_count event))]
     ++ match bearer with Some bearer => [(str "authorization", bearer)] | None => [] end)
    (re_raw event).

(** [accept]: the request it sent, if any, and the answer. *)
Definition accept (self : HttpIntake Client) (event : ReceivedEvent) :
    option Request * result Intake IntakeError :=
  match bearer self with
  | Err e => (None, Err e)
  | Ok bearer =>
      let request := request self event bearer in
      (Some request,
       let? response := map_err (fun err => mk_IntakeError (str "outbox receiver unreachable: " ++ err))
                          (send (hi_client self) request) in
       let body := if (rs_status response =? 400)%N || (rs_status response =? 422)%N
                   then reason_body response else [] in
       classify (rs_status response) body)
  end.

End client.
End sink.

(** ** The answer decides *)

(** The bytes of a body that arrive before its end or its first error. *)
Fixpoint arrived (chunks : list (result (list N) rstring)) : list N :=
  match chunks with
  | Ok chunk :: rest => chunk ++ arrived rest
  | Err _ :: _ | [] => []
  end.

Lemma take_prefix_enough {A} n (a c r : list A) :
  take n ((a ++ take (n - length a) c) ++ r) = take n (a ++ c ++ r).
Proof.
  rewrite <-app_assoc, !(take_app a). f_equal. set (m := n - length a).
  destruct (decide (length c <= m)); [by rewrite (take_ge c)|].
  rewrite (take_app_le c) by lia. apply take_app_length'. rewrite length_take. lia.
Qed.

(** However a body is cut into chunks, its first bytes are kept. *)
Lemma read_chunks_take acc chunks :
  length acc <= MAX_REASON_BYTES -> read_chunks acc chunks = take MAX_REASON_BYTES (acc ++ arrived chunks).
Proof.
  revert acc. induction chunks as [|[chunk|e] rest IH]; intros acc Hacc; cbn [read_chunks arrived].
  - rewrite app_nil_r, take_ge by done. by case_match.
  - destruct (Nat.ltb_spec (length acc) MAX_REASON_BYTES) as [Hlt|Hge].
    + rewrite IH by (rewrite length_app, length_take; lia). apply take_prefix_enough.
    + symmetry. apply take_app_length'. lia.
  - rewrite app_nil_r, take_ge by done. by case_match.
Qed.

Section decisions.
Context `{StatusCode} `{!StatusCodeLaws} {Client : Type}.
Context (read_to_string : rstring -> result rstring rstring) (send : Client -> Request -> result Response rstring).

Lemma bearer_header self event token :
  bearer read_to_string self = Ok token ->
  (exists text, (str "authorization", text) ∈ rq_headers (request self event token)) <-> is_Some (hi_token_file (Client := Client) self).
Proof.
  unfold bearer. destruct (hi_token_file self) as [path|]; intros Hb.
  - split; [by eauto|intros _]. destruct (read_to_string path) as [raw|]; [|done]. cbn [map_err] in Hb.
    destruct (is_empty (trim raw)); [done|]. injection Hb as <-. eexists. do 2 right. left.
  - injection Hb as <-. split; [|by intros [? ?]]. intros (text & Hin). cbn in Hin.
    apply elem_of_cons in Hin as [[=]|Hin]. apply elem_of_cons in Hin as [[=]|Hin]. by apply elem_of_nil in Hin.
Qed.

(** What [accept] makes of a response. *)
Definition answered (response : Response) : result Intake IntakeError :=
  classify (rs_status response)
    (if (rs_status response =? 400)%N || (rs_status response =? 422)%N then reason_body response else []).

Lemma classify_accepted response :
  answered response = Ok IntakeAccepted <-> (200 <= rs_status response <= 299)%N.
Proof.
  unfold answered, classify. rewrite is_success_range. unfold in_range.
  destruct (N.leb_spec 200 (rs_status response)), (N.leb_spec (rs_status response) 299); cbn;
    (split; [|done || lia]); try done; case_match; done.
Qed.

Lemma classify_rejected response reason :
  answered response = Ok (IntakeRejected reason)
  <-> (rs_status response = 400%N \/ rs_status response = 422%N)
      /\ let detail := take 512 (trim (from_utf8_lossy (take 2048 (arrived (rs_chunks response))))) in
         reason = str "HTTP " ++ display_u64 (rs_status response) ++ str ": "
                  ++ if is_empty detail then default (str "rejected") (canonical_reason (rs_status response)) else detail.
Proof.
  unfold answered, classify, reason_body. rewrite is_success_range, read_chunks_take by (cbn; lia). cbn [app].
  destruct (N.eqb_spec (rs_status response) 400) as [->|H4]; [cbn [orb in_range]; naive_solver|].
  destruct (N.eqb_spec (rs_status response) 422) as [->|H42]; [cbn [orb in_range]; naive_solver|]. cbn [orb].
  split; [|by intros [[]?]]. by destruct (in_range _ _ _).
Qed.

(** C39. What the receiver answers decides, and the event is sent as captured.
    Nothing is sent when the token cannot be read.  Otherwise one request
    carries the captured bytes unchanged, and the sink gives it a bearer exactly
    when a token file is configured.  The event counts as taken exactly on a 2xx answer and as
    refused exactly on a 400 or 422; everything else, no answer included, is an
    error to retry.  A refusal keeps at most 512 characters of the body, decoded
    from its first 2048 bytes however it arrived in chunks. *)
Theorem http_answer_decides (self : HttpIntake Client) (event : ReceivedEvent) (sent : Request)
    (answer : result Intake IntakeError)
    (Haccept : accept read_to_string send self event = (Some sent, answer)) :
  rq_body sent = re_raw event /\ rq_url sent = hi_url self
  /\ ((exists token, (str "authorization", token) ∈ rq_headers sent) <-> is_Some (hi_token_file self))
  /\ (answer = Ok IntakeAccepted
      <-> exists response, send (hi_client self) sent = Ok response /\ (200 <= rs_status response <= 299)%N)
  /\ (forall reason, answer = Ok (IntakeRejected reason) <->
       exists response, send (hi_client self) sent = Ok response
         /\ (rs_status response = 400%N \/ rs_status response = 422%N)
         /\ let detail := take 512 (trim (from_utf8_lossy (take 2048 (arrived (rs_chunks response))))) in
            reason = str "HTTP " ++ display_u64 (rs_status response) ++ str ": "
                     ++ if is_empty detail then default (str "rejected") (canonical_reason (rs_status response))
                        else detail).
Proof.
  unfold accept in Haccept. destruct (bearer read_to_string self) as [token|e] eqn:Eb; [|done].
  injection Haccept as <- Ha. split_and!; [done|done|by apply bearer_header| |].
  - split.
    + intros ->. destruct (send _ _) as [response|] eqn:Es; [|done]. cbn [map_err] in Ha; fold (answered response) in Ha. exists response. split; [done|].
      apply classify_accepted in Ha. done.
    + intros (response & Es & Hok). rewrite Es in Ha. cbn [map_err] in Ha; fold (answered response) in Ha. rewrite <-Ha. by apply classify_accepted.
  - intros reason. split.
    + intros ->. destruct (send _ _) as [response|] eqn:Es; [|done]. cbn [map_err] in Ha; fold (answered response) in Ha. exists response. split; [done|].
      by apply classify_rejected in Ha.
    + intros (response & Es & Hok). rewrite Es in Ha. cbn [map_err] in Ha; fold (answered response) in Ha. rewrite <-Ha. by apply classify_rejected.
Qed.

End decisions.

(** A receiver that refuses an event with a body of two chunks. *)
Module SampleSink.

#[local] Instance statuses : StatusCode := {|
  is_success := in_range 200 299;
  canonical_reason _ := None;
|}.

#[local] Instance statuses_laws : StatusCodeLaws.
Proof. done. Qed.

Definition sink : HttpIntake unit :=
  mk_HttpIntake tt (mk_Url (str "https") (str "https://sink.example/") (Some (str "sink.example"))) (Some (str "token")).

Definition event : ReceivedEvent :=
  mk_ReceivedEvent (str "9") (mk_OwnerId 5) 1 [123; 125]%N
    (mk_ReceivedEnvelope [] [] [] [] None None None None None None None ∅ JNull) (mk_SubjectPosition 77 1).

Definition response : Response := mk_Response 422 [Ok (str " bad"); Ok (str " schema"); Err (str "reset")].

Lemma http_answer_decides_witness :
  (accept (fun _ => Ok (str "secret")) (fun _ _ => Ok response) sink event).2
  = Ok (IntakeRejected (str "HTTP 422: bad schema")).
Proof.
  apply (http_answer_decides (fun _ => Ok (str "secret")) (fun _ _ => Ok response) sink event
           (request sink event (Some (str "Bearer secret")))); [reflexivity|].
  exists response. split_and!; [reflexivity|right; reflexivity|vm_compute; reflexivity].
Defined.

End SampleSink.
