(* ===== verification/Serde.v ===== *)
(** * Derived deserialization

    What [#[derive(Deserialize)]] makes of a [serde_json] value for the structs
    the OIDC crate reads: members by name or an array by position, duplicate
    and unknown members, missing and mistyped fields.  Of an error only its
    category is kept; its text is a parameter. *)

From S2P Require Import Prelude Decimal Json.

Inductive SerdeError :=
| SerdeSyntax (message : rstring)
| SerdeInvalidType (field : rstring)
| SerdeInvalidLength (found : N)
| SerdeUnknownField (field : rstring)
| SerdeDuplicateField (field : rstring)
| SerdeMissingField (field : rstring).

(** The [Display] of the crate's error. *)
Class SerdeText := serde_text : SerdeError -> rstring.

(** A field of a struct, and whether a value is of its type. *)
Record Field := mk_Field {
  field_name : rstring;
  field_accepts : Json -> bool;
}.

(** [String], [Option<String>], [Option<IgnoredAny>] and [u64]. *)
Definition is_string (v : Json) : bool := is_some (Json.as_str v).
Definition is_opt_string (v : Json) : bool := match v with JNull | JString _ => true | _ => false end.
Definition is_anything (v : Json) : bool := true.

Definition as_u64 (v : Json) : option N :=
  match v with
  | JNumber literal => if forallb is_ascii_digit literal then parse_u64 literal else None
  | _ => None
  end.

(** The derived [visit_map]. *)
Fixpoint visit_map (deny_unknown_fields : bool) (fields : list Field) (seen : list rstring)
    (members : list (rstring * Json)) : result unit SerdeError :=
  match members with
  | [] => Ok tt
  | (name, value) :: rest =>
      match find (fun f => bool_decide (field_name f = name)) fields with
      | None =>
          if deny_unknown_fields then Err (SerdeUnknownField name)
          else visit_map deny_unknown_fields fields seen rest
      | Some f =>
          if slice_contains name seen then Err (SerdeDuplicateField name)
          else if negb (field_accepts f value) then Err (SerdeInvalidType name)
          else visit_map deny_unknown_fields fields (name :: seen) rest
      end
  end.

(** The members of a struct of [fields], the last [defaulted] of which may be
    missing from an array. *)
Definition struct_members (deny_unknown_fields : bool) (fields : list Field) (defaulted : nat) (v : Json) :
    result (list (rstring * Json)) SerdeError :=
  match v with
  | JObject members =>
      let? _ := visit_map deny_unknown_fields fields [] members in Ok members
  | JArray items =>
      if (length fields - defaulted <=? length items) && (length items <=? length fields) then
        let members := zip (field_name <$> fields) items in
        let? _ := visit_map deny_unknown_fields fields [] members in Ok members
      else Err (SerdeInvalidLength (N.of_nat (length items)))
  | _ => Err (SerdeInvalidType [])
  end.

Definition field (name : rstring) (members : list (rstring * Json)) : result Json SerdeError :=
  ok_or (Json.lookup name members) (SerdeMissingField name).

Definition string_member (name : rstring) (members : list (rstring * Json)) : result rstring SerdeError :=
  let? v := field name members in ok_or (Json.as_str v) (SerdeInvalidType name).

(** A missing or null member of an [Option] is [None]. *)
Definition opt_string_member (name : rstring) (members : list (rstring * Json)) : option rstring :=
  Json.lookup name members ≫= Json.as_str.

Definition u64_member (name : rstring) (members : list (rstring * Json)) : result N SerdeError :=
  let? v := field name members in ok_or (as_u64 v) (SerdeInvalidType name).

(** The items of a [Vec], each read by [read]. *)
Fixpoint collect_items {A E} (read : Json -> result A E) (items : list Json) : result (list A) E :=
  match items with
  | [] => Ok []
  | v :: items => let? a := read v in let? rest := collect_items read items in Ok (a :: rest)
  end.

Definition vec_of {A} (read : Json -> result A SerdeError) (v : Json) : result (list A) SerdeError :=
  match v with JArray items => collect_items read items | _ => Err (SerdeInvalidType []) end.

Lemma collect_items_Ok {A E} (read : Json -> result A E) items l :
  collect_items read items = Ok l <-> Forall2 (fun v a => read v = Ok a) items l.
Proof.
  revert l. induction items as [|v items IH]; intros l; cbn.
  - split; [intros [= <-]; constructor|]. by inversion 1.
  - split.
    + intros E'. destruct (read v) as [a|] eqn:Ev; [|discriminate E'].
      destruct (collect_items read items) as [rest|]; [|discriminate E']. injection E' as <-.
      constructor; [done|]. by apply IH.
    + inversion 1 as [|? a ? rest Ha Hrest]; subst. rewrite Ha. apply IH in Hrest. by rewrite Hrest.
Qed.
