(* ===== verification/OidcConfig.v ===== *)
(** * OIDC configuration

    [crates/auth-oidc/src/config.rs], [authorized_party.rs] and
    [subject_map.rs]: which endpoints keys may come from, which clients of an
    issuer may call, and whom a subject is.  The URI parser, the JSON parser
    and the [uuid] crate's parser are parameters. *)

From S2P Require Import Prelude Ids Text Json Publication Net Serde.

(** ** Endpoints *)

Inductive OidcConfigError :=
| OidcInvalidUrl (field parse_error : rstring)
| OidcBlankField (field : rstring)
| OidcInsecureUrl (field value : rstring)
| OidcInvalidTimeout (field : rstring) (max_seconds : N).

Record OidcAuthConfig := mk_OidcAuthConfig {
  cfg_issuer : rstring;
  cfg_jwks_uri : option rstring;
  cfg_audience : rstring;
  cfg_allowed_subjects : option (gset rstring);
  cfg_leeway_secs : N;
}.

Section config.
Context (parse_uri : rstring -> result Uri rstring).

Definition endpoint_error (field raw : rstring) (error : EndpointUrlError) : OidcConfigError :=
  match error with
  | InvalidUrl parse_error => OidcInvalidUrl field parse_error
  | InsecureTransport => OidcInsecureUrl field raw
  end.

Definition validate_https_url (field raw : rstring) : result unit OidcConfigError :=
  map_err (endpoint_error field raw) (validate_endpoint_url parse_uri raw AllowLoopbackHttp).

Definition validate_jwks_url (field raw issuer : rstring) : result unit OidcConfigError :=
  if is_loopback_endpoint parse_uri issuer then validate_https_url field raw
  else map_err (endpoint_error field raw) (validate_endpoint_url parse_uri raw HttpsOnly).

Definition validate_issuer_url (raw : rstring) : result unit OidcConfigError :=
  let? _ := validate_https_url (str "issuer") raw in
  if contains (chr "?") raw || contains (chr "#") raw
  then Err (OidcInvalidUrl (str "issuer") (str "issuer must not contain query or fragment components"))
  else Ok tt.

Definition validate (self : OidcAuthConfig) : result unit OidcConfigError :=
  let? _ := validate_issuer_url (cfg_issuer self) in
  if is_empty (trim (cfg_audience self)) then Err (OidcBlankField (str "audience"))
  else match cfg_jwks_uri self with
       | Some jwks_uri => validate_jwks_url (str "jwks_uri") jwks_uri (cfg_issuer self)
       | None => Ok tt
       end.

End config.

(** ** Authorized parties *)

Inductive AuthorizedPartyPolicyError := PolicyEmpty | PolicyBlank.

Record AuthorizedPartyPolicy := mk_AuthorizedPartyPolicy { party_allowed : gset rstring }.

Inductive OidcRejection :=
| Malformed (message : rstring)
| MissingKeyId
| UnknownKey (kid reason : rstring)
| DisallowedAlgorithm
| BadSignature
| TokenExpired
| NotYetValid
| WrongIssuer (expected : rstring)
| WrongAudience (expected : rstring)
| MissingClaim (claim : rstring)
| InvalidClaim (claim : rstring)
| ExpiryOutOfRange
| CustomClaims (message : rstring)
| WrongTokenType
| MissingAuthorizedParty
| UnauthorizedParty (azp : rstring).

Module AuthorizedPartyPolicy.

Definition new (allowed : list rstring) : result AuthorizedPartyPolicy AuthorizedPartyPolicyError :=
  let set : gset rstring := list_to_set allowed in
  if bool_decide (set = ∅) then Err PolicyEmpty
  else if existsb (fun client => is_empty (trim client)) (elements set) then Err PolicyBlank
  else Ok (mk_AuthorizedPartyPolicy set).

Definition distinct_audiences (verified : Json) : result nat OidcRejection :=
  match Json.get (str "aud") verified with
  | Some (JString _) => Ok 1
  | Some (JArray values) =>
      let? auds := collect_items (fun v => ok_or (Json.as_str v) (InvalidClaim (str "aud"))) values in
      Ok (size (list_to_set auds : gset rstring))
  | _ => Err (InvalidClaim (str "aud"))
  end.

Definition check (self : AuthorizedPartyPolicy) (verified : Json) : result unit OidcRejection :=
  match Json.get (str "azp") verified with
  | None =>
      let? distinct := distinct_audiences verified in
      if 1 <? distinct then Err MissingAuthorizedParty else Ok tt
  | Some (JString azp) =>
      if bool_decide (azp ∈ party_allowed self) then Ok tt else Err (UnauthorizedParty azp)
  | Some _ => Err (InvalidClaim (str "azp"))
  end.

End AuthorizedPartyPolicy.

(** ** Subjects *)

Inductive OidcSubjectMapError :=
| EmptyField (index : nat) (field : rstring)
| DuplicateEntry (issuer subject : rstring)
| InvalidUserId (index : nat) (value : rstring)
| InvalidJson (message : rstring)
| AmbiguousIssuerForShorthand (count : nat)
| MalformedShorthandEntry (index : nat) (raw : rstring)
| InvalidTrustedModelId (index : nat) (value reason : rstring).

Record RawEntry := mk_RawEntry {
  raw_iss : rstring;
  raw_sub : rstring;
  raw_user_id : rstring;
  raw_trusted_model_id : option rstring;
}.

Record SubjectBinding := mk_SubjectBinding {
  bound_user_id : UserId;
  bound_trusted_model_id : option rstring;
}.

Record OidcSubjectMap := mk_OidcSubjectMap { subject_entries : gmap (rstring * rstring) SubjectBinding }.

Definition raw_entry_fields : list Field :=
  [mk_Field (str "iss") is_string; mk_Field (str "sub") is_string; mk_Field (str "user_id") is_string;
   mk_Field (str "trusted_model_id") is_opt_string].

(** [deny_unknown_fields]; the last field has a default. *)
Definition raw_entry (v : Json) : result RawEntry SerdeError :=
  let? members := struct_members true raw_entry_fields 1 v in
  let? iss := string_member (str "iss") members in
  let? sub := string_member (str "sub") members in
  let? user_id := string_member (str "user_id") members in
  Ok (mk_RawEntry iss sub user_id (opt_string_member (str "trusted_model_id") members)).

Module OidcSubjectMap.

Definition new : OidcSubjectMap := mk_OidcSubjectMap ∅.

Definition resolve_binding (self : OidcSubjectMap) (issuer subject : rstring) : option SubjectBinding :=
  subject_entries self !! (issuer, subject).

Definition resolve (self : OidcSubjectMap) (issuer subject : rstring) : option UserId :=
  bound_user_id <$> resolve_binding self issuer subject.

Definition parse_user_id `{UuidText} (index : nat) (raw : rstring) : result UserId OidcSubjectMapError :=
  let trimmed := trim raw in
  if is_empty trimmed then Err (EmptyField index (str "user_id"))
  else ok_or (mk_UserId <$> try_parse trimmed) (InvalidUserId index raw).

Definition bounded_model_id (index : nat) (raw : rstring) : result rstring OidcSubjectMapError :=
  let trimmed := trim raw in
  if is_empty trimmed then Err (InvalidTrustedModelId index raw (str "must not be blank"))
  else if (MAX_OPERATOR_LABEL_CHARS <? chars_count trimmed)%N
  then Err (InvalidTrustedModelId index raw (str "must be at most 120 characters"))
  else Ok trimmed.

Definition transpose {A E} (o : option (result A E)) : result (option A) E :=
  match o with None => Ok None | Some (Ok a) => Ok (Some a) | Some (Err e) => Err e end.

Definition insert_at (index : nat) (issuer subject : rstring) (binding : SubjectBinding) (self : OidcSubjectMap) :
    result OidcSubjectMap OidcSubjectMapError :=
  if is_empty issuer then Err (EmptyField index (str "iss"))
  else if is_empty subject then Err (EmptyField index (str "sub"))
  else
    let? model_id := transpose (bounded_model_id index <$> bound_trusted_model_id binding) in
    let binding := mk_SubjectBinding (bound_user_id binding) model_id in
    if is_some (subject_entries self !! (issuer, subject)) then Err (DuplicateEntry issuer subject)
    else Ok (mk_OidcSubjectMap (<[(issuer, subject) := binding]> (subject_entries self))).

Definition insert_binding (issuer subject : rstring) (binding : SubjectBinding) (self : OidcSubjectMap) :
    result OidcSubjectMap OidcSubjectMapError := insert_at 0 issuer subject binding self.

Definition insert (issuer subject : rstring) (user_id : UserId) (self : OidcSubjectMap) :
    result OidcSubjectMap OidcSubjectMapError :=
  insert_binding issuer subject (mk_SubjectBinding user_id None) self.

(** [for (index, entry) in entries.enumerate()]. *)
Fixpoint insert_entries {A} (read : nat -> A -> result (rstring * rstring * SubjectBinding) OidcSubjectMapError)
    (index : nat) (entries : list A) (map : OidcSubjectMap) : result OidcSubjectMap OidcSubjectMapError :=
  match entries with
  | [] => Ok map
  | entry :: entries =>
      let? (issuer, subject, binding) := read index entry in
      let? map := insert_at index issuer subject binding map in
      insert_entries read (S index) entries map
  end.

(** An entry as [from_json] inserts it. *)
Definition read_raw_entry `{UuidText} (index : nat) (entry : RawEntry) :
    result (rstring * rstring * SubjectBinding) OidcSubjectMapError :=
  let? user_id := parse_user_id index (raw_user_id entry) in
  Ok (raw_iss entry, raw_sub entry, mk_SubjectBinding user_id (raw_trusted_model_id entry)).

Definition from_json `{UuidText, SerdeText} (from_str : rstring -> result Json rstring) (raw : rstring) :
    result OidcSubjectMap OidcSubjectMapError :=
  let? value := map_err InvalidJson (from_str raw) in
  let? raw_entries := map_err (fun e => InvalidJson (serde_text e)) (vec_of raw_entry value) in
  insert_entries read_raw_entry 0 raw_entries new.

Definition shorthand_entries (raw : rstring) : list rstring :=
  filter (fun entry => is_empty entry = false) (trim <$> split (chr ",") raw).

Definition from_legacy_shorthand `{UuidText} (raw : rstring) (accepted_issuers : list rstring) :
    result OidcSubjectMap OidcSubjectMapError :=
  match accepted_issuers with
  | [issuer] =>
      insert_entries (fun index raw_entry =>
          let? (subject, user_id_raw) := ok_or (split_once (chr ":") raw_entry) (MalformedShorthandEntry index raw_entry) in
          let? user_id := parse_user_id index user_id_raw in
          Ok (issuer, trim subject, mk_SubjectBinding user_id None)) 0 (shorthand_entries raw) new
  | _ => Err (AmbiguousIssuerForShorthand (length accepted_issuers))
  end.

End OidcSubjectMap.

(** ** Where keys may come from *)

Section endpoints.
Context (parse_uri : rstring -> result Uri rstring).

(** A URL with this scheme, at such a host. *)
Definition url_is (scheme : rstring) (at_host : rstring -> Prop) (raw : rstring) : Prop :=
  exists uri s host, parse_uri raw = Ok uri /\ scheme_str uri = Some s /\ uri_host uri = Some host /\
    eq_ignore_ascii_case s scheme = true /\ at_host host.

Definition is_https : rstring -> Prop := url_is (str "https") (fun _ => True).
Definition is_local_http : rstring -> Prop := url_is (str "http") (fun host => is_loopback_host host = true).

Lemma no_plaintext_hosts host : PlaintextHosts.contains host PlaintextHosts.none = false.
Proof. done. Qed.

Lemma https_not_http s : eq_ignore_ascii_case s (str "https") = true -> eq_ignore_ascii_case s (str "http") = false.
Proof.
  unfold eq_ignore_ascii_case. intros ->%bool_decide_eq_true. by vm_compute.
Qed.

Lemma validate_endpoint_url_Ok raw policy :
  validate_endpoint_url parse_uri raw policy = Ok tt <->
  is_https raw \/ (policy = AllowLoopbackHttp /\ is_local_http raw).
Proof.
  unfold validate_endpoint_url, validate_endpoint_url_for_hosts, is_https, is_local_http, url_is.
  destruct (parse_uri raw) as [[[s|] [host|]]|] eqn:E; cbn [map_err ok_or scheme_str uri_host];
    try (split; [done|]; intros [(? & ? & ? & [= <-] & ? & ? & _)|(_ & ? & ? & ? & [= <-] & ? & ? & _)]; done).
  rewrite no_plaintext_hosts, orb_false_r.
  destruct (eq_ignore_ascii_case s (str "https")) eqn:Es.
  { split; [|done]. intros _. left. by eexists _, s, host. }
  destruct (_ && _) eqn:Eh.
  - apply andb_prop in Eh as [[? ?%bool_decide_eq_true]%andb_prop ?]. split; [|done]. intros _. right.
    split; [done|]. by eexists _, s, host.
  - split; [done|]. intros [(? & ? & ? & [= <-] & [= <-] & [= <-] & ? & _)|(-> & ? & ? & ? & [= <-] & [= <-] & [= <-] & H1 & H2)];
      [congruence|]. by rewrite H1, H2, bool_decide_true in Eh.
Qed.

Lemma map_err_unit {E F} (f : E -> F) (r : result unit E) : map_err f r = Ok tt <-> r = Ok tt.
Proof. by destruct r as [[]|]. Qed.

Lemma validate_jwks_url_Ok field raw issuer :
  validate_jwks_url parse_uri field raw issuer = Ok tt <->
  is_https raw \/ (is_local_http raw /\ is_loopback_endpoint parse_uri issuer = true).
Proof.
  unfold validate_jwks_url, validate_https_url. destruct (is_loopback_endpoint parse_uri issuer);
    rewrite map_err_unit, validate_endpoint_url_Ok; split;
    [intros [?|[_ ?]]; auto|intros [?|[? _]]; auto|intros [?|[? _]]; [auto|done]|intros [?|[_ ?]]; [auto|done]].
Qed.

Lemma validate_issuer_url_Ok raw :
  validate_issuer_url parse_uri raw = Ok tt <->
  (is_https raw \/ is_local_http raw) /\ contains (chr "?") raw = false /\ contains (chr "#") raw = false.
Proof.
  unfold validate_issuer_url, validate_https_url.
  pose proof (validate_endpoint_url_Ok raw AllowLoopbackHttp) as H.
  destruct (validate_endpoint_url parse_uri raw AllowLoopbackHttp) as [[]|e]; cbn [map_err].
  - assert (is_https raw \/ is_local_http raw) as Hh by (destruct H as [H _]; destruct (H eq_refl) as [?|[_ ?]]; auto).
    destruct (contains (chr "?") raw), (contains (chr "#") raw); cbn [orb];
      (split; [try done; intros _; by repeat split|try done; by intros (_ & ? & ?)]).
  - split; [done|]. intros [Hh _]. destruct H as [_ H]. discriminate H. destruct Hh; auto.
Qed.

(** A configuration is accepted exactly when its issuer is https, or http on
    this machine, without query or fragment, its audience is not blank, and its
    key endpoint is https, or http on this machine for an issuer on it. *)
Lemma config_validate_exact (self : OidcAuthConfig) :
  validate parse_uri self = Ok tt <->
  (is_https (cfg_issuer self) \/ is_local_http (cfg_issuer self)) /\
  contains (chr "?") (cfg_issuer self) = false /\ contains (chr "#") (cfg_issuer self) = false /\
  trim (cfg_audience self) <> [] /\
  (forall uri, cfg_jwks_uri self = Some uri ->
     is_https uri \/ (is_local_http uri /\ is_loopback_endpoint parse_uri (cfg_issuer self) = true)).
Proof.
  unfold validate. pose proof (validate_issuer_url_Ok (cfg_issuer self)) as Hi.
  destruct (validate_issuer_url _ _) as [[]|e]; [|split; [done|]; intros (? & ? & ? & _); by apply Hi].
  destruct Hi as [Hi _]. specialize (Hi eq_refl) as (H1 & H2 & H3).
  destruct (trim (cfg_audience self)) as [|c a] eqn:Ea; cbn [is_empty]; [split; [done|]; by intros (_ & _ & _ & ? & _)|].
  destruct (cfg_jwks_uri self) as [uri|]; [rewrite validate_jwks_url_Ok|]; (split; [intros Hu|]).
  - do 4 (split; [done|]). by intros ? [= <-].
  - intros (_ & _ & _ & _ & Hu). by apply Hu.
  - by do 4 (split; [done|]).
  - done.
Qed.
End endpoints.

(** ** What a subject map holds *)

Module SubjectMapFacts.
Import OidcSubjectMap.

(** A binding as stored: the model id trimmed. *)
Definition stored (binding : SubjectBinding) : SubjectBinding :=
  mk_SubjectBinding (bound_user_id binding) (trim <$> bound_trusted_model_id binding).

(** An entry a map takes. *)
Definition entry_ok (e : rstring * rstring * SubjectBinding) : Prop :=
  e.1.1 <> [] /\ e.1.2 <> [] /\
  forall raw, bound_trusted_model_id e.2 = Some raw ->
    trim raw <> [] /\ (chars_count (trim raw) <= MAX_OPERATOR_LABEL_CHARS)%N.

Lemma bounded_model_id_Ok index raw id :
  bounded_model_id index raw = Ok id <->
  id = trim raw /\ trim raw <> [] /\ (chars_count (trim raw) <= MAX_OPERATOR_LABEL_CHARS)%N.
Proof.
  unfold bounded_model_id. destruct (trim raw) as [|c t] eqn:E; cbn [is_empty]; [naive_solver|].
  destruct (N.ltb_spec MAX_OPERATOR_LABEL_CHARS (chars_count (c :: t))); split; try done.
  - intros (_ & _ & ?). lia.
  - by intros [= <-].
  - by intros (-> & _).
Qed.

Lemma insert_at_Ok index issuer subject binding self self' :
  insert_at index issuer subject binding self = Ok self' <->
  entry_ok (issuer, subject, binding) /\ subject_entries self !! (issuer, subject) = None /\
  self' = mk_OidcSubjectMap (<[(issuer, subject) := stored binding]> (subject_entries self)).
Proof.
  unfold insert_at, entry_ok, stored. cbn [fst snd].
  destruct issuer as [|i issuer]; cbn [is_empty]; [naive_solver|].
  destruct subject as [|j subject]; cbn [is_empty]; [naive_solver|].
  destruct (bound_trusted_model_id binding) as [raw|]; cbn [fmap option_fmap option_map transpose].
  - destruct (bounded_model_id index raw) as [id|e] eqn:Eb.
    + apply bounded_model_id_Ok in Eb as (-> & ? & ?).
      destruct (subject_entries self !! _); cbn; split; naive_solver.
    + split; [done|]. intros ((_ & _ & Hm) & _). destruct (Hm raw eq_refl) as [Hm1 Hm2].
      rewrite (proj2 (bounded_model_id_Ok index raw (trim raw))) in Eb; done.
  - destruct (subject_entries self !! _); cbn; split; naive_solver.
Qed.

(** The pairs a map gets from entries. *)
Definition stored_pairs (triples : list (rstring * rstring * SubjectBinding)) : list (rstring * rstring * SubjectBinding) :=
  (fun e => (e.1, stored e.2)) <$> triples.

Lemma stored_pairs_keys triples : (stored_pairs triples).*1 = triples.*1.
Proof. unfold stored_pairs. rewrite <-list_fmap_compose. by apply list_fmap_ext. Qed.

Lemma stored_pairs_lookup triples issuer subject b :
  NoDup triples.*1 ->
  (list_to_map (stored_pairs triples) : gmap (rstring * rstring) SubjectBinding) !! (issuer, subject) = Some b <->
  exists e, e ∈ triples /\ e.1 = (issuer, subject) /\ b = stored e.2.
Proof.
  intros Hnd. rewrite <-elem_of_list_to_map by (by rewrite stored_pairs_keys). unfold stored_pairs.
  rewrite list_elem_of_fmap. split.
  - intros (e & [= -> ->] & He). by exists e.
  - intros (e & He & <- & ->). by exists e.
Qed.

(** Entries are taken one after the other: all are read and acceptable, and no
    two are about one subject of one issuer. *)
Lemma insert_entries_exact {A} (read : nat -> A -> result (rstring * rstring * SubjectBinding) OidcSubjectMapError)
    index entries map map' :
  insert_entries read index entries map = Ok map' <->
  exists triples,
    Forall2 (fun ia e => read ia.1 ia.2 = Ok e) (imap (fun i a => (index + i, a)) entries) triples /\
    Forall entry_ok triples /\ NoDup triples.*1 /\ Forall (fun e => subject_entries map !! e.1 = None) triples /\
    map' = mk_OidcSubjectMap (list_to_map (stored_pairs triples) ∪ subject_entries map).
Proof.
  assert (forall (e : list A) j, imap (fun i a => (j + S i, a)) e = imap (fun i a => (S j + i, a)) e) as Hshift.
  { intros e j. apply imap_ext. intros i x _. cbn. f_equal. lia. }
  assert (forall k v (l : list (rstring * rstring * SubjectBinding)) (m : gmap (rstring * rstring) SubjectBinding), k ∉ l.*1 ->
    list_to_map l ∪ <[k := v]> m = list_to_map ((k, v) :: l) ∪ m) as Hcons.
  { intros k v l m Hk. cbn. rewrite <-insert_union_l, insert_union_r; [done|]. by apply not_elem_of_list_to_map_1. }
  revert index map. induction entries as [|a entries IH]; intros index map; cbn [insert_entries imap].
  - split.
    + intros [= <-]. exists []. split_and!; try constructor. cbn. rewrite (left_id_L ∅ (∪)). by destruct map.
    + intros (triples & Hr & _ & _ & _ & ->). inversion Hr; subst. cbn. rewrite (left_id_L ∅ (∪)). by destruct map.
  - rewrite Nat.add_0_r. change (imap _ entries) with (imap (fun i a => (index + S i, a)) entries). rewrite Hshift. split.
    + intros E. destruct (read index a) as [[[issuer subject] binding]|] eqn:Er; [|discriminate E].
      destruct (insert_at index issuer subject binding map) as [map1|] eqn:Ei; [|discriminate E].
      apply insert_at_Ok in Ei as (Hok & Hnone & ->). apply IH in E as (triples & Hread & Hoks & Hnd & Hfresh & ->).
      cbn [subject_entries] in *. assert ((issuer, subject) ∉ triples.*1) as Hnew.
      { intros (e & He & Hin)%list_elem_of_fmap. rewrite list.Forall_forall in Hfresh. specialize (Hfresh e Hin).
        by rewrite <-He, lookup_insert_eq in Hfresh. }
      exists ((issuer, subject, binding) :: triples). split_and!; try by constructor.
      * constructor; [done|]. eapply Forall_impl; [|exact Hfresh]. by intros e [? ?]%lookup_insert_None.
      * f_equal. apply Hcons. by rewrite stored_pairs_keys.
    + intros (triples & Hread & Hoks & Hnd & Hfresh & ->). inversion Hread as [|? [[issuer subject] binding] ? triples' Hr Hread']; subst.
      cbn [fst snd] in Hr. rewrite Hr. inversion Hoks; inversion Hfresh; subst. cbn in Hnd. apply list.NoDup_cons in Hnd as [Hnew Hnd].
      rewrite (proj2 (insert_at_Ok index issuer subject binding map (mk_OidcSubjectMap (<[(issuer, subject) := stored binding]> (subject_entries map))))) by done. apply IH. exists triples'.
      split_and!; try done.
      * cbn [subject_entries]. rewrite list.Forall_forall in *. intros e He. rewrite lookup_insert_ne; [auto|].
        intros Hk. apply Hnew. cbn. rewrite Hk. by apply list_elem_of_fmap_2.
      * f_equal. cbn [subject_entries]. symmetry. apply Hcons. by rewrite stored_pairs_keys.
Qed.

Section readers.
Context `{UuidText}.

Lemma parse_user_id_Ok index raw id :
  parse_user_id index raw = Ok id <-> trim raw <> [] /\ try_parse (trim raw) = Some (UserId_0 id).
Proof.
  unfold parse_user_id. destruct (trim raw) as [|c t]; cbn [is_empty]; [naive_solver|].
  destruct (try_parse _) as [u|]; cbn; split.
  - by intros [= <-].
  - intros (_ & [= ->]). by destruct id.
  - done.
  - naive_solver.
Qed.

(** What an entry of the document says of a subject. *)
Definition entry_names (entry : RawEntry) (e : rstring * rstring * SubjectBinding) : Prop :=
  e.1 = (raw_iss entry, raw_sub entry) /\ trim (raw_user_id entry) <> [] /\
  try_parse (trim (raw_user_id entry)) = Some (UserId_0 (bound_user_id e.2)) /\
  bound_trusted_model_id e.2 = raw_trusted_model_id entry.

Lemma Forall2_imap_l {A B C} (f : nat -> A -> B) (R : B -> C -> Prop) (l : list A) (k : list C) :
  Forall2 R (imap f l) k <-> length l = length k /\ forall i a c, l !! i = Some a -> k !! i = Some c -> R (f i a) c.
Proof.
  rewrite Forall2_lookup. split.
  - intros Hl. assert (length (imap f l) = length k) as Hlen by (by apply Forall2_length with R, Forall2_lookup).
    rewrite length_imap in Hlen. split; [done|]. intros i a c Ha Hc. specialize (Hl i).
    rewrite list_lookup_imap, Ha, Hc in Hl. by inversion Hl.
  - intros [Hlen Hl] i. rewrite list_lookup_imap. destruct (l !! i) as [a|] eqn:Ha.
    + destruct (lookup_lt_is_Some_2 k i) as [c Hc]; [rewrite <-Hlen; by apply lookup_lt_is_Some_1|].
      rewrite Hc. constructor. eauto.
    + rewrite (proj2 (lookup_ge_None k i)) by (rewrite <-Hlen; by apply lookup_ge_None). constructor.
Qed.

Lemma Forall2_imap_indep {A C} (f : nat -> A -> result C OidcSubjectMapError) (R : A -> C -> Prop) (l : list A) (k : list C) :
  (forall i a c, f i a = Ok c <-> R a c) ->
  Forall2 (fun ia e => f ia.1 ia.2 = Ok e) (imap (fun i a => (0 + i, a)) l) k <-> Forall2 R l k.
Proof.
  intros Hf. rewrite Forall2_imap_l, Forall2_same_length_lookup. setoid_rewrite Hf. cbn. naive_solver.
Qed.

Lemma read_raw_entry_Ok i entry e : read_raw_entry i entry = Ok e <-> entry_names entry e.
Proof.
  destruct e as [[iss sub] b]. unfold read_raw_entry, entry_names. cbn [fst snd].
  pose proof (parse_user_id_Ok i (raw_user_id entry)) as Hp. destruct (parse_user_id i _) as [id|]; split.
  - intros [= <- <- <-]. cbn. destruct (Hp id) as [[? ?] _]; done.
  - intros ([= -> ->] & Ht & Hid & <-). destruct (Hp (bound_user_id b)) as [_ Hb]. specialize (Hb (conj Ht Hid)).
    injection Hb as ->. by destruct b.
  - done.
  - intros (_ & ? & Hid & _). destruct (Hp (bound_user_id b)) as [_ Hb]. discriminate Hb. done.
Qed.

(** A document becomes a subject map exactly when it is an array of
    entries, each with a non-empty issuer and subject, a user id that parses
    once trimmed, and a model id, if any, of 1 to 120 characters once trimmed,
    no two for one subject of one issuer; the map then answers for a subject
    of an issuer exactly what its entry says. *)
Theorem subject_map_from_json_exact `{SerdeText} (from_str : rstring -> result Json rstring) (raw : rstring)
    (map : OidcSubjectMap) :
  from_json from_str raw = Ok map <->
  exists value entries bindings,
    from_str raw = Ok value /\ vec_of raw_entry value = Ok entries /\
    Forall2 entry_names entries bindings /\ Forall entry_ok bindings /\ NoDup bindings.*1 /\
    (forall issuer subject b, resolve_binding map issuer subject = Some b <->
       exists e, e ∈ bindings /\ e.1 = (issuer, subject) /\ b = stored e.2).
Proof.
  unfold from_json. split.
  - intros E. destruct (from_str raw) as [value|]; [cbn [map_err] in E|discriminate E].
    destruct (vec_of raw_entry value) as [entries|] eqn:Ev; [cbn [map_err] in E|discriminate E].
    apply insert_entries_exact in E as (l & Hr & Hok & Hnd & _ & ->). exists value, entries, l.
    split_and!; try done; [by apply (Forall2_imap_indep read_raw_entry); [apply read_raw_entry_Ok|]|].
    intros issuer subject b. unfold resolve_binding. cbn. rewrite (right_id_L ∅ (∪)). by apply stored_pairs_lookup.
  - intros (value & entries & l & -> & Hv & Hr & Hok & Hnd & Hmap). cbn [map_err]. rewrite Hv. cbn [map_err].
    apply insert_entries_exact. exists l.
    split_and!; try done; [by apply (Forall2_imap_indep read_raw_entry _ _ _ read_raw_entry_Ok)|by apply Forall_true|].
    destruct map as [m]. f_equal. cbn. rewrite (right_id_L ∅ (∪)). apply map_eq. intros [issuer subject].
    apply option_eq. intros b. rewrite stored_pairs_lookup by done. apply Hmap.
Qed.
End readers.

End SubjectMapFacts.
