(* ===== verification/MemoryUuid.v ===== *)
(** * Memory UUIDs

    [crates/core/src/memory_uuid.rs]: the layout of a memory's UUID and the
    generator every mint of the process shares.  The mutex is held for a whole
    mint, so the mints of a process are one sequence; each takes the clock it
    read and the bytes of the random UUID it drew. *)

From S2P Require Import Prelude Ids Bytes.

#[local] Open Scope N_scope.

Definition MAX_MILLIS : N := 2 ^ 48 - 1.
Definition MAX_COUNTER : N := 2 ^ 12 - 1.

Definition u16_be (hi lo : option N) : N := from_be_bytes [default 0 hi; default 0 lo].

Definition timestamp_millis (id : Uuid) : N := from_be_bytes (take 6 (uuid_as_bytes id)).

Definition memory_store_number (id : Uuid) : N :=
  let bytes := uuid_as_bytes id in u16_be (bytes !! 10%nat) (bytes !! 11%nat).

(** Nanoseconds since the epoch. *)
Definition created_at (id : Uuid) : N := timestamp_millis id * 1000000.

Definition uuid_counter (id : Uuid) : N :=
  let bytes := uuid_as_bytes id in N.land (u16_be (bytes !! 6%nat) (bytes !! 7%nat)) MAX_COUNTER.

(** [Ord] of [(u64, u16)] and [Option::max]: [None] is least. *)
Definition pos_leb (a b : N * N) : bool := (a.1 <? b.1) || (a.1 =? b.1) && (a.2 <=? b.2).
Definition opt_max (a b : option (N * N)) : option (N * N) :=
  match a, b with
  | None, _ => b
  | _, None => a
  | Some a, Some b => Some (if pos_leb a b then b else a)
  end.

Record Generator := mk_Generator { g_previous : option (N * N) }.

Module Generator.

Definition empty : Generator := mk_Generator None.

(** The position after [previous]: the clock's, or the next logical one. *)
Definition advance (previous : option (N * N)) (clock_millis seed : N) : N * N :=
  match previous with
  | Some (millis, counter) =>
      if clock_millis <=? millis
      then if counter =? MAX_COUNTER then (millis + 1, seed) else (millis, counter + 1)
      else (clock_millis, seed)
  | None => (clock_millis, seed)
  end.

Definition mint (self : Generator) (clock_millis : N) (random : list N) (store_number : N)
    (floor : option Uuid) : option Uuid * Generator :=
  let floor := (fun floor => (timestamp_millis floor, uuid_counter floor)) <$> floor in
  let previous := opt_max (g_previous self) floor in
  let seed := N.land (u16_be (random !! 6%nat) (random !! 7%nat)) MAX_COUNTER in
  let '(millis, counter) := advance previous clock_millis seed in
  if MAX_MILLIS <? millis then (None, self)
  else
    let self := mk_Generator (Some (millis, counter)) in
    let random := copy_from_slice 0 (drop 2 (to_be_bytes 8 millis)) random in
    let random := copy_from_slice 6 (to_be_bytes 2 (N.lor 32768 counter)) random in
    let random := copy_from_slice 8 [N.lor (N.land (default 0 (random !! 8%nat)) 63) 128] random in
    let random := copy_from_slice 10 (to_be_bytes 2 store_number) random in
    (Some (uuid_from_bytes random), self).

End Generator.

(** The number of milliseconds a clock reading is, as the mint takes it;
    [None] where it panics, on a clock before the epoch or past 64 bits. *)
Definition clock_millis (now : SystemTime) : option N :=
  if (now <? 0)%Z then None
  else let millis := Z.to_N (now / 1000000) in if millis <? 2 ^ 64 then Some millis else None.

Definition mint_memory_uuid (g : Generator) (now : SystemTime) (random : list N) (store_number : N)
    (floor : option Uuid) : option (option Uuid * Generator) :=
  let* millis := clock_millis now in Some (Generator.mint g millis random store_number floor).

(** The outer [None] is a panic. *)
Definition new_memory_uuid (g : Generator) (now : SystemTime) (random : list N) (store_number : N) :
    option (Uuid * Generator) :=
  let* (id, g) := mint_memory_uuid g now random store_number None in
  let* id := id in Some (id, g).

Definition new_memory_uuid_after (g : Generator) (now : SystemTime) (random : list N) (store_number : N)
    (floor : Uuid) : option (option Uuid * Generator) :=
  mint_memory_uuid g now random store_number (Some floor).

(** ** Sequences of mints *)

Record Call := mk_Call {
  call_clock : N;
  call_random : list N;
  call_store : N;
  call_floor : option Uuid;
}.

Definition mint_call (g : Generator) (c : Call) : option Uuid * Generator :=
  Generator.mint g (call_clock c) (call_random c) (call_store c) (call_floor c).

Fixpoint mint_all (g : Generator) (calls : list Call) : list (option Uuid) :=
  match calls with
  | [] => []
  | c :: calls => let '(id, g) := mint_call g c in id :: mint_all g calls
  end.

(** The version of a UUID, and its variant. *)
Definition uuid_version (id : Uuid) : N := default 0 (uuid_as_bytes id !! 6%nat) / 16.
Definition uuid_variant (id : Uuid) : N := default 0 (uuid_as_bytes id !! 8%nat) / 64.

(** What a call is given: sixteen random bytes, a 16-bit store number, and a
    floor that is a UUID of the version minted here, or of an earlier one. *)
Definition call_ok (c : Call) : Prop :=
  length (call_random c) = 16%nat /\ Forall byte_ok (call_random c) /\ call_store c < 2 ^ 16 /\
  (forall floor, call_floor c = Some floor -> floor < 2 ^ 128 /\ uuid_version floor <= 8).

(** What a minted UUID carries. *)
Definition carries (c : Call) (id : Uuid) : Prop :=
  uuid_version id = 8 /\ uuid_variant id = 2 /\ memory_store_number id = call_store c /\
  call_clock c <= timestamp_millis id /\
  (forall floor, call_floor c = Some floor -> floor < id).

(** The last position of the layout. *)
Definition last_position (id : Uuid) : Prop :=
  timestamp_millis id = MAX_MILLIS /\ uuid_counter id = MAX_COUNTER.

(** A mint has no position left: the clock is past the range, or its floor or a
    UUID minted before holds the last one. *)
Definition exhausted (c : Call) (before : list Uuid) : Prop :=
  MAX_MILLIS < call_clock c \/
  (exists id, (call_floor c = Some id \/ id ∈ before) /\ last_position id).

(** ** The bytes of a mint *)

Lemma drop_to_be_bytes k w n : drop k (to_be_bytes (k + w) n) = to_be_bytes w n.
Proof.
  revert n. induction w as [|w IH]; intros n.
  - rewrite Nat.add_0_r. apply drop_ge. by rewrite to_be_bytes_length.
  - rewrite Nat.add_succ_r. cbn [to_be_bytes]. rewrite drop_app_le, IH; [done|].
    rewrite to_be_bytes_length. lia.
Qed.

Lemma lor_low a b k : b < 2 ^ k -> N.lor (a * 2 ^ k) b = a * 2 ^ k + b.
Proof.
  intros Hb. rewrite <-N.shiftl_mul_pow2, <-N.lxor_lor, N.add_nocarry_lxor; [done| |];
    apply N.bits_inj; intros n; rewrite N.land_spec, N.bits_0;
    (destruct (N.lt_ge_cases n k) as [Hn|Hn]; [by rewrite N.shiftl_spec_low|]);
    rewrite <-(N.mod_small b (2 ^ k)) by done; by rewrite N.mod_pow2_bits_high, andb_false_r.
Qed.

Lemma land_counter x : N.land x MAX_COUNTER = x mod 4096.
Proof. change MAX_COUNTER with (N.ones 12). by rewrite N.land_ones. Qed.

(** The sixteen bytes of the UUID minted at a position. *)
Definition layout (millis counter store : N) (tail : list N) : list N :=
  to_be_bytes 6 millis ++ to_be_bytes 2 (32768 + counter) ++ take 2 tail ++ to_be_bytes 2 store ++ drop 2 tail.

Lemma layout_bytes millis counter store (random : list N) :
  length random = 16%nat -> counter < 4096 -> Forall byte_ok random ->
  exists tail, length tail = 6%nat /\ Forall byte_ok tail /\ (exists v, tail !! 0%nat = Some (128 + v) /\ v < 64) /\
  let random := copy_from_slice 0 (drop 2 (to_be_bytes 8 millis)) random in
  let random := copy_from_slice 6 (to_be_bytes 2 (N.lor 32768 counter)) random in
  let random := copy_from_slice 8 [N.lor (N.land (default 0 (random !! 8%nat)) 63) 128] random in
  copy_from_slice 10 (to_be_bytes 2 store) random = layout millis counter store tail.
Proof.
  intros Hlen Hc Hok. do 17 (destruct random as [|? random]; try discriminate Hlen). clear Hlen.
  assert (drop 2 (to_be_bytes 8 millis) = to_be_bytes 6 millis) as -> by exact (drop_to_be_bytes 2 6 millis).
  change 32768 with (1 * 2 ^ 15).
  rewrite (lor_low 1 counter 15) by (change (2 ^ 15) with 32768; lia).
  set (ms := to_be_bytes 6 millis). set (cs := to_be_bytes 2 (1 * 2 ^ 15 + counter)). set (ss := to_be_bytes 2 store).
  assert (length ms = 6%nat) as Hms by apply to_be_bytes_length.
  assert (length cs = 2%nat) as Hcs by apply to_be_bytes_length.
  assert (length ss = 2%nat) as Hss by apply to_be_bytes_length.
  unfold layout. fold ms. change 32768 with (1 * 2 ^ 15). fold cs ss.
  clearbody ms cs ss. do 7 (destruct ms as [|? ms]; try discriminate Hms).
  do 3 (destruct cs as [|? cs]; try discriminate Hcs). do 3 (destruct ss as [|? ss]; try discriminate Hss).
  match goal with |- context [[?r0; ?r1; ?r2; ?r3; ?r4; ?r5; ?r6; ?r7; ?r8; ?r9; ?r10; ?r11; ?r12; ?r13; ?r14; ?r15]] =>
    exists [128 + r8 mod 64; r9; r12; r13; r14; r15] end.
  repeat (apply list.Forall_cons in Hok as [? Hok]).
  split; [done|]. split.
  { repeat constructor; try done. match goal with |- _ + ?x mod 64 < _ => pose proof (N.mod_lt x 64 ltac:(done)) end. lia. }
  split. { eexists. split; [done|]. by apply N.mod_lt. }
  cbn. do 8 f_equal. f_equal. rewrite N.lor_comm. change 63 with (N.ones 6). rewrite N.land_ones.
  change 128 with (2 * 2 ^ 6) at 1. rewrite lor_low by (by apply N.mod_lt). done.
Qed.

Lemma from_be_bytes_pair a b : from_be_bytes [a; b] = 256 * a + b.
Proof. cbn. lia. Qed.

Lemma to_be_bytes_2 n : to_be_bytes 2 n = [n / 256 mod 256; n mod 256].
Proof. done. Qed.

(** Reading the layout back. *)
Section layout.
Context (millis counter store : N) (tail : list N) (v : N).
Context (Hm : millis <= MAX_MILLIS) (Hc : counter < 4096) (Hs : store < 2 ^ 16).
Context (Hlen : length tail = 6%nat) (Hok : Forall byte_ok tail).
Context (Hv : tail !! 0%nat = Some (128 + v)) (Hv64 : v < 64).

Let id := uuid_from_bytes (layout millis counter store tail).

Lemma layout_ok : Forall byte_ok (layout millis counter store tail).
Proof.
  unfold layout. rewrite !list.Forall_app. auto 10 using Forall_take, Forall_drop, to_be_bytes_ok.
Qed.

Lemma layout_length : length (layout millis counter store tail) = 16%nat.
Proof. unfold layout. rewrite !length_app, !to_be_bytes_length, length_take, length_drop, Hlen. done. Qed.

Lemma layout_as_bytes : uuid_as_bytes id = layout millis counter store tail.
Proof. unfold uuid_as_bytes, id, uuid_from_bytes. rewrite <-layout_length at 1. apply to_from_be_bytes, layout_ok. Qed.

Lemma layout_high : id / 2 ^ 64 = 65536 * millis + 32768 + counter.
Proof.
  unfold id, uuid_from_bytes. unfold layout. rewrite app_assoc, from_be_bytes_app.
  change (2 ^ 64) with (256 ^ N.of_nat 8).
  assert (millis < 256 ^ N.of_nat 6) by (unfold MAX_MILLIS in Hm; cbn in *; lia).
  assert (32768 + counter < 256 ^ N.of_nat 2) by (cbn; lia).
  rewrite from_be_bytes_app, !from_to_be_bytes, to_be_bytes_length by done.
  set (low := take 2 tail ++ to_be_bytes 2 store ++ drop 2 tail).
  assert (length low = 8%nat) as Hl.
  { unfold low. rewrite !length_app, to_be_bytes_length, length_take, length_drop, Hlen. done. }
  assert (from_be_bytes low < 256 ^ N.of_nat 8).
  { rewrite <-Hl. apply from_be_bytes_bound. unfold low. rewrite !list.Forall_app.
    auto using Forall_take, Forall_drop, to_be_bytes_ok. }
  rewrite Hl, N.div_add_l, N.div_small by done. change (256 ^ N.of_nat 2) with 65536. lia.
Qed.

Lemma layout_fields :
  timestamp_millis id = millis /\ uuid_counter id = counter /\ uuid_version id = 8 /\ uuid_variant id = 2 /\
  memory_store_number id = store.
Proof.
  unfold timestamp_millis, uuid_counter, uuid_version, uuid_variant, memory_store_number. rewrite layout_as_bytes.
  unfold layout. rewrite take_app_length' by (by rewrite to_be_bytes_length).
  rewrite from_to_be_bytes by (unfold MAX_MILLIS in Hm; cbn in *; lia).
  rewrite !(lookup_app_r (to_be_bytes 6 millis)) by (rewrite to_be_bytes_length; lia).
  rewrite to_be_bytes_length.
  destruct tail as [|a [|b [|c [|d [|e [|f [|]]]]]]]; try discriminate Hlen. injection Hv as ->.
  pose proof (from_to_be_bytes 2 (32768 + counter) ltac:(cbn; lia)) as Hcc.
  pose proof (from_to_be_bytes 2 store Hs) as Hss. rewrite !to_be_bytes_2 in *.
  cbn [app lookup list_lookup default from_option Nat.sub take drop] in *. unfold u16_be, default, from_option, Datatypes.id in *.
  rewrite Hcc, Hss, land_counter.
  split; [done|]. split; [|split; [|split; [|done]]].
  - rewrite N.add_comm. change 32768 with (8 * 4096). rewrite N.Div0.mod_add. by apply N.mod_small.
  - rewrite (N.mod_small _ 256) by (apply N.Div0.div_lt_upper_bound; lia).
    rewrite N.Div0.div_div. symmetry. apply (N.div_unique _ _ _ counter); lia.
  - symmetry. apply (N.div_unique _ _ _ v); lia.
Qed.
End layout.

(** ** Positions *)

Definition pos (p : N * N) : N := 4096 * p.1 + p.2.
Definition in_layout (p : N * N) : Prop := p.1 <= MAX_MILLIS /\ p.2 < 4096.
Definition position (id : Uuid) : N * N := (timestamp_millis id, uuid_counter id).

Lemma position_in_layout id : in_layout (position id).
Proof.
  split; unfold position; cbn [fst snd].
  - unfold timestamp_millis.
    pose proof (from_be_bytes_bound (take 6 (uuid_as_bytes id)) ltac:(apply Forall_take, to_be_bytes_ok)) as H.
    rewrite length_take_le in H by (unfold uuid_as_bytes; rewrite to_be_bytes_length; lia).
    unfold MAX_MILLIS. cbn in *. lia.
  - unfold uuid_counter. rewrite land_counter. by apply N.mod_lt.
Qed.

Lemma uuid_high id : id < 2 ^ 128 -> id / 2 ^ 64 = 65536 * timestamp_millis id + 4096 * uuid_version id + uuid_counter id.
Proof.
  intros Hid. unfold timestamp_millis, uuid_version, uuid_counter.
  pose proof (to_be_bytes_ok 16 id) as Hok. pose proof (to_be_bytes_length 16 id) as Hlen.
  rewrite <-(from_to_be_bytes 16 id Hid) at 1. fold (uuid_as_bytes id) in *.
  destruct (uuid_as_bytes id) as [|b0 [|b1 [|b2 [|b3 [|b4 [|b5 [|b6 [|b7 low]]]]]]]]; try discriminate Hlen.
  injection Hlen as Hlen.
  change (b0 :: _) with (([b0; b1; b2; b3; b4; b5] ++ [b6; b7]) ++ low) at 1.
  rewrite 2!from_be_bytes_app, Hlen. change (256 ^ N.of_nat 8) with (2 ^ 64).
  assert (from_be_bytes low < 2 ^ 64).
  { pose proof (from_be_bytes_bound low) as Hb. rewrite Hlen in Hb. apply Hb. by apply (Forall_drop _ 8) in Hok. }
  rewrite N.div_add_l, (N.div_small (from_be_bytes low)) by done.
  cbn [take lookup list_lookup default from_option length]. change (256 ^ N.of_nat 2) with 65536.
  unfold u16_be, default, from_option, Datatypes.id. rewrite land_counter, from_be_bytes_pair.
  assert (b7 < 256) by (by apply (Forall_lookup_1 _ _ 7%nat b7) in Hok).
  assert (256 * b6 + b7 = 4096 * (b6 / 16) + (256 * b6 + b7) mod 4096); [|lia].
  rewrite (N.div_mod (256 * b6 + b7) 4096) at 1 by done. f_equal. f_equal.
  symmetry. apply (N.div_unique _ _ _ (256 * (b6 mod 16) + b7)).
  - pose proof (N.mod_lt b6 16 ltac:(done)). lia.
  - rewrite (N.div_mod b6 16) at 1 by done. lia.
Qed.

(** A UUID minted past the position of another, of its version or an earlier
    one, is greater. *)
Lemma pos_lt_uuid a b :
  a < 2 ^ 128 -> uuid_version a <= 8 -> b / 2 ^ 64 = 65536 * timestamp_millis b + 32768 + uuid_counter b ->
  pos (position a) < pos (position b) -> a < b.
Proof.
  intros Ha Hv Hb Hpos. apply uuid_high in Ha as E.
  pose proof (position_in_layout a) as [_ Hca]. pose proof (position_in_layout b) as [_ Hcb].
  unfold pos, position in *. cbn [fst snd] in *.
  apply N.nle_gt. intros Hle. apply (N.Div0.div_le_mono _ _ (2 ^ 64)) in Hle. lia.
Qed.

Lemma opt_max_spec a b :
  (forall p, a = Some p \/ b = Some p -> p.2 < 4096) ->
  match opt_max a b with
  | None => a = None /\ b = None
  | Some p => (a = Some p \/ b = Some p) /\ (forall q, a = Some q \/ b = Some q -> pos q <= pos p)
  end.
Proof.
  intros H. destruct a as [[am ac]|], b as [[bm bc]|]; cbn; try naive_solver.
  pose proof (H (am, ac) ltac:(auto)) as Ha. pose proof (H (bm, bc) ltac:(auto)) as Hb. cbn in Ha, Hb.
  destruct (pos_leb _ _) eqn:E; unfold pos_leb in E; cbn [fst snd] in E;
    (split; [auto|]; intros q [[= <-]|[= <-]]; unfold pos; cbn [fst snd]).
  - apply orb_true_iff in E as [?%N.ltb_lt|[?%N.eqb_eq ?%N.leb_le]%andb_prop]; lia.
  - lia.
  - lia.
  - apply orb_false_iff in E as [?%N.ltb_ge [?%N.eqb_neq|?%N.leb_gt]%andb_false_iff]; lia.
Qed.

(** The positions a mint must pass. *)
Definition behind (g : Generator) (c : Call) (p : N * N) : Prop :=
  g_previous g = Some p \/ position <$> call_floor c = Some p.

Definition generator_ok (g : Generator) : Prop := forall p, g_previous g = Some p -> in_layout p.

Lemma behind_in_layout g c p : generator_ok g -> behind g c p -> in_layout p.
Proof.
  intros Hg [Hp|Hp]; [by apply Hg|]. destruct (call_floor c) as [f|]; [|discriminate Hp]. injection Hp as <-.
  apply position_in_layout.
Qed.

(** [advance] passes everything behind it, and leaves the layout only at the
    end of its range. *)
Lemma advance_past g c seed m k :
  generator_ok g -> seed < 4096 ->
  Generator.advance (opt_max (g_previous g) (position <$> call_floor c)) (call_clock c) seed = (m, k) ->
  k < 4096 /\ call_clock c <= m /\ (forall p, behind g c p -> pos p < pos (m, k)) /\
  (m <= MAX_MILLIS \/ MAX_MILLIS < call_clock c \/ behind g c (MAX_MILLIS, MAX_COUNTER)).
Proof.
  intros Hg Hseed E. pose proof (fun p => behind_in_layout g c p Hg) as Hin.
  pose proof (opt_max_spec (g_previous g) (position <$> call_floor c) (fun p Hp => proj2 (Hin p Hp))) as Hmax.
  destruct (opt_max _ _) as [[pm pk]|]; cbn in E.
  - destruct Hmax as [Hfrom Hle]. destruct (Hin _ Hfrom) as [Hpm Hpk]. cbn [fst snd] in *.
    destruct (N.leb_spec (call_clock c) pm); [destruct (N.eqb_spec pk MAX_COUNTER) as [Ek|Ek]|]; injection E as <- <-;
      (split; [unfold MAX_COUNTER in *; lia|]; split; [lia|]; split;
       [intros p Hp; specialize (Hle p Hp); unfold pos, MAX_COUNTER in *; cbn [fst snd] in *; lia|]).
    + destruct (N.eq_dec pm MAX_MILLIS) as [->|]; [right; right; rewrite Ek in Hfrom; exact Hfrom|left; lia].
    + by left.
    + destruct (N.le_gt_cases (call_clock c) MAX_MILLIS); auto.
  - destruct Hmax as [Hnone Hnone']. injection E as <- <-. split; [done|]. split; [lia|]. split.
    + intros p [Hp|Hp]; congruence.
    + destruct (N.le_gt_cases (call_clock c) MAX_MILLIS); auto.
Qed.

Lemma mint_position g c :
  generator_ok g -> call_ok c ->
  match mint_call g c with
  | (Some id, g') =>
      g' = mk_Generator (Some (position id)) /\ id / 2 ^ 64 = 65536 * timestamp_millis id + 32768 + uuid_counter id /\
      uuid_version id = 8 /\ uuid_variant id = 2 /\ memory_store_number id = call_store c /\
      call_clock c <= timestamp_millis id /\ (forall p, behind g c p -> pos p < pos (position id))
  | (None, g') => g' = g /\ (MAX_MILLIS < call_clock c \/ behind g c (MAX_MILLIS, MAX_COUNTER))
  end.
Proof.
  intros Hg (Hlen & Hok & Hs & _). unfold mint_call, Generator.mint.
  change (fun floor => (timestamp_millis floor, uuid_counter floor)) with position.
  set (seed := N.land _ _). assert (seed < 4096) as Hseed by (unfold seed; rewrite land_counter; by apply N.mod_lt).
  clearbody seed. destruct (Generator.advance _ _ _) as [m k] eqn:E.
  apply advance_past in E as (Hk & Hclock & Hpast & Hrange); [|done..].
  destruct (N.ltb_spec MAX_MILLIS m); [split; [done|]; destruct Hrange as [?|?]; [lia|done]|].
  destruct (layout_bytes m k (call_store c) (call_random c) Hlen Hk Hok) as (tail & Ht & Htok & (v & Hv & Hv64) & ->).
  destruct (layout_fields m k (call_store c) tail v) as (Hts & Hcnt & Hver & Hvar & Hst); try done.
  unfold position. rewrite Hts, Hcnt. repeat split; try done. by apply (layout_high m k (call_store c) tail v).
Qed.

Lemma mint_call_ok g c id g' : generator_ok g -> call_ok c -> mint_call g c = (id, g') -> generator_ok g'.
Proof.
  intros Hg Hc E. pose proof (mint_position g c Hg Hc) as H. rewrite E in H.
  destruct id as [id|]; destruct H as [-> _]; [|done]. intros p [= <-]. apply position_in_layout.
Qed.

(** The generator holds the position of what was minted last. *)
Definition history (g : Generator) (before : list Uuid) : Prop :=
  match g_previous g with
  | None => before = []
  | Some p => exists id, id ∈ before /\ position id = p
  end.

Lemma minted_call g c before :
  generator_ok g -> call_ok c -> history g before ->
  match mint_call g c with
  | (Some id, g') => carries c id /\ history g' (before ++ [id])
  | (None, g') => exhausted c before /\ history g' before
  end.
Proof.
  intros Hg Hc Hh. pose proof (mint_position g c Hg Hc) as H. destruct (mint_call g c) as [[id|] g'].
  - destruct H as (-> & Hhigh & Hver & Hvar & Hst & Hclock & Hpast). split.
    + split; [done|]. split; [done|]. split; [done|]. split; [done|]. intros floor Hf.
      destruct Hc as (_ & _ & _ & Hfloor). destruct (Hfloor floor Hf) as [Hf128 Hfv].
      apply pos_lt_uuid; [done..|]. apply Hpast. right. by rewrite Hf.
    + exists id. cbn. split; [set_solver|done].
  - destruct H as [-> H]. split; [|done]. destruct H as [H|[H|H]]; [by left| |]; right.
    + unfold history in Hh. rewrite H in Hh. destruct Hh as (id & Hid & [= ? ?]). exists id. by split; [right|].
    + destruct (call_floor c) as [f|] eqn:Ef; [|discriminate H]. injection H as ? ?. exists f. split; [by left|done].
Qed.

(** Later mints pass the generator's position. *)
Lemma mint_all_past g calls p id :
  generator_ok g -> Forall call_ok calls -> g_previous g = Some p -> id ∈ omap (fun o => o) (mint_all g calls) ->
  pos p < pos (position id) /\ id / 2 ^ 64 = 65536 * timestamp_millis id + 32768 + uuid_counter id.
Proof.
  intros Hg Hcalls. revert g p Hg. induction Hcalls as [|c calls Hc _ IH]; intros g p Hg Hp Hin.
  - by apply elem_of_nil in Hin.
  - cbn [mint_all] in Hin. pose proof (mint_position g c Hg Hc) as H. pose proof (mint_call_ok g c) as Hok.
    destruct (mint_call g c) as [[id'|] g']; specialize (Hok _ _ Hg Hc eq_refl); cbn in Hin.
    + destruct H as (-> & Hhigh & _ & _ & _ & _ & Hpast). specialize (Hpast p (or_introl Hp)).
      apply elem_of_cons in Hin as [->|Hin]; [done|]. specialize (IH _ _ Hok eq_refl Hin) as [? ?]. split; [lia|done].
    + destruct H as [-> _]. by apply (IH g p).
Qed.

Lemma mint_all_sorted g calls :
  generator_ok g -> Forall call_ok calls -> StronglySorted N.lt (omap (fun o => o) (mint_all g calls)).
Proof.
  intros Hg Hcalls. revert g Hg. induction Hcalls as [|c calls Hc Hcalls IH]; intros g Hg; [constructor|].
  cbn [mint_all]. pose proof (mint_position g c Hg Hc) as H. pose proof (mint_call_ok g c) as Hok.
  destruct (mint_call g c) as [[id|] g']; specialize (Hok _ _ Hg Hc eq_refl); cbn; [|by apply IH].
  destruct H as (-> & Hhigh & Hver & _). constructor; [by apply IH|]. apply list.Forall_forall. intros id' Hid'.
  apply mint_all_past with (p := position id) in Hid' as [Hpos Hhigh']; [|done..].
  pose proof (position_in_layout id) as [_ Hk]. unfold pos, position in *. cbn [fst snd] in *.
  apply N.nle_gt. intros Hle. apply (N.Div0.div_le_mono _ _ (2 ^ 64)) in Hle.
  pose proof (position_in_layout id') as [_ Hk']. unfold position in Hk'. cbn [snd] in Hk'. lia.
Qed.

Lemma mint_all_calls g before calls i c out :
  generator_ok g -> Forall call_ok calls -> history g before ->
  calls !! i = Some c -> mint_all g calls !! i = Some out ->
  match out with
  | Some id => carries c id
  | None => exhausted c (before ++ omap (fun o => o) (take i (mint_all g calls)))
  end.
Proof.
  intros Hg Hcalls. revert g before i Hg.
  induction Hcalls as [|c0 calls Hc Hcalls IH]; intros g before i Hg Hh Hi Ho; [done|].
  cbn [mint_all] in *. pose proof (minted_call g c0 before Hg Hc Hh) as H. pose proof (mint_call_ok g c0) as Hok.
  destruct (mint_call g c0) as [o g']; specialize (Hok _ _ Hg Hc eq_refl).
  destruct i as [|i]; cbn in Hi, Ho.
  - injection Hi as ->. injection Ho as ->. cbn. rewrite app_nil_r. destruct out; apply H.
  - destruct o as [id|]; destruct H as [_ H]; specialize (IH _ _ i Hok H Hi Ho).
    + destruct out; [done|]. cbn [take omap list_omap]. by rewrite <-app_assoc in IH.
    + done.
Qed.

(** C29. The mints of a process, whatever the clocks they read, are given
    UUIDs that strictly increase.  Each carries version 8, the variant and its
    store's number, is stamped no earlier than its clock, and is greater than
    its floor, whichever store and process minted that.  A mint is refused only
    when the clock is past the 48-bit range, or the floor or an earlier mint
    holds the last position of the layout. *)
Theorem mints_increase (calls : list Call) (Hcalls : Forall call_ok calls) :
  let outs := mint_all Generator.empty calls in
  length outs = length calls /\
  StronglySorted N.lt (omap (fun o => o) outs) /\
  forall i c out, calls !! i = Some c -> outs !! i = Some out ->
    match out with
    | Some id => carries c id
    | None => exhausted c (omap (fun o => o) (take i outs))
    end.
Proof.
  cbn zeta. split; [|split].
  - generalize Generator.empty. clear Hcalls. induction calls as [|c calls IH]; intros g; [done|].
    cbn. destruct (mint_call g c). cbn. by rewrite IH.
  - by apply mint_all_sorted.
  - intros i c out. by apply (mint_all_calls Generator.empty []).
Qed.

(** The tests of the generator: a frozen and a regressing clock, another
    process's revision as the floor, and the end of the range. *)
Definition randomness (counter : N) : list N :=
  replicate 6 255 ++ to_be_bytes 2 counter ++ replicate 8 255.

Definition sample_calls : list Call :=
  [mk_Call 100 (randomness 4094) 3 None; mk_Call 100 (randomness 9) 5 None; mk_Call 99 (randomness 7) 3 None;
   mk_Call 99 (randomness 0) 3 (Some (uuid_from_bytes (layout 200 4095 65535 (replicate 6 191))));
   mk_Call MAX_MILLIS (randomness 4095) 1 None; mk_Call 98 (randomness 0) 1 None].

Example sample_mints :
  mint_all Generator.empty sample_calls
  = ((fun l => Some (uuid_from_bytes l)) <$>
     [[0; 0; 0; 0; 0; 100; 143; 254; 191; 255; 0; 3; 255; 255; 255; 255];
      [0; 0; 0; 0; 0; 100; 143; 255; 191; 255; 0; 5; 255; 255; 255; 255];
      [0; 0; 0; 0; 0; 101; 128; 7; 191; 255; 0; 3; 255; 255; 255; 255];
      [0; 0; 0; 0; 0; 201; 128; 0; 191; 255; 0; 3; 255; 255; 255; 255];
      [255; 255; 255; 255; 255; 255; 143; 255; 191; 255; 0; 1; 255; 255; 255; 255]]) ++ [None].
Proof. vm_compute. reflexivity. Qed.

Lemma sample_calls_ok : Forall call_ok sample_calls.
Proof.
  repeat constructor; cbn; try lia; try discriminate;
    match goal with
    | H : call_floor _ = Some _ |- _ => injection H as <-; vm_compute; congruence
    | _ => idtac
    end.
Qed.

Lemma mints_increase_witness :
  let outs := mint_all Generator.empty sample_calls in
  length outs = length sample_calls /\
  StronglySorted N.lt (omap (fun o => o) outs) /\
  forall i c out, sample_calls !! i = Some c -> outs !! i = Some out ->
    match out with
    | Some id => carries c id
    | None => exhausted c (omap (fun o => o) (take i outs))
    end.
Proof. apply (mints_increase sample_calls). apply sample_calls_ok. Defined.
