(* ===== verification/CanonicalJson.v ===== *)
(** * Canonical JSON

    [crates/core/src/canonical_json.rs]: the sorted-key bytes a payload is
    identified by.  Numbers and strings are written by [serde_json], an
    argument here. *)

From S2P Require Import Prelude Utf8 Json.

#[local] Open Scope N_scope.

(** What [serde_json] writes for a number, kept as its literal, and for a
    string. *)
Class JsonPrinter := {
  json_number : rstring -> list N;
  json_string : rstring -> list N;
}.

(** The characters of a number. *)
Definition number_byte (b : N) : bool :=
  is_ascii_digit b || contains b (str "+-.eE").

(** A number opens with a digit or a minus sign. *)
Definition number_text (l : list N) : bool :=
  match l with
  | [] => false
  | b :: rest => (is_ascii_digit b || (b =? chr "-")) && forallb number_byte rest
  end.

(** A JSON text says where its strings end: they open with a quote, and no
    string's text begins another's.  A number is written as a number, and two
    numbers are written apart. *)
Class JsonPrinterLaws `{JsonPrinter} : Prop := {
  json_string_quote s : exists rest, json_string s = 34 :: rest;
  json_string_ends s t r r' :
    Forall scalar s -> Forall scalar t ->
    json_string s ++ r = json_string t ++ r' -> s = t /\ r = r';
  json_number_text l : number_text l = true -> number_text (json_number l) = true;
  json_number_inj l l' :
    number_text l = true -> number_text l' = true -> json_number l = json_number l' -> l = l';
}.

Fixpoint write_canonical_json `{JsonPrinter} (value : Json) : list N :=
  match value with
  | JNull => str "null"
  | JBool true => str "true"
  | JBool false => str "false"
  | JNumber number => json_number number
  | JString text => json_string text
  | JArray items => [chr "["] ++ join [chr ","] (map write_canonical_json items) ++ [chr "]"]
  | JObject members =>
      let written := map (fun '(key, item) => (key, write_canonical_json item)) members in
      let entry key :=
        json_string key ++ [chr ":"] ++ default [] (snd <$> find (fun kv => bool_decide (kv.1 = key)) written) in
      [chr "{"] ++ join [chr ","] (map entry (sort_by str_leb members.*1)) ++ [chr "}"]
  end.

Definition canonical_json_bytes `{JsonPrinter} (value : Json) : list N := write_canonical_json value.

(** ** The value the bytes identify *)

(** The members of every object in the order of their keys. *)
Fixpoint normalize (value : Json) : Json :=
  match value with
  | JArray items => JArray (map normalize items)
  | JObject members =>
      JObject (sort_by (key_leb fst) (map (fun '(key, item) => (key, normalize item)) members))
  | _ => value
  end.

(** A [serde_json::Value]: its numbers are numbers, its strings are Unicode,
    and no object repeats a key. *)
Fixpoint json_ok (value : Json) : Prop :=
  match value with
  | JNumber l => number_text l = true
  | JString s => Forall scalar s
  | JArray items => foldr (fun item rest => json_ok item /\ rest) True items
  | JObject members =>
      object_wf members /\ foldr (fun '(key, item) rest => (Forall scalar key /\ json_ok item) /\ rest) True members
  | _ => True
  end.

Lemma map_fmap {A B} (f : A -> B) l : map f l = f <$> l.
Proof. reflexivity. Qed.

Lemma json_ok_array items : json_ok (JArray items) <-> Forall json_ok items.
Proof. cbn. induction items as [|v items IH]; cbn; [by split|]. by rewrite IH, list.Forall_cons. Qed.

Lemma json_ok_object members :
  json_ok (JObject members) <->
  object_wf members /\ Forall (fun kv => Forall scalar kv.1 /\ json_ok kv.2) members.
Proof.
  cbn. apply and_iff_compat_l. induction members as [|[k v] members IH]; cbn; [by split|].
  by rewrite IH, list.Forall_cons.
Qed.

(** Reordering the members of an object does not change its normal form. *)
Lemma normalize_reorder members members' :
  json_ok (JObject members) -> members ≡ₚ members' -> normalize (JObject members) = normalize (JObject members').
Proof.
  rewrite json_ok_object. intros [Hwf Hok] Hp. cbn. f_equal. apply sort_by_key_unique.
  - unfold object_wf in Hwf. rewrite <-list_fmap_compose.
    erewrite list_fmap_ext; [exact Hwf|]. by intros ? [] _.
  - apply Forall_fmap. eapply Forall_impl; [|exact Hok]. by intros [k v] [? _].
  - by apply fmap_Permutation.
Qed.

(** ** Writing without sorting *)

Section writing.
Context `{JsonPrinter}.

Definition entry (kv : rstring * list N) : list N := json_string kv.1 ++ [chr ":"] ++ kv.2.

Fixpoint plain (value : Json) : list N :=
  match value with
  | JNull => str "null"
  | JBool true => str "true"
  | JBool false => str "false"
  | JNumber number => json_number number
  | JString text => json_string text
  | JArray items => [chr "["] ++ join [chr ","] (map plain items) ++ [chr "]"]
  | JObject members =>
      [chr "{"] ++ join [chr ","] (map (fun '(key, item) => entry (key, plain item)) members) ++ [chr "}"]
  end.

Lemma find_key {A} (l : list (rstring * A)) k v :
  NoDup l.*1 -> (k, v) ∈ l -> snd <$> find (fun kv => bool_decide (kv.1 = k)) l = Some v.
Proof.
  induction l as [|[k' v'] l IH]; [by intros _ ?%elem_of_nil|]. cbn [fmap list_fmap fst].
  rewrite list.NoDup_cons, elem_of_cons. intros [Hk Hnd] [[= <- <-]|Hin]; cbn.
  - by rewrite bool_decide_true.
  - rewrite bool_decide_false; [by apply IH|]. intros ->. apply Hk. by apply (list_elem_of_fmap_2 fst) in Hin.
Qed.

(** The entries in key order are the sorted entries. *)
Lemma sorted_entries (l : list (rstring * list N)) :
  NoDup l.*1 -> Forall (fun kv => Forall scalar kv.1) l ->
  map (fun key => json_string key ++ [chr ":"] ++ default [] (snd <$> find (fun kv => bool_decide (kv.1 = key)) l))
    (sort_by str_leb l.*1)
  = map entry (sort_by (key_leb fst) l).
Proof.
  intros Hnd Hs.
  assert (sort_by str_leb l.*1 = (sort_by (key_leb fst) l).*1) as ->.
  { change str_leb with (key_leb (fun s : rstring => s)).
    by apply (sort_by_key_fmap fst (fun s : rstring => s) fst l). }
  change (map ?f (?l.*1)) with (f <$> (fst <$> l)). rewrite <-list_fmap_compose. apply list_fmap_ext.
  intros i [k v] Hin%list_elem_of_lookup_2%sort_by_elem_of. cbn. by rewrite (find_key l k v).
Qed.

Lemma write_plain v : json_ok v -> write_canonical_json v = plain (normalize v).
Proof.
  induction v as [| | | |items IH|members IH] using Json_nested_ind; intros Hok; try done.
  - apply json_ok_array in Hok. cbn. do 3 f_equal. rewrite !map_fmap, <-list_fmap_compose. apply list_fmap_ext. intros i v Hv%list_elem_of_lookup_2.
    apply (proj1 (list.Forall_forall _ _) IH); [done|]. by apply (proj1 (list.Forall_forall _ _) Hok).
  - apply json_ok_object in Hok as [Hwf Hok].
    set (w := fun kv : rstring * Json => (kv.1, write_canonical_json kv.2)).
    set (n := fun kv : rstring * Json => (kv.1, normalize kv.2)).
    assert (forall (B : Type) (f : Json -> B) l, map (fun '(key, item) => (key, f item)) l = (fun kv : rstring * Json => (kv.1, f kv.2)) <$> l) as Hmap
      by (intros B f l; apply list_fmap_ext; by intros ? [] _).
    assert (forall (B : Type) (f : Json -> B), ((fun kv : rstring * Json => (kv.1, f kv.2)) <$> members).*1 = members.*1) as Hkeys
      by (intros B f; rewrite <-list_fmap_compose; by apply list_fmap_ext).
    cbn [write_canonical_json normalize plain]. cbv zeta. rewrite !Hmap, <-(Hkeys _ write_canonical_json).
    rewrite sorted_entries; [|by rewrite Hkeys|apply Forall_fmap; eapply Forall_impl; [|exact Hok]; by intros ? [? _]].
    do 3 f_equal. fold w n.
    assert (Forall (fun kv : rstring * Json => Forall scalar kv.1) members) as Hsc
      by (eapply Forall_impl; [|exact Hok]; by intros ? [? _]).
    rewrite (sort_by_key_fmap fst fst w), (sort_by_key_fmap fst fst n) by done.
    rewrite !map_fmap, <-!list_fmap_compose. apply list_fmap_ext.
    intros i [k v] Hv%list_elem_of_lookup_2%sort_by_elem_of. unfold compose, w, n. cbn [fst snd].
    pose proof (proj1 (list.Forall_forall _ _) IH _ Hv) as Hw. apply (proj1 (list.Forall_forall _ _) Hok) in Hv as [_ Hv].
    cbn in Hw, Hv. by rewrite (Hw Hv).
Qed.
End writing.

Lemma json_ok_normalize v : json_ok v -> json_ok (normalize v).
Proof.
  induction v as [| | | |items IH|members IH] using Json_nested_ind; intros Hok; try done; cbn [normalize].
  - apply json_ok_array in Hok. apply json_ok_array. rewrite map_fmap, Forall_fmap.
    induction IH; [constructor|]. apply list.Forall_cons in Hok as [? ?]. constructor; auto.
  - apply json_ok_object in Hok as [Hwf Hok]. apply json_ok_object. unfold object_wf in *.
    rewrite sort_by_Permutation. split.
    + rewrite <-list_fmap_compose. erewrite list_fmap_ext; [exact Hwf|]. by intros ? [] _.
    + apply Forall_fmap. clear Hwf.
      induction IH as [|[k v] members Hv _ IHm]; [constructor|]. apply list.Forall_cons in Hok as [[? ?] ?].
      constructor; [split; auto|auto].
Qed.

(** ** Reading the bytes *)

(** What may follow a value in a JSON text. *)
Definition delimited (r : list N) : Prop :=
  match r with [] => True | b :: _ => b = chr "," \/ b = chr "]" \/ b = chr "}" end.

(** The text of [x] ends where that of [y] does. *)
Definition ends {A} (f : A -> list N) (x y : A) : Prop :=
  forall r r', delimited r -> delimited r' -> f x ++ r = f y ++ r' -> x = y /\ r = r'.

(** Separated texts, closed by a bracket no text starts with. *)
Lemma join_ends {A} (f : A -> list N) (close : N) (xs ys : list A) r r' :
  close = chr "]" \/ close = chr "}" ->
  (forall x, x ∈ xs \/ x ∈ ys -> exists b rest, f x = b :: rest /\ b <> close) ->
  (forall x y, x ∈ xs -> y ∈ ys -> ends f x y) ->
  join [chr ","] (f <$> xs) ++ close :: r = join [chr ","] (f <$> ys) ++ close :: r' -> xs = ys /\ r = r'.
Proof.
  intros Hclose. assert (close <> chr ",") as Hcomma by (by destruct Hclose as [-> | ->]).
  revert ys. induction xs as [|x xs IH]; intros [|y ys] Hhead Hends E.
  - by injection E.
  - destruct (Hhead y) as (b & rest & Hy & Hb); [set_solver|]. exfalso. revert E.
    destruct ys; cbn; rewrite Hy; cbn; congruence.
  - destruct (Hhead x) as (b & rest & Hx & Hb); [set_solver|]. exfalso. revert E.
    destruct xs; cbn; rewrite Hx; cbn; congruence.
  - assert (forall l (z : A), exists tail, join [chr ","] (f <$> z :: l) = f z ++ tail /\
      (l = [] -> tail = []) /\ (l <> [] -> tail = chr "," :: join [chr ","] (f <$> l))) as Hjoin.
    { intros [|a l] z; cbn; [exists []; rewrite app_nil_r|eexists; split; [done|]]; done. }
    destruct (Hjoin xs x) as (tx & Ex & Hx0 & Hx1), (Hjoin ys y) as (ty & Ey & Hy0 & Hy1).
    rewrite Ex, Ey, <-!app_assoc in E.
    assert (forall l t z, (l = [] -> t = []) -> (l <> [] -> t = chr "," :: join [chr ","] (f <$> l)) ->
      delimited (t ++ close :: z)) as Hdel.
    { intros [|a l] t z H0 H1; [rewrite H0 by done; right; exact Hclose|rewrite H1 by done; by left]. }
    apply Hends in E as [-> E]; [|set_solver..|by eapply Hdel|by eapply Hdel].
    destruct xs as [|x' xs], ys as [|y' ys].
    + rewrite Hx0, Hy0 in E by done. by injection E as ->.
    + rewrite Hx0, Hy1 in E by done. by injection E.
    + rewrite Hx1, Hy0 in E by done. injection E as E _. by destruct Hcomma.
    + rewrite Hx1, Hy1 in E by done. injection E as E.
      destruct (IH (y' :: ys)) as [-> ->]; [|intros; apply Hends; set_solver|exact E|done].
      intros z Hz. apply Hhead. set_solver.
Qed.

Lemma span_ends (P : N -> bool) a b r r' :
  Forall (fun c => P c = true) a -> Forall (fun c => P c = true) b ->
  match r with [] => True | c :: _ => P c = false end -> match r' with [] => True | c :: _ => P c = false end ->
  a ++ r = b ++ r' -> a = b /\ r = r'.
Proof.
  intros Ha. revert b. induction Ha as [|c a Hc _ IH]; intros b Hb Hr Hr' E.
  - destruct Hb as [|d b Hd _]; [done|]. cbn in E. subst r. congruence.
  - destruct Hb as [|d b Hd Hb].
    + cbn in E. subst r'. congruence.
    + injection E as -> E. by destruct (IH b Hb Hr Hr' E) as [-> ->].
Qed.

(** The first byte of a text tells what is written. *)
Definition json_kind (v : Json) : N :=
  match v with
  | JNull => 0 | JBool true => 1 | JBool false => 2 | JNumber _ => 3 | JString _ => 4 | JArray _ => 5 | JObject _ => 6
  end.
Definition byte_kind (b : N) : N :=
  if b =? chr "n" then 0 else if b =? chr "t" then 1 else if b =? chr "f" then 2 else if b =? 34 then 4
  else if b =? chr "[" then 5 else if b =? chr "{" then 6 else 3.

Section reading.
Context `{JsonPrinterLaws}.

Lemma number_first b : is_ascii_digit b || (b =? chr "-") = true -> byte_kind b = 3 /\ b <> 93 /\ b <> 125.
Proof.
  intros [[?%N.leb_le ?%N.leb_le]%andb_prop|?%N.eqb_eq]%orb_true_iff; [|by subst].
  unfold byte_kind. cbn. repeat (case_match; bools; [lia|]). repeat split; lia.
Qed.

Lemma plain_head v :
  json_ok v -> exists b rest, plain v = b :: rest /\ byte_kind b = json_kind v /\ b <> 93 /\ b <> 125.
Proof.
  destruct v as [|[]|l|s|items|members]; cbn [plain json_ok]; intros Hv; try (by eexists _, _).
  - apply json_number_text in Hv. destruct (json_number l) as [|b rest]; [done|]. exists b, rest. split; [done|].
    apply andb_prop in Hv as [Hv _]. by apply number_first.
  - destruct (json_string_quote s) as (rest & E). by exists 34, rest.
Qed.

Lemma number_text_all l : number_text l = true -> Forall (fun c => number_byte c = true) l.
Proof.
  destruct l as [|b rest]; [done|]. intros [Hb Hrest]%andb_prop. constructor.
  - unfold number_byte. apply orb_true_iff in Hb as [->|?%N.eqb_eq]; [done|]. by subst.
  - apply list.Forall_forall. intros c Hc%list_elem_of_In. by apply (proj1 (forallb_forall _ _) Hrest).
Qed.

Lemma delimited_not_number r : delimited r -> match r with [] => True | c :: _ => number_byte c = false end.
Proof. destruct r as [|b r]; [done|]. by intros [-> | [-> | ->]]. Qed.

Lemma plain_ends v w : json_ok v -> json_ok w -> ends plain v w.
Proof.
  revert w. induction v as [|b|l|s|items IH|members IH] using Json_nested_ind; intros w Hv Hw r r' Hr Hr' E;
    destruct (plain_head w Hw) as (hd & rest & Ew & Hkind & _);
    (let v := match goal with |- ?v = _ /\ _ => v end in
     destruct (plain_head v Hv) as (hd' & rest' & Ev & Hkind' & _));
    (assert (hd = hd') as <- by (rewrite Ev, Ew in E; by injection E)); rewrite Hkind' in Hkind; clear Ev Ew Hkind' rest rest' hd;
    destruct w as [|b'|l'|s'|items'|members']; try (by destruct b); try (by destruct b'); try discriminate Hkind;
    try (destruct b); try discriminate Hkind; try (destruct b'); try discriminate Hkind.
  - by injection E.
  - by injection E.
  - by injection E.
  - cbn in E. apply (span_ends number_byte) in E as [E ->];
      [|by apply number_text_all, json_number_text..|by apply delimited_not_number|by apply delimited_not_number].
    by apply json_number_inj in E as ->.
  - cbn in E. by apply json_string_ends in E as [-> ->].
  - cbn in E. injection E as E. rewrite <-!app_assoc in E. rewrite !map_fmap in E.
    apply json_ok_array in Hv, Hw. apply join_ends in E as [-> ->]; [done|by left| |].
    + intros x Hx. destruct (plain_head x) as (b & rest & ? & _ & ? & _); [|by exists b, rest].
      destruct Hx as [Hx|Hx]; revert Hx; by apply list.Forall_forall.
    + intros x y Hx Hy. apply (proj1 (list.Forall_forall _ _) IH); [done|by apply (proj1 (list.Forall_forall _ _) Hv)|].
      by apply (proj1 (list.Forall_forall _ _) Hw).
  - cbn in E. injection E as E. rewrite <-!app_assoc in E. rewrite !map_fmap in E.
    apply json_ok_object in Hv as [_ Hv], Hw as [_ Hw]. apply join_ends in E as [-> ->]; [done|by right| |].
    + intros [k x] _. unfold entry. cbn [fst snd]. destruct (json_string_quote k) as (rest & ->). by eexists _, _.
    + intros [k x] [k' y] Hx Hy r1 r2 Hr1 Hr2. unfold entry. cbn [fst snd]. rewrite <-!app_assoc. intros Ee.
      apply (proj1 (list.Forall_forall _ _) Hv) in Hx as Hvx. apply (proj1 (list.Forall_forall _ _) Hw) in Hy as Hwy.
      apply json_string_ends in Ee as [-> Ee]; [|apply Hvx|apply Hwy]. injection Ee as Ee.
      pose proof (proj1 (list.Forall_forall _ _) IH (k', x) Hx y) as IHx. cbn [snd] in IHx.
      apply IHx in Ee as [-> ->]; [done|apply Hvx|apply Hwy|done..].
Qed.

Lemma canonical_bytes_eq v w :
  json_ok v -> json_ok w -> canonical_json_bytes v = canonical_json_bytes w <-> normalize v = normalize w.
Proof.
  intros Hv Hw. unfold canonical_json_bytes. rewrite !write_plain by done. split; [|by intros ->]. intros E.
  destruct (plain_ends _ _ (json_ok_normalize v Hv) (json_ok_normalize w Hw) [] [] I I) as [? _];
    [by rewrite !app_nil_r|done].
Qed.

(** C28. The canonical bytes of two JSON values are equal exactly when the
    values are, up to the order of the members of their objects, at every
    depth; reordering the members of an object changes nothing. *)
Theorem canonical_bytes_identify_values (v w : Json) (Hv : json_ok v) (Hw : json_ok w) :
  (canonical_json_bytes v = canonical_json_bytes w <-> normalize v = normalize w) /\
  (forall members members', v = JObject members -> w = JObject members' -> members ≡ₚ members' ->
     canonical_json_bytes v = canonical_json_bytes w).
Proof.
  split; [by apply canonical_bytes_eq|]. intros members members' -> -> Hp. apply canonical_bytes_eq; [done..|].
  by apply normalize_reorder.
Qed.
End reading.

(** ** A printer *)

Module SamplePrinter.

Definition escape (b : N) : list N :=
  if b =? 34 then [92; 34] else if b =? 92 then [92; 92] else [b].

#[export] Instance printer : JsonPrinter := {|
  json_number l := l;
  json_string s := [34] ++ (bytes s ≫= escape) ++ [34];
|}.

Lemma escape_ends a b r r' :
  (a ≫= escape) ++ 34 :: r = (b ≫= escape) ++ 34 :: r' -> a = b /\ r = r'.
Proof.
  revert b. induction a as [|x a IH]; intros [|y b] E; cbn in E.
  - by injection E.
  - exfalso. revert E. unfold escape. repeat case_match; bools; cbn; congruence.
  - exfalso. revert E. unfold escape. repeat case_match; bools; cbn; congruence.
  - revert E. unfold escape at 1 3. repeat case_match; bools; subst; cbn; intros E; try congruence;
      injection E; intros; subst; try done;
      match goal with E : _ ++ _ = _ |- _ => destruct (IH b E) as [-> ->]; done end.
Qed.

#[export] Instance printer_laws : JsonPrinterLaws.
Proof.
  constructor; cbn.
  - intros s. by eexists.
  - intros s t r r' Hs Ht E. injection E as E. rewrite <-!app_assoc in E.
    apply escape_ends in E as [E ->]. split; [|done]. by apply bytes_inj.
  - done.
  - done.
Qed.

Definition value (swapped : bool) : Json :=
  let a := (str "title", JString [65; 34; 8364]) in
  let b := (str "n", JArray [JNumber (str "-1.5e3"); JNull; JObject []]) in
  JObject (if swapped then [b; a] else [a; b]).

Lemma canonical_bytes_identify_values_witness :
  (canonical_json_bytes (value true) = canonical_json_bytes (value false)
   <-> normalize (value true) = normalize (value false)) /\
  (forall members members', value true = JObject members -> value false = JObject members' -> members ≡ₚ members' ->
     canonical_json_bytes (value true) = canonical_json_bytes (value false)).
Proof.
  apply (canonical_bytes_identify_values (value true) (value false));
    (split; [|repeat split; repeat constructor; cbn; unfold scalar; lia]);
    unfold object_wf; cbn; apply (bool_decide_unpack _); vm_compute; exact I.
Defined.

Example value_bytes :
  canonical_json_bytes (value true)
  = str "{" ++ [34] ++ str "n" ++ [34] ++ str ":[-1.5e3,null,{}]," ++ [34] ++ str "title" ++ [34] ++ str ":"
    ++ [34; 65; 92; 34; 226; 130; 172; 34] ++ str "}".
Proof. vm_compute. reflexivity. Qed.

End SamplePrinter.
