(* ===== verification/Idempotency.v ===== *)
(** * Idempotency keys

    [crates/core/src/verbs/idempotency.rs]: the key of a request, what its
    content is fingerprinted from, and the verdict on a key already used; with
    the fingerprints the memory tools take
    ([crates/core/src/mcp/core_tools/memory/], the fork of
    [crates/storage-pg/src/verbs/memory_fork.rs]).  BLAKE3 and the hex encoding
    are arguments: a hasher fed in pieces hashes their concatenation, so a
    builder is the bytes it has been fed. *)

From S2P Require Import Prelude Utf8 Ids Bytes Text Json CanonicalJson Publication Errors.

#[local] Open Scope N_scope.

Class Digest := {
  blake3 : list N -> list N;
  hex_encode : list N -> rstring;
}.

(** Two byte strings have different hexadecimal texts. *)
Class DigestLaws `{Digest} : Prop := {
  hex_encode_inj a b : hex_encode a = hex_encode b -> a = b;
}.

(** A length, as [(l.len() as u64).to_be_bytes()]. *)
Definition len_be {A} (l : list A) : list N := to_be_bytes 8 (N.of_nat (length l)).
Arguments len_be : simpl never.

(** ** Keys *)

Record IdempotencyKey := mk_IdempotencyKey { IdempotencyKey_0 : rstring }.

#[export] Instance IdempotencyKey_eq_dec : EqDecision IdempotencyKey.
Proof. solve_decision. Defined.

Module IdempotencyKey.

Definition MAX_CHARS : N := 180.

Definition new (raw : rstring) : result IdempotencyKey rstring :=
  match check_trimmed_len raw MAX_CHARS with
  | Ok trimmed => Ok (mk_IdempotencyKey trimmed)
  | Err violation => Err (TrimmedLenViolation.reason violation (str "idempotency_key"))
  end.

Definition new_bounded (raw : rstring) (max : N) (hint : rstring) : result IdempotencyKey rstring :=
  match check_trimmed_len raw (N.min max MAX_CHARS) with
  | Ok trimmed => Ok (mk_IdempotencyKey trimmed)
  | Err violation =>
      Err (TrimmedLenViolation.reason violation (str "idempotency_key") ++ str " " ++ hint)
  end.

(** [now_v7] is the UUID drawn. *)
Definition generated `{UuidText} (now_v7 : Uuid) (prefix : rstring) : IdempotencyKey :=
  mk_IdempotencyKey (prefix ++ str ":" ++ hyphenated now_v7).

Definition optional_or_generated `{UuidText} (now_v7 : Uuid) (prefix : rstring) (raw : option rstring) :
    result IdempotencyKey rstring :=
  match raw with
  | None => Ok (generated now_v7 prefix)
  | Some raw => new raw
  end.

Definition child (self : IdempotencyKey) (prefix : rstring) (index : N) : result IdempotencyKey rstring :=
  new (prefix ++ str ":" ++ IdempotencyKey_0 self ++ str ":" ++ display_u64 index).

Definition as_str (self : IdempotencyKey) : rstring := IdempotencyKey_0 self.

End IdempotencyKey.

Definition normalize_idempotency_key (key : option rstring) : result (option rstring) McpToolError :=
  match key with
  | None => Ok None
  | Some raw =>
      let? key := map_err InvalidInput (IdempotencyKey.new raw) in Ok (Some (IdempotencyKey.as_str key))
  end.

(** ** Key spaces *)

Inductive KeyScope :=
| ScopeNote
| ScopeUtterance
| ScopeAbstraction
| ScopePerspective
| ScopeGoalAbstraction (goal : GoalHandle) (subject : UserId)
| ScopeGoalPerspective (goal : GoalHandle) (subject : UserId).

Module KeyScope.

Definition as_str (self : KeyScope) : rstring :=
  match self with
  | ScopeNote => str "note"
  | ScopeUtterance => str "utterance"
  | ScopeAbstraction => str "abstraction"
  | ScopePerspective => str "perspective"
  | ScopeGoalAbstraction _ _ => str "goal/abstraction"
  | ScopeGoalPerspective _ _ => str "goal/perspective"
  end.

Definition ledger_source `{UuidText} (self : KeyScope) : rstring :=
  match self with
  | ScopeGoalAbstraction goal subject | ScopeGoalPerspective goal subject =>
      str "core/key/" ++ as_str self ++ str "/" ++ hyphenated (GoalHandle_0 goal)
      ++ str "/" ++ hyphenated (UserId_0 subject)
  | ScopeNote | ScopeUtterance | ScopeAbstraction | ScopePerspective => str "core/key/" ++ as_str self
  end.

End KeyScope.

(** ** Fingerprints *)

Definition FINGERPRINT_DOMAIN : list N := bytes (str "proxiima-request-v1").

Abbreviation ContentFingerprint := (list N).

(** The bytes the hasher has been fed. *)
Record ContentFingerprintBuilder := mk_Builder { fed : list N }.

Module ContentFingerprintBuilder.

Definition update (self : ContentFingerprintBuilder) (l : list N) : ContentFingerprintBuilder :=
  mk_Builder (fed self ++ l).

Definition new (scope : KeyScope) : ContentFingerprintBuilder :=
  mk_Builder (FINGERPRINT_DOMAIN ++ [0] ++ bytes (KeyScope.as_str scope)).

Definition tag (self : ContentFingerprintBuilder) (name : list N) : ContentFingerprintBuilder :=
  update self ([0] ++ len_be name ++ name).

Definition present (self : ContentFingerprintBuilder) (field : rstring) : ContentFingerprintBuilder :=
  update (tag self (bytes field)) [1].
Definition absent (self : ContentFingerprintBuilder) (field : rstring) : ContentFingerprintBuilder :=
  update (tag self (bytes field)) [0].

Definition bytes_field (self : ContentFingerprintBuilder) (field : rstring) (value : list N) :
    ContentFingerprintBuilder :=
  update (present self field) (len_be value ++ value).

Definition text (self : ContentFingerprintBuilder) (field value : rstring) : ContentFingerprintBuilder :=
  bytes_field self field (bytes (trim value)).

Definition absent_text := absent.
Definition absent_bytes := absent.
Definition absent_uuid_set := absent.

Definition schema_payload `{JsonPrinter} (self : ContentFingerprintBuilder) (field schema_id : rstring)
    (schema_version : N) (payload : Json) : ContentFingerprintBuilder :=
  bytes_field self field
    (len_be (bytes schema_id) ++ bytes schema_id ++ to_be_bytes 4 schema_version ++ canonical_json_bytes payload).

Definition uuid_set (self : ContentFingerprintBuilder) (field : rstring) (ids : list Uuid) :
    ContentFingerprintBuilder :=
  let ids := dedup (sort_by N.leb ids) in
  update (present self field) (len_be ids ++ (ids ≫= uuid_as_bytes)).

Definition tags (self : ContentFingerprintBuilder) (tags : list rstring) : ContentFingerprintBuilder :=
  let tags := filter (fun t => is_empty t = false) ((fun t => to_ascii_lowercase (trim t)) <$> tags) in
  let tags := dedup (sort_by str_leb tags) in
  update (present self (str "tags")) (len_be tags ++ (tags ≫= fun t => len_be (bytes t) ++ bytes t)).

Definition build `{Digest} (self : ContentFingerprintBuilder) : ContentFingerprint := blake3 (fed self).

End ContentFingerprintBuilder.

(** ** Keyed requests *)

Record RequestKey := mk_RequestKey {
  rk_scope : KeyScope;
  rk_key : IdempotencyKey;
  rk_fingerprint : ContentFingerprint;
}.

Module RequestKey.
Section RequestKey.
Context `{Digest}.

Definition request_row_key (self : RequestKey) : rstring :=
  str "r:" ++ hex_encode (blake3 (bytes (IdempotencyKey.as_str (rk_key self)))).

Definition fingerprint_row_key (self : RequestKey) : rstring :=
  let key := bytes (IdempotencyKey.as_str (rk_key self)) in
  str "f:" ++ hex_encode (blake3 (len_be key ++ key ++ rk_fingerprint self)).

End RequestKey.
End RequestKey.

Inductive KeyVerdict (H : Type) :=
| Fresh
| Replay (handle : H).
Arguments Fresh {H}.
Arguments Replay {H} handle.

Record KeyConflict := mk_KeyConflict { kc_key : rstring; kc_existing : Uuid }.

(** Types that name the existing handle in a conflict. *)
Class ExistingHandle (H : Type) := as_existing_uuid : H -> Uuid.

#[export] Instance existing_uuid : ExistingHandle Uuid := fun id => id.
#[export] Instance existing_memory : ExistingHandle MemoryId := MemoryId_0.
#[export] Instance existing_goal : ExistingHandle GoalId := GoalId_0.

Definition judge {H} `{ExistingHandle H} (stored : option (H * bool)) (key : IdempotencyKey) :
    result (KeyVerdict H) KeyConflict :=
  match stored with
  | None => Ok Fresh
  | Some (handle, true) => Ok (Replay handle)
  | Some (handle, false) => Err (mk_KeyConflict (IdempotencyKey.as_str key) (as_existing_uuid handle))
  end.

(** ** The memory tools' fingerprints *)

Definition parse_wire_uuid `{UuidText} (raw : rstring) : result Uuid McpToolError :=
  if negb (len raw =? 36) then Err (InvalidInput (str "id must be a hyphenated UUID"))
  else ok_or (try_parse raw) (InvalidInput (str "id must be a hyphenated UUID")).

Record RememberCitation := mk_RememberCitation {
  cited_object_id : option rstring;
  object_schema_id : option rstring;
  object_schema_version : option N;
  object_payload : option Json;
}.

Record AuthoredDerivation := mk_AuthoredDerivation {
  authored_title : rstring;
  authored_body : rstring;
  authored_model_id : rstring;
  authored_tags : list rstring;
  authored_idempotency_key : option rstring;
}.

Inductive DerivedKind := DerivedAbstraction | DerivedPerspective.

Section tools.
Context `{Digest, JsonPrinter, UuidText}.
Import ContentFingerprintBuilder.

Definition fingerprint_citation (fp : ContentFingerprintBuilder) (citation : RememberCitation) :
    result ContentFingerprintBuilder McpToolError :=
  match cited_object_id citation with
  | Some id => let? uuid := parse_wire_uuid id in Ok (bytes_field fp (str "citation") (uuid_as_bytes uuid))
  | None =>
      Ok (schema_payload fp (str "citation") (default [] (object_schema_id citation))
            (default 0 (object_schema_version citation)) (default JNull (object_payload citation)))
  end.

Definition supersedes_field (fp : ContentFingerprintBuilder) (supersedes_id : option Uuid) :
    ContentFingerprintBuilder :=
  match supersedes_id with
  | Some id => uuid_set fp (str "supersedes") [id]
  | None => absent_uuid_set fp (str "supersedes")
  end.

(** The fingerprint [prepare_note_write] keys a note by. *)
Definition note_fingerprint (title body : rstring) (note_tags : list rstring) (citation : option RememberCitation)
    (supersedes_id : option Uuid) : result ContentFingerprintBuilder McpToolError :=
  let fp := tags (text (text (new ScopeNote) (str "title") title) (str "body") body) note_tags in
  let? fp := match citation with
             | None => Ok (absent_bytes fp (str "citation"))
             | Some citation => fingerprint_citation fp citation
             end in
  Ok (supersedes_field fp supersedes_id).

(** The fingerprint of a recorded utterance. *)
Definition utterance_fingerprint (body speaker conversation_id : rstring) : ContentFingerprintBuilder :=
  tags (text (bytes_field (text (new ScopeUtterance) (str "body") body) (str "speaker") (bytes speaker))
    (str "conversation_id") conversation_id) [].

(** First occurrences, in order. *)
Definition distinct {A} `{EqDecision A} (l : list A) : list A :=
  fold_left (fun ids x => if slice_contains x ids then ids else ids ++ [x]) l [].

Definition ordered_goal_ids (guided_by : list GoalId) : list N :=
  let ids := distinct guided_by in
  len_be ids ++ (ids ≫= fun goal => uuid_as_bytes (GoalId_0 goal)).

Definition fingerprint_derivation (scope : KeyScope) (authored : AuthoredDerivation) (origins : list MemoryId)
    (external_origins : list Uuid) (supersedes_id : option Uuid) (guided_by : list GoalId) :
    ContentFingerprintBuilder :=
  let fp := text (text (new scope) (str "title") (authored_title authored)) (str "body") (authored_body authored) in
  let fp := bytes_field (tags fp (authored_tags authored)) (str "kind") (bytes (KeyScope.as_str scope)) in
  let fp := uuid_set (uuid_set fp (str "origins") (MemoryId_0 <$> origins)) (str "external_origins") external_origins in
  let fp := supersedes_field fp supersedes_id in
  let fp := if is_empty guided_by then absent_uuid_set fp (str "guided_by")
            else bytes_field fp (str "guided_by") (ordered_goal_ids guided_by) in
  absent_uuid_set fp (str "references").

Definition derive_request_key (kind : DerivedKind) (authored : AuthoredDerivation) (origins : list MemoryId)
    (external_origins : list Uuid) (supersedes_id : option Uuid) (guided_by : list GoalId) :
    result RequestKey McpToolError :=
  let scope := match kind with DerivedAbstraction => ScopeAbstraction | DerivedPerspective => ScopePerspective end in
  let fp := build (fingerprint_derivation scope authored origins external_origins supersedes_id guided_by) in
  let key := default (hex_encode fp) (authored_idempotency_key authored) in
  let? key := map_err InvalidInput (IdempotencyKey.new key) in
  Ok (mk_RequestKey scope key fp).

(** [fork_request_key]: a Goal's working copy, or one in the owner's space.
    [None] is [unreachable!]: a Fact is not forked. *)
Definition fork_scope (destination : option GoalHandle) (subject : UserId) (kind : option DerivedKind) :
    option KeyScope :=
  match destination, kind with
  | Some goal, Some DerivedAbstraction => Some (ScopeGoalAbstraction goal subject)
  | Some goal, Some DerivedPerspective => Some (ScopeGoalPerspective goal subject)
  | None, Some DerivedAbstraction => Some ScopeAbstraction
  | None, Some DerivedPerspective => Some ScopePerspective
  | _, None => None
  end.

Definition fork_fingerprint (key_scope : KeyScope) (source : MemoryId) (target_owner : OwnerId)
    (destination : option GoalHandle) : ContentFingerprintBuilder :=
  let destination_goal := match destination with None => [] | Some goal => [GoalHandle_0 goal] end in
  uuid_set (uuid_set (uuid_set (text (new key_scope) (str "operation") (str "fork"))
    (str "source") [MemoryId_0 source]) (str "destination_owner") [OwnerId_0 target_owner])
    (str "destination_goal") destination_goal.

Definition fork_request_key (request_id : IdempotencyKey) (source : MemoryId) (target_owner : OwnerId)
    (destination : option GoalHandle) (subject : UserId) (kind : option DerivedKind) : option RequestKey :=
  let* key_scope := fork_scope destination subject kind in
  Some (mk_RequestKey key_scope request_id (build (fork_fingerprint key_scope source target_owner destination))).

End tools.
