(* ===== verification/Fingerprint.v ===== *)
(** * What a fingerprint identifies

    The bytes a content fingerprint is taken of, as named fields, and that they
    determine the content: names and values are length-prefixed, an absent
    field differs from an empty one, and sets are written in one order.  The
    fields of [crates/core/src/mcp/core_tools/memory/] are read back from
    them. *)

From S2P Require Import Prelude Utf8 Ids Bytes Text Json CanonicalJson Publication Errors MemoryUuid Idempotency.

#[local] Open Scope N_scope.

(** ** Fields *)

Inductive Content :=
| CAbsent
| CBytes (value : list N)
| CSet (ids : list Uuid)
| CTags (tags : list rstring).

Abbreviation Field := (rstring * Content)%type.

Definition encode_content (c : Content) : list N :=
  match c with
  | CAbsent => [0]
  | CBytes value => 1 :: len_be value ++ value
  | CSet ids => 1 :: len_be ids ++ (ids ≫= uuid_as_bytes)
  | CTags tags => 1 :: len_be tags ++ (tags ≫= fun t => len_be (bytes t) ++ bytes t)
  end.

Definition encode_field (f : Field) : list N :=
  [0] ++ (len_be (bytes f.1) ++ bytes f.1) ++ encode_content f.2.

(** What the builder has been fed, field by field. *)
Definition preimage (scope : KeyScope) (fields : list Field) : list N :=
  FINGERPRINT_DOMAIN ++ [0] ++ bytes (KeyScope.as_str scope) ++ (fields ≫= encode_field).

(** Sizes a length fits 64 bits for, and values that are what their types say. *)
Definition fits {A} (l : list A) : Prop := N.of_nat (length l) < 2 ^ 64.
Definition text_ok (s : rstring) : Prop := Forall scalar s /\ fits (bytes s).
Definition content_ok (c : Content) : Prop :=
  match c with
  | CAbsent => True
  | CBytes value => fits value
  | CSet ids => fits ids /\ Forall (fun id => id < 2 ^ 128) ids
  | CTags tags => fits tags /\ Forall text_ok tags
  end.
Definition field_ok (f : Field) : Prop := text_ok f.1 /\ content_ok f.2.

(** A literal of the source. *)
Lemma literal_ok s : forallb (fun c => c <? 128) s && (N.of_nat (length s) <? 2 ^ 64) = true -> text_ok s.
Proof.
  intros [Hs Hl%N.ltb_lt]%andb_prop.
  assert (Forall (fun c => c < 128) s) as Ha.
  { apply list.Forall_forall. intros c Hc%list_elem_of_In. apply N.ltb_lt. by apply (proj1 (forallb_forall _ _) Hs). }
  split; [|unfold fits; by rewrite bytes_ascii]. eapply Forall_impl; [|exact Ha]. unfold scalar. cbn. lia.
Qed.

(** At one place, a field of one name has one kind of value. *)
Definition compatible (c c' : Content) : Prop :=
  match c, c' with
  | CAbsent, _ | _, CAbsent | CBytes _, CBytes _ | CSet _, CSet _ | CTags _, CTags _ => True
  | _, _ => False
  end.
Definition agree (fields fields' : list Field) : Prop :=
  forall i n c c', fields !! i = Some (n, c) -> fields' !! i = Some (n, c') -> compatible c c'.

Lemma CBytes_inj l l' : CBytes l = CBytes l' -> l = l'.
Proof. by injection 1. Qed.

Lemma cons_ends {A} (x : A) l k : x :: l = x :: k -> l = k.
Proof. by injection 1. Qed.

Lemma app_ends {A} (a b r r' : list A) : length a = length b -> a ++ r = b ++ r' -> a = b /\ r = r'.
Proof. intros. by apply app_inj_1. Qed.

Lemma len_be_ends {A} (l k : list A) r r' :
  fits l -> fits k -> len_be l ++ r = len_be k ++ r' -> length l = length k /\ r = r'.
Proof.
  unfold len_be, fits. intros Hl Hk [E ->]%app_ends; [|by rewrite !to_be_bytes_length].
  apply to_be_bytes_inj in E; [split; [lia|done]|done..].
Qed.

Lemma sized_ends (l k : list N) r r' :
  fits l -> fits k -> (len_be l ++ l) ++ r = (len_be k ++ k) ++ r' -> l = k /\ r = r'.
Proof.
  intros Hl Hk E. rewrite <-!app_assoc in E. apply len_be_ends in E as [Hlen E]; [|done..]. by apply app_ends in E.
Qed.

Lemma bind_ends {A} (f : A -> list N) (l k : list A) r r' :
  length l = length k ->
  (forall x y s s', x ∈ l -> y ∈ k -> f x ++ s = f y ++ s' -> x = y /\ s = s') ->
  (l ≫= f) ++ r = (k ≫= f) ++ r' -> l = k /\ r = r'.
Proof.
  revert k. induction l as [|x l IH]; intros [|y k] Hlen Hf E; try discriminate Hlen; [done|].
  cbn in E. rewrite <-!app_assoc in E. apply Hf in E as [-> E]; [|set_solver..].
  destruct (IH k) as [-> ->]; [by injection Hlen| |done|done].
  intros x' y' s s' Hx Hy. apply Hf; set_solver.
Qed.

Lemma content_ends c c' r r' :
  compatible c c' -> content_ok c -> content_ok c' -> encode_content c ++ r = encode_content c' ++ r' ->
  c = c' /\ r = r'.
Proof.
  destruct c as [|l|l|l], c' as [|k|k|k]; cbn [compatible content_ok encode_content]; intros Hc Hl Hk E; try done;
    cbn [app] in E; apply cons_ends in E; [by subst| | |].
  - by apply sized_ends in E as [-> ->].
  - rewrite <-!app_assoc in E. destruct Hl as [Hl Hlid], Hk as [Hk Hkid].
    apply len_be_ends in E as [Hlen E]; [|done..].
    apply bind_ends in E as [-> ->]; [done|done|]. intros x y s s' Hx Hy Hxy.
    apply app_ends in Hxy as [Hxy ->]; [|unfold uuid_as_bytes; by rewrite !to_be_bytes_length].
    apply to_be_bytes_inj in Hxy; [done| |]; revert Hx Hy; rewrite list.Forall_forall in Hlid, Hkid; auto.
  - rewrite <-!app_assoc in E. destruct Hl as [Hl Hlt], Hk as [Hk Hkt].
    apply len_be_ends in E as [Hlen E]; [|done..].
    apply bind_ends in E as [-> ->]; [done|done|]. intros x y s s' Hx Hy Hxy.
    apply (proj1 (list.Forall_forall _ _) Hlt) in Hx as [? ?]. apply (proj1 (list.Forall_forall _ _) Hkt) in Hy as [? ?].
    apply sized_ends in Hxy as [Hxy ->]; [|done..]. by apply bytes_inj in Hxy.
Qed.

Lemma fields_inj fs fs' :
  agree fs fs' -> Forall field_ok fs -> Forall field_ok fs' -> fs ≫= encode_field = fs' ≫= encode_field -> fs = fs'.
Proof.
  intros Hag Hfs. revert fs' Hag. induction Hfs as [|[n c] fs [Hn Hc] _ IH]; intros fs' Hag Hfs' E;
    destruct Hfs' as [|[n' c'] fs' [Hn' Hc'] Hfs']; try done.
  cbn [mbind list_bind] in E. unfold encode_field in E at 1 3. cbn [app fst snd] in *. apply cons_ends in E. rewrite <-(app_assoc (len_be (bytes n) ++ _)) in E.
  rewrite <-(app_assoc (len_be (bytes n') ++ _)) in E.
  apply sized_ends in E as [E Ec]; [|apply Hn|apply Hn'].
  apply bytes_inj in E as ->; [|apply Hn|apply Hn'].
  apply content_ends in Ec as [-> E]; [|by apply (Hag 0%nat n' c c')|done|done].
  f_equal. apply IH; [|done|done]. intros i. apply (Hag (S i)).
Qed.

Lemma agree_Forall2 fs fs' : Forall2 (fun f f' => compatible f.2 f'.2) fs fs' -> agree fs fs'.
Proof. intros H i n c c' Hi Hi'. by apply (Forall2_lookup_lr _ _ _ _ _ _ H Hi) in Hi'. Qed.

(** The text of a scope holds no zero byte. *)
Lemma scope_no_zero scope : Forall (fun b => negb (b =? 0) = true) (bytes (KeyScope.as_str scope)).
Proof. destruct scope; repeat constructor. Qed.

Lemma preimage_inj scope scope' fs fs' :
  agree fs fs' -> Forall field_ok fs -> Forall field_ok fs' ->
  preimage scope fs = preimage scope' fs' <-> KeyScope.as_str scope = KeyScope.as_str scope' /\ fs = fs'.
Proof.
  intros Hag Hfs Hfs'. split; [|intros [E ->]; unfold preimage; by rewrite E].
  unfold preimage. intros E%app_inv_head%app_inv_head.
  assert (forall l : list Field, match l ≫= encode_field with [] => True | c :: _ => negb (c =? 0) = false end) as Hz
    by (intros [|f l]; done).
  apply (span_ends (fun b => negb (b =? 0))) in E as [E Ef]; [|apply scope_no_zero..|apply Hz|apply Hz].
  split; [|by apply fields_inj]. destruct scope, scope'; done || discriminate E.
Qed.

(** ** Builders as fields *)

Definition tag_names (tags : list rstring) : list rstring :=
  filter (fun t => is_empty t = false) ((fun t => to_ascii_lowercase (trim t)) <$> tags).
Definition set_of (ids : list Uuid) : list Uuid := dedup (sort_by N.leb ids).
Definition names_of (tags : list rstring) : list rstring := dedup (sort_by str_leb (tag_names tags)).

Section builders.
Import ContentFingerprintBuilder.

Lemma fed_new scope : fed (new scope) = preimage scope [].
Proof. unfold new, preimage. cbn [fed]. by rewrite app_nil_r. Qed.

Definition builds (b : ContentFingerprintBuilder) (scope : KeyScope) (fs : list Field) : Prop :=
  fed b = preimage scope fs.

Lemma builds_field b b' scope fs f :
  builds b scope fs -> fed b' = fed b ++ encode_field f -> builds b' scope (fs ++ [f]).
Proof.
  unfold builds. intros Hb ->. rewrite Hb. unfold preimage. rewrite bind_app.
  change ([f] ≫= encode_field) with (encode_field f ++ []). by rewrite app_nil_r, <-!app_assoc.
Qed.

Lemma builds_new scope : builds (new scope) scope [].
Proof. apply fed_new. Qed.
Lemma builds_absent b scope fs n : builds b scope fs -> builds (absent b n) scope (fs ++ [(n, CAbsent)]).
Proof. intros H. eapply builds_field; [exact H|]. cbn. by rewrite <-!app_assoc. Qed.
Lemma builds_bytes b scope fs n v : builds b scope fs -> builds (bytes_field b n v) scope (fs ++ [(n, CBytes v)]).
Proof. intros H. eapply builds_field; [exact H|]. unfold encode_field. cbn. by rewrite <-!app_assoc. Qed.
Lemma builds_set b scope fs n ids : builds b scope fs -> builds (uuid_set b n ids) scope (fs ++ [(n, CSet (set_of ids))]).
Proof. intros H. eapply builds_field; [exact H|]. unfold encode_field. cbn. by rewrite <-!app_assoc. Qed.
Lemma builds_tags b scope fs ts : builds b scope fs -> builds (tags b ts) scope (fs ++ [(str "tags", CTags (names_of ts))]).
Proof. intros H. eapply builds_field; [exact H|]. unfold encode_field. cbn. by rewrite <-!app_assoc. Qed.
End builders.

(** ** Sets in one order *)

Lemma dedup_cons {A} `{EqDecision A} (x y : A) rest :
  dedup (x :: y :: rest) = if bool_decide (x = y) then dedup (y :: rest) else x :: dedup (y :: rest).
Proof. reflexivity. Qed.

Lemma elem_of_dedup {A} `{EqDecision A} (x : A) l : x ∈ dedup l <-> x ∈ l.
Proof.
  induction l as [|y [|z l] IH]; [done|done|]. rewrite dedup_cons, elem_of_cons, <-IH.
  case_bool_decide as E; [|by rewrite elem_of_cons]. subst. rewrite IH. set_solver.
Qed.

Lemma elem_of_distinct {A} `{EqDecision A} (l : list A) x : x ∈ distinct l <-> x ∈ l.
Proof.
  unfold distinct. enough (forall acc, x ∈ fold_left (fun ids y => if slice_contains y ids then ids else ids ++ [y]) l acc
    <-> x ∈ acc \/ x ∈ l) as -> by set_solver.
  induction l as [|y l IH]; intros acc; cbn [fold_left]; [set_solver|]. rewrite IH, elem_of_cons.
  destruct (slice_contains y acc) eqn:E; [|set_solver]. apply slice_contains_true in E. set_solver.
Qed.

Section sets.
Context {A : Type} `{EqDecision A} (leb : A -> A -> bool) (ok : A -> Prop).
Context (leb_total : forall a b, leb a b = true \/ leb b a = true).
Context (leb_trans : forall a b c, leb a b = true -> leb b c = true -> leb a c = true).
Context (leb_antisym : forall a b, ok a -> ok b -> leb a b = true -> leb b a = true -> a = b).

Lemma dedup_sorted_NoDup l :
  Forall ok l -> StronglySorted (fun a b => leb a b = true) l ->
  StronglySorted (fun a b => leb a b = true) (dedup l) /\ NoDup (dedup l).
Proof.
  intros Hok Hs. induction l as [|y [|z l] IH]; [repeat constructor|by repeat constructor; set_solver|].
  apply list.Forall_cons in Hok as [Hy Hok]. inversion Hs as [|? ? Hs' Hyz]; subst.
  destruct (IH Hok Hs') as [IHs IHn]. rewrite dedup_cons. case_bool_decide as E; [done|].
  split; constructor; [done| |intros Hin|done].
  - apply list.Forall_forall. intros x. rewrite elem_of_dedup. by apply (proj1 (list.Forall_forall _ _) Hyz).
  - rewrite elem_of_dedup in Hin. apply elem_of_cons in Hin as [->|Hl]; [done|]. apply list.Forall_cons in Hyz as [Hyz _].
    inversion Hs' as [|? ? _ Hz]; subst. rewrite list.Forall_forall in Hz. specialize (Hz y Hl).
    apply list.Forall_cons in Hok as [Hzok _]. by destruct E; apply leb_antisym.
Qed.

(** Sorted and deduplicated, a list is the set of its elements. *)
Lemma sorted_set_eq l k :
  Forall ok l -> Forall ok k ->
  dedup (sort_by leb l) = dedup (sort_by leb k) <-> (forall x, x ∈ l <-> x ∈ k).
Proof.
  intros Hl Hk. split.
  - intros E x. by rewrite <-(sort_by_elem_of leb x l), <-elem_of_dedup, E, elem_of_dedup, sort_by_elem_of.
  - intros Hx.
    destruct (dedup_sorted_NoDup (sort_by leb l)) as [Sl Nl];
      [by rewrite sort_by_Permutation|by apply sort_by_StronglySorted|].
    destruct (dedup_sorted_NoDup (sort_by leb k)) as [Sk Nk];
      [by rewrite sort_by_Permutation|by apply sort_by_StronglySorted|].
    eapply StronglySorted_unique_strong; [|exact Sl|exact Sk|].
    + intros x y. rewrite !elem_of_dedup, !sort_by_elem_of. rewrite list.Forall_forall in Hl, Hk. auto.
    + apply NoDup_Permutation; [done..|]. intros x. by rewrite !elem_of_dedup, !sort_by_elem_of.
Qed.
End sets.

Lemma set_of_eq ids ids' : set_of ids = set_of ids' <-> (forall id, id ∈ ids <-> id ∈ ids').
Proof.
  apply (sorted_set_eq N.leb (fun _ => True));
    [intros a b; rewrite !N.leb_le; lia|intros a b c; rewrite !N.leb_le; lia|intros a b _ _; rewrite !N.leb_le; lia
    |by apply Forall_true..].
Qed.

Lemma names_of_eq ts ts' :
  Forall (Forall scalar) (tag_names ts) -> Forall (Forall scalar) (tag_names ts') ->
  names_of ts = names_of ts' <-> (forall t, t ∈ tag_names ts <-> t ∈ tag_names ts').
Proof.
  apply (sorted_set_eq str_leb (Forall scalar)); [apply str_leb_total|apply str_leb_trans|apply str_leb_antisym].
Qed.

(** ** Notes *)

Record NoteRequest := mk_NoteRequest {
  note_title : rstring;
  note_body : rstring;
  note_tags : list rstring;
  note_citation : option RememberCitation;
  note_supersedes : option Uuid;
}.

Definition same_elements {A} (l k : list A) : Prop := forall x, x ∈ l <-> x ∈ k.

Section notes.
Context `{DigestLaws, JsonPrinterLaws, UuidText}.

(** The bytes of a citation. *)
Definition citation_bytes (c : RememberCitation) : result (list N) McpToolError :=
  match cited_object_id c with
  | Some id => let? uuid := parse_wire_uuid id in Ok (uuid_as_bytes uuid)
  | None =>
      let schema := bytes (default [] (object_schema_id c)) in
      Ok (len_be schema ++ schema ++ to_be_bytes 4 (default 0 (object_schema_version c))
          ++ canonical_json_bytes (default JNull (object_payload c)))
  end.

(** A cited object's id carries a version, as every UUID does. *)
Definition citation_ok (c : RememberCitation) : Prop :=
  match cited_object_id c with
  | Some id => forall uuid, parse_wire_uuid id = Ok uuid -> uuid < 2 ^ 128 /\ uuid_version uuid <> 0
  | None =>
      text_ok (default [] (object_schema_id c)) /\ default 0 (object_schema_version c) < 2 ^ 32 /\
      json_ok (default JNull (object_payload c)) /\ (forall l, citation_bytes c = Ok l -> fits l)
  end.

Definition same_citation (c c' : RememberCitation) : Prop :=
  match cited_object_id c, cited_object_id c' with
  | Some id, Some id' => parse_wire_uuid id = parse_wire_uuid id'
  | None, None =>
      default [] (object_schema_id c) = default [] (object_schema_id c') /\
      default 0 (object_schema_version c) = default 0 (object_schema_version c') /\
      normalize (default JNull (object_payload c)) = normalize (default JNull (object_payload c'))
  | _, _ => False
  end.

Lemma uuid_not_inline uuid schema rest :
  uuid < 2 ^ 128 -> uuid_version uuid <> 0 -> fits (bytes schema) ->
  uuid_as_bytes uuid <> len_be (bytes schema) ++ bytes schema ++ to_be_bytes 4 rest.1 ++ rest.2.
Proof.
  intros Hu Hv Hfit E. apply uuid_high in Hu as Hhigh.
  assert (N.of_nat (length (bytes schema)) <= 4) as Hlen.
  { apply (f_equal length) in E. unfold uuid_as_bytes, len_be in E.
    rewrite !length_app, !to_be_bytes_length in E. lia. }
  assert (uuid / 2 ^ 64 = N.of_nat (length (bytes schema))); [|lia].
  rewrite <-(from_to_be_bytes 16 uuid Hu) at 1. fold (uuid_as_bytes uuid).
  pose proof (to_be_bytes_ok 16 uuid) as Hok. pose proof (to_be_bytes_length 16 uuid) as Hl.
  fold (uuid_as_bytes uuid) in Hok, Hl.
  rewrite E in *. rewrite from_be_bytes_app. set (low := bytes schema ++ _) in *.
  unfold len_be in *. rewrite length_app, to_be_bytes_length in Hl. assert (length low = 8%nat) as Hlow by lia.
  apply list.Forall_app in Hok as [_ Hok]. apply from_be_bytes_bound in Hok. rewrite Hlow in *.
  change (256 ^ N.of_nat 8) with (2 ^ 64) in *.
  rewrite N.div_add_l, N.div_small, from_to_be_bytes by done. lia.
Qed.

Lemma citation_bytes_inj c c' l l' :
  citation_ok c -> citation_ok c' -> citation_bytes c = Ok l -> citation_bytes c' = Ok l' ->
  l = l' <-> same_citation c c'.
Proof.
  unfold citation_ok, same_citation. intros Hc Hc' E E'.
  unfold citation_bytes in E, E'.
  destruct (cited_object_id c) as [id|], (cited_object_id c') as [id'|].
  - destruct (parse_wire_uuid id) as [u|], (parse_wire_uuid id') as [u'|]; try discriminate.
    apply Ok_inj in E as <-. apply Ok_inj in E' as <-. destruct (Hc u eq_refl) as [Hu _], (Hc' u' eq_refl) as [Hu' _].
    split; [|by intros [= ->]]. intros Eu. f_equal. apply (to_be_bytes_inj 16) in Eu; done.
  - destruct (parse_wire_uuid id) as [u|]; [|discriminate]. apply Ok_inj in E as <-. apply Ok_inj in E' as <-.
    destruct (Hc u eq_refl) as [Hu Hv]. split; [|done]. intros Eu. exfalso. revert Eu.
    apply (uuid_not_inline u _ (_, _) Hu Hv), (proj1 Hc').
  - destruct (parse_wire_uuid id') as [u|]; [|discriminate]. apply Ok_inj in E as <-. apply Ok_inj in E' as <-.
    destruct (Hc' u eq_refl) as [Hu Hv]. split; [|done]. intros Eu. exfalso. symmetry in Eu. revert Eu.
    apply (uuid_not_inline u _ (_, _) Hu Hv), (proj1 Hc).
  - apply Ok_inj in E as <-. apply Ok_inj in E' as <-.
    destruct Hc as ([Hs Hsf] & Hv & Hj & _), Hc' as ([Hs' Hsf'] & Hv' & Hj' & _).
    rewrite <-(canonical_bytes_eq _ _ Hj Hj'). split; [|by intros (-> & -> & ->)].
    intros E. rewrite !app_assoc in E. rewrite <-!(app_assoc (len_be _ ++ _)) in E.
    apply sized_ends in E as [E1 E]; [|done..]. apply bytes_inj in E1; [|done..].
    apply app_ends in E as [E2 E]; [|by rewrite !to_be_bytes_length]. apply (to_be_bytes_inj 4) in E2; done.
Qed.

Definition supersedes_content (supersedes : option Uuid) : Content :=
  match supersedes with Some id => CSet (set_of [id]) | None => CAbsent end.

Lemma builds_supersedes b scope fs s :
  builds b scope fs -> builds (supersedes_field b s) scope (fs ++ [(str "supersedes", supersedes_content s)]).
Proof. intros Hb. destruct s; [by apply builds_set|by apply builds_absent]. Qed.

Definition note_fields (n : NoteRequest) (citation : Content) : list Field :=
  [(str "title", CBytes (bytes (trim (note_title n)))); (str "body", CBytes (bytes (trim (note_body n))));
   (str "tags", CTags (names_of (note_tags n))); (str "citation", citation);
   (str "supersedes", supersedes_content (note_supersedes n))].

Definition note_builder (n : NoteRequest) : result ContentFingerprintBuilder McpToolError :=
  note_fingerprint (note_title n) (note_body n) (note_tags n) (note_citation n) (note_supersedes n).

(** What a note's citation adds. *)
Definition cites (n : NoteRequest) (c : Content) : Prop :=
  match note_citation n with
  | None => c = CAbsent
  | Some citation => exists l, citation_bytes citation = Ok l /\ c = CBytes l
  end.

Lemma note_builder_fields n b :
  note_builder n = Ok b -> exists c, cites n c /\ builds b ScopeNote (note_fields n c).
Proof.
  unfold note_builder, note_fingerprint, cites. set (fp := ContentFingerprintBuilder.tags _ _).
  assert (builds fp ScopeNote (take 3 (note_fields n CAbsent))) as Hfp.
  { unfold fp, ContentFingerprintBuilder.text.
    apply (builds_tags _ _ [_; _]), (builds_bytes _ _ [_]), (builds_bytes _ _ []), builds_new. }
  clearbody fp. intros E. destruct (note_citation n) as [citation|].
  - unfold fingerprint_citation in E. unfold citation_bytes.
    destruct (cited_object_id citation) as [id|].
    + destruct (parse_wire_uuid id) as [uuid|]; [|discriminate E]. injection E as <-.
      exists (CBytes (uuid_as_bytes uuid)). split; [by eexists|]. apply (builds_supersedes _ _ [_; _; _; _]).
      by apply (builds_bytes _ _ [_; _; _]).
    + injection E as <-. eexists (CBytes _). split; [by eexists|]. apply (builds_supersedes _ _ [_; _; _; _]).
      by apply (builds_bytes _ _ [_; _; _]).
  - injection E as <-. exists CAbsent. split; [done|]. apply (builds_supersedes _ _ [_; _; _; _]).
    by apply (builds_absent _ _ [_; _; _]).
Qed.

Definition supersedes_ok (s : option Uuid) : Prop := forall id, s = Some id -> id < 2 ^ 128.
Definition tags_ok (tags : list rstring) : Prop := fits (names_of tags) /\ Forall text_ok (tag_names tags).

Definition note_ok (n : NoteRequest) : Prop :=
  text_ok (trim (note_title n)) /\ text_ok (trim (note_body n)) /\ tags_ok (note_tags n) /\
  (forall c, note_citation n = Some c -> citation_ok c) /\ supersedes_ok (note_supersedes n).

(** The same note: its title and body trimmed, its tags as a set of folded
    names, what it cites and what it supersedes. *)
Definition same_note (n n' : NoteRequest) : Prop :=
  trim (note_title n) = trim (note_title n') /\ trim (note_body n) = trim (note_body n') /\
  same_elements (tag_names (note_tags n)) (tag_names (note_tags n')) /\
  match note_citation n, note_citation n' with
  | None, None => True
  | Some c, Some c' => same_citation c c'
  | _, _ => False
  end /\
  note_supersedes n = note_supersedes n'.

Lemma set_ok ids : fits (set_of ids) -> Forall (fun id => id < 2 ^ 128) ids -> content_ok (CSet (set_of ids)).
Proof.
  intros Hf Hids. split; [done|]. apply list.Forall_forall. intros id. unfold set_of.
  rewrite elem_of_dedup, sort_by_elem_of. exact (Forall_elem _ _ _ Hids).
Qed.

Lemma supersedes_content_ok s : supersedes_ok s -> content_ok (supersedes_content s).
Proof.
  destruct s as [id|]; [|done]. intros Hs. apply set_ok; [done|]. apply Forall_singleton. by apply Hs.
Qed.

Lemma supersedes_content_inj s s' : supersedes_content s = supersedes_content s' <-> s = s'.
Proof. destruct s, s'; cbn; split; congruence. Qed.

Lemma tags_content_ok ts : tags_ok ts -> content_ok (CTags (names_of ts)).
Proof.
  intros [Hf Hts]. split; [done|]. apply list.Forall_forall. intros t. unfold names_of.
  rewrite elem_of_dedup, sort_by_elem_of. exact (Forall_elem _ _ _ Hts).
Qed.

Lemma tags_content_inj ts ts' :
  tags_ok ts -> tags_ok ts' -> names_of ts = names_of ts' <-> same_elements (tag_names ts) (tag_names ts').
Proof. intros [_ H1'] [_ H2']. apply names_of_eq; (eapply Forall_impl; [|eassumption]); by intros t [? _]. Qed.

Lemma text_content_inj s s' : text_ok (trim s) -> text_ok (trim s') -> CBytes (bytes (trim s)) = CBytes (bytes (trim s')) <-> trim s = trim s'.
Proof. intros [Hs _] [Hs' _]. split; [intros [= E]; by apply bytes_inj|by intros ->]. Qed.

Lemma cites_ok n c : note_ok n -> cites n c -> content_ok c.
Proof.
  intros (_ & _ & _ & Hc & _). unfold cites. destruct (note_citation n) as [citation|]; [|by intros ->].
  intros (l & El & ->). specialize (Hc citation eq_refl). cbn. unfold citation_ok in Hc.
  destruct (cited_object_id citation) as [id|] eqn:Eid; [|by apply Hc].
  unfold citation_bytes in El. rewrite Eid in El. destruct (parse_wire_uuid id); [|discriminate El].
  apply Ok_inj in El as <-. unfold fits, uuid_as_bytes. by rewrite to_be_bytes_length.
Qed.

Lemma cites_inj n n' c c' :
  note_ok n -> note_ok n' -> cites n c -> cites n' c' ->
  c = c' <-> match note_citation n, note_citation n' with
             | None, None => True
             | Some a, Some b => same_citation a b
             | _, _ => False
             end.
Proof.
  intros (_ & _ & _ & Hc & _) (_ & _ & _ & Hc' & _). unfold cites.
  destruct (note_citation n) as [a|], (note_citation n') as [b|].
  - intros (l & El & ->) (l' & El' & ->). rewrite <-(citation_bytes_inj a b l l') by auto. split; congruence.
  - intros (l & _ & ->) ->. split; done.
  - intros -> (l & _ & ->). split; done.
  - by intros -> ->.
Qed.

Lemma cites_compatible n n' c c' : cites n c -> cites n' c' -> compatible c c'.
Proof.
  unfold cites. intros Hc Hc'.
  destruct (note_citation n); [destruct Hc as (l & _ & ->)|subst c]; (destruct (note_citation n');
    [destruct Hc' as (l' & _ & ->)|subst c']); done.
Qed.

Lemma note_fields_agree n n' c c' : cites n c -> cites n' c' -> agree (note_fields n c) (note_fields n' c').
Proof.
  intros Hc Hc'. apply agree_Forall2. repeat constructor; cbn; try done.
  - by apply (cites_compatible n n').
  - by destruct (note_supersedes n), (note_supersedes n').
Qed.

Lemma note_fields_ok n c : note_ok n -> cites n c -> Forall field_ok (note_fields n c).
Proof.
  intros Hn Hc. pose proof (cites_ok n c Hn Hc). destruct Hn as ([_ Ht] & [_ Hb] & Hts & _ & Hs).
  repeat first [apply Forall_cons_2; [split; [by apply literal_ok|cbn [snd]]|]|apply Forall_nil_2];
    auto using tags_content_ok, supersedes_content_ok.
Qed.

(** Two keyed notes have the same fingerprint exactly when they are the
    same note: an absent citation or predecessor differs from every present
    one, tags are compared as a set of folded names, and an inline citation by
    its schema, version and payload up to member order; BLAKE3 does not collide
    on the two. *)
Theorem note_fingerprint_identifies (n n' : NoteRequest) (b b' : ContentFingerprintBuilder)
    (Hn : note_ok n) (Hn' : note_ok n') (E : note_builder n = Ok b) (E' : note_builder n' = Ok b')
    (Hno : blake3 (fed b) = blake3 (fed b') -> fed b = fed b') :
  ContentFingerprintBuilder.build b = ContentFingerprintBuilder.build b' <-> same_note n n'.
Proof.
  apply note_builder_fields in E as (c & Hc & Hb), E' as (c' & Hc' & Hb').
  unfold ContentFingerprintBuilder.build. transitivity (fed b = fed b'); [split; [exact Hno|by intros ->]|].
  rewrite Hb, Hb'. rewrite preimage_inj by auto using note_fields_ok, note_fields_agree.
  pose proof Hn as (Ht & Hbd & Hts & _ & _). pose proof Hn' as (Ht' & Hbd' & Hts' & _ & _).
  unfold same_note. rewrite <-(text_content_inj (note_title n)), <-(text_content_inj (note_body n)) by done.
  rewrite <-tags_content_inj, <-(cites_inj n n' c c'), <-supersedes_content_inj by done.
  unfold note_fields. split; [|by intros (-> & -> & -> & -> & ->)]. intros [_ Ef].
  apply (f_equal (fmap snd)) in Ef. cbn [fmap list_fmap snd] in Ef. injection Ef as E1 E2 E3 E4 E5.
  split_and!; congruence.
Qed.

(** ** Derivations *)

Record DerivationRequest := mk_DerivationRequest {
  d_kind : DerivedKind;
  d_authored : AuthoredDerivation;
  d_origins : list MemoryId;
  d_external_origins : list Uuid;
  d_supersedes : option Uuid;
  d_guided_by : list GoalId;
}.

Definition derived_scope (kind : DerivedKind) : KeyScope :=
  match kind with DerivedAbstraction => ScopeAbstraction | DerivedPerspective => ScopePerspective end.

Definition derivation_builder (d : DerivationRequest) : ContentFingerprintBuilder :=
  fingerprint_derivation (derived_scope (d_kind d)) (d_authored d) (d_origins d) (d_external_origins d)
    (d_supersedes d) (d_guided_by d).

Definition guidance_content (guided_by : list GoalId) : Content :=
  if is_empty guided_by then CAbsent else CBytes (ordered_goal_ids guided_by).

Definition derivation_fields (d : DerivationRequest) : list Field :=
  [(str "title", CBytes (bytes (trim (authored_title (d_authored d)))));
   (str "body", CBytes (bytes (trim (authored_body (d_authored d)))));
   (str "tags", CTags (names_of (authored_tags (d_authored d))));
   (str "kind", CBytes (bytes (KeyScope.as_str (derived_scope (d_kind d)))));
   (str "origins", CSet (set_of (MemoryId_0 <$> d_origins d)));
   (str "external_origins", CSet (set_of (d_external_origins d)));
   (str "supersedes", supersedes_content (d_supersedes d));
   (str "guided_by", guidance_content (d_guided_by d)); (str "references", CAbsent)].

Lemma derivation_builder_fields d : builds (derivation_builder d) (derived_scope (d_kind d)) (derivation_fields d).
Proof.
  unfold derivation_builder, fingerprint_derivation, ContentFingerprintBuilder.text. cbv zeta.
  apply (builds_absent _ _ [_; _; _; _; _; _; _; _]).
  assert (forall b scope fs, builds b scope fs ->
    builds (if is_empty (d_guided_by d) then ContentFingerprintBuilder.absent_uuid_set b (str "guided_by")
            else ContentFingerprintBuilder.bytes_field b (str "guided_by") (ordered_goal_ids (d_guided_by d)))
      scope (fs ++ [(str "guided_by", guidance_content (d_guided_by d))])) as Hg.
  { intros b scope fs Hb. unfold guidance_content. destruct (is_empty _); [by apply builds_absent|by apply builds_bytes]. }
  apply (Hg _ _ [_; _; _; _; _; _; _]), (builds_supersedes _ _ [_; _; _; _; _; _]), (builds_set _ _ [_; _; _; _; _]),
    (builds_set _ _ [_; _; _; _]), (builds_bytes _ _ [_; _; _]), (builds_tags _ _ [_; _]), (builds_bytes _ _ [_]),
    (builds_bytes _ _ []), builds_new.
Qed.

Definition derivation_ok (d : DerivationRequest) : Prop :=
  text_ok (trim (authored_title (d_authored d))) /\ text_ok (trim (authored_body (d_authored d))) /\
  tags_ok (authored_tags (d_authored d)) /\
  fits (set_of (MemoryId_0 <$> d_origins d)) /\ Forall (fun id => id < 2 ^ 128) (MemoryId_0 <$> d_origins d) /\
  fits (set_of (d_external_origins d)) /\ Forall (fun id => id < 2 ^ 128) (d_external_origins d) /\
  supersedes_ok (d_supersedes d) /\
  fits (ordered_goal_ids (d_guided_by d)) /\ Forall (fun g => GoalId_0 g < 2 ^ 128) (d_guided_by d).

(** The same derivation: guidance keeps its order, origins do not. *)
Definition same_derivation (d d' : DerivationRequest) : Prop :=
  d_kind d = d_kind d' /\
  trim (authored_title (d_authored d)) = trim (authored_title (d_authored d')) /\
  trim (authored_body (d_authored d)) = trim (authored_body (d_authored d')) /\
  same_elements (tag_names (authored_tags (d_authored d))) (tag_names (authored_tags (d_authored d'))) /\
  same_elements (MemoryId_0 <$> d_origins d) (MemoryId_0 <$> d_origins d') /\
  same_elements (d_external_origins d) (d_external_origins d') /\
  d_supersedes d = d_supersedes d' /\
  distinct (d_guided_by d) = distinct (d_guided_by d').

Lemma ordered_goal_ids_inj g g' :
  fits (ordered_goal_ids g) -> fits (ordered_goal_ids g') ->
  Forall (fun x => GoalId_0 x < 2 ^ 128) g -> Forall (fun x => GoalId_0 x < 2 ^ 128) g' ->
  ordered_goal_ids g = ordered_goal_ids g' -> distinct g = distinct g'.
Proof.
  assert (forall g, fits (ordered_goal_ids g) -> fits (distinct g)) as Hfit.
  { intros k. unfold fits, ordered_goal_ids. rewrite length_app.
    enough (length (distinct k) <= length (distinct k ≫= fun goal => uuid_as_bytes (GoalId_0 goal)))%nat by lia.
    induction (distinct k) as [|x l IH]; [done|]. cbn [mbind list_bind length]. rewrite length_app.
    unfold uuid_as_bytes at 1. rewrite to_be_bytes_length. lia. }
  intros Hf%Hfit Hf'%Hfit Hg Hg' E. unfold ordered_goal_ids in E. apply len_be_ends in E as [Hlen E]; [|done..].
  apply (f_equal (.++ [])) in E. apply bind_ends in E as [E _]; [done|done|].
  intros x y s s'. rewrite !elem_of_distinct. intros Hx Hy Exy.
  apply app_ends in Exy as [Exy ->]; [|unfold uuid_as_bytes; by rewrite !to_be_bytes_length]. split; [|done].
  apply (Forall_elem _ _ _ Hg) in Hx. apply (Forall_elem _ _ _ Hg') in Hy.
  apply (to_be_bytes_inj 16) in Exy; [|done..]. destruct x, y. cbn in Exy. by subst.
Qed.

Lemma guidance_content_inj g g' :
  fits (ordered_goal_ids g) -> fits (ordered_goal_ids g') ->
  Forall (fun x => GoalId_0 x < 2 ^ 128) g -> Forall (fun x => GoalId_0 x < 2 ^ 128) g' ->
  guidance_content g = guidance_content g' <-> distinct g = distinct g'.
Proof.
  intros Hf Hf' Hg Hg'.
  assert (forall (x : GoalId) l, distinct (x :: l) <> []) as Hne.
  { intros x l E. assert (x ∈ distinct (x :: l)) as Hx by (apply elem_of_distinct; left). rewrite E in Hx. set_solver. }
  destruct g as [|x g], g' as [|x' g']; unfold guidance_content; cbn [is_empty].
  - done.
  - split; [done|]. intros E. by destruct (Hne x' g' (eq_sym E)).
  - split; [done|]. intros E. by destruct (Hne x g E).
  - split; [intros E%CBytes_inj; by apply ordered_goal_ids_inj|]. intros E. unfold ordered_goal_ids. by rewrite E.
Qed.

Lemma derivation_fields_ok d : derivation_ok d -> Forall field_ok (derivation_fields d).
Proof.
  intros ([_ Ht] & [_ Hb] & Hts & Ho & Ho' & He & He' & Hs & Hg & _).
  repeat first [apply Forall_cons_2; [split; [by apply literal_ok|cbn [snd]]|]|apply Forall_nil_2];
    auto using tags_content_ok, supersedes_content_ok, set_ok.
  - by destruct (d_kind d).
  - unfold guidance_content. by destruct (is_empty _).
  - exact I.
Qed.

Lemma derivation_fields_agree d d' : agree (derivation_fields d) (derivation_fields d').
Proof.
  apply agree_Forall2. repeat constructor; cbn; try done.
  - by destruct (d_supersedes d), (d_supersedes d').
  - unfold guidance_content. by destruct (is_empty (d_guided_by d)), (is_empty (d_guided_by d')).
Qed.

(** C27. Two derived writes have the same fingerprint exactly when they say
    the same: kind, trimmed title and body, tags, local and external origins as
    sets, predecessor, and guidance in its order without repeats; BLAKE3 does
    not collide on the two. *)
Theorem derivation_fingerprint_identifies (d d' : DerivationRequest)
    (Hd : derivation_ok d) (Hd' : derivation_ok d')
    (Hno : blake3 (fed (derivation_builder d)) = blake3 (fed (derivation_builder d')) ->
           fed (derivation_builder d) = fed (derivation_builder d')) :
  ContentFingerprintBuilder.build (derivation_builder d) = ContentFingerprintBuilder.build (derivation_builder d')
  <-> same_derivation d d'.
Proof.
  unfold ContentFingerprintBuilder.build.
  transitivity (fed (derivation_builder d) = fed (derivation_builder d')); [split; [exact Hno|by intros ->]|].
  rewrite !derivation_builder_fields.
  rewrite preimage_inj by auto using derivation_fields_ok, derivation_fields_agree.
  pose proof Hd as (Ht & Hb & Hts & _ & _ & _ & _ & _ & Hf & Hg).
  pose proof Hd' as (Ht' & Hb' & Hts' & _ & _ & _ & _ & _ & Hf' & Hg').
  unfold same_derivation. rewrite <-(text_content_inj (authored_title _)), <-(text_content_inj (authored_body _)) by done.
  unfold same_elements at 2 3. rewrite <-tags_content_inj, <-!set_of_eq, <-supersedes_content_inj, <-guidance_content_inj by done.
  unfold derivation_fields. split; [|by intros (-> & -> & -> & -> & -> & -> & -> & ->)]. intros [Es Ef].
  apply (f_equal (fmap snd)) in Ef. cbn [fmap list_fmap snd] in Ef. injection Ef as E1 E2 E3 E4 E5 E6 E7 E8.
  split_and!; try congruence. destruct (d_kind d), (d_kind d'); done || discriminate Es.
Qed.
End notes.

(** ** Examples *)

Module SampleFingerprints.

#[export] Existing Instances SamplePrinter.printer SamplePrinter.printer_laws.

#[export] Instance digest : Digest := {| blake3 l := l; hex_encode l := l |}.
#[export] Instance digest_laws : DigestLaws.
Proof. constructor. done. Qed.
#[export] Instance uuids : UuidText := {| hyphenated := display_u64; try_parse _ := None |}.

Definition citation : RememberCitation :=
  mk_RememberCitation None (Some (str "core/web")) (Some 1) (Some (SamplePrinter.value false)).

(** One note, written twice with its tags in another order and case. *)
Definition note (tags : list rstring) : NoteRequest :=
  mk_NoteRequest (str " Title ") (str "Body") tags (Some citation) (Some 7).
Definition note_a : NoteRequest := note [str "Rust"; str " b "].
Definition note_b : NoteRequest := note [str "B"; str "rust"; str "rust"].

Definition built (n : NoteRequest) : ContentFingerprintBuilder := default (mk_Builder []) (ok (note_builder n)).

Lemma note_a_ok : note_ok note_a.
Proof.
  split_and!; try (by apply literal_ok).
  - split; [done|]. repeat constructor; try (unfold scalar; lia); done.
  - intros c [= <-]. split_and!; [by apply literal_ok|done| |].
    + split; [|repeat split; repeat constructor; unfold scalar; lia].
      unfold object_wf. apply (bool_decide_unpack _). vm_compute. exact I.
    + intros l El. vm_compute in El. apply Ok_inj in El as <-. done.
  - intros id [= <-]. done.
Qed.

Lemma note_b_ok : note_ok note_b.
Proof.
  destruct note_a_ok as (Ht & Hb & _ & Hc & Hs). split_and!; try done.
  split; [done|]. repeat constructor; try (unfold scalar; lia); done.
Qed.

Lemma note_fingerprint_identifies_witness :
  ContentFingerprintBuilder.build (built note_a) = ContentFingerprintBuilder.build (built note_b)
  <-> same_note note_a note_b.
Proof.
  apply (note_fingerprint_identifies note_a note_b);
    [apply note_a_ok|apply note_b_ok|vm_compute; reflexivity|vm_compute; reflexivity|intros E; exact E].
Defined.

Example notes_agree :
  ContentFingerprintBuilder.build (built note_a) = ContentFingerprintBuilder.build (built note_b) /\
  ContentFingerprintBuilder.build (built note_a) <> ContentFingerprintBuilder.build (built (note [])).
Proof. split; vm_compute; [reflexivity|discriminate]. Qed.

Definition derivation (origins : list MemoryId) : DerivationRequest :=
  mk_DerivationRequest DerivedAbstraction (mk_AuthoredDerivation (str "T") (str "B") (str "m") [str "x"] None)
    origins [] None [mk_GoalId 9; mk_GoalId 9].

Lemma derivation_sample_ok origins :
  Forall (fun id => id < 2 ^ 128) (MemoryId_0 <$> origins) -> fits (set_of (MemoryId_0 <$> origins)) ->
  derivation_ok (derivation origins).
Proof.
  intros Ho Hf. split_and!; try done; try (by apply literal_ok); try (by repeat constructor).
Qed.

Lemma derivation_fingerprint_identifies_witness :
  ContentFingerprintBuilder.build (derivation_builder (derivation [mk_MemoryId 1; mk_MemoryId 2]))
  = ContentFingerprintBuilder.build (derivation_builder (derivation [mk_MemoryId 2; mk_MemoryId 1]))
  <-> same_derivation (derivation [mk_MemoryId 1; mk_MemoryId 2]) (derivation [mk_MemoryId 2; mk_MemoryId 1]).
Proof.
  apply (derivation_fingerprint_identifies (derivation [mk_MemoryId 1; mk_MemoryId 2]) (derivation [mk_MemoryId 2; mk_MemoryId 1]));
    [apply derivation_sample_ok; [repeat constructor|done]|apply derivation_sample_ok; [repeat constructor|done]|intros E; exact E].
Defined.

End SampleFingerprints.
