(* ===== verification/MemoryStore.v ===== *)
(** * The memory tables

    The tables [owners], [ingest_keys], [memory_head], [memory] and
    [erased_pin_target] of [crates/storage-pg/migrations/], with the triggers of
    [definitions/functions.sql] and the row policies of [definitions/policies.sql].
    [goal] is its versions and their owners.  Columns only other components
    write ([publication_sequence], [authority_generation]) are left out, and no
    schema evolution is in progress, so its exceptions are false. *)

From S2P Require Import Prelude Ids GroupForest Publication Errors OwnerScope Authz Groups.

(** ** Tables *)

Inductive MemoryKind := FactMemory | AbstractionMemory | PerspectiveMemory.

#[export] Instance MemoryKind_eq_dec : EqDecision MemoryKind.
Proof. solve_decision. Defined.
#[export] Instance SchemaId_eq_dec : EqDecision SchemaId.
Proof. solve_decision. Defined.

Record HeadRow := mk_HeadRow {
  head_kind : MemoryKind;
  head_schema : SchemaId;
  head_owner : Uuid;
  head_t : Uuid;
}.

Record MemoryRow := mk_MemoryRow {
  row_handle : Uuid;
  row_kind : MemoryKind;
  row_owner : Uuid;
  row_schema : SchemaId;
  row_source_id : option rstring;
  row_ingest_key : option rstring;
  row_blob_id : option Uuid;
  row_content_id : option Uuid;
  row_origins : list Uuid;
  row_refs : list Uuid;
  row_goal_refs : list Uuid;
  row_guided_by : list Uuid;
  row_sidecar_tables : list rstring;
  row_occurred_at : option SystemTime;
  row_writer : WriterAttribution;
  row_forked_from : option Uuid;
  row_lexical_language : option rstring;
  row_forgotten_at : option SystemTime;
}.

Definition live (row : MemoryRow) : bool := negb (is_some (row_forgotten_at row)).

Definition set_forgotten_at (at_ : option SystemTime) (row : MemoryRow) : MemoryRow :=
  mk_MemoryRow (row_handle row) (row_kind row) (row_owner row) (row_schema row) (row_source_id row)
    (row_ingest_key row) (row_blob_id row) (row_content_id row) (row_origins row) (row_refs row)
    (row_goal_refs row) (row_guided_by row) (row_sidecar_tables row) (row_occurred_at row) (row_writer row)
    (row_forked_from row) (row_lexical_language row) at_.

(** [pin_target_kind]: a memory's kind, or a goal ([None]). *)
Abbreviation PinKind := (option MemoryKind).

Abbreviation IngestKey := (Uuid * rstring * rstring)%type.

Record MemoryDb := mk_MemoryDb {
  mem_groups : GroupDb;
  mem_keys : gmap IngestKey Uuid;
  mem_heads : gmap Uuid HeadRow;
  mem_rows : gmap Uuid MemoryRow;
  mem_goals : gmap Uuid Uuid;
  mem_erased : gmap Uuid PinKind;
  mem_closed : gset Uuid;
}.

Definition set_groups (x : GroupDb) (db : MemoryDb) : MemoryDb :=
  mk_MemoryDb x (mem_keys db) (mem_heads db) (mem_rows db) (mem_goals db) (mem_erased db) (mem_closed db).
Definition set_keys (x : gmap IngestKey Uuid) (db : MemoryDb) : MemoryDb :=
  mk_MemoryDb (mem_groups db) x (mem_heads db) (mem_rows db) (mem_goals db) (mem_erased db) (mem_closed db).
Definition set_heads (x : gmap Uuid HeadRow) (db : MemoryDb) : MemoryDb :=
  mk_MemoryDb (mem_groups db) (mem_keys db) x (mem_rows db) (mem_goals db) (mem_erased db) (mem_closed db).
Definition set_rows (x : gmap Uuid MemoryRow) (db : MemoryDb) : MemoryDb :=
  mk_MemoryDb (mem_groups db) (mem_keys db) (mem_heads db) x (mem_goals db) (mem_erased db) (mem_closed db).
Definition set_erased (x : gmap Uuid PinKind) (db : MemoryDb) : MemoryDb :=
  mk_MemoryDb (mem_groups db) (mem_keys db) (mem_heads db) (mem_rows db) (mem_goals db) x (mem_closed db).

(** ** Sessions and row policies *)

(** The settings the policies read.  [ms_goal_routes] is
    [goal_memory_read_admitted]: the versions a Goal's audience may read. *)
Record MemorySession := mk_MemorySession {
  ms_pg : PgSession;
  ms_read_abstraction : list Uuid;
  ms_read_perspective : list Uuid;
  ms_write_abstraction : list Uuid;
  ms_write_perspective : list Uuid;
  ms_goal_routes : Uuid -> bool;
}.

Definition kind_setting (s : MemorySession) (write : bool) (kind : MemoryKind) : list Uuid :=
  match kind, write with
  | FactMemory, false => app_owner (ms_pg s)
  | FactMemory, true => app_write_owner (ms_pg s)
  | AbstractionMemory, false => ms_read_abstraction s
  | AbstractionMemory, true => ms_write_abstraction s
  | PerspectiveMemory, false => ms_read_perspective s
  | PerspectiveMemory, true => ms_write_perspective s
  end.

(** The owner predicates of [memory] and [memory_head]. *)
Definition kind_read (s : MemorySession) (owner : Uuid) (kind : MemoryKind) : bool :=
  slice_contains owner (app_owner (ms_pg s)) && slice_contains owner (kind_setting s false kind).
Definition kind_write (s : MemorySession) (owner : Uuid) (kind : MemoryKind) : bool :=
  slice_contains owner (app_write_owner (ms_pg s)) && slice_contains owner (kind_setting s true kind).

(** A statement that writes passes [proxiima_owner_write] or
    [proxiima_platform]; one that only reads also [proxiima_owner_read]. *)
Definition head_writes (s : MemorySession) (owner : Uuid) (kind : MemoryKind) : bool :=
  app_platform (ms_pg s) || kind_write s owner kind.
Definition head_reads (s : MemorySession) (owner : Uuid) (kind : MemoryKind) : bool :=
  head_writes s owner kind || kind_read s owner kind.

(** [lifecycle]: the transaction runs in the lifecycle scope. *)
Definition memory_writes (s : MemorySession) (lifecycle : bool) (row : MemoryRow) : bool :=
  app_platform (ms_pg s) || kind_write s (row_owner row) (row_kind row) && (live row || lifecycle).
Definition memory_reads (s : MemorySession) (lifecycle : bool) (t : Uuid) (row : MemoryRow) : bool :=
  memory_writes s lifecycle row || kind_read s (row_owner row) (row_kind row) && (live row || lifecycle)
  || ms_goal_routes s t && live row.

Definition keys_write (s : MemorySession) (owner : Uuid) : bool := admits (ms_pg s) (app_write_owner (ms_pg s)) owner.
Definition keys_read (s : MemorySession) (owner : Uuid) : bool :=
  keys_write s owner || admits (ms_pg s) (app_owner (ms_pg s)) owner.

(** ** Reads *)

(** [SELECT t FROM memory_head WHERE handle = $1], and with [FOR UPDATE]. *)
Definition select_head (s : MemorySession) (handle : Uuid) (db : MemoryDb) : option Uuid :=
  let* head := mem_heads db !! handle in
  if head_reads s (head_owner head) (head_kind head) then Some (head_t head) else None.
Definition select_head_for_update (s : MemorySession) (handle : Uuid) (db : MemoryDb) : option Uuid :=
  let* head := mem_heads db !! handle in
  if head_writes s (head_owner head) (head_kind head) then Some (head_t head) else None.

(** The row of [memory] with this [t] that the session sees. *)
Definition select_memory (s : MemorySession) (lifecycle : bool) (t : Uuid) (db : MemoryDb) : option MemoryRow :=
  let* row := mem_rows db !! t in
  if memory_reads s lifecycle t row then Some row else None.

(** ... [AND owner_id = $2]. *)
Definition select_owned (s : MemorySession) (lifecycle : bool) (t owner : Uuid) (db : MemoryDb) : option MemoryRow :=
  let* row := select_memory s lifecycle t db in
  if (row_owner row =? owner)%N then Some row else None.

(** [SELECT t FROM ingest_keys WHERE ...]. *)
Definition select_key (s : MemorySession) (key : IngestKey) (db : MemoryDb) : option Uuid :=
  if keys_read s key.1.1 then mem_keys db !! key else None.

(** ** Statements with their triggers *)

(** [INSERT INTO ingest_keys ... ON CONFLICT DO NOTHING]; whether the row was
    inserted. *)
Definition insert_key (s : MemorySession) (key : IngestKey) (t : Uuid) (db : MemoryDb) :
    result (MemoryDb * bool) PgFault :=
  let? _ := require (keys_write s key.1.1) (RowPolicy (str "ingest_keys")) in
  match mem_keys db !! key with
  | Some _ => Ok (db, false)
  | None =>
      let? _ := require (is_some (db_owners (mem_groups db) !! key.1.1))
                  (ForeignKeyViolation (str "ingest_keys_owner_id_fkey")) in
      Ok (set_keys (<[key := t]> (mem_keys db)) db, true)
  end.

(** [INSERT INTO memory_head]. *)
Definition insert_head (s : MemorySession) (handle : Uuid) (head : HeadRow) (db : MemoryDb) :
    result MemoryDb PgFault :=
  let? _ := require (head_writes s (head_owner head) (head_kind head)) (RowPolicy (str "memory_head")) in
  let? _ := require (negb (is_some (mem_heads db !! handle))) (IdentityViolation (str "memory_head_pkey")) in
  let? _ := require (is_some (db_owners (mem_groups db) !! head_owner head))
              (ForeignKeyViolation (str "memory_head_owner_id_fkey")) in
  Ok (set_heads (<[handle := head]> (mem_heads db)) db).

Definition move_head (handle t : Uuid) (db : MemoryDb) : MemoryDb :=
  match mem_heads db !! handle with
  | Some head => set_heads (<[handle := mk_HeadRow (head_kind head) (head_schema head) (head_owner head) t]>
                              (mem_heads db)) db
  | None => db
  end.

(** [INSERT INTO memory_head ... ON CONFLICT (handle) DO UPDATE SET t = EXCLUDED.t
    WHERE ...]; whether it returned a row. *)
Definition upsert_head (s : MemorySession) (handle : Uuid) (head : HeadRow) (db : MemoryDb) :
    result (MemoryDb * bool) PgFault :=
  match mem_heads db !! handle with
  | None => let? db := insert_head s handle head db in Ok (db, true)
  | Some held =>
      let? _ := require (head_writes s (head_owner head) (head_kind head)) (RowPolicy (str "memory_head")) in
      let? _ := require (head_writes s (head_owner held) (head_kind held)) (RowPolicy (str "memory_head")) in
      if bool_decide (head_kind held = head_kind head) && bool_decide (head_schema held = head_schema head)
         && (head_owner held =? head_owner head)%N
      then Ok (move_head handle (head_t head) db, true)
      else Ok (db, false)
  end.

(** [memory_align_head]. *)
Definition memory_align_head (s : MemorySession) (row : MemoryRow) (db : MemoryDb) : result unit PgFault :=
  let aligned :=
    match mem_heads db !! row_handle row with
    | Some head =>
        head_reads s (head_owner head) (head_kind head) && bool_decide (head_kind head = row_kind row)
        && (head_owner head =? row_owner row)%N && bool_decide (head_schema head = row_schema row)
    | None => false
    end in
  require aligned (CheckViolation (str "memory kind/owner/schema must equal memory_head")).

(** [pins_have_grounding_support] of an insert. *)
Definition pins_have_grounding_support (pins : list Uuid) (db : MemoryDb) : bool :=
  existsb (fun pin => is_some (mem_rows db !! pin)) pins.

Definition pinned_kind (db : MemoryDb) (allowed : MemoryKind -> bool) (pin : Uuid) : bool :=
  is_some_and (mem_rows db !! pin) (fun row => allowed (row_kind row)).

(** The kinds an origin may have. *)
Definition origin_kinds (kind : MemoryKind) (origin : MemoryKind) : bool :=
  match kind, origin with
  | AbstractionMemory, (FactMemory | AbstractionMemory) => true
  | PerspectiveMemory, AbstractionMemory => true
  | FactMemory, _ => true
  | _, _ => false
  end.

(** [memory_pin_checks]. *)
Definition memory_pin_checks (t : Uuid) (row : MemoryRow) (db : MemoryDb) : result unit PgFault :=
  let pins := row_origins row ++ row_refs row in
  let unpinned := is_empty (row_origins row) && is_empty (row_refs row) && is_empty (row_goal_refs row)
                  && is_empty (row_guided_by row) in
  let is_fact := bool_decide (row_kind row = FactMemory) in
  let? _ := require (negb (is_some (mem_goals db !! t)) && negb (is_some (mem_erased db !! t)))
              (UniqueViolation (str "memory t is already a Goal or erased target")) in
  if is_fact && unpinned then Ok tt
  else
    let? _ := require (is_fact || pins_have_grounding_support pins db)
                (CheckViolation (str "non-fact must pin a memory")) in
    if unpinned then Ok tt
    else
      let? _ := require (forallb (fun pin => is_some (mem_rows db !! pin)) (row_origins row))
                  (ForeignKeyViolation (str "origin pin does not exist as a Memory")) in
      let? _ := require (forallb (fun pin => is_some (mem_rows db !! pin)) (row_refs row))
                  (ForeignKeyViolation (str "reference pin does not exist as a Memory")) in
      let? _ := require (forallb (fun pin => is_some (mem_goals db !! pin)) (row_goal_refs row))
                  (ForeignKeyViolation (str "goal reference pin does not exist as a Goal")) in
      let? _ := require (forallb (fun pin => is_some (mem_goals db !! pin)) (row_guided_by row))
                  (ForeignKeyViolation (str "guided_by pin does not exist as a Goal")) in
      let? _ := require (is_empty (row_guided_by row) || bool_decide (row_kind row = PerspectiveMemory))
                  (CheckViolation (str "only Perspectives may declare guided_by")) in
      let? _ := require (forallb (fun pin => is_some_and (mem_goals db !! pin) (N.eqb (row_owner row)))
                           (row_guided_by row))
                  (CheckViolation (str "guided_by target owner differs from Perspective owner")) in
      let? _ := require (forallb (fun pin => negb (is_some_and (mem_rows db !! pin)
                           (fun pinned => bool_decide (row_handle pinned ∈ mem_closed db)))) pins)
                  (CheckViolation (str "closed_handle: no new pin")) in
      require (is_fact || forallb (pinned_kind db (origin_kinds (row_kind row))) (row_origins row))
        (CheckViolation (str "origins must be of a lower layer")).

(** The CHECK constraints of [memory]. *)
Definition memory_checks (row : MemoryRow) : bool :=
  let is_fact := bool_decide (row_kind row = FactMemory) in
  (is_fact || is_some (row_content_id row))
  && (negb (is_some (row_blob_id row)) || negb (bool_decide (row_kind row = PerspectiveMemory)))
  && Bool.eqb is_fact (is_some (row_occurred_at row))
  && (negb is_fact || is_empty (row_origins row))
  && (if is_fact then Bool.eqb (is_some (row_source_id row)) (is_some (row_ingest_key row))
      else negb (is_some (row_source_id row)) && negb (is_some (row_ingest_key row))).

(** [INSERT INTO memory].  [elsewhere] is what the tables outside this model
    answer: the declared sidecars, the blob and content rows it refers to. *)
Definition insert_memory (elsewhere : MemoryRow -> result unit PgFault) (s : MemorySession) (t : Uuid)
    (row : MemoryRow) (db : MemoryDb) : result MemoryDb PgFault :=
  let? _ := memory_align_head s row db in
  let? _ := memory_pin_checks t row db in
  let? _ := require (memory_writes s false row) (RowPolicy (str "memory")) in
  let? _ := require (memory_checks row) (CheckViolation (str "memory")) in
  let? _ := require (negb (is_some (mem_rows db !! t))) (IdentityViolation (str "memory_t_key")) in
  let? _ := require (is_some (mem_heads db !! row_handle row)) (ForeignKeyViolation (str "memory_handle_fkey")) in
  let? _ := elsewhere row in
  Ok (set_rows (<[t := row]> (mem_rows db)) db).

(** [record_erased_pin_target]. *)
Definition record_erased_pin_target (target : Uuid) (kind : PinKind) (db : MemoryDb) : result MemoryDb PgFault :=
  match mem_erased db !! target with
  | Some existing =>
      if bool_decide (existing = kind) then Ok db
      else Err (UniqueViolation (str "erased pin target already records another kind"))
  | None => Ok (set_erased (<[target := kind]> (mem_erased db)) db)
  end.

(** [DELETE FROM memory WHERE t = $1 AND owner_id = $2], in the lifecycle scope,
    with [memory_erase_witness]. *)
Definition delete_memory (s : MemorySession) (t owner : Uuid) (db : MemoryDb) : result MemoryDb PgFault :=
  match mem_rows db !! t with
  | Some row =>
      if (row_owner row =? owner)%N && memory_writes s true row then
        let? db := record_erased_pin_target t (Some (row_kind row)) db in
        Ok (set_rows (delete t (mem_rows db)) db)
      else Ok db
  | None => Ok db
  end.

(** [DELETE FROM ingest_keys WHERE t = $1 AND owner_id = $2]. *)
Definition delete_keys (s : MemorySession) (t owner : Uuid) (db : MemoryDb) : MemoryDb :=
  set_keys (filter (fun kv : IngestKey * Uuid => ~ (kv.2 = t /\ kv.1.1.1 = owner /\ keys_write s owner = true))
              (mem_keys db)) db.
