(* ===== verification/Admission.v ===== *)
(** * Memory admission

    [crates/storage-pg/src/verbs/memory_timeseries.rs] and the request ledger of
    [crates/storage-pg/src/verbs/request_keys.rs]: how a write becomes a version
    of a series.  A transaction prepares on what it reads, takes its locks, and
    then checks, claims and inserts; [prepare_memory_admission_at] is the first
    part, [finish_admission] the second, and other transactions commit between
    them.  Advisory locks appear as that division.  What the transaction asks of
    components outside this model is in [AdmissionEnv]. *)

From S2P Require Import Prelude Utf8 Ids Bytes GroupForest Json CanonicalJson Publication Errors OwnerScope.
From S2P Require Import Authz Groups MemoryUuid Idempotency MemoryStore.

(** ** Commands *)

Inductive EntityKind := EntityFact | EntityAbstraction | EntityPerspective | EntityGoalKind.

Record EdgeEndpoint := mk_EdgeEndpoint {
  endpoint_kind : EntityKind;
  endpoint_entity : EntityId;
}.

Module EdgeEndpoint.

Definition entity_id (self : EdgeEndpoint) : Uuid :=
  match endpoint_entity self with EntityMemory id => MemoryId_0 id | EntityGoal id => GoalId_0 id end.

Definition memory_id (self : EdgeEndpoint) : option MemoryId :=
  match endpoint_entity self with EntityMemory id => Some id | EntityGoal _ => None end.

End EdgeEndpoint.

(** The fields of [FactWriteCommand] admission reads. *)
Record FactWriteCommand := mk_FactWriteCommand {
  cmd_schema_id : SchemaId;
  cmd_handle : option Uuid;
  cmd_source_id : option rstring;
  cmd_ingest_key : option rstring;
  cmd_payload : list N;
  cmd_rendered_text : option rstring;
  cmd_lexical_language : option rstring;
  cmd_occurred_at : option SystemTime;
  cmd_blob_id : option Uuid;
  cmd_kind : MemoryKind;
  cmd_request : option RequestKey;
}.

Definition set_cmd_ingest_key (x : option rstring) (c : FactWriteCommand) : FactWriteCommand :=
  mk_FactWriteCommand (cmd_schema_id c) (cmd_handle c) (cmd_source_id c) x (cmd_payload c) (cmd_rendered_text c)
    (cmd_lexical_language c) (cmd_occurred_at c) (cmd_blob_id c) (cmd_kind c) (cmd_request c).
Definition set_cmd_blob_id (x : option Uuid) (c : FactWriteCommand) : FactWriteCommand :=
  mk_FactWriteCommand (cmd_schema_id c) (cmd_handle c) (cmd_source_id c) (cmd_ingest_key c) (cmd_payload c)
    (cmd_rendered_text c) (cmd_lexical_language c) (cmd_occurred_at c) x (cmd_kind c) (cmd_request c).

Record FactIngestOutcome := mk_FactIngestOutcome {
  out_memory_id : MemoryId;
  out_handle : Uuid;
  out_idempotent_replay : bool;
  out_cited_object_id : option Uuid;
  out_forgotten : bool;
}.

Record ScopeFenceTarget := mk_ScopeFenceTarget { scope_kind : rstring; scope_id : Uuid }.

(** The key's table, column and values, which only the lookup reads, and what a
    replay of a displaced observation does. *)
Record MemoryNaturalKey := mk_MemoryNaturalKey {
  nk_sidecar_table : rstring;
  nk_memory_key_column : rstring;
  nk_snapshot : list (rstring * Json);
  nk_reobserve_displaced : bool;
}.

Record MemoryAdmissionDraft := mk_MemoryAdmissionDraft {
  ad_store_number : N;
  ad_natural_key : option MemoryNaturalKey;
  ad_owner : OwnerId;
  ad_writer : WriterAttribution;
  ad_draft : FactWriteCommand;
  ad_origins : list EdgeEndpoint;
  ad_references : list EdgeEndpoint;
  ad_sidecar_tables : list rstring;
  ad_scopes : list ScopeFenceTarget;
}.

Record PreparationOptions := mk_PreparationOptions {
  opt_identity : option (Uuid * Uuid);
  opt_extra_targets : list Uuid;
  opt_guided_by : list GoalId;
  opt_forked_from : option Uuid;
}.

Record PreparedMemoryAdmissionNew := mk_PreparedNew {
  prep_owner : OwnerId;
  prep_owner_id : Uuid;
  prep_writer : WriterAttribution;
  prep_draft : FactWriteCommand;
  prep_kind : MemoryKind;
  prep_origins : list Uuid;
  prep_refs : list Uuid;
  prep_goal_refs : list Uuid;
  prep_guided_by : list Uuid;
  prep_sidecar_tables : list rstring;
  prep_handle : Uuid;
  prep_fresh_handle : bool;
  prep_t : Uuid;
  prep_occurred_at : option SystemTime;
  prep_expected_head_t : option Uuid;
  prep_targets : list Uuid;
  prep_forked_from : option Uuid;
}.

Definition set_prep_draft (x : FactWriteCommand) (p : PreparedMemoryAdmissionNew) : PreparedMemoryAdmissionNew :=
  mk_PreparedNew (prep_owner p) (prep_owner_id p) (prep_writer p) x (prep_kind p) (prep_origins p) (prep_refs p)
    (prep_goal_refs p) (prep_guided_by p) (prep_sidecar_tables p) (prep_handle p) (prep_fresh_handle p) (prep_t p)
    (prep_occurred_at p) (prep_expected_head_t p) (prep_targets p) (prep_forked_from p).

Inductive PreparedMemoryAdmission :=
| PreparedReplay (outcome : FactIngestOutcome)
| PreparedNew (prepared : PreparedMemoryAdmissionNew).

(** The n-th draw of the clock and of randomness, whether a declared scope is
    registered for the owner, the series of a natural key, the content row of a
    text, and what the tables outside the model say of a row. *)
Record AdmissionEnv := mk_AdmissionEnv {
  env_draw : nat -> SystemTime * list N;
  env_registered : ScopeFenceTarget -> bool;
  env_owned_head_handle : OwnerId -> SchemaId -> MemoryNaturalKey -> option Uuid;
  env_ensure_text_content : Uuid -> MemoryKind -> SchemaId -> list N -> Uuid;
  env_elsewhere : MemoryRow -> result unit PgFault;
}.

(** ** Pins *)

(** [contains] then [push]. *)
Definition push_new (ids : list Uuid) (id : Uuid) : list Uuid :=
  if slice_contains id ids then ids else ids ++ [id].

Fixpoint pin_memory_ids_from (ids : list Uuid) (pins : list EdgeEndpoint) : result (list Uuid) StorageError :=
  match pins with
  | [] => Ok ids
  | pin :: pins =>
      match EdgeEndpoint.memory_id pin with
      | None => Err (ConstraintViolation (str "memory origins must target a Memory"))
      | Some memory_id => pin_memory_ids_from (push_new ids (MemoryId_0 memory_id)) pins
      end
  end.
Definition pin_memory_ids (pins : list EdgeEndpoint) : result (list Uuid) StorageError := pin_memory_ids_from [] pins.

Definition pin_reference_ids (pins : list EdgeEndpoint) : list Uuid * list Uuid :=
  fold_left (fun '(memory_ids, goal_ids) pin =>
    let id := EdgeEndpoint.entity_id pin in
    match endpoint_entity pin with
    | EntityGoal _ => (memory_ids, push_new goal_ids id)
    | EntityMemory _ => (push_new memory_ids id, goal_ids)
    end) pins ([], []).

Definition validated_admission_kind (draft : FactWriteCommand) : result MemoryKind StorageError :=
  if negb (Bool.eqb (is_some (cmd_source_id draft)) (is_some (cmd_ingest_key draft)))
  then Err (ConstraintViolation (str "source_id and ingest_key must both be set or both be absent"))
  else
    let kind := cmd_kind draft in
    let is_fact := bool_decide (kind = FactMemory) in
    if negb is_fact && (is_some (cmd_source_id draft) || is_some (cmd_ingest_key draft))
    then Err (ConstraintViolation (str "A/P cannot carry source_id/ingest_key"))
    else if negb is_fact && is_some (cmd_occurred_at draft)
    then Err (ConstraintViolation (str "A/P cannot carry occurred_at"))
    else Ok kind.

(** Origins a Fact declares are kept as references. *)
Definition fact_pins (kind : MemoryKind) (origins refs : list Uuid) : list Uuid * list Uuid :=
  if bool_decide (kind = FactMemory) then ([], fold_left push_new origins refs) else (origins, refs).

Section admission.
Context `{PgText, Digest, UuidText}.

(** ** The request ledger *)

Record RequestReplay := mk_RequestReplay {
  rr_memory_id : Uuid;
  rr_handle : Uuid;
  rr_forgotten : bool;
}.

#[local] Instance existing_request_replay : ExistingHandle RequestReplay := rr_memory_id.

Definition conflict_to_storage (conflict : KeyConflict) : StorageError :=
  StorageIdempotencyConflict (kc_key conflict) (Some (kc_existing conflict)).

Definition request_row (owner : OwnerId) (request : RequestKey) : IngestKey :=
  (OwnerId_0 owner, KeyScope.ledger_source (rk_scope request), RequestKey.request_row_key request).
Definition fingerprint_row (owner : OwnerId) (request : RequestKey) : IngestKey :=
  (OwnerId_0 owner, KeyScope.ledger_source (rk_scope request), RequestKey.fingerprint_row_key request).

Definition judge_request (s : MemorySession) (owner : OwnerId) (request : RequestKey) (db : MemoryDb) :
    result (KeyVerdict RequestReplay) StorageError :=
  match select_key s (request_row owner request) db with
  | None => map_err conflict_to_storage (judge None (rk_key request))
  | Some t =>
      match select_owned s true t (OwnerId_0 owner) db with
      | None => Err (StorageInternal (str "request key claims t " ++ hyphenated t ++ str " with no memory row"))
      | Some row =>
          let fingerprint_matches := bool_decide (select_key s (fingerprint_row owner request) db = Some t) in
          let replay := mk_RequestReplay t (row_handle row) (negb (live row)) in
          map_err conflict_to_storage (judge (Some (replay, fingerprint_matches)) (rk_key request))
      end
  end.

Definition claim_request (s : MemorySession) (owner : OwnerId) (request : RequestKey) (t : Uuid) (db : MemoryDb) :
    result (MemoryDb * KeyVerdict RequestReplay) StorageError :=
  let? (db, claimed) := pg_ok (insert_key s (request_row owner request) t db) in
  if claimed : bool then
    let? (db, _) := pg_ok (insert_key s (fingerprint_row owner request) t db) in
    Ok (db, Fresh)
  else let? verdict := judge_request s owner request db in Ok (db, verdict).

Definition replay_outcome (replay : RequestReplay) : FactIngestOutcome :=
  mk_FactIngestOutcome (mk_MemoryId (rr_memory_id replay)) (rr_handle replay) true None (rr_forgotten replay).

(** ** Replays of a source's key *)

Definition load_ingest_replay (s : MemorySession) (owner_id : Uuid) (source_id key : rstring)
    (refs goal_refs : list Uuid) (db : MemoryDb) : result (option FactIngestOutcome) StorageError :=
  match select_key s (owner_id, source_id, key) db with
  | None => Ok None
  | Some replay_t =>
      match select_owned s true replay_t owner_id db with
      | None => Err (StorageInternal (str "ingest key claims t " ++ hyphenated replay_t ++ str " with no memory row"))
      | Some row =>
          if negb (bool_decide (row_refs row = refs) && bool_decide (row_goal_refs row = goal_refs))
          then Err (ReplayChanged FactRefs)
          else Ok (Some (mk_FactIngestOutcome (mk_MemoryId replay_t) (row_handle row) true None (negb (live row))))
      end
  end.

Inductive ReplayDecision :=
| DecideAdmit
| DecideReplay (outcome : FactIngestOutcome)
| DecideReobserve (next_key : rstring).

Definition reobservation_key (key : rstring) (n : N) : rstring :=
  hex_encode (blake3 (bytes (str "proxiima-reobservation-v1") ++ len_be (bytes key) ++ bytes key ++ to_be_bytes 8 n)).

(** The latest admission is live, and its series has moved on. *)
Definition displaced (s : MemorySession) (owner_id : Uuid) (latest : FactIngestOutcome) (db : MemoryDb) : bool :=
  let t := MemoryId_0 (out_memory_id latest) in
  is_some_and (select_head s (out_handle latest) db) (fun head_t => negb (head_t =? t)%N)
  && is_some_and (select_owned s false t owner_id db) live.

(** [None] is the loop out of fuel, or past the last [u64]. *)
Fixpoint latest_observation (fuel : nat) (s : MemorySession) (owner_id : Uuid) (source_id key : rstring)
    (refs goal_refs : list Uuid) (db : MemoryDb) (latest : FactIngestOutcome) (n : N) :
    option (result ReplayDecision StorageError) :=
  match fuel with
  | O => None
  | S fuel =>
      let next_key := reobservation_key key n in
      match load_ingest_replay s owner_id source_id next_key refs goal_refs db with
      | Err e => Some (Err e)
      | Ok (Some outcome) =>
          if (n + 1 <? 2 ^ 64)%N
          then latest_observation fuel s owner_id source_id key refs goal_refs db outcome (n + 1)
          else None
      | Ok None =>
          Some (Ok (if displaced s owner_id latest db then DecideReobserve next_key else DecideReplay latest))
      end
  end.

(** Each turn finds another row of [ingest_keys]. *)
Definition observation_fuel (db : MemoryDb) : nat := S (size (mem_keys db)).

Definition replay_decision (s : MemorySession) (admission : MemoryAdmissionDraft) (owner_id : Uuid)
    (refs goal_refs : list Uuid) (db : MemoryDb) : option (result ReplayDecision StorageError) :=
  match cmd_source_id (ad_draft admission), cmd_ingest_key (ad_draft admission) with
  | Some source_id, Some key =>
      match load_ingest_replay s owner_id source_id key refs goal_refs db with
      | Err e => Some (Err e)
      | Ok None => Some (Ok DecideAdmit)
      | Ok (Some replay) =>
          if is_some_and (ad_natural_key admission) nk_reobserve_displaced
          then latest_observation (observation_fuel db) s owner_id source_id key refs goal_refs db replay 1
          else Some (Ok (DecideReplay replay))
      end
  | _, _ => Some (Ok DecideAdmit)
  end.

Definition decide_admission_replay (s : MemorySession) (admission : MemoryAdmissionDraft) (refs goal_refs : list Uuid)
    (db : MemoryDb) : option (result ReplayDecision StorageError) :=
  match cmd_request (ad_draft admission) with
  | Some request =>
      Some (let? verdict := judge_request s (ad_owner admission) request db in
            match verdict with
            | Replay replay => Ok (DecideReplay (replay_outcome replay))
            | Fresh => Ok DecideAdmit
            end)
  | None => replay_decision s admission (OwnerId_0 (ad_owner admission)) refs goal_refs db
  end.

(** ** Preparation *)

Fixpoint fence_declared_scopes (env : AdmissionEnv) (scopes : list ScopeFenceTarget) : result unit StorageError :=
  match scopes with
  | [] => Ok tt
  | scope :: scopes =>
      if env_registered env scope then fence_declared_scopes env scopes
      else Err (ScopeMissing (scope_kind scope) (scope_id scope))
  end.

(** A mint takes its draw. *)
Definition draw_memory_uuid (env : AdmissionEnv) (i : nat) (store_number : N) (g : Generator) :
    option (Uuid * Generator) :=
  let '(now, random) := env_draw env i in new_memory_uuid g now random store_number.

Definition admission_handle (env : AdmissionEnv) (admission : MemoryAdmissionDraft)
    (reserved : option (Uuid * Uuid)) (g : Generator) : option (Uuid * bool * Generator) :=
  match reserved, cmd_handle (ad_draft admission) with
  | Some (handle, _), _ => Some (handle, true, g)
  | None, Some handle => Some (handle, false, g)
  | None, None =>
      let series := let* key := ad_natural_key admission in
                    env_owned_head_handle env (ad_owner admission) (cmd_schema_id (ad_draft admission)) key in
      match series with
      | Some handle => Some (handle, false, g)
      | None => let* (handle, g) := draw_memory_uuid env 0 (ad_store_number admission) g in Some (handle, true, g)
      end
  end.

(** Outside the lifecycle scope. *)
Definition inherited_fork_source (s : MemorySession) (source prior : option Uuid) (db : MemoryDb) : option Uuid :=
  match source with
  | Some anchor => Some anchor
  | None => let* head := prior in let* row := select_memory s false head db in row_forked_from row
  end.

Definition admission_t (env : AdmissionEnv) (store_number : N) (identity : option (Uuid * Uuid))
    (expected_head_t : option Uuid) (g : Generator) : option (result Uuid StorageError * Generator) :=
  match identity, expected_head_t with
  | Some (_, t), _ => Some (Ok t, g)
  | None, Some head_t =>
      let '(now, random) := env_draw env 1 in
      let* (t, g) := new_memory_uuid_after g now random store_number head_t in
      Some (ok_or t (ConstraintViolation (str "memory UUID timestamp range exhausted")), g)
  | None, None => let* (t, g) := draw_memory_uuid env 1 store_number g in Some (Ok t, g)
  end.

(** What the fences and the owner row answer. *)
Definition admission_fences (env : AdmissionEnv) (s : MemorySession) (admission : MemoryAdmissionDraft)
    (db : MemoryDb) : result Uuid StorageError :=
  let? _ := fence_declared_scopes env (ad_scopes admission) in
  let? (_, owner_id) := ensure_owner_row (ms_pg s) (ad_owner admission) (mem_groups db) in
  Ok owner_id.

Definition to_list {A} (o : option A) : list A := match o with Some a => [a] | None => [] end.

(** [None] is a panic of the clock. *)
Definition prepare_new (env : AdmissionEnv) (s : MemorySession) (admission : MemoryAdmissionDraft)
    (options : PreparationOptions) (kind : MemoryKind) (origins refs goal_refs : list Uuid)
    (reobservation_key : option rstring) (owner_id : Uuid) (g : Generator) (db : MemoryDb) :
    option (result PreparedMemoryAdmission StorageError * Generator) :=
  let draft := ad_draft admission in
  let* (handle, fresh_handle, g) := admission_handle env admission (opt_identity options) g in
  let expected_head_t := select_head s handle db in
  let anchor := inherited_fork_source s (opt_forked_from options) expected_head_t db in
  let* (t, g) := admission_t env (ad_store_number admission) (opt_identity options) expected_head_t g in
  match t with
  | Err e => Some (Err e, g)
  | Ok t =>
      let occurred_at :=
        if bool_decide (kind = FactMemory)
        then Some (default (Z.of_N (created_at t)) (cmd_occurred_at draft)) else None in
      let guided_by := GoalId_0 <$> opt_guided_by options in
      let targets := [t] ++ to_list expected_head_t ++ origins ++ refs ++ goal_refs ++ opt_extra_targets options
                     ++ to_list anchor ++ guided_by in
      let draft := if is_some reobservation_key then set_cmd_ingest_key reobservation_key draft else draft in
      Some (Ok (PreparedNew (mk_PreparedNew (ad_owner admission) owner_id (ad_writer admission) draft kind origins
              refs goal_refs guided_by (ad_sidecar_tables admission) handle fresh_handle t occurred_at
              expected_head_t targets anchor)), g)
  end.

Definition prepare_memory_admission_at (env : AdmissionEnv) (s : MemorySession) (admission : MemoryAdmissionDraft)
    (options : PreparationOptions) (g : Generator) (db : MemoryDb) :
    option (result PreparedMemoryAdmission StorageError * Generator) :=
  match (let? kind := validated_admission_kind (ad_draft admission) in
         let? origins := pin_memory_ids (ad_origins admission) in
         Ok (kind, origins)) with
  | Err e => Some (Err e, g)
  | Ok (kind, origins) =>
      let '(refs, goal_refs) := pin_reference_ids (ad_references admission) in
      let '(origins, refs) := fact_pins kind origins refs in
      let* decision := decide_admission_replay s admission refs goal_refs db in
      match decision with
      | Err e => Some (Err e, g)
      | Ok (DecideReplay outcome) => Some (Ok (PreparedReplay outcome), g)
      | Ok decision =>
          let reobservation_key := match decision with DecideReobserve key => Some key | _ => None end in
          match admission_fences env s admission db with
          | Err e => Some (Err e, g)
          | Ok owner_id =>
              prepare_new env s admission options kind origins refs goal_refs reobservation_key owner_id g db
          end
      end
  end.

Definition prepare_memory_admission (env : AdmissionEnv) (s : MemorySession) (admission : MemoryAdmissionDraft) :=
  prepare_memory_admission_at env s admission (mk_PreparationOptions None [] [] None).

(** ** Under the locks *)

Definition validate_prepared_memory_head (s : MemorySession) (p : PreparedMemoryAdmissionNew) (db : MemoryDb) :
    result unit StorageError :=
  if bool_decide (select_head_for_update s (prep_handle p) db = prep_expected_head_t p) then Ok tt
  else Err (Retryable (str "memory series head changed while preparing admission")).

Definition lock_prepared_memory_admission (s : MemorySession) (prepared : PreparedMemoryAdmission) (db : MemoryDb) :
    result unit StorageError :=
  match prepared with PreparedNew p => validate_prepared_memory_head s p db | PreparedReplay _ => Ok tt end.

Definition claim_prepared_memory_admission (s : MemorySession) (prepared : PreparedMemoryAdmission) (db : MemoryDb) :
    result (MemoryDb * PreparedMemoryAdmission) StorageError :=
  match prepared with
  | PreparedReplay _ => Ok (db, prepared)
  | PreparedNew p =>
      match cmd_request (prep_draft p), cmd_source_id (prep_draft p), cmd_ingest_key (prep_draft p) with
      | Some request, _, _ =>
          let? (db, verdict) := claim_request s (prep_owner p) request (prep_t p) db in
          match verdict with
          | Fresh => Ok (db, PreparedNew p)
          | Replay replay => Ok (db, PreparedReplay (replay_outcome replay))
          end
      | None, Some source_id, Some key =>
          let? (db, claimed) := pg_ok (insert_key s (prep_owner_id p, source_id, key) (prep_t p) db) in
          if claimed : bool then Ok (db, PreparedNew p)
          else
            let? replay := load_ingest_replay s (prep_owner_id p) source_id key (prep_refs p) (prep_goal_refs p) db in
            let? replay := ok_or replay (StorageInternal (str "ingest key conflict had no replay row")) in
            Ok (db, PreparedReplay replay)
      | None, _, _ => Ok (db, PreparedNew p)
      end
  end.

Definition resolve_admission_content_id (env : AdmissionEnv) (p : PreparedMemoryAdmissionNew)
    (content_id : option Uuid) : option Uuid :=
  match content_id with
  | Some id => Some id
  | None =>
      if bool_decide (prep_kind p = FactMemory) then None
      else
        let draft := prep_draft p in
        let text := match cmd_rendered_text draft with Some text => bytes text | None => cmd_payload draft end in
        Some (env_ensure_text_content env (prep_owner_id p) (prep_kind p) (cmd_schema_id draft) text)
  end.

Definition advance_memory_head (s : MemorySession) (p : PreparedMemoryAdmissionNew) (db : MemoryDb) :
    result MemoryDb StorageError :=
  let head := mk_HeadRow (prep_kind p) (cmd_schema_id (prep_draft p)) (prep_owner_id p) (prep_t p) in
  if prep_fresh_handle p then pg_ok (insert_head s (prep_handle p) head db)
  else
    let? (db, returned) := pg_ok (upsert_head s (prep_handle p) head db) in
    if returned : bool then Ok db
    else Err (ConstraintViolation (str "memory_head kind/schema/owner mismatch")).

Definition LEXICAL_LANGUAGE_DEPLOYMENT_DEFAULT : rstring := str "@deployment".

Definition stamped_language (draft_language : option rstring) : option rstring :=
  let* language := draft_language in
  if bool_decide (language = LEXICAL_LANGUAGE_DEPLOYMENT_DEFAULT) then None else Some language.

Definition revision_row (p : PreparedMemoryAdmissionNew) (content_id : option Uuid) : MemoryRow :=
  let draft := prep_draft p in
  mk_MemoryRow (prep_handle p) (prep_kind p) (prep_owner_id p) (cmd_schema_id draft) (cmd_source_id draft)
    (cmd_ingest_key draft) (cmd_blob_id draft) content_id (prep_origins p) (prep_refs p) (prep_goal_refs p)
    (prep_guided_by p) (prep_sidecar_tables p) (prep_occurred_at p) (prep_writer p) (prep_forked_from p)
    (stamped_language (cmd_lexical_language draft)) None.

Definition insert_memory_revision (env : AdmissionEnv) (s : MemorySession) (p : PreparedMemoryAdmissionNew)
    (content_id : option Uuid) (db : MemoryDb) : result MemoryDb StorageError :=
  pg_ok (insert_memory (env_elsewhere env) s (prep_t p) (revision_row p content_id) db).

Definition materialize_prepared_memory_admission (env : AdmissionEnv) (s : MemorySession)
    (prepared : PreparedMemoryAdmission) (blob_id content_id : option Uuid) (db : MemoryDb) :
    result (MemoryDb * FactIngestOutcome) StorageError :=
  match prepared with
  | PreparedReplay outcome => Ok (db, outcome)
  | PreparedNew p =>
      let? _ := validate_prepared_memory_head s p db in
      let p := if is_some blob_id then set_prep_draft (set_cmd_blob_id blob_id (prep_draft p)) p else p in
      let content_id := resolve_admission_content_id env p content_id in
      let? db := advance_memory_head s p db in
      let? db := insert_memory_revision env s p content_id db in
      Ok (db, mk_FactIngestOutcome (mk_MemoryId (prep_t p)) (prep_handle p) false (cmd_blob_id (prep_draft p)) false)
  end.

(** The rest of the transaction on what is committed by then: its own owner row,
    the head under the locks, the keys, the row. *)
Definition finish_admission (env : AdmissionEnv) (s : MemorySession) (prepared : PreparedMemoryAdmission)
    (blob_id content_id : option Uuid) (db : MemoryDb) : result (MemoryDb * FactIngestOutcome) StorageError :=
  let? db := match prepared with
             | PreparedNew p =>
                 let? (groups, _) := ensure_owner_row (ms_pg s) (prep_owner p) (mem_groups db) in
                 Ok (set_groups groups db)
             | PreparedReplay _ => Ok db
             end in
  let? _ := lock_prepared_memory_admission s prepared db in
  let? (db, prepared) := claim_prepared_memory_admission s prepared db in
  materialize_prepared_memory_admission env s prepared blob_id content_id db.

End admission.
