(* ===== verification/MemoryLifecycle.v ===== *)
(** * Forget, restore, erase, transfer, and the steps of the store

    [crates/storage-pg/src/verbs/forget.rs]: a version is marked forgotten,
    restored or erased, and the head of its series moves.
    [crates/storage-pg/src/access/owner_columns.rs]: a series is transferred to
    another owner, and its keys are dropped.  A step of the store is one committed
    transaction of a process; admissions prepare in one step and finish in a later
    one.  The invariant of the tables holds in every reachable store. *)

From S2P Require Import Prelude Utf8 Ids Bytes GroupForest Json CanonicalJson Publication Errors OwnerScope.
From S2P Require Import Authz Groups MemoryUuid Idempotency MemoryStore Admission.

(** ** Operations *)

(** [ORDER BY (forgotten_at IS NULL) DESC, t DESC]: does [b] come before [a]? *)
Definition comes_first (b a : Uuid * MemoryRow) : bool :=
  match live b.2, live a.2 with
  | true, false => true
  | false, true => false
  | _, _ => (a.1 <? b.1)%N
  end.

Definition first_row (rows : list (Uuid * MemoryRow)) : option (Uuid * MemoryRow) :=
  foldr (fun a best => match best with
                       | None => Some a
                       | Some b => Some (if comes_first b a then b else a)
                       end) None rows.

Definition series_rows (s : MemorySession) (handle : Uuid) (db : MemoryDb) : list (Uuid * MemoryRow) :=
  filter (fun tr => row_handle tr.2 = handle /\ memory_reads s true tr.1 tr.2 = true) (map_to_list (mem_rows db)).

Definition sync_memory_head (s : MemorySession) (handle : Uuid) (db : MemoryDb) : MemoryDb :=
  match mem_heads db !! handle with
  | Some head =>
      if head_writes s (head_owner head) (head_kind head) then
        match first_row (series_rows s handle db) with
        | Some (t, _) => move_head handle t db
        | None => set_heads (delete handle (mem_heads db)) db
        end
      else db
  | None => db
  end.

Definition update_forgotten_at (t : Uuid) (at_ : option SystemTime) (db : MemoryDb) : MemoryDb :=
  set_rows (alter (set_forgotten_at at_) t (mem_rows db)) db.

(** The owner's row for [t], locked. *)
Definition lock_owned (s : MemorySession) (t owner : Uuid) (db : MemoryDb) : option MemoryRow :=
  let* row := select_owned s true t owner db in
  if memory_writes s true row then Some row else None.

Definition forget_in_lifecycle (now : SystemTime) (s : MemorySession) (t owner : Uuid)
    (kinds : option (list MemoryKind)) (db : MemoryDb) : result MemoryDb StorageError :=
  let? handle := ok_or (row_handle <$> select_owned s true t owner db) StorageNotFound in
  let? row := ok_or (let* row := lock_owned s t owner db in if live row then Some row else None) StorageNotFound in
  if negb (row_handle row =? handle)%N
     || is_some_and kinds (fun kinds => negb (slice_contains (row_kind row) kinds))
  then Err StorageNotFound
  else Ok (sync_memory_head s handle (update_forgotten_at t (Some now) db)).

(** [restorable] is [ensure_schema_restorable]. *)
Definition restore_in_lifecycle (restorable : SchemaId -> result unit StorageError) (s : MemorySession) (t owner : Uuid)
    (kinds : list MemoryKind) (db : MemoryDb) : result MemoryDb StorageError :=
  let? handle := ok_or (row_handle <$> select_owned s true t owner db) StorageNotFound in
  let? row := ok_or (lock_owned s t owner db) StorageNotFound in
  if negb (row_handle row =? handle)%N || negb (slice_contains (row_kind row) kinds) then Err StorageNotFound
  else
    let? _ := restorable (row_schema row) in
    if live row then Ok db
    else Ok (sync_memory_head s handle (update_forgotten_at t None db)).

Definition erase_memory_in_lifecycle `{PgText} (s : MemorySession) (t owner : Uuid) (db : MemoryDb) :
    result MemoryDb StorageError :=
  let? handle := ok_or (row_handle <$> select_owned s true t owner db) StorageNotFound in
  let? db := pg_ok (delete_memory s t owner db) in
  Ok (delete_keys s t owner (sync_memory_head s handle db)).

(** ** Transfer *)

(** What the tables and declarations outside this model answer a transfer: the
    headline of a schema's [NotTransferable], whether a Goal names one of these
    versions as a motivation, whether the uploads of a series are published, and
    what blob and content the versions of a series cite after
    [transfer_cited_blobs] and [transfer_content_for_handle]. *)
Record TransferEnv := mk_TransferEnv {
  te_untransferable : SchemaId -> option rstring;
  te_motivates : list Uuid -> bool;
  te_uploads_published : Uuid -> Uuid -> result unit StorageError;
  te_cited : Uuid -> Uuid -> Uuid -> result (Uuid -> MemoryRow -> option Uuid * option Uuid) StorageError;
}.

Definition set_row_owner (owner : Uuid) (row : MemoryRow) : MemoryRow :=
  mk_MemoryRow (row_handle row) (row_kind row) owner (row_schema row) (row_source_id row)
    (row_ingest_key row) (row_blob_id row) (row_content_id row) (row_origins row) (row_refs row)
    (row_goal_refs row) (row_guided_by row) (row_sidecar_tables row) (row_occurred_at row) (row_writer row)
    (row_forked_from row) (row_lexical_language row) (row_forgotten_at row).
Definition set_row_cited (cited : option Uuid * option Uuid) (row : MemoryRow) : MemoryRow :=
  mk_MemoryRow (row_handle row) (row_kind row) (row_owner row) (row_schema row) (row_source_id row)
    (row_ingest_key row) cited.1 cited.2 (row_origins row) (row_refs row)
    (row_goal_refs row) (row_guided_by row) (row_sidecar_tables row) (row_occurred_at row) (row_writer row)
    (row_forked_from row) (row_lexical_language row) (row_forgotten_at row).

(** [SERIES_TS_SQL]; its order serves the locks only. *)
Definition series_ts (handle owner : Uuid) (db : MemoryDb) : list Uuid :=
  (filter (fun tr => row_handle tr.2 = handle /\ row_owner tr.2 = owner) (map_to_list (mem_rows db))).*1.

(** A version of these that a Goal guides. *)
Definition guided (ts : list Uuid) (db : MemoryDb) : bool :=
  existsb (fun t => is_some_and (mem_rows db !! t) (fun row =>
             existsb (fun goal => is_some (mem_goals db !! goal)) (row_guided_by row))) ts.

(** The repointed citations of the series. *)
Definition remap_cited (handle : Uuid) (cited : Uuid -> MemoryRow -> option Uuid * option Uuid) (db : MemoryDb) : MemoryDb :=
  set_rows (map_imap (fun t row => Some (if (row_handle row =? handle)%N then set_row_cited (cited t row) row else row))
              (mem_rows db)) db.

(** Of the declared legs, the two on this model's tables: [memory] is rehomed,
    [ingest_keys] dropped. *)
Definition run_generated_transfer_legs (from_id to_id : Uuid) (ts : list Uuid) (db : MemoryDb) : MemoryDb :=
  set_keys (filter (fun kv : IngestKey * Uuid => kv.2 ∉ ts) (mem_keys db))
    (set_rows (map_imap (fun t row => Some (if slice_contains t ts && (row_owner row =? from_id)%N
                                            then set_row_owner to_id row else row)) (mem_rows db)) db).

(** [None] is [false]: the series left its owner. *)
Definition persist_series_head_transfer (handle from_id to_id expected_head_t : Uuid) (db : MemoryDb) :
    result (option MemoryDb) StorageError :=
  match mem_heads db !! handle with
  | Some head =>
      if (head_owner head =? from_id)%N then
        if (head_t head =? expected_head_t)%N
        then Ok (Some (set_heads (<[handle := mk_HeadRow (head_kind head) (head_schema head) to_id (head_t head)]>
                                    (mem_heads db)) db))
        else Err (Retryable (str "series head advanced before transfer could persist"))
      else Ok None
  | None => Ok None
  end.

(** As one transaction: the reread of the series after its locks finds the same
    versions.  [None] is [false], after which the caller rolls back. *)
Definition transfer_memory_handle `{PgText} (env : TransferEnv) (requested_t handle from_id : Uuid) (to_owner : OwnerId)
    (db : MemoryDb) : result (option MemoryDb) StorageError :=
  let? (groups, to_id) := ensure_owner_row platform_session to_owner (mem_groups db) in
  let db := set_groups groups db in
  let ts := series_ts handle from_id db in
  if is_empty ts then Ok None
  else if guided ts db || te_motivates env ts
  then Err (ConstraintViolation (str "a memory series with Goal/Perspective causal relations cannot transfer owners"))
  else if negb (slice_contains requested_t ts) then Ok None
  else
    match mem_heads db !! handle with
    | None => Err (Retryable (str "memory head disappeared while the series still had rows"))
    | Some head =>
        if negb (head_owner head =? from_id)%N then Ok None
        else if negb (slice_contains (head_t head) ts)
        then Err (Retryable (str "series head advanced after transfer locked its version set"))
        else
          let? _ := te_uploads_published env handle from_id in
          let? cited := te_cited env handle from_id to_id in
          persist_series_head_transfer handle from_id to_id (head_t head)
            (run_generated_transfer_legs from_id to_id ts (remap_cited handle cited db))
    end.

Definition transfer_memory_t `{PgText} (env : TransferEnv) (t from_id : Uuid) (to_owner : OwnerId) (db : MemoryDb) :
    result (option MemoryDb) StorageError :=
  match mem_rows db !! t with
  | Some row =>
      if (row_owner row =? from_id)%N then
        match te_untransferable env (row_schema row) with
        | Some headline =>
            Err (ConstraintViolation (str "memories of schema " ++ SchemaId_0 (row_schema row)
                                      ++ str " do not transfer: " ++ headline))
        | None => transfer_memory_handle env t (row_handle row) from_id to_owner db
        end
      else Ok None
  | None => Ok None
  end.

(** [transfer_to_owner] of a memory, whose declared leg moves it.  The permit was
    checked before the transaction, which runs in the platform scope and sees
    every row. *)
Definition transfer_in_lifecycle `{PgText} (env : TransferEnv) (t : Uuid) (from_owner to_owner : OwnerId) (db : MemoryDb) :
    result (option MemoryDb) StorageError :=
  if bool_decide (from_owner = to_owner)
  then Err (ConstraintViolation (str "transfer destination is the current owner"))
  else transfer_memory_t env t (OwnerId_0 from_owner) to_owner db.

(** ** The store and its steps *)

(** An admission between its two parts. *)
Record Pending := mk_Pending {
  pend_env : AdmissionEnv;
  pend_session : MemorySession;
  pend_prepared : PreparedMemoryAdmission;
}.

(** The tables, the generator of each process, and the open admissions. *)
Record Store := mk_Store {
  st_db : MemoryDb;
  st_generators : gmap N Generator;
  st_open : list Pending;
}.

Definition generator_of (st : Store) (process : N) : Generator := default Generator.empty (st_generators st !! process).

(** What a process draws: sixteen random bytes. *)
Definition draws_ok (env : AdmissionEnv) : Prop :=
  forall i, length (env_draw env i).2 = 16 /\ Forall byte_ok (env_draw env i).2.

(** A reserved identity comes from the same generators. *)
Definition options_ok (options : PreparationOptions) : Prop :=
  forall handle t, opt_identity options = Some (handle, t) -> (t < 2 ^ 128)%N /\ (uuid_version t <= 8)%N.

Section steps.
Context `{PgText, Digest, UuidText}.

(** Goals, group membership and closed series change by other components; an
    erased goal leaves a witness of its own.  The erase of a whole owner and
    schema evolution are no steps. *)
Inductive store_step : Store -> Store -> Prop :=
| step_prepare st process env s admission options result g :
    draws_ok env -> options_ok options -> (ad_store_number admission < 2 ^ 16)%N ->
    prepare_memory_admission_at env s admission options (generator_of st process) (st_db st) = Some (result, g) ->
    store_step st (mk_Store (st_db st) (<[process := g]> (st_generators st))
      (match result with Ok prepared => mk_Pending env s prepared :: st_open st | Err _ => st_open st end))
| step_finish st pending blob_id content_id db outcome :
    pending ∈ st_open st ->
    finish_admission (pend_env pending) (pend_session pending) (pend_prepared pending) blob_id content_id (st_db st)
      = Ok (db, outcome) ->
    store_step st (mk_Store db (st_generators st) (st_open st))
| step_forget st now s t owner kinds db :
    forget_in_lifecycle now s t owner kinds (st_db st) = Ok db ->
    store_step st (mk_Store db (st_generators st) (st_open st))
| step_restore st restorable s t owner kinds db :
    restore_in_lifecycle restorable s t owner kinds (st_db st) = Ok db ->
    store_step st (mk_Store db (st_generators st) (st_open st))
| step_erase st s t owner db :
    erase_memory_in_lifecycle s t owner (st_db st) = Ok db ->
    store_step st (mk_Store db (st_generators st) (st_open st))
| step_transfer st env t from_owner to_owner db :
    transfer_in_lifecycle env t from_owner to_owner (st_db st) = Ok (Some db) ->
    store_step st (mk_Store db (st_generators st) (st_open st))
| step_elsewhere st groups goals closed :
    store_step st (mk_Store (mk_MemoryDb groups (mem_keys (st_db st)) (mem_heads (st_db st)) (mem_rows (st_db st)) goals
      (mem_erased (st_db st)) closed) (st_generators st) (st_open st))
| step_goal_erased st t :
    mem_rows (st_db st) !! t = None -> mem_erased (st_db st) !! t = None ->
    store_step st (mk_Store (set_erased (<[t := None]> (mem_erased (st_db st))) (st_db st)) (st_generators st) (st_open st)).

Definition empty_store (groups : GroupDb) : Store :=
  mk_Store (mk_MemoryDb groups ∅ ∅ ∅ ∅ ∅ ∅) ∅ [].

(** ** Runs *)

(** The steps a schedule takes; [OpFinish] names an open admission by position. *)
Inductive MemoryOp :=
| OpPrepare (process : N) (env : AdmissionEnv) (s : MemorySession) (admission : MemoryAdmissionDraft)
    (options : PreparationOptions)
| OpFinish (i : nat)
| OpForget (now : SystemTime) (s : MemorySession) (t owner : Uuid)
| OpRestore (s : MemorySession) (t owner : Uuid) (kinds : list MemoryKind)
| OpErase (s : MemorySession) (t owner : Uuid)
| OpTransfer (t from_owner to_owner : Uuid).

Definition with_db (st : Store) (r : result MemoryDb StorageError) : option Store :=
  match r with Ok db => Some (mk_Store db (st_generators st) (st_open st)) | Err _ => None end.

(** A transfer of a series with no citations, motivations or refusals. *)
Definition plain_transfer : TransferEnv :=
  mk_TransferEnv (fun _ => None) (fun _ => false) (fun _ _ => Ok tt)
    (fun _ _ _ => Ok (fun _ row => (row_blob_id row, row_content_id row))).

(** [None] where the operation fails. *)
Definition run_op (st : Store) (op : MemoryOp) : option Store :=
  match op with
  | OpPrepare process env s admission options =>
      match prepare_memory_admission_at env s admission options (generator_of st process) (st_db st) with
      | Some (Ok prepared, g) =>
          Some (mk_Store (st_db st) (<[process := g]> (st_generators st)) (mk_Pending env s prepared :: st_open st))
      | _ => None
      end
  | OpFinish i =>
      let* pending := st_open st !! i in
      match finish_admission (pend_env pending) (pend_session pending) (pend_prepared pending) None None (st_db st) with
      | Ok (db, _) => Some (mk_Store db (st_generators st) (st_open st))
      | Err _ => None
      end
  | OpForget now s t owner => with_db st (forget_in_lifecycle now s t owner None (st_db st))
  | OpRestore s t owner kinds => with_db st (restore_in_lifecycle (fun _ => Ok tt) s t owner kinds (st_db st))
  | OpErase s t owner => with_db st (erase_memory_in_lifecycle s t owner (st_db st))
  | OpTransfer t from_owner to_owner =>
      match transfer_in_lifecycle plain_transfer t (mk_OwnerId from_owner) (mk_OwnerId to_owner) (st_db st) with
      | Ok (Some db) => Some (mk_Store db (st_generators st) (st_open st))
      | _ => None
      end
  end.

Fixpoint run_ops (st : Store) (ops : list MemoryOp) : option Store :=
  match ops with
  | [] => Some st
  | op :: ops => let* st := run_op st op in run_ops st ops
  end.

Definition op_ok (op : MemoryOp) : Prop :=
  match op with
  | OpPrepare _ env _ admission options =>
      draws_ok env /\ options_ok options /\ (ad_store_number admission < 2 ^ 16)%N
  | _ => True
  end.

Lemma run_op_step st op st' : op_ok op -> run_op st op = Some st' -> store_step st st'.
Proof.
  intros Hop E. destruct op as [process env s admission options|i|now s t owner|s t owner kinds|s t owner
    |t from_owner to_owner]; cbn -[transfer_in_lifecycle] in E.
  - destruct Hop as (? & ? & ?). destruct (prepare_memory_admission_at _ _ _ _ _ _) as [[[prepared|] g]|] eqn:Ep; [|done..].
    injection E as <-. exact (step_prepare st process env s admission options (Ok prepared) g ltac:(done) ltac:(done) ltac:(done) Ep).
  - destruct (st_open st !! i) as [pending|] eqn:Ei; [|done]. cbn in E.
    destruct (finish_admission _ _ _ _ _ _) as [[db outcome]|] eqn:Ef; [|done]. injection E as <-.
    eapply step_finish; [by eapply list_elem_of_lookup_2|exact Ef].
  - destruct (forget_in_lifecycle _ _ _ _ _ _) eqn:Ef; [|done]. injection E as <-. by eapply step_forget.
  - destruct (restore_in_lifecycle _ _ _ _ _ _) eqn:Ef; [|done]. injection E as <-. by eapply step_restore.
  - destruct (erase_memory_in_lifecycle _ _ _ _) eqn:Ef; [|done]. injection E as <-. by eapply step_erase.
  - destruct (transfer_in_lifecycle _ _ _ _ _) as [[db|]|] eqn:Ef; [|done..]. injection E as <-. by eapply step_transfer.
Qed.

Lemma run_ops_steps st ops st' : Forall op_ok ops -> run_ops st ops = Some st' -> rtc store_step st st'.
Proof.
  intros Hops. revert st. induction Hops as [|op ops Hop Hops IH]; intros st E; cbn in E; [by injection E as <-|].
  destruct (run_op st op) as [st1|] eqn:Eo; [|done]. eapply rtc_l; [by eapply run_op_step|by apply IH].
Qed.

Definition reachable (st : Store) : Prop := exists groups, rtc store_step (empty_store groups) st.

End steps.
