(* ===== verification/MemorySeries.v ===== *)
(** * The invariant of the memory tables

    Every transaction of [Admission] and [MemoryLifecycle] keeps the tables
    well-formed, whatever sessions run them and however admissions interleave:
    heads name the newest live version, keys name versions, pins name memories
    admitted before, in layers. *)

From S2P Require Import Prelude Utf8 Ids Bytes GroupForest Json CanonicalJson Publication Errors OwnerScope.
From S2P Require Import Authz Groups MemoryUuid Idempotency MemoryStore Admission MemoryLifecycle.

(** ** Well-formed tables *)

Definition id_ok (t : Uuid) : Prop := (t < 2 ^ 128)%N /\ (uuid_version t <= 8)%N.

(** The kind of a pin's target: a version, or what a version was when erased. *)
Definition pin_kind (db : MemoryDb) (pin : Uuid) : option MemoryKind :=
  match mem_rows db !! pin with
  | Some row => Some (row_kind row)
  | None => let* kind := mem_erased db !! pin in kind
  end.

Definition row_pins (row : MemoryRow) : list Uuid := row_origins row ++ row_refs row.

Definition aligned (head : HeadRow) (row : MemoryRow) : Prop :=
  head_kind head = row_kind row /\ head_schema head = row_schema row /\ head_owner head = row_owner row.

(** [head] is the newest live version of the series, or its newest version when
    none is live. *)
Definition newest (db : MemoryDb) (handle t : Uuid) : Prop :=
  exists row, mem_rows db !! t = Some row /\ row_handle row = handle /\
  forall t' row', mem_rows db !! t' = Some row' -> row_handle row' = handle ->
    (live row' = true -> live row = true /\ (t' <= t)%N) /\ (live row = false -> (t' <= t)%N).

(** The tables are well-formed, but for the heads of the series in [stale]. *)
Record db_ok_but (stale : Uuid -> Prop) (db : MemoryDb) : Prop := {
  ok_rows t row : mem_rows db !! t = Some row ->
    id_ok t /\ exists head, mem_heads db !! row_handle row = Some head /\ aligned head row;
  ok_heads handle head : ~ stale handle -> mem_heads db !! handle = Some head -> newest db handle (head_t head);
  ok_keys key t : mem_keys db !! key = Some t ->
    exists row, mem_rows db !! t = Some row /\ row_owner row = key.1.1;
  ok_erased t : is_Some (mem_erased db !! t) -> mem_rows db !! t = None;
  ok_pins t row pin : mem_rows db !! t = Some row -> pin ∈ row_pins row -> is_Some (pin_kind db pin);
  ok_layers t row pin : mem_rows db !! t = Some row -> pin ∈ row_origins row ->
    exists kind, pin_kind db pin = Some kind /\ row_kind row <> FactMemory /\ origin_kinds (row_kind row) kind = true;
  ok_ranked : exists rank : Uuid -> nat, forall t row pin, mem_rows db !! t = Some row -> pin ∈ row_pins row ->
    is_Some (mem_rows db !! pin) -> rank pin < rank t;
}.

Definition db_ok : MemoryDb -> Prop := db_ok_but (fun _ => False).

Definition pending_ok (p : PreparedMemoryAdmission) : Prop :=
  match p with
  | PreparedReplay _ => True
  | PreparedNew p =>
      id_ok (prep_t p) /\ prep_owner_id p = OwnerId_0 (prep_owner p) /\
      (forall head, prep_expected_head_t p = Some head -> prep_fresh_handle p = false -> (head < prep_t p)%N)
  end.

Definition store_ok (st : Store) : Prop :=
  db_ok (st_db st) /\ (forall process, generator_ok (generator_of st process)) /\
  Forall (fun pending => pending_ok (pend_prepared pending)) (st_open st).

(** ** What a finished admission did *)

(** The check a statement makes next. *)
Ltac require_next E :=
  match type of E with
  | match require ?c ?f with _ => _ end = _ =>
      let H := fresh "Hreq" in destruct (require c f) eqn:H; [apply require_Ok in H|discriminate E]
  end.

Section series.
Context `{PgText, Digest, UuidText}.

(** [key] was claimed for [t], or is as before. *)
Definition keys_claimed (owner t : Uuid) (before after : gmap IngestKey Uuid) : Prop :=
  forall key, after !! key = before !! key \/
    (before !! key = None /\ after !! key = Some t /\ key.1.1 = owner).

Record admitted (s : MemorySession) (p : PreparedMemoryAdmissionNew) (row : MemoryRow) (db db' : MemoryDb) : Prop := {
  adm_expected : select_head_for_update s (prep_handle p) db = prep_expected_head_t p;
  adm_keys : keys_claimed (OwnerId_0 (prep_owner p)) (prep_t p) (mem_keys db) (mem_keys db') \/
             keys_claimed (prep_owner_id p) (prep_t p) (mem_keys db) (mem_keys db');
  adm_heads : mem_heads db' =
    <[prep_handle p := mk_HeadRow (row_kind row) (row_schema row) (row_owner row) (prep_t p)]> (mem_heads db);
  adm_held : match mem_heads db !! prep_handle p with
             | None => True
             | Some held => prep_fresh_handle p = false /\ aligned held row /\
                 head_writes s (head_owner held) (head_kind held) = true
             end;
  adm_row : row_handle row = prep_handle p /\ row_owner row = prep_owner_id p /\ live row = true;
  adm_rows : mem_rows db' = <[prep_t p := row]> (mem_rows db) /\ mem_rows db !! prep_t p = None;
  adm_erased : mem_erased db' = mem_erased db /\ mem_erased db !! prep_t p = None;
  adm_pins : memory_checks row = true /\ forall pin, pin ∈ row_pins row -> is_Some (mem_rows db !! pin);
  adm_layers : forall pin, pin ∈ row_origins row ->
    row_kind row = FactMemory \/ pinned_kind db (origin_kinds (row_kind row)) pin = true;
}.

Lemma forallb_elem {A} (f : A -> bool) l x : forallb f l = true -> x ∈ l -> f x = true.
Proof. intros Hf Hx%list_elem_of_In. by apply (proj1 (forallb_forall f l) Hf). Qed.

Lemma is_some_Some {A} (o : option A) : is_some o = true <-> is_Some o.
Proof. destruct o; cbn; [split; [by eexists|done]|split; [done|by intros []]]. Qed.

Lemma is_some_None {A} (o : option A) : negb (is_some o) = true <-> o = None.
Proof. by destruct o. Qed.

Lemma is_empty_true {A} (l : list A) : is_empty l = true <-> l = [].
Proof. by destruct l. Qed.

Lemma pin_checks_pass t row db u :
  memory_pin_checks t row db = Ok u ->
  mem_erased db !! t = None /\ (forall pin, pin ∈ row_pins row -> is_Some (mem_rows db !! pin)) /\
  (forall pin, pin ∈ row_origins row ->
     row_kind row = FactMemory \/ pinned_kind db (origin_kinds (row_kind row)) pin = true).
Proof.
  unfold memory_pin_checks, row_pins. intros E.
  destruct (require _ (UniqueViolation _)) eqn:E1; [|discriminate E].
  apply require_Ok, andb_prop in E1 as [_ He%is_some_None]. split; [done|].
  assert (forall b, is_empty (row_origins row) && is_empty (row_refs row) && b = true ->
    row_origins row = [] /\ row_refs row = []) as Hnil.
  { intros b [[?%is_empty_true ?%is_empty_true]%andb_prop _]%andb_prop. done. }
  destruct (_ && (_ && _ && _ && _)) eqn:Eu in E.
  { apply andb_prop in Eu as [_ Eu]. rewrite <-andb_assoc in Eu. apply Hnil in Eu as [-> ->]. set_solver. }
  require_next E.
  destruct (is_empty (row_origins row) && _ && _ && _) eqn:Eu' in E.
  { rewrite <-andb_assoc in Eu'. apply Hnil in Eu' as [-> ->]. set_solver. }
  do 7 require_next E.
  rewrite require_Ok in E. split.
  - intros pin [Hp|Hp]%elem_of_app; apply is_some_Some;
      match goal with Hq : forallb _ ?l = true |- _ =>
        lazymatch type of Hp with _ ∈ l => exact (forallb_elem _ _ _ Hq Hp) end end.
  - intros pin Hp. apply orb_true_iff in E as [E%bool_decide_eq_true|E]; [by left|right]. by eapply forallb_elem in E.
Qed.

(** ** Claims *)

Lemma insert_key_Ok s key t db db' claimed :
  insert_key s key t db = Ok (db', claimed) ->
  (claimed = false /\ db' = db /\ is_Some (mem_keys db !! key)) \/
  (claimed = true /\ mem_keys db !! key = None /\ db' = set_keys (<[key := t]> (mem_keys db)) db).
Proof. unfold insert_key. intros E. repeat (run_ok; simplify_eq); [left; by repeat eexists|right; done]. Qed.

Lemma keys_claimed_insert key o t m : key.1.1 = o -> m !! key = None -> keys_claimed o t m (<[key := t]> m).
Proof.
  intros Ho Hn k. destruct (decide (k = key)) as [->|]; [right; by rewrite lookup_insert_eq|left; by rewrite lookup_insert_ne].
Qed.

Lemma keys_claimed_refl o t m : keys_claimed o t m m.
Proof. intros k. by left. Qed.

Lemma keys_claimed_trans o t m1 m2 m3 : keys_claimed o t m1 m2 -> keys_claimed o t m2 m3 -> keys_claimed o t m1 m3.
Proof.
  intros H12 H23 k. destruct (H12 k) as [E|(E1 & E2 & E3)], (H23 k) as [E'|(E1' & E2' & E3')]; rewrite ?E', ?E in *; auto.
Qed.

(** Only the keys moved. *)
Definition same_but_keys (db db' : MemoryDb) : Prop := db' = set_keys (mem_keys db') db.

Lemma same_but_keys_refl db : same_but_keys db db.
Proof. by destruct db. Qed.

Lemma claim_shape s prepared db db' prepared' :
  claim_prepared_memory_admission s prepared db = Ok (db', prepared') ->
  match prepared' with
  | PreparedReplay _ => db' = db
  | PreparedNew p => prepared = PreparedNew p /\ same_but_keys db db' /\
      (keys_claimed (OwnerId_0 (prep_owner p)) (prep_t p) (mem_keys db) (mem_keys db') \/
       keys_claimed (prep_owner_id p) (prep_t p) (mem_keys db) (mem_keys db'))
  end.
Proof.
  unfold claim_prepared_memory_admission. intros E. destruct prepared as [o|p]; [by injection E as <- <-|].
  destruct (cmd_request (prep_draft p)) as [request|].
  - unfold claim_request in E. destruct (pg_ok (insert_key s (request_row _ _) _ _)) as [[db1 []]|] eqn:E1; [| |discriminate E];
      apply pg_ok_Ok, insert_key_Ok in E1 as [(? & -> & _)|(? & Hn & ->)]; try discriminate.
    + destruct (pg_ok (insert_key s _ _ _)) as [[db2 c]|] eqn:E2; [|discriminate E].
      injection E as <- <-. split; [done|].
      apply pg_ok_Ok, insert_key_Ok in E2 as [(? & -> & _)|(? & Hn2 & ->)]; cbn.
      * split; [done|]. left. by apply keys_claimed_insert.
      * split; [done|]. left.
        eapply keys_claimed_trans; [exact (keys_claimed_insert _ _ _ _ eq_refl Hn)|by apply keys_claimed_insert].
    + destruct (judge_request _ _ _ _) as [[]|] eqn:Ej; [| |discriminate E]; injection E as <- <-; [|done].
      split; [done|]. split; [apply same_but_keys_refl|]. left. apply keys_claimed_refl.
  - assert (same_but_keys db db /\ (keys_claimed (OwnerId_0 (prep_owner p)) (prep_t p) (mem_keys db) (mem_keys db) \/
       keys_claimed (prep_owner_id p) (prep_t p) (mem_keys db) (mem_keys db))) as Hsame
      by (split; [apply same_but_keys_refl|left; apply keys_claimed_refl]).
    destruct (cmd_source_id (prep_draft p)) as [source|]; [|by injection E as <- <-].
    destruct (cmd_ingest_key (prep_draft p)) as [key|]; [|by injection E as <- <-].
    destruct (pg_ok (insert_key s _ _ _)) as [[db1 []]|] eqn:E1; [| |discriminate E];
      apply pg_ok_Ok, insert_key_Ok in E1 as [(? & -> & _)|(? & Hn & ->)]; try discriminate.
    + injection E as <- <-. split; [done|]. split; [done|]. right. by apply keys_claimed_insert.
    + run_ok. done.
Qed.

(** ** The row and the head *)

Lemma advance_shape s p db db' :
  advance_memory_head s p db = Ok db' ->
  let head := mk_HeadRow (prep_kind p) (cmd_schema_id (prep_draft p)) (prep_owner_id p) (prep_t p) in
  db' = set_heads (<[prep_handle p := head]> (mem_heads db)) db /\
  match mem_heads db !! prep_handle p with
  | None => True
  | Some held => prep_fresh_handle p = false /\ head_writes s (head_owner held) (head_kind held) = true /\
      head_kind held = prep_kind p /\ head_schema held = cmd_schema_id (prep_draft p) /\ head_owner held = prep_owner_id p
  end.
Proof.
  unfold advance_memory_head. cbv zeta. intros E. set (head := mk_HeadRow _ _ _ _) in *.
  assert (forall db', insert_head s (prep_handle p) head db = Ok db' ->
    mem_heads db !! prep_handle p = None /\ db' = set_heads (<[prep_handle p := head]> (mem_heads db)) db) as Hins.
  { unfold insert_head. clear E. intros d E. require_next E. require_next E. require_next E. injection E as <-.
    by apply is_some_None in Hreq0. }
  destruct (prep_fresh_handle p).
  - apply pg_ok_Ok, Hins in E as [-> ->]. done.
  - destruct (pg_ok (upsert_head _ _ _ _)) as [[d []]|] eqn:Eu; [|discriminate E..]. injection E as <-.
    apply pg_ok_Ok in Eu. unfold upsert_head in Eu. destruct (mem_heads db !! prep_handle p) as [held|] eqn:Eh.
    + require_next Eu. require_next Eu. destruct (_ && _) eqn:Ec in Eu; [|discriminate Eu]. injection Eu as <-.
      apply andb_prop in Ec as [[Hk%bool_decide_eq_true Hs%bool_decide_eq_true]%andb_prop Ho%N.eqb_eq].
      unfold move_head. rewrite Eh. cbn in *. split; [|done]. by rewrite Hk, Hs, Ho.
    + destruct (insert_head _ _ _ _); [|discriminate Eu]. injection Eu as <-. by destruct (Hins _ eq_refl) as [_ ->].
Qed.

Lemma insert_memory_Ok elsewhere s t row db db' :
  insert_memory elsewhere s t row db = Ok db' ->
  db' = set_rows (<[t := row]> (mem_rows db)) db /\ mem_rows db !! t = None /\ memory_checks row = true /\
  (exists u, memory_pin_checks t row db = Ok u).
Proof.
  unfold insert_memory. intros E. destruct (memory_align_head _ _ _); [|discriminate E].
  destruct (memory_pin_checks _ _ _) eqn:Ep; [|discriminate E]. do 4 require_next E.
  destruct (elsewhere row); [|discriminate E]. injection E as <-. apply is_some_None in Hreq1. by repeat eexists.
Qed.

(** Keys, heads, versions and witnesses are the same. *)
Definition same_tables (db db' : MemoryDb) : Prop :=
  mem_keys db' = mem_keys db /\ mem_heads db' = mem_heads db /\ mem_rows db' = mem_rows db /\
  mem_erased db' = mem_erased db.

Lemma materialize_shape env s p blob content db db' outcome :
  materialize_prepared_memory_admission env s (PreparedNew p) blob content db = Ok (db', outcome) ->
  out_idempotent_replay outcome = false /\ MemoryId_0 (out_memory_id outcome) = prep_t p /\
  exists row, mem_keys db' = mem_keys db /\
    (forall db0, mem_heads db = mem_heads db0 -> mem_rows db = mem_rows db0 -> mem_erased db = mem_erased db0 ->
       keys_claimed (OwnerId_0 (prep_owner p)) (prep_t p) (mem_keys db0) (mem_keys db) \/
       keys_claimed (prep_owner_id p) (prep_t p) (mem_keys db0) (mem_keys db) -> admitted s p row db0 db').
Proof.
  cbn. intros E. destruct (validate_prepared_memory_head s p db) eqn:Ev; [|discriminate E].
  unfold validate_prepared_memory_head in Ev. case_bool_decide as Hexp; [|discriminate Ev]. clear Ev.
  set (q := if is_some blob then _ else _) in E.
  assert (prep_handle q = prep_handle p /\ prep_t q = prep_t p /\ prep_owner_id q = prep_owner_id p /\
    prep_fresh_handle q = prep_fresh_handle p) as (Hh & Ht & Ho & Hf) by (unfold q; destruct (is_some blob); done).
  clearbody q. set (c := resolve_admission_content_id _ _ _) in E. clearbody c.
  destruct (advance_memory_head s q db) as [db1|] eqn:Ea; [|discriminate E].
  destruct (insert_memory_revision _ _ _ _ _) as [db2|] eqn:Ei; [|discriminate E]. injection E as <- <-. cbn.
  split; [done|]. split; [done|]. apply advance_shape in Ea as [-> Hheld].
  apply pg_ok_Ok, insert_memory_Ok in Ei as (-> & Hnone & Hchk & u & Hpins). cbn in *.
  apply pin_checks_pass in Hpins as (Herased & Hpins & Hlayers). cbn in *.
  exists (revision_row q c). split; [done|]. intros db0 H1' H2' H3' Hk.
  rewrite Hh, Ht, Ho, Hf in *. constructor; cbn; rewrite <-?H1', <-?H2', <-?H3'; try done.
  - unfold select_head_for_update in *. by rewrite <-H1'.
  - by rewrite Ho.
  - destruct (mem_heads db !! prep_handle p) as [held|]; [|done]. destruct Hheld as (? & ? & ? & ? & ?).
    unfold aligned. cbn. by rewrite Ho.
  - intros pin Hp. destruct (Hlayers pin Hp) as [?|Hl]; [by left|right]. unfold pinned_kind in *. cbn in *. by rewrite <-H2'.
Qed.

Lemma finish_shape env s prepared blob content db db' outcome :
  finish_admission env s prepared blob content db = Ok (db', outcome) ->
  same_tables db db' \/
  exists p row, prepared = PreparedNew p /\ admitted s p row db db' /\ MemoryId_0 (out_memory_id outcome) = prep_t p /\
    out_idempotent_replay outcome = false.
Proof.
  unfold finish_admission. intros E.
  destruct (match prepared with PreparedReplay _ => _ | PreparedNew _ => _ end) as [db1|] eqn:E1; [|discriminate E].
  assert (same_tables db db1) as (Hk & Hh & Hr & He).
  { destruct prepared as [o|p]; [by injection E1 as <-|]. destruct (ensure_owner_row _ _ _) as [[g o]|]; [|discriminate E1].
    by injection E1 as <-. }
  destruct (lock_prepared_memory_admission _ _ _); [|discriminate E].
  destruct (claim_prepared_memory_admission _ _ _) as [[db2 prepared2]|] eqn:E2; [|discriminate E].
  apply claim_shape in E2. destruct prepared2 as [o|p].
  - injection E as <- <-. subst db2. by left.
  - destruct E2 as (-> & Hsame & Hclaims). apply materialize_shape in E as (Hout & Hid & row & Hkeys & Hadm).
    right. exists p, row. unfold same_but_keys in Hsame.
    split; [done|]. split; [|done]. apply Hadm; [by rewrite Hsame..|by rewrite <-Hk].
Qed.

(** ** Admissions keep the tables well-formed *)

Lemma pin_kind_same db db' pin :
  mem_rows db' !! pin = mem_rows db !! pin -> mem_erased db' = mem_erased db -> pin_kind db' pin = pin_kind db pin.
Proof. unfold pin_kind. by intros -> ->. Qed.

Lemma same_tables_ok stale db db' : same_tables db db' -> db_ok_but stale db -> db_ok_but stale db'.
Proof.
  intros (Hk & Hh & Hr & He) [R1 R2 R3 R4 R5 R6 R7].
  assert (forall pin, pin_kind db' pin = pin_kind db pin) as Hp by (intros pin; apply pin_kind_same; congruence).
  constructor; unfold newest; rewrite ?Hk, ?Hh, ?Hr, ?He; try done; setoid_rewrite Hp; done.
Qed.

Lemma newest_after p row db db' s :
  db_ok db -> pending_ok (PreparedNew p) -> admitted s p row db db' -> newest db' (prep_handle p) (prep_t p).
Proof.
  intros Hdb (_ & _ & Hlt) [Hexp _ _ Hheld (Hrh & _ & Hlive) [Hrows Hnone] _ _ _].
  exists row. rewrite Hrows, lookup_insert_eq. split; [done|]. split; [done|]. intros t' row' E' Hh'.
  rewrite Hlive. split; [intros Hl; split; [done|]|done].
  destruct (decide (t' = prep_t p)) as [->|Hne]; [lia|]. rewrite lookup_insert_ne in E' by done.
  destruct (ok_rows _ _ Hdb _ _ E') as (_ & head & Eh & _). rewrite Hh' in Eh. rewrite Eh in Hheld.
  destruct Hheld as (Hfresh & _ & Hw). unfold select_head_for_update in Hexp. rewrite Eh, Hw in Hexp.
  specialize (Hlt (head_t head) (eq_sym Hexp) Hfresh).
  destruct (ok_heads _ _ Hdb _ _ ltac:(tauto) Eh) as (best & _ & _ & Hbest).
  destruct (Hbest _ _ E' Hh') as [Hb _]. destruct (Hb Hl). lia.
Qed.

Lemma admitted_pins p row db db' s pin :
  db_ok db -> admitted s p row db db' -> is_Some (pin_kind db pin) -> pin_kind db' pin = pin_kind db pin.
Proof.
  intros Hdb [_ _ _ _ _ [Hrows Hnone] [Her Hen] _ _] Hp. unfold pin_kind in *. rewrite Hrows, Her.
  destruct (decide (pin = prep_t p)) as [->|]; [|by rewrite lookup_insert_ne].
  rewrite Hnone, Hen in Hp. by destruct Hp.
Qed.

Lemma admitted_ranked p row db db' s :
  db_ok db -> admitted s p row db db' ->
  exists rank : Uuid -> nat, forall t r pin, mem_rows db' !! t = Some r -> pin ∈ row_pins r ->
    is_Some (mem_rows db' !! pin) -> rank pin < rank t.
Proof.
  intros Hdb [_ _ _ _ _ [Hrows Hnone] [_ Hen] [_ Hpins] _]. destruct (ok_ranked _ _ Hdb) as [rank Hrank].
  exists (fun t => if decide (t = prep_t p) then S (max_list (rank <$> row_pins row)) else rank t).
  intros t r pin. rewrite Hrows. destruct (decide (t = prep_t p)) as [->|Ht].
  - rewrite lookup_insert_eq. intros [= <-] Hp _. destruct (decide (pin = prep_t p)) as [->|].
    { destruct (Hpins _ Hp). congruence. }
    pose proof (max_list_elem_of_le (rank pin) (rank <$> row_pins row) (list_elem_of_fmap_2 _ _ _ Hp)). lia.
  - rewrite lookup_insert_ne by done. intros Er Hp Hin.
    destruct (decide (pin = prep_t p)) as [->|Hpin].
    { destruct (ok_pins _ _ Hdb _ _ _ Er Hp) as [k Hk]. unfold pin_kind in Hk. by rewrite Hnone, Hen in Hk. }
    rewrite lookup_insert_ne in Hin by done. by apply (Hrank t r).
Qed.

Lemma fact_has_no_origins row : memory_checks row = true -> row_kind row = FactMemory -> row_origins row = [].
Proof.
  unfold memory_checks. intros Hc Hk. rewrite bool_decide_true in Hc by done.
  apply andb_prop in Hc as [[_ Hc]%andb_prop _]. by apply is_empty_true.
Qed.

Lemma admitted_ok p row db db' s :
  db_ok db -> pending_ok (PreparedNew p) -> admitted s p row db db' -> db_ok db'.
Proof.
  intros Hdb Hp Hadm. pose proof (newest_after p row db db' s Hdb Hp Hadm) as Hnew.
  pose proof (fun pin => admitted_pins p row db db' s pin Hdb Hadm) as Hpk.
  pose proof (admitted_ranked p row db db' s Hdb Hadm) as Hrank.
  destruct Hadm as [_ Hkeys Hheads Hheld (Hrh & Hro & Hlive) [Hrows Hnone] [Her Hen] [Hchk Hpins] Hlayers].
  destruct Hp as (Hid & Howner & _).
  constructor; try done.
  - intros t r. rewrite Hrows, Hheads. destruct (decide (t = prep_t p)) as [->|].
    + rewrite lookup_insert_eq. intros [= <-]. split; [done|]. rewrite Hrh, lookup_insert_eq. by eexists.
    + rewrite lookup_insert_ne by done. intros Er. destruct (ok_rows _ _ Hdb _ _ Er) as (Hid' & head & Eh & Hal).
      split; [done|]. destruct (decide (row_handle r = prep_handle p)) as [E|].
      * rewrite E, lookup_insert_eq. eexists. split; [done|]. rewrite E in Eh. rewrite Eh in Hheld.
        destruct Hheld as (_ & (? & ? & ?) & _), Hal as (? & ? & ?). unfold aligned. cbn. split_and!; congruence.
      * rewrite lookup_insert_ne by done. by eexists.
  - intros handle head _. rewrite Hheads. destruct (decide (handle = prep_handle p)) as [->|Hne].
    + rewrite lookup_insert_eq. by intros [= <-].
    + rewrite lookup_insert_ne by done. intros Eh. destruct (ok_heads _ _ Hdb _ _ ltac:(tauto) Eh) as (best & Eb & Hbh & Hb).
      exists best. rewrite Hrows. rewrite lookup_insert_ne by congruence. split; [done|]. split; [done|].
      intros t' r'. destruct (decide (t' = prep_t p)) as [->|]; [rewrite lookup_insert_eq; congruence|].
      rewrite lookup_insert_ne by done. apply Hb.
  - intros key t Ek. rewrite Hrows.
    assert (mem_keys db !! key = Some t \/ (t = prep_t p /\ key.1.1 = row_owner row)) as [Eo|[-> Eo]].
    { destruct Hkeys as [Hkeys|Hkeys]; (destruct (Hkeys key) as [Es|(_ & Es & Eo)]; [left; congruence|right]);
        rewrite Es in Ek; injection Ek as <-; split; congruence. }
    + destruct (ok_keys _ _ Hdb _ _ Eo) as (r & Er & ?). exists r. by rewrite lookup_insert_ne by congruence.
    + exists row. by rewrite lookup_insert_eq.
  - intros t. rewrite Her, Hrows. intros Ht. rewrite lookup_insert_ne; [by apply (ok_erased _ _ Hdb)|].
    intros <-. rewrite Hen in Ht. by destruct Ht.
  - intros t r pin. rewrite Hrows. destruct (decide (t = prep_t p)) as [->|].
    + rewrite lookup_insert_eq. intros [= <-] Hp. assert (is_Some (pin_kind db pin)) as Hk.
      { destruct (Hpins _ Hp) as [pr Epr]. unfold pin_kind. by rewrite Epr. }
      by rewrite Hpk.
    + rewrite lookup_insert_ne by done. intros Er Hp. pose proof (ok_pins _ _ Hdb _ _ _ Er Hp). by rewrite Hpk.
  - intros t r pin. rewrite Hrows. destruct (decide (t = prep_t p)) as [->|].
    + rewrite lookup_insert_eq. intros [= <-] Hp. destruct (Hlayers _ Hp) as [Hf|Hl].
      { rewrite (fact_has_no_origins row Hchk Hf) in Hp. set_solver. }
      unfold pinned_kind in Hl. destruct (mem_rows db !! pin) as [pr|] eqn:Epr; [|done]. cbn in Hl.
      assert (pin_kind db pin = Some (row_kind pr)) as Hk by (unfold pin_kind; by rewrite Epr).
      exists (row_kind pr). rewrite Hpk by (by rewrite Hk). split; [done|]. split; [|done]. intros Hf.
      rewrite (fact_has_no_origins row Hchk Hf) in Hp. set_solver.
    + rewrite lookup_insert_ne by done. intros Er Hp. destruct (ok_layers _ _ Hdb _ _ _ Er Hp) as (k & Hk & ?).
      exists k. rewrite Hpk by (by rewrite Hk). done.
Qed.

(** ** Forget, restore and erase keep them so *)

(** [b] comes before or is [a], in the order of [sync_memory_head]. *)
Definition covers (b a : Uuid * MemoryRow) : Prop :=
  (live a.2 = true -> live b.2 = true /\ (a.1 <= b.1)%N) /\ (live b.2 = false -> (a.1 <= b.1)%N).

Lemma comes_first_covers b a : comes_first b a = true -> covers b a.
Proof. unfold comes_first, covers. destruct (live b.2), (live a.2); rewrite ?N.ltb_lt; intros ?; split; intros; try done; try split; try done; lia. Qed.

Lemma comes_first_not b a : comes_first b a = false -> covers a b.
Proof. unfold comes_first, covers. destruct (live b.2), (live a.2); rewrite ?N.ltb_ge; intros ?; split; intros; try done; try split; try done; lia. Qed.

Lemma covers_refl a : covers a a.
Proof. unfold covers. split; [intros ->; split; [done|lia]|lia]. Qed.

Lemma covers_trans c b a : covers c b -> covers b a -> covers c a.
Proof.
  unfold covers. destruct (live a.2), (live b.2), (live c.2); intros [H1' H2'] [H3' H4']; split; intros; try done;
    repeat match goal with
    | H : ?x = ?x -> _ |- _ => specialize (H eq_refl)
    | H : _ /\ _ |- _ => destruct H
    end; try done; try split; try done; lia.
Qed.

Lemma first_row_spec l :
  match first_row l with
  | None => l = []
  | Some b => b ∈ l /\ forall a, a ∈ l -> covers b a
  end.
Proof.
  induction l as [|x l IH]; [done|]. cbn. fold (first_row l). destruct (first_row l) as [b|]; [|subst l].
  - destruct IH as [Hb Hall]. destruct (comes_first b x) eqn:E.
    + split; [by right|]. intros a [->|Ha]%elem_of_cons; [by apply comes_first_covers|by apply Hall].
    + apply comes_first_not in E. split; [by left|]. intros a [->|Ha]%elem_of_cons; [by apply covers_refl|].
      eapply covers_trans; [exact E|by apply Hall].
  - split; [by left|]. intros a ->%list_elem_of_singleton. apply covers_refl.
Qed.

Lemma head_writes_row s row head :
  aligned head row -> head_writes s (head_owner head) (head_kind head) = memory_writes s true row.
Proof. intros (-> & _ & ->). unfold head_writes, memory_writes. by rewrite orb_true_r, andb_true_r. Qed.

Lemma move_head_lookup handle t db head handle' :
  mem_heads db !! handle = Some head ->
  mem_heads (move_head handle t db) !! handle' =
    if decide (handle' = handle) then Some (mk_HeadRow (head_kind head) (head_schema head) (head_owner head) t)
    else mem_heads db !! handle'.
Proof.
  intros E. unfold move_head. rewrite E. cbn. case_decide as Hd; [subst; by rewrite lookup_insert_eq|].
  by rewrite lookup_insert_ne.
Qed.

Lemma move_head_rest handle t db :
  mem_rows (move_head handle t db) = mem_rows db /\ mem_keys (move_head handle t db) = mem_keys db /\
  mem_erased (move_head handle t db) = mem_erased db.
Proof. unfold move_head. by destruct (mem_heads db !! handle). Qed.

(** Changing the heads only. *)
Lemma heads_ok stale db db' :
  db_ok_but stale db -> mem_rows db' = mem_rows db -> mem_keys db' = mem_keys db -> mem_erased db' = mem_erased db ->
  (forall t row, mem_rows db !! t = Some row -> exists head, mem_heads db' !! row_handle row = Some head /\ aligned head row) ->
  (forall handle head, mem_heads db' !! handle = Some head -> newest db handle (head_t head)) ->
  db_ok db'.
Proof.
  intros [R1 R2 R3 R4 R5 R6 R7] Hr Hk He Hal Hnew.
  assert (forall pin, pin_kind db' pin = pin_kind db pin) as Hp by (intros pin; apply pin_kind_same; congruence).
  constructor; unfold newest; rewrite ?Hk, ?Hr, ?He; try done; try (setoid_rewrite Hp; done).
  - intros t row Er. split; [by apply (R1 t row)|by apply (Hal t)].
  - intros handle head _ Eh. by apply Hnew.
Qed.

Lemma sync_ok s handle db :
  db_ok_but (eq handle) db ->
  (forall head, mem_heads db !! handle = Some head -> head_writes s (head_owner head) (head_kind head) = true) ->
  db_ok (sync_memory_head s handle db).
Proof.
  intros Hdb Hw. unfold sync_memory_head.
  assert (forall h, mem_heads db !! h = None -> forall t row, mem_rows db !! t = Some row -> row_handle row <> h) as Hnone.
  { intros h Hh t row Er E. destruct (ok_rows _ _ Hdb _ _ Er) as (_ & head & Eh & _). congruence. }
  destruct (mem_heads db !! handle) as [head|] eqn:Eh.
  2: { apply (heads_ok _ _ _ Hdb); try done; [intros t row Er; apply (ok_rows _ _ Hdb _ _ Er)|].
       intros h hd Ehd. apply (ok_heads _ _ Hdb); [congruence|done]. }
  rewrite (Hw _ eq_refl).
  assert (forall tr, tr ∈ series_rows s handle db <-> mem_rows db !! tr.1 = Some tr.2 /\ row_handle tr.2 = handle) as Hs.
  { intros [t row]. unfold series_rows. rewrite list_elem_of_filter, elem_of_map_to_list. cbn. split; [tauto|].
    intros [Er Hh]. split; [|done]. split; [done|]. destruct (ok_rows _ _ Hdb _ _ Er) as (_ & hd & Ehd & Hal).
    rewrite Hh, Eh in Ehd. injection Ehd as <-. unfold memory_reads.
    by rewrite <-(head_writes_row s row head Hal), (Hw _ eq_refl). }
  pose proof (first_row_spec (series_rows s handle db)) as Hf. destruct (first_row _) as [[t best]|].
  - destruct Hf as [[Et Hth]%Hs Hall]. destruct (move_head_rest handle t db) as (Hr & Hk & He).
    apply (heads_ok _ _ _ Hdb); try done.
    + intros t' row Er. destruct (ok_rows _ _ Hdb _ _ Er) as (_ & hd & Ehd & Hal).
      rewrite (move_head_lookup _ _ _ head) by done. case_decide as Hd; [|by exists hd].
      eexists. split; [done|]. rewrite Hd, Eh in Ehd. by injection Ehd as <-.
    + intros h hd. rewrite (move_head_lookup _ _ _ head) by done. case_decide as Hd.
      * intros [= <-]. subst h. exists best. split; [done|]. split; [done|]. intros t' row' Er' Hh'.
        apply (Hall (t', row')). by apply Hs.
      * intros Ehd. apply (ok_heads _ _ Hdb); [congruence|done].
  - apply (heads_ok _ _ _ Hdb); try done; cbn.
    + intros t row Er. destruct (ok_rows _ _ Hdb _ _ Er) as (_ & hd & Ehd & Hal).
      assert ((t, row) ∉ series_rows s handle db) as Hn by (rewrite Hf; apply not_elem_of_nil). rewrite Hs in Hn.
      rewrite lookup_delete_ne by naive_solver. by exists hd.
    + intros h hd [Hne Ehd]%lookup_delete_Some. by apply (ok_heads _ _ Hdb).
Qed.

Lemma sync_rest s handle db :
  mem_keys (sync_memory_head s handle db) = mem_keys db /\ mem_rows (sync_memory_head s handle db) = mem_rows db /\
  mem_erased (sync_memory_head s handle db) = mem_erased db.
Proof.
  unfold sync_memory_head. destruct (mem_heads db !! handle) as [head|]; [|done]. destruct (head_writes _ _ _); [|done].
  destruct (first_row _) as [[t r]|]; [|done]. by destruct (move_head_rest handle t db) as (-> & -> & ->).
Qed.

Lemma select_owned_row s lifecycle t owner db row :
  select_owned s lifecycle t owner db = Some row -> mem_rows db !! t = Some row /\ row_owner row = owner.
Proof. unfold select_owned, select_memory. intros E. run_ok. split; [done|]. by apply N.eqb_eq. Qed.

Lemma lock_owned_row s t owner db row :
  lock_owned s t owner db = Some row -> mem_rows db !! t = Some row /\ row_owner row = owner /\ memory_writes s true row = true.
Proof.
  unfold lock_owned. intros E. destruct (select_owned _ _ _ _ _) as [r|] eqn:Es; [|discriminate E].
  destruct (memory_writes s true r) eqn:Ew; [|discriminate E]. injection E as <-. by apply select_owned_row in Es as [? ?].
Qed.

(** A version of the updated tables is one of the old, marked or not. *)
Lemma update_forgotten_inv t at_ db t' row :
  mem_rows (update_forgotten_at t at_ db) !! t' = Some row ->
  exists old, mem_rows db !! t' = Some old /\ (row = old \/ t' = t /\ row = set_forgotten_at at_ old).
Proof.
  cbn. destruct (decide (t' = t)) as [->|]; [rewrite lookup_alter_eq|rewrite lookup_alter_ne by done; eauto].
  destruct (mem_rows db !! t) as [old|]; [|done]. intros [= <-]. eauto.
Qed.

Lemma update_forgotten_pin t at_ db pin : pin_kind (update_forgotten_at t at_ db) pin = pin_kind db pin.
Proof.
  unfold pin_kind. cbn. destruct (decide (pin = t)) as [->|]; [rewrite lookup_alter_eq|by rewrite lookup_alter_ne].
  by destruct (mem_rows db !! t).
Qed.

Lemma update_forgotten_ok t at_ db row :
  db_ok db -> mem_rows db !! t = Some row -> db_ok_but (eq (row_handle row)) (update_forgotten_at t at_ db).
Proof.
  intros Hdb Et.
  assert (forall t' r, mem_rows (update_forgotten_at t at_ db) !! t' = Some r -> exists old, mem_rows db !! t' = Some old /\
    row_handle r = row_handle old /\ row_pins r = row_pins old /\ row_origins r = row_origins old /\
    row_kind r = row_kind old /\ row_owner r = row_owner old /\ row_schema r = row_schema old) as Hinv.
  { intros t' r (old & Eo & [->|[-> ->]])%update_forgotten_inv; by exists old. }
  constructor.
  - intros t' r (old & Eo & Hh & _ & _ & Hk & Ho & Hs)%Hinv. destruct (ok_rows _ _ Hdb _ _ Eo) as (? & head & Eh & Hal).
    split; [done|]. exists head. rewrite Hh. split; [done|]. unfold aligned in *. by rewrite Hk, Ho, Hs.
  - intros handle head Hne Eh. destruct (ok_heads _ _ Hdb _ _ ltac:(tauto) Eh) as (best & Eb & Hbh & Hb).
    exists best. split; [|split; [done|]].
    + cbn. rewrite lookup_alter_ne; [done|]. intros E'. congruence.
    + intros t' r' (old & Eo & [->|[-> ->]])%update_forgotten_inv Hh'; [by apply Hb|]. cbn in Hh'. congruence.
  - intros key t' Ek. destruct (ok_keys _ _ Hdb _ _ Ek) as (r & Er & Ho). cbn.
    destruct (decide (t' = t)) as [->|]; [|rewrite lookup_alter_ne by done; eauto].
    rewrite lookup_alter_eq, Er. by eexists.
  - intros t' Ht. apply (ok_erased _ _ Hdb) in Ht. cbn. destruct (decide (t' = t)) as [->|]; [congruence|].
    by rewrite lookup_alter_ne.
  - intros t' r pin (old & Eo & _ & Hp & _)%Hinv. rewrite Hp, update_forgotten_pin. by apply (ok_pins _ _ Hdb t').
  - intros t' r pin (old & Eo & _ & _ & Hp & Hk & _)%Hinv. rewrite Hp, Hk, update_forgotten_pin.
    by apply (ok_layers _ _ Hdb t').
  - destruct (ok_ranked _ _ Hdb) as [rank Hrank]. exists rank.
    intros t' r pin (old & Eo & _ & Hp & _)%Hinv. rewrite Hp. intros Hin [pr Epr].
    apply Hinv in Epr as (pold & Ep & _). by apply (Hrank t' old).
Qed.

(** The session that wrote a row writes the head of its series. *)
Lemma writes_head s db t row :
  db_ok db -> mem_rows db !! t = Some row -> memory_writes s true row = true ->
  forall head, mem_heads db !! row_handle row = Some head -> head_writes s (head_owner head) (head_kind head) = true.
Proof.
  intros Hdb Er Hw head Eh. destruct (ok_rows _ _ Hdb _ _ Er) as (_ & hd & Ehd & Hal).
  rewrite Eh in Ehd. injection Ehd as <-. by rewrite (head_writes_row s row head Hal).
Qed.

Lemma mark_ok s t at_ db row :
  db_ok db -> mem_rows db !! t = Some row -> memory_writes s true row = true ->
  db_ok (sync_memory_head s (row_handle row) (update_forgotten_at t at_ db)).
Proof.
  intros Hdb Er Hw. apply sync_ok; [by apply update_forgotten_ok|]. cbn. by apply (writes_head s db t).
Qed.

Lemma forget_ok now s t owner kinds db db' :
  db_ok db -> forget_in_lifecycle now s t owner kinds db = Ok db' -> db_ok db'.
Proof.
  intros Hdb. unfold forget_in_lifecycle. intros E.
  destruct (ok_or (row_handle <$> _) _) as [handle|] eqn:Eh; [|discriminate E].
  destruct (lock_owned s t owner db) as [row|] eqn:El; [|discriminate E].
  destruct (live row); [|discriminate E]. cbn in E. destruct (_ || _) eqn:Eg; [discriminate E|]. injection E as <-.
  apply orb_false_iff in Eg as [Eg%negb_false_iff%N.eqb_eq _]. subst handle.
  apply lock_owned_row in El as (? & _ & ?). by apply mark_ok.
Qed.

Lemma restore_ok restorable s t owner kinds db db' :
  db_ok db -> restore_in_lifecycle restorable s t owner kinds db = Ok db' -> db_ok db'.
Proof.
  intros Hdb. unfold restore_in_lifecycle. intros E.
  destruct (ok_or (row_handle <$> _) _) as [handle|] eqn:Eh; [|discriminate E].
  destruct (lock_owned s t owner db) as [row|] eqn:El; [|discriminate E]. cbn in E.
  destruct (_ || _) eqn:Eg; [discriminate E|]. destruct (restorable _); [|discriminate E].
  apply orb_false_iff in Eg as [Eg%negb_false_iff%N.eqb_eq _]. subst handle.
  destruct (live row); injection E as <-; [done|]. apply lock_owned_row in El as (? & _ & ?). by apply mark_ok.
Qed.

Lemma forget_marks now s t owner kinds db db' :
  forget_in_lifecycle now s t owner kinds db = Ok db' ->
  exists handle, db' = sync_memory_head s handle (update_forgotten_at t (Some now) db).
Proof.
  unfold forget_in_lifecycle. intros E. destruct (ok_or (row_handle <$> _) _) as [handle|]; [|discriminate E].
  destruct (ok_or _ _); [|discriminate E]. destruct (_ || _); [discriminate E|]. injection E as <-. by exists handle.
Qed.

Lemma restore_marks restorable s t owner kinds db db' :
  restore_in_lifecycle restorable s t owner kinds db = Ok db' ->
  db' = db \/ exists handle, db' = sync_memory_head s handle (update_forgotten_at t None db).
Proof.
  unfold restore_in_lifecycle. intros E. destruct (ok_or (row_handle <$> _) _) as [handle|]; [|discriminate E].
  destruct (ok_or _ _) as [row|]; [|discriminate E]. destruct (_ || _); [discriminate E|].
  destruct (restorable _); [|discriminate E]. destruct (live row); injection E as <-; [by left|right; by exists handle].
Qed.

Lemma delete_keys_sync s t owner s' handle db :
  delete_keys s t owner (sync_memory_head s' handle db) = sync_memory_head s' handle (delete_keys s t owner db).
Proof.
  unfold sync_memory_head. cbn. destruct (mem_heads db !! handle) as [head|] eqn:Eh; [|done].
  destruct (head_writes _ _ _); [|done]. change (series_rows s' handle (delete_keys s t owner db)) with (series_rows s' handle db).
  destruct (first_row _) as [[t' r]|]; [|done]. unfold move_head. cbn. by rewrite Eh.
Qed.

Lemma delete_keys_ok stale s t owner db : db_ok_but stale db -> db_ok_but stale (delete_keys s t owner db).
Proof.
  intros [R1 R2 R3 R4 R5 R6 R7]. constructor; try done. intros key t' [Ek _]%map_lookup_filter_Some. by apply R3.
Qed.

(** The tables without one version, which left its witness and no key. *)
Lemma deleted_ok s t row db :
  db_ok db -> mem_rows db !! t = Some row -> memory_writes s true row = true ->
  db_ok_but (eq (row_handle row)) (delete_keys s t (row_owner row)
    (set_rows (delete t (mem_rows db)) (set_erased (<[t := Some (row_kind row)]> (mem_erased db)) db))).
Proof.
  intros Hdb Er Hw.
  assert (keys_write s (row_owner row) = true) as Hkw.
  { unfold memory_writes, kind_write in Hw. unfold keys_write, admits.
    apply orb_true_iff in Hw as [->|[[? _]%andb_prop _]%andb_prop]; [done|apply orb_true_iff; by right]. }
  set (db' := set_rows _ _).
  assert (forall pin k, pin_kind db pin = Some k -> pin_kind (delete_keys s t (row_owner row) db') pin = Some k) as Hpk.
  { intros pin k. unfold pin_kind. cbn. destruct (decide (pin = t)) as [->|].
    - by rewrite Er, lookup_delete_eq, lookup_insert_eq.
    - by rewrite lookup_delete_ne, lookup_insert_ne. }
  constructor; cbn.
  - intros t' r [_ Er']%lookup_delete_Some. by apply (ok_rows _ _ Hdb).
  - intros handle head Hne Eh. destruct (ok_heads _ _ Hdb _ _ ltac:(tauto) Eh) as (best & Eb & Hbh & Hb).
    exists best. cbn. rewrite lookup_delete_ne by congruence. split; [done|]. split; [done|].
    intros t' r' [_ Er']%lookup_delete_Some. by apply Hb.
  - intros key t' [Ek Hn]%map_lookup_filter_Some. cbn in Hn. destruct (ok_keys _ _ Hdb _ _ Ek) as (r & Er' & Ho).
    exists r. rewrite lookup_delete_ne; [done|]. intros <-. apply Hn. rewrite Er in Er'. injection Er' as <-.
    by rewrite Ho in Hkw |- *.
  - intros t' Ht. destruct (decide (t' = t)) as [->|]; [by rewrite lookup_delete_eq|].
    rewrite lookup_insert_ne in Ht by done. rewrite lookup_delete_ne by done. by apply (ok_erased _ _ Hdb).
  - intros t' r pin [_ Er']%lookup_delete_Some Hp. destruct (ok_pins _ _ Hdb _ _ _ Er' Hp) as [k Hk]. rewrite (Hpk _ _ Hk). done.
  - intros t' r pin [_ Er']%lookup_delete_Some Hp. destruct (ok_layers _ _ Hdb _ _ _ Er' Hp) as (k & Hk & ?).
    exists k. split; [by apply Hpk|done].
  - destruct (ok_ranked _ _ Hdb) as [rank Hrank]. exists rank. intros t' r pin [_ Er']%lookup_delete_Some Hp [pr [_ Epr]%lookup_delete_Some].
    by apply (Hrank t' r).
Qed.

Lemma sync_unwritable s handle db head :
  mem_heads db !! handle = Some head -> head_writes s (head_owner head) (head_kind head) = false ->
  sync_memory_head s handle db = db.
Proof. intros Eh Hw. unfold sync_memory_head. by rewrite Eh, Hw. Qed.

Lemma erase_ok s t owner db db' :
  db_ok db -> erase_memory_in_lifecycle s t owner db = Ok db' -> db_ok db'.
Proof.
  intros Hdb. unfold erase_memory_in_lifecycle. intros E.
  destruct (select_owned s true t owner db) as [row|] eqn:Es; [|discriminate E]. cbn in E.
  apply select_owned_row in Es as [Er <-].
  destruct (pg_ok (delete_memory _ _ _ _)) as [db1|] eqn:Ed; [|discriminate E]. injection E as <-.
  apply pg_ok_Ok in Ed. unfold delete_memory in Ed. rewrite Er, N.eqb_refl in Ed. cbn [andb] in Ed.
  rewrite delete_keys_sync. destruct (memory_writes s true row) eqn:Ew.
  - assert (mem_erased db !! t = None) as Hn.
    { destruct (mem_erased db !! t) eqn:Ee; [|done]. rewrite (ok_erased _ _ Hdb t) in Er; [done|by rewrite Ee]. }
    unfold record_erased_pin_target in Ed. rewrite Hn in Ed. injection Ed as <-.
    apply sync_ok; [by apply deleted_ok|]. cbn. by apply (writes_head s db t).
  - injection Ed as <-. destruct (ok_rows _ _ Hdb _ _ Er) as (_ & head & Eh & Hal).
    rewrite (sync_unwritable _ _ _ head); [by apply delete_keys_ok|done|]. by rewrite (head_writes_row s row).
Qed.
(** ** Preparing an admission *)

Lemma mint_ok g now random store_number floor id g' :
  generator_ok g -> length random = 16 -> Forall byte_ok random -> (store_number < 2 ^ 16)%N ->
  (forall f, floor = Some f -> id_ok f) ->
  mint_memory_uuid g now random store_number floor = Some (id, g') ->
  generator_ok g' /\ forall t, id = Some t -> id_ok t /\ forall f, floor = Some f -> (f < t)%N.
Proof.
  intros Hg Hlen Hok Hs Hf. unfold mint_memory_uuid. intros E. destruct (clock_millis now) as [millis|]; [|discriminate E].
  injection E as E. set (c := mk_Call millis random store_number floor). change (mint_call g c = (id, g')) in E.
  assert (call_ok c) as Hc by (repeat split; try done; intros; by apply Hf).
  split; [by eapply mint_call_ok|]. intros t ->. pose proof (mint_position g c Hg Hc) as Hm. rewrite E in Hm.
  destruct Hm as (_ & Hhigh & Hver & _ & _ & _ & Hpast). split; [split|].
  - destruct (position_in_layout t) as [Hms Hcnt]. unfold position, MAX_MILLIS in *. cbn [fst snd] in *.
    assert (t / 2 ^ 64 < 2 ^ 64)%N as Hd by (rewrite Hhigh; change (2 ^ 48)%N with 281474976710656%N in *; lia).
    apply N.nle_gt. intros Hle. apply (N.Div0.div_le_mono _ _ (2 ^ 64)) in Hle.
    change (2 ^ 128 / 2 ^ 64)%N with (2 ^ 64)%N in Hle. lia.
  - rewrite Hver. done.
  - intros f ->. destruct (Hf f eq_refl). apply pos_lt_uuid; [done..|]. apply Hpast. by right.
Qed.

Lemma draw_ok env i store_number g t g' :
  draws_ok env -> generator_ok g -> (store_number < 2 ^ 16)%N ->
  draw_memory_uuid env i store_number g = Some (t, g') -> generator_ok g' /\ id_ok t.
Proof.
  unfold draw_memory_uuid, new_memory_uuid. intros Henv Hg Hs E. destruct (Henv i) as [Hlen Hok].
  destruct (env_draw env i) as [now random]. destruct (mint_memory_uuid _ _ _ _ _) as [[id g1]|] eqn:Em; [|discriminate E].
  destruct id as [id|]; [|discriminate E]. injection E as <- <-.
  apply mint_ok in Em as [Hg' Hid]; try done. split; [done|]. by apply Hid.
Qed.

Lemma head_id_ok s handle db t : db_ok db -> select_head s handle db = Some t -> id_ok t.
Proof.
  unfold select_head. intros Hdb E. destruct (mem_heads db !! handle) as [head|] eqn:Eh; [|discriminate E]. cbn in E.
  destruct (head_reads _ _ _); [|discriminate E]. injection E as <-.
  destruct (ok_heads _ _ Hdb _ _ ltac:(tauto) Eh) as (best & Eb & _). by apply (ok_rows _ _ Hdb) in Eb as [? _].
Qed.

Lemma admission_handle_ok env admission identity g handle fresh g' :
  draws_ok env -> generator_ok g -> (ad_store_number admission < 2 ^ 16)%N ->
  admission_handle env admission identity g = Some (handle, fresh, g') ->
  generator_ok g' /\ (is_Some identity -> fresh = true).
Proof.
  unfold admission_handle. intros Henv Hg Hs E. destruct identity as [[h t]|].
  { injection E as <- <- <-. done. }
  split; [|by intros []]. destruct (cmd_handle _); [by injection E as <- <- <-|].
  destruct (let* key := _ in _); [by injection E as <- <- <-|].
  destruct (draw_memory_uuid _ _ _ _) as [[h g1]|] eqn:Ed; [|discriminate E]. injection E as <- <- <-.
  by apply draw_ok in Ed as [? _].
Qed.

Lemma admission_t_ok env store_number identity expected g t g' :
  draws_ok env -> generator_ok g -> (store_number < 2 ^ 16)%N ->
  (forall handle t, identity = Some (handle, t) -> id_ok t) -> (forall f, expected = Some f -> id_ok f) ->
  admission_t env store_number identity expected g = Some (t, g') ->
  generator_ok g' /\ forall id, t = Ok id -> id_ok id /\ (identity = None -> forall f, expected = Some f -> (f < id)%N).
Proof.
  unfold admission_t. intros Henv Hg Hs Hi He E. destruct identity as [[handle i]|].
  { injection E as <- <-. split; [done|]. intros id [= <-]. split; [by eapply Hi|done]. }
  destruct expected as [head|].
  - destruct (Henv 1) as [Hlen Hok]. destruct (env_draw env 1) as [now random]. unfold new_memory_uuid_after in E.
    destruct (mint_memory_uuid _ _ _ _ _) as [[id g1]|] eqn:Em; [|discriminate E]. injection E as <- <-.
    apply mint_ok in Em as [Hg' Hid]; try done. split; [done|]. intros t Et. destruct id as [id|]; [|discriminate Et].
    injection Et as <-. by destruct (Hid id eq_refl).
  - destruct (draw_memory_uuid _ _ _ _) as [[id g1]|] eqn:Ed; [|discriminate E]. injection E as <- <-.
    apply draw_ok in Ed as [? ?]; try done. split; [done|]. by intros ? [= <-].
Qed.

Lemma prepare_new_ok env s admission options kind origins refs goal_refs key owner_id g db result g' :
  db_ok db -> draws_ok env -> options_ok options -> generator_ok g -> (ad_store_number admission < 2 ^ 16)%N ->
  owner_id = OwnerId_0 (ad_owner admission) ->
  prepare_new env s admission options kind origins refs goal_refs key owner_id g db = Some (result, g') ->
  generator_ok g' /\ forall prepared, result = Ok prepared -> pending_ok prepared.
Proof.
  intros Hdb Henv Hopt Hg Hs Ho. unfold prepare_new. cbv zeta. intros E.
  destruct (admission_handle _ _ _ _) as [[[handle fresh] g1]|] eqn:Eh; [|discriminate E].
  apply admission_handle_ok in Eh as [Hg1 Hfresh]; try done. cbn in E.
  destruct (admission_t _ _ _ _ _) as [[t g2]|] eqn:Et; [|discriminate E].
  apply admission_t_ok in Et as [Hg2 Ht]; try done; [|intros f; by apply head_id_ok].
  destruct t as [t|e]; apply Some_pair_inj in E as [<- <-]; (split; [done|]); [|done].
  intros prepared <-%Ok_inj. destruct (Ht t eq_refl) as [Hid Hlt]. split; [done|]. split; [done|]. cbn.
  intros head Hhead Hff. apply Hlt; [|done]. destruct (opt_identity options); [|done].
  rewrite Hfresh in Hff; [done|by eexists].
Qed.

Lemma prepare_ok env s admission options g db result g' :
  db_ok db -> draws_ok env -> options_ok options -> generator_ok g -> (ad_store_number admission < 2 ^ 16)%N ->
  prepare_memory_admission_at env s admission options g db = Some (result, g') ->
  generator_ok g' /\ forall prepared, result = Ok prepared -> pending_ok prepared.
Proof.
  intros Hdb Henv Hopt Hg Hs. unfold prepare_memory_admission_at. intros E.
  assert (forall e : StorageError, Some (Err e, g) = Some (result, g') ->
    generator_ok g' /\ forall prepared, result = Ok prepared -> pending_ok prepared) as Herr by (by intros e [= <- <-]).
  destruct (let? kind := _ in _) as [[kind origins]|e]; [|by apply (Herr e)].
  destruct (pin_reference_ids _) as [refs goal_refs]. destruct (fact_pins _ _ _) as [origins' refs'].
  destruct (decide_admission_replay _ _ _ _ _) as [decision|]; [|discriminate E]. cbn in E.
  destruct decision as [decision|e]; [|by apply (Herr e)].
  assert (forall key, match admission_fences env s admission db with
          | Err e => Some (Err e, g)
          | Ok owner_id => prepare_new env s admission options kind origins' refs' goal_refs key owner_id g db
          end = Some (result, g') -> generator_ok g' /\ forall prepared, result = Ok prepared -> pending_ok prepared) as Hnew.
  { intros key. destruct (admission_fences _ _ _ _) as [owner_id|e] eqn:Ef; [|by apply Herr].
    apply prepare_new_ok; try done. unfold admission_fences, ensure_owner_row in Ef. by run_ok. }
  destruct decision as [|outcome|key]; [by apply (Hnew None)| |by apply (Hnew (Some key))].
  injection E as <- <-. split; [done|]. by intros prepared [= <-].
Qed.

(** ** A transfer moves a whole series *)

(** What the rows of a series keep when it moves. *)
Definition same_version (row row' : MemoryRow) : Prop :=
  row_handle row' = row_handle row /\ row_kind row' = row_kind row /\ row_schema row' = row_schema row /\
  row_origins row' = row_origins row /\ row_refs row' = row_refs row /\ row_forgotten_at row' = row_forgotten_at row.

(** The series of [handle] belongs to [to_id], and its keys are gone. *)
Record transferred (handle to_id : Uuid) (db db' : MemoryDb) : Prop := {
  tr_heads : exists head, mem_heads db !! handle = Some head /\
    mem_heads db' = <[handle := mk_HeadRow (head_kind head) (head_schema head) to_id (head_t head)]> (mem_heads db);
  tr_rows : exists f, (forall t, mem_rows db' !! t = f t <$> mem_rows db !! t) /\
    forall t row, mem_rows db !! t = Some row -> same_version row (f t row) /\
      row_owner (f t row) = if decide (row_handle row = handle) then to_id else row_owner row;
  tr_keys key t : mem_keys db' !! key = Some t <->
    mem_keys db !! key = Some t /\ forall row, mem_rows db !! t = Some row -> row_handle row <> handle;
  tr_erased : mem_erased db' = mem_erased db;
}.

Lemma series_ts_elem handle from_id db t :
  db_ok db -> (exists head, mem_heads db !! handle = Some head /\ head_owner head = from_id) ->
  t ∈ series_ts handle from_id db <-> exists row, mem_rows db !! t = Some row /\ row_handle row = handle.
Proof.
  intros Hdb (head & Eh & Ho). unfold series_ts. rewrite list_elem_of_fmap. split.
  - intros ([t' row] & -> & [[Hh _] Hin%elem_of_map_to_list]%list_elem_of_filter). by exists row.
  - intros (row & Er & Hh). exists (t, row). split; [done|]. apply list_elem_of_filter. split; [|by apply elem_of_map_to_list].
    split; [done|]. cbn. apply (ok_rows _ _ Hdb) in Er as (_ & head' & Eh' & (_ & _ & Ha)). rewrite Hh in Eh'. congruence.
Qed.

Lemma transfer_legs from_id to_id handle cited head db :
  db_ok db -> mem_heads db !! handle = Some head -> head_owner head = from_id ->
  let db' := run_generated_transfer_legs from_id to_id (series_ts handle from_id db) (remap_cited handle cited db) in
  transferred handle to_id db
    (set_heads (<[handle := mk_HeadRow (head_kind head) (head_schema head) to_id (head_t head)]> (mem_heads db)) db').
Proof.
  intros Hdb Eh Ho db'.
  assert (forall t, t ∈ series_ts handle from_id db <-> exists row, mem_rows db !! t = Some row /\ row_handle row = handle) as Hts
    by (intros t; apply series_ts_elem; [done|by exists head]).
  constructor; cbn; [by exists head| | |done].
  - eexists (fun t row => let row := if (row_handle row =? handle)%N then set_row_cited (cited t row) row else row in
      if slice_contains t (series_ts handle from_id db) && (row_owner row =? from_id)%N then set_row_owner to_id row else row).
    split; [intros t; rewrite !map_lookup_imap; by destruct (mem_rows db !! t)|]. intros t row Er. cbv zeta.
    destruct (decide (row_handle row = handle)) as [Hh|Hh].
    + rewrite (proj2 (N.eqb_eq _ _) Hh), (proj2 (slice_contains_true _ _)) by (apply Hts; by exists row). cbn.
      assert (row_owner row = from_id) as ->; [|by rewrite N.eqb_refl].
      apply (ok_rows _ _ Hdb) in Er as (_ & head' & Eh' & (_ & _ & Ha)). rewrite Hh, Eh in Eh'. congruence.
    + rewrite (proj2 (N.eqb_neq _ _) Hh). destruct (slice_contains t _) eqn:Ec; [|done].
      apply slice_contains_true, Hts in Ec as (row' & Er' & Hh'). congruence.
  - intros key t. rewrite map_lookup_filter_Some. cbn. rewrite Hts. split.
    + intros [Ek Hn]. split; [done|]. intros row Er Hh. apply Hn. by exists row.
    + intros [Ek Hn]. split; [done|]. intros (row & Er & Hh). by apply (Hn row).
Qed.

(** What a transfer that moves the series of [t] writes. *)
Lemma transfer_writes env t from_owner to_owner db db' :
  transfer_in_lifecycle env t from_owner to_owner db = Ok (Some db') ->
  exists row head groups cited, let handle := row_handle row in
    let from_id := OwnerId_0 from_owner in let to_id := OwnerId_0 to_owner in let before := set_groups groups db in
    mem_rows db !! t = Some row /\ mem_heads db !! handle = Some head /\ head_owner head = from_id /\
    db' = set_heads (<[handle := mk_HeadRow (head_kind head) (head_schema head) to_id (head_t head)]> (mem_heads db))
            (run_generated_transfer_legs from_id to_id (series_ts handle from_id before) (remap_cited handle cited before)).
Proof.
  intros E. unfold transfer_in_lifecycle, transfer_memory_t in E. case_bool_decide; [discriminate E|].
  destruct (mem_rows db !! t) as [row|]; [|discriminate E]. destruct (_ =? _)%N; [|discriminate E].
  destruct (te_untransferable _ _); [discriminate E|]. exists row. unfold transfer_memory_handle in E.
  destruct (ensure_owner_row _ _ _) as [[groups to_id]|] eqn:Eo; [|discriminate E].
  assert (to_id = OwnerId_0 to_owner) as -> by (unfold ensure_owner_row in Eo; by run_ok).
  cbv zeta in E. destruct (is_empty _); [discriminate E|]. destruct (_ || _); [discriminate E|].
  destruct (negb _); [discriminate E|]. cbn [set_groups mem_heads] in E.
  destruct (mem_heads db !! row_handle row) as [head|] eqn:Eh; [|discriminate E].
  destruct (N.eqb_spec (head_owner head) (OwnerId_0 from_owner)) as [Hfrom|]; [|discriminate E]. cbn [negb] in E.
  destruct (negb _); [discriminate E|]. destruct (te_uploads_published _ _ _); [|discriminate E].
  destruct (te_cited _ _ _ _) as [cited|]; [|discriminate E]. unfold persist_series_head_transfer in E. cbn in E.
  rewrite Eh, Hfrom, !N.eqb_refl in E. injection E as <-. by exists head, groups, cited.
Qed.

Lemma transfer_shape env t from_owner to_owner db db' :
  db_ok db -> transfer_in_lifecycle env t from_owner to_owner db = Ok (Some db') ->
  exists row, mem_rows db !! t = Some row /\ transferred (row_handle row) (OwnerId_0 to_owner) db db'.
Proof.
  intros Hdb (row & head & groups & cited & Er & Eh & Ho & ->)%transfer_writes. exists row. split; [done|].
  assert (db_ok (set_groups groups db)) as Hdb' by (by apply (same_tables_ok _ db)).
  destruct (transfer_legs (OwnerId_0 from_owner) (OwnerId_0 to_owner) (row_handle row) cited head _ Hdb' Eh Ho) as [T1 T2 T3 T4].
  by constructor.
Qed.

Lemma transferred_row handle to_id db db' t row :
  transferred handle to_id db db' -> mem_rows db' !! t = Some row ->
  exists old, mem_rows db !! t = Some old /\ same_version old row /\
    row_owner row = if decide (row_handle old = handle) then to_id else row_owner old.
Proof.
  intros [_ (f & Hf & Hv) _ _] Er. rewrite Hf in Er. apply fmap_Some in Er as (old & Eo & ->).
  exists old. split; [done|]. by apply Hv.
Qed.

Lemma transferred_version handle to_id db db' t old :
  transferred handle to_id db db' -> mem_rows db !! t = Some old ->
  exists row, mem_rows db' !! t = Some row /\ same_version old row.
Proof. intros [_ (f & Hf & Hv) _ _] Eo. exists (f t old). rewrite Hf, Eo. split; [done|]. by apply Hv. Qed.

Lemma transferred_kinds handle to_id db db' pin : transferred handle to_id db db' -> pin_kind db' pin = pin_kind db pin.
Proof.
  intros Htr. unfold pin_kind. rewrite (tr_erased _ _ _ _ Htr). destruct (mem_rows db !! pin) as [old|] eqn:Eo.
  - destruct (transferred_version _ _ _ _ _ _ Htr Eo) as (row & -> & (_ & -> & _)). done.
  - destruct (mem_rows db' !! pin) as [row|] eqn:Er; [|done].
    destruct (transferred_row _ _ _ _ _ _ Htr Er) as (old & ? & _). congruence.
Qed.

Lemma transferred_newest handle to_id db db' h t : transferred handle to_id db db' -> newest db h t -> newest db' h t.
Proof.
  intros Htr (row & Er & Hh & Hall). destruct (transferred_version _ _ _ _ _ _ Htr Er) as (new & En & Hv).
  destruct Hv as (Vh & _ & _ & _ & _ & Vf). exists new. split; [done|]. split; [congruence|]. intros t' row' Er' Hh'.
  destruct (transferred_row _ _ _ _ _ _ Htr Er') as (old & Eo & (Oh & _ & _ & _ & _ & Of) & _).
  unfold live in *. rewrite Vf, Of. apply (Hall t' old Eo). congruence.
Qed.

Lemma transferred_ok handle to_id db db' : db_ok db -> transferred handle to_id db db' -> db_ok db'.
Proof.
  intros Hdb Htr. pose proof (transferred_row handle to_id db db') as Hrow.
  destruct (tr_heads _ _ _ _ Htr) as (head & Eh & Eheads). constructor.
  - intros t row Er. destruct (Hrow t row Htr Er) as (old & Eo & (Vh & Vk & Vs & _) & Hown).
    destruct (ok_rows _ _ Hdb _ _ Eo) as (Hid & head' & Eh' & (A1 & A2 & A3)). split; [done|]. rewrite Eheads, Vh.
    destruct (decide (row_handle old = handle)) as [Hh|Hne].
    + rewrite Hh, lookup_insert_eq. rewrite Hh, Eh in Eh'. injection Eh' as <-. eexists. split; [done|]. split_and!; cbn; congruence.
    + rewrite lookup_insert_ne by done. exists head'. split; [done|]. split_and!; congruence.
  - intros h hd Hs Ehd. rewrite Eheads in Ehd. eapply transferred_newest; [done|].
    destruct (decide (h = handle)) as [->|Hne].
    + rewrite lookup_insert_eq in Ehd. injection Ehd as <-. exact (ok_heads _ _ Hdb handle head Hs Eh).
    + rewrite lookup_insert_ne in Ehd by done. by apply (ok_heads _ _ Hdb).
  - intros key t [Ek Hnot]%(tr_keys _ _ _ _ Htr). destruct (ok_keys _ _ Hdb _ _ Ek) as (old & Eo & Ho).
    destruct (transferred_version _ _ _ _ _ _ Htr Eo) as (row & Er & _). exists row. split; [done|].
    destruct (Hrow t row Htr Er) as (old' & Eo' & _ & ->). rewrite Eo in Eo'. injection Eo' as <-.
    rewrite decide_False; [done|]. by apply Hnot.
  - intros t. rewrite (tr_erased _ _ _ _ Htr). intros He%(ok_erased _ _ Hdb). destruct (mem_rows db' !! t) as [row|] eqn:Er; [|done].
    destruct (Hrow t row Htr Er) as (old & ? & _). congruence.
  - intros t row pin Er Hpin. destruct (Hrow t row Htr Er) as (old & Eo & (_ & _ & _ & Vo & Vr & _) & _).
    rewrite (transferred_kinds _ _ _ _ _ Htr). apply (ok_pins _ _ Hdb t old); [done|]. unfold row_pins in *. by rewrite <-Vo, <-Vr.
  - intros t row pin Er Hpin. destruct (Hrow t row Htr Er) as (old & Eo & (_ & Vk & _ & Vo & _) & _).
    rewrite (transferred_kinds _ _ _ _ _ Htr), Vk. apply (ok_layers _ _ Hdb t old); [done|by rewrite <-Vo].
  - destruct (ok_ranked _ _ Hdb) as [rank Hrank]. exists rank. intros t row pin Er Hpin [p Ep].
    destruct (Hrow t row Htr Er) as (old & Eo & (_ & _ & _ & Vo & Vr & _) & _).
    destruct (Hrow pin p Htr Ep) as (q & Eq & _). apply (Hrank t old pin Eo); [|by rewrite Eq].
    unfold row_pins in *. by rewrite <-Vo, <-Vr.
Qed.

(** ** Every reachable store is well-formed *)

Lemma store_step_ok st st' : store_ok st -> store_step st st' -> store_ok st'.
Proof.
  intros (Hdb & Hg & Hopen) Hstep.
  destruct Hstep as [st process env s admission options result g Henv Hopt Hs E|st pending blob content db outcome Hin E
    |st now s t owner kinds db E|st restorable s t owner kinds db E|st s t owner db E|st env t from_owner to_owner db E
    |st groups goals closed|st t Hr He]; unfold store_ok; cbn.
  - apply prepare_ok in E as [Hg' Hp]; try done. split; [done|]. split.
    + intros q. unfold generator_of. cbn. destruct (decide (q = process)) as [->|].
      * by rewrite lookup_insert_eq.
      * rewrite lookup_insert_ne by done. apply Hg.
    + destruct result as [prepared|]; [|done]. constructor; [by apply Hp|done].
  - split; [|done]. apply finish_shape in E as [Hsame|(p & row & Ep & Hadm & _)]; [by eapply same_tables_ok|].
    eapply admitted_ok; [done| |exact Hadm]. rewrite <-Ep. exact (Forall_elem _ _ _ Hopen Hin).
  - split; [|done]. by eapply forget_ok.
  - split; [|done]. by eapply restore_ok.
  - split; [|done]. by eapply erase_ok.
  - split; [|done]. apply transfer_shape in E as (row & _ & Htr); [|done]. by eapply transferred_ok.
  - split; [|done]. by apply (same_tables_ok _ (st_db st)).
  - split; [|done]. destruct Hdb as [R1 R2 R3 R4 R5 R6 R7].
    assert (forall pin k, pin_kind (st_db st) pin = Some k ->
      pin_kind (set_erased (<[t := None]> (mem_erased (st_db st))) (st_db st)) pin = Some k) as Hp.
    { intros pin k. unfold pin_kind. cbn. destruct (mem_rows _ !! pin); [done|].
      destruct (decide (pin = t)) as [->|]; [by rewrite He|by rewrite lookup_insert_ne]. }
    constructor; try done; cbn.
    + intros t' Ht. destruct (decide (t' = t)) as [->|]; [done|]. apply R4. by rewrite lookup_insert_ne in Ht.
    + intros t' row pin Er Hpin. destruct (R5 _ _ _ Er Hpin) as [k Hk]. rewrite (Hp _ _ Hk). done.
    + intros t' row pin Er Hpin. destruct (R6 _ _ _ Er Hpin) as (k & Hk & ?). exists k. split; [by apply Hp|done].
Qed.

Lemma empty_store_ok groups : store_ok (empty_store groups).
Proof.
  split; [|split; [|constructor]].
  - constructor; cbn; try (intros *; rewrite lookup_empty; by intros).
    exists (fun _ => 0). intros *. by rewrite lookup_empty.
  - intros process p. unfold generator_of. cbn. by rewrite lookup_empty.
Qed.

Lemma reachable_ok st : reachable st -> store_ok st.
Proof.
  intros [groups Hr]. pose proof (empty_store_ok groups) as Hempty. revert Hempty.
  induction Hr; eauto using store_step_ok.
Qed.
(** ** Erased versions stay erased *)

Lemma erase_shape s t owner db db' :
  erase_memory_in_lifecycle s t owner db = Ok db' ->
  exists row, mem_rows db !! t = Some row /\ row_owner row = owner /\
  (memory_writes s true row = true -> mem_erased db !! t = None -> mem_erased db' = <[t := Some (row_kind row)]> (mem_erased db)) /\
  (mem_erased db' = mem_erased db \/ mem_erased db !! t = None /\ mem_erased db' = <[t := Some (row_kind row)]> (mem_erased db)).
Proof.
  unfold erase_memory_in_lifecycle. intros E.
  destruct (select_owned s true t owner db) as [row|] eqn:Es; [|discriminate E]. cbn in E.
  apply select_owned_row in Es as [Er <-].
  destruct (pg_ok (delete_memory _ _ _ _)) as [db1|] eqn:Ed; [|discriminate E]. injection E as <-.
  apply pg_ok_Ok in Ed. unfold delete_memory, record_erased_pin_target in Ed. rewrite Er, N.eqb_refl in Ed. cbn [andb] in Ed.
  exists row. split; [done|]. split; [done|]. cbn. destruct (sync_rest s (row_handle row) db1) as (_ & _ & ->).
  destruct (memory_writes s true row); [|injection Ed as <-; split; [done|by left]].
  destruct (mem_erased db !! t) eqn:Ee; [case_bool_decide; [|discriminate Ed]|]; injection Ed as <-.
  - split; [done|by left].
  - split; [done|by right].
Qed.

Lemma step_erased st st' t k :
  store_step st st' -> mem_erased (st_db st) !! t = Some k -> mem_erased (st_db st') !! t = Some k.
Proof.
  intros Hstep Hk.
  destruct Hstep as [|st pending blob content db outcome Hin E|st now s t0 owner kinds db E
    |st restorable s t0 owner kinds db E|st s t0 owner db E|st env t0 from_owner to_owner db E| |st t0 Hr He]; cbn in *; try done.
  - apply finish_shape in E as [(_ & _ & _ & ->)|(p & row & _ & Hadm & _)]; [done|]. by destruct (adm_erased _ _ _ _ _ Hadm) as [-> _].
  - apply forget_marks in E as (handle & ->). by destruct (sync_rest s handle (update_forgotten_at t0 (Some now) (st_db st))) as (_ & _ & ->).
  - apply restore_marks in E as [->|(handle & ->)]; [done|].
    by destruct (sync_rest s handle (update_forgotten_at t0 None (st_db st))) as (_ & _ & ->).
  - apply erase_shape in E as (row & _ & _ & _ & [->|[Hn ->]]); [done|]. rewrite lookup_insert_ne; [done|congruence].
  - by apply transfer_writes in E as (row & head & groups & cited & _ & _ & _ & ->).
  - rewrite lookup_insert_ne; [done|congruence].
Qed.

Lemma steps_erased st st' t k :
  rtc store_step st st' -> mem_erased (st_db st) !! t = Some k -> mem_erased (st_db st') !! t = Some k.
Proof. induction 1; eauto using step_erased. Qed.

Lemma steps_ok st st' : store_ok st -> rtc store_step st st' -> store_ok st'.
Proof. intros Hst Hr. revert Hst. induction Hr; eauto using store_step_ok. Qed.

(** ** What the invariant says *)

(** [t] pins [pin]. *)
Definition pins (db : MemoryDb) (t pin : Uuid) : Prop :=
  exists row, mem_rows db !! t = Some row /\ pin ∈ row_pins row.

Lemma pins_ranked db (rank : Uuid -> nat) :
  (forall t row pin, mem_rows db !! t = Some row -> pin ∈ row_pins row -> is_Some (mem_rows db !! pin) -> rank pin < rank t) ->
  forall t t', tc (pins db) t t' -> is_Some (mem_rows db !! t') -> rank t' < rank t.
Proof.
  intros Hrank t t' Ht. induction Ht as [t t' (row & Er & Hp)|t t1 t' (row & Er & Hp) Ht IH]; intros Ht'; [by eapply Hrank|].
  assert (is_Some (mem_rows db !! t1)) as Ht1 by (destruct Ht as [?? (r & Hr & _)|??? (r & Hr & _)]; by rewrite Hr).
  specialize (IH Ht'). specialize (Hrank _ _ _ Er Hp Ht1). lia.
Qed.

(** C16. In every store reached by admissions, revisions, forgets, restores,
    erasures and transfers in any interleaving, by any sessions and processes, the head of
    a series names its newest live version, or its newest version when none is
    live; and every version belongs to a series whose head has its kind, schema
    and owner. *)
Theorem series_head_is_newest_live st :
  reachable st ->
  (forall handle head, mem_heads (st_db st) !! handle = Some head -> newest (st_db st) handle (head_t head)) /\
  (forall t row, mem_rows (st_db st) !! t = Some row ->
     exists head, mem_heads (st_db st) !! row_handle row = Some head /\ aligned head row).
Proof.
  intros (Hdb & _)%reachable_ok. split.
  - intros handle head. apply (ok_heads _ _ Hdb). tauto.
  - intros t row Er. by apply (ok_rows _ _ Hdb) in Er as [_ ?].
Qed.

(** C18. In every reachable store provenance is complete, layered and acyclic:
    what a version pins is a version or the recorded kind of an erased one; a
    Fact has no origins, those of an Abstraction are Facts and Abstractions,
    those of a Perspective Abstractions; no version reaches itself by pins. *)
Theorem provenance_is_layered st t row :
  reachable st -> mem_rows (st_db st) !! t = Some row ->
  (forall pin, pin ∈ row_pins row -> is_Some (pin_kind (st_db st) pin)) /\
  (forall pin, pin ∈ row_origins row ->
     exists kind, pin_kind (st_db st) pin = Some kind /\ row_kind row <> FactMemory /\ origin_kinds (row_kind row) kind = true) /\
  ~ tc (pins (st_db st)) t t.
Proof.
  intros (Hdb & _)%reachable_ok Er. split; [|split].
  - intros pin. by apply (ok_pins _ _ Hdb t).
  - intros pin. by apply (ok_layers _ _ Hdb t).
  - destruct (ok_ranked _ _ Hdb) as [rank Hrank]. intros Hc. apply (pins_ranked _ rank Hrank) in Hc; [lia|by eexists].
Qed.

(** C19. Erasing a version is final: whatever runs afterwards, no version, key
    or head names it again, and what pins it still reads its kind. *)
Theorem erasure_is_final st s t owner row db st' :
  reachable st -> mem_rows (st_db st) !! t = Some row -> memory_writes s true row = true ->
  erase_memory_in_lifecycle s t owner (st_db st) = Ok db ->
  rtc store_step (mk_Store db (st_generators st) (st_open st)) st' ->
  mem_rows (st_db st') !! t = None /\ pin_kind (st_db st') t = Some (row_kind row) /\
  (forall key, mem_keys (st_db st') !! key <> Some t) /\
  (forall handle head, mem_heads (st_db st') !! handle = Some head -> head_t head <> t).
Proof.
  intros Hst%reachable_ok Er Hw E Hsteps. pose proof (proj1 Hst) as Hdb.
  assert (mem_erased (st_db st) !! t = None) as Hn.
  { destruct (mem_erased (st_db st) !! t) eqn:Ee; [|done]. rewrite (ok_erased _ _ Hdb t) in Er; [done|by rewrite Ee]. }
  assert (mem_erased db !! t = Some (Some (row_kind row))) as Hk.
  { apply erase_shape in E as (r & Er' & _ & Hins & _). rewrite Er in Er'. injection Er' as <-.
    by rewrite Hins, lookup_insert_eq. }
  apply (steps_erased _ _ t (Some (row_kind row)) Hsteps) in Hk.
  apply (steps_ok _ _ (store_step_ok _ _ Hst (step_erase _ _ _ _ _ E))) in Hsteps as (Hdb' & _).
  assert (mem_rows (st_db st') !! t = None) as Hr by (apply (ok_erased _ _ Hdb'); by rewrite Hk).
  split; [done|]. split; [unfold pin_kind; by rewrite Hr, Hk|]. split.
  - intros key Ek. destruct (ok_keys _ _ Hdb' _ _ Ek) as (r & ? & _). congruence.
  - intros handle head Eh <-. destruct (ok_heads _ _ Hdb' _ _ ltac:(tauto) Eh) as (best & ? & _). congruence.
Qed.
End series.

(** ** A series, run *)

Module SampleMemory.

#[export] Instance sample_pg_texts : PgText := fun _ => [].
#[export] Instance sample_digest : Digest := {| blake3 l := l; hex_encode l := l |}.
#[export] Instance sample_uuid_texts : UuidText := {| hyphenated := display_u64; try_parse _ := None |}.

Definition owner : Uuid := 7%N.
Definition session : MemorySession :=
  mk_MemorySession (mk_PgSession false [owner] [owner] [owner]) [owner] [owner] [owner] [owner] (fun _ => false).

(** The clock stands at [millis]; every random byte is zero. *)
Definition env (millis : Z) : AdmissionEnv :=
  mk_AdmissionEnv (fun _ => ((millis * 1000000)%Z, repeat 0%N 16)) (fun _ => true) (fun _ _ _ => None)
    (fun _ _ _ _ => 99%N) (fun _ => Ok tt).

Definition draft (kind : MemoryKind) (handle : option Uuid) (request : option RequestKey) (origins : list EdgeEndpoint) :
    MemoryAdmissionDraft :=
  mk_MemoryAdmissionDraft 3 None (mk_OwnerId owner) (mk_WriterAttribution owner None)
    (mk_FactWriteCommand (mk_SchemaId (str "note")) handle None None [] (Some (str "text")) None None None kind request)
    origins [] [] [].

Definition reserved (handle t : Uuid) (forked_from : option Uuid) : PreparationOptions :=
  mk_PreparationOptions (Some (handle, t)) [] [] forked_from.
Definition plain : PreparationOptions := mk_PreparationOptions None [] [] None.

Definition fact_origin (t : Uuid) : EdgeEndpoint := mk_EdgeEndpoint EntityFact (EntityMemory (mk_MemoryId t)).

(** A Fact, its revision, and an Abstraction of the first. *)
Definition admit_all : list MemoryOp :=
  [OpPrepare 1 (env 1000) session (draft FactMemory None None []) (reserved 1 100 None); OpFinish 0;
   OpPrepare 1 (env 1001) session (draft FactMemory (Some 1%N) None []) plain; OpFinish 0;
   OpPrepare 1 (env 1002) session (draft AbstractionMemory None None [fact_origin 100]) (reserved 2 200 None); OpFinish 0].

Definition start : Store := empty_store (mk_GroupDb ∅ ∅ ∅ ∅).
Definition ran (ops : list MemoryOp) : Store := default start (run_ops start ops).

Definition head_of (st : Store) (handle : Uuid) : Uuid :=
  match mem_heads (st_db st) !! handle with Some head => head_t head | None => 0%N end.

Definition revision : Uuid := head_of (ran admit_all) 1.
Definition forget_revision : list MemoryOp := admit_all ++ [OpForget 5 session revision owner].
Definition erase_fact : list MemoryOp := forget_revision ++ [OpErase session 100 owner].

Lemma env_draws millis : draws_ok (env millis).
Proof. intros i. split; [done|]. by repeat constructor. Qed.

Lemma reserved_ok handle t forked_from :
  (t <? 2 ^ 16)%N = true -> (uuid_version t <=? 8)%N = true -> options_ok (reserved handle t forked_from).
Proof.
  intros Ht%N.ltb_lt Hv%N.leb_le h u [= <- <-]. split; [|done]. etransitivity; [exact Ht|]. done.
Qed.

Lemma plain_ok : options_ok plain.
Proof. done. Qed.

#[export] Hint Resolve env_draws plain_ok : proxiima.

Ltac op_ok :=
  first [exact I | split; [apply env_draws|split; [first [exact plain_ok | apply reserved_ok; reflexivity]|reflexivity]]].
Ltac ops_ok := repeat (apply Forall_cons_2; [op_ok|]); apply Forall_nil_2.

Lemma ran_reachable ops : Forall op_ok ops -> is_some (run_ops start ops) = true -> reachable (ran ops).
Proof.
  intros Hops E. unfold ran. destruct (run_ops start ops) as [st|] eqn:Er; [|discriminate E].
  exists (mk_GroupDb ∅ ∅ ∅ ∅). by eapply run_ops_steps.
Qed.

Lemma forgotten_run : reachable (ran forget_revision).
Proof. apply ran_reachable; [ops_ok|vm_compute; reflexivity]. Qed.

(** The revision forgotten, the first version is the head again. *)
Lemma series_head_is_newest_live_witness : newest (st_db (ran forget_revision)) 1 100.
Proof.
  apply (proj1 (series_head_is_newest_live (ran forget_revision) forgotten_run) 1%N
    (mk_HeadRow FactMemory (mk_SchemaId (str "note")) owner 100)).
  vm_compute. reflexivity.
Defined.

Definition abstraction_row : MemoryRow :=
  default (mk_MemoryRow 0 FactMemory 0 (mk_SchemaId []) None None None None [] [] [] [] [] None (mk_WriterAttribution 0 None) None
    None None)
    (mem_rows (st_db (ran forget_revision)) !! 200%N).

Lemma provenance_is_layered_witness :
  row_origins abstraction_row = [100%N] /\ ~ tc (pins (st_db (ran forget_revision))) 200%N 200%N.
Proof.
  split; [vm_compute; reflexivity|].
  apply (provenance_is_layered (ran forget_revision) 200%N abstraction_row forgotten_run). vm_compute. reflexivity.
Defined.

Definition fact_row : MemoryRow := default abstraction_row (mem_rows (st_db (ran forget_revision)) !! 100%N).
Definition after_erase : Store :=
  mk_Store (st_db (ran erase_fact)) (st_generators (ran forget_revision)) (st_open (ran forget_revision)).

(** The Abstraction still reads that its erased origin was a Fact. *)
Lemma erasure_is_final_witness :
  row_kind fact_row = FactMemory /\ mem_rows (st_db after_erase) !! 100%N = None /\
  pin_kind (st_db after_erase) 100 = Some (row_kind fact_row).
Proof.
  split; [vm_compute; reflexivity|].
  destruct (erasure_is_final (ran forget_revision) session 100 owner fact_row (st_db (ran erase_fact)) after_erase)
    as (Hn & Hk & _);
    [exact forgotten_run|vm_compute; reflexivity|vm_compute; reflexivity|vm_compute; reflexivity|constructor|].
  split; [exact Hn|exact Hk].
Defined.

End SampleMemory.
