(* ===== verification/MemoryReplay.v ===== *)
(** * Replays of a request and of a source's observation

    A keyed request is admitted once: while its version is neither erased nor
    transferred to another owner, a later admission under the same owner, scope
    and key replays it, or is refused where its content differs
    (storage-pg/src/verbs/request_keys.rs).
    The search for a re-observation's next key ends at the first free one
    (storage-pg/src/verbs/memory_timeseries.rs). *)

From S2P Require Import Prelude Utf8 Ids Bytes GroupForest Json CanonicalJson Publication Errors OwnerScope.
From S2P Require Import Authz Groups MemoryUuid Idempotency Fingerprint MemoryStore Admission MemoryLifecycle.
From S2P Require Import MemorySeries.

Section replay.
Context `{PgText, Digest, UuidText}.

(** ** The ledger rows of a request *)

(** The bytes behind the fingerprint row. *)
Definition fingerprint_preimage (request : RequestKey) : list N :=
  let key := bytes (IdempotencyKey.as_str (rk_key request)) in len_be key ++ key ++ rk_fingerprint request.

Lemma rows_differ owner request request' : request_row owner request <> fingerprint_row owner request'.
Proof. by injection 1. Qed.

Lemma fingerprint_row_inj `{!DigestLaws} owner r r' :
  (blake3 (fingerprint_preimage r) = blake3 (fingerprint_preimage r') -> fingerprint_preimage r = fingerprint_preimage r') ->
  rk_key r = rk_key r' -> fingerprint_row owner r = fingerprint_row owner r' -> rk_fingerprint r = rk_fingerprint r'.
Proof.
  intros Hinj Hk E. unfold fingerprint_row, RequestKey.fingerprint_row_key in E. cbv zeta in E.
  apply (f_equal snd) in E. cbn [snd] in E. apply app_inv_head, hex_encode_inj, Hinj in E.
  unfold fingerprint_preimage in E. rewrite Hk in E. by apply app_inv_head, app_inv_head in E.
Qed.

(** The ledger with a request claimed for [t]. *)
Definition claimed_keys (owner : OwnerId) (request : RequestKey) (t : Uuid) (keys : gmap IngestKey Uuid) :
    gmap IngestKey Uuid :=
  let keys := <[request_row owner request := t]> keys in
  match keys !! fingerprint_row owner request with
  | None => <[fingerprint_row owner request := t]> keys
  | Some _ => keys
  end.

Lemma claimed_keys_spec owner request t keys key :
  keys !! fingerprint_row owner request = None -> (forall key, keys !! key <> Some t) ->
  claimed_keys owner request t keys !! key = Some t <->
  key = request_row owner request \/ key = fingerprint_row owner request.
Proof.
  intros Hf Hn. unfold claimed_keys. cbv zeta. rewrite lookup_insert_ne by apply rows_differ. rewrite Hf.
  destruct (decide (key = fingerprint_row owner request)) as [->|Hk]; [rewrite lookup_insert_eq; tauto|].
  rewrite lookup_insert_ne by done.
  destruct (decide (key = request_row owner request)) as [->|]; [rewrite lookup_insert_eq; tauto|].
  rewrite lookup_insert_ne by done. split; [by intros ?%Hn|by intros [?|?]].
Qed.

Lemma write_reads_keys s owner : keys_write s owner = true -> keys_read s owner = true.
Proof. unfold keys_read. by intros ->. Qed.

(** What the ledger answers to a session that sees the version it names. *)
Lemma judge_held s owner request db t row :
  mem_keys db !! request_row owner request = Some t -> mem_rows db !! t = Some row -> row_owner row = OwnerId_0 owner ->
  keys_read s (OwnerId_0 owner) = true -> memory_reads s true t row = true ->
  judge_request s owner request db =
    if bool_decide (mem_keys db !! fingerprint_row owner request = Some t)
    then Ok (Replay (mk_RequestReplay t (row_handle row) (negb (live row))))
    else Err (StorageIdempotencyConflict (IdempotencyKey.as_str (rk_key request)) (Some t)).
Proof.
  intros Ek Er Ho Hk Hr. unfold judge_request, select_key. cbn [fst request_row fingerprint_row]. rewrite Hk.
  fold (request_row owner request). fold (fingerprint_row owner request). rewrite Ek. unfold select_owned, select_memory.
  rewrite Er. cbn. rewrite Hr. cbn. rewrite (proj2 (N.eqb_eq _ _) Ho). by case_bool_decide.
Qed.

Lemma judge_replays s owner request db t verdict :
  keys_write s (OwnerId_0 owner) = true -> mem_keys db !! request_row owner request = Some t ->
  judge_request s owner request db = Ok verdict ->
  exists row, mem_rows db !! t = Some row /\ mem_keys db !! fingerprint_row owner request = Some t /\
    verdict = Replay (mk_RequestReplay t (row_handle row) (negb (live row))).
Proof.
  intros Hk%write_reads_keys Ek E.
  destruct (select_owned s true t (OwnerId_0 owner) db) as [row|] eqn:Es.
  - pose proof Es as Hs. apply select_owned_row in Es as [Er Ho]. unfold select_owned, select_memory in Hs. rewrite Er in Hs.
    cbn in Hs. destruct (memory_reads s true t row) eqn:Hr; [|discriminate Hs].
    rewrite (judge_held s owner request db t row) in E by done. case_bool_decide; [|discriminate E].
    injection E as <-. by exists row.
  - unfold judge_request, select_key in E. cbn [fst request_row] in E. rewrite Hk in E.
    fold (request_row owner request) in E. rewrite Ek, Es in E. discriminate E.
Qed.

(** ** A finished admission with a key *)

Lemma claim_request_cases s owner request t db db' verdict :
  claim_request s owner request t db = Ok (db', verdict) ->
  (mem_keys db !! request_row owner request = None /\ verdict = Fresh /\
   db' = set_keys (claimed_keys owner request t (mem_keys db)) db) \/
  (exists held row, mem_keys db !! request_row owner request = Some held /\ mem_rows db !! held = Some row /\
   mem_keys db !! fingerprint_row owner request = Some held /\ db' = db /\
   verdict = Replay (mk_RequestReplay held (row_handle row) (negb (live row)))).
Proof.
  unfold claim_request. intros E.
  destruct (pg_ok (insert_key s (request_row _ _) _ _)) as [[db1 claimed]|] eqn:E1; [|discriminate E].
  apply pg_ok_Ok in E1. pose proof E1 as Hw. unfold insert_key in Hw. require_next Hw. clear Hw.
  apply insert_key_Ok in E1 as [(-> & -> & [held Hh])|(-> & Hn & ->)].
  - right. destruct (judge_request s owner request db) as [v|] eqn:Ej; [|discriminate E]. injection E as <- <-.
    destruct (judge_replays s owner request db held v) as (row & ? & ? & ->); try done. by exists held, row.
  - left. destruct (pg_ok (insert_key _ _ _ _)) as [[db2 c]|] eqn:E2; [|discriminate E]. injection E as <- <-.
    split; [done|]. split; [done|]. unfold claimed_keys. cbv zeta.
    apply pg_ok_Ok, insert_key_Ok in E2 as [(_ & -> & [h Hh])|(_ & Hf & ->)]; cbn in *; by rewrite ?Hh, ?Hf.
Qed.

Lemma finish_request env s p blob content db db' outcome request :
  cmd_request (prep_draft p) = Some request ->
  finish_admission env s (PreparedNew p) blob content db = Ok (db', outcome) ->
  (mem_keys db !! request_row (prep_owner p) request = None /\ out_idempotent_replay outcome = false /\
   mem_keys db' = claimed_keys (prep_owner p) request (prep_t p) (mem_keys db)) \/
  (exists held row, mem_keys db !! request_row (prep_owner p) request = Some held /\ mem_rows db !! held = Some row /\
   mem_keys db !! fingerprint_row (prep_owner p) request = Some held /\ same_tables db db' /\
   outcome = replay_outcome (mk_RequestReplay held (row_handle row) (negb (live row)))).
Proof.
  intros Hreq. unfold finish_admission. intros E.
  destruct (ensure_owner_row _ _ _) as [[groups o]|]; [|discriminate E].
  cbn [lock_prepared_memory_admission] in E. set (db1 := set_groups groups db) in E.
  assert (same_tables db db1) as Hsame by done. destruct (validate_prepared_memory_head _ _ _); [|discriminate E].
  cbn [claim_prepared_memory_admission] in E. rewrite Hreq in E.
  destruct (claim_request _ _ _ _ _) as [[db2 verdict]|] eqn:Ec; [|discriminate E].
  apply claim_request_cases in Ec as [(Hn & -> & ->)|(held & row & Hk & Hr & Hf & -> & ->)].
  - left. split; [done|]. apply materialize_shape in E as (Hout & _ & r & Hkeys & _). by rewrite Hkeys.
  - right. injection E as <- <-. by exists held, row.
Qed.

(** ** The keys of a version last as long as it does *)

Lemma mark_keys_rows s handle t0 at_ db t :
  let db' := sync_memory_head s handle (update_forgotten_at t0 at_ db) in
  mem_keys db' = mem_keys db /\ (is_Some (mem_rows db !! t) -> is_Some (mem_rows db' !! t)).
Proof.
  cbv zeta. destruct (sync_rest s handle (update_forgotten_at t0 at_ db)) as (-> & -> & _). split; [done|]. cbn.
  intros [row Er]. destruct (decide (t = t0)) as [->|]; [rewrite lookup_alter_eq, Er|rewrite lookup_alter_ne by done]; by eexists.
Qed.

Lemma delete_memory_shape s t owner db db' :
  delete_memory s t owner db = Ok db' ->
  mem_keys db' = mem_keys db /\ (forall t', t' <> t -> mem_rows db' !! t' = mem_rows db !! t').
Proof.
  unfold delete_memory, record_erased_pin_target. intros E. destruct (mem_rows db !! t); [|by injection E as <-].
  destruct (_ && _); [|by injection E as <-].
  destruct (mem_erased db !! t); [case_bool_decide; [|discriminate E]|]; injection E as <-; (split; [done|]);
    intros t' Ht; cbn; by rewrite lookup_delete_ne.
Qed.

Lemma erase_other s t0 owner db db' t :
  erase_memory_in_lifecycle s t0 owner db = Ok db' -> t <> t0 ->
  (forall key, mem_keys db' !! key = Some t <-> mem_keys db !! key = Some t) /\ mem_rows db' !! t = mem_rows db !! t.
Proof.
  unfold erase_memory_in_lifecycle. intros E Hne. destruct (ok_or _ _) as [handle|]; [|discriminate E].
  destruct (pg_ok _) as [db1|] eqn:Ed; [|discriminate E]. injection E as <-.
  apply pg_ok_Ok, delete_memory_shape in Ed as [Hk Hr]. cbn.
  destruct (sync_rest s handle db1) as (-> & -> & _). split; [|by apply Hr]. intros key.
  rewrite map_lookup_filter_Some, Hk. cbn. naive_solver.
Qed.

Definition same_keys_of (t : Uuid) (db db' : MemoryDb) : Prop :=
  (forall key, mem_keys db' !! key = Some t <-> mem_keys db !! key = Some t) /\ is_Some (mem_rows db' !! t).

Lemma same_tables_keys_of t db db' : same_tables db db' -> is_Some (mem_rows db !! t) -> same_keys_of t db db'.
Proof. intros (Hk & _ & Hr & _) Ht. unfold same_keys_of. by rewrite Hk, Hr. Qed.

Lemma admitted_keys_of s p row db db' t :
  admitted s p row db db' -> is_Some (mem_rows db !! t) -> same_keys_of t db db'.
Proof.
  intros [_ Hkeys _ _ _ [Hrows Hnone] _ _ _] Ht.
  assert (t <> prep_t p) as Hne by (intros ->; rewrite Hnone in Ht; by destruct Ht).
  split; [|by rewrite Hrows, lookup_insert_ne]. intros key.
  destruct Hkeys as [Hk|Hk]; (destruct (Hk key) as [->|(-> & -> & _)]; [done|]); split; congruence.
Qed.

(** The transaction that takes the keys of [t] away: its erasure, or the transfer
    of its series. *)
Definition keys_released (t : Uuid) (db db' : MemoryDb) : Prop :=
  (exists s owner, erase_memory_in_lifecycle s t owner db = Ok db') \/
  (exists env t' from_owner to_owner row row', transfer_in_lifecycle env t' from_owner to_owner db = Ok (Some db') /\
     mem_rows db !! t = Some row /\ mem_rows db !! t' = Some row' /\ row_handle row = row_handle row').

Lemma transfer_keys_of env t' from_owner to_owner db db' t :
  db_ok db -> transfer_in_lifecycle env t' from_owner to_owner db = Ok (Some db') -> is_Some (mem_rows db !! t) ->
  same_keys_of t db db' \/ keys_released t db db'.
Proof.
  intros Hdb E [row Er]. pose proof E as Htr. apply transfer_shape in Htr as (row' & Er' & Htr); [|done].
  destruct (decide (row_handle row = row_handle row')) as [Hh|Hh].
  { right. right. by exists env, t', from_owner, to_owner, row, row'. }
  left. destruct (transferred_version _ _ _ _ _ _ Htr Er) as (new & En & _). split; [|by rewrite En].
  intros key. rewrite (tr_keys _ _ _ _ Htr). split; [by intros [? _]|]. intros Ek. split; [done|]. intros r Er2. congruence.
Qed.

Lemma step_keys_of st st' t :
  store_ok st -> store_step st st' -> is_Some (mem_rows (st_db st) !! t) ->
  same_keys_of t (st_db st) (st_db st') \/ keys_released t (st_db st) (st_db st').
Proof.
  intros [Hdb _] Hstep Ht.
  destruct Hstep as [|st pending blob content db outcome Hin E|st now s t0 owner kinds db E
    |st restorable s t0 owner kinds db E|st s t0 owner db E|st env t0 from_owner to_owner db E| |]; cbn in *;
    try (left; by apply same_tables_keys_of).
  - left. apply finish_shape in E as [Hsame|(p & row & _ & Hadm & _)]; [by apply same_tables_keys_of|by eapply admitted_keys_of].
  - left. apply forget_marks in E as (handle & ->).
    destruct (mark_keys_rows s handle t0 (Some now) (st_db st) t) as [Hk Hr]. unfold same_keys_of. rewrite Hk. by split; [|apply Hr].
  - left. apply restore_marks in E as [->|(handle & ->)]; [done|].
    destruct (mark_keys_rows s handle t0 None (st_db st) t) as [Hk Hr]. unfold same_keys_of. rewrite Hk. by split; [|apply Hr].
  - destruct (decide (t = t0)) as [<-|Hne]; [right; left; by exists s, owner|left].
    apply (erase_other _ _ _ _ _ t) in E as [Hk Hr]; [|done]. split; [done|by rewrite Hr].
  - by eapply transfer_keys_of.
  - by left.
Qed.

(** The keys of a version, at any later point before they are released. *)
Lemma keys_of_last st st' t :
  store_ok st -> rtc store_step st st' -> is_Some (mem_rows (st_db st) !! t) ->
  same_keys_of t (st_db st) (st_db st') \/
  exists st1 st2, rtc store_step st st1 /\ store_step st1 st2 /\ rtc store_step st2 st' /\
    keys_released t (st_db st1) (st_db st2).
Proof.
  intros Hst Hr Ht. revert Hst Ht. induction Hr as [st|st st1 st' Hstep Hr IH]; intros Hst Ht; [by left|].
  destruct (step_keys_of st st1 t Hst Hstep Ht) as [[Hk Ht1]|E].
  - destruct (IH (store_step_ok _ _ Hst Hstep) Ht1) as [[Hk' Ht']|(st2 & st3 & R1 & R2 & R3 & E)].
    + left. split; [|done]. intros key. by rewrite Hk'.
    + right. exists st2, st3. split; [by eapply rtc_l|done].
  - right. exists st, st1. split; [constructor|done].
Qed.

(** ** Re-observations *)

Section observations.
Context (s : MemorySession) (owner_id : Uuid) (source_id key : rstring) (refs goal_refs : list Uuid) (db : MemoryDb).

(** The row of the [n]th re-observation. *)
Definition observation_row (n : N) : IngestKey := (owner_id, source_id, reobservation_key key n).

(** What the search ends with, from [latest] on. *)
Definition observed (latest : FactIngestOutcome) (from : N) (decision : result ReplayDecision StorageError) : Prop :=
  match decision with
  | Err _ => True
  | Ok DecideAdmit => False
  | Ok (DecideReobserve next_key) =>
      exists n, (from <= n)%N /\ next_key = reobservation_key key n /\ select_key s (observation_row n) db = None /\
        forall i, (from <= i < n)%N -> is_Some (select_key s (observation_row i) db)
  | Ok (DecideReplay outcome) =>
      outcome = latest /\ select_key s (observation_row from) db = None \/
      exists n, (from <= n)%N /\ select_key s (observation_row n) db = Some (MemoryId_0 (out_memory_id outcome)) /\
        select_key s (observation_row (n + 1)) db = None
  end.

Lemma load_ingest_key k found :
  load_ingest_replay s owner_id source_id k refs goal_refs db = Ok found ->
  select_key s (owner_id, source_id, k) db = (fun o => MemoryId_0 (out_memory_id o)) <$> found.
Proof.
  unfold load_ingest_replay. intros E. destruct (select_key _ _ _) as [t|]; [|by injection E as <-].
  destruct (select_owned _ _ _ _ _) as [row|]; [|discriminate E]. destruct (negb _); [discriminate E|]. by injection E as <-.
Qed.

Lemma observed_later latest latest' n decision :
  select_key s (observation_row n) db = Some (MemoryId_0 (out_memory_id latest')) ->
  observed latest' (n + 1) decision -> observed latest n decision.
Proof.
  intros Hn. destruct decision as [[|outcome|next_key]|]; cbn; [done| | |done].
  - intros [[-> Hnext]|(m & Hm & Hs & Hnext)]; right; [by exists n|]. exists m. split; [lia|done].
  - intros (m & Hm & -> & Hs & Hall). exists m. split; [lia|]. split; [done|]. split; [done|]. intros i Hi.
    destruct (decide (i = n)) as [->|]; [by rewrite Hn|]. apply Hall. lia.
Qed.

(** The rows found so far are as many as the turns taken. *)
Lemma found_bound (k : nat) :
  (forall i j, (i < 2 ^ 64)%N -> (j < 2 ^ 64)%N -> reobservation_key key i = reobservation_key key j -> i = j) ->
  (N.of_nat k < 2 ^ 64)%N ->
  (forall i, (1 <= i < 1 + N.of_nat k)%N -> is_Some (mem_keys db !! observation_row i)) -> k <= size (mem_keys db).
Proof.
  intros Hinj Hk Hall.
  set (found := list_to_set (C := gset IngestKey) ((fun i => observation_row (N.of_nat i)) <$> seq 1 k)).
  assert (size found = k) as Hsize.
  { unfold found. rewrite size_list_to_set; [by rewrite length_fmap, length_seq|].
    apply NoDup_fmap_2_strong; [|apply NoDup_seq]. intros i j Hi%elem_of_seq Hj%elem_of_seq E.
    injection E as E. apply Hinj in E; lia. }
  rewrite <-Hsize, <-(size_dom (D := gset IngestKey)). apply subseteq_size. intros row [i [-> Hi%elem_of_seq]]%elem_of_list_to_set%list_elem_of_fmap.
  apply elem_of_dom, Hall. lia.
Qed.

Lemma latest_observation_ends fuel latest (k : nat) :
  (forall i j, (i < 2 ^ 64)%N -> (j < 2 ^ 64)%N -> reobservation_key key i = reobservation_key key j -> i = j) ->
  (N.of_nat (size (mem_keys db)) + 1 < 2 ^ 64)%N -> fuel + k = observation_fuel db ->
  (forall i, (1 <= i < 1 + N.of_nat k)%N -> is_Some (mem_keys db !! observation_row i)) ->
  exists decision, latest_observation fuel s owner_id source_id key refs goal_refs db latest (1 + N.of_nat k) = Some decision /\
    observed latest (1 + N.of_nat k) decision.
Proof.
  intros Hinj Hsize. revert latest k. induction fuel as [|fuel IH]; intros latest k Hf Hall; unfold observation_fuel in Hf.
  { pose proof (found_bound k Hinj ltac:(lia) Hall). lia. }
  cbn [latest_observation]. pose proof (found_bound k Hinj ltac:(lia) Hall) as Hk.
  set (n := (1 + N.of_nat k)%N) in *.
  destruct (load_ingest_replay _ _ _ _ _ _ _) as [[outcome|]|] eqn:El; [apply load_ingest_key in El..|]; [| |by eexists].
  - assert (forall i, (1 <= i < 1 + N.of_nat (S k))%N -> is_Some (mem_keys db !! observation_row i)) as Hall'.
    { intros i Hi. destruct (decide (i = n)) as [->|]; [|apply Hall; lia].
      unfold select_key in El. destruct (keys_read _ _); [|discriminate El]. fold (observation_row n) in El. by rewrite El. }
    pose proof (found_bound (S k) Hinj ltac:(lia) Hall').
    rewrite (proj2 (N.ltb_lt (n + 1) _)) by lia. destruct (IH outcome (S k)) as (decision & E & Ho); [unfold observation_fuel; lia|done|].
    replace (1 + N.of_nat (S k))%N with (n + 1)%N in * by lia. exists decision. split; [done|]. exact (observed_later latest outcome n decision El Ho).
  - eexists. split; [done|]. destruct (displaced _ _ _ _); cbn; [|by left].
    exists n. split; [lia|]. split; [done|]. split; [done|]. lia.
Qed.
End observations.

(** ** What a client may rely on *)

(** The ledger of [st] answers every request that repeats [request]: no session
    admits it again, and one that sees the version gets it, or the conflict. *)
Definition answers (owner : OwnerId) (request : RequestKey) (t : Uuid) (st : Store) : Prop :=
  exists row, mem_rows (st_db st) !! t = Some row /\ row_owner row = OwnerId_0 owner /\
  forall repeat, rk_scope repeat = rk_scope request -> rk_key repeat = rk_key request ->
    (blake3 (fingerprint_preimage repeat) = blake3 (fingerprint_preimage request) ->
     fingerprint_preimage repeat = fingerprint_preimage request) ->
    let replay := mk_RequestReplay t (row_handle row) (negb (live row)) in
    (forall env s p blob content db outcome,
       prep_owner p = owner -> cmd_request (prep_draft p) = Some repeat ->
       finish_admission env s (PreparedNew p) blob content (st_db st) = Ok (db, outcome) ->
       same_tables (st_db st) db /\ outcome = replay_outcome replay /\ rk_fingerprint repeat = rk_fingerprint request) /\
    (forall s, keys_read s (OwnerId_0 owner) = true -> memory_reads s true t row = true ->
       judge_request s owner repeat (st_db st) =
         if decide (rk_fingerprint repeat = rk_fingerprint request) then Ok (Replay replay)
         else Err (StorageIdempotencyConflict (IdempotencyKey.as_str (rk_key request)) (Some t))).

Lemma repeat_rows `{!DigestLaws} owner request repeat :
  rk_scope repeat = rk_scope request -> rk_key repeat = rk_key request ->
  (blake3 (fingerprint_preimage repeat) = blake3 (fingerprint_preimage request) ->
   fingerprint_preimage repeat = fingerprint_preimage request) ->
  request_row owner repeat = request_row owner request /\
  (fingerprint_row owner repeat = fingerprint_row owner request <-> rk_fingerprint repeat = rk_fingerprint request).
Proof.
  intros Hs Hk Hinj. split; [unfold request_row, RequestKey.request_row_key; by rewrite Hs, Hk|].
  split; [by apply fingerprint_row_inj|]. intros Hf. unfold fingerprint_row, RequestKey.fingerprint_row_key.
  by rewrite Hs, Hk, Hf.
Qed.

Lemma ledger_answers `{!DigestLaws} owner request t st :
  store_ok st ->
  (forall key, mem_keys (st_db st) !! key = Some t <-> key = request_row owner request \/ key = fingerprint_row owner request) ->
  answers owner request t st.
Proof.
  intros (Hdb & _) Hkeys. assert (mem_keys (st_db st) !! request_row owner request = Some t) as Hreq by (apply Hkeys; by left).
  destruct (ok_keys _ _ Hdb _ _ Hreq) as (row & Er & Ho). exists row. split; [done|]. split; [done|].
  intros repeat Hs Hk Hinj replay. destruct (repeat_rows owner request repeat Hs Hk Hinj) as [Hrow Hfp].
  assert (mem_keys (st_db st) !! fingerprint_row owner repeat = Some t <-> rk_fingerprint repeat = rk_fingerprint request) as Hf.
  { rewrite Hkeys, <-Hfp. split; [|by right]. intros [E|E]; [|done]. by apply eq_sym, rows_differ in E. }
  split.
  - intros env s p blob content db outcome <- Hp E. apply (finish_request _ _ _ _ _ _ _ _ repeat) in E; [|done].
    rewrite Hrow in E. destruct E as [[Hn _]|(held & r & Eh & Er' & Ef & Hsame & ->)]; [congruence|].
    rewrite Hreq in Eh. injection Eh as <-. rewrite Er in Er'. injection Er' as <-. split; [done|]. split; [done|]. by apply Hf.
  - intros s Hread Hsee. rewrite (judge_held s owner repeat (st_db st) t row), Hk by (by rewrite ?Hrow).
    case_decide as Hd; [rewrite bool_decide_true by (by apply Hf)|rewrite bool_decide_false by (by rewrite Hf)]; done.
Qed.

(** C17. A keyed request is admitted once.  After an admission under a key
    committed, at every later point either its version was erased or its series
    transferred to another owner in between, which give the key up, or every
    admission that repeats the owner, scope and key replays exactly that version
    and writes no version, head or key, whoever finishes it; and the ledger
    answers a session that sees the version with it, live or forgotten, when the
    content is the same, and with the conflict naming it when it is not.  Two
    things are taken of the digests: the ledger held no row under the request's
    fingerprint when it was admitted, and BLAKE3 does not give a repeat with other
    content the fingerprint row of the request. *)
Theorem keyed_request_admitted_once `{!DigestLaws} st env s p blob content request db outcome st' :
  reachable st -> mk_Pending env s (PreparedNew p) ∈ st_open st -> cmd_request (prep_draft p) = Some request ->
  mem_keys (st_db st) !! fingerprint_row (prep_owner p) request = None ->
  finish_admission env s (PreparedNew p) blob content (st_db st) = Ok (db, outcome) ->
  out_idempotent_replay outcome = false ->
  rtc store_step (mk_Store db (st_generators st) (st_open st)) st' ->
  answers (prep_owner p) request (prep_t p) st' \/
  exists st1 st2, rtc store_step (mk_Store db (st_generators st) (st_open st)) st1 /\ store_step st1 st2 /\
    rtc store_step st2 st' /\ keys_released (prep_t p) (st_db st1) (st_db st2).
Proof.
  intros Hst%reachable_ok Hin Hreq Hfp E Hout Hsteps. pose proof (proj1 Hst) as Hdb.
  pose proof (step_finish st _ blob content db outcome Hin E) as Hstep. pose proof (store_step_ok _ _ Hst Hstep) as Hst1.
  pose proof (finish_shape _ _ _ _ _ _ _ _ E) as Hshape.
  apply (finish_request _ _ _ _ _ _ _ _ request) in E as [(Hn & _ & Hkeys)|(held & row & _ & _ & _ & _ & ->)]; [|discriminate Hout|done].
  destruct Hshape as [(Hk & _)|(p' & row & [= <-] & Hadm & _)].
  { exfalso. rewrite Hk in Hkeys. rewrite Hkeys in Hn. unfold claimed_keys in Hn. cbv zeta in Hn.
    rewrite lookup_insert_ne in Hn by apply rows_differ. rewrite Hfp, lookup_insert_ne, lookup_insert_eq in Hn; [done|].
    apply not_eq_sym, rows_differ. }
  destruct (adm_rows _ _ _ _ _ Hadm) as [Hrows Hnone].
  destruct (keys_of_last _ _ (prep_t p) Hst1 Hsteps) as [[Hsame _]|Herased]; [cbn; by rewrite Hrows, lookup_insert_eq| |by right].
  left. apply ledger_answers; [by eapply steps_ok|]. intros key. rewrite Hsame. cbn. rewrite Hkeys.
  apply claimed_keys_spec; [done|]. intros k Hk. destruct (ok_keys _ _ Hdb _ _ Hk) as (r & ? & _). congruence.
Qed.

(** The search for a re-observation's key always ends, with the fuel the
    ledger's size gives: at the first free re-observation key, under which the
    displaced observation is admitted again, or with the last one found, which
    is replayed.  The keys of 64-bit counters are taken to be distinct, and the
    ledger to have fewer than 2^64 rows. *)
Theorem reobservation_search_ends s owner_id source_id key refs goal_refs db replay :
  (forall i j, (i < 2 ^ 64)%N -> (j < 2 ^ 64)%N -> reobservation_key key i = reobservation_key key j -> i = j) ->
  (N.of_nat (size (mem_keys db)) + 1 < 2 ^ 64)%N ->
  exists decision,
    latest_observation (observation_fuel db) s owner_id source_id key refs goal_refs db replay 1 = Some decision /\
    observed s owner_id source_id key db replay 1 decision.
Proof.
  intros Hinj Hsize. apply (latest_observation_ends s owner_id source_id key refs goal_refs db _ replay 0 Hinj Hsize); lia.
Qed.
End replay.

(** ** A keyed note, run *)

Module SampleReplay.
Import SampleMemory.

#[export] Instance sample_digest_laws : DigestLaws.
Proof. by constructor. Qed.

Definition request : RequestKey := mk_RequestKey ScopeNote (mk_IdempotencyKey (str "k")) [1; 2; 3]%N.
Definition keyed_note : MemoryAdmissionDraft := draft FactMemory None (Some request) [].

Definition prepare_note : list MemoryOp := [OpPrepare 1 (env 1000) session keyed_note (reserved 1 100 None)].
Definition admit_note : list MemoryOp := prepare_note ++ [OpFinish 0].
Definition forget_note : list MemoryOp := admit_note ++ [OpForget 5 session 100 owner].

Definition prepared_note : PreparedMemoryAdmissionNew :=
  mk_PreparedNew (mk_OwnerId owner) owner (mk_WriterAttribution owner None) (ad_draft keyed_note) FactMemory [] [] [] [] []
    1 true 100 (Some (Z.of_N (created_at 100))) None [100%N] None.

Definition admitted_note : Store :=
  mk_Store (st_db (ran admit_note)) (st_generators (ran prepare_note)) (st_open (ran prepare_note)).
Definition forgotten_note : Store :=
  mk_Store (st_db (ran forget_note)) (st_generators (ran prepare_note)) (st_open (ran prepare_note)).

Lemma note_is_forgotten : rtc store_step admitted_note forgotten_note.
Proof.
  apply rtc_once. apply (step_forget admitted_note 5 session 100 owner None (st_db (ran forget_note))).
  vm_compute. reflexivity.
Qed.

Lemma note_is_prepared : reachable (ran prepare_note).
Proof. apply ran_reachable; [ops_ok|vm_compute; reflexivity]. Qed.

(** The note is forgotten, and its key still answers. *)
Lemma keyed_request_admitted_once_witness :
  answers (mk_OwnerId owner) request 100 forgotten_note \/
  exists st1 st2, rtc store_step admitted_note st1 /\ store_step st1 st2 /\ rtc store_step st2 forgotten_note /\
    keys_released 100 (st_db st1) (st_db st2).
Proof.
  apply (keyed_request_admitted_once (ran prepare_note) (env 1000) session prepared_note None None request
    (st_db (ran admit_note)) (mk_FactIngestOutcome (mk_MemoryId 100) 1 false None false) forgotten_note).
  - exact note_is_prepared.
  - apply list_elem_of_here.
  - reflexivity.
  - vm_compute. reflexivity.
  - vm_compute. reflexivity.
  - reflexivity.
  - exact note_is_forgotten.
Defined.

(** Transferred to another owner, the note is no longer what the key answers:
    its former owner's key is free. *)
Example transferred_note_frees_its_key :
  mem_keys (st_db (ran admit_note)) !! request_row (mk_OwnerId owner) request = Some 100%N /\
  mem_keys (st_db (ran (admit_note ++ [OpTransfer 100 owner 8]))) !! request_row (mk_OwnerId owner) request = None /\
  row_owner <$> mem_rows (st_db (ran (admit_note ++ [OpTransfer 100 owner 8]))) !! 100%N = Some 8%N.
Proof. by vm_compute. Qed.

Lemma sample_reobservation_keys i j :
  (i < 2 ^ 64)%N -> (j < 2 ^ 64)%N -> reobservation_key (str "k") i = reobservation_key (str "k") j -> i = j.
Proof.
  intros Hi Hj E. unfold reobservation_key in E. apply app_inv_head, app_inv_head, app_inv_head in E.
  rewrite <-(from_to_be_bytes 8 i), <-(from_to_be_bytes 8 j) by done. by f_equal.
Qed.

Lemma reobservation_search_ends_witness :
  exists decision,
    latest_observation (observation_fuel (st_db start)) session owner (str "feed") (str "k") [] [] (st_db start)
      (mk_FactIngestOutcome (mk_MemoryId 100) 1 true None false) 1 = Some decision /\
    observed session owner (str "feed") (str "k") (st_db start) (mk_FactIngestOutcome (mk_MemoryId 100) 1 true None false) 1
      decision.
Proof.
  apply (reobservation_search_ends session owner (str "feed") (str "k") [] [] (st_db start)).
  - exact sample_reobservation_keys.
  - vm_compute. reflexivity.
Defined.

(** ** Two runs that comments rule out *)

Definition anchor_of (st : Store) : option (option Uuid) :=
  let* pending := st_open st !! 0 in
  match pend_prepared pending with PreparedNew p => Some (prep_forked_from p) | PreparedReplay _ => None end.

Definition fork : list MemoryOp :=
  [OpPrepare 1 (env 1000) session (draft FactMemory None None []) (reserved 1 100 None); OpFinish 0;
   OpPrepare 1 (env 1001) session (draft FactMemory None None []) (reserved 2 200 (Some 100%N)); OpFinish 0].
Definition revise_fork : MemoryOp := OpPrepare 1 (env 1002) session (draft FactMemory (Some 2%N) None []) plain.

(** A revision of a forked series keeps the anchor, but not when the head is
    forgotten: the row policy hides the row [inherited_fork_source] reads. *)
Example forgotten_head_loses_the_anchor :
  anchor_of (ran (fork ++ [revise_fork])) = Some (Some 100%N) /\
  anchor_of (ran (fork ++ [OpForget 5 session 200 owner; revise_fork])) = Some None.
Proof. by vm_compute. Qed.

(** Two writers prepare on the same head; the second commits and is forgotten,
    so the head is again the one the first expected, and the first commits with
    the smaller [t]. *)
Definition two_writers : list MemoryOp :=
  [OpPrepare 1 (env 1000) session (draft FactMemory None None []) (reserved 1 100 None); OpFinish 0;
   OpPrepare 1 (env 1000) session (draft FactMemory (Some 1%N) None []) plain;
   OpPrepare 2 (env 2000) session (draft FactMemory (Some 1%N) None []) plain; OpFinish 0].
Definition second_t : Uuid := head_of (ran two_writers) 1.
Definition first_commits : list MemoryOp := two_writers ++ [OpForget 5 session second_t owner; OpFinish 1].

Example expected_head_can_return :
  is_some (run_ops start first_commits) = true /\ (head_of (ran first_commits) 1 <? second_t)%N = true /\
  head_of (ran (first_commits ++ [OpRestore session second_t owner [FactMemory]])) 1 = second_t.
Proof. by vm_compute. Qed.

End SampleReplay.
