(* ===== verification/OidcKeys.v ===== *)
(** * Verification keys

    [crates/auth-oidc/src/keys.rs], up to the cache: which entry of a key set
    is a verification key, the pinned set of [StaticJwksResolver], and where
    and how [HttpJwksResolver] fetches a set.  The [jsonwebtoken] and [base64]
    crates, the JSON parser and the HTTP client are parameters; the reason of
    a refusal is kept as data, not as its text. *)

From S2P Require Import Prelude Ids Json Net Serde OidcConfig.

(** ** Algorithms and keys *)

Inductive AlgorithmFamily := Rsa | Ec | Ed | Hmac.

#[export] Instance AlgorithmFamily_eq_dec : EqDecision AlgorithmFamily.
Proof. solve_decision. Defined.

(** What the code uses of [jsonwebtoken]'s algorithms and keys, and of [base64]. *)
Class JwtKeys := {
  Algorithm : Type;
  Algorithm_eq_dec :: EqDecision Algorithm;
  RS256 : Algorithm;
  RS384 : Algorithm;
  RS512 : Algorithm;
  ES256 : Algorithm;
  EdDSA : Algorithm;
  algorithm_from_str : rstring -> option Algorithm;
  DecodingKey : Type;
  key_family : DecodingKey -> AlgorithmFamily;
  from_rsa_components : rstring -> rstring -> result DecodingKey rstring;
  from_ec_components : rstring -> rstring -> result DecodingKey rstring;
  from_ed_components : rstring -> result DecodingKey rstring;
  base64url_decode : rstring -> option (list N);
}.

(** A key built from the components of a type is of that type's family. *)
Class JwtKeyLaws `{JwtKeys} : Prop := {
  rsa_components_family n e k : from_rsa_components n e = Ok k -> key_family k = Rsa;
  ec_components_family x y k : from_ec_components x y = Ok k -> key_family k = Ec;
  ed_components_family x k : from_ed_components x = Ok k -> key_family k = Ed;
}.

Definition verified_algorithms `{JwtKeys} (family : AlgorithmFamily) : list Algorithm :=
  match family with
  | Rsa => [RS256; RS384; RS512]
  | Ec => [ES256]
  | Ed => [EdDSA]
  | Hmac => []
  end.

(** Why an entry is no verification key. *)
Inductive KeyRefusal :=
| ContradictingAlg (alg kty : rstring)
| OtherUse (key_use : rstring)
| PrivateMaterial
| LacksModulus
| OtherKty (kty : rstring)
| OtherCurve (crv kty : rstring)
| LacksCurve
| LacksCoordinate (name : rstring)
| CoordinateLength (name : rstring) (length : nat)
| CoordinateNotBase64 (name : rstring)
| UnusableKey (message : rstring).

Inductive JwksConfigError :=
| NoKeys
| NotWellFormed (index : nat) (error : SerdeError)
| NoKid (index : nat)
| NotUsable (kid : rstring) (reason : KeyRefusal)
| AppearsTwice (kid : rstring)
| IssuerMismatch
| DiscoveredUrl (error : OidcConfigError).

Inductive KeyError :=
| UnknownKid
| KeyFetch (message : rstring)
| KeyParse (message : rstring)
| KeyConfig (reason : JwksConfigError).

(** ** Entries *)

Record Jwk := mk_Jwk {
  jwk_kid : option rstring;
  jwk_kty : rstring;
  jwk_n : option rstring;
  jwk_e : option rstring;
  jwk_crv : option rstring;
  jwk_x : option rstring;
  jwk_y : option rstring;
  jwk_alg : option rstring;
  jwk_use : option rstring;
  jwk_d : bool;
}.

Definition jwk_fields : list Field :=
  [mk_Field (str "kid") is_opt_string; mk_Field (str "kty") is_string; mk_Field (str "n") is_opt_string;
   mk_Field (str "e") is_opt_string; mk_Field (str "crv") is_opt_string; mk_Field (str "x") is_opt_string;
   mk_Field (str "y") is_opt_string; mk_Field (str "alg") is_opt_string; mk_Field (str "use") is_opt_string;
   mk_Field (str "d") is_anything].

(** [Jwk::deserialize]; of the private part only its presence is read. *)
Definition jwk_deserialize (entry : Json) : result Jwk SerdeError :=
  let? members := struct_members false jwk_fields 0 entry in
  let opt name := opt_string_member name members in
  Ok (mk_Jwk (opt (str "kid")) (default [] (opt (str "kty"))) (opt (str "n")) (opt (str "e")) (opt (str "crv"))
        (opt (str "x")) (opt (str "y")) (opt (str "alg")) (opt (str "use"))
        (match Json.lookup (str "d") members with None | Some JNull => false | Some _ => true end)).

Definition COORDINATE_LEN : nat := 32.

Definition coordinate `{JwtKeys} (name : rstring) (value : option rstring) : result rstring KeyRefusal :=
  let? value := ok_or value (LacksCoordinate name) in
  match base64url_decode value with
  | Some bytes => if (length bytes =? COORDINATE_LEN)%nat then Ok value else Err (CoordinateLength name (length bytes))
  | None => Err (CoordinateNotBase64 name)
  end.

Module Jwk.
Section jwk.
Context `{JwtKeys}.

Definition check_public_signing_key (self : Jwk) (family : AlgorithmFamily) : result unit KeyRefusal :=
  let alg_refused alg :=
    negb (is_some_and (algorithm_from_str alg) (fun alg => slice_contains alg (verified_algorithms family))) in
  if is_some_and (jwk_alg self) alg_refused then Err (ContradictingAlg (default [] (jwk_alg self)) (jwk_kty self))
  else if is_some_and (jwk_use self) (fun key_use => negb (bool_decide (key_use = str "sig")))
  then Err (OtherUse (default [] (jwk_use self)))
  else if jwk_d self then Err PrivateMaterial
  else Ok tt.

Definition check_curve (self : Jwk) (supported : rstring) : result unit KeyRefusal :=
  match jwk_crv self with
  | Some crv => if bool_decide (crv = supported) then Ok tt else Err (OtherCurve crv (jwk_kty self))
  | None => Err LacksCurve
  end.

Definition verification_key (self : Jwk) : result DecodingKey KeyRefusal :=
  let? key :=
    (if bool_decide (jwk_kty self = str "RSA") then
       let? _ := check_public_signing_key self Rsa in
       match jwk_n self, jwk_e self with
       | Some n, Some e => Ok (from_rsa_components n e)
       | _, _ => Err LacksModulus
       end
     else if bool_decide (jwk_kty self = str "EC") then
       let? _ := check_public_signing_key self Ec in
       let? _ := check_curve self (str "P-256") in
       let? x := coordinate (str "x") (jwk_x self) in
       let? y := coordinate (str "y") (jwk_y self) in
       Ok (from_ec_components x y)
     else if bool_decide (jwk_kty self = str "OKP") then
       let? _ := check_public_signing_key self Ed in
       let? _ := check_curve self (str "Ed25519") in
       let? x := coordinate (str "x") (jwk_x self) in
       Ok (from_ed_components x)
     else Err (OtherKty (jwk_kty self))) in
  map_err UnusableKey key.

Definition set_kty (kty : rstring) (self : Jwk) : Jwk :=
  mk_Jwk (jwk_kid self) kty (jwk_n self) (jwk_e self) (jwk_crv self) (jwk_x self) (jwk_y self) (jwk_alg self)
    (jwk_use self) (jwk_d self).

Definition tolerant (self : Jwk) : Jwk :=
  if eq_ignore_ascii_case (jwk_kty self) (str "RSA")
     || (is_empty (jwk_kty self) && is_some (jwk_n self) && is_some (jwk_e self))
  then set_kty (str "RSA") self else self.

End jwk.
End Jwk.

(** [serde_json::Value] of a parsed document: of a repeated member the last
    one stays. *)
Fixpoint to_value (v : Json) : Json :=
  match v with
  | JArray items => JArray (map to_value items)
  | JObject members =>
      JObject (foldl (fun m kv => Json.insert kv.1 kv.2 m) [] (map (fun '(k, w) => (k, to_value w)) members))
  | _ => v
  end.

(** [JwkSet]. *)
Definition jwk_set (document : Json) : result (list Json) SerdeError :=
  let? members := struct_members false [mk_Field (str "keys") (fun v => is_some (Json.as_array v))] 0 document in
  let? keys := field (str "keys") members in
  let? items := ok_or (Json.as_array keys) (SerdeInvalidType (str "keys")) in
  Ok (to_value <$> items).

(** ** The pinned set *)

Abbreviation KeyMap := (gmap rstring DecodingKey).

Record StaticJwksResolver `{JwtKeys} := mk_StaticJwksResolver { static_keys : KeyMap }.

Module StaticJwksResolver.
Section static.
Context `{JwtKeys, SerdeText}.

(** One turn of the loop. *)
Definition add_entry (index : nat) (entry : Json) (keys : KeyMap) : result KeyMap KeyError :=
  let? jwk := map_err (fun err => KeyConfig (NotWellFormed index err)) (jwk_deserialize entry) in
  match jwk_kid jwk with
  | Some kid =>
      if is_empty (trim kid) then Err (KeyConfig (NoKid index))
      else
        let? key := map_err (fun reason => KeyConfig (NotUsable kid reason)) (Jwk.verification_key jwk) in
        if is_some (keys !! kid) then Err (KeyConfig (AppearsTwice kid)) else Ok (<[kid := key]> keys)
  | None => Err (KeyConfig (NoKid index))
  end.

Fixpoint add_entries (index : nat) (entries : list Json) (keys : KeyMap) : result KeyMap KeyError :=
  match entries with
  | [] => Ok keys
  | entry :: entries => let? keys := add_entry index entry keys in add_entries (S index) entries keys
  end.

Definition from_jwks_json (from_str : rstring -> result Json rstring) (raw : rstring) :
    result StaticJwksResolver KeyError :=
  let? document := map_err KeyParse (from_str raw) in
  let? set := map_err (fun err => KeyParse (serde_text err)) (jwk_set document) in
  if is_empty set then Err (KeyConfig NoKeys)
  else
    let? keys := add_entries 0 set ∅ in
    Ok (mk_StaticJwksResolver _ keys).

Definition key_for (self : StaticJwksResolver) (kid : rstring) : result DecodingKey KeyError :=
  ok_or (static_keys self !! kid) UnknownKid.

End static.
End StaticJwksResolver.

(** ** The fetched set *)

Definition JWKS_REFRESH_COOLDOWN : Duration := 60 * 1000000000.
Definition JWKS_MAX_AGE : Duration := 3600 * 1000000000.
Definition DEFAULT_HTTP_REQUEST_TIMEOUT : Duration := 10 * 1000000000.
Definition MAX_HTTP_REQUEST_TIMEOUT : Duration := 300 * 1000000000.
Definition MAX_RESPONSE_BYTES : N := 2 ^ 20.

(** What the code reads of a response that is no error status. *)
Record JwksResponse := mk_JwksResponse {
  jr_content_length : option N;
  jr_chunks : list (result (list N) rstring);
}.

Definition too_large : KeyError := KeyFetch (str "response exceeds " ++ display_u64 MAX_RESPONSE_BYTES ++ str " bytes").

Definition byte_count (l : list N) : N := N.of_nat (length l).

(** The loop over the chunks. *)
Fixpoint read_body (body : list N) (chunks : list (result (list N) rstring)) : result (list N) KeyError :=
  match chunks with
  | [] => Ok body
  | Err e :: _ => Err (KeyParse e)
  | Ok chunk :: chunks =>
      if (MAX_RESPONSE_BYTES <? byte_count body + byte_count chunk)%N then Err too_large
      else read_body (body ++ chunk) chunks
  end.

Definition validate_request_timeout (request_timeout : Duration) : result unit OidcConfigError :=
  if (request_timeout =? 0)%Z || (MAX_HTTP_REQUEST_TIMEOUT <? request_timeout)%Z
  then Err (OidcInvalidTimeout (str "OIDC HTTP request timeout") 300)
  else Ok tt.

(** The immutable part of the resolver; the cache and its clocks are in
    [JwksCache]. *)
Record HttpJwksResolver := mk_HttpJwksResolver {
  hr_issuer : rstring;
  hr_jwks_uri : option rstring;
  hr_request_timeout : Duration;
}.

(** [str::trim_end_matches], of a character. *)
Definition trim_end_matches (c : char) (s : rstring) : rstring :=
  let fix drop_front (l : rstring) : rstring :=
    match l with a :: l' => if (a =? c)%N then drop_front l' else l | [] => [] end in
  reverse (drop_front (reverse s)).

Module HttpJwksResolver.
Section http.
Context `{JwtKeys, SerdeText}.
Context (parse_uri : rstring -> result Uri rstring) (from_slice : list N -> result Json rstring).

Definition with_http_client (issuer : rstring) (jwks_uri : option rstring) (request_timeout : Duration) :
    result HttpJwksResolver OidcConfigError :=
  let? _ := validate_issuer_url parse_uri issuer in
  let? _ := (match jwks_uri with
             | Some uri => validate_jwks_url parse_uri (str "jwks_uri") uri issuer
             | None => Ok tt
             end) in
  let? _ := validate_request_timeout request_timeout in
  Ok (mk_HttpJwksResolver issuer jwks_uri request_timeout).

Definition with_request_timeout := with_http_client.

Definition new (issuer : rstring) (jwks_uri : option rstring) : result HttpJwksResolver OidcConfigError :=
  with_request_timeout issuer jwks_uri DEFAULT_HTTP_REQUEST_TIMEOUT.

(** [build_http_client]'s redirect policy: an error, or the client's default. *)
Definition redirect {A} (issuer target : rstring) (error : OidcConfigError -> A) (default_policy : A) : A :=
  match validate_jwks_url parse_uri (str "redirect target") target issuer with
  | Err e => error e
  | Ok _ => default_policy
  end.

(** What the network answers to the first and the second request of one
    refresh. *)
Context (get : nat -> rstring -> Duration -> result JwksResponse rstring).

Definition fetch_json {T} (deserialize : Json -> result T SerdeError) (self : HttpJwksResolver) (request : nat)
    (url : rstring) : result T KeyError :=
  let? response := map_err KeyFetch (get request url (hr_request_timeout self)) in
  if is_some_and (jr_content_length response) (fun len => MAX_RESPONSE_BYTES <? len)%N then Err too_large
  else
    let? body := read_body [] (jr_chunks response) in
    let? document := map_err KeyParse (from_slice body) in
    map_err (fun e => KeyParse (serde_text e)) (deserialize document).

(** [OpenIdConfig]: its [issuer] and [jwks_uri]. *)
Definition openid_config (document : Json) : result (rstring * rstring) SerdeError :=
  let? members := struct_members false
    [mk_Field (str "issuer") is_string; mk_Field (str "jwks_uri") is_string] 0 document in
  let? issuer := string_member (str "issuer") members in
  let? jwks_uri := string_member (str "jwks_uri") members in
  Ok (issuer, jwks_uri).

Definition discovery_url (self : HttpJwksResolver) : rstring :=
  trim_end_matches (chr "/") (hr_issuer self) ++ str "/.well-known/openid-configuration".

Definition jwks_endpoint (self : HttpJwksResolver) : result rstring KeyError :=
  match hr_jwks_uri self with
  | Some uri => Ok uri
  | None =>
      let? (issuer, jwks_uri) := fetch_json openid_config self 0 (discovery_url self) in
      if negb (bool_decide (issuer = hr_issuer self)) then Err (KeyConfig IssuerMismatch)
      else
        let? _ := map_err (fun err => KeyConfig (DiscoveredUrl err))
                    (validate_jwks_url parse_uri (str "discovered jwks_uri") jwks_uri (hr_issuer self)) in
        Ok jwks_uri
  end.

(** The key an entry of a fetched set is, with its name; [None] skips it. *)
Definition fetched_key (entry : Json) : option (rstring * DecodingKey) :=
  let* jwk := Jwk.tolerant <$> ok (jwk_deserialize entry) in
  let* kid := jwk_kid jwk in
  let* key := ok (Jwk.verification_key jwk) in
  Some (kid, key).

(** The loop over the entries. *)
Definition fetched_keys (entries : list Json) : KeyMap :=
  foldl (fun next entry =>
    match fetched_key entry with Some (kid, key) => <[kid := key]> next | None => next end) ∅ entries.

(** [refresh], up to the assignment of the cache. *)
Definition fetch_keys (self : HttpJwksResolver) : result KeyMap KeyError :=
  let? endpoint := jwks_endpoint self in
  let? entries := fetch_json jwk_set self 1 endpoint in
  let next := fetched_keys entries in
  if (size next =? 0)%nat then Err (KeyParse (str "jwks contained no named RSA, P-256 or Ed25519 keys"))
  else Ok next.

End http.
End HttpJwksResolver.

(** ** What makes an entry a key *)

Section entries.
Context `{JwtKeys}.

(** No algorithm but one of the family, no use but signing, no private part. *)
Definition public_signing (family : AlgorithmFamily) (jwk : Jwk) : Prop :=
  (forall alg, jwk_alg jwk = Some alg -> exists a, algorithm_from_str alg = Some a /\ a ∈ verified_algorithms family) /\
  (forall key_use, jwk_use jwk = Some key_use -> key_use = str "sig") /\
  jwk_d jwk = false.

(** A member that is a coordinate of 32 bytes. *)
Definition is_coordinate (value : option rstring) (c : rstring) : Prop :=
  value = Some c /\ exists bytes, base64url_decode c = Some bytes /\ length bytes = COORDINATE_LEN.

(** The key the type and the components of an entry make. *)
Inductive components (jwk : Jwk) : AlgorithmFamily -> DecodingKey -> Prop :=
| rsa_key n e k :
    jwk_kty jwk = str "RSA" -> jwk_n jwk = Some n -> jwk_e jwk = Some e -> from_rsa_components n e = Ok k ->
    components jwk Rsa k
| ec_key x y k :
    jwk_kty jwk = str "EC" -> jwk_crv jwk = Some (str "P-256") -> is_coordinate (jwk_x jwk) x ->
    is_coordinate (jwk_y jwk) y -> from_ec_components x y = Ok k -> components jwk Ec k
| ed_key x k :
    jwk_kty jwk = str "OKP" -> jwk_crv jwk = Some (str "Ed25519") -> is_coordinate (jwk_x jwk) x ->
    from_ed_components x = Ok k -> components jwk Ed k.

Lemma check_public_signing_key_Ok jwk family :
  Jwk.check_public_signing_key jwk family = Ok tt <-> public_signing family jwk.
Proof.
  unfold Jwk.check_public_signing_key, public_signing.
  destruct (is_some_and (jwk_alg jwk) _) eqn:Ea.
  { split; [done|]. intros (Ha & _). destruct (jwk_alg jwk) as [alg|]; [|discriminate Ea]. cbn in Ea.
    destruct (Ha alg eq_refl) as (a & Hp & Hin%slice_contains_true). by rewrite Hp in Ea; cbn in Ea; rewrite Hin in Ea. }
  destruct (is_some_and (jwk_use jwk) _) eqn:Eu.
  { split; [done|]. intros (_ & Hu & _). destruct (jwk_use jwk) as [u|]; [|discriminate Eu]. cbn [is_some_and] in Eu.
    by rewrite (Hu u eq_refl), bool_decide_true in Eu. }
  destruct (jwk_d jwk); split; try done; [by intros (_ & _ & ?)|]. intros _. split_and!; [| |done].
  - intros alg E. rewrite E in Ea. cbn in Ea. apply negb_false_iff in Ea.
    destruct (algorithm_from_str alg) as [a|]; [|discriminate Ea]. exists a. split; [done|]. by apply slice_contains_true.
  - intros u E. rewrite E in Eu. cbn [is_some_and] in Eu. apply negb_false_iff in Eu. by apply bool_decide_eq_true in Eu.
Qed.

Lemma coordinate_Ok name value c : coordinate name value = Ok c <-> is_coordinate value c.
Proof.
  unfold coordinate, is_coordinate. destruct value as [v|]; cbn [ok_or]; [|naive_solver].
  destruct (base64url_decode v) as [b|] eqn:Eb; [|naive_solver].
  destruct (Nat.eqb_spec (length b) COORDINATE_LEN); split; try naive_solver.
Qed.

Lemma check_curve_Ok jwk supported : Jwk.check_curve jwk supported = Ok tt <-> jwk_crv jwk = Some supported.
Proof.
  unfold Jwk.check_curve. destruct (jwk_crv jwk) as [c|]; [|done]. case_bool_decide; naive_solver.
Qed.

(** The families by the names of their key types. *)
Lemma kty_names_differ : str "RSA" <> str "EC" /\ str "RSA" <> str "OKP" /\ str "EC" <> str "OKP".
Proof. by vm_compute. Qed.

Lemma verification_key_Ok jwk k :
  Jwk.verification_key jwk = Ok k <-> exists family, components jwk family k /\ public_signing family jwk.
Proof.
  destruct kty_names_differ as (N1 & N2 & N3). unfold Jwk.verification_key. split.
  - intros E. destruct (bool_decide (jwk_kty jwk = str "RSA")) eqn:K1; [|destruct (bool_decide (jwk_kty jwk = str "EC")) eqn:K2;
      [|destruct (bool_decide (jwk_kty jwk = str "OKP")) eqn:K3; [|discriminate E]]]; bools.
    all: destruct (Jwk.check_public_signing_key jwk _) as [[]|] eqn:Ep; [|discriminate E]; apply check_public_signing_key_Ok in Ep.
    + destruct (jwk_n jwk) as [n|] eqn:En; [|discriminate E]. destruct (jwk_e jwk) as [e|] eqn:Ee; [|discriminate E].
      destruct (from_rsa_components n e) eqn:Er; [|discriminate E]. injection E as ->. exists Rsa. split; [by eapply rsa_key|done].
    + destruct (Jwk.check_curve jwk _) as [[]|] eqn:Ev; [|discriminate E]. apply check_curve_Ok in Ev.
      destruct (coordinate (str "x") _) as [x|] eqn:Ex; [|discriminate E]. destruct (coordinate (str "y") _) as [y|] eqn:Ey; [|discriminate E].
      apply coordinate_Ok in Ex, Ey. destruct (from_ec_components x y) eqn:Er; [|discriminate E]. injection E as ->.
      exists Ec. split; [by eapply ec_key|done].
    + destruct (Jwk.check_curve jwk _) as [[]|] eqn:Ev; [|discriminate E]. apply check_curve_Ok in Ev.
      destruct (coordinate (str "x") _) as [x|] eqn:Ex; [|discriminate E].
      apply coordinate_Ok in Ex. destruct (from_ed_components x) eqn:Er; [|discriminate E]. injection E as ->.
      exists Ed. split; [by eapply ed_key|done].
  - intros (family & Hc & Hp%check_public_signing_key_Ok).
    destruct Hc as [n e k Hk Hn He Hr|x y k Hk Hv Hx Hy Hr|x k Hk Hv Hx Hr]; rewrite ?Hk.
    + rewrite bool_decide_true by done. by rewrite Hp, Hn, He, Hr.
    + rewrite bool_decide_false, bool_decide_true by done. rewrite Hp.
      rewrite (proj2 (check_curve_Ok _ _) Hv), (proj2 (coordinate_Ok _ _ _) Hx), (proj2 (coordinate_Ok _ _ _) Hy). by rewrite Hr.
    + rewrite bool_decide_false, bool_decide_false, bool_decide_true by done. rewrite Hp.
      rewrite (proj2 (check_curve_Ok _ _) Hv), (proj2 (coordinate_Ok _ _ _) Hx). by rewrite Hr.
Qed.

Lemma components_family `{!JwtKeyLaws} jwk family k : components jwk family k -> key_family k = family.
Proof. destruct 1; eauto using rsa_components_family, ec_components_family, ed_components_family. Qed.
End entries.

(** ** What a set holds *)

Section sets.
Context `{JwtKeys}.

(** An entry that is a verification key of this name. *)
Definition names_key (jwk : Jwk) (kid : rstring) (k : DecodingKey) : Prop :=
  jwk_kid jwk = Some kid /\ exists family, components jwk family k /\ public_signing family jwk.

(** An entry of a pinned set: named, and a verification key. *)
Definition pinned_entry (entry : Json) (named : rstring * DecodingKey) : Prop :=
  exists jwk, jwk_deserialize entry = Ok jwk /\ trim named.1 <> [] /\ names_key jwk named.1 named.2.

Lemma add_entry_Ok index entry keys keys' :
  StaticJwksResolver.add_entry index entry keys = Ok keys' <->
  exists kid k, pinned_entry entry (kid, k) /\ keys !! kid = None /\ keys' = <[kid := k]> keys.
Proof.
  unfold StaticJwksResolver.add_entry, pinned_entry, names_key. cbn [fst snd].
  setoid_rewrite <-verification_key_Ok. split.
  - intros E. destruct (jwk_deserialize entry) as [jwk|]; [cbn [map_err] in E|discriminate E].
    destruct (jwk_kid jwk) as [kid|] eqn:Ek; [|discriminate E].
    destruct (trim kid) eqn:Et; cbn [is_empty] in E; [discriminate E|].
    destruct (Jwk.verification_key jwk) as [k|] eqn:Ev; [cbn [map_err] in E|discriminate E].
    destruct (keys !! kid) eqn:Ef; cbn [is_some] in E; [discriminate E|]. apply Ok_inj in E as <-.
    exists kid, k. split; [|done]. exists jwk. by rewrite Et.
  - intros (kid & k & (jwk & -> & Ht & Hk & Hv) & Hf & ->). cbn [map_err].
    rewrite Hk. destruct (trim kid) eqn:Et; [done|]. cbn [is_empty]. by rewrite Hv; cbn [map_err]; rewrite Hf.
Qed.

(** Entries are added one after the other: all are named keys, under names of
    their own. *)
Lemma add_entries_exact index entries keys keys' :
  StaticJwksResolver.add_entries index entries keys = Ok keys' <->
  exists named, Forall2 pinned_entry entries named /\ NoDup named.*1 /\
    Forall (fun p => keys !! p.1 = None) named /\ keys' = list_to_map named ∪ keys.
Proof.
  revert index keys. induction entries as [|entry entries IH]; intros index keys; cbn [StaticJwksResolver.add_entries].
  - split.
    + intros [= <-]. exists []. split_and!; try constructor. cbn. by rewrite (left_id_L ∅ (∪)).
    + intros (named & Hn & _ & _ & ->). inversion Hn; subst. cbn. by rewrite (left_id_L ∅ (∪)).
  - split.
    + intros E. destruct (StaticJwksResolver.add_entry index entry keys) as [keys1|] eqn:Ea; [|discriminate E].
      apply add_entry_Ok in Ea as (kid & k & Hp & Hf & ->). apply IH in E as (named & Hn & Hnd & Hfresh & ->).
      assert (kid ∉ named.*1) as Hnew.
      { intros (p & Hk & Hin)%list_elem_of_fmap. rewrite list.Forall_forall in Hfresh. specialize (Hfresh p Hin).
        by rewrite <-Hk, lookup_insert_eq in Hfresh. }
      exists ((kid, k) :: named). split_and!; try by constructor.
      * constructor; [done|]. eapply Forall_impl; [|exact Hfresh]. by intros e [? ?]%lookup_insert_None.
      * cbn. rewrite <-insert_union_l, insert_union_r; [done|]. by apply not_elem_of_list_to_map_1.
    + intros (named & Hn & Hnd & Hfresh & ->). inversion Hn as [|? [kid k] ? named' Hp Hn']; subst.
      inversion Hfresh as [|? ? Hf Hfresh']; subst. cbn in Hnd. apply list.NoDup_cons in Hnd as [Hnew Hnd].
      rewrite (proj2 (add_entry_Ok index entry keys (<[kid := k]> keys))) by (exists kid, k; done).
      apply IH. exists named'. split_and!; try done.
      * rewrite list.Forall_forall in *. intros p Hin. rewrite lookup_insert_ne; [auto|].
        intros Hk. apply Hnew. cbn. rewrite Hk. by apply list_elem_of_fmap_2.
      * cbn. rewrite <-insert_union_l, insert_union_r; [done|]. by apply not_elem_of_list_to_map_1.
Qed.

(** A pinned document is accepted exactly when it is a key set with at
    least one entry and every entry is a public verification key of the RSA,
    P-256 or Ed25519 type, under a name of its own that is not blank; the
    resolver then answers, for a name, exactly the key of its entry. *)
Theorem pinned_set_exact `{SerdeText} (from_str : rstring -> result Json rstring) (raw : rstring) (r : StaticJwksResolver) :
  StaticJwksResolver.from_jwks_json from_str raw = Ok r <->
  exists document entries named,
    from_str raw = Ok document /\ jwk_set document = Ok entries /\ entries <> [] /\
    Forall2 pinned_entry entries named /\ NoDup named.*1 /\
    (forall kid k, StaticJwksResolver.key_for r kid = Ok k <-> (kid, k) ∈ named).
Proof.
  assert (forall (keys : KeyMap) kid k, ok_or (keys !! kid) UnknownKid = Ok k <-> keys !! kid = Some k) as Hok.
  { intros keys kid k. destruct (keys !! kid); cbn; split; congruence. }
  unfold StaticJwksResolver.from_jwks_json, StaticJwksResolver.key_for. split.
  - intros E. destruct (from_str raw) as [document|]; [cbn [map_err] in E|discriminate E].
    destruct (jwk_set document) as [entries|] eqn:Es; [cbn [map_err] in E|discriminate E].
    destruct (is_empty entries) eqn:Ee; [discriminate E|].
    destruct (StaticJwksResolver.add_entries 0 entries ∅) as [keys|] eqn:Ea; [|discriminate E]. injection E as <-.
    apply add_entries_exact in Ea as (named & Hn & Hnd & _ & ->). exists document, entries, named.
    split_and!; try done; [by intros ->|]. intros kid k. rewrite Hok. cbn. rewrite (right_id_L ∅ (∪)).
    by rewrite <-elem_of_list_to_map.
  - intros (document & entries & named & -> & Hs & He & Hn & Hnd & Hk). cbn [map_err]. rewrite Hs. cbn [map_err].
    destruct entries as [|entry entries]; [done|]. cbn [is_empty].
    rewrite (proj2 (add_entries_exact 0 _ ∅ (static_keys r))); [by destruct r|]. exists named.
    split_and!; try done; [by apply Forall_true|]. rewrite (right_id_L ∅ (∪)). apply map_eq. intros kid.
    apply option_eq. intros k. rewrite <-elem_of_list_to_map by done. by rewrite <-Hk, Hok.
Qed.
End sets.

(** ** What a refresh brings *)

Section fetched.
Context `{JwtKeys, SerdeText}.
Context (parse_uri : rstring -> result Uri rstring) (from_slice : list N -> result Json rstring)
  (get : nat -> rstring -> Duration -> result JwksResponse rstring).

Abbreviation fetch_json := (HttpJwksResolver.fetch_json from_slice get).
Abbreviation jwks_endpoint := (HttpJwksResolver.jwks_endpoint parse_uri from_slice get).
Abbreviation fetch_keys := (HttpJwksResolver.fetch_keys parse_uri from_slice get).

(** An entry that a refresh takes for the key of this name. *)
Definition published (entry : Json) (kid : rstring) (k : DecodingKey) : Prop :=
  exists jwk, jwk_deserialize entry = Ok jwk /\ names_key (Jwk.tolerant jwk) kid k.

(** Where keys of an issuer may come from. *)
Definition trusted_endpoint (issuer uri : rstring) : Prop :=
  is_https parse_uri uri \/ (is_local_http parse_uri uri /\ is_loopback_endpoint parse_uri issuer = true).

Lemma fetched_key_Some entry kid k : HttpJwksResolver.fetched_key entry = Some (kid, k) <-> published entry kid k.
Proof.
  unfold HttpJwksResolver.fetched_key, published, names_key. setoid_rewrite <-verification_key_Ok.
  destruct (jwk_deserialize entry) as [jwk|]; cbn [ok fmap option_fmap option_map]; [|naive_solver].
  destruct (jwk_kid (Jwk.tolerant jwk)) as [kid'|] eqn:Ek.
  - destruct (Jwk.verification_key (Jwk.tolerant jwk)) as [k'|] eqn:Ev; cbn [ok]; split.
    + intros [= <- <-]. by exists jwk.
    + intros (? & [= <-] & H1 & H2). congruence.
    + done.
    + intros (? & [= <-] & _ & H2). congruence.
  - split; [done|]. intros (? & [= <-] & H1 & _). congruence.
Qed.

(** Of several entries of one name the last one counts. *)
Lemma fetched_keys_lookup entries kid k :
  HttpJwksResolver.fetched_keys entries !! kid = Some k <->
  exists before entry after, entries = before ++ entry :: after /\ published entry kid k /\
    forall e k', e ∈ after -> ~ published e kid k'.
Proof.
  unfold HttpJwksResolver.fetched_keys. revert k. induction entries as [|entry entries IH] using rev_ind; intros k.
  { cbn. rewrite lookup_empty. split; [done|]. by intros ([|? ?] & ? & ? & ? & _). }
  rewrite foldl_app. cbn [foldl]. set (rest := foldl _ _ entries) in *.
  assert ((exists k', HttpJwksResolver.fetched_key entry = Some (kid, k')) \/
          ((forall k', ~ published entry kid k') /\
           (match HttpJwksResolver.fetched_key entry with Some (kid, key) => <[kid := key]> rest | None => rest end) !! kid
             = rest !! kid)) as [[k' Hk]|[Hno Heq]].
  { destruct (HttpJwksResolver.fetched_key entry) as [[kid' k']|] eqn:Ef.
    - destruct (decide (kid' = kid)) as [->|Hne]; [left; by exists k'|right]. split; [|by apply lookup_insert_ne].
      intros k2 Hp%fetched_key_Some. congruence.
    - right. split; [|done]. intros k2 Hp%fetched_key_Some. congruence. }
  - rewrite Hk, lookup_insert_eq. apply fetched_key_Some in Hk as Hp. split.
    + intros [= <-]. exists entries, entry, []. split; [done|]. split; [done|]. by intros e ? ?%elem_of_nil.
    + intros (before & e & after & Heq & He & Hlast). destruct after as [|a after _] using rev_ind.
      * apply app_inj_tail in Heq as [_ <-]. apply fetched_key_Some in He. congruence.
      * rewrite app_comm_cons, app_assoc in Heq. apply app_inj_tail in Heq as [_ <-].
        by destruct (Hlast entry k'); [apply elem_of_app; right; left|].
  - rewrite Heq, IH. split; intros (before & e & after & He & Hp & Hlast).
    + subst entries. exists before, e, (after ++ [entry]). split; [by rewrite <-app_assoc|]. split; [done|].
      intros e' k' [Hin|<-%list_elem_of_singleton]%elem_of_app; [by apply Hlast|apply Hno].
    + destruct after as [|a after _] using rev_ind.
      * apply app_inj_tail in He as [_ <-]. by destruct (Hno k).
      * rewrite app_comm_cons, app_assoc in He. apply app_inj_tail in He as [-> <-]. exists before, e, after.
        split; [done|]. split; [done|]. intros e' k' Hin. apply Hlast. apply elem_of_app. by left.
Qed.

Lemma byte_count_app a b : byte_count (a ++ b) = (byte_count a + byte_count b)%N.
Proof. unfold byte_count. rewrite length_app. lia. Qed.

(** A body is read exactly when every chunk arrives and all together are at
    most the cap. *)
Lemma read_body_Ok body chunks b :
  (byte_count body <= MAX_RESPONSE_BYTES)%N ->
  read_body body chunks = Ok b <->
  exists parts, chunks = Ok <$> parts /\ b = body ++ concat parts /\ (byte_count b <= MAX_RESPONSE_BYTES)%N.
Proof.
  revert body. induction chunks as [|[chunk|e] chunks IH]; intros body Hb; cbn [read_body].
  - split.
    + intros [= <-]. exists []. by rewrite app_nil_r.
    + intros ([|? ?] & Hp & -> & _); [|discriminate Hp]. cbn. by rewrite app_nil_r.
  - destruct (N.ltb_spec MAX_RESPONSE_BYTES (byte_count body + byte_count chunk)) as [Hlt|Hge].
    + split; [done|]. intros ([|p parts] & Hp & -> & Hlen); [discriminate Hp|]. injection Hp as <- ->.
      cbn in Hlen. rewrite !byte_count_app in Hlen. lia.
    + rewrite IH by (by rewrite byte_count_app). split.
      * intros (parts & -> & -> & Hlen). exists (chunk :: parts). split_and!; [done| |done]. by rewrite <-app_assoc.
      * intros ([|p parts] & Hp & -> & Hlen); [discriminate Hp|]. injection Hp as <- ->. exists parts.
        split_and!; [done|cbn; by rewrite <-app_assoc|done].
  - split; [done|]. intros ([|p parts] & Hp & _); discriminate Hp.
Qed.

(** A document was served at [url] in full, within the cap. *)
Definition serves (request : nat) (url : rstring) (timeout : Duration) (document : Json) : Prop :=
  exists response parts,
    get request url timeout = Ok response /\ jr_chunks response = Ok <$> parts /\
    (byte_count (concat parts) <= MAX_RESPONSE_BYTES)%N /\ from_slice (concat parts) = Ok document.

Lemma fetch_json_Ok {T} (deserialize : Json -> result T SerdeError) self request url t :
  fetch_json deserialize self request url = Ok t ->
  exists document, serves request url (hr_request_timeout self) document /\ deserialize document = Ok t.
Proof.
  unfold HttpJwksResolver.fetch_json, serves. intros E.
  destruct (get request url _) as [response|] eqn:Eg; [cbn [map_err] in E|discriminate E].
  destruct (is_some_and _ _); [discriminate E|]. destruct (read_body [] _) as [body|] eqn:Eb; [|discriminate E].
  apply read_body_Ok in Eb as (parts & Hc & -> & Hlen); [|by vm_compute]. cbn [app] in *.
  destruct (from_slice (concat parts)) as [document|] eqn:Es; [cbn [map_err] in E|discriminate E].
  destruct (deserialize document) as [t'|] eqn:Ed; [|discriminate E]. apply Ok_inj in E as <-.
  exists document. split; [|done]. by exists response, parts.
Qed.

Lemma with_http_client_Ok issuer jwks_uri timeout self :
  HttpJwksResolver.with_http_client parse_uri issuer jwks_uri timeout = Ok self <->
  validate_issuer_url parse_uri issuer = Ok tt /\ (forall uri, jwks_uri = Some uri -> trusted_endpoint issuer uri) /\
  (timeout <> 0 /\ timeout <= MAX_HTTP_REQUEST_TIMEOUT)%Z /\ self = mk_HttpJwksResolver issuer jwks_uri timeout.
Proof.
  unfold HttpJwksResolver.with_http_client, trusted_endpoint, validate_request_timeout. split.
  - intros E. destruct (validate_issuer_url parse_uri issuer) as [[]|]; [|discriminate E].
    destruct (match jwks_uri with Some _ => _ | None => _ end) as [[]|] eqn:Ej; [|discriminate E].
    destruct (_ || _) eqn:Et; [discriminate E|]. apply Ok_inj in E as <-. split_and!; try done; [|lia|lia].
    intros uri ->. by apply validate_jwks_url_Ok in Ej.
  - intros (-> & Hj & [H1 H2] & ->).
    replace (match jwks_uri with Some _ => _ | None => _ end) with (@Ok unit OidcConfigError tt).
    + replace (_ || _) with false; [done|]. symmetry. lia.
    + destruct jwks_uri as [uri|]; [|done]. symmetry. by apply validate_jwks_url_Ok, Hj.
Qed.

(** The endpoint is the configured one, or the one a discovery document of this
    very issuer names, and trusted either way. *)
Lemma jwks_endpoint_Ok issuer jwks_uri timeout self endpoint :
  HttpJwksResolver.with_http_client parse_uri issuer jwks_uri timeout = Ok self ->
  jwks_endpoint self = Ok endpoint ->
  trusted_endpoint issuer endpoint /\
  (jwks_uri = Some endpoint \/
   exists document, serves 0 (HttpJwksResolver.discovery_url self) timeout document /\
     HttpJwksResolver.openid_config document = Ok (issuer, endpoint)).
Proof.
  intros (_ & Hj & _ & ->)%with_http_client_Ok E. unfold HttpJwksResolver.jwks_endpoint in E. cbn [hr_jwks_uri hr_issuer] in E.
  destruct jwks_uri as [uri|]; [apply Ok_inj in E as <-; split; [by apply Hj|by left]|].
  destruct (fetch_json _ _ _ _) as [[iss uri]|] eqn:Ef; [|discriminate E].
  case_bool_decide as Hi; [cbn [negb] in E; subst iss|discriminate E].
  destruct (validate_jwks_url _ _ _ _) as [[]|] eqn:Ev; [|discriminate E]. apply Ok_inj in E as <-.
  apply validate_jwks_url_Ok in Ev. split; [done|]. right. by apply fetch_json_Ok in Ef.
Qed.

(** C26. Every key a refresh brings was published by the issuer: the set comes
    from an https endpoint, or one on this machine for an issuer on it, that is
    the configured one or is named by this issuer's discovery document; it was
    read in full within the size cap; a name gets exactly the last entry that
    is a public verification key under it; and no key is a shared secret. *)
Theorem refreshed_keys_are_published `{!JwtKeyLaws} (issuer : rstring) (jwks_uri : option rstring) (timeout : Duration)
    (self : HttpJwksResolver) (keys : KeyMap)
    (Hself : HttpJwksResolver.with_http_client parse_uri issuer jwks_uri timeout = Ok self)
    (Hkeys : fetch_keys self = Ok keys) :
  exists endpoint document entries,
    trusted_endpoint issuer endpoint /\
    (jwks_uri = Some endpoint \/
     exists discovery, serves 0 (HttpJwksResolver.discovery_url self) timeout discovery /\
       HttpJwksResolver.openid_config discovery = Ok (issuer, endpoint)) /\
    serves 1 endpoint timeout document /\ jwk_set document = Ok entries /\ keys <> ∅ /\
    (forall kid k, keys !! kid = Some k <->
       exists before entry after, entries = before ++ entry :: after /\ published entry kid k /\
         forall e k', e ∈ after -> ~ published e kid k') /\
    (forall kid k, keys !! kid = Some k -> verified_algorithms (key_family k) <> []).
Proof.
  unfold HttpJwksResolver.fetch_keys in Hkeys. destruct (jwks_endpoint self) as [endpoint|] eqn:Ee; [|discriminate Hkeys].
  destruct (fetch_json jwk_set self 1 endpoint) as [entries|] eqn:Ef; [|discriminate Hkeys].
  destruct (Nat.eqb_spec (size (HttpJwksResolver.fetched_keys entries)) 0) as [|Hne]; [discriminate Hkeys|].
  apply Ok_inj in Hkeys as <-. destruct (jwks_endpoint_Ok _ _ _ _ _ Hself Ee) as [Ht Hsrc].
  apply with_http_client_Ok in Hself as (_ & _ & _ & ->). apply fetch_json_Ok in Ef as (document & Hs & He).
  exists endpoint, document, entries. split_and!; try done.
  - intros Hz. apply Hne. by rewrite Hz.
  - intros kid k. apply fetched_keys_lookup.
  - intros kid k (_ & entry & _ & _ & (jwk & _ & _ & family & Hc & _) & _)%fetched_keys_lookup.
    rewrite (components_family _ _ _ Hc). by destruct Hc.
Qed.
End fetched.

(** ** A sample *)

Module SampleKeys.

(** Keys that are their components; base64 that is the text's bytes. *)
#[export] Instance sample_jwt_keys : JwtKeys := {|
  Algorithm := rstring;
  Algorithm_eq_dec := _;
  RS256 := str "RS256";
  RS384 := str "RS384";
  RS512 := str "RS512";
  ES256 := str "ES256";
  EdDSA := str "EdDSA";
  algorithm_from_str := Some;
  DecodingKey := AlgorithmFamily * rstring * rstring;
  key_family k := k.1.1;
  from_rsa_components n e := Ok (Rsa, n, e);
  from_ec_components x y := Ok (Ec, x, y);
  from_ed_components x := Ok (Ed, x, []);
  base64url_decode := Some;
|}.

#[export] Instance sample_jwt_key_laws : JwtKeyLaws.
Proof. by split; intros; simplify_eq/=. Qed.

#[export] Instance sample_serde_text : SerdeText := fun _ => [].

Definition sample_issuer : rstring := str "https://id.example".
Definition sample_endpoint : rstring := str "https://id.example/keys".

Definition sample_parse_uri (raw : rstring) : result Uri rstring :=
  Ok (mk_Uri (Some (str "https")) (Some (str "id.example"))).

Definition rsa_entry (kid n : rstring) : Json :=
  JObject [(str "kid", JString kid); (str "kty", JString (str "rsa")); (str "n", JString n); (str "e", JString (str "AQAB"))].

Definition hmac_entry : Json := JObject [(str "kid", JString (str "h")); (str "kty", JString (str "oct"))].

Definition sample_set : Json := JObject [(str "keys", JArray [rsa_entry (str "a") (str "old"); hmac_entry;
  rsa_entry (str "a") (str "new")])].

(** The set is served at its endpoint in two chunks, the discovery document
    everywhere else. *)
Definition sample_get (request : nat) (url : rstring) (timeout : Duration) : result JwksResponse rstring :=
  if bool_decide (url = sample_endpoint) then Ok (mk_JwksResponse (Some 2%N) [Ok [1%N]; Ok [2%N]])
  else Ok (mk_JwksResponse None [Ok [3%N]]).

Definition sample_from_slice (body : list N) : result Json rstring :=
  if bool_decide (body = [1; 2]%N) then Ok sample_set
  else Ok (JObject [(str "issuer", JString sample_issuer); (str "jwks_uri", JString sample_endpoint)]).

Definition sample_resolver : HttpJwksResolver := mk_HttpJwksResolver sample_issuer None DEFAULT_HTTP_REQUEST_TIMEOUT.

Definition sample_key : DecodingKey := (Rsa, str "new", str "AQAB").

Lemma refreshed_keys_are_published_witness :
  exists endpoint document entries,
    trusted_endpoint sample_parse_uri sample_issuer endpoint /\
    serves sample_from_slice sample_get 1 endpoint DEFAULT_HTTP_REQUEST_TIMEOUT document /\
    jwk_set document = Ok entries /\
    (exists before entry after, entries = before ++ entry :: after /\ published entry (str "a") sample_key /\
       forall e k', e ∈ after -> ~ published e (str "a") k').
Proof.
  destruct (refreshed_keys_are_published sample_parse_uri sample_from_slice sample_get sample_issuer None
    DEFAULT_HTTP_REQUEST_TIMEOUT sample_resolver {[ str "a" := sample_key ]})
    as (endpoint & document & entries & H1 & _ & H2 & H3 & _ & H4 & _); [by vm_compute|by vm_compute|].
  exists endpoint, document, entries. split_and!; try done. apply H4. by rewrite lookup_singleton_eq.
Defined.

End SampleKeys.
