(* ===== verification/JwksCache.v ===== *)
(** * The key cache

    [HttpJwksResolver::key_for] of [crates/auth-oidc/src/keys.rs]: concurrent
    lookups over one cache, its two clocks and the gate that serializes
    refetches.  A call is a program counter; between two awaits of the source
    there is one step, so every interleaving of calls, every passing of time
    and every cancellation at an await is a sequence of events. *)

From S2P Require Import Prelude Ids Json Net Serde OidcConfig OidcKeys.

(** [std::time::Instant], in nanoseconds of a clock that never goes back. *)
Abbreviation Instant := Z.
Abbreviation TaskId := nat.

Section cache.
Context `{JwtKeys, SerdeText}.
Context (parse_uri : rstring -> result Uri rstring) (from_slice : list N -> result Json rstring).
Context (self : HttpJwksResolver).

(** The mutable part of the resolver: the gate holds the task that locked it. *)
Record JwksState := mk_JwksState {
  cache : KeyMap;
  last_refresh : option Instant;
  last_attempt : option Instant;
  refresh_gate : option TaskId;
}.

Definition set_cache (x : KeyMap) (s : JwksState) : JwksState :=
  mk_JwksState x (last_refresh s) (last_attempt s) (refresh_gate s).
Definition set_last_refresh (x : option Instant) (s : JwksState) : JwksState :=
  mk_JwksState (cache s) x (last_attempt s) (refresh_gate s).
Definition set_last_attempt (x : option Instant) (s : JwksState) : JwksState :=
  mk_JwksState (cache s) (last_refresh s) x (refresh_gate s).
Definition set_refresh_gate (x : option TaskId) (s : JwksState) : JwksState :=
  mk_JwksState (cache s) (last_refresh s) (last_attempt s) x.

(** Where a call is.  [stale] is the key the cache held when the call began; it
    is [None] on the path of a miss.  The right-hand side of the assignment of a
    clock is evaluated before its lock is awaited: two steps. *)
Inductive KeyForPc :=
| ReadCache
| CheckAge (stale : DecodingKey)
| LockGate (stale : option DecodingKey)
| RecheckAge (stale : DecodingKey)
| RecheckMiss
| CheckCooldown (stale : option DecodingKey)
| MarkAttempt (stale : option DecodingKey)
| WriteAttempt (stale : option DecodingKey) (at_ : Instant)
| Refresh (stale : option DecodingKey)
| StoreKeys (next : KeyMap)
| MarkRefresh
| WriteRefresh (at_ : Instant)
| ReadFresh
| Answered (answer : result DecodingKey KeyError).

Definition clock_due (now : Instant) (clock : option Instant) (min_age : Duration) : bool :=
  match clock with
  | Some last => (min_age <=? Z.max 0 (now - last))%Z
  | None => true
  end.

(** What the network answers to the requests of one refresh. *)
Definition Network : Type := nat -> rstring -> Duration -> result JwksResponse rstring.

(** Leave with the gate's guard dropped. *)
Definition answer_unlocked (answer : result DecodingKey KeyError) (s : JwksState) : KeyForPc * JwksState :=
  (Answered answer, set_refresh_gate None s).

(** One step of [key_for]; [None] when the call waits for the gate or is over. *)
Definition key_for_step (now : Instant) (get : Network) (id : TaskId) (kid : rstring) (pc : KeyForPc) (s : JwksState) :
    option (KeyForPc * JwksState) :=
  match pc with
  | ReadCache =>
      match cache s !! kid with
      | Some k => Some (CheckAge k, s)
      | None => Some (LockGate None, s)
      end
  | CheckAge k =>
      if clock_due now (last_refresh s) JWKS_MAX_AGE then Some (LockGate (Some k), s)
      else Some (Answered (Ok k), s)
  | LockGate stale =>
      match refresh_gate s with
      | Some _ => None
      | None =>
          Some (match stale with Some k => RecheckAge k | None => RecheckMiss end, set_refresh_gate (Some id) s)
      end
  | RecheckAge k =>
      if negb (clock_due now (last_refresh s) JWKS_MAX_AGE) then Some (ReadFresh, s)
      else Some (CheckCooldown (Some k), s)
  | RecheckMiss =>
      match cache s !! kid with
      | Some k => Some (answer_unlocked (Ok k) s)
      | None => Some (CheckCooldown None, s)
      end
  | CheckCooldown stale =>
      if negb (clock_due now (last_attempt s) JWKS_REFRESH_COOLDOWN)
      then Some (answer_unlocked (ok_or stale UnknownKid) s)
      else Some (MarkAttempt stale, s)
  | MarkAttempt stale => Some (WriteAttempt stale now, s)
  | WriteAttempt stale at_ => Some (Refresh stale, set_last_attempt (Some at_) s)
  | Refresh stale =>
      match HttpJwksResolver.fetch_keys parse_uri from_slice get self with
      | Ok next => Some (StoreKeys next, s)
      | Err e => Some (answer_unlocked (ok_or stale e) s)
      end
  | StoreKeys next => Some (MarkRefresh, set_cache next s)
  | MarkRefresh => Some (WriteRefresh now, s)
  | WriteRefresh at_ => Some (ReadFresh, set_last_refresh (Some at_) s)
  | ReadFresh => Some (answer_unlocked (ok_or (cache s !! kid) UnknownKid) s)
  | Answered _ => None
  end.

(** ** Many calls *)

Record Resolving := mk_Resolving {
  state : JwksState;
  calls : gmap TaskId (rstring * KeyForPc);
  clock : Instant;
}.

Definition set_calls (x : gmap TaskId (rstring * KeyForPc)) (r : Resolving) : Resolving :=
  mk_Resolving (state r) x (clock r).

Inductive Event :=
| Call (id : TaskId) (kid : rstring)
| Run (id : TaskId) (get : Network)
| Pass (elapsed : N)
| Cancel (id : TaskId).

(** Dropping a call drops the guard it holds. *)
Definition drop_call (id : TaskId) (s : JwksState) : JwksState :=
  if bool_decide (refresh_gate s = Some id) then set_refresh_gate None s else s.

Definition exec (r : Resolving) (e : Event) : option Resolving :=
  match e with
  | Call id kid =>
      match calls r !! id with
      | Some _ => None
      | None => Some (set_calls (<[id := (kid, ReadCache)]> (calls r)) r)
      end
  | Run id get =>
      let* (kid, pc) := calls r !! id in
      let* (pc, s) := key_for_step (clock r) get id kid pc (state r) in
      Some (mk_Resolving s (<[id := (kid, pc)]> (calls r)) (clock r))
  | Pass elapsed => Some (mk_Resolving (state r) (calls r) (clock r + Z.of_N elapsed)%Z)
  | Cancel id => Some (mk_Resolving (drop_call id (state r)) (delete id (calls r)) (clock r))
  end.

(** A resolver as constructed. *)
Definition fresh_resolver (now : Instant) : Resolving := mk_Resolving (mk_JwksState ∅ None None None) ∅ now.

Fixpoint exec_all (r : Resolving) (events : list Event) : option Resolving :=
  match events with
  | [] => Some r
  | e :: events => let* r := exec r e in exec_all r events
  end.

Definition step (r r' : Resolving) : Prop := exists e, exec r e = Some r'.

(** The moment an event marks as a refetch attempt, and whether it sends one. *)
Definition marked (r : Resolving) (e : Event) : option Instant :=
  match e with
  | Run id _ => match calls r !! id with Some (_, WriteAttempt _ at_) => Some at_ | _ => None end
  | _ => None
  end.

Definition sends (r : Resolving) (e : Event) : bool :=
  match e with
  | Run id _ => match calls r !! id with Some (_, Refresh _) => true | _ => false end
  | _ => false
  end.

(** The attempts marked in a run, in order, and how many refetches it sends. *)
Fixpoint observe (r : Resolving) (events : list Event) : option (list Instant * nat * Resolving) :=
  match events with
  | [] => Some ([], 0, r)
  | e :: events =>
      let* r' := exec r e in
      let* (marks, sent, final) := observe r' events in
      Some (option_list (marked r e) ++ marks, (if sends r e then S sent else sent), final)
  end.

(** ** The gate *)

(** A call past the lock, with its guard. *)
Definition guarded (pc : KeyForPc) : bool :=
  match pc with
  | ReadCache | CheckAge _ | LockGate _ | Answered _ => false
  | _ => true
  end.

(** What a call knows of the attempt clock. *)
Definition pc_ok (now : Instant) (s : JwksState) (pc : KeyForPc) : Prop :=
  match pc with
  | MarkAttempt _ => clock_due now (last_attempt s) JWKS_REFRESH_COOLDOWN = true
  | WriteAttempt _ at_ => clock_due at_ (last_attempt s) JWKS_REFRESH_COOLDOWN = true /\ (at_ <= now)%Z
  | _ => True
  end.

Record resolving_inv (r : Resolving) : Prop := mk_resolving_inv {
  ri_guard id kid pc : calls r !! id = Some (kid, pc) -> guarded pc = true <-> refresh_gate (state r) = Some id;
  ri_holder id : refresh_gate (state r) = Some id -> is_Some (calls r !! id);
  ri_pc id kid pc : calls r !! id = Some (kid, pc) -> pc_ok (clock r) (state r) pc;
  ri_attempt at_ : last_attempt (state r) = Some at_ -> (at_ <= clock r)%Z;
}.

(** The cases of a step. *)
Ltac pc_step E :=
  match type of E with
  | key_for_step _ _ _ _ ?pc _ = Some _ =>
      destruct pc; cbn [key_for_step answer_unlocked] in E;
      repeat match type of E with context [match ?x with _ => _ end] => destruct x eqn:? end;
      try discriminate E; injection E as <- <-
  end.

Lemma clock_due_mono now now' c d : (now <= now')%Z -> clock_due now c d = true -> clock_due now' c d = true.
Proof. unfold clock_due. destruct c; [|done]. lia. Qed.

(** A step takes, keeps or drops the gate as the program counter says. *)
Lemma key_for_step_gate now get id kid pc s pc' s' :
  key_for_step now get id kid pc s = Some (pc', s') ->
  (guarded pc = true <-> refresh_gate s = Some id) ->
  (guarded pc' = true <-> refresh_gate s' = Some id) /\
  (forall j, j <> id -> refresh_gate s' = Some j <-> refresh_gate s = Some j).
Proof.
  intros E Hg. pc_step E; cbn in *; try (split; [naive_solver|]; intros j Hj; destruct (refresh_gate s); naive_solver).
Qed.

(** Only a call with the guard writes the attempt clock. *)
Lemma key_for_step_attempt now get id kid pc s pc' s' :
  key_for_step now get id kid pc s = Some (pc', s') ->
  last_attempt s' = last_attempt s \/
  exists stale at_, pc = WriteAttempt stale at_ /\ last_attempt s' = Some at_.
Proof. intros E. pc_step E; cbn; eauto 6. Qed.

Lemma key_for_step_pc_ok now get id kid pc s pc' s' :
  key_for_step now get id kid pc s = Some (pc', s') -> pc_ok now s pc -> pc_ok now s' pc'.
Proof.
  intros E Hp. pc_step E; cbn in *; bools; done.
Qed.

Lemma key_for_step_attempt_le now get id kid pc s pc' s' :
  key_for_step now get id kid pc s = Some (pc', s') -> pc_ok now s pc ->
  (forall at_, last_attempt s = Some at_ -> (at_ <= now)%Z) -> forall at_, last_attempt s' = Some at_ -> (at_ <= now)%Z.
Proof.
  intros E Hp Hle at_ Ha. destruct (key_for_step_attempt _ _ _ _ _ _ _ _ E) as [Heq|(stale & at' & -> & Heq)].
  - apply Hle. by rewrite <-Heq.
  - destruct Hp as [_ Hat]. rewrite Heq in Ha. by injection Ha as <-.
Qed.

Lemma pc_ok_later now now' s pc : (now <= now')%Z -> pc_ok now s pc -> pc_ok now' s pc.
Proof. intros Hle. destruct pc; cbn; try done; [by apply clock_due_mono|]. intros [? ?]. split; [done|]. lia. Qed.

(** A call without the guard knows nothing of the attempt clock. *)
Lemma pc_ok_unguarded now s pc : guarded pc = false -> pc_ok now s pc.
Proof. by destruct pc. Qed.

Lemma resolving_inv_run r id get r' : resolving_inv r -> exec r (Run id get) = Some r' -> resolving_inv r'.
Proof.
  intros [Hg Hh Hp Ha] E. cbn in E. destruct (calls r !! id) as [[kid pc]|] eqn:Ec; [|discriminate E].
  destruct (key_for_step _ _ _ _ _ _) as [[pc' s']|] eqn:Es; [|discriminate E]. injection E as <-.
  destruct (key_for_step_gate _ _ _ _ _ _ _ _ Es (Hg _ _ _ Ec)) as [Hg1 Hg2].
  split; cbn [calls state clock].
  - intros j kid' pc2 Hj. destruct (decide (j = id)) as [->|Hne]; [rewrite lookup_insert_eq in Hj; by injection Hj as <- <-|].
    rewrite lookup_insert_ne in Hj by done. rewrite Hg2 by done. by eapply Hg.
  - intros j Hj. destruct (decide (j = id)) as [->|Hne]; [by rewrite lookup_insert_eq|].
    rewrite lookup_insert_ne by done. apply Hh. by apply Hg2.
  - intros j kid' pc2 Hj. destruct (decide (j = id)) as [->|Hne].
    { rewrite lookup_insert_eq in Hj. injection Hj as <- <-. eapply key_for_step_pc_ok; eauto. }
    rewrite lookup_insert_ne in Hj by done. destruct (guarded pc2) eqn:G; [|by apply pc_ok_unguarded].
    destruct (key_for_step_attempt _ _ _ _ _ _ _ _ Es) as [Heq|(stale & at_ & -> & _)].
    + specialize (Hp _ _ _ Hj). destruct pc2; cbn in *; by rewrite ?Heq.
    + assert (refresh_gate (state r) = Some id) as Hid by (by apply (Hg _ _ _ Ec)).
      apply (Hg _ _ _ Hj) in G. congruence.
  - eapply key_for_step_attempt_le; eauto.
Qed.

Lemma drop_call_gate id j s : refresh_gate (drop_call id s) = Some j <-> j <> id /\ refresh_gate s = Some j.
Proof. unfold drop_call. case_bool_decide; cbn; naive_solver. Qed.

Lemma drop_call_attempt id s : last_attempt (drop_call id s) = last_attempt s.
Proof. unfold drop_call. by case_bool_decide. Qed.

Lemma resolving_inv_exec r e r' : resolving_inv r -> exec r e = Some r' -> resolving_inv r'.
Proof.
  intros Hi E. destruct e as [id kid|id get|d|id]; [|by eapply resolving_inv_run| |]; destruct Hi as [Hg Hh Hp Ha]; cbn in E.
  - destruct (calls r !! id) eqn:Ec; [discriminate E|]. injection E as <-. split; cbn [calls state clock set_calls]; [| | |done].
    + intros j kid' pc Hj. destruct (decide (j = id)) as [->|Hne]; [|rewrite lookup_insert_ne in Hj by done; by eapply Hg].
      rewrite lookup_insert_eq in Hj. injection Hj as <- <-. cbn. split; [done|]. intros Hid%Hh. rewrite Ec in Hid. by destruct Hid.
    + intros j Hj. destruct (decide (j = id)) as [->|Hne]; [by rewrite lookup_insert_eq|]. rewrite lookup_insert_ne by done. by apply Hh.
    + intros j kid' pc Hj. destruct (decide (j = id)) as [->|Hne]; [|rewrite lookup_insert_ne in Hj by done; by eapply Hp].
      rewrite lookup_insert_eq in Hj. by injection Hj as <- <-.
  - injection E as <-. split; cbn [calls state clock]; [done|done| |].
    + intros j kid' pc Hj. eapply pc_ok_later; [|by eapply Hp]. lia.
    + intros at_ Hat%Ha. lia.
  - injection E as <-. split; cbn [calls state clock].
    + intros j kid' pc [Hne Hj]%lookup_delete_Some. rewrite drop_call_gate, (Hg _ _ _ Hj). naive_solver.
    + intros j [Hne Hj]%drop_call_gate. rewrite lookup_delete_ne by done. by apply Hh.
    + intros j kid' pc [Hne Hj]%lookup_delete_Some. specialize (Hp _ _ _ Hj). destruct pc; cbn in *; by rewrite ?drop_call_attempt.
    + by rewrite drop_call_attempt.
Qed.

Lemma resolving_inv_fresh now : resolving_inv (fresh_resolver now).
Proof. split; cbn; try done; intros *; by rewrite ?lookup_empty. Qed.

(** ** Refetches are rare *)

(** At least the cooldown apart. *)
Definition apart (a b : Instant) : Prop := (a + JWKS_REFRESH_COOLDOWN <= b)%Z.

#[local] Instance apart_trans : Transitive apart.
Proof. unfold Transitive, apart, JWKS_REFRESH_COOLDOWN. lia. Qed.

(** The refetch that a call was allowed and has not sent yet. *)
Definition pending (r : Resolving) : nat :=
  match refresh_gate (state r) with
  | Some id => match calls r !! id with Some (_, Refresh _) => 1 | _ => 0 end
  | None => 0
  end.

Lemma exec_marked r e r' at_ :
  resolving_inv r -> exec r e = Some r' -> marked r e = Some at_ ->
  clock_due at_ (last_attempt (state r)) JWKS_REFRESH_COOLDOWN = true /\ last_attempt (state r') = Some at_ /\
  pending r = 0 /\ pending r' = 1 /\ sends r e = false.
Proof.
  intros Hi E Hm. destruct e as [|id get| |]; try discriminate Hm. cbn in E, Hm. unfold pending, sends.
  destruct (calls r !! id) as [[kid pc]|] eqn:Ec; [|discriminate Hm]. destruct pc; try discriminate Hm. injection Hm as <-.
  assert (refresh_gate (state r) = Some id) as Hid by (by apply (ri_guard r Hi _ _ _ Ec)).
  destruct (ri_pc r Hi _ _ _ Ec) as [Hdue _]. cbn in E. injection E as <-. cbn. rewrite Hid, Ec, lookup_insert_eq. done.
Qed.

Lemma exec_unmarked r e r' :
  resolving_inv r -> exec r e = Some r' -> marked r e = None -> last_attempt (state r') = last_attempt (state r).
Proof.
  intros Hi E Hm. destruct e as [id kid|id get| |id]; cbn in E, Hm.
  - destruct (calls r !! id); [discriminate E|]. by injection E as <-.
  - destruct (calls r !! id) as [[kid pc]|] eqn:Ec; [|discriminate E].
    destruct (key_for_step _ _ _ _ _ _) as [[pc' s']|] eqn:Es; [|discriminate E]. injection E as <-.
    by destruct (key_for_step_attempt _ _ _ _ _ _ _ _ Es) as [?|(stale & at_ & -> & _)].
  - by injection E as <-.
  - injection E as <-. apply drop_call_attempt.
Qed.

(** Sending uses up what was pending; nothing but a mark makes it pending. *)
Lemma exec_pending r e r' :
  resolving_inv r -> exec r e = Some r' -> marked r e = None ->
  (if sends r e then 1 else 0) + pending r' <= pending r.
Proof.
  intros Hi E Hm. destruct e as [id kid|id get|d|id]; cbn in E, Hm; unfold pending; cbn [sends].
  - destruct (calls r !! id) eqn:Ec; [discriminate E|]. injection E as <-. cbn.
    destruct (refresh_gate (state r)) as [j|] eqn:Eg; [|done]. destruct (ri_holder r Hi j Eg) as [c Hc].
    rewrite lookup_insert_ne; [lia|]. congruence.
  - destruct (calls r !! id) as [[kid pc]|] eqn:Ec; [|discriminate E].
    destruct (key_for_step _ _ _ _ _ _) as [[pc' s']|] eqn:Es; [|discriminate E]. injection E as <-. cbn [state calls].
    destruct (key_for_step_gate _ _ _ _ _ _ _ _ Es (ri_guard r Hi _ _ _ Ec)) as [Hg1 Hg2].
    destruct (guarded pc) eqn:G.
    + assert (refresh_gate (state r) = Some id) as Hid by (by apply (ri_guard r Hi _ _ _ Ec)). rewrite Hid, Ec.
      destruct (refresh_gate s') as [j|] eqn:Ej; [|destruct pc; done || lia].
      destruct (decide (j = id)) as [->|Hne]; [|pose proof (proj1 (Hg2 j Hne) eq_refl); congruence].
      rewrite lookup_insert_eq. pc_step Es; try done; try discriminate Hm; cbn in *; lia.
    + replace (match pc with Refresh _ => true | _ => false end) with false by (by destruct pc).
      destruct (refresh_gate s') as [j|] eqn:Ej; [|lia]. destruct (decide (j = id)) as [->|Hne].
      * rewrite lookup_insert_eq. pc_step Es; try discriminate G; try done; cbn; lia.
      * rewrite (proj1 (Hg2 j Hne) eq_refl), lookup_insert_ne by done. cbn. lia.
  - injection E as <-. cbn. lia.
  - injection E as <-. cbn. destruct (refresh_gate (drop_call id (state r))) as [j|] eqn:Ej; [|lia].
    apply drop_call_gate in Ej as [Hne ->]. rewrite lookup_delete_ne by done. lia.
Qed.

Lemma observe_spaced events : forall r marks sent r',
  resolving_inv r -> observe r events = Some (marks, sent, r') ->
  StronglySorted apart (option_list (last_attempt (state r)) ++ marks) /\ sent <= length marks + pending r.
Proof.
  induction events as [|e events IH]; intros r marks sent r' Hi E; cbn [observe] in E.
  { injection E as <- <- <-. split; [|cbn; lia]. destruct (last_attempt (state r)); repeat constructor. }
  destruct (exec r e) as [r1|] eqn:E1; [|discriminate E].
  destruct (observe r1 events) as [[[marks1 sent1] final]|] eqn:E2; [|discriminate E]. injection E as <- <- <-.
  destruct (IH _ _ _ _ (resolving_inv_exec _ _ _ Hi E1) E2) as [Hs Hsent]. destruct (marked r e) as [at_|] eqn:Em.
  - destruct (exec_marked _ _ _ _ Hi E1 Em) as (Hdue & Ha & Hp & Hp' & ->). rewrite Ha in Hs. cbn in Hs |- *.
    split; [|lia]. destruct (last_attempt (state r)) as [a|] eqn:Ela; [|done]. cbn. constructor; [done|].
    assert (apart a at_) as Hap.
    { cbn in Hdue. unfold apart. unfold JWKS_REFRESH_COOLDOWN in *. lia. }
    inversion Hs as [|? ? _ Hall]; subst. constructor; [done|]. eapply Forall_impl; [|exact Hall].
    intros b Hb. by etrans.
  - rewrite (exec_unmarked _ _ _ Hi E1 Em) in Hs. cbn. split; [done|].
    pose proof (exec_pending _ _ _ Hi E1 Em). destruct (sends r e); lia.
Qed.

(** So many instants that are apart span a time. *)
Lemma apart_length (l : list Instant) : forall from width,
  StronglySorted apart l -> Forall (fun t => from <= t < from + width)%Z l ->
  l = [] \/ (Z.of_nat (length l) * JWKS_REFRESH_COOLDOWN < width + JWKS_REFRESH_COOLDOWN)%Z.
Proof.
  induction l as [|a l IH]; intros from width Hs Hw; [by left|right].
  inversion Hs as [|? ? Hs' Hall]; inversion Hw as [|? ? Ha Hw']; subst. cbn [length].
  destruct (IH (from + JWKS_REFRESH_COOLDOWN) (width - JWKS_REFRESH_COOLDOWN) Hs')%Z as [->|Hlen]; [|cbn; lia|lia].
  rewrite list.Forall_forall in *. intros b Hb. specialize (Hall b Hb). specialize (Hw' b Hb). unfold apart in Hall. lia.
Qed.

(** C24. However lookups interleave, are cancelled or find the issuer
    unreachable, refetch attempts are at least the cooldown apart, every
    refetch sent has an attempt of its own, and so no window of time sees more
    attempts than its length in cooldowns, plus one. *)
Theorem refetches_are_spaced (start : Instant) (events : list Event) (marks : list Instant) (sent : nat) (r : Resolving)
    (Hrun : observe (fresh_resolver start) events = Some (marks, sent, r)) :
  (forall i j a b, i < j -> marks !! i = Some a -> marks !! j = Some b -> (a + JWKS_REFRESH_COOLDOWN <= b)%Z) /\
  sent <= length marks /\
  (forall from width, (0 <= width)%Z ->
     (Z.of_nat (length (filter (fun t => from <= t < from + width)%Z marks)) <= width / JWKS_REFRESH_COOLDOWN + 1)%Z).
Proof.
  destruct (observe_spaced _ _ _ _ _ (resolving_inv_fresh start) Hrun) as [Hs Hsent]. cbn in Hs, Hsent.
  split_and!; [|lia|].
  - intros i j a b Hij Ha Hb. by apply (StronglySorted_lookup _ _ i j a b Hs).
  - intros from width Hw. destruct (apart_length (filter (fun t => from <= t < from + width)%Z marks) from width) as [->|Hlen].
    + by apply StronglySorted_filter.
    + apply list.Forall_forall. by intros b [Hb _]%list_elem_of_filter.
    + cbn. assert (0 <= width / JWKS_REFRESH_COOLDOWN)%Z; [|lia]. by apply Z.div_pos.
    + set (n := Z.of_nat _) in *. apply Z.lt_succ_r. change JWKS_REFRESH_COOLDOWN with 60000000000%Z in *.
      pose proof (Z.mul_div_le width 60000000000). pose proof (Z.mod_pos_bound width 60000000000).
      pose proof (Z.div_mod width 60000000000). lia.
Qed.

(** ** Answers come from the cache *)

Definition fetched (keys : KeyMap) : Prop :=
  exists get, HttpJwksResolver.fetch_keys parse_uri from_slice get self = Ok keys.

(** Every cached set was fetched. *)
Record provenance (r : Resolving) : Prop := mk_provenance {
  pr_cache : cache (state r) = ∅ \/ fetched (cache (state r));
  pr_store id kid next : calls r !! id = Some (kid, StoreKeys next) -> fetched next;
}.

Lemma key_for_step_cache now get id kid pc s pc' s' :
  key_for_step now get id kid pc s = Some (pc', s') ->
  (cache s' = cache s \/ pc = StoreKeys (cache s')) /\ (forall next, pc' = StoreKeys next -> fetched next).
Proof.
  intros E. pc_step E; cbn; (split; [by (left + right)|]); intros ? Hn; try discriminate Hn.
  injection Hn as <-. by eexists.
Qed.

Lemma drop_call_cache id s : cache (drop_call id s) = cache s.
Proof. unfold drop_call. by case_bool_decide. Qed.

Lemma provenance_step r r' : provenance r -> step r r' -> provenance r'.
Proof.
  intros [Hc Hs] [[id kid|id get|d|id] E]; cbn in E.
  - destruct (calls r !! id) eqn:Ec; [discriminate E|]. injection E as <-. split; [done|]. cbn.
    intros j kid' next [[<- ?]|[_ Hj]]%lookup_insert_Some; [simplify_eq|by eapply Hs].
  - destruct (calls r !! id) as [[kid pc]|] eqn:Ec; [|discriminate E].
    destruct (key_for_step _ _ _ _ _ _) as [[pc' s']|] eqn:Es; [|discriminate E]. injection E as <-.
    destruct (key_for_step_cache _ _ _ _ _ _ _ _ Es) as [H1 H2]. split; cbn.
    + destruct H1 as [->| ->]; [done|]. right. by eapply Hs.
    + intros j kid' next [[<- [= _ ->]]|[_ Hj]]%lookup_insert_Some; [by apply H2|by eapply Hs].
  - injection E as <-. by split.
  - injection E as <-. split; cbn; [by rewrite drop_call_cache|]. intros j kid next [_ Hj]%lookup_delete_Some. by eapply Hs.
Qed.

Lemma provenance_reachable start r : rtc step (fresh_resolver start) r -> provenance r.
Proof.
  intros Hr. assert (provenance (fresh_resolver start)) as Hf.
  { split; [by left|]. intros id kid next Hn. cbn in Hn. by rewrite lookup_empty in Hn. }
  revert Hf. induction Hr as [|a b c Hab _ IH]; eauto using provenance_step.
Qed.

(** The key a call may still answer without reading the cache again. *)
Definition carries (pc : KeyForPc) : option DecodingKey :=
  match pc with
  | CheckAge k | RecheckAge k | Answered (Ok k) => Some k
  | LockGate stale | CheckCooldown stale | MarkAttempt stale | WriteAttempt stale _ | Refresh stale => stale
  | _ => None
  end.

Lemma key_for_step_carries now get id kid pc s pc' s' k :
  key_for_step now get id kid pc s = Some (pc', s') -> carries pc' = Some k ->
  carries pc = Some k \/ cache s !! kid = Some k.
Proof.
  intros E Hk. pc_step E; cbn in *; simplify_eq; auto.
  - destruct stale; cbn in Hk; simplify_eq. by left.
  - destruct stale; cbn in Hk; simplify_eq. by left.
  - right. destruct (cache s !! kid); cbn in Hk; by simplify_eq.
Qed.

(** A key that a call carries was its key in the cache at a moment of the call. *)
Lemma carried_key_was_cached r0 r id kid pc k :
  calls r0 !! id = None -> rtc step r0 r -> calls r !! id = Some (kid, pc) -> carries pc = Some k ->
  exists r1, rtc step r0 r1 /\ rtc step r1 r /\ is_Some (calls r1 !! id) /\ cache (state r1) !! kid = Some k.
Proof.
  intros Hnone Hr. revert pc. pattern r. revert r Hr.
  apply rtc_ind_r; [intros pc Hc; congruence|].
  intros a b Ha Hstep IH pc Hc Hk.
  assert (forall pc, calls a !! id = Some (kid, pc) -> carries pc = Some k ->
    exists r1, rtc step r0 r1 /\ rtc step r1 b /\ is_Some (calls r1 !! id) /\ cache (state r1) !! kid = Some k) as IH'.
  { intros pc1 H1 H2. destruct (IH pc1 H1 H2) as (r1 & ? & ? & ? & ?). exists r1. split_and!; try done.
    eapply rtc_r; [done|exact Hstep]. }
  pose proof Hstep as [[j kid'|j get|d|j] E]; cbn in E.
  - destruct (calls a !! j) eqn:Ec; [discriminate E|]. injection E as <-. cbn in Hc.
    apply lookup_insert_Some in Hc as [[_ [= _ <-]]|[_ Hc]]; [discriminate Hk|by eapply IH'].
  - destruct (calls a !! j) as [[kid' pc0]|] eqn:Ec; [|discriminate E].
    destruct (key_for_step _ _ _ _ _ _) as [[pc' s']|] eqn:Es; [|discriminate E]. injection E as <-. cbn in Hc.
    apply lookup_insert_Some in Hc as [[-> [= -> ->]]|[_ Hc]]; [|by eapply IH'].
    destruct (key_for_step_carries _ _ _ _ _ _ _ _ _ Es Hk) as [Hk'|Hk']; [by eapply IH'|].
    exists a. split_and!; [done| |by rewrite Ec|done]. by apply rtc_once.
  - injection E as <-. by eapply IH'.
  - injection E as <-. cbn in Hc. apply lookup_delete_Some in Hc as [_ Hc]. by eapply IH'.
Qed.

(** A key that a lookup answers is one the cache held under that name at
    a moment between the call and its answer, in a set a refresh fetched: a key
    rotated out before the call is never answered, however lookups interleave. *)
Theorem answered_keys_were_cached (start : Instant) (r0 r : Resolving) (id : TaskId) (kid : rstring) (k : DecodingKey)
    (Hr0 : rtc step (fresh_resolver start) r0) (Hcall : calls r0 !! id = None) (Hr : rtc step r0 r)
    (Hanswer : calls r !! id = Some (kid, Answered (Ok k))) :
  exists r1, rtc step r0 r1 /\ rtc step r1 r /\ is_Some (calls r1 !! id) /\
    cache (state r1) !! kid = Some k /\ fetched (cache (state r1)).
Proof.
  destruct (carried_key_was_cached r0 r id kid _ k Hcall Hr Hanswer eq_refl) as (r1 & H1 & H2 & H3 & H4).
  exists r1. split_and!; try done. destruct (provenance_reachable start r1) as [[Hz|Hf] _]; [by etrans| |done].
  by rewrite Hz, lookup_empty in H4.
Qed.

(** ** Lookups complete *)

Definition steps_left (pc : KeyForPc) : nat :=
  match pc with
  | ReadCache => 12
  | CheckAge _ => 11
  | LockGate _ => 10
  | RecheckAge _ | RecheckMiss => 9
  | CheckCooldown _ => 8
  | MarkAttempt _ => 7
  | WriteAttempt _ _ => 6
  | Refresh _ => 5
  | StoreKeys _ => 4
  | MarkRefresh => 3
  | WriteRefresh _ => 2
  | ReadFresh => 1
  | Answered _ => 0
  end.

(** A call that need not wait takes a step, and comes closer to its answer. *)
Lemma key_for_step_runs now get id kid pc s :
  0 < steps_left pc -> (guarded pc = true \/ refresh_gate s = None) ->
  exists pc' s', key_for_step now get id kid pc s = Some (pc', s') /\ steps_left pc' < steps_left pc.
Proof.
  intros Hn Hg. destruct pc; cbn in *; try lia; eauto;
    repeat match goal with |- context [match ?x with _ => _ end] => destruct x eqn:? end;
    try (destruct Hg; congruence); do 2 eexists; (split; [reflexivity|cbn; lia]).
Qed.

Lemma exec_all_app r es fs : exec_all r (es ++ fs) = (let* r' := exec_all r es in exec_all r' fs).
Proof.
  revert r. induction es as [|e es IH]; intros r; cbn; [done|]. destruct (exec r e); cbn; [apply IH|done].
Qed.

Lemma exec_all_inv es : forall r r', resolving_inv r -> exec_all r es = Some r' -> resolving_inv r'.
Proof.
  induction es as [|e es IH]; intros r r' Hi E; cbn in E; [by injection E as <-|].
  destruct (exec r e) as [r1|] eqn:E1; [|discriminate E]. eauto using resolving_inv_exec.
Qed.

(** A call runs to its answer unless another one holds the gate. *)
Lemma call_runs get n : forall r id kid pc,
  resolving_inv r -> calls r !! id = Some (kid, pc) -> steps_left pc <= n ->
  (forall j, refresh_gate (state r) = Some j -> j = id) ->
  exists m r' answer, m <= n /\ exec_all r (replicate m (Run id get)) = Some r' /\
    calls r' !! id = Some (kid, Answered answer) /\ refresh_gate (state r') = None /\
    (forall j, j <> id -> calls r' !! j = calls r !! j).
Proof.
  induction n as [|n IH]; intros r id kid pc Hi Hc Hn Hg.
  all: assert (forall answer, pc = Answered answer -> refresh_gate (state r) = None) as Hdone
    by (intros answer ->; destruct (refresh_gate (state r)) as [j|] eqn:Ej; [|done];
        rewrite (Hg j eq_refl) in Ej; by apply (ri_guard r Hi _ _ _ Hc) in Ej).
  { destruct pc; cbn in Hn; try lia. exists 0, r, answer. split_and!; eauto. }
  destruct (decide (steps_left pc = 0)) as [Hz|Hnz].
  { destruct pc; cbn in Hz; try lia. exists 0, r, answer. split_and!; eauto with lia. }
  destruct (key_for_step_runs (clock r) get id kid pc (state r)) as (pc' & s' & Es & Hlt); [lia| |].
  { destruct (refresh_gate (state r)) as [j|] eqn:Ej; [left|by right]. apply (ri_guard r Hi _ _ _ Hc). by rewrite Ej, (Hg j eq_refl). }
  assert (exec r (Run id get) = Some (mk_Resolving s' (<[id := (kid, pc')]> (calls r)) (clock r))) as E1.
  { cbn. rewrite Hc. cbn. by rewrite Es. }
  destruct (key_for_step_gate _ _ _ _ _ _ _ _ Es (ri_guard r Hi _ _ _ Hc)) as [_ Hg2].
  destruct (IH _ id kid pc' (resolving_inv_exec _ _ _ Hi E1)) as (m & r' & answer & Hm & E2 & Ha & Hgate & Hothers).
  { cbn. by rewrite lookup_insert_eq. }
  { lia. }
  { intros j Hj. destruct (decide (j = id)) as [|Hne]; [done|]. apply Hg. by apply Hg2. }
  exists (S m), r', answer. split; [lia|]. split; [cbn [replicate exec_all]; by rewrite E1|]. split_and!; try done.
  intros j Hj. rewrite Hothers by done. cbn. by rewrite lookup_insert_ne.
Qed.

(** C25. No lookup is ever stuck: in every reachable state, whatever the
    network answers, at most twelve steps of the call that holds the gate and
    twelve of its own bring a lookup to its answer. *)
Theorem lookups_complete (start : Instant) (r : Resolving) (id : TaskId) (kid : rstring) (pc : KeyForPc) (get : Network)
    (Hr : rtc step (fresh_resolver start) r) (Hcall : calls r !! id = Some (kid, pc)) :
  exists holder n m r' answer, n <= 12 /\ m <= 12 /\
    exec_all r (replicate n (Run holder get) ++ replicate m (Run id get)) = Some r' /\
    calls r' !! id = Some (kid, Answered answer).
Proof.
  assert (resolving_inv r) as Hi.
  { assert (forall a b, rtc step a b -> resolving_inv a -> resolving_inv b) as Hrtc.
    { induction 1 as [|a b c [e He] _ IH]; eauto using resolving_inv_exec. }
    by eapply Hrtc, resolving_inv_fresh. }
  assert (forall pc, steps_left pc <= 12) as Hmax by (intros []; cbn; lia).
  destruct (refresh_gate (state r)) as [holder|] eqn:Eg.
  - destruct (ri_holder r Hi holder Eg) as [[kid' pc'] Hh].
    destruct (call_runs get 12 r holder kid' pc' Hi Hh (Hmax _)) as (n & r1 & answer & Hn & E1 & Ha & Hg1 & Hothers).
    { intros j Hj. congruence. }
    destruct (decide (id = holder)) as [->|Hne].
    { exists holder, n, 0, r1, answer. rewrite app_nil_r. simplify_eq. split_and!; try done. lia. }
    destruct (call_runs get 12 r1 id kid pc (exec_all_inv _ _ _ Hi E1)) as (m & r2 & answer2 & Hm & E2 & Ha2 & _);
      [by rewrite Hothers|done|by intros j; rewrite Hg1|].
    exists holder, n, m, r2, answer2. split_and!; try done. rewrite exec_all_app, E1. exact E2.
  - destruct (call_runs get 12 r id kid pc Hi Hcall (Hmax _)) as (m & r2 & answer2 & Hm & E2 & Ha2 & _); [by intros j; rewrite Eg|].
    exists id, 0, m, r2, answer2. split_and!; try done. lia.
Qed.
End cache.

(** ** Samples *)

Module SampleLookups.
Import SampleKeys.

Abbreviation sample_observe := (observe sample_parse_uri sample_from_slice sample_resolver).
Abbreviation sample_exec := (exec sample_parse_uri sample_from_slice sample_resolver).
Abbreviation sample_exec_all := (exec_all sample_parse_uri sample_from_slice sample_resolver).
Abbreviation sample_step := (step sample_parse_uri sample_from_slice sample_resolver).

Definition down : Network := fun _ _ _ => Err (str "connection refused").

(** A lookup that finds nothing and fetches the set. *)
Definition first_lookup : list Event := Call 0 (str "a") :: replicate 11 (Run 0 sample_get).

(** An hour later the issuer is down: two lookups a minute apart. *)
Definition stale_lookups : list Event :=
  first_lookup ++ [Pass 3600000000000; Call 1 (str "a")] ++ replicate 8 (Run 1 down)
  ++ [Pass 60000000000; Call 2 (str "a")] ++ replicate 8 (Run 2 down).

Definition after (events : list Event) : Resolving := default (fresh_resolver 0) (sample_exec_all (fresh_resolver 0) events).

Definition marks_of (events : list Event) : list Instant :=
  match sample_observe (fresh_resolver 0) events with Some (marks, _, _) => marks | None => [] end.

(** A hit on a set past its age refetches again after every cooldown, not once
    per age window, while the issuer fails. *)
Example stale_hits_refetch_every_cooldown :
  marks_of stale_lookups = [0; 3600000000000; 3660000000000]%Z /\
  calls (after stale_lookups) !! 2 = Some (str "a", Answered (Ok sample_key)).
Proof. by vm_compute. Qed.

Lemma refetches_are_spaced_witness :
  (3600000000000 + JWKS_REFRESH_COOLDOWN <= 3660000000000)%Z /\ 3 <= 3.
Proof.
  destruct (refetches_are_spaced sample_parse_uri sample_from_slice sample_resolver 0 stale_lookups
    [0; 3600000000000; 3660000000000]%Z 3 (after stale_lookups)) as (H1 & H2 & _); [by vm_compute|].
  split; [|exact H2]. apply (H1 1 2); [lia|done|done].
Defined.

Lemma exec_all_rtc events r r' : sample_exec_all r events = Some r' -> rtc sample_step r r'.
Proof.
  revert r. induction events as [|e events IH]; intros r E; cbn in E; [by injection E as <-|].
  destruct (sample_exec r e) as [r1|] eqn:E1; [|discriminate E]. eapply rtc_l; [by exists e|by apply IH].
Qed.

Lemma after_first_lookup : sample_exec_all (fresh_resolver 0) first_lookup = Some (after first_lookup).
Proof. by vm_compute. Qed.

Lemma answered_keys_were_cached_witness :
  exists r1, cache (state r1) !! str "a" = Some sample_key /\
    fetched sample_parse_uri sample_from_slice sample_resolver (cache (state r1)).
Proof.
  destruct (answered_keys_were_cached sample_parse_uri sample_from_slice sample_resolver 0 (fresh_resolver 0)
    (after first_lookup) 0 (str "a") sample_key) as (r1 & _ & _ & _ & H1 & H2).
  - constructor.
  - done.
  - apply (exec_all_rtc first_lookup), after_first_lookup.
  - by vm_compute.
  - by exists r1.
Defined.

(** A second lookup waits for the gate. *)
Definition waiting : list Event := [Call 0 (str "a"); Call 1 (str "b")] ++ replicate 4 (Run 0 sample_get) ++ [Run 1 sample_get].

Lemma lookups_complete_witness :
  sample_exec (after waiting) (Run 1 sample_get) = None /\
  exists holder n m r' answer, n <= 12 /\ m <= 12 /\
    sample_exec_all (after waiting) (replicate n (Run holder down) ++ replicate m (Run 1 down)) = Some r' /\
    calls r' !! 1 = Some (str "b", Answered answer).
Proof.
  split; [by vm_compute|].
  apply (lookups_complete sample_parse_uri sample_from_slice sample_resolver 0 (after waiting) 1 (str "b") (LockGate None) down).
  - apply (exec_all_rtc waiting). by vm_compute.
  - by vm_compute.
Defined.

End SampleLookups.
