(* ===== verification/Oidc.v ===== *)
(** * OIDC authentication

    [crates/auth-oidc/src/authenticator.rs] and [binding_set.rs]: when a bearer
    token is accepted, by which binding, and the context it becomes.  The
    [jsonwebtoken] crate, the key resolvers behind their trait, the owner
    access port, host shapers and the JSON parser are parameters. *)

From S2P Require Import Prelude Ids Access ScopeKey Capability Json Text Publication OwnerScope Authz Spaces Net Serde.
From S2P Require Import OidcConfig OidcKeys.

(** ** [jsonwebtoken] *)

(** The header members the code reads. *)
Record Header `{JwtKeys} := mk_Header {
  header_kid : option rstring;
  header_alg : Algorithm;
  header_typ : option rstring;
}.

(** The members of [Validation] the code sets; the others keep their default,
    by which [exp] and [aud] are checked. *)
Record Validation `{JwtKeys} := mk_Validation {
  val_algorithms : list Algorithm;
  val_iss : list rstring;
  val_aud : list rstring;
  val_required_spec_claims : list rstring;
  val_validate_nbf : bool;
  val_leeway : N;
}.

(** The error kinds the code tells apart, and any other with its text. *)
Inductive JwtErrorKind :=
| InvalidSignature
| InvalidAlgorithm
| InvalidAlgorithmName
| MissingAlgorithm
| UnsupportedAlgorithm
| ExpiredSignature
| ImmatureSignature
| InvalidIssuer
| InvalidAudience
| MissingRequiredClaim (claim : rstring)
| InvalidClaimFormat (claim : rstring)
| OtherJwtError (message : rstring).

(** Decoding a token at an instant; [verifies] is the signature check. *)
Class Jwt `{JwtKeys} := {
  decode_header : rstring -> result Header JwtErrorKind;
  decode : SystemTime -> rstring -> DecodingKey -> Validation -> result Json JwtErrorKind;
  verifies : DecodingKey -> Algorithm -> rstring -> Prop;
}.

(** A claim that is a text, or a list with it. *)
Definition claims_text (claim s : rstring) (claims : Json) : Prop :=
  Json.get claim claims = Some (JString s) \/
  exists items, Json.get claim claims = Some (JArray items) /\ JString s ∈ items.

Definition unix_secs (t : SystemTime) : Z := (t / 1000000000)%Z.

(** A claim that is a whole number of seconds. *)
Definition secs_claim (claim : rstring) (claims : Json) : option N :=
  let* v := Json.get claim claims in as_u64 v.

(** The documented contract of [decode]: the header's algorithm is accepted and
    the signature verifies with it; the issuer and an audience are accepted
    ones; the token has not expired and, if asked, is valid already, each up to
    the leeway; required claims are there; and the claims are those of the
    payload, the second of the token's parts. *)
Class JwtLaws `{Jwt} (from_slice : list N -> result Json rstring) : Prop := {
  decode_signature now token key v claims : decode now token key v = Ok claims ->
    exists header, decode_header token = Ok header /\ header_alg header ∈ val_algorithms v /\
      verifies key (header_alg header) token;
  decode_issuer now token key v claims : decode now token key v = Ok claims ->
    exists s, claims_text (str "iss") s claims /\ s ∈ val_iss v;
  decode_audience now token key v claims : decode now token key v = Ok claims ->
    exists s, claims_text (str "aud") s claims /\ s ∈ val_aud v;
  decode_expiry now token key v claims exp : decode now token key v = Ok claims ->
    secs_claim (str "exp") claims = Some exp -> (unix_secs now <= Z.of_N exp + Z.of_N (val_leeway v))%Z;
  decode_not_before now token key v claims nbf : decode now token key v = Ok claims -> val_validate_nbf v = true ->
    secs_claim (str "nbf") claims = Some nbf -> (Z.of_N nbf <= unix_secs now + Z.of_N (val_leeway v))%Z;
  decode_required now token key v claims claim : decode now token key v = Ok claims ->
    claim ∈ val_required_spec_claims v -> is_Some (Json.get claim claims);
  decode_payload now token key v claims : decode now token key v = Ok claims ->
    exists payload bytes document, split (chr ".") token !! 1 = Some payload /\
      base64url_decode payload = Some bytes /\ from_slice bytes = Ok document /\ claims = to_value document;
}.

(** ** The validator *)

(** [KeyResolver]: what [key_for] answers during the call. *)
Definition KeyResolver `{JwtKeys} : Type := rstring -> result DecodingKey KeyError.

(** The [Display] of a key error. *)
Class KeyErrorText := key_error_text : KeyError -> rstring.

Record ValidatedOidcClaims := mk_ValidatedOidcClaims {
  vc_issuer : rstring;
  vc_audience : rstring;
  vc_subject : rstring;
  vc_expires_at : SystemTime;
}.

Record ValidatedOidcToken (C : Type) := mk_ValidatedOidcToken {
  vt_claims : ValidatedOidcClaims;
  vt_custom : C;
}.
Arguments mk_ValidatedOidcToken {C}.
Arguments vt_claims {C} _.
Arguments vt_custom {C} _.

Definition auth_error (rejection : OidcRejection) : AuthError := InvalidCredentials.

Definition from_jwt (err : JwtErrorKind) (issuer audience : rstring) : OidcRejection :=
  match err with
  | InvalidSignature => BadSignature
  | InvalidAlgorithm | InvalidAlgorithmName | MissingAlgorithm | UnsupportedAlgorithm => DisallowedAlgorithm
  | ExpiredSignature => TokenExpired
  | ImmatureSignature => NotYetValid
  | InvalidIssuer => WrongIssuer issuer
  | InvalidAudience => WrongAudience audience
  | MissingRequiredClaim claim => MissingClaim claim
  | InvalidClaimFormat claim => InvalidClaim claim
  | OtherJwtError message => Malformed message
  end.

Record OidcTokenValidator `{JwtKeys} := mk_OidcTokenValidator {
  tv_issuer : rstring;
  tv_audience : rstring;
  tv_leeway_secs : N;
  tv_keys : KeyResolver;
  tv_authorized_party : option AuthorizedPartyPolicy;
  tv_require_access_token_typ : bool;
}.

(** [UNIX_EPOCH.checked_add(Duration::from_secs(secs))]: seconds are an [i64]. *)
Definition checked_epoch_add (secs : N) : option SystemTime :=
  if (secs <? 2 ^ 63)%N then Some (Z.of_N secs * 1000000000)%Z else None.

(** [Claims]: the registered claims read. *)
Definition registered_claims (claims : Json) : result (rstring * N) SerdeError :=
  let? members := struct_members false
    [mk_Field (str "sub") is_string; mk_Field (str "exp") (fun v => is_some (as_u64 v))] 0 claims in
  let? sub := string_member (str "sub") members in
  let? exp := u64_member (str "exp") members in
  Ok (sub, exp).

Definition access_token_typ (typ : option rstring) : bool :=
  is_some_and typ (fun typ => eq_ignore_ascii_case typ (str "at+jwt") || eq_ignore_ascii_case typ (str "application/at+jwt")).

Module OidcTokenValidator.
Section validator.
Context `{Jwt, SerdeText, KeyErrorText}.

Definition new (parse_uri : rstring -> result Uri rstring) (config : OidcAuthConfig) (keys : KeyResolver) :
    result OidcTokenValidator OidcConfigError :=
  let? _ := validate parse_uri config in
  Ok (mk_OidcTokenValidator _ (cfg_issuer config) (cfg_audience config) (cfg_leeway_secs config) keys None false).

Definition with_authorized_party_policy (policy : AuthorizedPartyPolicy) (self : OidcTokenValidator) : OidcTokenValidator :=
  mk_OidcTokenValidator _ (tv_issuer self) (tv_audience self) (tv_leeway_secs self) (tv_keys self) (Some policy)
    (tv_require_access_token_typ self).

Definition require_access_token_typ (self : OidcTokenValidator) : OidcTokenValidator :=
  mk_OidcTokenValidator _ (tv_issuer self) (tv_audience self) (tv_leeway_secs self) (tv_keys self)
    (tv_authorized_party self) true.

Definition validation (self : OidcTokenValidator) (algorithms : list Algorithm) : Validation :=
  mk_Validation _ algorithms [tv_issuer self] [tv_audience self] [str "exp"; str "aud"; str "iss"; str "sub"] true
    (tv_leeway_secs self).

(** [deserialize] reads the host's own claims. *)
Definition validate_with {C} (deserialize : Json -> result C SerdeError) (now : SystemTime) (self : OidcTokenValidator)
    (token : rstring) : result (ValidatedOidcToken C) OidcRejection :=
  let reject err := from_jwt err (tv_issuer self) (tv_audience self) in
  let? header := map_err reject (decode_header token) in
  let? kid := ok_or (header_kid header) MissingKeyId in
  let? key := map_err (fun err => UnknownKey kid (key_error_text err)) (tv_keys self kid) in
  let algorithms := verified_algorithms (key_family key) in
  if negb (slice_contains (header_alg header) algorithms) then Err DisallowedAlgorithm
  else
    let? claims := map_err reject (decode now token key (validation self algorithms)) in
    if tv_require_access_token_typ self && negb (access_token_typ (header_typ header)) then Err WrongTokenType
    else
      let? _ := (match tv_authorized_party self with
                 | Some policy => AuthorizedPartyPolicy.check policy claims
                 | None => Ok tt
                 end) in
      let? (sub, exp) := map_err (fun err => Malformed (serde_text err)) (registered_claims claims) in
      let? expires_at := ok_or (checked_epoch_add exp) ExpiryOutOfRange in
      let? custom := map_err (fun err => CustomClaims (serde_text err)) (deserialize claims) in
      Ok (mk_ValidatedOidcToken (mk_ValidatedOidcClaims (tv_issuer self) (tv_audience self) sub expires_at) custom).

Definition ignored_any (claims : Json) : result unit SerdeError := Ok tt.

Definition validate (now : SystemTime) (self : OidcTokenValidator) (token : rstring) :
    result ValidatedOidcClaims AuthError :=
  let? token := map_err auth_error (validate_with ignored_any now self token) in Ok (vt_claims token).

End validator.
End OidcTokenValidator.

(** ** Bindings *)

Abbreviation OidcClaimMap := (list (rstring * Json)).

(** [OidcClaimMap]'s deserialization. *)
Definition claim_map (claims : Json) : result OidcClaimMap SerdeError :=
  ok_or (Json.as_object claims) (SerdeInvalidType []).

(** [OidcRoleShaper::shape]: host code. *)
Abbreviation OidcRoleShaper := (AuthzContext -> ValidatedOidcToken OidcClaimMap -> result AuthzContext AuthError).

Record OidcBindingRoute := mk_OidcBindingRoute { route_issuer : rstring; route_audience : rstring }.

#[export] Instance OidcBindingRoute_eq_dec : EqDecision OidcBindingRoute.
Proof. solve_decision. Defined.

Inductive OidcRoleShape :=
| ServerResolved
| ServerResolvedWithToolScope (scope : ToolScope)
| HostShape (shaper : OidcRoleShaper).

(** Rights of the shaped context that the resolved one lacks. *)
Definition rights_widened (resolved shaped : AuthzContext) : bool :=
  existsb (fun kind =>
    existsb (fun owner =>
      negb (AuthzContext.may_read resolved owner kind)
      || (AuthzContext.may_manage shaped owner && negb (AuthzContext.may_manage resolved owner)))
      (AuthzContext.readable_owners shaped kind)
    || existsb (fun owner => negb (AuthzContext.may_write resolved owner kind)) (AuthzContext.writable_owners shaped kind))
  AccessKind.ALL.

Definition narrowed_by_host (resolved shaped : AuthzContext) (token_expires_at : SystemTime) : result AuthzContext AuthError :=
  if negb (bool_decide (AuthzContext.auth_path shaped = HostBearer))
     || negb (bool_decide (AuthzContext.subject shaped = AuthzContext.subject resolved))
     || negb (bool_decide (AuthzContext.writer shaped = AuthzContext.writer resolved))
     || negb (bool_decide (AuthzContext.trusted_model_id shaped = AuthzContext.trusted_model_id resolved))
     || negb (bool_decide (ctx_forwarded_owner shaped = ctx_forwarded_owner resolved))
     || rights_widened resolved shaped
  then Err InvalidCredentials
  else
    let expires_at :=
      match AuthzContext.expires_at shaped with Some at_ => Z.min at_ token_expires_at | None => token_expires_at end in
    let scope := ToolScope.intersect (tool_scope (ctx_capabilities shaped)) (tool_scope (ctx_capabilities resolved)) in
    Ok (AuthzContext.with_served_surface
          (AuthzContext.with_tool_scope (AuthzContext.with_expires_at shaped (Some expires_at)) scope)
          (served_surface (ctx_capabilities resolved))).

Module OidcRoleShape.

Definition apply (self : OidcRoleShape) (ctx : AuthzContext) (token : ValidatedOidcToken OidcClaimMap) :
    result AuthzContext AuthError :=
  match self with
  | ServerResolved => Ok ctx
  | ServerResolvedWithToolScope scope => Ok (AuthzContext.with_tool_scope ctx scope)
  | HostShape shaper =>
      let? host_context := shaper ctx token in
      narrowed_by_host ctx host_context (vc_expires_at (vt_claims token))
  end.

End OidcRoleShape.

Definition bind_trusted_model_id (ctx : AuthzContext) (trusted_model_id : option rstring) : result AuthzContext AuthError :=
  match trusted_model_id with
  | None => Ok ctx
  | Some trusted_model_id => map_err (fun _ => InvalidCredentials) (AuthzContext.with_trusted_model_id ctx trusted_model_id)
  end.

Section contexts.
Context `{UuidText}.

Definition signed_uuid_claim (value : Json) : result Uuid AuthError :=
  ok_or (OwnerId.into_inner <$> (Json.as_str value ≫= owner_from_str)) InvalidCredentials.

Definition context_for_verified_token (owner_access : OwnerAccessPort) (subject : UserId)
    (token : ValidatedOidcToken OidcClaimMap) : result AuthzContext AuthError :=
  let? forwarder := map_err (fun _ => InvalidCredentials) (is_forwarder owner_access subject) in
  let? context :=
    (if forwarder : bool then
       let? owner := ok_or (Json.lookup (str "owner") (vt_custom token)) InvalidCredentials in
       let? owner := signed_uuid_claim owner in
       let? by_ := ok_or (Json.lookup (str "by") (vt_custom token)) InvalidCredentials in
       let? by_ := signed_uuid_claim by_ in
       let? via := ok_or (Json.lookup (str "via") (vt_custom token)) InvalidCredentials in
       let? via := (match via with
                    | JNull => Ok None
                    | value => let? id := signed_uuid_claim value in Ok (Some id)
                    end) in
       Ok (AuthzContext.from_verified_forwarded_owner subject (mk_OwnerId owner) (mk_WriterAttribution by_ via))
     else
       let? roles := map_err (fun _ => InvalidCredentials) (resolve_roles_for_subject owner_access subject) in
       Ok (AuthzContext.server_resolved roles HostBearer)) in
  Ok (AuthzContext.with_expires_at context (Some (vc_expires_at (vt_claims token)))).

End contexts.

Record OidcBinding `{JwtKeys} := mk_OidcBinding {
  ob_route : OidcBindingRoute;
  ob_validator : OidcTokenValidator;
  ob_allowed_subjects : option (gset rstring);
  ob_subject_map : OidcSubjectMap;
  ob_owner_access : OwnerAccessPort;
  ob_role_shape : OidcRoleShape;
}.

Module OidcBinding.
Section binding.
Context `{Jwt, UuidText}.

Definition with_role_shape (parse_uri : rstring -> result Uri rstring) (config : OidcAuthConfig) (keys : KeyResolver)
    (subject_map : OidcSubjectMap) (owner_access : OwnerAccessPort) (role_shape : OidcRoleShape) :
    result OidcBinding OidcConfigError :=
  let route := mk_OidcBindingRoute (cfg_issuer config) (cfg_audience config) in
  let allowed_subjects := cfg_allowed_subjects config in
  let? validator := OidcTokenValidator.new parse_uri config keys in
  Ok (mk_OidcBinding _ route validator allowed_subjects subject_map owner_access role_shape).

Definition new (parse_uri : rstring -> result Uri rstring) (config : OidcAuthConfig) (keys : KeyResolver)
    (subject_map : OidcSubjectMap) (owner_access : OwnerAccessPort) : result OidcBinding OidcConfigError :=
  with_role_shape parse_uri config keys subject_map owner_access ServerResolved.

Definition set_validator (validator : OidcTokenValidator) (self : OidcBinding) : OidcBinding :=
  mk_OidcBinding _ (ob_route self) validator (ob_allowed_subjects self) (ob_subject_map self) (ob_owner_access self)
    (ob_role_shape self).

Definition require_access_token_typ (self : OidcBinding) : OidcBinding :=
  set_validator (OidcTokenValidator.require_access_token_typ (ob_validator self)) self.

Definition with_authorized_party_policy (policy : AuthorizedPartyPolicy) (self : OidcBinding) : OidcBinding :=
  set_validator (OidcTokenValidator.with_authorized_party_policy policy (ob_validator self)) self.

Definition authz_for_token (self : OidcBinding) (token : ValidatedOidcToken OidcClaimMap) : result AuthzContext AuthError :=
  let claims := vt_claims token in
  if is_some_and (ob_allowed_subjects self) (fun allow => negb (bool_decide (vc_subject claims ∈ allow)))
  then Err InvalidCredentials
  else match OidcSubjectMap.resolve_binding (ob_subject_map self) (vc_issuer claims) (vc_subject claims) with
       | None => Err InvalidCredentials
       | Some binding =>
           let? ctx := context_for_verified_token (ob_owner_access self) (bound_user_id binding) token in
           let? ctx := bind_trusted_model_id ctx (bound_trusted_model_id binding) in
           let? ctx := OidcRoleShape.apply (ob_role_shape self) ctx token in
           Ok (AuthzContext.with_verified_claims ctx (vt_custom token))
       end.

End binding.
End OidcBinding.

Inductive Credentials := Bearer (token : rstring).

(** [OidcAuthenticator]: one binding with server-resolved roles. *)
Definition oidc_authenticate `{Jwt, UuidText, SerdeText, KeyErrorText} (now : SystemTime) (binding : OidcBinding)
    (creds : Credentials) : result AuthzContext AuthError :=
  let 'Bearer token := creds in
  let? token := map_err auth_error (OidcTokenValidator.validate_with claim_map now (ob_validator binding) token) in
  OidcBinding.authz_for_token binding token.

(** ** Binding sets *)

Inductive OidcBindingSetError :=
| BindingSetEmpty
| DuplicateRoute (issuer audience : rstring).

Section sets.
Context `{Jwt, UuidText, SerdeText, KeyErrorText}.
Context (from_slice : list N -> result Json rstring).

(** The [iss] a token claims before any signature check. *)
Definition claimed_issuer (token : rstring) : option rstring :=
  let* part := split (chr ".") token !! 1 in
  let* payload := base64url_decode part in
  let* document := ok (from_slice payload) in
  let* members := ok (struct_members false [mk_Field (str "iss") is_string] 0 document) in
  ok (string_member (str "iss") members).

(** The first route that repeats one before it. *)
Fixpoint duplicate_route (seen : list OidcBindingRoute) (bindings : list OidcBinding) : option OidcBindingRoute :=
  match bindings with
  | [] => None
  | binding :: bindings =>
      if slice_contains (ob_route binding) seen then Some (ob_route binding)
      else duplicate_route (ob_route binding :: seen) bindings
  end.

Definition new_set (bindings : list OidcBinding) : result (list OidcBinding) OidcBindingSetError :=
  if is_empty bindings then Err BindingSetEmpty
  else match duplicate_route [] bindings with
       | Some route => Err (DuplicateRoute (route_issuer route) (route_audience route))
       | None => Ok bindings
       end.

(** Whether a binding is worth trying. *)
Definition selects (claimed : option rstring) (binding : OidcBinding) : bool :=
  match claimed with Some iss => bool_decide (route_issuer (ob_route binding) = iss) | None => true end.

(** [validate_with] of one binding, at the instant it runs. *)
Definition accepts (now : SystemTime) (token : rstring) (binding : OidcBinding) :
    option (OidcBinding * ValidatedOidcToken OidcClaimMap) :=
  pair binding <$> ok (OidcTokenValidator.validate_with claim_map now (ob_validator binding) token).

(** [clock i] is the instant at which the [i]th binding validates. *)
Definition set_authenticate (clock : nat -> SystemTime) (self : list OidcBinding) (creds : Credentials) :
    result AuthzContext AuthError :=
  let 'Bearer token := creds in
  let claimed := claimed_issuer token in
  let candidates := filter (fun ib => selects claimed ib.2 = true) (imap pair self) in
  match omap (fun ib => accepts (clock ib.1) token ib.2) candidates with
  | [(binding, validated)] => OidcBinding.authz_for_token binding validated
  | _ => Err InvalidCredentials
  end.
End sets.

(** ** What a claim is before and after verification *)

Lemma json_lookup_split key m v : Json.lookup key m = Some v -> exists pre post, m = pre ++ (key, v) :: post.
Proof.
  unfold Json.lookup. induction m as [|[k w] m IH]; [done|]. cbn. case_bool_decide as Hk.
  - intros [= ->]. subst. by exists [], m.
  - intros (pre & post & ->)%IH. by exists ((k, w) :: pre), post.
Qed.

(** A field of a struct occurs once. *)
Lemma visit_map_once deny fields name : name ∈ field_name <$> fields -> forall members seen,
  visit_map deny fields seen members = Ok tt ->
  (name ∈ seen -> name ∉ members.*1) /\ forall pre v post, members = pre ++ (name, v) :: post -> name ∉ post.*1.
Proof.
  intros Hname. induction members as [|[k w] members IH]; intros seen E; cbn [visit_map] in E.
  { split; [by intros _ ?%elem_of_nil|]. by intros [|? ?] v post. }
  destruct (find _ fields) as [f|] eqn:Ef.
  - destruct (slice_contains k seen) eqn:Es; [discriminate E|]. destruct (negb _); [discriminate E|].
    apply IH in E as [H1 H2]. split.
    + intros Hin. cbn. rewrite not_elem_of_cons. split; [|apply H1; by right].
      intros <-. by rewrite (proj2 (slice_contains_true _ _) Hin) in Es.
    + intros [|p pre] v post Hm; injection Hm as; [|subst; by eapply H2]. subst. apply H1. by left.
  - assert (k <> name) as Hk.
    { intros ->. apply list_elem_of_fmap in Hname as (f & -> & Hin%list_elem_of_In).
      pose proof (List.find_none _ _ Ef f Hin) as Hf. cbn in Hf. by rewrite bool_decide_true in Hf. }
    assert (visit_map deny fields seen members = Ok tt) as E' by (by destruct deny). apply IH in E' as [H1 H2]. split.
    + intros Hin. cbn. rewrite not_elem_of_cons. auto.
    + intros [|p pre] v post Hm; injection Hm as; [by subst|]. subst. by eapply H2.
Qed.

Lemma foldl_insert_lookup key l : forall acc,
  (key ∉ l.*1 -> Json.lookup key (foldl (fun m kv => Json.insert kv.1 kv.2 m) acc l) = Json.lookup key acc) /\
  (forall pre v post, l = pre ++ (key, v) :: post -> key ∉ post.*1 ->
     Json.lookup key (foldl (fun m kv => Json.insert kv.1 kv.2 m) acc l) = Some v).
Proof.
  induction l as [|[k w] l IH]; intros acc; cbn [foldl fst snd].
  { split; [done|]. by intros [|? ?] v post. }
  split.
  - cbn. rewrite not_elem_of_cons. intros [Hk Hl]. rewrite (proj1 (IH (Json.insert k w acc)) Hl).
    rewrite json_lookup_insert. by rewrite bool_decide_false.
  - intros [|p pre] v post Hl Hpost; injection Hl as.
    + subst. rewrite (proj1 (IH (Json.insert key v acc)) Hpost), json_lookup_insert. by rewrite bool_decide_true.
    + subst. destruct (IH (Json.insert k w acc)) as [_ Hp]. by eapply Hp.
Qed.

(** A member read by a derived struct is the member of the value. *)
Lemma to_value_member deny fields members name v :
  visit_map deny fields [] members = Ok tt -> name ∈ field_name <$> fields -> Json.lookup name members = Some v ->
  Json.get name (to_value (JObject members)) = Some (to_value v).
Proof.
  intros Hv Hname Hl. destruct (visit_map_once _ _ _ Hname _ _ Hv) as [_ Honce].
  apply json_lookup_split in Hl as (pre & post & ->). specialize (Honce pre v post eq_refl). cbn.
  rewrite map_app. cbn [map].
  eapply (foldl_insert_lookup name _ []); [reflexivity|]. intros Hin. apply Honce.
  rewrite list_elem_of_fmap in Hin. destruct Hin as (kv & -> & Hin).
  apply list_elem_of_In, List.in_map_iff in Hin as ([k w] & <- & Hin).
  apply list_elem_of_fmap. exists (k, w). split; [done|]. by apply list_elem_of_In.
Qed.

(** ** Authorized parties *)

(** At most one distinct audience. *)
Definition one_audience (claims : Json) : Prop :=
  (exists aud, Json.get (str "aud") claims = Some (JString aud)) \/
  exists auds, Json.get (str "aud") claims = Some (JArray (JString <$> auds)) /\ forall a b, a ∈ auds -> b ∈ auds -> a = b.

(** The authorized party is listed, or unnamed where one audience needs none. *)
Definition party_ok (policy : AuthorizedPartyPolicy) (claims : Json) : Prop :=
  (exists azp, Json.get (str "azp") claims = Some (JString azp) /\ azp ∈ party_allowed policy) \/
  (Json.get (str "azp") claims = None /\ one_audience claims).

Lemma size_le_1 (l : list rstring) :
  size (list_to_set l : gset rstring) <= 1 <-> forall a b, a ∈ l -> b ∈ l -> a = b.
Proof.
  split.
  - intros Hs a b Ha Hb. destruct (decide (a = b)) as [|Hne]; [done|].
    assert ({[a; b]} ⊆ (list_to_set l : gset rstring)) as Hsub%subseteq_size by set_solver.
    rewrite size_union, !size_singleton in Hsub by set_solver. lia.
  - intros Hall. destruct l as [|a l]; [cbn; rewrite size_empty; lia|].
    assert ((list_to_set (a :: l) : gset rstring) ⊆ {[a]}) as Hsub%subseteq_size.
    { intros x Hx%elem_of_list_to_set. apply elem_of_singleton. apply Hall; [done|by left]. }
    by rewrite size_singleton in Hsub.
Qed.

Lemma collect_strings items auds (e : OidcRejection) :
  collect_items (fun v => ok_or (Json.as_str v) e) items = Ok auds <-> items = JString <$> auds.
Proof.
  rewrite collect_items_Ok. revert auds. induction items as [|v items IH]; intros auds.
  - split; [by inversion 1|]. by destruct auds.
  - split.
    + inversion 1 as [|? a ? auds' Ha Hrest]; subst. cbn. f_equal; [|by apply IH].
      destruct v; cbn in Ha; congruence.
    + destruct auds as [|a auds]; [done|]. intros [= -> Hrest]. constructor; [done|]. by apply IH.
Qed.

#[local] Instance JString_inj : Inj (=) (=) JString.
Proof. by intros ? ? [=]. Qed.

Lemma party_check_Ok policy claims : AuthorizedPartyPolicy.check policy claims = Ok tt <-> party_ok policy claims.
Proof.
  unfold AuthorizedPartyPolicy.check, party_ok. destruct (Json.get (str "azp") claims) as [azp|].
  - destruct azp; try (split; [done|]; intros [(? & [=] & _)|[[=] _]]).
    case_bool_decide; split; try done.
    + intros _. left. by eexists.
    + by intros [(? & [= <-] & ?)|[[=] _]].
  - assert (forall n, AuthorizedPartyPolicy.distinct_audiences claims = Ok n -> n <= 1 <-> one_audience claims) as Hn.
    { intros n. unfold AuthorizedPartyPolicy.distinct_audiences, one_audience.
      destruct (Json.get (str "aud") claims) as [[]|]; try done.
      - intros [= <-]. split; [|lia]. intros _. left. by eexists.
      - destruct (collect_items _ items) as [auds|] eqn:Ec; [|done]. intros [= <-].
        apply collect_strings in Ec as ->. rewrite size_le_1. split.
        + intros Hall. right. by exists auds.
        + intros [[? [=]]|(auds' & [= Heq] & Hall)]. by apply (inj (fmap JString)) in Heq as ->. }
    assert (one_audience claims -> exists n, AuthorizedPartyPolicy.distinct_audiences claims = Ok n) as Hex.
    { unfold AuthorizedPartyPolicy.distinct_audiences. intros [[? ->]|(auds & -> & _)]; [by eexists|].
      rewrite (proj2 (collect_strings _ auds _) eq_refl). by eexists. }
    destruct (AuthorizedPartyPolicy.distinct_audiences claims) as [n|] eqn:Ed.
    + destruct (Nat.ltb_spec 1 n); split; try done.
      * intros [(? & [=] & _)|[_ H1%(Hn n eq_refl)]]. lia.
      * intros _. right. split; [done|]. apply (Hn n eq_refl). lia.
    + split; [done|]. intros [(? & [=] & _)|[_ [n Hcontra]%Hex]]. done.
Qed.

(** ** Accepted tokens *)

Section accepted.
Context `{Jwt, SerdeText, KeyErrorText}.

Lemma registered_claims_object members sub exp :
  registered_claims (JObject members) = Ok (sub, exp) ->
  Json.get (str "sub") (JObject members) = Some (JString sub) /\ secs_claim (str "exp") (JObject members) = Some exp.
Proof.
  unfold registered_claims, struct_members, string_member, u64_member, field, secs_claim, Json.get. cbn [Json.as_object].
  intros E. destruct (visit_map _ _ _ _); [|discriminate E].
  destruct (Json.lookup (str "sub") members) as [v|]; [cbn [ok_or] in E|discriminate E].
  destruct v; try discriminate E. cbn [ok_or Json.as_str] in E.
  destruct (Json.lookup (str "exp") members) as [w|]; [cbn [ok_or] in E|discriminate E].
  destruct (as_u64 w) as [n|] eqn:Ew; [cbn [ok_or] in E|discriminate E]. apply Ok_inj in E. injection E as -> ->. done.
Qed.

(** The steps of a successful validation. *)
Lemma validate_with_Ok {C} (deserialize : Json -> result C SerdeError) now self token v :
  OidcTokenValidator.validate_with deserialize now self token = Ok v ->
  exists header kid key claims exp,
    decode_header token = Ok header /\ header_kid header = Some kid /\ tv_keys self kid = Ok key /\
    header_alg header ∈ verified_algorithms (key_family key) /\
    decode now token key (OidcTokenValidator.validation self (verified_algorithms (key_family key))) = Ok claims /\
    (tv_require_access_token_typ self = true -> access_token_typ (header_typ header) = true) /\
    (forall policy, tv_authorized_party self = Some policy -> party_ok policy claims) /\
    registered_claims claims = Ok (vc_subject (vt_claims v), exp) /\
    checked_epoch_add exp = Some (vc_expires_at (vt_claims v)) /\ deserialize claims = Ok (vt_custom v) /\
    vc_issuer (vt_claims v) = tv_issuer self /\ vc_audience (vt_claims v) = tv_audience self.
Proof.
  unfold OidcTokenValidator.validate_with. intros E.
  destruct (decode_header token) as [header|]; [cbn [map_err] in E|discriminate E].
  destruct (header_kid header) as [kid|] eqn:Ek; [cbn [ok_or] in E|discriminate E].
  destruct (tv_keys self kid) as [key|] eqn:Ekey; [cbn [map_err] in E|discriminate E].
  destruct (slice_contains _ _) eqn:Ea; [cbn [negb] in E|discriminate E]. apply slice_contains_true in Ea.
  destruct (decode now token key _) as [claims|] eqn:Ed; [cbn [map_err] in E|discriminate E].
  destruct (_ && _) eqn:Et; [discriminate E|].
  destruct (match tv_authorized_party self with Some _ => _ | None => _ end) as [[]|] eqn:Ep; [|discriminate E].
  destruct (registered_claims claims) as [[sub exp]|] eqn:Er; [cbn [map_err] in E|discriminate E].
  destruct (checked_epoch_add exp) as [expires_at|] eqn:Ee; [cbn [ok_or] in E|discriminate E].
  destruct (deserialize claims) as [custom|] eqn:Ec; [cbn [map_err] in E|discriminate E].
  apply Ok_inj in E as <-. exists header, kid, key, claims, exp. cbn. split_and!; try done.
  - intros Hreq. rewrite Hreq in Et. by destruct (access_token_typ _).
  - intros policy Hpol. rewrite Hpol in Ep. by apply party_check_Ok.
Qed.
End accepted.

Section verified.
Context `{Jwt, UuidText, SerdeText, KeyErrorText}.
Context (from_slice : list N -> result Json rstring).
Context `{!JwtLaws from_slice}.

(** C20. An accepted token is what it claims to be: its signature verifies
    under the resolver's key for its key id, with an algorithm of that key's
    family, never a shared secret's; it names this issuer and this audience;
    its expiry and not-before instants hold up to the leeway; its media type
    and authorized party are allowed where the validator demands it; and
    subject, expiry and custom claims are those that were signed. *)
Theorem accepted_token_is_verified {C} (deserialize : Json -> result C SerdeError) (now : SystemTime)
    (self : OidcTokenValidator) (token : rstring) (v : ValidatedOidcToken C)
    (Hok : OidcTokenValidator.validate_with deserialize now self token = Ok v) :
  exists header kid key claims exp,
    decode_header token = Ok header /\ header_kid header = Some kid /\ tv_keys self kid = Ok key /\
    verifies key (header_alg header) token /\
    header_alg header ∈ verified_algorithms (key_family key) /\ key_family key <> Hmac /\
    claims_text (str "iss") (tv_issuer self) claims /\ claims_text (str "aud") (tv_audience self) claims /\
    Json.get (str "sub") claims = Some (JString (vc_subject (vt_claims v))) /\
    secs_claim (str "exp") claims = Some exp /\ vc_expires_at (vt_claims v) = (Z.of_N exp * 1000000000)%Z /\
    (unix_secs now <= Z.of_N exp + Z.of_N (tv_leeway_secs self))%Z /\
    (forall nbf, secs_claim (str "nbf") claims = Some nbf -> (Z.of_N nbf <= unix_secs now + Z.of_N (tv_leeway_secs self))%Z) /\
    (tv_require_access_token_typ self = true -> access_token_typ (header_typ header) = true) /\
    (forall policy, tv_authorized_party self = Some policy -> party_ok policy claims) /\
    deserialize claims = Ok (vt_custom v).
Proof.
  apply validate_with_Ok in Hok as (header & kid & key & claims & exp & Hh & Hk & Hkey & Halg & Hd & Htyp & Hparty & Hr & He & Hcustom & _).
  exists header, kid, key, claims, exp.
  destruct (decode_signature _ _ _ _ _ Hd) as (header' & Hh' & _ & Hsig). rewrite Hh in Hh'. injection Hh' as <-.
  destruct (decode_issuer _ _ _ _ _ Hd) as (iss & Hiss & ->%list_elem_of_singleton).
  destruct (decode_audience _ _ _ _ _ Hd) as (aud & Haud & ->%list_elem_of_singleton).
  destruct (decode_required _ _ _ _ _ (str "exp") Hd) as [w Hw]; [by left|].
  destruct claims as [| | | | |members]; try discriminate Hw.
  destruct (registered_claims_object _ _ _ Hr) as [Hsub Hexp].
  unfold checked_epoch_add in He. destruct (_ <? _)%N; [|discriminate He]. injection He as He.
  split_and!; try done.
  - intros Hmac. rewrite Hmac in Halg. by apply elem_of_nil in Halg.
  - by apply (decode_expiry _ _ _ _ _ exp Hd).
  - intros nbf Hn. by apply (decode_not_before _ _ _ _ _ nbf Hd).
Qed.

(** The unverified issuer of a token that a validator accepts is its issuer. *)
Lemma claimed_issuer_agrees {C} (deserialize : Json -> result C SerdeError) now self token v iss :
  OidcTokenValidator.validate_with deserialize now self token = Ok v ->
  claimed_issuer from_slice token = Some iss -> tv_issuer self = iss.
Proof.
  intros (header & kid & key & claims & exp & _ & _ & _ & _ & Hd & _)%validate_with_Ok Hc.
  destruct (decode_payload _ _ _ _ _ Hd) as (payload & bytes & document & Hp & Hb & Hs & ->).
  destruct (decode_issuer _ _ _ _ _ Hd) as (s & Hiss & ->%list_elem_of_singleton).
  unfold claimed_issuer in Hc. rewrite Hp in Hc. cbn [ok] in Hc. rewrite Hb in Hc. cbn [ok] in Hc. rewrite Hs in Hc. cbn [ok] in Hc.
  destruct document as [| | | |items|members]; try discriminate Hc.
  { destruct Hiss as [Hiss|(? & Hiss & _)]; discriminate Hiss. }
  unfold struct_members in Hc. destruct (visit_map _ _ _ _) as [[]|] eqn:Ev; cbn [ok] in Hc; [|discriminate Hc].
  unfold string_member, field in Hc. destruct (Json.lookup (str "iss") members) as [w|] eqn:El; cbn [ok ok_or] in Hc; [|discriminate Hc].
  destruct w; try discriminate Hc. cbn in Hc. injection Hc as <-.
  assert (Json.get (str "iss") (to_value (JObject members)) = Some (JString s)) as Hg
    by (by apply (to_value_member _ _ _ (str "iss") (JString s) Ev); [left|]).
  destruct Hiss as [Hiss|(? & Hiss & _)]; rewrite Hg in Hiss; congruence.
Qed.

(** A binding as the constructors and builders make it. *)
Inductive built (parse_uri : rstring -> result Uri rstring) : OidcBinding -> Prop :=
| built_new config keys map port shape b :
    OidcBinding.with_role_shape parse_uri config keys map port shape = Ok b -> built parse_uri b
| built_policy policy b : built parse_uri b -> built parse_uri (OidcBinding.with_authorized_party_policy policy b)
| built_typ b : built parse_uri b -> built parse_uri (OidcBinding.require_access_token_typ b).

Lemma built_route parse_uri b : built parse_uri b -> route_issuer (ob_route b) = tv_issuer (ob_validator b).
Proof.
  induction 1 as [config keys map port shape b E|policy b _ IH|b _ IH]; [|done|done].
  unfold OidcBinding.with_role_shape, OidcTokenValidator.new in E. destruct (validate parse_uri config); [|discriminate E].
  by apply Ok_inj in E as <-.
Qed.
End verified.

(** Filtering out what [f] drops anyway. *)
Lemma omap_filter_irrelevant {A B} (f : A -> option B) (P : A -> Prop) `{forall x, Decision (P x)} (l : list A) :
  (forall x y, x ∈ l -> f x = Some y -> P x) -> omap f (filter P l) = omap f l.
Proof.
  induction l as [|x l IH]; intros Hl; [done|]. rewrite filter_cons. case_decide as Hp; cbn.
  - rewrite IH; [done|]. intros y z Hy. apply Hl. by right.
  - destruct (f x) as [y|] eqn:Ef; [by destruct Hp; eapply Hl; [left|]|]. apply IH. intros y z Hy. apply Hl. by right.
Qed.

(** [omap] leaves one element: one index alone is kept. *)
Lemma omap_singleton {A B} (f : A -> option B) (l : list A) y :
  omap f l = [y] <->
  exists i x, l !! i = Some x /\ f x = Some y /\ forall j x', l !! j = Some x' -> j <> i -> f x' = None.
Proof.
  assert (forall l, omap f l = [] <-> forall (j : nat) x', l !! j = Some x' -> f x' = None) as Hnil.
  { induction l0 as [|x l0 IH]; [split; [by intros _ j x'; rewrite lookup_nil|done]|]. cbn. destruct (f x) eqn:Ef; split.
    - done.
    - intros Hl. specialize (Hl 0 x eq_refl). congruence.
    - intros Hl [|j] x' Hj; [by injection Hj as <-|]. by eapply IH.
    - intros Hl. apply IH. intros j x'. apply (Hl (S j)). }
  induction l as [|x l IH]; [split; [done|]; by intros (i & x & Hi & _)|]. cbn. destruct (f x) as [z|] eqn:Ef.
  - split.
    + intros [= -> Hl]. exists 0, x. split; [done|]. split; [done|]. intros [|j] x' Hj Hne; [done|]. by eapply Hnil.
    + intros ([|i] & x0 & Hi & Hf & Hothers); [|by rewrite (Hothers 0 x eq_refl) in Ef]. cbn in Hi. simplify_eq.
      f_equal. apply Hnil. intros j x'. intros Hj. by apply (Hothers (S j)).
  - rewrite IH. split.
    + intros (i & x0 & Hi & Hf & Hothers). exists (S i), x0. split_and!; try done.
      intros [|j] x' Hj Hne; [by injection Hj as <-|]. apply (Hothers j); [done|lia].
    + intros ([|i] & x0 & Hi & Hf & Hothers); [cbn in Hi; simplify_eq|]. exists i, x0. split_and!; try done.
      intros j x' Hj Hne. apply (Hothers (S j)); [done|lia].
Qed.

(** ** Binding sets *)

Section binding_sets.
Context `{Jwt, UuidText, SerdeText, KeyErrorText}.
Context (from_slice : list N -> result Json rstring) (parse_uri : rstring -> result Uri rstring).
Context `{!JwtLaws from_slice}.

Lemma accepts_Some now token b b' v :
  accepts now token b = Some (b', v) <->
  b' = b /\ OidcTokenValidator.validate_with claim_map now (ob_validator b) token = Ok v.
Proof.
  unfold accepts. destruct (OidcTokenValidator.validate_with _ _ _ _); cbn; [|naive_solver].
  split; [by intros [= <- <-]|]. by intros (-> & [= ->]).
Qed.

(** One binding alone accepts. *)
Lemma accepting_alone clock token bindings b v :
  omap (fun ib => accepts (clock ib.1) token ib.2) (imap pair bindings) = [(b, v)] <->
  exists i, bindings !! i = Some b /\ OidcTokenValidator.validate_with claim_map (clock i) (ob_validator b) token = Ok v /\
    forall j b', bindings !! j = Some b' -> j <> i ->
      is_ok (OidcTokenValidator.validate_with claim_map (clock j) (ob_validator b') token) = false.
Proof.
  rewrite omap_singleton. split.
  - intros (i & [i' b'] & Hi & [-> Hv]%accepts_Some & Hothers). rewrite list_lookup_imap in Hi.
    destruct (bindings !! i) as [b0|] eqn:Eb; [|discriminate Hi]. cbn in Hi. simplify_eq. exists i'. split_and!; try done.
    intros j b2 Hj Hne. specialize (Hothers j (j, b2)). rewrite list_lookup_imap, Hj in Hothers.
    specialize (Hothers eq_refl Hne). unfold accepts in Hothers. cbn [fst snd] in Hothers.
    by destruct (OidcTokenValidator.validate_with claim_map (clock j) (ob_validator b2) token).
  - intros (i & Hi & Hv & Hothers). exists i, (i, b). rewrite list_lookup_imap, Hi. split_and!; [done|by apply accepts_Some|].
    intros j [j' b2] Hj Hne. rewrite list_lookup_imap in Hj. destruct (bindings !! j) as [b0|] eqn:Eb; [|discriminate Hj].
    cbn in Hj. simplify_eq. specialize (Hothers j' b2 Eb Hne). unfold accepts. cbn [fst snd].
    by destruct (OidcTokenValidator.validate_with claim_map (clock j') (ob_validator b2) token).
Qed.

(** C21. A set answers exactly when one binding of the whole set alone accepts
    the token and turns it into a context: passing over bindings of another
    issuer by the unverified [iss] never changes the answer. *)
Theorem exactly_one_binding (clock : nat -> SystemTime) (bindings : list OidcBinding) (token : rstring) (ctx : AuthzContext)
    (Hbuilt : Forall (built parse_uri) bindings) :
  set_authenticate from_slice clock bindings (Bearer token) = Ok ctx <->
  exists i b v,
    bindings !! i = Some b /\
    OidcTokenValidator.validate_with claim_map (clock i) (ob_validator b) token = Ok v /\
    (forall j b', bindings !! j = Some b' -> j <> i ->
       is_ok (OidcTokenValidator.validate_with claim_map (clock j) (ob_validator b') token) = false) /\
    OidcBinding.authz_for_token b v = Ok ctx.
Proof.
  unfold set_authenticate. rewrite omap_filter_irrelevant.
  2:{ intros [i b] [b' v] Hin [-> Hv]%accepts_Some. cbn [snd fst] in *. unfold selects.
      destruct (claimed_issuer from_slice token) as [iss|] eqn:Ec; [|done]. apply bool_decide_eq_true.
      rewrite (built_route parse_uri), (claimed_issuer_agrees from_slice _ _ _ _ _ _ Hv Ec); [done|].
      apply list_elem_of_lookup in Hin as [k Hk]. rewrite list_lookup_imap in Hk.
      destruct (bindings !! k) as [b0|] eqn:Eb; [|discriminate Hk]. cbn in Hk. simplify_eq.
      by eapply Forall_lookup in Hbuilt. }
  pose proof (accepting_alone clock token bindings) as Hone.
  destruct (omap _ _) as [|[b v] [|? ?]].
  - split; [done|]. intros (i & b & v & Hb & Hv & Ho & _). pose proof (proj2 (Hone b v) (ex_intro _ i (conj Hb (conj Hv Ho)))). done.
  - destruct (proj1 (Hone b v) eq_refl) as (i & Hb & Hv & Ho). split.
    + intros E. by exists i, b, v.
    + intros (i' & b' & v' & Hb' & Hv' & Ho' & E). assert ([(b, v)] = [(b', v')]) as [= -> ->]; [|done].
      apply Hone. by exists i'.
  - split; [done|]. intros (i & b' & v' & Hb & Hv & Ho & _). pose proof (proj2 (Hone b' v') (ex_intro _ i (conj Hb (conj Hv Ho)))). done.
Qed.
End binding_sets.

(** ** Contexts *)

Lemma readable_owners_elem c kind owner : owner ∈ AuthzContext.readable_owners c kind <-> AuthzContext.may_read c owner kind = true.
Proof.
  unfold AuthzContext.readable_owners, AuthzContext.may_read. destruct (ctx_owner_roles c); cbn; [apply ordered_elem_of|].
  split; [by intros ?%elem_of_nil|done].
Qed.

Lemma writable_owners_elem c kind owner : owner ∈ AuthzContext.writable_owners c kind <-> AuthzContext.may_write c owner kind = true.
Proof.
  unfold AuthzContext.writable_owners, AuthzContext.may_write. destruct (ctx_owner_roles c); cbn; [apply ordered_elem_of|].
  split; [by intros ?%elem_of_nil|done].
Qed.

Lemma existsb_negb_false {A} (f : A -> bool) l : existsb (fun x => negb (f x)) l = false <-> forall x, x ∈ l -> f x = true.
Proof.
  split.
  - intros He x Hx. destruct (f x) eqn:Ef; [done|]. assert (existsb (fun x => negb (f x)) l = true); [|congruence].
    apply existsb_exists. exists x. split; [by apply list_elem_of_In|]. by rewrite Ef.
  - intros Hall. destruct (existsb _ l) eqn:He; [|done]. apply existsb_exists in He as (x & Hx%list_elem_of_In & Hf).
    by rewrite (Hall x Hx) in Hf.
Qed.

(** The rights of one context within those of another, as [rights_widened]
    compares them: reading, writing, and managing of the owners it reads.  It
    says nothing of an owner the context manages without reading. *)
Definition rights_within (c resolved : AuthzContext) : Prop :=
  (forall owner kind, AuthzContext.may_read c owner kind = true -> AuthzContext.may_read resolved owner kind = true) /\
  (forall owner kind, AuthzContext.may_write c owner kind = true -> AuthzContext.may_write resolved owner kind = true) /\
  (forall owner kind, AuthzContext.may_read c owner kind = true -> AuthzContext.may_manage c owner = true ->
     AuthzContext.may_manage resolved owner = true).

Lemma rights_within_refl c : rights_within c c.
Proof. by split_and!. Qed.

Lemma rights_within_trans a b c : rights_within a b -> rights_within b c -> rights_within a c.
Proof.
  intros (R1 & R2 & R3) (Q1 & Q2 & Q3). split_and!; [by auto|by auto|]. intros owner kind Hr Hm.
  apply (Q3 owner kind); [by auto|]. by apply (R3 owner kind).
Qed.

Lemma rights_widened_false resolved shaped : rights_widened resolved shaped = false <-> rights_within shaped resolved.
Proof.
  assert (forall kind, kind ∈ AccessKind.ALL) as Hall by (intros []; set_solver).
  assert (rights_widened resolved shaped = existsb (fun kind => negb
    (forallb (fun owner => AuthzContext.may_read resolved owner kind &&
       (negb (AuthzContext.may_manage shaped owner) || AuthzContext.may_manage resolved owner)) (AuthzContext.readable_owners shaped kind)
     && forallb (fun owner => AuthzContext.may_write resolved owner kind) (AuthzContext.writable_owners shaped kind))) AccessKind.ALL) as ->.
  { assert (forall (f g : OwnerId -> bool) l, (forall x, g x = negb (f x)) -> existsb g l = negb (forallb f l)) as Hneg.
    { intros f g l Hfg. induction l as [|x l IH]; [done|]. cbn. rewrite IH, Hfg. by destruct (f x). }
    unfold rights_widened, AccessKind.ALL. cbn [existsb]. repeat f_equal; rewrite negb_andb; f_equal; apply Hneg; try done;
      intros x; by destruct (AuthzContext.may_read _ _ _), (AuthzContext.may_manage shaped x), (AuthzContext.may_manage resolved x). }
  rewrite existsb_negb_false. unfold rights_within. setoid_rewrite andb_true_iff. setoid_rewrite forallb_forall.
  setoid_rewrite <-list_elem_of_In. setoid_rewrite readable_owners_elem. setoid_rewrite writable_owners_elem.
  setoid_rewrite andb_true_iff. split.
  - intros Hk. split_and!; intros owner kind Hr; [by apply (proj1 (Hk kind (Hall kind)))|by apply (proj2 (Hk kind (Hall kind)))|].
    intros Hm. destruct (proj1 (Hk kind (Hall kind)) owner Hr) as [_ Hd]. by rewrite Hm in Hd.
  - intros (H1 & H2 & H3) kind _. split; [|auto]. intros owner Hr. split; [auto|].
    destruct (AuthzContext.may_manage shaped owner) eqn:Em; [|done]. by apply (H3 owner kind).
Qed.

(** What a shaped context must share with the resolved one. *)
Definition same_identity (c resolved : AuthzContext) : Prop :=
  AuthzContext.auth_path c = HostBearer /\ AuthzContext.subject c = AuthzContext.subject resolved /\
  AuthzContext.writer c = AuthzContext.writer resolved /\
  AuthzContext.trusted_model_id c = AuthzContext.trusted_model_id resolved /\
  ctx_forwarded_owner c = ctx_forwarded_owner resolved.

Definition clamped (shaped : option SystemTime) (token_expires_at : SystemTime) : SystemTime :=
  match shaped with Some at_ => Z.min at_ token_expires_at | None => token_expires_at end.

Lemma narrowed_by_host_Ok resolved shaped at_ c :
  narrowed_by_host resolved shaped at_ = Ok c <->
  same_identity shaped resolved /\ rights_within shaped resolved /\
  c = AuthzContext.with_served_surface
        (AuthzContext.with_tool_scope
           (AuthzContext.with_expires_at shaped (Some (clamped (AuthzContext.expires_at shaped) at_)))
           (ToolScope.intersect (tool_scope (ctx_capabilities shaped)) (tool_scope (ctx_capabilities resolved))))
        (served_surface (ctx_capabilities resolved)).
Proof.
  unfold narrowed_by_host, same_identity. rewrite <-rights_widened_false. split.
  - intros E. destruct (_ || rights_widened resolved shaped) eqn:Ew; [discriminate E|]. apply Ok_inj in E as <-.
    rewrite !orb_false_iff, !negb_false_iff, !bool_decide_eq_true in Ew. naive_solver.
  - intros ((-> & -> & -> & -> & ->) & -> & ->). by rewrite !bool_decide_true.
Qed.

Lemma with_served_surface_admits c surface key decl :
  ServedSurface.admits (served_surface (ctx_capabilities (AuthzContext.with_served_surface c surface))) key decl = true ->
  ServedSurface.admits surface key decl = true.
Proof.
  unfold AuthzContext.with_served_surface. cbn [set_capabilities ctx_capabilities served_surface].
  destruct (served_surface (ctx_capabilities c)); [done|]. rewrite served_surface_intersect. intros Hb. by bools.
Qed.

Lemma clamped_le shaped at_ : (clamped shaped at_ <= at_)%Z.
Proof. destruct shaped; cbn; lia. Qed.

(** C23. A host's shape is accepted exactly when it keeps path, subject,
    writer, model id and forwarded owner, and neither reads, writes nor, where
    it reads, manages an owner the resolved roles do not; the context used then
    has that identity and those rights, expires no later than the token, and
    allows no tool and serves no key the resolved context does not. *)
Theorem host_shape_only_narrows (resolved shaped : AuthzContext) (token_expires_at : SystemTime) :
  (is_ok (narrowed_by_host resolved shaped token_expires_at) = true <->
   same_identity shaped resolved /\ rights_within shaped resolved) /\
  forall c, narrowed_by_host resolved shaped token_expires_at = Ok c ->
    same_identity c resolved /\ rights_within c resolved /\
    (exists at_, AuthzContext.expires_at c = Some at_ /\ (at_ <= token_expires_at)%Z) /\
    (forall key, ToolScope.allows (tool_scope (ctx_capabilities c)) key =
       ToolScope.allows (tool_scope (ctx_capabilities shaped)) key && ToolScope.allows (tool_scope (ctx_capabilities resolved)) key) /\
    (forall key decl, ServedSurface.admits (served_surface (ctx_capabilities c)) key decl = true ->
       ServedSurface.admits (served_surface (ctx_capabilities resolved)) key decl = true).
Proof.
  split.
  - pose proof (narrowed_by_host_Ok resolved shaped token_expires_at) as Hn.
    destruct (narrowed_by_host resolved shaped token_expires_at) as [c|e]; cbn [is_ok].
    + split; [|done]. intros _. destruct (Hn c) as [Hc _]. by destruct (Hc eq_refl) as (? & ? & _).
    + split; [done|]. intros [Hi Hr]. pose proof (proj2 (Hn _) (conj Hi (conj Hr eq_refl))) as Hc. discriminate Hc.
  - intros c (Hi & Hr & ->)%narrowed_by_host_Ok. split; [exact Hi|]. split; [exact Hr|]. split_and!.
    + eexists. split; [reflexivity|]. apply clamped_le.
    + intros key. apply tool_scope_intersect.
    + intros key decl. apply with_served_surface_admits.
Qed.

Section contexts_of_tokens.
Context `{Jwt, UuidText}.

(** A claim of the token that is a hyphenated UUID. *)
Definition uuid_claim (name : rstring) (token : ValidatedOidcToken OidcClaimMap) (id : Uuid) : Prop :=
  exists v, Json.lookup name (vt_custom token) = Some v /\ signed_uuid_claim v = Ok id.

(** What the port or, for a forwarder, the token says of a user. *)
Inductive resolves (port : OwnerAccessPort) (user : UserId) (token : ValidatedOidcToken OidcClaimMap) :
    AuthzContext -> Prop :=
| resolves_roles roles :
    is_forwarder port user = Ok false -> resolve_roles_for_subject port user = Ok roles ->
    resolves port user token (AuthzContext.server_resolved roles HostBearer)
| resolves_forwarded owner by_ via :
    is_forwarder port user = Ok true -> uuid_claim (str "owner") token owner -> uuid_claim (str "by") token by_ ->
    (Json.lookup (str "via") (vt_custom token) = Some JNull /\ via = None \/
     exists id, uuid_claim (str "via") token id /\ via = Some id) ->
    resolves port user token
      (AuthzContext.from_verified_forwarded_owner user (mk_OwnerId owner) (mk_WriterAttribution by_ via)).

Lemma context_for_verified_token_Ok port user token c :
  context_for_verified_token port user token = Ok c ->
  exists c0, resolves port user token c0 /\ c = AuthzContext.with_expires_at c0 (Some (vc_expires_at (vt_claims token))).
Proof.
  unfold context_for_verified_token. intros E.
  destruct (is_forwarder port user) as [[]|] eqn:Ef; [| |discriminate E]; cbn [map_err] in E.
  - destruct (Json.lookup (str "owner") _) as [vo|] eqn:Eo; cbn [ok_or] in E; [|discriminate E].
    destruct (signed_uuid_claim vo) as [owner|] eqn:Eo'; [|discriminate E].
    destruct (Json.lookup (str "by") _) as [vb|] eqn:Eb; cbn [ok_or] in E; [|discriminate E].
    destruct (signed_uuid_claim vb) as [by_|] eqn:Eb'; [|discriminate E].
    destruct (Json.lookup (str "via") _) as [vv|] eqn:Ev; cbn [ok_or] in E; [|discriminate E].
    destruct (match vv with JNull => _ | _ => _ end) as [via|] eqn:Ev'; [|discriminate E]. apply Ok_inj in E as <-.
    exists (AuthzContext.from_verified_forwarded_owner user (mk_OwnerId owner) (mk_WriterAttribution by_ via)).
    split; [|reflexivity]. apply (resolves_forwarded port user token owner by_ via); [done|by exists vo|by exists vb|].
    assert (vv = JNull /\ via = None \/ exists id, signed_uuid_claim vv = Ok id /\ via = Some id) as [[-> ->]|(id & Hid & ->)].
    + destruct vv as [| | | | |]; [left; by apply Ok_inj in Ev' as <-|..]; right;
        match type of Ev' with context [signed_uuid_claim ?v] => destruct (signed_uuid_claim v) as [id|]; [|discriminate Ev'] end;
        injection Ev' as <-; by exists id.
    + left. done.
    + right. exists id. split; [by exists vv|done].
  - destruct (resolve_roles_for_subject port user) as [roles|] eqn:Er; cbn [map_err] in E; [|discriminate E].
    apply Ok_inj in E as <-. exists (AuthzContext.server_resolved roles HostBearer). split; [by apply resolves_roles|done].
Qed.

(** A context with the identity of the resolved one and rights within its, that
    expires no later than the token. *)
Definition bounded_by (c resolved : AuthzContext) (model_id : option rstring) (token_expires_at : SystemTime) : Prop :=
  AuthzContext.auth_path c = HostBearer /\ AuthzContext.subject c = AuthzContext.subject resolved /\
  AuthzContext.writer c = AuthzContext.writer resolved /\ ctx_forwarded_owner c = ctx_forwarded_owner resolved /\
  AuthzContext.trusted_model_id c = model_id /\ rights_within c resolved /\
  exists at_, AuthzContext.expires_at c = Some at_ /\ (at_ <= token_expires_at)%Z.

Lemma resolves_fresh port user token c0 :
  resolves port user token c0 -> AuthzContext.auth_path c0 = HostBearer /\ AuthzContext.trusted_model_id c0 = None.
Proof. by destruct 1. Qed.

Lemma bind_trusted_model_id_Ok c model_id c' :
  bind_trusted_model_id c model_id = Ok c' ->
  c' = match model_id with
       | None => c
       | Some raw => set_identity (set_id_trusted_model_id (Some (trim raw)) (ctx_identity c)) c
       end.
Proof.
  unfold bind_trusted_model_id, AuthzContext.with_trusted_model_id. destruct model_id as [raw|]; [|by intros [= <-]].
  destruct (validate_trusted_model_id raw) as [id|] eqn:Ev; [|done]. cbn [map_err]. intros [= <-].
  by apply validate_trusted_model_id_Ok in Ev as (-> & _).
Qed.

(** C22. The context of an accepted token is the mapped user's: the subject is
    allowed and in the map for this issuer, the identity is what the owner
    access port, or for a forwarder the token's signed claims, give for that
    user.  It reads and writes at most what the port gives, a forwarder nothing,
    whatever the host's shaper does.  Without a host's shaper its roles are the
    port's, so it manages what they manage; a host's shaper is bounded in
    managing only where the context reads.  The model id is the map's, the
    expiry at most the token's, and the claims are the verified ones. *)
Theorem token_context_is_bounded (self : OidcBinding) (token : ValidatedOidcToken OidcClaimMap) (ctx : AuthzContext)
    (Hok : OidcBinding.authz_for_token self token = Ok ctx) :
  exists binding resolved,
    OidcSubjectMap.resolve_binding (ob_subject_map self) (vc_issuer (vt_claims token)) (vc_subject (vt_claims token)) = Some binding /\
    (forall allow, ob_allowed_subjects self = Some allow -> vc_subject (vt_claims token) ∈ allow) /\
    resolves (ob_owner_access self) (bound_user_id binding) token resolved /\
    bounded_by ctx resolved (trim <$> bound_trusted_model_id binding) (vc_expires_at (vt_claims token)) /\
    ctx_verified_claims ctx = Some (vt_custom token) /\
    (is_forwarder (ob_owner_access self) (bound_user_id binding) = Ok true ->
     forall owner kind, AuthzContext.may_read ctx owner kind = false /\ AuthzContext.may_write ctx owner kind = false) /\
    ((forall shaper, ob_role_shape self <> HostShape shaper) -> ctx_owner_roles ctx = ctx_owner_roles resolved).
Proof.
  unfold OidcBinding.authz_for_token in Hok. destruct (is_some_and _ _) eqn:Ea; [discriminate Hok|].
  destruct (OidcSubjectMap.resolve_binding _ _ _) as [binding|] eqn:Eb; [|discriminate Hok].
  destruct (context_for_verified_token _ _ _) as [c1|] eqn:E1; [|discriminate Hok].
  destruct (bind_trusted_model_id c1 _) as [c2|] eqn:E2; [|discriminate Hok].
  destruct (OidcRoleShape.apply _ c2 token) as [c3|] eqn:E3; [|discriminate Hok]. apply Ok_inj in Hok as <-.
  apply context_for_verified_token_Ok in E1 as (c0 & Hres & ->). exists binding, c0.
  destruct (resolves_fresh _ _ _ _ Hres) as [Hpath Hmodel].
  assert (bounded_by c2 c0 (trim <$> bound_trusted_model_id binding) (vc_expires_at (vt_claims token))) as Hb2.
  { apply bind_trusted_model_id_Ok in E2 as ->. unfold bounded_by.
    destruct (bound_trusted_model_id binding); (split_and!; try done; by eexists). }
  assert (bounded_by c3 c0 (trim <$> bound_trusted_model_id binding) (vc_expires_at (vt_claims token))) as Hb3.
  { destruct (ob_role_shape self) as [|scope|shaper]; cbn in E3; [by injection E3 as <-|by injection E3 as <-|].
    destruct (shaper c2 token) as [shaped|]; [|discriminate E3]. apply narrowed_by_host_Ok in E3 as (Hi & (R1 & R2 & R3) & ->).
    destruct Hi as (I1 & I2 & I3 & I4 & I5), Hb2 as (P1 & P2 & P3 & P4 & P5 & Q & _).
    split; [exact I1|]. split; [exact (eq_trans I2 P2)|]. split; [exact (eq_trans I3 P3)|]. split; [exact (eq_trans I5 P4)|].
    split; [exact (eq_trans I4 P5)|]. split; [exact (rights_within_trans _ _ _ (conj R1 (conj R2 R3)) Q)|].
    eexists. split; [reflexivity|]. apply clamped_le. }
  split_and!; try done.
  - intros allow Hal. rewrite Hal in Ea. cbn in Ea. apply negb_false_iff in Ea. by apply bool_decide_eq_true in Ea.
  - intros Hf owner kind. destruct Hb3 as (_ & _ & _ & _ & _ & (R1 & R2 & _) & _).
    destruct Hres as [roles Hnf _|]; [congruence|]. specialize (R1 owner kind). specialize (R2 owner kind).
    cbn in R1, R2. unfold AuthzContext.may_read, AuthzContext.may_write in *. cbn in *.
    unfold OwnerRoles.may_read, OwnerRoles.may_write, OwnerRoles.role_for in *. cbn in *. rewrite lookup_empty in *.
    cbn in *. split; apply not_true_is_false; intros Hc; [by discriminate R1|by discriminate R2].
  - intros Hshape. apply bind_trusted_model_id_Ok in E2 as ->.
    destruct (ob_role_shape self) as [|scope|shaper]; cbn in E3; [injection E3 as <-..|by destruct (Hshape shaper)];
      by destruct (bound_trusted_model_id binding).
Qed.
End contexts_of_tokens.

(** ** Samples *)

Module SampleOidc.
Import SampleKeys.

Definition sample_token : rstring := str "h.p.s".
Definition sample_claims : Json :=
  JObject [(str "iss", JString sample_issuer); (str "aud", JString (str "api")); (str "sub", JString (str "alice"));
           (str "exp", JNumber (str "100"))].
Definition payload_parser (body : list N) : result Json rstring :=
  if bool_decide (body = str "p") then Ok sample_claims else Err (str "syntax").

Definition timely (now : SystemTime) (v : Validation) : bool :=
  (unix_secs now <=? 100 + Z.of_N (val_leeway v))%Z.

(** A library that knows one token, signed by one key. *)
#[export] Instance sample_jwt : Jwt := {|
  decode_header token :=
    if bool_decide (token = sample_token) then Ok (mk_Header _ (Some (str "a")) (str "RS256") (Some (str "AT+JWT")))
    else Err (OtherJwtError []);
  decode now token key v :=
    if bool_decide (token = sample_token) && bool_decide (key = sample_key) && slice_contains (str "RS256") (val_algorithms v)
       && slice_contains sample_issuer (val_iss v) && slice_contains (str "api") (val_aud v) && timely now v
       && forallb (fun claim => is_some (Json.get claim sample_claims)) (val_required_spec_claims v)
    then Ok (to_value sample_claims) else Err InvalidSignature;
  verifies key alg token := key = sample_key /\ alg = str "RS256" /\ token = sample_token;
|}.

Lemma sample_decode_Ok now token key v claims :
  decode now token key v = Ok claims ->
  token = sample_token /\ key = sample_key /\ str "RS256" ∈ val_algorithms v /\ sample_issuer ∈ val_iss v /\
  str "api" ∈ val_aud v /\ timely now v = true /\
  (forall claim, claim ∈ val_required_spec_claims v -> is_Some (Json.get claim sample_claims)) /\ claims = to_value sample_claims.
Proof.
  cbn [decode sample_jwt]. destruct (_ && _) eqn:E; [|done]. intros [= <-].
  repeat (apply andb_prop in E as [E ?]). rewrite !bool_decide_eq_true, !slice_contains_true, forallb_forall in *.
  split_and!; try done. intros claim Hc%list_elem_of_In.
  destruct (Json.get claim sample_claims) eqn:Eg; [by eexists|]. specialize (H claim Hc). by rewrite Eg in H.
Qed.

Lemma sample_claims_value : to_value sample_claims = sample_claims.
Proof. by vm_compute. Qed.

#[export] Instance sample_jwt_laws : JwtLaws payload_parser.
Proof.
  split; intros now token key v claims; [| | |intros exp|intros nbf|intros claim|];
    intros (-> & -> & Ha & Hi & Hu & Ht & Hr & ->)%sample_decode_Ok; rewrite ?sample_claims_value.
  - eexists. split; [by vm_compute|]. by repeat split.
  - exists sample_issuer. split; [left; by vm_compute|done].
  - exists (str "api"). split; [left; by vm_compute|done].
  - intros He. vm_compute in He. injection He as <-. unfold timely in Ht. lia.
  - intros _ Hn. by vm_compute in Hn.
  - apply Hr.
  - exists (str "p"), (str "p"), sample_claims. by split_and!; vm_compute.
Qed.

#[export] Instance sample_key_error_text : KeyErrorText := fun _ => [].
#[export] Instance sample_uuid_parser : UuidText := {| hyphenated := display_u64; try_parse _ := None |}.

Definition sample_keys : KeyResolver := fun kid => if bool_decide (kid = str "a") then Ok sample_key else Err UnknownKid.
Definition sample_config (audience : rstring) : OidcAuthConfig := mk_OidcAuthConfig sample_issuer None audience None 5.
Definition sample_map : OidcSubjectMap :=
  mk_OidcSubjectMap {[ (sample_issuer, str "alice") := mk_SubjectBinding (mk_UserId 1) (Some (str "gpt")) ]}.
Definition sample_port : OwnerAccessPort := owner_access_port_default (fun user => Ok (OwnerRoles.empty_for_subject user)).

Definition sample_validator (audience : rstring) : OidcTokenValidator :=
  mk_OidcTokenValidator _ sample_issuer audience 5 sample_keys None false.
Definition sample_binding (audience : rstring) : OidcBinding :=
  mk_OidcBinding _ (mk_OidcBindingRoute sample_issuer audience) (sample_validator audience) None sample_map sample_port ServerResolved.

Lemma sample_built audience : trim audience <> [] -> built sample_parse_uri (sample_binding audience).
Proof.
  intros Ha. apply (built_new _ (sample_config audience) sample_keys sample_map sample_port ServerResolved).
  unfold OidcBinding.with_role_shape, OidcTokenValidator.new.
  rewrite (proj2 (config_validate_exact sample_parse_uri (sample_config audience))); [done|].
  split_and!; try done. left. by eexists _, (str "https"), (str "id.example").
Qed.

Definition sample_validated : ValidatedOidcToken OidcClaimMap :=
  mk_ValidatedOidcToken (mk_ValidatedOidcClaims sample_issuer (str "api") (str "alice") 100000000000)
    (default [] (Json.as_object sample_claims)).

Definition sample_oidc_context : AuthzContext :=
  match OidcBinding.authz_for_token (sample_binding (str "api")) sample_validated with
  | Ok c => c
  | Err _ => AuthzContext.denied_for_owner (mk_OwnerId 0)
  end.

Lemma accepted_token_is_verified_witness :
  exists header key, decode_header sample_token = Ok header /\ verifies key (header_alg header) sample_token /\
    key_family key <> Hmac.
Proof.
  destruct (accepted_token_is_verified payload_parser claim_map 50000000000 (sample_validator (str "api")) sample_token
    sample_validated) as (header & kid & key & claims & exp & H1 & _ & _ & H2 & _ & H3 & _); [by vm_compute|].
  by exists header, key.
Defined.

Lemma sample_context_of_token : OidcBinding.authz_for_token (sample_binding (str "api")) sample_validated = Ok sample_oidc_context.
Proof. by vm_compute. Qed.

(** Two bindings of one issuer: the token is for one of them. *)
Lemma exactly_one_binding_witness :
  set_authenticate payload_parser (fun _ => 50000000000%Z) [sample_binding (str "other"); sample_binding (str "api")]
    (Bearer sample_token) = Ok sample_oidc_context.
Proof.
  apply (exactly_one_binding payload_parser sample_parse_uri).
  - apply Forall_cons_2; [by apply sample_built|]. apply Forall_cons_2; [by apply sample_built|]. apply Forall_nil_2.
  - exists 1, (sample_binding (str "api")), sample_validated. split_and!; [done|by vm_compute| |exact sample_context_of_token].
    intros [|[|j]] b' Hb Hne; [|done|discriminate Hb]. injection Hb as <-. by vm_compute.
Defined.

Lemma token_context_is_bounded_witness :
  exists binding, bound_user_id binding = mk_UserId 1 /\
    AuthzContext.trusted_model_id sample_oidc_context = trim <$> bound_trusted_model_id binding.
Proof.
  destruct (token_context_is_bounded (sample_binding (str "api")) sample_validated sample_oidc_context)
    as (binding & resolved & Hb & _ & _ & Hbound & _); [exact sample_context_of_token|].
  exists binding. split; [|apply Hbound]. assert (Some (mk_SubjectBinding (mk_UserId 1) (Some (str "gpt"))) = Some binding) as [= <-];
    [|done]. rewrite <-Hb. by vm_compute.
Defined.

(** A shaper that adds a role with no reading and no writing but managing gets
    it past the check, which looks at managing only where the shaped context
    reads. *)
Definition alice_resolved : AuthzContext := AuthzContext.server_resolved (OwnerRoles.empty_for_subject (mk_UserId 1)) HostBearer.
Definition unreadable_manager : Role := mk_Role CNone CNone true.
Definition managing_shape : AuthzContext :=
  default alice_resolved (AuthzContext.with_host_resolved_role alice_resolved (mk_GroupId 9) unreadable_manager).

Example managing_without_reading_passes :
  Role.new CNone CNone true = Ok unreadable_manager /\
  AuthzContext.may_manage alice_resolved (mk_OwnerId 9) = false /\
  match narrowed_by_host alice_resolved managing_shape 100 with
  | Ok c => AuthzContext.may_manage c (mk_OwnerId 9) = true
  | Err _ => False
  end.
Proof. by vm_compute. Qed.

End SampleOidc.
