(* ===== verification/GoalWrite.v ===== *)
(** * Goal commands

    [crates/core/src/verbs/goal_write.rs] and
    [crates/core/src/memory/payloads/goal_change.rs]: goal states and their
    transitions, what a goal points at, drafts and requests; with the pure part
    of [crates/storage-pg/src/verbs/goal_write/]: the drafts of successors and
    children, the children rule, and the declarations a replay is judged by. *)

From S2P Require Import Prelude Ids Text Json Publication Errors Idempotency MemoryStore Admission.

(** ** States *)

Inductive GoalState := Active | Paused | Achieved | Abandoned.

#[export] Instance GoalState_eq_dec : EqDecision GoalState.
Proof. solve_decision. Defined.

Module GoalState.

Definition list_label (self : GoalState) : rstring :=
  match self with
  | Active => str "Active"
  | Paused => str "Paused"
  | Achieved => str "Achieved"
  | Abandoned => str "Abandoned"
  end.

Definition filter_label (self : GoalState) : rstring :=
  match self with
  | Active => str "active"
  | Paused => str "paused"
  | Achieved => str "achieved"
  | Abandoned => str "abandoned"
  end.

Definition from_filter_label (raw : rstring) : option GoalState :=
  let raw := to_ascii_lowercase raw in
  if bool_decide (raw = str "active") then Some Active
  else if bool_decide (raw = str "paused") then Some Paused
  else if bool_decide (raw = str "achieved") then Some Achieved
  else if bool_decide (raw = str "abandoned") then Some Abandoned
  else None.

Definition may_transition_to (self next : GoalState) : bool :=
  match self, next with
  | Active, (Active | Paused | Abandoned) => true
  | Paused, (Active | Abandoned) => true
  | _, _ => false
  end.

Definition may_achieve (self : GoalState) : bool := match self with Active => true | _ => false end.

End GoalState.

Inductive PendingWork := Keep | Discard.

Inductive GoalTransitionKind :=
| Pause (pending : PendingWork)
| Resume
| Abandon.

(** [GoalChange]. *)
Inductive GoalChange :=
| ChangeSet
| ChangeModify
| ChangeDecomposeChild (parent : GoalId)
| ChangePause (pending : PendingWork)
| ChangeResume
| ChangeAbandon
| ChangeAchieve.

Module GoalTransitionKind.

Definition next_state (self : GoalTransitionKind) : GoalState :=
  match self with Pause _ => Paused | Resume => Active | Abandon => Abandoned end.

(** [From<GoalTransitionKind> for GoalChange]. *)
Definition change (self : GoalTransitionKind) : GoalChange :=
  match self with
  | Pause pending => ChangePause pending
  | Resume => ChangeResume
  | Abandon => ChangeAbandon
  end.

End GoalTransitionKind.

(** ** Authorship and topology *)

Inductive SystemOrigin :=
| Operator (operator_id operator_kind input_contract_id model_id prompt_version : rstring)
| Tool (tool_id : rstring).

Inductive GoalAuthorship :=
| AuthorUser
| AuthorSystem (origin : SystemOrigin)
| AuthorExternal.

(** The proof that a memory of another store was read there. *)
Record ReadOrigin := mk_ReadOrigin { origin_handle : Uuid; origin_kind : EntityKind }.

Record GoalEvidenceRef := mk_GoalEvidenceRef {
  ev_memory_id : MemoryId;
  ev_remote : option ReadOrigin;
}.

Module GoalEvidenceRef.

Definition new (memory_id : MemoryId) : GoalEvidenceRef := mk_GoalEvidenceRef memory_id None.
Definition remote (origin : ReadOrigin) : GoalEvidenceRef :=
  mk_GoalEvidenceRef (mk_MemoryId (origin_handle origin)) (Some origin).

End GoalEvidenceRef.

(** [GoalMotivationRef] and [GoalDependencyRef] are the ids they wrap. *)
Record GoalTopologyWrite := mk_GoalTopologyWrite {
  top_motivated_by : list MemoryId;
  top_dependencies : list GoalId;
  top_evidence : list GoalEvidenceRef;
}.

(** Whether inserting the elements in turn into a set meets one it holds. *)
Fixpoint has_duplicate {A} `{EqDecision A} (seen : list A) (l : list A) : bool :=
  match l with
  | [] => false
  | x :: l => if slice_contains x seen then true else has_duplicate (x :: seen) l
  end.

Module GoalTopologyWrite.

(** The motivations, each kept at its first occurrence. *)
Definition normalized (motivated_by : list MemoryId) : list MemoryId :=
  fold_left (fun kept motivation => if slice_contains motivation kept then kept else kept ++ [motivation])
    motivated_by [].

Definition new (motivated_by : list MemoryId) (dependencies : list GoalId) (evidence : list GoalEvidenceRef) :
    result GoalTopologyWrite ProtocolError :=
  if has_duplicate [] dependencies then
    Err (ProtocolError.invalid_argument (str "dependencies") (str "duplicate goal dependency"))
  else if has_duplicate [] (ev_memory_id <$> evidence) then
    Err (ProtocolError.invalid_argument (str "evidence") (str "duplicate goal evidence"))
  else Ok (mk_GoalTopologyWrite (normalized motivated_by) dependencies evidence).

End GoalTopologyWrite.

(** ** Payloads and drafts *)

(** A typed payload: its kind and schema, and what [durable] makes of it. *)
Inductive PayloadKind := PayloadFact | PayloadAbstraction | PayloadPerspective | PayloadGoal | PayloadCitedObject.

#[export] Instance PayloadKind_eq_dec : EqDecision PayloadKind.
Proof. solve_decision. Defined.

Record SidecarPayload := mk_SidecarPayload {
  side_kind : PayloadKind;
  side_schema_id : SchemaId;
  side_schema_version : N;
  side_durable : result Json rstring;
}.

Record GoalPayloadWrite := mk_GoalPayloadWrite {
  pw_schema_id : SchemaId;
  pw_schema_version : N;
  pw_title : rstring;
  pw_text : rstring;
  pw_payload : list N;
  pw_sidecar_payload : option SidecarPayload;
}.

Inductive GoalWriteBuildError :=
| InvalidTitle (violation : TrimmedLenViolation)
| InvalidText (violation : TrimmedLenViolation).

Definition MAX_GOAL_TITLE_CHARS : N := 240.
Definition MAX_GOAL_TEXT_CHARS : N := 20000.

Definition normalize_goal_display_field (value : rstring) (max_chars : N)
    (wrap : TrimmedLenViolation -> GoalWriteBuildError) : result rstring GoalWriteBuildError :=
  map_err wrap (check_trimmed_len value max_chars).

Module GoalPayloadWrite.

(** [key] is [goal_key] of the payload. *)
Definition from_payload (title text : rstring) (key : list N) (payload : SidecarPayload) :
    result GoalPayloadWrite GoalWriteBuildError :=
  let? title := normalize_goal_display_field title MAX_GOAL_TITLE_CHARS InvalidTitle in
  let? text := normalize_goal_display_field text MAX_GOAL_TEXT_CHARS InvalidText in
  Ok (mk_GoalPayloadWrite (side_schema_id payload) (side_schema_version payload) title text key (Some payload)).

End GoalPayloadWrite.

Record GoalDraft := mk_GoalDraft {
  dr_owner : OwnerId;
  dr_schema_id : SchemaId;
  dr_schema_version : N;
  dr_title : rstring;
  dr_text : rstring;
  dr_payload : list N;
  dr_sidecar_payload : option SidecarPayload;
  dr_state : GoalState;
  dr_topology : GoalTopologyWrite;
  dr_supersedes_goal_id : option GoalId;
  dr_authorship : GoalAuthorship;
  dr_request_id : rstring;
}.

Module GoalDraft.

Definition active_from_payload_write (owner : OwnerId) (payload : GoalPayloadWrite) (topology : GoalTopologyWrite)
    (authorship : GoalAuthorship) (request_id : IdempotencyKey) : GoalDraft :=
  mk_GoalDraft owner (pw_schema_id payload) (pw_schema_version payload) (pw_title payload) (pw_text payload)
    (pw_payload payload) (pw_sidecar_payload payload) Active topology None authorship
    (IdempotencyKey.as_str request_id).

End GoalDraft.

(** ** Requests *)

(** Of the frozen registry, its Goal schemas and whether goal changes are
    listenable; of the context, whether it carries a publication stamp. *)
Record GoalAtomicContext := mk_GoalAtomicContext {
  ctx_goal_schemas : list (SchemaId * N);
  ctx_change_listenable : bool;
  ctx_publication : bool;
}.

Record CreateGoalAtomicRequest := mk_CreateGoal {
  create_draft : GoalDraft;
  create_context : GoalAtomicContext;
  create_write_act_t : option MemoryId;
}.

Record TransitionGoalAtomicRequest := mk_TransitionGoal {
  trans_owner : OwnerId;
  trans_prior_goal_id : GoalId;
  trans_transition : GoalTransitionKind;
  trans_authorship : GoalAuthorship;
  trans_request_id : IdempotencyKey;
  trans_context : GoalAtomicContext;
}.

Record AchieveGoalAtomicRequest := mk_AchieveGoal {
  ach_owner : OwnerId;
  ach_prior_goal_id : GoalId;
  ach_authorship : GoalAuthorship;
  ach_request_id : IdempotencyKey;
  ach_context : GoalAtomicContext;
  ach_evidence : list GoalEvidenceRef;
}.

Record ModifyGoalAtomicRequest := mk_ModifyGoal {
  mod_owner : OwnerId;
  mod_prior_goal_id : GoalId;
  mod_replacement : GoalPayloadWrite;
  mod_authorship : GoalAuthorship;
  mod_request_id : IdempotencyKey;
  mod_context : GoalAtomicContext;
  mod_evidence : option (list GoalEvidenceRef);
  mod_motivated_by : option (list MemoryId);
}.

Record ChildGoalDraft := mk_ChildGoal {
  child_payload : GoalPayloadWrite;
  child_evidence : list GoalEvidenceRef;
  child_request_id : IdempotencyKey;
}.

Record DecomposeGoalAtomicRequest := mk_DecomposeGoal {
  dec_owner : OwnerId;
  dec_parent_goal_id : GoalId;
  dec_authorship : GoalAuthorship;
  dec_context : GoalAtomicContext;
  dec_topology : GoalTopologyWrite;
  dec_children : list ChildGoalDraft;
}.

Record GoalWriteOutcome := mk_GoalWriteOutcome {
  gw_goal_id : GoalId;
  gw_goal_handle : GoalHandle;
  gw_edge_count : N;
  gw_idempotent_replay : bool;
}.

Record DecomposeGoalOutcome := mk_DecomposeGoalOutcome {
  dg_children : list GoalWriteOutcome;
  dg_idempotent_replay : bool;
}.

(** ** Drafts of successors and of children *)

(** [StoredGoal]; its payload is empty. *)
Record StoredGoal := mk_StoredGoal {
  sg_schema_id : SchemaId;
  sg_schema_version : N;
  sg_title : rstring;
  sg_text : option rstring;
  sg_state : GoalState;
  sg_motivated_by : list MemoryId;
  sg_dependencies : list GoalId;
}.

Definition invalid_transition (prior next : GoalState) : StorageError :=
  ConstraintViolation (str "invalid goal transition: " ++ GoalState.list_label prior ++ str " -> "
                       ++ GoalState.list_label next).

Definition validate_goal_transition (prior next : GoalState) : result unit StorageError :=
  if GoalState.may_transition_to prior next then Ok tt else Err (invalid_transition prior next).

Definition validate_goal_achievement (prior : GoalState) : result unit StorageError :=
  if GoalState.may_achieve prior then Ok tt else Err (invalid_transition prior Achieved).

Definition evidence_refs (evidence : list MemoryId) : list GoalEvidenceRef := GoalEvidenceRef.new <$> evidence.

(** [None] where the [expect] on the topology panics. *)
Definition draft_from_stored (owner : OwnerId) (stored : StoredGoal) (state : GoalState) (supersedes : option GoalId)
    (authorship : GoalAuthorship) (request_id : rstring) (evidence : list MemoryId) : option GoalDraft :=
  let* topology := ok (GoalTopologyWrite.new (sg_motivated_by stored) (sg_dependencies stored)
                         (evidence_refs evidence)) in
  Some (mk_GoalDraft owner (sg_schema_id stored) (sg_schema_version stored) (sg_title stored) [] [] None state topology
          supersedes authorship request_id).

Definition draft_from_payload (owner : OwnerId) (payload : GoalPayloadWrite) (state : GoalState)
    (motivated_by : list MemoryId) (dependencies : list GoalId) (supersedes : option GoalId)
    (authorship : GoalAuthorship) (request_id : rstring) (evidence : list MemoryId) : option GoalDraft :=
  let* topology := ok (GoalTopologyWrite.new motivated_by dependencies (evidence_refs evidence)) in
  Some (mk_GoalDraft owner (pw_schema_id payload) (pw_schema_version payload) (pw_title payload) (pw_text payload)
          (pw_payload payload) (pw_sidecar_payload payload) state topology supersedes authorship request_id).

Definition child_draft (owner : OwnerId) (parent_goal_id : GoalId) (topology : GoalTopologyWrite)
    (authorship : GoalAuthorship) (child : ChildGoalDraft) : result GoalDraft StorageError :=
  let dependencies := top_dependencies topology ++ [parent_goal_id] in
  match GoalTopologyWrite.new (top_motivated_by topology) dependencies (child_evidence child) with
  | Ok child_topology =>
      Ok (GoalDraft.active_from_payload_write owner (child_payload child) child_topology authorship
            (child_request_id child))
  | Err err => Err (ConstraintViolation (message err))
  end.

(** ** The children rule *)

Inductive ChildRule := NoneOpen | ClosedWithAchieved.

Definition is_open (state : GoalState) : bool := match state with Active | Paused => true | _ => false end.

(** The rows are a child's head and its state. *)
Definition open_children (rows : list (Uuid * GoalState)) : result unit StorageError :=
  let open := (fun row => mk_GoalId row.1) <$> filter (fun row : Uuid * GoalState => is_open row.2 = true) rows in
  if is_empty open then Ok tt else Err (GoalChildrenOpen open).

Definition children_verdict (rows : list (Uuid * GoalState)) : result unit StorageError :=
  if is_empty rows then Ok tt
  else
    let? _ := open_children rows in
    if existsb (fun row => bool_decide (row.2 = Achieved)) rows then Ok tt else Err GoalChildrenAllAbandoned.

Definition children_rule (rule : ChildRule) (rows : list (Uuid * GoalState)) : result unit StorageError :=
  match rule with NoneOpen => open_children rows | ClosedWithAchieved => children_verdict rows end.

(** ** Replay declarations

    [crates/storage-pg/src/verbs/goal_write/replay.rs]: what of a request is
    stored with its goal, and compared when its request id comes again. *)

Record ReplaySidecar := mk_ReplaySidecar {
  rs_kind : PayloadKind;
  rs_schema_id : rstring;
  rs_schema_version : N;
  rs_payload : Json;
}.

Record ReplayPayload := mk_ReplayPayload {
  rp_schema_id : rstring;
  rp_schema_version : N;
  rp_title : rstring;
  rp_text : rstring;
  rp_payload : list N;
  rp_sidecar : option ReplaySidecar;
}.

Record ReplayTopology := mk_ReplayTopology {
  rt_motivated_by : list Uuid;
  rt_dependencies : list Uuid;
  rt_evidence : list Uuid;
}.

Record ReplayDraft := mk_ReplayDraft {
  rd_payload : ReplayPayload;
  rd_state : GoalState;
  rd_topology : ReplayTopology;
  rd_supersedes_goal_id : option Uuid;
  rd_authorship : rstring;
}.

(** [ReplayDeclaration]; every one has format version 1. *)
Inductive ReplayDeclaration :=
| DeclareCreate (draft : ReplayDraft)
| DeclareTransition (prior_goal_id : Uuid) (next_state : GoalState) (authorship : rstring)
    (pending : option PendingWork)
| DeclareAchieve (prior_goal_id : Uuid) (authorship : rstring) (evidence : option (list Uuid))
| DeclareModify (prior_goal_id : Uuid) (replacement : ReplayPayload) (authorship : rstring)
    (evidence : option (list Uuid))
| DeclareDecomposeChild (parent_goal_id : Uuid) (authorship : rstring) (topology : ReplayTopology) (child_index : N)
    (payload : ReplayPayload) (evidence : list Uuid).

Definition authorship_declaration (authorship : GoalAuthorship) : rstring :=
  match authorship with
  | AuthorUser => str "user"
  | AuthorSystem (Operator _ _ _ _ _) => str "system_operator"
  | AuthorSystem (Tool _) => str "system_tool"
  | AuthorExternal => str "external"
  end.

Definition evidence_declaration (evidence : list GoalEvidenceRef) : list Uuid :=
  (fun item => MemoryId_0 (ev_memory_id item)) <$> evidence.

Definition topology_declaration (topology : GoalTopologyWrite) : ReplayTopology :=
  mk_ReplayTopology (MemoryId_0 <$> top_motivated_by topology) (GoalId_0 <$> top_dependencies topology)
    (evidence_declaration (top_evidence topology)).

Definition sidecar_declaration (sidecar : option SidecarPayload) : result (option ReplaySidecar) StorageError :=
  match sidecar with
  | None => Ok None
  | Some sidecar =>
      let? payload := map_err StorageInternal (side_durable sidecar) in
      Ok (Some (mk_ReplaySidecar (side_kind sidecar) (SchemaId_0 (side_schema_id sidecar)) (side_schema_version sidecar)
                  payload))
  end.

Definition payload_declaration (payload : GoalPayloadWrite) : result ReplayPayload StorageError :=
  let? sidecar := sidecar_declaration (pw_sidecar_payload payload) in
  Ok (mk_ReplayPayload (SchemaId_0 (pw_schema_id payload)) (pw_schema_version payload) (pw_title payload)
        (pw_text payload) (pw_payload payload) sidecar).

Definition draft_declaration (draft : GoalDraft) : result ReplayDraft StorageError :=
  let? sidecar := sidecar_declaration (dr_sidecar_payload draft) in
  Ok (mk_ReplayDraft
        (mk_ReplayPayload (SchemaId_0 (dr_schema_id draft)) (dr_schema_version draft) (dr_title draft)
           (dr_text draft) (dr_payload draft) sidecar)
        (dr_state draft) (topology_declaration (dr_topology draft)) (GoalId_0 <$> dr_supersedes_goal_id draft)
        (authorship_declaration (dr_authorship draft))).

Definition create_replay_declaration (req : CreateGoalAtomicRequest) : result ReplayDeclaration StorageError :=
  let? draft := draft_declaration (create_draft req) in Ok (DeclareCreate draft).

Definition transition_replay_declaration (req : TransitionGoalAtomicRequest) : ReplayDeclaration :=
  let pending := match trans_transition req with Pause pending => Some pending | Resume | Abandon => None end in
  DeclareTransition (GoalId_0 (trans_prior_goal_id req)) (GoalTransitionKind.next_state (trans_transition req))
    (authorship_declaration (trans_authorship req)) pending.

Definition achieve_replay_declaration (req : AchieveGoalAtomicRequest) : ReplayDeclaration :=
  DeclareAchieve (GoalId_0 (ach_prior_goal_id req)) (authorship_declaration (ach_authorship req))
    (Some (evidence_declaration (ach_evidence req))).

Definition modify_replay_declaration (req : ModifyGoalAtomicRequest) : result ReplayDeclaration StorageError :=
  let? replacement := payload_declaration (mod_replacement req) in
  Ok (DeclareModify (GoalId_0 (mod_prior_goal_id req)) replacement (authorship_declaration (mod_authorship req))
        (evidence_declaration <$> mod_evidence req)).

Definition decompose_child_replay_declaration (req : DecomposeGoalAtomicRequest) (child : ChildGoalDraft)
    (child_index : N) : result ReplayDeclaration StorageError :=
  let? payload := payload_declaration (child_payload child) in
  Ok (DeclareDecomposeChild (GoalId_0 (dec_parent_goal_id req)) (authorship_declaration (dec_authorship req))
        (topology_declaration (dec_topology req)) child_index payload (evidence_declaration (child_evidence child))).

Fixpoint decompose_declarations_from (req : DecomposeGoalAtomicRequest) (index : N) (children : list ChildGoalDraft) :
    result (list ReplayDeclaration) StorageError :=
  match children with
  | [] => Ok []
  | child :: children =>
      let? declaration := decompose_child_replay_declaration req child index in
      let? rest := decompose_declarations_from req (index + 1) children in
      Ok (declaration :: rest)
  end.

Definition decompose_replay_declarations (req : DecomposeGoalAtomicRequest) :
    result (list ReplayDeclaration) StorageError := decompose_declarations_from req 0 (dec_children req).
