(* ===== verification/GoalStore.v ===== *)
(** * The goal tables and one goal write

    [goal], [goal_head] and [goal_replay_declaration] of
    [crates/storage-pg/migrations/] with their triggers, constraints and row
    policies, and the statements of [crates/storage-pg/src/verbs/goal_timeseries.rs]
    and [goal_write/] there, each on the tables its transaction sees.  Sketches
    and the motivation index are derived from the rows and left out; payload
    sidecars and the outbox are answers of [GoalEnv]; no schema evolution is in
    progress. *)

From S2P Require Import Prelude Ids GroupForest Text Json Publication Errors OwnerScope Authz Groups MemoryUuid.
From S2P Require Import Idempotency MemoryStore Admission GoalWrite.

(** [let?] under a panic, which is [None]. *)
Notation "'let!' x ':=' c 'in' k" :=
  (match c with Some (Ok x) => k | Some (Err e) => Some (Err e) | None => None end)
  (at level 10, x pattern, c at level 100, k at level 200) : rust_scope.

(** ** Tables *)

Record GoalRow := mk_GoalRow {
  goal_handle : Uuid;
  goal_owner : Uuid;
  goal_schema : SchemaId;
  goal_title : rstring;
  goal_text : option rstring;
  goal_state : GoalState;
  goal_request_id : rstring;
  goal_close_fact_t : option Uuid;
  goal_motivated_by : list Uuid;
  goal_dependency_t : list Uuid;
  goal_evidence_t : list Uuid;
  goal_write_act_t : option Uuid;
  goal_writer : WriterAttribution;
  goal_parent_handle : option Uuid;
}.

Record GoalHeadRow := mk_GoalHeadRow {
  ghead_schema : SchemaId;
  ghead_owner : Uuid;
  ghead_t : Uuid;
}.

Record GoalReplayRow := mk_GoalReplayRow {
  grep_goal_t : Uuid;
  grep_declaration : ReplayDeclaration;
  grep_edge_count : N;
}.

Record GoalDb := mk_GoalDb {
  gd_rows : gmap Uuid GoalRow;
  gd_heads : gmap Uuid GoalHeadRow;
  gd_declarations : gmap (Uuid * rstring) GoalReplayRow;
  gd_memory : MemoryDb;
}.

(** The memory tables see the versions and owners of goals. *)
Definition set_goal_rows (x : gmap Uuid GoalRow) (db : GoalDb) : GoalDb :=
  let m := gd_memory db in
  mk_GoalDb x (gd_heads db) (gd_declarations db)
    (mk_MemoryDb (mem_groups m) (mem_keys m) (mem_heads m) (mem_rows m) (goal_owner <$> x) (mem_erased m) (mem_closed m)).
Definition set_goal_heads (x : gmap Uuid GoalHeadRow) (db : GoalDb) : GoalDb :=
  mk_GoalDb (gd_rows db) x (gd_declarations db) (gd_memory db).
Definition set_goal_declarations (x : gmap (Uuid * rstring) GoalReplayRow) (db : GoalDb) : GoalDb :=
  mk_GoalDb (gd_rows db) (gd_heads db) x (gd_memory db).
Definition set_goal_memory (x : MemoryDb) (db : GoalDb) : GoalDb :=
  mk_GoalDb (gd_rows db) (gd_heads db) (gd_declarations db) x.

(** ** Sessions and row policies *)

Record GoalSession := mk_GoalSession {
  gs_memory : MemorySession;
  gs_read_goal : list Uuid;
  gs_write_goal : list Uuid;
}.

Definition goal_writes (s : GoalSession) (owner : Uuid) : bool :=
  app_platform (ms_pg (gs_memory s)) || slice_contains owner (gs_write_goal s).
Definition goal_reads (s : GoalSession) (owner : Uuid) : bool :=
  goal_writes s owner || slice_contains owner (gs_read_goal s).

(** ** Reads *)

Definition select_goal (s : GoalSession) (t : Uuid) (db : GoalDb) : option GoalRow :=
  let* row := gd_rows db !! t in if goal_reads s (goal_owner row) then Some row else None.

(** ... [AND owner_id = $2]. *)
Definition select_goal_owned (s : GoalSession) (t owner : Uuid) (db : GoalDb) : option GoalRow :=
  let* row := select_goal s t db in if (goal_owner row =? owner)%N then Some row else None.

Definition select_goal_head (s : GoalSession) (handle : Uuid) (db : GoalDb) : option GoalHeadRow :=
  let* head := gd_heads db !! handle in if goal_reads s (ghead_owner head) then Some head else None.
Definition select_goal_head_for_update (s : GoalSession) (handle : Uuid) (db : GoalDb) : option Uuid :=
  let* head := gd_heads db !! handle in if goal_writes s (ghead_owner head) then Some (ghead_t head) else None.

(** The version admitted under a request id; the unique key admits one. *)
Definition admitted_t (owner : Uuid) (request_id : rstring) (db : GoalDb) : option Uuid :=
  let* entry := find (fun entry : Uuid * GoalRow => (goal_owner entry.2 =? owner)%N
                        && bool_decide (goal_request_id entry.2 = request_id)) (map_to_list (gd_rows db)) in
  Some entry.1.

(** The goal of a request: of its declaration, or else of its row. *)
Definition select_request (s : GoalSession) (owner : Uuid) (request_id : rstring) (db : GoalDb) :
    option (Uuid * GoalRow * option GoalReplayRow) :=
  let declaration := gd_declarations db !! (owner, request_id) in
  let* t := match declaration with Some d => Some (grep_goal_t d) | None => admitted_t owner request_id db end in
  let* row := select_goal s t db in
  Some (t, row, declaration).

Record GoalRequestRow := mk_GoalRequestRow { grr_handle : Uuid; grr_t : Uuid; grr_write_act_t : option Uuid }.

Definition load_goal_by_request_id (s : GoalSession) (owner : OwnerId) (request_id : rstring) (db : GoalDb) :
    option GoalRequestRow :=
  let* (t, row, _) := select_request s (OwnerId_0 owner) request_id db in
  Some (mk_GoalRequestRow (goal_handle row) t (goal_write_act_t row)).

(** ** Replays *)

(** Whether Postgres finds the [jsonb] of two declarations equal. *)
Class Jsonb := jsonb_eq : ReplayDeclaration -> ReplayDeclaration -> bool.

Class JsonbLaws `{Jsonb} : Prop := jsonb_eq_refl declaration : jsonb_eq declaration declaration = true.

Definition replay_outcome_of (t handle : Uuid) (edge_count : option N) : result GoalWriteOutcome StorageError :=
  let? count := ok_or edge_count (StorageInternal (str "Goal replay declaration has invalid edge_count")) in
  Ok (mk_GoalWriteOutcome (mk_GoalId t) (mk_GoalHandle handle) count true).

Section goal_store.
Context `{PgText, Digest, UuidText, Jsonb}.

Definition resolve_goal_replay (s : GoalSession) (owner : OwnerId) (request_id : rstring)
    (declaration : ReplayDeclaration) (db : GoalDb) : result (option GoalWriteOutcome) StorageError :=
  match select_request s (OwnerId_0 owner) request_id db with
  | None => Ok None
  | Some (t, row, stored) =>
      let? key := map_err ConstraintViolation (IdempotencyKey.new request_id) in
      let matches := is_some_and stored (fun stored => jsonb_eq (grep_declaration stored) declaration) in
      match judge (Some (t, matches)) key with
      | Ok (Replay t) =>
          let? outcome := replay_outcome_of t (goal_handle row) (grep_edge_count <$> stored) in Ok (Some outcome)
      | Ok Fresh => Ok None
      | Err conflict => Err (StorageIdempotencyConflict (kc_key conflict) (Some (kc_existing conflict)))
      end
  end.

Definition require_goal_replay (s : GoalSession) (owner : OwnerId) (request_id : rstring)
    (declaration : ReplayDeclaration) (db : GoalDb) : result GoalWriteOutcome StorageError :=
  let? outcome := resolve_goal_replay s owner request_id declaration db in
  ok_or outcome (StorageInternal (str "Goal replay row disappeared after request-id match")).

(** The loop over the children: the first reused request id, and each child's
    stored outcome. *)
Fixpoint decompose_replays (s : GoalSession) (owner : OwnerId) (reused : option rstring)
    (children : list (ChildGoalDraft * ReplayDeclaration)) (db : GoalDb) :
    result (option rstring * list (option GoalWriteOutcome)) StorageError :=
  match children with
  | [] => Ok (reused, [])
  | (child, declaration) :: children =>
      let key := IdempotencyKey.as_str (child_request_id child) in
      match select_request s (OwnerId_0 owner) key db with
      | None => let? (reused, rest) := decompose_replays s owner reused children db in Ok (reused, None :: rest)
      | Some (t, row, stored) =>
          let matches := is_some_and stored (fun stored => jsonb_eq (grep_declaration stored) declaration) in
          match judge (Some (t, matches)) (child_request_id child) with
          | Ok (Replay t) =>
              let? outcome := replay_outcome_of t (goal_handle row) (grep_edge_count <$> stored) in
              let? (reused, rest) := decompose_replays s owner (Some (default key reused)) children db in
              Ok (reused, Some outcome :: rest)
          | Ok Fresh => let? (reused, rest) := decompose_replays s owner reused children db in Ok (reused, None :: rest)
          | Err conflict => Err (StorageIdempotencyConflict (kc_key conflict) (Some (kc_existing conflict)))
          end
      end
  end.

(** A set that is only partly present is neither fresh nor a replay. *)
Definition resolve_decompose_replay_set (s : GoalSession) (req : DecomposeGoalAtomicRequest)
    (declarations : list ReplayDeclaration) (db : GoalDb) : result (option DecomposeGoalOutcome) StorageError :=
  let? (reused, replayed) := decompose_replays s (dec_owner req) None (zip (dec_children req) declarations) db in
  match reused with
  | None => Ok None
  | Some reused =>
      match mapM (M := option) id replayed with
      | Some children => Ok (Some (mk_DecomposeGoalOutcome children true))
      | None => Err (StorageIdempotencyConflict reused None)
      end
  end.

(** [INSERT INTO goal_replay_declaration] for the goal just written. *)
Definition record_goal_replay_declaration (s : GoalSession) (declaration : ReplayDeclaration)
    (outcome : GoalWriteOutcome) (db : GoalDb) : result GoalDb StorageError :=
  let t := GoalId_0 (gw_goal_id outcome) in
  let? row := ok_or (select_goal s t db) (StorageInternal (str "no rows returned")) in
  let? _ := if (gw_edge_count outcome <? 2 ^ 31)%N then Ok tt
            else Err (StorageInternal (str "Goal replay edge_count exceeds PostgreSQL integer")) in
  let key := (goal_owner row, goal_request_id row) in
  let? _ := pg_ok (require (goal_writes s (goal_owner row)) (RowPolicy (str "goal_replay_declaration"))) in
  let? _ := pg_ok (require (negb (is_some (gd_declarations db !! key)))
                     (UniqueViolation (str "goal_replay_declaration"))) in
  Ok (set_goal_declarations (<[key := mk_GoalReplayRow t declaration (gw_edge_count outcome)]> (gd_declarations db)) db).

(** ** Evidence *)

Definition EVIDENCE_DOES_NOT_EXIST : rstring := str "evidence does not exist".

(** A live memory the session sees; goal transactions are not in the lifecycle scope. *)
Definition live_memory_kind (s : GoalSession) (t : Uuid) (db : GoalDb) : option MemoryKind :=
  let* row := select_memory (gs_memory s) false t (gd_memory db) in
  if live row then Some (row_kind row) else None.

Definition entity_kind_of (kind : MemoryKind) : EntityKind :=
  match kind with
  | FactMemory => EntityFact
  | AbstractionMemory => EntityAbstraction
  | PerspectiveMemory => EntityPerspective
  end.

Definition evidence_target (s : GoalSession) (item : GoalEvidenceRef) (db : GoalDb) : result MemoryId StorageError :=
  let? kind := match ev_remote item with
               | Some origin => Ok (origin_kind origin)
               | None =>
                   let? stored := ok_or (live_memory_kind s (MemoryId_0 (ev_memory_id item)) db)
                                    (ConstraintViolation EVIDENCE_DOES_NOT_EXIST) in
                   Ok (entity_kind_of stored)
               end in
  match kind with
  | EntityFact | EntityAbstraction => Ok (ev_memory_id item)
  | EntityPerspective | EntityGoalKind => Err (ConstraintViolation (str "evidence must be Fact or Abstraction"))
  end.

Fixpoint validate_evidence_from (s : GoalSession) (seen : list MemoryId) (evidence : list GoalEvidenceRef) (db : GoalDb) :
    result (list MemoryId) StorageError :=
  match evidence with
  | [] => Ok []
  | item :: evidence =>
      if slice_contains (ev_memory_id item) seen then Err (ConstraintViolation (str "duplicate goal evidence"))
      else
        let? target := evidence_target s item db in
        let? rest := validate_evidence_from s (ev_memory_id item :: seen) evidence db in
        Ok (target :: rest)
  end.

Definition validate_evidence_in_owner (s : GoalSession) (evidence : list GoalEvidenceRef) (db : GoalDb) :
    result (list MemoryId) StorageError := validate_evidence_from s [] evidence db.

Fixpoint carried_targets (s : GoalSession) (store_number : N) (ids : list Uuid) (db : GoalDb) :
    result (list MemoryId) StorageError :=
  match ids with
  | [] => Ok []
  | id :: ids =>
      let? target := if (memory_store_number id =? store_number)%N
                     then evidence_target s (GoalEvidenceRef.new (mk_MemoryId id)) db
                     else Ok (mk_MemoryId id) in
      let? rest := carried_targets s store_number ids db in
      Ok (target :: rest)
  end.

Definition carried_evidence (s : GoalSession) (owner : OwnerId) (goal_id : GoalId) (store_number : N) (db : GoalDb) :
    result (list MemoryId) StorageError :=
  let ids := goal_evidence_t <$> select_goal_owned s (GoalId_0 goal_id) (OwnerId_0 owner) db in
  carried_targets s store_number (default [] ids) db.

(** ** The prior version, the parent, the children *)

Definition load_prior_goal (s : GoalSession) (owner : OwnerId) (goal_id : GoalId) (context : GoalAtomicContext)
    (db : GoalDb) : result StoredGoal StorageError :=
  let? row := ok_or (select_goal_owned s (GoalId_0 goal_id) (OwnerId_0 owner) db) StorageNotFound in
  let? head := ok_or (select_goal_head s (goal_handle row) db) StorageNotFound in
  let schema_id := ghead_schema head in
  match filter (fun schema => schema.1 = schema_id) (ctx_goal_schemas context) with
  | [] => Err (ConstraintViolation (str "stored Goal schema " ++ SchemaId_0 schema_id ++ str " is not registered"))
  | [(_, version)] =>
      Ok (mk_StoredGoal schema_id version (goal_title row) (goal_text row) (goal_state row)
            (mk_MemoryId <$> goal_motivated_by row) (mk_GoalId <$> goal_dependency_t row))
  | _ :: _ :: _ =>
      Err (ConstraintViolation (str "stored Goal schema " ++ SchemaId_0 schema_id
                                ++ str " is registered more than once"))
  end.

Definition validate_active_head (s : GoalSession) (owner : OwnerId) (goal_id : GoalId) (db : GoalDb) :
    result unit StorageError :=
  match select_goal_owned s (GoalId_0 goal_id) (OwnerId_0 owner) db with
  | None => Err StorageNotFound
  | Some row =>
      if negb (bool_decide (goal_state row = Active))
      then Err (ConstraintViolation (str "parent_goal must be Active"))
      else if is_some_and (select_goal_head s (goal_handle row) db)
                (fun head => (ghead_t head =? GoalId_0 goal_id)%N) then Ok tt
      else Err (Conflict (str "parent_goal is not current head"))
  end.

(** The heads of the series decomposed under [parent], in the order of handles. *)
Definition goal_children (s : GoalSession) (owner parent : Uuid) (db : GoalDb) : list (Uuid * GoalState) :=
  omap (fun entry : Uuid * GoalHeadRow =>
    let* head := select_goal_head s entry.1 db in
    let* row := select_goal_owned s (ghead_t head) owner db in
    if (goal_handle row =? entry.1)%N && bool_decide (goal_parent_handle row = Some parent)
    then Some (ghead_t head, goal_state row) else None)
  (sort_by (fun a b => (a.1 <=? b.1)%N) (map_to_list (gd_heads db))).

Definition ensure_goal_children_closed (s : GoalSession) (owner : OwnerId) (parent : Uuid) (rule : ChildRule)
    (db : GoalDb) : result unit StorageError := children_rule rule (goal_children s (OwnerId_0 owner) parent db).

(** ** Statements with their triggers *)

(** [INSERT INTO goal_head]. *)
Definition insert_goal_head (s : GoalSession) (handle : Uuid) (head : GoalHeadRow) (db : GoalDb) :
    result GoalDb PgFault :=
  let? _ := require (goal_writes s (ghead_owner head)) (RowPolicy (str "goal_head")) in
  let? _ := require (negb (is_some (gd_heads db !! handle))) (IdentityViolation (str "goal_head_pkey")) in
  let? _ := require (is_some (db_owners (mem_groups (gd_memory db)) !! ghead_owner head))
              (ForeignKeyViolation (str "goal_head_owner_id_fkey")) in
  Ok (set_goal_heads (<[handle := head]> (gd_heads db)) db).

(** ... [ON CONFLICT (handle) DO UPDATE SET t = EXCLUDED.t WHERE ...]; whether it
    returned a row.  Only [t] changes, so [goal_head_t_only] passes. *)
Definition upsert_goal_head (s : GoalSession) (handle : Uuid) (head : GoalHeadRow) (expected : option Uuid)
    (db : GoalDb) : result (GoalDb * bool) PgFault :=
  match gd_heads db !! handle with
  | None => let? db := insert_goal_head s handle head db in Ok (db, true)
  | Some held =>
      let? _ := require (goal_writes s (ghead_owner head)) (RowPolicy (str "goal_head")) in
      let? _ := require (goal_writes s (ghead_owner held)) (RowPolicy (str "goal_head")) in
      if bool_decide (ghead_schema held = ghead_schema head) && (ghead_owner held =? ghead_owner head)%N
         && bool_decide (expected = Some (ghead_t held))
      then Ok (set_goal_heads (<[handle := mk_GoalHeadRow (ghead_schema held) (ghead_owner held) (ghead_t head)]>
                                 (gd_heads db)) db, true)
      else Ok (db, false)
  end.

(** The versions of a series the session sees. *)
Definition series_rows (s : GoalSession) (handle : Uuid) (db : GoalDb) : list (Uuid * GoalRow) :=
  filter (fun entry : Uuid * GoalRow => goal_handle entry.2 = handle /\ goal_reads s (goal_owner entry.2) = true)
    (map_to_list (gd_rows db)).

(** [goal_no_later_after_terminal]. *)
Definition goal_no_later_after_terminal (s : GoalSession) (t : Uuid) (row : GoalRow) (db : GoalDb) :
    result unit PgFault :=
  require (negb (existsb (fun entry => negb (is_open (goal_state entry.2)) && negb (entry.1 =? t)%N)
                   (series_rows s (goal_handle row) db)))
    (CheckViolation (str "terminal goal admits no later t")).

(** [goal_parent_fixed]. *)
Definition goal_parent_fixed (s : GoalSession) (row : GoalRow) (db : GoalDb) : result unit PgFault :=
  require (forallb (fun entry => bool_decide (goal_parent_handle entry.2 = goal_parent_handle row))
             (series_rows s (goal_handle row) db))
    (CheckViolation (str "goal series parent is fixed")).

(** [goal_pin_target_checks], which sees every row. *)
Definition goal_pin_target_checks (t : Uuid) (row : GoalRow) (db : GoalDb) : result unit PgFault :=
  let m := gd_memory db in
  let pins := to_list (goal_close_fact_t row) ++ to_list (goal_write_act_t row) ++ goal_dependency_t row
              ++ goal_evidence_t row ++ goal_motivated_by row in
  let? _ := require (forallb (fun pin => negb (is_some (mem_erased m !! pin))) pins)
              (ForeignKeyViolation (str "goal declaration names erased target")) in
  let? _ := require (negb (is_some (mem_erased m !! t)) && negb (is_some (mem_rows m !! t)))
              (UniqueViolation (str "goal t collides with an existing entity")) in
  let? _ := require (forallb (pinned_kind m (fun kind => bool_decide (kind = PerspectiveMemory))) (goal_motivated_by row))
              (CheckViolation (str "goal motivation targets must be Perspective versions")) in
  require (forallb (fun pin => is_some_and (mem_rows m !! pin) (fun p => (row_owner p =? goal_owner row)%N))
             (goal_motivated_by row))
    (CheckViolation (str "goal motivation target owner differs from Goal owner")).

(** [btrim] of a set of characters leaves something. *)
Definition nonblank (blanks : list char) (s : rstring) : bool := existsb (fun c => negb (slice_contains c blanks)) s.

(** The CHECK constraints of [goal]. *)
Definition goal_checks (row : GoalRow) : bool :=
  negb (bool_decide (goal_parent_handle row = Some (goal_handle row)))
  && Bool.eqb (negb (is_open (goal_state row))) (is_some (goal_close_fact_t row))
  && match goal_text row with Some text => nonblank [32; 9; 10; 13; 11; 12]%N text | None => true end
  && nonblank [32]%N (goal_title row).

(** [INSERT INTO goal]; [goal_stamp_schema] gives the row its head's schema. *)
Definition insert_goal (s : GoalSession) (t : Uuid) (draft : SchemaId -> GoalRow) (db : GoalDb) :
    result GoalDb PgFault :=
  let row := draft (mk_SchemaId []) in
  let? _ := goal_no_later_after_terminal s t row db in
  let? _ := goal_parent_fixed s row db in
  let? _ := goal_pin_target_checks t row db in
  let stamped := let* head := select_goal_head s (goal_handle row) db in
                 if (ghead_owner head =? goal_owner row)%N then Some (ghead_schema head) else None in
  let? schema := ok_or stamped (NotNullViolation (str "goal.schema_id")) in
  let row := draft schema in
  let? _ := require (goal_writes s (goal_owner row)) (RowPolicy (str "goal")) in
  let? _ := require (goal_checks row) (CheckViolation (str "goal")) in
  let? _ := require (negb (is_some (gd_rows db !! t))) (IdentityViolation (str "goal_t_key")) in
  let? _ := require (negb (is_some (admitted_t (goal_owner row) (goal_request_id row) db)))
              (UniqueViolation (str "goal_owner_id_request_id_key")) in
  let? _ := require (is_some_and (gd_heads db !! goal_handle row)
                       (fun head => (ghead_owner head =? goal_owner row)%N))
              (ForeignKeyViolation (str "goal_owner_matches_head_fk")) in
  Ok (set_goal_rows (<[t := row]> (gd_rows db)) db).

(** ** Preparation *)

Record ReservedFactIdentity := mk_ReservedFactIdentity { rf_handle : Uuid; rf_t : Uuid }.

Record GoalWriteCommand := mk_GoalWriteCommand {
  gc_handle : option Uuid;
  gc_schema_id : SchemaId;
  gc_title : rstring;
  gc_text : option rstring;
  gc_state : GoalState;
  gc_request_id : rstring;
  gc_close_fact_t : option Uuid;
  gc_motivated_by : list Uuid;
  gc_dependency_t : list Uuid;
  gc_evidence_t : list Uuid;
  gc_mint_write_act : bool;
  gc_write_act_t : option Uuid;
  gc_parent_handle : option Uuid;
}.

Definition set_gc_close_fact_t (x : option Uuid) (c : GoalWriteCommand) : GoalWriteCommand :=
  mk_GoalWriteCommand (gc_handle c) (gc_schema_id c) (gc_title c) (gc_text c) (gc_state c) (gc_request_id c) x
    (gc_motivated_by c) (gc_dependency_t c) (gc_evidence_t c) (gc_mint_write_act c) (gc_write_act_t c)
    (gc_parent_handle c).
Definition set_gc_write_act (x : option Uuid) (c : GoalWriteCommand) : GoalWriteCommand :=
  mk_GoalWriteCommand (gc_handle c) (gc_schema_id c) (gc_title c) (gc_text c) (gc_state c) (gc_request_id c)
    (gc_close_fact_t c) (gc_motivated_by c) (gc_dependency_t c) (gc_evidence_t c) false x (gc_parent_handle c).

Record PreparedGoalWrite := mk_PreparedGoalWrite {
  pg_fresh_handle : bool;
  pg_owner : OwnerId;
  pg_writer : WriterAttribution;
  pg_handle : Uuid;
  pg_t : Uuid;
  pg_expected_prior_t : option Uuid;
  pg_expected_head_t : option Uuid;
  pg_command : GoalWriteCommand;
  pg_targets : list Uuid;
  pg_store_number : N;
  pg_write_act_identity : option ReservedFactIdentity;
  pg_close_fact_identity : option ReservedFactIdentity;
  pg_change_fact_identity : option ReservedFactIdentity;
}.

(** What the transaction draws and what lies outside these tables: the clock and
    randomness of its mints, the memory admissions of its lifecycle Facts, the
    payload's sidecar table, the change Fact's sidecar and outbox row, and the
    fence of an edit under a Goal's own permit ([authority.rs]). *)
Record GoalChangeV1 := mk_GoalChangeV1 {
  chg_series : Uuid;
  chg_goal : GoalId;
  chg_prior : option GoalId;
  chg_revision : N;
  chg_state : GoalState;
  chg_change : GoalChange;
}.

Record GoalEnv := mk_GoalEnv {
  ge_draw : nat -> SystemTime * list N;
  ge_admission : AdmissionEnv;
  ge_sidecar : GoalDraft -> GoalId -> option GoalId -> result unit StorageError;
  ge_change_tables : list rstring;
  ge_capture : GoalChangeV1 -> result unit StorageError;
  ge_fence : result unit StorageError;
}.

Definition draw_goal_uuid (env : GoalEnv) (i : nat) (store_number : N) (g : Generator) : option (Uuid * Generator) :=
  let '(now, random) := ge_draw env i in new_memory_uuid g now random store_number.

Definition reserve_fact_identity (env : GoalEnv) (i : nat) (store_number : N) (g : Generator) :
    option (ReservedFactIdentity * Generator) :=
  let* (t, g) := draw_goal_uuid env i store_number g in
  let* (handle, g) := draw_goal_uuid env (S i) store_number g in
  Some (mk_ReservedFactIdentity handle t, g).

(** [Option::max]. *)
Definition opt_uuid_max (a b : option Uuid) : option Uuid :=
  match a, b with
  | Some a, Some b => Some (N.max a b)
  | None, b => b
  | a, None => a
  end.

Definition goal_t (env : GoalEnv) (i : nat) (store_number : N) (floor : option Uuid) (g : Generator) :
    option (result Uuid StorageError * Generator) :=
  match floor with
  | Some floor =>
      let '(now, random) := ge_draw env i in
      let* (t, g) := new_memory_uuid_after g now random store_number floor in
      Some (ok_or t (ConstraintViolation (str "memory UUID timestamp range exhausted")), g)
  | None => let* (t, g) := draw_goal_uuid env i store_number g in Some (Ok t, g)
  end.

(** After the replay lookup and the owner's row. *)
Definition prepare_goal_write (env : GoalEnv) (s : GoalSession) (owner : OwnerId) (writer : WriterAttribution)
    (draft : GoalWriteCommand) (expected_prior_t : option Uuid) (store_number : N) (g : Generator) (db : GoalDb) :
    option (result PreparedGoalWrite StorageError * Generator) :=
  let* (write_act_identity, g) :=
    if gc_mint_write_act draft
    then let* (identity, g) := reserve_fact_identity env 0 store_number g in Some (Some identity, g)
    else Some (None, g) in
  let write_act_t := match write_act_identity with Some identity => Some (rf_t identity) | None => gc_write_act_t draft end in
  let* (handle, g) := match gc_handle draft with
                      | Some handle => Some (handle, g)
                      | None => draw_goal_uuid env 2 store_number g
                      end in
  let command := set_gc_write_act write_act_t draft in
  let expected_head_t := ghead_t <$> select_goal_head s handle db in
  let* (t, g) := goal_t env 3 store_number (opt_uuid_max expected_head_t expected_prior_t) g in
  match t with
  | Err e => Some (Err e, g)
  | Ok t =>
      let targets := [t] ++ to_list expected_prior_t ++ to_list expected_head_t ++ gc_motivated_by command
                     ++ gc_dependency_t command ++ gc_evidence_t command ++ to_list (gc_close_fact_t command)
                     ++ to_list (gc_write_act_t command) in
      Some (Ok (mk_PreparedGoalWrite (negb (is_some (gc_handle draft))) owner writer handle t expected_prior_t
                  expected_head_t command targets store_number write_act_identity None None), g)
  end.

Definition attach_goal_close_fact_reservation (p : PreparedGoalWrite) (close_fact : option ReservedFactIdentity) :
    PreparedGoalWrite :=
  match close_fact with
  | Some close_fact =>
      mk_PreparedGoalWrite (pg_fresh_handle p) (pg_owner p) (pg_writer p) (pg_handle p) (pg_t p) (pg_expected_prior_t p)
        (pg_expected_head_t p) (set_gc_close_fact_t (Some (rf_t close_fact)) (pg_command p))
        (pg_targets p ++ [rf_t close_fact]) (pg_store_number p) (pg_write_act_identity p) (Some close_fact)
        (pg_change_fact_identity p)
  | None => p
  end.

Definition attach_goal_change_fact_reservation (p : PreparedGoalWrite) (change_fact : option ReservedFactIdentity) :
    PreparedGoalWrite :=
  match change_fact with
  | Some change_fact =>
      mk_PreparedGoalWrite (pg_fresh_handle p) (pg_owner p) (pg_writer p) (pg_handle p) (pg_t p) (pg_expected_prior_t p)
        (pg_expected_head_t p) (pg_command p) (pg_targets p ++ [rf_t change_fact]) (pg_store_number p)
        (pg_write_act_identity p) (pg_close_fact_identity p) (Some change_fact)
  | None => p
  end.

Inductive PostLockGuard := GuardNone | GuardChildrenClosed | GuardNoOpenChildren.

(** The arguments of [insert_or_replay_goal], and of the [LifecycleWrite] after
    it the number of references. *)
Record GoalInsert := mk_GoalInsert {
  in_draft : GoalDraft;
  in_expected_prior : option GoalId;
  in_change : GoalChange;
  in_context : GoalAtomicContext;
  in_store_number : N;
  in_writer : WriterAttribution;
  in_text : option rstring;
  in_write_act_t : option Uuid;
  in_guard : PostLockGuard;
  in_edge_count : N;
}.

Definition validate_goal_schema (context : GoalAtomicContext) (draft : GoalDraft) : result unit StorageError :=
  if slice_contains (dr_schema_id draft, dr_schema_version draft) (ctx_goal_schemas context) then Ok tt
  else Err (ConstraintViolation (str "unregistered GoalPayload schema " ++ SchemaId_0 (dr_schema_id draft) ++ str " v"
                                 ++ display_u64 (dr_schema_version draft))).

(** The series and its parent: a successor's are its prior's, a child names its
    parent's series. *)
Definition resolve_series_edge (s : GoalSession) (owner : OwnerId) (expected_prior : option GoalId) (change : GoalChange)
    (db : GoalDb) : result (option Uuid * option Uuid) StorageError :=
  match expected_prior, change with
  | Some prior, _ =>
      let? row := ok_or (select_goal_owned s (GoalId_0 prior) (OwnerId_0 owner) db) StorageNotFound in
      Ok (Some (goal_handle row), goal_parent_handle row)
  | None, ChangeDecomposeChild parent =>
      let? row := ok_or (select_goal_owned s (GoalId_0 parent) (OwnerId_0 owner) db) StorageNotFound in
      Ok (None, Some (goal_handle row))
  | None, _ => Ok (None, None)
  end.

(** Whether the write also writes a change Fact. *)
Definition goal_change_stamp (context : GoalAtomicContext) : result bool StorageError :=
  match ctx_change_listenable context, ctx_publication context with
  | false, _ => Ok false
  | true, true => Ok true
  | true, false =>
      Err (ConstraintViolation (str "core/goal-change-v1 is listenable but the goal context carries no publication stamp"))
  end.

Definition goal_command (insert : GoalInsert) (handle parent_handle : option Uuid) : GoalWriteCommand :=
  let draft := in_draft insert in
  mk_GoalWriteCommand handle (dr_schema_id draft) (dr_title draft) (in_text insert) (dr_state draft)
    (dr_request_id draft) None (MemoryId_0 <$> top_motivated_by (dr_topology draft))
    (GoalId_0 <$> top_dependencies (dr_topology draft)) (evidence_declaration (top_evidence (dr_topology draft)))
    false (in_write_act_t insert) parent_handle.

(** [prepare_goal_insert] after the request's lock and its replay lookup. *)
Definition prepare_goal_insert (env : GoalEnv) (s : GoalSession) (insert : GoalInsert) (g : Generator) (db : GoalDb) :
    option (result PreparedGoalWrite StorageError * Generator) :=
  let draft := in_draft insert in
  let owner := dr_owner draft in
  match (let? _ := ensure_owner_row (ms_pg (gs_memory s)) owner (mem_groups (gd_memory db)) in
         let? _ := validate_goal_schema (in_context insert) draft in
         resolve_series_edge s owner (in_expected_prior insert) (in_change insert) db) with
  | Err e => Some (Err e, g)
  | Ok (handle, parent_handle) =>
      let command := goal_command insert handle parent_handle in
      let* (prepared, g) := prepare_goal_write env s owner (in_writer insert) command
                              (GoalId_0 <$> in_expected_prior insert) (in_store_number insert) g db in
      match prepared with
      | Err e => Some (Err e, g)
      | Ok prepared =>
          let* (close_fact, g) :=
            if is_open (dr_state draft) then Some (None, g)
            else let* (identity, g) := reserve_fact_identity env 4 (in_store_number insert) g in Some (Some identity, g) in
          let prepared := attach_goal_close_fact_reservation prepared close_fact in
          match goal_change_stamp (in_context insert) with
          | Err e => Some (Err e, g)
          | Ok false => Some (Ok prepared, g)
          | Ok true =>
              let* (change_fact, g) := reserve_fact_identity env 6 (in_store_number insert) g in
              Some (Ok (attach_goal_change_fact_reservation prepared (Some change_fact)), g)
          end
      end
  end.

(** ** Under the locks *)

Definition PRIOR_NOT_CURRENT : rstring := str "goal successor prior is no longer current".

(** The head, read [FOR UPDATE]. *)
Definition lock_and_validate_prepared_goal_write (s : GoalSession) (p : PreparedGoalWrite) (db : GoalDb) :
    result unit StorageError :=
  let current_head := select_goal_head_for_update s (pg_handle p) db in
  if is_some (pg_expected_prior_t p) && negb (bool_decide (current_head = pg_expected_prior_t p))
  then Err (Conflict PRIOR_NOT_CURRENT)
  else if negb (bool_decide (current_head = pg_expected_head_t p))
  then Err (Retryable (str "goal series head changed while preparing successor"))
  else Ok tt.

Definition memory_kind_label (kind : MemoryKind) : rstring :=
  match kind with
  | FactMemory => str "fact"
  | AbstractionMemory => str "abstraction"
  | PerspectiveMemory => str "perspective"
  end.

Definition ensure_live_memory_kind (s : GoalSession) (t : Uuid) (label : rstring) (allowed : list MemoryKind)
    (db : GoalDb) : result unit StorageError :=
  let? kind := ok_or (live_memory_kind s t db) (ConstraintViolation (label ++ str " does not exist")) in
  if slice_contains kind allowed then Ok tt
  else Err (ConstraintViolation (label ++ str " must be " ++ join (str " or ") (memory_kind_label <$> allowed))).

Fixpoint for_each {A E} (check : A -> result unit E) (l : list A) : result unit E :=
  match l with
  | [] => Ok tt
  | x :: l => let? _ := check x in for_each check l
  end.

Definition validate_goal_targets_live (s : GoalSession) (draft : GoalWriteCommand) (reserved : list Uuid)
    (store_number : N) (db : GoalDb) : result unit StorageError :=
  let? _ := for_each (fun motivation =>
      ensure_live_memory_kind s motivation (str "goal motivation perspective") [PerspectiveMemory] db)
    (gc_motivated_by draft) in
  let? _ := for_each (fun dependency =>
      if is_some (select_goal s dependency db) then Ok tt
      else Err (ConstraintViolation (str "goal dependency does not exist")))
    (gc_dependency_t draft) in
  let? _ := for_each (fun evidence =>
      ensure_live_memory_kind s evidence (str "goal evidence") [FactMemory; AbstractionMemory] db)
    (filter (fun evidence => memory_store_number evidence = store_number) (gc_evidence_t draft)) in
  for_each (fun target =>
      if slice_contains target reserved then Ok tt
      else ensure_live_memory_kind s target (str "goal lifecycle Fact") [FactMemory] db)
    (to_list (gc_close_fact_t draft) ++ to_list (gc_write_act_t draft)).

Definition WRITE_ACT_SCHEMA : SchemaId := mk_SchemaId (str "core/write-act-v1").
Definition GOAL_CHANGE_SCHEMA : SchemaId := mk_SchemaId (str "core/goal-change-v1").

(** A Fact without pins, at an identity reserved before the locks. *)
Definition ingest_unpinned_fact_at (env : GoalEnv) (s : GoalSession) (owner : OwnerId) (writer : WriterAttribution)
    (schema_id : SchemaId) (identity : ReservedFactIdentity) (sidecar_tables : list rstring) (m : MemoryDb) :
    option (result MemoryDb StorageError) :=
  let draft := mk_FactWriteCommand schema_id (Some (rf_handle identity)) None None [] None None None None FactMemory None in
  let admission := mk_MemoryAdmissionDraft (memory_store_number (rf_t identity)) None owner writer draft [] []
                     sidecar_tables [] in
  let options := mk_PreparationOptions (Some (rf_handle identity, rf_t identity)) [] [] None in
  let* (prepared, _) := prepare_memory_admission_at (ge_admission env) (gs_memory s) admission options Generator.empty m in
  Some (let? prepared := prepared in
        let? (m, prepared) := claim_prepared_memory_admission (gs_memory s) prepared m in
        let? (m, _) := materialize_prepared_memory_admission (ge_admission env) (gs_memory s) prepared None None m in
        Ok m).

Definition ingest_write_act_at (env : GoalEnv) (s : GoalSession) (p : PreparedGoalWrite)
    (identity : option ReservedFactIdentity) (m : MemoryDb) : option (result MemoryDb StorageError) :=
  match identity with
  | Some identity => ingest_unpinned_fact_at env s (pg_owner p) (pg_writer p) WRITE_ACT_SCHEMA identity [] m
  | None => Some (Ok m)
  end.

Definition persist_goal_lifecycle_rows (env : GoalEnv) (s : GoalSession) (p : PreparedGoalWrite) (db : GoalDb) :
    option (result GoalDb StorageError) :=
  let! m := ingest_write_act_at env s p (pg_write_act_identity p) (gd_memory db) in
  let! m := ingest_write_act_at env s p (pg_close_fact_identity p) m in
  Some (Ok (set_goal_memory m db)).

(** The error a refused compare-and-set implies. *)
Definition goal_head_conflict (p : PreparedGoalWrite) (current : option GoalHeadRow) : StorageError :=
  match current with
  | Some head =>
      if negb (bool_decide (ghead_schema head = gc_schema_id (pg_command p)))
         || negb (ghead_owner head =? OwnerId_0 (pg_owner p))%N
      then ConstraintViolation (str "goal_head schema/owner mismatch")
      else if is_some_and (pg_expected_prior_t p) (fun prior => negb (ghead_t head =? prior)%N)
      then Conflict PRIOR_NOT_CURRENT
      else Retryable (str "goal series head changed while persisting Goal")
  | None =>
      if is_some (pg_expected_prior_t p) then Conflict PRIOR_NOT_CURRENT
      else Retryable (str "goal series head disappeared while persisting Goal")
  end.

Definition advance_goal_head (s : GoalSession) (p : PreparedGoalWrite) (db : GoalDb) : result GoalDb StorageError :=
  let head := mk_GoalHeadRow (gc_schema_id (pg_command p)) (OwnerId_0 (pg_owner p)) (pg_t p) in
  if pg_fresh_handle p then pg_ok (insert_goal_head s (pg_handle p) head db)
  else
    let? (db, returned) := pg_ok (upsert_goal_head s (pg_handle p) head (pg_expected_head_t p) db) in
    if returned : bool then Ok db else Err (goal_head_conflict p (select_goal_head s (pg_handle p) db)).

Definition goal_revision (p : PreparedGoalWrite) (schema_id : SchemaId) : GoalRow :=
  let c := pg_command p in
  mk_GoalRow (pg_handle p) (OwnerId_0 (pg_owner p)) schema_id (gc_title c) (gc_text c) (gc_state c) (gc_request_id c)
    (gc_close_fact_t c) (gc_motivated_by c) (gc_dependency_t c) (gc_evidence_t c) (gc_write_act_t c) (pg_writer p)
    (gc_parent_handle c).

Definition insert_goal_revision (s : GoalSession) (p : PreparedGoalWrite) (db : GoalDb) : result GoalDb StorageError :=
  pg_ok (insert_goal s (pg_t p) (goal_revision p) db).

Definition reserved_lifecycle (p : PreparedGoalWrite) : list Uuid :=
  (rf_t <$> to_list (pg_write_act_identity p)) ++ (rf_t <$> to_list (pg_close_fact_identity p)).

Definition persist_prepared_goal_write (env : GoalEnv) (s : GoalSession) (p : PreparedGoalWrite) (db : GoalDb) :
    option (result GoalDb StorageError) :=
  let! _ := Some (lock_and_validate_prepared_goal_write s p db) in
  let! _ := Some (validate_goal_targets_live s (pg_command p) (reserved_lifecycle p) (pg_store_number p) db) in
  let! db := persist_goal_lifecycle_rows env s p db in
  let! db := Some (advance_goal_head s p db) in
  Some (insert_goal_revision s p db).

(** The change Fact of a write: the goal row is in and its series locked, so the
    count of versions is its position. *)
Definition persist_goal_change_fact (env : GoalEnv) (s : GoalSession) (p : PreparedGoalWrite) (change : GoalChange)
    (db : GoalDb) : option (result GoalDb StorageError) :=
  match pg_change_fact_identity p with
  | None => Some (Ok db)
  | Some identity =>
      let revision := N.of_nat (length (series_rows s (pg_handle p) db)) in
      let! _ := Some (if (revision <? 2 ^ 32)%N then Ok tt else Err (StorageInternal (str "goal revision"))) in
      let! _ := Some (if (revision =? 0)%N
                      then Err (StorageInternal (str "goal revision: the series has no version")) else Ok tt) in
      let payload := mk_GoalChangeV1 (pg_handle p) (mk_GoalId (pg_t p)) (mk_GoalId <$> pg_expected_prior_t p) revision
                       (gc_state (pg_command p)) change in
      let! m := ingest_unpinned_fact_at env s (pg_owner p) (pg_writer p) GOAL_CHANGE_SCHEMA identity (ge_change_tables env)
                  (gd_memory db) in
      let! _ := Some (ge_capture env payload) in
      Some (Ok (set_goal_memory m db))
  end.

(** [persist_prepared_goal_insert] of a new write, the outcome and the
    declaration recorded with it; the owner's row is the one [prepare] ensured. *)
Definition persist_goal (env : GoalEnv) (s : GoalSession) (insert : GoalInsert) (p : PreparedGoalWrite)
    (declaration : ReplayDeclaration) (db : GoalDb) : option (result (GoalDb * GoalWriteOutcome) StorageError) :=
  let! (groups, _) := Some (ensure_owner_row (ms_pg (gs_memory s)) (pg_owner p) (mem_groups (gd_memory db))) in
  let! db := persist_prepared_goal_write env s p (set_goal_memory (set_groups groups (gd_memory db)) db) in
  let! _ := Some (ge_sidecar env (in_draft insert) (mk_GoalId (pg_t p)) (in_expected_prior insert)) in
  let! db := persist_goal_change_fact env s p (in_change insert) db in
  let outcome := mk_GoalWriteOutcome (mk_GoalId (pg_t p)) (mk_GoalHandle (pg_handle p)) (in_edge_count insert) false in
  let! db := Some (record_goal_replay_declaration s declaration outcome db) in
  Some (Ok (db, outcome)).

End goal_store.
