(* ===== verification/GoalSteps.v ===== *)
(** * Goal writes, interleaved

    The commands of [crates/storage-pg/src/verbs/goal_write/commands.rs] and
    [insert_or_replay_goal] of [insert.rs] there, as transactions that run in
    steps against tables other transactions change.  A transaction reads what is
    committed, and its own writes become visible at its commit; so all its
    writes are one step.  A lock is held to the end of the transaction.  Where the
    code takes locks and then reads, the locks are taken in the step of the read:
    taking them later admits every schedule that taking them earlier does.
    Deadlock, cancellation and a lost connection drop a transaction. *)

From S2P Require Import Prelude Ids Bytes GroupForest Text Json Publication Errors OwnerScope Authz Groups MemoryUuid.
From S2P Require Import Idempotency MemoryStore Admission GoalWrite GoalStore.

(** ** Commands on one goal *)

Inductive GoalCommand :=
| CreateGoal (req : CreateGoalAtomicRequest)
| TransitionGoal (req : TransitionGoalAtomicRequest)
| AchieveGoal (req : AchieveGoalAtomicRequest)
| ModifyGoal (req : ModifyGoalAtomicRequest).

Module GoalCommand.

Definition owner (self : GoalCommand) : OwnerId :=
  match self with
  | CreateGoal req => dr_owner (create_draft req)
  | TransitionGoal req => trans_owner req
  | AchieveGoal req => ach_owner req
  | ModifyGoal req => mod_owner req
  end.

Definition request_id (self : GoalCommand) : rstring :=
  match self with
  | CreateGoal req => dr_request_id (create_draft req)
  | TransitionGoal req => IdempotencyKey.as_str (trans_request_id req)
  | AchieveGoal req => IdempotencyKey.as_str (ach_request_id req)
  | ModifyGoal req => IdempotencyKey.as_str (mod_request_id req)
  end.

Definition declaration (self : GoalCommand) : result ReplayDeclaration StorageError :=
  match self with
  | CreateGoal req => create_replay_declaration req
  | TransitionGoal req => Ok (transition_replay_declaration req)
  | AchieveGoal req => Ok (achieve_replay_declaration req)
  | ModifyGoal req => modify_replay_declaration req
  end.

(** What is refused before the database is asked; [goal_permit]: the caller
    edits under a permit of this goal alone. *)
Definition screen (self : GoalCommand) (goal_permit : bool) : result unit StorageError :=
  match self with
  | CreateGoal _ | AchieveGoal _ => Ok tt
  | TransitionGoal req =>
      match trans_authorship req with
      | AuthorSystem (Operator _ _ _ _ _) =>
          Err (ConstraintViolation (str "operator-authored Goal transition is not supported"))
      | _ => Ok tt
      end
  | ModifyGoal req =>
      if goal_permit && is_some (mod_motivated_by req)
      then Err (ConstraintViolation (str "changing Goal motivations requires owner authority"))
      else Ok tt
  end.

(** The evidence a command rests on. *)
Definition evidence (self : GoalCommand) (s : GoalSession) (store_number : N) (db : GoalDb) :
    result (list MemoryId) StorageError :=
  match self with
  | CreateGoal req => validate_evidence_in_owner s (top_evidence (dr_topology (create_draft req))) db
  | TransitionGoal _ => Ok []
  | AchieveGoal req => validate_evidence_in_owner s (ach_evidence req) db
  | ModifyGoal req =>
      match mod_evidence req with
      | Some evidence => validate_evidence_in_owner s evidence db
      | None => carried_evidence s (mod_owner req) (mod_prior_goal_id req) store_number db
      end
  end.

Definition edges {A B C} (motivated_by : list A) (dependencies : list B) (evidence : list C) : N :=
  N.of_nat (length motivated_by + length dependencies + length evidence).

(** A successor that only moves the lifecycle keeps its prior's content. *)
Definition lifecycle_insert (s : GoalSession) (writer : WriterAttribution) (store_number : N) (owner : OwnerId)
    (prior_goal_id : GoalId) (prior : StoredGoal) (state : GoalState) (authorship : GoalAuthorship)
    (request_id : rstring) (evidence : list MemoryId) (change : GoalChange) (context : GoalAtomicContext)
    (guard : PostLockGuard) : option GoalInsert :=
  let* draft := draft_from_stored owner prior state (Some prior_goal_id) authorship request_id evidence in
  Some (mk_GoalInsert draft (Some prior_goal_id) change context store_number writer (sg_text prior) None guard
          (edges (sg_motivated_by prior) (sg_dependencies prior) evidence)).

(** The arguments of [insert_or_replay_goal]; [None] is a panic. *)
Definition plan (self : GoalCommand) (s : GoalSession) (writer : WriterAttribution) (store_number : N)
    (evidence : list MemoryId) (db : GoalDb) : option (result GoalInsert StorageError) :=
  match self with
  | CreateGoal req =>
      let draft := create_draft req in
      Some (Ok (mk_GoalInsert draft None ChangeSet (create_context req) store_number writer (Some (dr_text draft))
                  (MemoryId_0 <$> create_write_act_t req) GuardNone
                  (edges (top_motivated_by (dr_topology draft)) (top_dependencies (dr_topology draft)) evidence)))
  | TransitionGoal req =>
      let! prior := Some (load_prior_goal s (trans_owner req) (trans_prior_goal_id req) (trans_context req) db) in
      let next_state := GoalTransitionKind.next_state (trans_transition req) in
      let! _ := Some (validate_goal_transition (sg_state prior) next_state) in
      let* insert := lifecycle_insert s writer store_number (trans_owner req) (trans_prior_goal_id req) prior next_state
                       (trans_authorship req) (IdempotencyKey.as_str (trans_request_id req)) []
                       (GoalTransitionKind.change (trans_transition req)) (trans_context req)
                       (match trans_transition req with Abandon => GuardNoOpenChildren | _ => GuardNone end) in
      Some (Ok insert)
  | AchieveGoal req =>
      let! prior := Some (load_prior_goal s (ach_owner req) (ach_prior_goal_id req) (ach_context req) db) in
      let! _ := Some (validate_goal_achievement (sg_state prior)) in
      let* insert := lifecycle_insert s writer store_number (ach_owner req) (ach_prior_goal_id req) prior Achieved
                       (ach_authorship req) (IdempotencyKey.as_str (ach_request_id req)) evidence ChangeAchieve
                       (ach_context req) GuardChildrenClosed in
      Some (Ok insert)
  | ModifyGoal req =>
      let! prior := Some (load_prior_goal s (mod_owner req) (mod_prior_goal_id req) (mod_context req) db) in
      let! _ := Some (if bool_decide (sg_state prior = Active) then Ok tt
                      else Err (ConstraintViolation (str "goal_modify requires an Active prior head"))) in
      let motivated_by := default (sg_motivated_by prior) (mod_motivated_by req) in
      let* draft := draft_from_payload (mod_owner req) (mod_replacement req) Active motivated_by (sg_dependencies prior)
                      (Some (mod_prior_goal_id req)) (mod_authorship req) (IdempotencyKey.as_str (mod_request_id req))
                      evidence in
      Some (Ok (mk_GoalInsert draft (Some (mod_prior_goal_id req)) ChangeModify (mod_context req) store_number writer
                  (Some (dr_text draft)) None GuardNone
                  (edges (top_motivated_by (dr_topology draft)) (top_dependencies (dr_topology draft)) evidence)))
  end.

End GoalCommand.

(** ** Transactions *)

Inductive GoalRequest :=
| OneGoal (command : GoalCommand)
| Decompose (req : DecomposeGoalAtomicRequest).

Inductive GoalAnswer :=
| WroteGoal (outcome : GoalWriteOutcome)
| WroteChildren (outcome : DecomposeGoalOutcome).

(** A child as prepared; [None] is a preparation that found its request written. *)
Record PreparedChild := mk_PreparedChild {
  pc_insert : GoalInsert;
  pc_prepared : option PreparedGoalWrite;
  pc_declaration : ReplayDeclaration;
}.

Inductive GoalPc :=
| Probe
| Evidence (declaration : ReplayDeclaration)
| Plan (declaration : ReplayDeclaration) (evidence : list MemoryId)
| LockRequest (declaration : ReplayDeclaration) (insert : GoalInsert) (retried : bool)
| Prepare (declaration : ReplayDeclaration) (insert : GoalInsert) (retried : bool)
| Lock (declaration : ReplayDeclaration) (insert : GoalInsert) (retried : bool) (p : PreparedGoalWrite)
| Guard (declaration : ReplayDeclaration) (insert : GoalInsert) (retried : bool) (p : PreparedGoalWrite)
| Persist (declaration : ReplayDeclaration) (insert : GoalInsert) (retried : bool) (p : PreparedGoalWrite)
| RequireReplay (declaration : ReplayDeclaration)
| CheckParent (req : DecomposeGoalAtomicRequest) (declarations : list ReplayDeclaration)
| PlanChild (req : DecomposeGoalAtomicRequest) (todo : list (ChildGoalDraft * ReplayDeclaration))
    (done : list PreparedChild)
| LockChild (req : DecomposeGoalAtomicRequest) (insert : GoalInsert) (declaration : ReplayDeclaration)
    (todo : list (ChildGoalDraft * ReplayDeclaration)) (done : list PreparedChild)
| PrepareChild (req : DecomposeGoalAtomicRequest) (insert : GoalInsert) (declaration : ReplayDeclaration)
    (todo : list (ChildGoalDraft * ReplayDeclaration)) (done : list PreparedChild)
| ReplayChildren (req : DecomposeGoalAtomicRequest) (declarations : list ReplayDeclaration)
| LockChildren (req : DecomposeGoalAtomicRequest) (children : list PreparedChild)
| PersistChildren (req : DecomposeGoalAtomicRequest) (children : list PreparedChild)
| Panicked
| Answered (answer : result GoalAnswer StorageError).

Record GoalTx := mk_GoalTx {
  tx_process : N;
  tx_session : GoalSession;
  tx_goal_permit : bool;
  tx_writer : WriterAttribution;
  tx_store_number : N;
  tx_request : GoalRequest;
  tx_requests : list (Uuid * rstring);
  tx_fence : option Uuid;
  tx_targets : list Uuid;
  tx_pc : GoalPc;
}.

Definition goto (pc : GoalPc) (tx : GoalTx) : GoalTx :=
  mk_GoalTx (tx_process tx) (tx_session tx) (tx_goal_permit tx) (tx_writer tx) (tx_store_number tx) (tx_request tx)
    (tx_requests tx) (tx_fence tx) (tx_targets tx) pc.
Definition hold_request (key : Uuid * rstring) (tx : GoalTx) : GoalTx :=
  mk_GoalTx (tx_process tx) (tx_session tx) (tx_goal_permit tx) (tx_writer tx) (tx_store_number tx) (tx_request tx)
    (key :: tx_requests tx) (tx_fence tx) (tx_targets tx) (tx_pc tx).
Definition hold_fence (owner : Uuid) (tx : GoalTx) : GoalTx :=
  mk_GoalTx (tx_process tx) (tx_session tx) (tx_goal_permit tx) (tx_writer tx) (tx_store_number tx) (tx_request tx)
    (tx_requests tx) (Some owner) (tx_targets tx) (tx_pc tx).
Definition hold_targets (targets : list Uuid) (tx : GoalTx) : GoalTx :=
  mk_GoalTx (tx_process tx) (tx_session tx) (tx_goal_permit tx) (tx_writer tx) (tx_store_number tx) (tx_request tx)
    (tx_requests tx) (tx_fence tx) (targets ++ tx_targets tx) (tx_pc tx).

(** The end of a transaction, or of an attempt within its savepoint. *)
Definition release (pc : GoalPc) (tx : GoalTx) : GoalTx :=
  mk_GoalTx (tx_process tx) (tx_session tx) (tx_goal_permit tx) (tx_writer tx) (tx_store_number tx) (tx_request tx)
    [] None [] pc.
Definition answered (answer : result GoalAnswer StorageError) (tx : GoalTx) : GoalTx := release (Answered answer) tx.

Record GoalWorld := mk_GoalWorld {
  gw_db : GoalDb;
  gw_generators : gmap N Generator;
  gw_txs : gmap nat GoalTx;
}.

Definition goal_generator (w : GoalWorld) (process : N) : Generator :=
  default Generator.empty (gw_generators w !! process).

(** No other transaction holds the lock. *)
Definition request_free (w : GoalWorld) (id : nat) (key : Uuid * rstring) : bool :=
  bool_decide (map_Forall (fun other tx => other = id \/ key ∉ tx_requests tx) (gw_txs w)).
Definition targets_free (w : GoalWorld) (id : nat) (targets : list Uuid) : bool :=
  bool_decide (map_Forall (fun other tx => other = id \/ Forall (fun t => t ∉ tx_targets tx) targets) (gw_txs w)).
Definition owner_free (w : GoalWorld) (owner : Uuid) : bool :=
  bool_decide (map_Forall (fun _ tx => tx_fence tx <> Some owner) (gw_txs w)).

Section goal_steps.
Context `{PgText, Digest, UuidText, Jsonb}.

(** ** Steps

    What a step leaves: the transaction, the tables, its process's generator. *)

Abbreviation Stepped := (GoalTx * GoalDb * Generator)%type.

Definition answer_replay (env : GoalEnv) (tx : GoalTx) (outcome : result GoalAnswer StorageError) : GoalTx :=
  let answer := let? outcome := outcome in
                let? _ := if tx_goal_permit tx then ge_fence env else Ok tt in
                Ok outcome in
  answered answer tx.

Definition probe_step (env : GoalEnv) (tx : GoalTx) (db : GoalDb) : GoalTx :=
  match tx_request tx with
  | OneGoal command =>
      match (let? _ := GoalCommand.screen command (tx_goal_permit tx) in
             let? _ := if tx_goal_permit tx then ge_fence env else Ok tt in
             let? declaration := GoalCommand.declaration command in
             let? replay := resolve_goal_replay (tx_session tx) (GoalCommand.owner command)
                              (GoalCommand.request_id command) declaration db in
             Ok (declaration, replay)) with
      | Err e => answered (Err e) tx
      | Ok (_, Some replay) => answer_replay env tx (Ok (WroteGoal replay))
      | Ok (declaration, None) => goto (Evidence declaration) tx
      end
  | Decompose req =>
      match (let? declarations := decompose_replay_declarations req in
             let? replay := resolve_decompose_replay_set (tx_session tx) req declarations db in
             Ok (declarations, replay)) with
      | Err e => answered (Err e) tx
      | Ok (_, Some replay) => answered (Ok (WroteChildren replay)) tx
      | Ok (declarations, None) => goto (CheckParent req declarations) tx
      end
  end.

(** The command's evidence and plan. *)
Definition evidence_step (tx : GoalTx) (declaration : ReplayDeclaration) (db : GoalDb) : GoalTx :=
  match tx_request tx with
  | OneGoal command =>
      match GoalCommand.evidence command (tx_session tx) (tx_store_number tx) db with
      | Ok evidence => goto (Plan declaration evidence) tx
      | Err e => answered (Err e) tx
      end
  | Decompose _ => tx
  end.

Definition plan_step (tx : GoalTx) (declaration : ReplayDeclaration) (evidence : list MemoryId) (db : GoalDb) : GoalTx :=
  match tx_request tx with
  | OneGoal command =>
      match GoalCommand.plan command (tx_session tx) (tx_writer tx) (tx_store_number tx) evidence db with
      | Some (Ok insert) => goto (LockRequest declaration insert false) tx
      | Some (Err e) => answered (Err e) tx
      | None => release Panicked tx
      end
  | Decompose _ => tx
  end.

Definition insert_key_of (insert : GoalInsert) : Uuid * rstring :=
  (OwnerId_0 (dr_owner (in_draft insert)), dr_request_id (in_draft insert)).

(** Take the request's lock, then look for its goal. *)
Definition found_request (tx : GoalTx) (insert : GoalInsert) (db : GoalDb) : bool :=
  is_some (load_goal_by_request_id (tx_session tx) (dr_owner (in_draft insert)) (dr_request_id (in_draft insert)) db).

Definition guard_rule (guard : PostLockGuard) : option ChildRule :=
  match guard with
  | GuardNone => None
  | GuardChildrenClosed => Some ClosedWithAchieved
  | GuardNoOpenChildren => Some NoneOpen
  end.

Definition guard_step (tx : GoalTx) (insert : GoalInsert) (p : PreparedGoalWrite) (db : GoalDb) :
    result unit StorageError :=
  match guard_rule (in_guard insert) with
  | Some rule => ensure_goal_children_closed (tx_session tx) (dr_owner (in_draft insert)) (pg_handle p) rule db
  | None => Ok tt
  end.

(** A collision is retried once, in a new savepoint. *)
Definition retry_or_answer (tx : GoalTx) (declaration : ReplayDeclaration) (insert : GoalInsert) (retried : bool)
    (e : StorageError) : GoalTx :=
  match e with
  | MemoryIdCollision =>
      if retried then answered (Err (ConstraintViolation (str "memory UUID collided again after one retry"))) tx
      else release (LockRequest declaration insert true) tx
  | e => answered (Err e) tx
  end.

Definition persist_step (env : GoalEnv) (tx : GoalTx) (declaration : ReplayDeclaration) (insert : GoalInsert)
    (retried : bool) (p : PreparedGoalWrite) (db : GoalDb) : option (GoalTx * GoalDb) :=
  match persist_goal env (tx_session tx) insert p declaration db with
  | None => None
  | Some (Err e) => Some (retry_or_answer tx declaration insert retried e, db)
  | Some (Ok (db', outcome)) =>
      match (if tx_goal_permit tx then ge_fence env else Ok tt) with
      | Ok _ => Some (answered (Ok (WroteGoal outcome)) tx, db')
      | Err e => Some (answered (Err e) tx, db)
      end
  end.

(** *** Decomposition *)

Definition plan_child (tx : GoalTx) (req : DecomposeGoalAtomicRequest) (child : ChildGoalDraft) (db : GoalDb) :
    result GoalInsert StorageError :=
  let? evidence := validate_evidence_in_owner (tx_session tx) (child_evidence child) db in
  let? draft := child_draft (dec_owner req) (dec_parent_goal_id req) (dec_topology req) (dec_authorship req) child in
  Ok (mk_GoalInsert draft None (ChangeDecomposeChild (dec_parent_goal_id req)) (dec_context req) (tx_store_number tx)
        (tx_writer tx) (Some (dr_text draft)) None GuardNone
        (GoalCommand.edges (top_motivated_by (dr_topology draft)) (top_dependencies (dr_topology draft)) evidence)).

Definition all_prepared (children : list PreparedChild) : option (list PreparedGoalWrite) :=
  mapM (M := option) pc_prepared children.

(** After the last child: a replay, or the union of the children's locks. *)
Definition prepared_all (req : DecomposeGoalAtomicRequest) (done : list PreparedChild) : GoalPc :=
  match all_prepared done with
  | Some _ => LockChildren req done
  | None => ReplayChildren req (pc_declaration <$> done)
  end.

Definition children_targets (children : list PreparedChild) : list Uuid :=
  children ≫= (fun child => match pc_prepared child with Some p => pg_targets p | None => [] end).

Fixpoint persist_children (env : nat -> GoalEnv) (s : GoalSession) (children : list PreparedChild) (db : GoalDb) :
    option (result (GoalDb * list GoalWriteOutcome) StorageError) :=
  match children with
  | [] => Some (Ok (db, []))
  | child :: children =>
      match pc_prepared child with
      | None => Some (Err (StorageInternal (str "Goal replay reached lifecycle persistence without declaration proof")))
      | Some p =>
          let! (db, outcome) := persist_goal (env 0) s (pc_insert child) p (pc_declaration child) db in
          let! (db, rest) := persist_children (fun i => env (S i)) s children db in
          Some (Ok (db, outcome :: rest))
      end
  end.

(** [env] is given once per row written. *)
Definition tx_step (w : GoalWorld) (id : nat) (env : nat -> GoalEnv) (tx : GoalTx) : option Stepped :=
  let db := gw_db w in
  let g := goal_generator w (tx_process tx) in
  let s := tx_session tx in
  match tx_pc tx with
  | Probe => Some (probe_step (env 0) tx db, db, g)
  | Evidence declaration => Some (evidence_step tx declaration db, db, g)
  | Plan declaration evidence => Some (plan_step tx declaration evidence db, db, g)
  | LockRequest declaration insert retried =>
      if negb (request_free w id (insert_key_of insert)) then None
      else
        let tx := hold_request (insert_key_of insert) tx in
        Some (goto (if found_request tx insert db then RequireReplay declaration
                    else Prepare declaration insert retried) tx, db, g)
  | Prepare declaration insert retried =>
      let* (prepared, g) := prepare_goal_insert (env 0) s insert g db in
      match prepared with
      | Ok p => Some (goto (Lock declaration insert retried p) (hold_fence (OwnerId_0 (dr_owner (in_draft insert))) tx), db, g)
      | Err e => Some (answered (Err e) tx, db, g)
      end
  | Lock declaration insert retried p =>
      if negb (targets_free w id (pg_targets p)) then None
      else
        match lock_and_validate_prepared_goal_write s p db with
        | Ok _ => Some (goto (Guard declaration insert retried p) (hold_targets (pg_targets p) tx), db, g)
        | Err e => Some (answered (Err e) tx, db, g)
        end
  | Guard declaration insert retried p =>
      match guard_step tx insert p db with
      | Ok _ => Some (goto (Persist declaration insert retried p) tx, db, g)
      | Err e => Some (answered (Err e) tx, db, g)
      end
  | Persist declaration insert retried p =>
      let* (tx, db) := persist_step (env 0) tx declaration insert retried p db in Some (tx, db, g)
  | RequireReplay declaration =>
      match tx_request tx with
      | OneGoal command =>
          Some (answer_replay (env 0) tx
                  (let? outcome := require_goal_replay s (GoalCommand.owner command) (GoalCommand.request_id command)
                                     declaration db in
                   Ok (WroteGoal outcome)), db, g)
      | Decompose _ => None
      end
  | CheckParent req declarations =>
      match validate_active_head s (dec_owner req) (dec_parent_goal_id req) db with
      | Ok _ => Some (goto (PlanChild req (zip (dec_children req) declarations) []) tx, db, g)
      | Err e => Some (answered (Err e) tx, db, g)
      end
  | PlanChild req [] done => Some (goto (prepared_all req done) tx, db, g)
  | PlanChild req ((child, declaration) :: todo) done =>
      match plan_child tx req child db with
      | Ok insert => Some (goto (LockChild req insert declaration todo done) tx, db, g)
      | Err e => Some (answered (Err e) tx, db, g)
      end
  | LockChild req insert declaration todo done =>
      if negb (request_free w id (insert_key_of insert)) then None
      else
        let tx := hold_request (insert_key_of insert) tx in
        Some (goto (if found_request tx insert db
                    then PlanChild req todo (done ++ [mk_PreparedChild insert None declaration])
                    else PrepareChild req insert declaration todo done) tx, db, g)
  | PrepareChild req insert declaration todo done =>
      let* (prepared, g) := prepare_goal_insert (env 0) s insert g db in
      match prepared with
      | Ok p => Some (goto (PlanChild req todo (done ++ [mk_PreparedChild insert (Some p) declaration]))
                        (hold_fence (OwnerId_0 (dr_owner (in_draft insert))) tx), db, g)
      | Err e => Some (answered (Err e) tx, db, g)
      end
  | ReplayChildren req declarations =>
      let answer := let? replay := resolve_decompose_replay_set s req declarations db in
                    let? replay := ok_or replay
                      (StorageInternal (str "prepared Goal replay disappeared before declaration proof")) in
                    Ok (WroteChildren replay) in
      Some (answered answer tx, db, g)
  | LockChildren req children =>
      if negb (targets_free w id (children_targets children)) then None
      else
        match validate_active_head s (dec_owner req) (dec_parent_goal_id req) db with
        | Ok _ => Some (goto (PersistChildren req children) (hold_targets (children_targets children) tx), db, g)
        | Err e => Some (answered (Err e) tx, db, g)
        end
  | PersistChildren req children =>
      let* written := persist_children env s children db in
      match written with
      | Ok (db, outcomes) => Some (answered (Ok (WroteChildren (mk_DecomposeGoalOutcome outcomes false))) tx, db, g)
      | Err e => Some (answered (Err e) tx, db, g)
      end
  | Panicked | Answered _ => None
  end.

(** ** Schedules *)

(** The goal part of a whole-owner erase
    ([crates/storage-pg/src/verbs/owner_erase.rs]): the owner's versions, which
    leave witnesses, and by cascade their declarations. *)
Definition delete_selected_goals (owner : Uuid) (db : GoalDb) : GoalDb :=
  let m := gd_memory db in
  let selected := filter (fun entry : Uuid * GoalRow => goal_owner entry.2 = owner) (gd_rows db) in
  let m := set_erased (((fun _ => None) <$> selected) ∪ mem_erased m) m in
  let db := set_goal_memory m db in
  let db := set_goal_declarations
              (filter (fun entry : (Uuid * rstring) * GoalReplayRow => entry.1.1 <> owner) (gd_declarations db)) db in
  set_goal_rows (filter (fun entry : Uuid * GoalRow => goal_owner entry.2 <> owner) (gd_rows db)) db.

(** The heads: no version of the owner is left, so none is moved and all go. *)
Definition sync_selected_goal_heads (owner : Uuid) (db : GoalDb) : GoalDb :=
  set_goal_heads (filter (fun entry : Uuid * GoalHeadRow => ghead_owner entry.2 <> owner) (gd_heads db)) db.

Definition erase_owner_goals (owner : Uuid) (db : GoalDb) : GoalDb :=
  sync_selected_goal_heads owner (delete_selected_goals owner db).

(** [Elsewhere]: the memory tables change by their own verbs, which never take a
    witness of an erased version back. *)
Inductive GoalEvent :=
| Begin (id : nat) (process : N) (s : GoalSession) (goal_permit : bool) (writer : WriterAttribution) (store_number : N)
    (request : GoalRequest)
| Run (id : nat) (env : nat -> GoalEnv)
| Drop (id : nat)
| EraseOwner (owner : Uuid)
| Elsewhere (m : MemoryDb).

Definition exec (w : GoalWorld) (e : GoalEvent) : option GoalWorld :=
  match e with
  | Begin id process s goal_permit writer store_number request =>
      match gw_txs w !! id with
      | Some _ => None
      | None =>
          let tx := mk_GoalTx process s goal_permit writer store_number request [] None [] Probe in
          Some (mk_GoalWorld (gw_db w) (gw_generators w) (<[id := tx]> (gw_txs w)))
      end
  | Run id env =>
      let* tx := gw_txs w !! id in
      let* (tx', db, g) := tx_step w id env tx in
      Some (mk_GoalWorld db (<[tx_process tx := g]> (gw_generators w)) (<[id := tx']> (gw_txs w)))
  | Drop id => Some (mk_GoalWorld (gw_db w) (gw_generators w) (delete id (gw_txs w)))
  | EraseOwner owner =>
      if owner_free w owner
      then Some (mk_GoalWorld (erase_owner_goals owner (gw_db w)) (gw_generators w) (gw_txs w)) else None
  | Elsewhere m =>
      if bool_decide (mem_goals m = mem_goals (gd_memory (gw_db w)))
         && bool_decide (map_Forall (fun t _ => is_Some (mem_erased m !! t)) (mem_erased (gd_memory (gw_db w))))
      then Some (mk_GoalWorld (set_goal_memory m (gw_db w)) (gw_generators w) (gw_txs w)) else None
  end.

Fixpoint exec_all (w : GoalWorld) (events : list GoalEvent) : option GoalWorld :=
  match events with
  | [] => Some w
  | e :: events => let* w := exec w e in exec_all w events
  end.

(** What a mint draws, and the number of its store. *)
Definition goal_draws_ok (env : GoalEnv) : Prop :=
  forall i, length (ge_draw env i).2 = 16%nat /\ Forall byte_ok (ge_draw env i).2.

(** A topology comes from its constructor, and the engine creates Active goals. *)
Definition topology_built (topology : GoalTopologyWrite) : Prop :=
  exists motivated_by dependencies evidence,
    GoalTopologyWrite.new motivated_by dependencies evidence = Ok topology.
Definition request_ok (request : GoalRequest) : Prop :=
  match request with
  | OneGoal (CreateGoal req) =>
      topology_built (dr_topology (create_draft req)) /\ dr_state (create_draft req) = Active
  | OneGoal _ | Decompose _ => True
  end.

Definition event_ok (e : GoalEvent) : Prop :=
  match e with
  | Begin _ _ _ _ _ store_number request => (store_number < 2 ^ 16)%N /\ request_ok request
  | Run _ env => forall i, goal_draws_ok (env i)
  | Drop _ | EraseOwner _ | Elsewhere _ => True
  end.

Definition goal_step (w w' : GoalWorld) : Prop := exists e, event_ok e /\ exec w e = Some w'.

Definition empty_goals (m : MemoryDb) : GoalWorld :=
  mk_GoalWorld (mk_GoalDb ∅ ∅ ∅ (mk_MemoryDb (mem_groups m) (mem_keys m) (mem_heads m) (mem_rows m) ∅ (mem_erased m)
                                   (mem_closed m))) ∅ ∅.

(** The worlds any schedule reaches. *)
Definition reachable (w : GoalWorld) : Prop := exists m, rtc goal_step (empty_goals m) w.

End goal_steps.
