(* ===== verification/GoalTree.v ===== *)
(** * Goal trees and histories

    What every schedule of goal writes keeps: a version's successor is legal and
    closed goals are final, heads are the newest versions, decomposition is a
    forest, and no open goal sits under a closed one
    ([crates/storage-pg/src/verbs/goal_write/children.rs]). *)

From S2P Require Import Prelude Ids Bytes GroupForest Text Json Publication Errors OwnerScope Authz Groups MemoryUuid.
From S2P Require Import Idempotency MemoryStore Admission MemoryLifecycle MemorySeries GoalWrite GoalStore GoalSteps.

(** ** Well-formed goal tables *)

(** The states that may follow one another in a series. *)
Definition legal_next (prior next : GoalState) : bool :=
  GoalState.may_transition_to prior next || GoalState.may_achieve prior && bool_decide (next = Achieved).

(** The current version of a series. *)
Definition current (db : GoalDb) (handle : Uuid) (row : GoalRow) : Prop :=
  exists head, gd_heads db !! handle = Some head /\ gd_rows db !! ghead_t head = Some row.

(** A series decomposed under another. *)
Definition child_of (db : GoalDb) (parent handle : Uuid) (row : GoalRow) : Prop :=
  current db handle row /\ goal_parent_handle row = Some parent.

(** What closing a series in this state asks of its children. *)
Definition children_closed (db : GoalDb) (parent : Uuid) (state : GoalState) : Prop :=
  is_open state = false ->
  (forall handle row, child_of db parent handle row -> is_open (goal_state row) = false) /\
  (state = Achieved -> forall handle row, child_of db parent handle row ->
     exists handle' row', child_of db parent handle' row' /\ goal_state row' = Achieved).

(** Consecutive versions of one series. *)
Definition succeeds (db : GoalDb) (t t' : Uuid) (row row' : GoalRow) : Prop :=
  gd_rows db !! t = Some row /\ gd_rows db !! t' = Some row' /\ goal_handle row = goal_handle row' /\ (t < t')%N /\
  forall u between, gd_rows db !! u = Some between -> goal_handle between = goal_handle row -> (u <= t \/ t' <= u)%N.

Record goals_ok (db : GoalDb) : Prop := mk_goals_ok {
  gok_head handle head : gd_heads db !! handle = Some head ->
    exists row, gd_rows db !! ghead_t head = Some row /\ goal_handle row = handle /\ goal_owner row = ghead_owner head;
  gok_row t row : gd_rows db !! t = Some row ->
    id_ok t /\ NoDup (goal_dependency_t row) /\ NoDup (goal_evidence_t row);
  gok_newest t row : gd_rows db !! t = Some row ->
    exists head, gd_heads db !! goal_handle row = Some head /\ ghead_owner head = goal_owner row /\
      (t <= ghead_t head)%N /\ (t = ghead_t head \/ is_open (goal_state row) = true);
  gok_fixed t t' row row' : gd_rows db !! t = Some row -> gd_rows db !! t' = Some row' ->
    goal_handle row = goal_handle row' -> goal_parent_handle row = goal_parent_handle row';
  gok_parent t row parent : gd_rows db !! t = Some row -> goal_parent_handle row = Some parent ->
    exists head, gd_heads db !! parent = Some head /\ ghead_owner head = goal_owner row;
  gok_rank : exists rank : Uuid -> nat, forall t row parent, gd_rows db !! t = Some row ->
    goal_parent_handle row = Some parent -> rank parent < rank (goal_handle row);
  gok_closed handle row : current db handle row -> children_closed db handle (goal_state row);
  gok_first t row : gd_rows db !! t = Some row ->
    (forall u other, gd_rows db !! u = Some other -> goal_handle other = goal_handle row -> (t <= u)%N) ->
    goal_state row = Active;
  gok_next t t' row row' : succeeds db t t' row row' -> legal_next (goal_state row) (goal_state row') = true;
  gok_declared t row : gd_rows db !! t = Some row ->
    exists d, gd_declarations db !! (goal_owner row, goal_request_id row) = Some d /\ grep_goal_t d = t;
  gok_declaration key d : gd_declarations db !! key = Some d ->
    exists row, gd_rows db !! grep_goal_t d = Some row /\ key = (goal_owner row, goal_request_id row);
}.

(** ** One version more *)

(** [locks] are the lifecycle targets the writer holds. *)
Record appended (locks : list Uuid) (db db' : GoalDb) (t : Uuid) (row : GoalRow) : Prop := mk_appended {
  ap_rows : gd_rows db' = <[t := row]> (gd_rows db);
  ap_fresh : gd_rows db !! t = None;
  ap_unerased : mem_erased (gd_memory db) !! t = None;
  ap_erased : mem_erased (gd_memory db') = mem_erased (gd_memory db);
  ap_heads : exists schema,
    gd_heads db' = <[goal_handle row := mk_GoalHeadRow schema (goal_owner row) t]> (gd_heads db);
  ap_declared : exists d, grep_goal_t d = t /\ gd_declarations db !! (goal_owner row, goal_request_id row) = None /\
    gd_declarations db' = <[(goal_owner row, goal_request_id row) := d]> (gd_declarations db);
  ap_row : id_ok t /\ NoDup (goal_dependency_t row) /\ NoDup (goal_evidence_t row);
  ap_series :
    (gd_heads db !! goal_handle row = None /\ goal_state row = Active /\
     forall parent, goal_parent_handle row = Some parent -> exists head prow,
       gd_heads db !! parent = Some head /\ gd_rows db !! ghead_t head = Some prow /\ ghead_t head ∈ locks /\
       ghead_owner head = goal_owner row /\ goal_state prow = Active) \/
    (exists head prior, gd_heads db !! goal_handle row = Some head /\ gd_rows db !! ghead_t head = Some prior /\
       ghead_t head ∈ locks /\ ghead_owner head = goal_owner row /\ (ghead_t head < t)%N /\
       goal_parent_handle prior = goal_parent_handle row /\
       legal_next (goal_state prior) (goal_state row) = true /\ children_closed db (goal_handle row) (goal_state row));
}.

Lemma legal_next_open prior next : legal_next prior next = true -> is_open prior = true.
Proof. by destruct prior, next. Qed.

Section appending.
Context (locks : list Uuid) (db db' : GoalDb) (t : Uuid) (row : GoalRow).
Context (Hok : goals_ok db) (Hap : appended locks db db' t row).

Lemma ap_lookup u : gd_rows db' !! u = if decide (u = t) then Some row else gd_rows db !! u.
Proof.
  rewrite (ap_rows _ _ _ _ _ Hap). case_decide as Hu; [by rewrite Hu, lookup_insert_eq|by rewrite lookup_insert_ne].
Qed.

Lemma ap_old u other : gd_rows db !! u = Some other -> gd_rows db' !! u = Some other /\ u <> t.
Proof.
  intros Hu. rewrite ap_lookup. case_decide as E; [|done]. subst u. by rewrite (ap_fresh _ _ _ _ _ Hap) in Hu.
Qed.

Lemma ap_new u other : gd_rows db' !! u = Some other -> (u = t /\ other = row) \/ (u <> t /\ gd_rows db !! u = Some other).
Proof. rewrite ap_lookup. case_decide; [left; naive_solver|by right]. Qed.

Lemma ap_head_lookup handle : handle <> goal_handle row -> gd_heads db' !! handle = gd_heads db !! handle.
Proof. intros Hne. destruct (ap_heads _ _ _ _ _ Hap) as [schema ->]. by rewrite lookup_insert_ne. Qed.

Lemma ap_head_new : exists head, gd_heads db' !! goal_handle row = Some head /\ ghead_t head = t /\
  ghead_owner head = goal_owner row.
Proof. destruct (ap_heads _ _ _ _ _ Hap) as [schema ->]. eexists. by rewrite lookup_insert_eq. Qed.

(** Every series has its old head or a new one. *)
Lemma ap_head_some handle head : gd_heads db !! handle = Some head ->
  exists head', gd_heads db' !! handle = Some head' /\ ghead_owner head' = ghead_owner head /\
    (ghead_t head <= ghead_t head')%N.
Proof.
  intros Hh. destruct (decide (handle = goal_handle row)) as [->|Hne].
  - destruct ap_head_new as (head' & E & Ht & Ho). exists head'. split; [done|].
    destruct (ap_series _ _ _ _ _ Hap) as [(Hnone & _)|(old & prior & Ho' & _ & _ & Hown & Hlt & _)].
    + by rewrite Hnone in Hh.
    + rewrite Hh in Ho'. injection Ho' as ->. rewrite Ho, Ht. split; [done|]. lia.
  - exists head. by rewrite ap_head_lookup.
Qed.

Lemma ap_current handle r : current db' handle r <->
  (handle = goal_handle row /\ r = row) \/ (handle <> goal_handle row /\ current db handle r).
Proof.
  unfold current. destruct (decide (handle = goal_handle row)) as [->|Hne].
  - destruct ap_head_new as (head & E & Ht & _). split.
    + intros (h & Eh & Er). rewrite E in Eh. injection Eh as <-. left. split; [done|].
      rewrite Ht, ap_lookup, decide_True in Er by done. by injection Er.
    + intros [[_ ->]|[? _]]; [|done]. exists head. split; [done|]. by rewrite Ht, ap_lookup, decide_True.
  - rewrite ap_head_lookup by done. split.
    + intros (head & Eh & Er). right. split; [done|]. exists head. split; [done|].
      apply ap_new in Er as [[Ht ->]|[_ Er]]; [|done].
      destruct (gok_head _ Hok _ _ Eh) as (old & Eo & _). rewrite Ht, (ap_fresh _ _ _ _ _ Hap) in Eo. discriminate Eo.
    + intros [[? _]|(_ & head & Eh & Er)]; [done|]. exists head. split; [done|]. by apply ap_old.
Qed.

Lemma ap_gok_head handle head : gd_heads db' !! handle = Some head ->
  exists r, gd_rows db' !! ghead_t head = Some r /\ goal_handle r = handle /\ goal_owner r = ghead_owner head.
Proof.
  destruct (decide (handle = goal_handle row)) as [->|Hne].
  - destruct ap_head_new as (h & E & Ht & Ho). rewrite E. intros [= <-]. exists row.
    by rewrite Ht, ap_lookup, decide_True.
  - rewrite ap_head_lookup by done. intros (r & Er & ? & ?)%(gok_head _ Hok). exists r.
    split; [by apply ap_old|done].
Qed.

Lemma ap_gok_newest u r : gd_rows db' !! u = Some r ->
  exists head, gd_heads db' !! goal_handle r = Some head /\ ghead_owner head = goal_owner r /\
    (u <= ghead_t head)%N /\ (u = ghead_t head \/ is_open (goal_state r) = true).
Proof.
  intros [[-> ->]|[Hne Er]]%ap_new.
  { destruct ap_head_new as (head & E & Ht & Ho). exists head. rewrite Ht. repeat split; [done|done|lia|by left]. }
  destruct (gok_newest _ Hok _ _ Er) as (head & Eh & Ho & Hle & Hopen).
  destruct (ap_head_some _ _ Eh) as (head' & Eh' & Ho' & Hle'). exists head'.
  repeat split; [done|congruence|lia|]. destruct Hopen as [Hu|]; [|by right].
  destruct (decide (goal_handle r = goal_handle row)) as [Hsame|Hdiff].
  - right. destruct (ap_series _ _ _ _ _ Hap) as [(Hnone & _)|(old & prior & Hold & Ep & _ & _ & _ & _ & Hlegal & _)].
    + by rewrite Hsame, Hnone in Eh.
    + rewrite Hsame, Hold in Eh. injection Eh as ->. rewrite <-Hu, Er in Ep. injection Ep as ->.
      by eapply legal_next_open.
  - left. rewrite ap_head_lookup, Eh in Eh' by done. by injection Eh' as <-.
Qed.

Lemma ap_gok_fixed u u' r r' : gd_rows db' !! u = Some r -> gd_rows db' !! u' = Some r' ->
  goal_handle r = goal_handle r' -> goal_parent_handle r = goal_parent_handle r'.
Proof.
  assert (forall v o, gd_rows db !! v = Some o -> goal_handle o = goal_handle row ->
            goal_parent_handle o = goal_parent_handle row) as Hrow.
  { intros v o Ev Ho. destruct (ap_series _ _ _ _ _ Hap) as [(Hnone & _)|(head & prior & Eh & Ep & _ & _ & _ & Hpar & _)].
    - destruct (gok_newest _ Hok _ _ Ev) as (h & Eh & _). by rewrite Ho, Hnone in Eh.
    - rewrite <-Hpar. eapply (gok_fixed _ Hok); [exact Ev|exact Ep|].
      destruct (gok_head _ Hok _ _ Eh) as (p & Ep' & Hh & _). rewrite Ep in Ep'. injection Ep' as <-. congruence. }
  intros [[-> ->]|[_ Er]]%ap_new [[-> ->]|[_ Er']]%ap_new Hh; [done|symmetry; by eapply Hrow|by eapply Hrow|].
  by eapply (gok_fixed _ Hok).
Qed.

(** The series a version of this series is decomposed under. *)
Lemma ap_parent parent : goal_parent_handle row = Some parent ->
  exists head, gd_heads db !! parent = Some head /\ ghead_owner head = goal_owner row.
Proof.
  intros Hp. destruct (ap_series _ _ _ _ _ Hap) as [(_ & _ & Hpar)|(head & prior & Eh & Ep & _ & Ho & _ & Hpar & _)].
  - destruct (Hpar _ Hp) as (head & prow & ? & _ & _ & ? & _). by exists head.
  - rewrite <-Hpar in Hp. destruct (gok_parent _ Hok _ _ _ Ep Hp) as (ph & Eph & Hph). exists ph. split; [done|].
    destruct (gok_head _ Hok _ _ Eh) as (p & Ep' & _ & Hown). rewrite Ep in Ep'. injection Ep' as <-. congruence.
Qed.

Lemma ap_gok_parent u r parent : gd_rows db' !! u = Some r -> goal_parent_handle r = Some parent ->
  exists head, gd_heads db' !! parent = Some head /\ ghead_owner head = goal_owner r.
Proof.
  intros Er Hp. assert (exists head, gd_heads db !! parent = Some head /\ ghead_owner head = goal_owner r) as (head & Eh & Ho).
  { apply ap_new in Er as [[-> ->]|[_ Er]]; [by apply ap_parent|by eapply (gok_parent _ Hok)]. }
  destruct (ap_head_some _ _ Eh) as (head' & Eh' & Ho' & _). exists head'. split; [done|congruence].
Qed.

Lemma ap_gok_rank : exists rank : Uuid -> nat, forall u r parent, gd_rows db' !! u = Some r ->
  goal_parent_handle r = Some parent -> rank parent < rank (goal_handle r).
Proof.
  destruct (gok_rank _ Hok) as [rank Hrank].
  destruct (ap_series _ _ _ _ _ Hap) as [(Hnone & _ & _)|(head & prior & Eh & Ep & _ & _ & _ & Hpar & _)].
  - set (top := S (from_option rank 0 (goal_parent_handle row))).
    exists (fun h => if decide (h = goal_handle row) then top else rank h). intros u r parent Er Hp.
    assert (parent <> goal_handle row) as Hne.
    { intros ->. apply ap_new in Er as [[-> ->]|[_ Er]].
      - destruct (ap_parent _ Hp) as (h & Eh & _). by rewrite Hnone in Eh.
      - destruct (gok_parent _ Hok _ _ _ Er Hp) as (h & Eh & _). by rewrite Hnone in Eh. }
    rewrite (decide_False (P := parent = _)) by done. apply ap_new in Er as [[-> ->]|[_ Er]].
    + rewrite decide_True by done. unfold top. rewrite Hp. cbn. lia.
    + rewrite decide_False; [by eapply Hrank|]. intros E.
      destruct (gok_newest _ Hok _ _ Er) as (h & Eh & _). by rewrite E, Hnone in Eh.
  - exists rank. intros u r parent Er Hp. apply ap_new in Er as [[-> ->]|[_ Er]]; [|by eapply Hrank].
    destruct (gok_head _ Hok _ _ Eh) as (p & Ep' & <- & _). rewrite Ep in Ep'. injection Ep' as <-.
    rewrite <-Hpar in Hp. by eapply Hrank.
Qed.

Lemma current_unique d handle r r' : current d handle r -> current d handle r' -> r = r'.
Proof. intros (h & Eh & Er) (h' & Eh' & Er'). congruence. Qed.

(** A closed series gets no child, and none of its children a version. *)
Lemma ap_not_under_closed handle r : current db handle r -> is_open (goal_state r) = false ->
  goal_parent_handle row <> Some handle.
Proof.
  intros Hcur Hclosed Hp. destruct (gok_closed _ Hok _ _ Hcur Hclosed) as [Hall _].
  destruct (ap_series _ _ _ _ _ Hap) as [(_ & _ & Hpar)|(head & prior & Eh & Ep & _ & _ & _ & Hpar & Hlegal & _)].
  - destruct (Hpar _ Hp) as (head & prow & Eh & Ep & _ & _ & Hst).
    rewrite (current_unique db handle r prow), Hst in Hclosed; [done|done|]. by exists head.
  - rewrite <-Hpar in Hp. assert (is_open (goal_state prior) = false) as Hpc.
    { apply (Hall (goal_handle row) prior). split; [by exists head|done]. }
    by rewrite (legal_next_open _ _ Hlegal) in Hpc.
Qed.

(** Away from the new version, children are as they were. *)
Lemma ap_child_of parent : goal_parent_handle row <> Some parent -> forall handle r,
  child_of db' parent handle r <-> child_of db parent handle r.
Proof.
  intros Hp handle r. unfold child_of. rewrite ap_current. split.
  - intros [[[-> ->]|[_ Hc]] Hpar]; [done|]. by split.
  - intros [Hc Hpar]. split; [|done]. right. split; [|done]. intros ->.
    destruct Hc as (head & Eh & Er).
    destruct (ap_series _ _ _ _ _ Hap) as [(Hnone & _)|(old & prior & Eo & Ep & _ & _ & _ & Hpp & _)].
    + by rewrite Hnone in Eh.
    + rewrite Eh in Eo. injection Eo as <-. rewrite Er in Ep. injection Ep as <-. congruence.
Qed.

Lemma ap_gok_closed handle r : current db' handle r -> children_closed db' handle (goal_state r).
Proof.
  intros Hcur Hclosed.
  assert (goal_parent_handle row <> Some handle /\ children_closed db handle (goal_state r)) as [Hp Hcc].
  { apply ap_current in Hcur as [[-> ->]|[Hne Hcur]].
    - split.
      + destruct ap_gok_rank as [rank Hrank]. intros Hp.
        assert (rank (goal_handle row) < rank (goal_handle row)) as ?; [|lia].
        apply (Hrank t row (goal_handle row)); [by rewrite ap_lookup, decide_True|done].
      + destruct (ap_series _ _ _ _ _ Hap) as [(_ & Hst & _)|(? & ? & _ & _ & _ & _ & _ & _ & _ & Hcc)]; [|done].
        by rewrite Hst in Hclosed.
    - split; [by eapply ap_not_under_closed|by apply (gok_closed _ Hok)]. }
  destruct (Hcc Hclosed) as [Hall Hach]. split.
  - intros h r' Hc%ap_child_of; [|done]. by eapply Hall.
  - intros Hst h r' Hc%ap_child_of; [|done]. destruct (Hach Hst _ _ Hc) as (h' & r2 & Hc' & Hst').
    exists h', r2. split; [|done]. by apply ap_child_of.
Qed.

(** The versions the series had: none, or its head and what came before. *)
Lemma ap_before : (forall u r, gd_rows db !! u = Some r -> goal_handle r <> goal_handle row) /\ goal_state row = Active \/
  exists h prior, gd_rows db !! h = Some prior /\ goal_handle prior = goal_handle row /\ (h < t)%N /\
    legal_next (goal_state prior) (goal_state row) = true /\
    forall u r, gd_rows db !! u = Some r -> goal_handle r = goal_handle row -> (u <= h)%N.
Proof.
  destruct (ap_series _ _ _ _ _ Hap) as [(Hnone & Hst & _)|(head & prior & Eh & Ep & _ & _ & Hlt & _ & Hlegal & _)].
  - left. split; [|done]. intros u r Er E. destruct (gok_newest _ Hok _ _ Er) as (h & Eh & _). by rewrite E, Hnone in Eh.
  - right. exists (ghead_t head), prior. destruct (gok_head _ Hok _ _ Eh) as (p & Ep' & Hp & _).
    rewrite Ep in Ep'. injection Ep' as <-. repeat split; try done. intros u r Er E.
    destruct (gok_newest _ Hok _ _ Er) as (h & Eh' & _ & Hle & _). rewrite E, Eh in Eh'. by injection Eh' as <-.
Qed.

Lemma ap_gok_first u r : gd_rows db' !! u = Some r ->
  (forall v other, gd_rows db' !! v = Some other -> goal_handle other = goal_handle r -> (u <= v)%N) ->
  goal_state r = Active.
Proof.
  intros Er Hleast. apply ap_new in Er as [[-> ->]|[_ Er]].
  - destruct ap_before as [[_ ?]|(h & prior & Ep & Hh & Hlt & _)]; [done|].
    assert (t <= h)%N; [|lia]. apply (Hleast h prior); [by apply ap_old|done].
  - apply (gok_first _ Hok _ _ Er). intros v other Ev. apply Hleast. by apply ap_old.
Qed.

Lemma ap_gok_next u u' r r' : succeeds db' u u' r r' -> legal_next (goal_state r) (goal_state r') = true.
Proof.
  intros (Er & Er' & Hh & Hlt & Hbetween).
  apply ap_new in Er as [[-> ->]|[Hne Er]]; apply ap_new in Er' as [[-> ->]|[Hne' Er']]; [lia| | |].
  - destruct ap_before as [[Hnone _]|(h & prior & _ & _ & Hht & _ & Hle)]; [by apply Hnone in Er'|].
    specialize (Hle _ _ Er' ltac:(done)). lia.
  - destruct ap_before as [[Hnone _]|(h & prior & Ep & Hp & Hht & Hlegal & Hle)]; [by apply Hnone in Er|].
    specialize (Hle _ _ Er ltac:(done)). destruct (ap_old _ _ Ep) as [Ep' _].
    destruct (Hbetween _ _ Ep' ltac:(congruence)) as [Hb|Hb]; [|lia].
    assert (u = h) as -> by lia. rewrite Er in Ep. by injection Ep as ->.
  - apply (gok_next _ Hok u u'). repeat split; try done. intros v other Ev. apply Hbetween. by apply ap_old.
Qed.

Lemma ap_gok_declared u r : gd_rows db' !! u = Some r ->
  exists d, gd_declarations db' !! (goal_owner r, goal_request_id r) = Some d /\ grep_goal_t d = u.
Proof.
  destruct (ap_declared _ _ _ _ _ Hap) as (d & Hd & Hnone & ->). intros [[-> ->]|[_ Er]]%ap_new.
  - exists d. by rewrite lookup_insert_eq.
  - destruct (gok_declared _ Hok _ _ Er) as (d' & Ed & ?). exists d'. split; [|done].
    rewrite lookup_insert_ne; [done|]. intros E. by rewrite E, Ed in Hnone.
Qed.

Lemma ap_gok_declaration key d : gd_declarations db' !! key = Some d ->
  exists r, gd_rows db' !! grep_goal_t d = Some r /\ key = (goal_owner r, goal_request_id r).
Proof.
  destruct (ap_declared _ _ _ _ _ Hap) as (d0 & Hd & Hnone & ->).
  destruct (decide (key = (goal_owner row, goal_request_id row))) as [->|Hne].
  - rewrite lookup_insert_eq. intros [= <-]. exists row. by rewrite Hd, ap_lookup, decide_True.
  - rewrite lookup_insert_ne by done. intros (r & Er & ->)%(gok_declaration _ Hok). exists r. split; [by apply ap_old|done].
Qed.

Lemma append_ok : goals_ok db'.
Proof.
  split; eauto using ap_gok_head, ap_gok_newest, ap_gok_fixed, ap_gok_parent, ap_gok_rank, ap_gok_closed, ap_gok_first,
    ap_gok_next, ap_gok_declared, ap_gok_declaration.
  intros u r [[-> ->]|[_ Er]]%ap_new; [apply Hap|by apply (gok_row _ Hok)].
Qed.

End appending.

(** ** Erasure *)

Lemma erase_rows owner db u r :
  gd_rows (erase_owner_goals owner db) !! u = Some r <-> gd_rows db !! u = Some r /\ goal_owner r <> owner.
Proof. cbn. by rewrite map_lookup_filter_Some. Qed.

Lemma erase_heads owner db handle head :
  gd_heads (erase_owner_goals owner db) !! handle = Some head <->
  gd_heads db !! handle = Some head /\ ghead_owner head <> owner.
Proof. cbn. by rewrite map_lookup_filter_Some. Qed.

Lemma erase_declarations owner db key d :
  gd_declarations (erase_owner_goals owner db) !! key = Some d <-> gd_declarations db !! key = Some d /\ key.1 <> owner.
Proof. cbn. by rewrite map_lookup_filter_Some. Qed.

Lemma erase_current owner db handle r : goals_ok db ->
  current (erase_owner_goals owner db) handle r <-> current db handle r /\ goal_owner r <> owner.
Proof.
  intros Hok. unfold current. setoid_rewrite erase_heads. setoid_rewrite erase_rows. split.
  - intros (head & [Eh _] & [Er Ho]). split; [by exists head|done].
  - intros [(head & Eh & Er) Ho]. exists head. destruct (gok_head _ Hok _ _ Eh) as (r' & Er' & _ & Hown).
    rewrite Er in Er'. injection Er' as <-. repeat split; try done. congruence.
Qed.

(** A child has its parent's owner. *)
Lemma child_owner db parent handle r prow : goals_ok db ->
  child_of db parent handle r -> current db parent prow -> goal_owner r = goal_owner prow.
Proof.
  intros Hok [(head & _ & Er) Hp] (ph & Eph & Epr). destruct (gok_parent _ Hok _ _ _ Er Hp) as (ph' & Eph' & Ho).
  rewrite Eph in Eph'. injection Eph' as <-. destruct (gok_head _ Hok _ _ Eph) as (p & Ep & _ & ?). congruence.
Qed.

Lemma erase_children_closed owner db handle prow state : goals_ok db -> current db handle prow -> goal_owner prow <> owner ->
  children_closed db handle state -> children_closed (erase_owner_goals owner db) handle state.
Proof.
  intros Hok Hcur Ho Hcc Hclosed. destruct (Hcc Hclosed) as [Hall Hach].
  assert (forall h r', child_of (erase_owner_goals owner db) handle h r' <-> child_of db handle h r') as Hchild.
  { intros h r'. unfold child_of. rewrite erase_current by done. split; [tauto|]. intros [Hc Hp]. split; [|done].
    split; [done|]. by rewrite (child_owner db handle h r' prow). }
  split.
  - intros h r' Hc%Hchild. by eapply Hall.
  - intros Hst h r' Hc%Hchild. destruct (Hach Hst _ _ Hc) as (h' & r2 & Hc' & Hst'). exists h', r2. split; [|done].
    by apply Hchild.
Qed.

Lemma same_series_owner db u u' r r' : goals_ok db -> gd_rows db !! u = Some r -> gd_rows db !! u' = Some r' ->
  goal_handle r = goal_handle r' -> goal_owner r = goal_owner r'.
Proof.
  intros Hok Er Er' Hh. destruct (gok_newest _ Hok _ _ Er) as (h & Eh & Ho & _).
  destruct (gok_newest _ Hok _ _ Er') as (h' & Eh' & Ho' & _). congruence.
Qed.

Lemma erase_goals_ok owner db : goals_ok db -> goals_ok (erase_owner_goals owner db).
Proof.
  intros Hok. split.
  - intros handle head [Eh Ho]%erase_heads. destruct (gok_head _ Hok _ _ Eh) as (r & Er & Hr & Hown). exists r.
    rewrite erase_rows. repeat split; try done. congruence.
  - intros u r [Er _]%erase_rows. by apply (gok_row _ Hok).
  - intros u r [Er Ho]%erase_rows. destruct (gok_newest _ Hok _ _ Er) as (head & Eh & Hown & ?). exists head.
    rewrite erase_heads. repeat split; try done; [congruence|tauto|tauto].
  - intros u u' r r' [Er _]%erase_rows [Er' _]%erase_rows. by eapply (gok_fixed _ Hok).
  - intros u r parent [Er Ho]%erase_rows Hp. destruct (gok_parent _ Hok _ _ _ Er Hp) as (head & Eh & Hown). exists head.
    rewrite erase_heads. repeat split; try done. congruence.
  - destruct (gok_rank _ Hok) as [rank Hrank]. exists rank. intros u r parent [Er _]%erase_rows. by eapply Hrank.
  - intros handle r [Hcur Ho]%erase_current; [|done]. eapply erase_children_closed; eauto. by apply (gok_closed _ Hok).
  - intros u r [Er Ho]%erase_rows Hleast. apply (gok_first _ Hok _ _ Er). intros v other Ev Hh. apply (Hleast v other); [|done].
    apply erase_rows. split; [done|]. by rewrite (same_series_owner db v u other r).
  - intros u u' r r' ([Er Ho]%erase_rows & [Er' _]%erase_rows & Hh & Hlt & Hb). apply (gok_next _ Hok u u').
    repeat split; try done. intros v other Ev Hv. apply (Hb v other); [|done]. apply erase_rows. split; [done|].
    by rewrite (same_series_owner db v u other r).
  - intros u r [Er Ho]%erase_rows. destruct (gok_declared _ Hok _ _ Er) as (d & Ed & ?). exists d.
    by rewrite erase_declarations.
  - intros key d [Ed Hk]%erase_declarations. destruct (gok_declaration _ Hok _ _ Ed) as (r & Er & ->). exists r.
    by rewrite erase_rows.
Qed.
