(* ===== verification/GoalTransactions.v ===== *)
(** * Goal transactions

    What holds of every transaction at every point of a schedule, and of the
    tables: locks are exclusive, a locked head stays, and a commit appends one
    legal version ([append_ok]). *)

From S2P Require Import Prelude Ids Bytes GroupForest Text Json Publication Errors OwnerScope Authz Groups MemoryUuid.
From S2P Require Import Idempotency MemoryStore Admission MemoryLifecycle MemorySeries GoalWrite GoalStore GoalSteps.
From S2P Require Import GoalTree.

Section transactions.
Context `{PgText, Digest, UuidText, Jsonb}.

(** ** What a write leaves *)

Lemma ingest_erased env s owner writer schema identity tables m m' :
  ingest_unpinned_fact_at env s owner writer schema identity tables m = Some (Ok m') -> mem_erased m' = mem_erased m.
Proof.
  unfold ingest_unpinned_fact_at. cbv zeta. intros E.
  destruct (prepare_memory_admission_at _ _ _ _ _ _) as [[[prepared|] g]|]; [|discriminate E..]. injection E as E.
  destruct (claim_prepared_memory_admission _ _ _) as [[m1 prepared1]|] eqn:Ec; [|discriminate E].
  apply claim_shape in Ec. destruct (materialize_prepared_memory_admission _ _ _ _ _ _) as [[m2 o]|] eqn:Em; [|discriminate E].
  injection E as ->. destruct prepared1 as [o1|p].
  - injection Em as <- _. by subst.
  - destruct Ec as (_ & Hsame & Hk). unfold same_but_keys in Hsame.
    apply materialize_shape in Em as (_ & _ & row & _ & Hadm).
    by destruct (Hadm m ltac:(by rewrite Hsame) ltac:(by rewrite Hsame) ltac:(by rewrite Hsame) Hk) as [_ _ _ _ _ _ [-> _] _ _].
Qed.

(** The goal tables and the witnesses are the same. *)
Definition same_goals (db db' : GoalDb) : Prop :=
  gd_rows db' = gd_rows db /\ gd_heads db' = gd_heads db /\ gd_declarations db' = gd_declarations db /\
  mem_erased (gd_memory db') = mem_erased (gd_memory db).

Lemma write_act_erased env s p identity m m' :
  ingest_write_act_at env s p identity m = Some (Ok m') -> mem_erased m' = mem_erased m.
Proof. destruct identity; [apply ingest_erased|by intros [= ->]]. Qed.

Lemma lifecycle_same env s p db db' : persist_goal_lifecycle_rows env s p db = Some (Ok db') -> same_goals db db'.
Proof.
  unfold persist_goal_lifecycle_rows. intros E.
  destruct (ingest_write_act_at _ _ _ (pg_write_act_identity p) _) as [[m|]|] eqn:E1; [|discriminate E..].
  destruct (ingest_write_act_at _ _ _ (pg_close_fact_identity p) _) as [[m'|]|] eqn:E2; [|discriminate E..].
  injection E as <-. apply write_act_erased in E1, E2. repeat split; cbn; congruence.
Qed.

Lemma change_same env s p change db db' : persist_goal_change_fact env s p change db = Some (Ok db') -> same_goals db db'.
Proof.
  unfold persist_goal_change_fact. intros E. destruct (pg_change_fact_identity p) as [identity|]; [|by injection E as <-].
  cbv zeta in E. destruct (_ <? 2 ^ 32)%N; [|discriminate E]. destruct (_ =? 0)%N; [discriminate E|].
  destruct (ingest_unpinned_fact_at _ _ _ _ _ _ _ _) as [[m|]|] eqn:Em; [|discriminate E..].
  destruct (ge_capture _ _); [|discriminate E]. injection E as <-. apply ingest_erased in Em. by repeat split.
Qed.

(** The head of the series, before and after. *)
Lemma advance_goal_shape s p db db' : advance_goal_head s p db = Ok db' ->
  goal_writes s (OwnerId_0 (pg_owner p)) = true /\
  (exists schema, db' = set_goal_heads (<[pg_handle p := mk_GoalHeadRow schema (OwnerId_0 (pg_owner p)) (pg_t p)]>
                                          (gd_heads db)) db) /\
  (gd_heads db !! pg_handle p = None \/
   exists head, gd_heads db !! pg_handle p = Some head /\ pg_fresh_handle p = false /\
     ghead_owner head = OwnerId_0 (pg_owner p) /\ pg_expected_head_t p = Some (ghead_t head)).
Proof.
  unfold advance_goal_head. cbv zeta. set (head := mk_GoalHeadRow _ _ _). intros E.
  assert (forall db', insert_goal_head s (pg_handle p) head db = Ok db' ->
    goal_writes s (OwnerId_0 (pg_owner p)) = true /\ gd_heads db !! pg_handle p = None /\
    db' = set_goal_heads (<[pg_handle p := head]> (gd_heads db)) db) as Hins.
  { unfold insert_goal_head. clear E. intros d E. do 3 require_next E. injection E as <-.
    by apply is_some_None in Hreq0. }
  destruct (pg_fresh_handle p).
  { apply pg_ok_Ok, Hins in E as (? & ? & ->). split; [done|]. split; [by eexists|by left]. }
  destruct (pg_ok _) as [[d []]|] eqn:Eu; [|discriminate E..]. injection E as <-. apply pg_ok_Ok in Eu.
  unfold upsert_goal_head in Eu. destruct (gd_heads db !! pg_handle p) as [held|] eqn:Eh.
  - do 2 require_next Eu. destruct (_ && _) eqn:Ec in Eu; [|discriminate Eu]. injection Eu as <-.
    apply andb_prop in Ec as [[_ Ho%N.eqb_eq]%andb_prop Hexp%bool_decide_eq_true]. cbn in *.
    split; [done|]. split; [rewrite Ho; by eexists|]. right. by exists held.
  - destruct (insert_goal_head _ _ _ _) as [d'|]; [|discriminate Eu]. injection Eu as <-.
    destruct (Hins _ eq_refl) as (? & _ & ->). split; [done|]. split; [by eexists|by left].
Qed.

Lemma admitted_t_None owner request_id db t row :
  admitted_t owner request_id db = None -> gd_rows db !! t = Some row ->
  (goal_owner row, goal_request_id row) <> (owner, request_id).
Proof.
  unfold admitted_t. intros E Et [= Ho Hr]. destruct (find _ _) as [entry|] eqn:Ef; [discriminate E|].
  assert ((t, row) ∈ map_to_list (gd_rows db)) as Hin by by apply elem_of_map_to_list.
  apply list_elem_of_In in Hin. apply (find_none _ _ Ef) in Hin. cbn in Hin.
  by rewrite Ho, Hr, N.eqb_refl, bool_decide_eq_true_2 in Hin.
Qed.

Lemma insert_goal_shape s t draft db db' : insert_goal s t draft db = Ok db' ->
  gd_rows db !! t = None /\ mem_erased (gd_memory db) !! t = None /\
  exists schema, db' = set_goal_rows (<[t := draft schema]> (gd_rows db)) db.
Proof.
  unfold insert_goal. cbv zeta. intros E. destruct (goal_no_later_after_terminal _ _ _ _); [|discriminate E].
  destruct (goal_parent_fixed _ _ _); [|discriminate E].
  destruct (goal_pin_target_checks _ _ _) eqn:Ep; [|discriminate E].
  destruct (ok_or _ _) as [schema|]; [|discriminate E]. do 5 require_next E. injection E as <-.
  unfold goal_pin_target_checks in Ep. cbv zeta in Ep. do 2 require_next Ep.
  apply andb_prop in Hreq5 as [He%is_some_None _]. apply is_some_None in Hreq1. repeat split; [done..|by eexists].
Qed.

(** A write that committed. *)
Record persisted (s : GoalSession) (insert : GoalInsert) (p : PreparedGoalWrite) (declaration : ReplayDeclaration)
    (db db' : GoalDb) : Prop := mk_persisted {
  per_locked : lock_and_validate_prepared_goal_write s p db = Ok tt;
  per_writes : goal_writes s (OwnerId_0 (pg_owner p)) = true;
  per_rows : exists schema, gd_rows db' = <[pg_t p := goal_revision p schema]> (gd_rows db);
  per_fresh : gd_rows db !! pg_t p = None /\ mem_erased (gd_memory db) !! pg_t p = None;
  per_erased : mem_erased (gd_memory db') = mem_erased (gd_memory db);
  per_heads : exists schema,
    gd_heads db' = <[pg_handle p := mk_GoalHeadRow schema (OwnerId_0 (pg_owner p)) (pg_t p)]> (gd_heads db);
  per_held : gd_heads db !! pg_handle p = None \/
    exists head, gd_heads db !! pg_handle p = Some head /\ pg_fresh_handle p = false /\
      ghead_owner head = OwnerId_0 (pg_owner p) /\ pg_expected_head_t p = Some (ghead_t head);
  per_declared : let key := (OwnerId_0 (pg_owner p), gc_request_id (pg_command p)) in
    gd_declarations db !! key = None /\
    gd_declarations db' = <[key := mk_GoalReplayRow (pg_t p) declaration (in_edge_count insert)]> (gd_declarations db);
}.

Lemma prepared_write_shape env s p db db' : persist_prepared_goal_write env s p db = Some (Ok db') ->
  lock_and_validate_prepared_goal_write s p db = Ok tt /\
  exists db1 db2, same_goals db db1 /\ advance_goal_head s p db1 = Ok db2 /\ insert_goal_revision s p db2 = Ok db'.
Proof.
  unfold persist_prepared_goal_write. intros E.
  destruct (lock_and_validate_prepared_goal_write s p db) as [[]|]; [|discriminate E].
  destruct (validate_goal_targets_live _ _ _ _ _); [|discriminate E].
  destruct (persist_goal_lifecycle_rows _ _ _ _) as [[db1|]|] eqn:E1; [|discriminate E..].
  destruct (advance_goal_head _ _ _) as [db2|] eqn:E2; [|discriminate E]. injection E as E.
  split; [done|]. exists db1, db2. split; [by eapply lifecycle_same|done].
Qed.

Lemma record_shape s declaration outcome db db' : record_goal_replay_declaration s declaration outcome db = Ok db' ->
  exists row, let key := (goal_owner row, goal_request_id row) in
    gd_rows db !! GoalId_0 (gw_goal_id outcome) = Some row /\ gd_declarations db !! key = None /\
    db' = set_goal_declarations
            (<[key := mk_GoalReplayRow (GoalId_0 (gw_goal_id outcome)) declaration (gw_edge_count outcome)]>
               (gd_declarations db)) db.
Proof.
  unfold record_goal_replay_declaration. cbv zeta. intros E.
  destruct (ok_or _ _) as [row|] eqn:Er; [|discriminate E]. apply ok_or_Ok in Er.
  destruct (_ <? _)%N; [|discriminate E]. destruct (pg_ok _); [|discriminate E].
  destruct (pg_ok (require (negb _) _)) eqn:En in E; [|discriminate E]. injection E as <-.
  apply pg_ok_Ok, require_Ok, is_some_None in En. exists row. split; [|done].
  unfold select_goal in Er. destruct (gd_rows db !! _) as [r|]; [|discriminate Er].
  destruct (goal_reads _ _); [|discriminate Er]. by injection Er as ->.
Qed.

Lemma persist_shape env s insert p declaration db db' outcome :
  persist_goal env s insert p declaration db = Some (Ok (db', outcome)) -> persisted s insert p declaration db db' /\
  outcome = mk_GoalWriteOutcome (mk_GoalId (pg_t p)) (mk_GoalHandle (pg_handle p)) (in_edge_count insert) false.
Proof.
  unfold persist_goal. intros E. destruct (ensure_owner_row _ _ _) as [[groups o]|]; [|discriminate E].
  destruct (persist_prepared_goal_write _ _ _ _) as [[db1|]|] eqn:E1; [|discriminate E..].
  destruct (ge_sidecar _ _ _ _); [|discriminate E].
  destruct (persist_goal_change_fact _ _ _ _ _) as [[db2|]|] eqn:E2; [|discriminate E..]. cbv zeta in E.
  destruct (record_goal_replay_declaration _ _ _ _) as [db3|] eqn:E3; [|discriminate E]. injection E as <- <-.
  split; [|done]. apply prepared_write_shape in E1 as (Hlock & d1 & d2 & (R1 & H1' & D1 & M1) & Ha & Hi).
  apply advance_goal_shape in Ha as (Hw & (schema & ->) & Hheld). apply pg_ok_Ok, insert_goal_shape in Hi as (Hnone & Her & schema' & ->).
  apply change_same in E2 as (R2 & H2' & D2 & M2). apply record_shape in E3 as (row & Erow & Edecl & ->). cbn in *.
  rewrite R1, H1', D1, M1 in *. rewrite R2, lookup_insert_eq in Erow. injection Erow as <-. rewrite D2 in *. cbn in *.
  split; cbn; try done; [by exists schema'|by exists schema].
Qed.

(** ** What a transaction relies on *)

(** The version [t] is or was this one. *)
Definition seen (db : GoalDb) (t : Uuid) (row : GoalRow) : Prop :=
  gd_rows db !! t = Some row \/ (gd_rows db !! t = None /\ is_Some (mem_erased (gd_memory db) !! t)).

(** The transaction holds the lock on the series' head, and its owner's fence. *)
Definition holds_head (db : GoalDb) (tx : GoalTx) (handle : Uuid) (row : GoalRow) (t : Uuid) : Prop :=
  exists head, gd_heads db !! handle = Some head /\ ghead_t head = t /\ gd_rows db !! t = Some row /\
    goal_owner row = ghead_owner head /\ t ∈ tx_targets tx /\ tx_fence tx = Some (ghead_owner head).

(** A successor closes its series only behind the guard of its new state. *)
Definition guard_fits (guard : PostLockGuard) (state : GoalState) : Prop :=
  match state with
  | Active | Paused => True
  | Achieved => guard = GuardChildrenClosed
  | Abandoned => guard = GuardNoOpenChildren
  end.

Record insert_ok (db : GoalDb) (insert : GoalInsert) : Prop := mk_insert_ok {
  io_store : (in_store_number insert < 2 ^ 16)%N;
  io_dependencies : NoDup (GoalId_0 <$> top_dependencies (dr_topology (in_draft insert)));
  io_evidence : NoDup (evidence_declaration (top_evidence (dr_topology (in_draft insert))));
  io_state : match in_expected_prior insert with
             | None => dr_state (in_draft insert) = Active
             | Some prior => exists row, seen db (GoalId_0 prior) row /\
                 goal_owner row = OwnerId_0 (dr_owner (in_draft insert)) /\
                 legal_next (goal_state row) (dr_state (in_draft insert)) = true /\
                 guard_fits (in_guard insert) (dr_state (in_draft insert))
             end;
}.

(** The version a command supersedes. *)
Definition prior_of (command : GoalCommand) : option GoalId :=
  match command with
  | CreateGoal _ => None
  | TransitionGoal req => Some (trans_prior_goal_id req)
  | AchieveGoal req => Some (ach_prior_goal_id req)
  | ModifyGoal req => Some (mod_prior_goal_id req)
  end.

(** The declaration and the write are those of the transaction's command. *)
Definition declared (tx : GoalTx) (declaration : ReplayDeclaration) : Prop :=
  exists command, tx_request tx = OneGoal command /\ GoalCommand.declaration command = Ok declaration.

Record of_command (command : GoalCommand) (insert : GoalInsert) : Prop := mk_of_command {
  oc_prior : in_expected_prior insert = prior_of command;
  oc_owner : dr_owner (in_draft insert) = GoalCommand.owner command;
  oc_request_id : dr_request_id (in_draft insert) = GoalCommand.request_id command;
  oc_change : in_expected_prior insert = None -> in_change insert = ChangeSet;
}.

Definition commanded (tx : GoalTx) (declaration : ReplayDeclaration) (insert : GoalInsert) : Prop :=
  exists command, tx_request tx = OneGoal command /\ GoalCommand.declaration command = Ok declaration /\
    of_command command insert.

(** A child of the goal of [req]. *)
Definition child_goal (req : DecomposeGoalAtomicRequest) (insert : GoalInsert) : Prop :=
  in_expected_prior insert = None /\ in_change insert = ChangeDecomposeChild (dec_parent_goal_id req) /\
  dr_owner (in_draft insert) = dec_owner req /\
  dec_parent_goal_id req ∈ top_dependencies (dr_topology (in_draft insert)).

Record prepared_ok (db : GoalDb) (insert : GoalInsert) (p : PreparedGoalWrite) : Prop := mk_prepared_ok {
  po_owner : pg_owner p = dr_owner (in_draft insert);
  po_t : id_ok (pg_t p);
  po_prior : pg_expected_prior_t p = GoalId_0 <$> in_expected_prior insert;
  po_later : forall h, pg_expected_head_t p = Some h -> (h < pg_t p)%N;
  po_command : gc_state (pg_command p) = dr_state (in_draft insert) /\
    gc_dependency_t (pg_command p) = (GoalId_0 <$> top_dependencies (dr_topology (in_draft insert))) /\
    gc_evidence_t (pg_command p) = evidence_declaration (top_evidence (dr_topology (in_draft insert))) /\
    gc_request_id (pg_command p) = dr_request_id (in_draft insert);
  po_targets : forall t, pg_expected_prior_t p = Some t \/ t ∈ gc_dependency_t (pg_command p) -> t ∈ pg_targets p;
  po_series : match in_expected_prior insert, in_change insert with
    | Some prior, _ => pg_fresh_handle p = false /\ exists row, seen db (GoalId_0 prior) row /\
        pg_handle p = goal_handle row /\ gc_parent_handle (pg_command p) = goal_parent_handle row
    | None, ChangeDecomposeChild parent => pg_fresh_handle p = true /\ exists row, seen db (GoalId_0 parent) row /\
        gc_parent_handle (pg_command p) = Some (goal_handle row)
    | None, _ => pg_fresh_handle p = true /\ gc_parent_handle (pg_command p) = None
    end;
}.

(** Under the locks, and past the guard. *)
Record locked_ok (db : GoalDb) (tx : GoalTx) (declaration : ReplayDeclaration) (insert : GoalInsert)
    (p : PreparedGoalWrite) : Prop := mk_locked_ok {
  lo_insert : insert_ok db insert;
  lo_command : commanded tx declaration insert;
  lo_prepared : prepared_ok db insert p;
  lo_targets : forall t, t ∈ pg_targets p -> t ∈ tx_targets tx;
  lo_head : forall prior, in_expected_prior insert = Some prior ->
    goal_writes (tx_session tx) (OwnerId_0 (dr_owner (in_draft insert))) = true /\
    exists row, holds_head db tx (pg_handle p) row (GoalId_0 prior);
}.

Definition guarded (db : GoalDb) (insert : GoalInsert) (p : PreparedGoalWrite) : Prop :=
  is_Some (in_expected_prior insert) -> children_closed db (pg_handle p) (dr_state (in_draft insert)).

Record child_ok (db : GoalDb) (tx : GoalTx) (req : DecomposeGoalAtomicRequest) (child : PreparedChild) : Prop :=
  mk_child_ok {
  co_insert : insert_ok db (pc_insert child);
  co_child : child_goal req (pc_insert child);
  co_prepared : forall p, pc_prepared child = Some p ->
    prepared_ok db (pc_insert child) p /\ tx_fence tx = Some (OwnerId_0 (dec_owner req));
}.

(** The parent's current version, Active and locked. *)
Definition parent_held (db : GoalDb) (tx : GoalTx) (req : DecomposeGoalAtomicRequest) : Prop :=
  exists row, holds_head db tx (goal_handle row) row (GoalId_0 (dec_parent_goal_id req)) /\ goal_state row = Active.

Definition pc_ok (db : GoalDb) (tx : GoalTx) (pc : GoalPc) : Prop :=
  match pc with
  | Probe | CheckParent _ _ | ReplayChildren _ _ | Answered _ => True
  | Evidence declaration | RequireReplay declaration => declared tx declaration
  | Plan declaration evidence => declared tx declaration /\ NoDup evidence
  | LockRequest declaration insert _ | Prepare declaration insert _ =>
      insert_ok db insert /\ commanded tx declaration insert
  | Lock declaration insert _ p => insert_ok db insert /\ commanded tx declaration insert /\ prepared_ok db insert p /\
      tx_fence tx = Some (OwnerId_0 (dr_owner (in_draft insert)))
  | Guard declaration insert _ p => locked_ok db tx declaration insert p
  | Persist declaration insert _ p => locked_ok db tx declaration insert p /\ guarded db insert p
  | PlanChild req _ done => Forall (child_ok db tx req) done
  | LockChild req insert _ _ done | PrepareChild req insert _ _ done =>
      Forall (child_ok db tx req) done /\ insert_ok db insert /\ child_goal req insert
  | LockChildren req children => Forall (child_ok db tx req) children /\ Forall (fun c => is_Some (pc_prepared c)) children
  | PersistChildren req children => Forall (child_ok db tx req) children /\ (children = [] \/ parent_held db tx req) /\
      forall t, t ∈ children_targets children -> t ∈ tx_targets tx
  | Panicked => False
  end.

Record tx_ok (db : GoalDb) (tx : GoalTx) : Prop := mk_tx_ok {
  to_store : (tx_store_number tx < 2 ^ 16)%N;
  to_request : request_ok (tx_request tx);
  to_pc : pc_ok db tx (tx_pc tx);
}.

(** ** What others do to it *)

Definition later (db db' : GoalDb) : Prop := forall t row, seen db t row -> seen db' t row.

Record undisturbed (tx : GoalTx) (db db' : GoalDb) : Prop := mk_undisturbed {
  un_seen : later db db';
  un_head handle row t : holds_head db tx handle row t -> holds_head db' tx handle row t;
  un_closed handle row t state : holds_head db tx handle row t ->
    children_closed db handle state -> children_closed db' handle state;
}.

Lemma undisturbed_refl tx db : undisturbed tx db db.
Proof. split; [by intros t row|done..]. Qed.

Lemma undisturbed_trans tx db db1 db2 : undisturbed tx db db1 -> undisturbed tx db1 db2 -> undisturbed tx db db2.
Proof. intros [S1 H1' C1] [S2 H2' C2]. split; [intros t row ?; by apply S2, S1|eauto..]. Qed.

Lemma insert_ok_later db db' insert : later db db' -> insert_ok db insert -> insert_ok db' insert.
Proof.
  intros Hun [Hs Hd He Hst]. split; try done. destruct (in_expected_prior insert) as [prior|]; [|done].
  destruct Hst as (row & Hseen & ?). exists row. split; [by apply Hun|done].
Qed.

Lemma prepared_ok_later db db' insert p : later db db' -> prepared_ok db insert p -> prepared_ok db' insert p.
Proof.
  intros Hun [Ho Ht Hp Hl Hc Htg Hs]. split; try done. destruct (in_expected_prior insert) as [prior|].
  - destruct Hs as (? & row & Hseen & ?). split; [done|]. exists row. split; [by apply Hun|done].
  - destruct (in_change insert); try done. destruct Hs as (? & row & Hseen & ?). split; [done|]. exists row.
    split; [by apply Hun|done].
Qed.

Lemma locked_ok_later tx db db' declaration insert p : undisturbed tx db db' ->
  locked_ok db tx declaration insert p -> locked_ok db' tx declaration insert p.
Proof.
  intros Hun [Hi Ho Hp Ht Hh]. split; eauto using insert_ok_later, prepared_ok_later, un_seen.
  intros prior Hprior. destruct (Hh _ Hprior) as [? [row ?]]. split; [done|]. exists row. by eapply un_head.
Qed.

Lemma child_ok_later tx db db' req child : later db db' -> child_ok db tx req child -> child_ok db' tx req child.
Proof.
  intros Hun [Hi Hc Hp]. split; eauto using insert_ok_later. intros p Ep. destruct (Hp _ Ep).
  split; [by eapply prepared_ok_later|done].
Qed.

Lemma children_ok_later tx db db' req children : later db db' ->
  Forall (child_ok db tx req) children -> Forall (child_ok db' tx req) children.
Proof. intros Hun. apply Forall_impl. intros c. by apply child_ok_later. Qed.

Lemma parent_held_later tx db db' req : undisturbed tx db db' -> parent_held db tx req -> parent_held db' tx req.
Proof. intros Hun (row & Hh & ?). exists row. split; [by eapply un_head|done]. Qed.

Lemma tx_ok_later tx db db' : undisturbed tx db db' -> tx_ok db tx -> tx_ok db' tx.
Proof.
  intros Hun [Hs Hr Hpc]. pose proof (un_seen _ _ _ Hun) as Hlater. split; [done..|]. destruct (tx_pc tx); cbn [pc_ok] in *;
    repeat match goal with Hx : _ /\ _ |- _ => destruct Hx end;
    eauto 6 using insert_ok_later, prepared_ok_later, locked_ok_later, children_ok_later.
  - split; [by eapply locked_ok_later|]. intros Hs'. destruct (in_expected_prior insert) as [prior|] eqn:Ep; [|by destruct Hs'].
    destruct (lo_head _ _ _ _ _ H3 _ Ep) as [_ [row Hh]]. eapply un_closed; [done|exact Hh|]. apply H4. rewrite Ep. by eexists.
  - split; [by eapply children_ok_later; [apply Hun|]|]. split; [|done]. destruct H4; [by left|right]. by eapply parent_held_later.
Qed.

(** A write of another transaction. *)
Section writing.
Context (locks : list Uuid) (db db' : GoalDb) (t : Uuid) (row : GoalRow) (tx : GoalTx).
Context (Hok : goals_ok db) (Hap : appended locks db db' t row).

Lemma append_seen : later db db'.
Proof.
  intros u r [Hu|[Hnone Her]]; [left; by eapply ap_old|]. right. rewrite (ap_erased _ _ _ _ _ Hap). split; [|done].
  rewrite (ap_lookup _ _ _ _ _ Hap), decide_False; [done|]. intros ->.
  rewrite (ap_unerased _ _ _ _ _ Hap) in Her. by destruct Her.
Qed.

Lemma append_holds handle r u :
  (forall head, gd_heads db !! goal_handle row = Some head -> ghead_t head ∉ tx_targets tx) ->
  holds_head db tx handle r u -> holds_head db' tx handle r u.
Proof.
  intros Hfree (head & Eh & Ht & Er & Hrest). exists head. destruct (ap_old _ _ _ _ _ Hap _ _ Er) as [Er' _].
  split; [|done]. rewrite (ap_head_lookup _ _ _ _ _ Hap); [done|]. intros ->.
  apply (Hfree _ Eh). rewrite Ht. apply Hrest.
Qed.

Lemma append_undisturbed : (forall u, u ∈ locks -> u ∉ tx_targets tx) -> undisturbed tx db db'.
Proof.
  intros Hdisj. split; [apply append_seen| |].
  - intros handle r u. apply append_holds. intros head Eh.
    destruct (ap_series _ _ _ _ _ Hap) as [(Hnone & _)|(h & prior & Eh' & _ & Hin & _)]; [by rewrite Hnone in Eh|].
    rewrite Eh in Eh'. injection Eh' as <-. by apply Hdisj.
  - intros handle r u state (head & Eh & Ht & Er & Ho & Hin & _) Hcc Hclosed.
    destruct (Hcc Hclosed) as [Hall Hach].
    assert (goal_parent_handle row <> Some handle) as Hp.
    { intros Hp. destruct (ap_series _ _ _ _ _ Hap) as [(_ & _ & Hpar)|(h & prior & Eh' & Ep & _ & _ & _ & Hpar & Hlegal & _)].
      - destruct (Hpar _ Hp) as (ph & prow & Eph & _ & Hl & _). rewrite Eh in Eph. injection Eph as <-.
        apply (Hdisj _ Hl). by rewrite Ht.
      - rewrite <-Hpar in Hp. apply legal_next_open in Hlegal.
        rewrite (Hall (goal_handle row) prior) in Hlegal; [done|]. split; [by exists h|done]. }
    pose proof (ap_child_of _ _ _ _ _ Hok Hap _ Hp) as Hchild. split.
    + intros h r' Hc%Hchild. by eapply Hall.
    + intros Hst h r' Hc%Hchild. destruct (Hach Hst _ _ Hc) as (h' & r2 & Hc' & ?). exists h', r2. split; [|done].
      by apply Hchild.
Qed.

End writing.

(** Another owner's erasure, and the memory verbs. *)
Lemma erase_undisturbed owner db tx : goals_ok db -> tx_fence tx <> Some owner ->
  undisturbed tx db (erase_owner_goals owner db).
Proof.
  intros Hok Hfence. split.
  - intros u r [Hu|[Hnone Her]].
    + destruct (decide (goal_owner r = owner)) as [Ho|Ho]; [|left; by apply erase_rows]. right. split.
      * apply eq_None_not_Some. intros [r' Hr']. apply erase_rows in Hr' as [Hr' ?]. rewrite Hu in Hr'. by injection Hr' as <-.
      * cbn. apply lookup_union_is_Some. left. rewrite lookup_fmap. apply fmap_is_Some. exists r.
        by apply map_lookup_filter_Some.
    + right. split.
      * apply eq_None_not_Some. intros [r' Hr']. apply erase_rows in Hr' as [Hr' _]. by rewrite Hnone in Hr'.
      * cbn. destruct Her as [k Hk]. apply lookup_union_is_Some. right. by exists k.
  - intros handle r u (head & Eh & Ht & Er & Ho & Hin & Hf). exists head.
    assert (ghead_owner head <> owner) by congruence. rewrite erase_heads, erase_rows. repeat split; try done. congruence.
  - intros handle r u state (head & Eh & Ht & Er & Ho & Hin & Hf). apply (erase_children_closed _ _ _ r); [done| |congruence].
    exists head. by rewrite Ht.
Qed.

Lemma elsewhere_ok m db : goals_ok db -> goals_ok (set_goal_memory m db).
Proof. intros [? ? ? ? ? ? ? ? ? ? ?]. by split. Qed.

Lemma elsewhere_undisturbed m db tx :
  map_Forall (fun t _ => is_Some (mem_erased m !! t)) (mem_erased (gd_memory db)) -> undisturbed tx db (set_goal_memory m db).
Proof.
  intros Hm. split; [|done..]. intros u r [Hu|[Hnone [k Hk]]]; [by left|]. right. split; [done|]. by apply (Hm u k).
Qed.

(** ** A committed write appends a version *)

Lemma seen_live db t row row' : seen db t row -> gd_rows db !! t = Some row' -> row = row'.
Proof. intros [E|[E _]]; congruence. Qed.

Lemma locked_head s p db : lock_and_validate_prepared_goal_write s p db = Ok tt ->
  select_goal_head_for_update s (pg_handle p) db = pg_expected_head_t p /\
  (is_Some (pg_expected_prior_t p) -> pg_expected_head_t p = pg_expected_prior_t p).
Proof.
  unfold lock_and_validate_prepared_goal_write. cbv zeta. intros E.
  destruct (is_some (pg_expected_prior_t p) && _) eqn:E1; [discriminate E|].
  case_bool_decide as Hh; [|discriminate E]. split; [done|]. intros Hp. apply is_some_Some in Hp. rewrite Hp in E1. cbn in E1.
  case_bool_decide; [congruence|discriminate E1].
Qed.

Lemma for_update_head s handle db t : select_goal_head_for_update s handle db = Some t ->
  exists head, gd_heads db !! handle = Some head /\ ghead_t head = t /\ goal_writes s (ghead_owner head) = true.
Proof.
  unfold select_goal_head_for_update. destruct (gd_heads db !! handle) as [head|]; [|done].
  destruct (goal_writes _ _) eqn:Hw; [|done]. intros [= <-]. by exists head.
Qed.

Lemma persisted_appended s insert p declaration db db' locks :
  goals_ok db -> insert_ok db insert -> prepared_ok db insert p -> persisted s insert p declaration db db' ->
  (forall t, t ∈ pg_targets p -> t ∈ locks) -> guarded db insert p ->
  (forall parent, in_expected_prior insert = None -> in_change insert = ChangeDecomposeChild parent ->
     GoalId_0 parent ∈ locks /\ exists head row, gd_heads db !! goal_handle row = Some head /\ ghead_t head = GoalId_0 parent /\
       gd_rows db !! GoalId_0 parent = Some row /\ ghead_owner head = OwnerId_0 (pg_owner p) /\ goal_state row = Active) ->
  exists schema, appended locks db db' (pg_t p) (goal_revision p schema).
Proof.
  intros Hok Hi Hp Hper Hlocks Hguard Hparent. destruct (per_rows _ _ _ _ _ _ Hper) as [schema Hrows]. exists schema.
  destruct (po_command _ _ _ Hp) as (Hst & Hd & He & Hr). destruct (per_fresh _ _ _ _ _ _ Hper).
  split; try done; cbn.
  - by eapply per_erased.
  - by eapply per_heads.
  - destruct (per_declared _ _ _ _ _ _ Hper). eexists. split; [|done]. done.
  - rewrite Hd, He. split; [by eapply po_t|]. split; [by eapply io_dependencies|by eapply io_evidence].
  - rewrite Hst. destruct (locked_head _ _ _ (per_locked _ _ _ _ _ _ Hper)) as [Hhead Hprior].
    pose proof (po_series _ _ _ Hp) as Hseries. pose proof (io_state _ _ Hi) as Hstate.
    destruct (in_expected_prior insert) as [prior|] eqn:Eprior.
    + right. destruct Hseries as (Hfresh & row & Hseen & Hh & Hpar). destruct Hstate as (row' & Hseen' & Ho & Hlegal & Hfits).
      rewrite (po_prior _ _ _ Hp), Eprior in Hprior. cbn in Hprior. rewrite Hprior in Hhead by (by eexists).
      apply for_update_head in Hhead as (head & Eh & Ht & _). destruct (gok_head _ Hok _ _ Eh) as (live & El & Hlh & Hlo).
      rewrite Ht in El. rewrite (seen_live _ _ _ _ Hseen El), (seen_live _ _ _ _ Hseen' El) in *.
      exists head, live. rewrite Ht. split_and!; try done.
      * apply Hlocks, (po_targets _ _ _ Hp). left. by rewrite (po_prior _ _ _ Hp), Eprior.
      * rewrite (po_owner _ _ _ Hp). congruence.
      * eapply (po_later _ _ _ Hp). by apply Hprior; eexists.
      * apply Hguard. rewrite Eprior. by eexists.
    + left. assert (pg_fresh_handle p = true) as Hfresh by (destruct (in_change insert); apply Hseries).
      split; [|split; [done|]].
      * destruct (per_held _ _ _ _ _ _ Hper) as [?|(? & _ & Hf & _)]; [done|]. by rewrite Hfresh in Hf.
      * intros parent Epar. destruct (in_change insert) eqn:Ec; destruct Hseries as [_ Hs]; try congruence.
        destruct Hs as (row & Hseen & Hpar). destruct (Hparent _ eq_refl eq_refl) as (Hin & head & prow & Eh & Ht & Er & Ho & Ha).
        rewrite (seen_live _ _ _ _ Hseen Er), Epar in Hpar. injection Hpar as ->. exists head, prow. by rewrite Ht.
Qed.

(** ** Preparation *)

Lemma draw_goal_ok env i store_number g t g' : goal_draws_ok env -> generator_ok g -> (store_number < 2 ^ 16)%N ->
  draw_goal_uuid env i store_number g = Some (t, g') -> generator_ok g' /\ id_ok t.
Proof.
  unfold draw_goal_uuid, new_memory_uuid. intros Henv Hg Hs E. destruct (Henv i) as [Hlen Hok].
  destruct (ge_draw env i) as [now random]. destruct (mint_memory_uuid _ _ _ _ _) as [[id g1]|] eqn:Em; [|discriminate E].
  destruct id as [id|]; [|discriminate E]. injection E as <- <-.
  apply mint_ok in Em as [Hg' Hid]; try done. split; [done|]. by apply Hid.
Qed.

Lemma reserve_ok env i store_number g identity g' : goal_draws_ok env -> generator_ok g -> (store_number < 2 ^ 16)%N ->
  reserve_fact_identity env i store_number g = Some (identity, g') -> generator_ok g'.
Proof.
  unfold reserve_fact_identity. intros Henv Hg Hs E.
  destruct (draw_goal_uuid env i _ _) as [[t g1]|] eqn:E1; [|discriminate E].
  destruct (draw_goal_uuid env (S i) _ _) as [[h g2]|] eqn:E2; [|discriminate E]. injection E as <- <-.
  apply draw_goal_ok in E1 as [? _]; [|done..]. by apply draw_goal_ok in E2 as [? _].
Qed.

Lemma goal_t_ok env i store_number floor g r g' : goal_draws_ok env -> generator_ok g -> (store_number < 2 ^ 16)%N ->
  (forall f, floor = Some f -> id_ok f) -> goal_t env i store_number floor g = Some (r, g') ->
  generator_ok g' /\ forall t, r = Ok t -> id_ok t /\ forall f, floor = Some f -> (f < t)%N.
Proof.
  unfold goal_t, new_memory_uuid_after. intros Henv Hg Hs Hf E. destruct floor as [f|].
  - destruct (Henv i) as [Hlen Hok]. destruct (ge_draw env i) as [now random].
    destruct (mint_memory_uuid _ _ _ _ _) as [[id g1]|] eqn:Em; [|discriminate E]. injection E as <- <-.
    apply mint_ok in Em as [Hg' Hid]; try done. split; [done|]. intros t Et%ok_or_Ok. by apply Hid.
  - destruct (draw_goal_uuid _ _ _ _) as [[t g1]|] eqn:Ed; [|discriminate E]. injection E as <- <-.
    apply draw_goal_ok in Ed as [? ?]; try done. split; [done|]. by intros ? [= <-].
Qed.

Lemma opt_uuid_max_some a b f : opt_uuid_max a b = Some f -> a = Some f \/ b = Some f.
Proof. destruct a as [a|], b as [b|]; cbn; intros [= <-]; [|by left|by right]. destruct (N.max_spec a b) as [[_ ->]|[_ ->]]; auto. Qed.

Lemma opt_uuid_max_above a b t : (forall f, opt_uuid_max a b = Some f -> (f < t)%N) -> forall h, a = Some h -> (h < t)%N.
Proof. intros Hf h ->. destruct b as [b|]; [specialize (Hf _ eq_refl); lia|by apply Hf]. Qed.

Lemma select_goal_row s t db row : select_goal s t db = Some row -> gd_rows db !! t = Some row /\ goal_reads s (goal_owner row) = true.
Proof.
  unfold select_goal. destruct (gd_rows db !! t) as [r|]; [|done]. destruct (goal_reads _ _) eqn:Hr; [|done]. by intros [= <-].
Qed.

Lemma select_owned_goal s t owner db row : select_goal_owned s t owner db = Some row ->
  gd_rows db !! t = Some row /\ goal_owner row = owner /\ goal_reads s owner = true.
Proof.
  unfold select_goal_owned. destruct (select_goal s t db) as [r|] eqn:Es; [|done].
  destruct (_ =? _)%N eqn:Ho; [|done]. intros [= <-]. apply N.eqb_eq in Ho. apply select_goal_row in Es as [? ?]. by subst.
Qed.

Lemma select_head_row s handle db head : select_goal_head s handle db = Some head -> gd_heads db !! handle = Some head.
Proof. unfold select_goal_head. destruct (gd_heads db !! handle) as [h|]; [|done]. by destruct (goal_reads _ _). Qed.

Lemma head_t_ok s handle db t : goals_ok db -> ghead_t <$> select_goal_head s handle db = Some t -> id_ok t.
Proof.
  intros Hok E. destruct (select_goal_head s handle db) as [head|] eqn:Es; [|discriminate E]. injection E as <-.
  apply select_head_row in Es. destruct (gok_head _ Hok _ _ Es) as (row & Er & _). by apply (gok_row _ Hok) in Er as [? _].
Qed.

Lemma prepare_write_ok env s owner writer draft prior store_number g db r g' :
  goals_ok db -> goal_draws_ok env -> generator_ok g -> (store_number < 2 ^ 16)%N -> gc_mint_write_act draft = false ->
  (forall t, prior = Some t -> id_ok t) ->
  prepare_goal_write env s owner writer draft prior store_number g db = Some (r, g') ->
  generator_ok g' /\ forall p, r = Ok p -> pg_owner p = owner /\ id_ok (pg_t p) /\ pg_expected_prior_t p = prior /\
    (forall h, pg_expected_head_t p = Some h -> (h < pg_t p)%N) /\
    pg_command p = set_gc_write_act (gc_write_act_t draft) draft /\ pg_fresh_handle p = negb (is_some (gc_handle draft)) /\
    (forall t, prior = Some t \/ t ∈ gc_dependency_t draft -> t ∈ pg_targets p) /\
    forall handle, gc_handle draft = Some handle -> pg_handle p = handle.
Proof.
  unfold prepare_goal_write. cbv zeta. intros Hok Henv Hg Hs -> Hprior E.
  destruct (match gc_handle draft with Some handle => _ | None => _ end) as [[handle g1]|] eqn:Eh; [|discriminate E].
  assert (generator_ok g1 /\ forall h, gc_handle draft = Some h -> handle = h) as [Hg1 Hhandle].
  { destruct (gc_handle draft); [injection Eh as <- <-; split; [done|]; by intros ? [= <-]|].
    apply draw_goal_ok in Eh as [? _]; done. }
  destruct (goal_t _ _ _ _ _) as [[t g2]|] eqn:Et; [|discriminate E].
  apply goal_t_ok in Et as [Hg2 Ht]; [|done..|].
  2:{ intros f [Hf|Hf]%opt_uuid_max_some; [by eapply head_t_ok|by apply Hprior]. }
  destruct t as [t|e]; injection E as <- <-; (split; [done|]); [|done]. intros p [= <-]. cbn.
  destruct (Ht _ eq_refl) as [Hid Hafter]. split_and!; try done.
  - by eapply opt_uuid_max_above.
  - intros u [->|Hu]; cbn; set_solver.
Qed.

Lemma attach_close_ok db insert p close_fact :
  prepared_ok db insert p -> prepared_ok db insert (attach_goal_close_fact_reservation p close_fact).
Proof.
  destruct close_fact; [|done]. intros [Ho Ht Hp Hl Hc Htg Hs]. split; try done. intros u Hu. cbn.
  apply elem_of_app. left. by apply Htg.
Qed.

Lemma attach_change_ok db insert p change_fact :
  prepared_ok db insert p -> prepared_ok db insert (attach_goal_change_fact_reservation p change_fact).
Proof.
  destruct change_fact; [|done]. intros [Ho Ht Hp Hl Hc Htg Hs]. split; try done. intros u Hu. cbn.
  apply elem_of_app. left. by apply Htg.
Qed.

Lemma series_edge s owner prior change db handle parent : resolve_series_edge s owner prior change db = Ok (handle, parent) ->
  match prior, change with
  | Some prior, _ => exists row, gd_rows db !! GoalId_0 prior = Some row /\ handle = Some (goal_handle row) /\
      parent = goal_parent_handle row
  | None, ChangeDecomposeChild par => handle = None /\ exists row, gd_rows db !! GoalId_0 par = Some row /\
      parent = Some (goal_handle row)
  | None, _ => handle = None /\ parent = None
  end.
Proof.
  unfold resolve_series_edge. intros E. destruct prior as [prior|].
  - destruct (ok_or _ _) as [row|] eqn:Er; [|discriminate E]. injection E as <- <-.
    apply ok_or_Ok, select_owned_goal in Er as (? & _). by exists row.
  - destruct change; try by injection E as <- <-. destruct (ok_or _ _) as [row|] eqn:Er; [|discriminate E].
    injection E as <- <-. apply ok_or_Ok, select_owned_goal in Er as (? & _). split; [done|]. by exists row.
Qed.

Lemma prepare_insert_ok env s insert g db r g' :
  goals_ok db -> insert_ok db insert -> goal_draws_ok env -> generator_ok g ->
  prepare_goal_insert env s insert g db = Some (r, g') ->
  generator_ok g' /\ forall p, r = Ok p -> prepared_ok db insert p.
Proof.
  intros Hok Hi Henv Hg. unfold prepare_goal_insert. cbv zeta. intros E.
  destruct (ensure_owner_row _ _ _); [|by injection E as <- <-].
  destruct (validate_goal_schema _ _); [|by injection E as <- <-].
  destruct (resolve_series_edge _ _ _ _ _) as [[handle parent]|] eqn:Ee; [|by injection E as <- <-].
  apply series_edge in Ee.
  destruct (prepare_goal_write _ _ _ _ _ _ _ _ _) as [[r1 g1]|] eqn:Ep; [|discriminate E].
  pose proof (io_store _ _ Hi) as Hstore. apply prepare_write_ok in Ep as [Hg1 Hp]; [|done..|].
  2:{ intros t Et. destruct (in_expected_prior insert) as [prior|]; [|discriminate Et]. injection Et as <-.
      destruct Ee as (row & Er & _). by apply (gok_row _ Hok) in Er as [? _]. }
  destruct r1 as [p|e]; [|by injection E as <- <-]. destruct (Hp _ eq_refl) as (Ho & Hid & Hprior & Hl & Hc & Hf & Htg & Hh).
  assert (prepared_ok db insert p) as Hpok.
  { split; try done; rewrite ?Hc; try done.
    - by rewrite Hprior.
    - rewrite Hf. cbn. destruct (in_expected_prior insert) as [prior|].
      + destruct Ee as (row & Er & -> & ->). split; [done|]. exists row. split; [by left|]. split; [|done]. by apply Hh.
      + destruct (in_change insert); try by destruct Ee as [-> ->]. destruct Ee as (-> & row & Er & ->). split; [done|].
        exists row. split; [by left|done]. }
  destruct (if is_open _ then _ else _) as [[close_fact g2]|] eqn:Ecl; [|discriminate E].
  assert (generator_ok g2) as Hg2.
  { destruct (is_open _); [by injection Ecl as <- <-|].
    destruct (reserve_fact_identity env 4 _ _) as [[identity g3]|] eqn:Er; [|discriminate Ecl]. injection Ecl as <- <-.
    by eapply reserve_ok. }
  pose proof (attach_close_ok _ _ _ close_fact Hpok) as Hatt.
  destruct (goal_change_stamp _) as [[]|]; [|by injection E as <- <-; split; [|by intros ? [= <-]]|by injection E as <- <-].
  destruct (reserve_fact_identity env 6 _ _) as [[identity g3]|] eqn:Er; [|discriminate E]. injection E as <- <-.
  split; [by eapply reserve_ok|]. intros ? [= <-]. by apply (attach_change_ok _ _ _ (Some identity)).
Qed.

(** ** Plans *)

Lemma has_duplicate_false {A} `{EqDecision A} (seen l : list A) :
  has_duplicate seen l = false <-> NoDup l /\ forall x, x ∈ l -> x ∉ seen.
Proof.
  revert seen. induction l as [|x l IH]; intros seen; cbn; [split; [split; [constructor|set_solver]|done]|].
  destruct (slice_contains x seen) eqn:Ex.
  - apply slice_contains_true in Ex. split; [done|]. intros [_ Hx]. by destruct (Hx x (list_elem_of_here _ _)).
  - assert (x ∉ seen) as Hx by (intros Hin; apply slice_contains_true in Hin; congruence).
    rewrite IH, list.NoDup_cons. set_solver.
Qed.

Lemma topology_new motivated_by dependencies evidence topology :
  GoalTopologyWrite.new motivated_by dependencies evidence = Ok topology <->
  NoDup dependencies /\ NoDup (ev_memory_id <$> evidence) /\
  topology = mk_GoalTopologyWrite (GoalTopologyWrite.normalized motivated_by) dependencies evidence.
Proof.
  unfold GoalTopologyWrite.new. destruct (has_duplicate [] dependencies) eqn:Ed.
  { split; [discriminate|]. intros [Hd _]. apply not_false_iff_true in Ed. destruct Ed. apply has_duplicate_false. set_solver. }
  destruct (has_duplicate [] (ev_memory_id <$> evidence)) eqn:Ee.
  { split; [discriminate|]. intros (_ & He & _). apply not_false_iff_true in Ee. destruct Ee. apply has_duplicate_false.
    set_solver. }
  apply has_duplicate_false in Ed as [Hd _], Ee as [He _]. split; [by intros [= <-]|by intros (_ & _ & ->)].
Qed.

#[local] Instance GoalId_0_inj : Inj (=) (=) GoalId_0.
Proof. by intros [a] [b] [= ->]. Qed.
#[local] Instance MemoryId_0_inj : Inj (=) (=) MemoryId_0.
Proof. by intros [a] [b] [= ->]. Qed.
#[local] Instance mk_GoalId_inj : Inj (=) (=) mk_GoalId.
Proof. by intros a b [= ->]. Qed.
#[local] Instance mk_MemoryId_inj : Inj (=) (=) mk_MemoryId.
Proof. by intros a b [= ->]. Qed.

(** What a built topology points at is distinct. *)
Lemma topology_distinct motivated_by dependencies evidence topology :
  GoalTopologyWrite.new motivated_by dependencies evidence = Ok topology ->
  NoDup (GoalId_0 <$> top_dependencies topology) /\ NoDup (evidence_declaration (top_evidence topology)).
Proof.
  intros (Hd & He & ->)%topology_new. cbn. split; [by apply (NoDup_fmap_2 _)|]. unfold evidence_declaration.
  rewrite (list_fmap_compose ev_memory_id MemoryId_0). by apply (NoDup_fmap_2 _).
Qed.

Lemma evidence_refs_ids evidence : ev_memory_id <$> evidence_refs evidence = evidence.
Proof. unfold evidence_refs. induction evidence as [|e l IH]; cbn; [done|]. by f_equal. Qed.

Lemma evidence_target_id s item db t : evidence_target s item db = Ok t -> t = ev_memory_id item.
Proof.
  unfold evidence_target. destruct (match ev_remote item with Some origin => _ | None => _ end) as [kind|]; [|done].
  destruct kind; intros [= <-]; done.
Qed.

Lemma validated_distinct s seen evidence db targets : validate_evidence_from s seen evidence db = Ok targets ->
  NoDup targets /\ forall t, t ∈ targets -> t ∉ seen.
Proof.
  revert seen targets. induction evidence as [|item evidence IH]; intros seen targets; cbn.
  - intros [= <-]. split; [constructor|set_solver].
  - destruct (slice_contains _ _) eqn:Ec; [done|]. intros E. destruct (evidence_target _ _ _) as [t|] eqn:Et; [|discriminate E].
    destruct (validate_evidence_from _ _ _ _) as [rest|] eqn:Er; [|discriminate E]. injection E as <-.
    apply evidence_target_id in Et as ->. apply IH in Er as [Hnd Hout].
    assert (ev_memory_id item ∉ seen) as Hx by (intros Hin; apply slice_contains_true in Hin; congruence).
    rewrite list.NoDup_cons. set_solver.
Qed.

Lemma carried_ids s store_number ids db targets : carried_targets s store_number ids db = Ok targets ->
  targets = mk_MemoryId <$> ids.
Proof.
  revert targets. induction ids as [|id ids IH]; intros targets; cbn; [by intros [= <-]|]. intros E.
  destruct (if (_ =? _)%N then _ else _) as [t|] eqn:Et; [|discriminate E].
  destruct (carried_targets _ _ _ _) as [rest|]; [|discriminate E]. injection E as <-. f_equal; [|by apply IH].
  destruct (_ =? _)%N; [by apply evidence_target_id in Et|by injection Et].
Qed.

Lemma evidence_distinct command s store_number db targets : goals_ok db ->
  GoalCommand.evidence command s store_number db = Ok targets -> NoDup targets.
Proof.
  intros Hok E. destruct command as [req|req|req|req]; cbn in E.
  - by apply validated_distinct in E as [? _].
  - injection E as <-. constructor.
  - by apply validated_distinct in E as [? _].
  - destruct (mod_evidence req); [by apply validated_distinct in E as [? _]|]. apply carried_ids in E as ->.
    apply (NoDup_fmap_2 _). destruct (select_goal_owned _ _ _ _) as [row|] eqn:Es; [|constructor].
    apply select_owned_goal in Es as [Er _]. by apply (gok_row _ Hok) in Er as (_ & _ & ?).
Qed.

Lemma load_prior_row s owner goal_id context db prior : load_prior_goal s owner goal_id context db = Ok prior ->
  exists row, gd_rows db !! GoalId_0 goal_id = Some row /\ goal_owner row = OwnerId_0 owner /\
    sg_state prior = goal_state row /\ sg_dependencies prior = (mk_GoalId <$> goal_dependency_t row).
Proof.
  unfold load_prior_goal. intros E. destruct (ok_or (select_goal_owned _ _ _ _) _) as [row|] eqn:Er; [|discriminate E].
  apply ok_or_Ok, select_owned_goal in Er as (Er & Ho & _).
  destruct (ok_or _ _) as [head|]; [|discriminate E]. cbv zeta in E.
  destruct (filter _ _) as [|[? version] []]; [discriminate E| |discriminate E]. injection E as <-. by exists row.
Qed.

(** The drafts of successors never panic. *)
Lemma successor_topology db goal_id row motivated_by evidence : goals_ok db -> gd_rows db !! goal_id = Some row -> NoDup evidence ->
  exists topology,
    GoalTopologyWrite.new motivated_by (mk_GoalId <$> goal_dependency_t row) (evidence_refs evidence) = Ok topology.
Proof.
  intros Hok Er Hev. eexists. apply topology_new. rewrite evidence_refs_ids. split_and!; [|done|done].
  apply (NoDup_fmap_2 _). by apply (gok_row _ Hok) in Er as (_ & ? & _).
Qed.

Lemma lifecycle_insert_ok s writer store_number owner goal_id prior state authorship request_id evidence change context
    guard db row :
  goals_ok db -> (store_number < 2 ^ 16)%N -> NoDup evidence ->
  gd_rows db !! GoalId_0 goal_id = Some row -> goal_owner row = OwnerId_0 owner ->
  sg_dependencies prior = (mk_GoalId <$> goal_dependency_t row) ->
  legal_next (goal_state row) state = true -> guard_fits guard state ->
  exists insert, GoalCommand.lifecycle_insert s writer store_number owner goal_id prior state authorship request_id evidence
                   change context guard = Some insert /\ insert_ok db insert /\
    in_expected_prior insert = Some goal_id /\ dr_owner (in_draft insert) = owner /\
    dr_request_id (in_draft insert) = request_id.
Proof.
  intros Hok Hs Hev Er Ho Hdeps Hlegal Hfits. unfold GoalCommand.lifecycle_insert, draft_from_stored. rewrite Hdeps.
  destruct (successor_topology db _ _ (sg_motivated_by prior) evidence Hok Er Hev) as [topology Et]. rewrite Et. cbn [ok].
  eexists. split; [reflexivity|]. split; [|by split_and!]. apply topology_distinct in Et as [Hd He]. split; try done.
  exists row. split; [by left|done].
Qed.

Lemma plan_ok command s writer store_number evidence db :
  goals_ok db -> (store_number < 2 ^ 16)%N -> request_ok (OneGoal command) -> NoDup evidence ->
  exists r, GoalCommand.plan command s writer store_number evidence db = Some r /\
    forall insert, r = Ok insert -> insert_ok db insert /\ of_command command insert.
Proof.
  intros Hok Hs Hreq Hev. destruct command as [req|req|req|req]; cbn [GoalCommand.plan].
  - eexists. split; [reflexivity|]. intros insert [= <-]. destruct Hreq as [(m & d & e & Et) Hst].
    apply topology_distinct in Et as [Hd He]. by split.
  - destruct (load_prior_goal _ _ _ _ _) as [prior|e] eqn:El; [|by eexists].
    apply load_prior_row in El as (row & Er & Ho & Hst & Hdeps). unfold validate_goal_transition. rewrite Hst.
    destruct (GoalState.may_transition_to _ _) eqn:Em; [|by eexists].
    edestruct (lifecycle_insert_ok s writer store_number (trans_owner req) (trans_prior_goal_id req) prior
      (GoalTransitionKind.next_state (trans_transition req)) (trans_authorship req)
      (IdempotencyKey.as_str (trans_request_id req)) []) as (insert & -> & Hins); eauto.
    + constructor.
    + unfold legal_next. by rewrite Em.
    + by destruct (trans_transition req).
    + eexists. split; [reflexivity|]. intros ? [= <-]. destruct Hins as (Hi & Hp & Hown & Hrid).
      split; [done|]. split; try done. by rewrite Hp.
  - destruct (load_prior_goal _ _ _ _ _) as [prior|e] eqn:El; [|by eexists].
    apply load_prior_row in El as (row & Er & Ho & Hst & Hdeps). unfold validate_goal_achievement. rewrite Hst.
    destruct (GoalState.may_achieve _) eqn:Em; [|by eexists].
    edestruct (lifecycle_insert_ok s writer store_number (ach_owner req) (ach_prior_goal_id req) prior
      Achieved (ach_authorship req) (IdempotencyKey.as_str (ach_request_id req)) evidence ChangeAchieve (ach_context req)
      GuardChildrenClosed) as (insert & -> & Hins); eauto.
    + unfold legal_next. rewrite Em. by rewrite orb_comm.
    + done.
    + eexists. split; [reflexivity|]. intros ? [= <-]. destruct Hins as (Hi & Hp & Hown & Hrid).
      split; [done|]. split; try done. by rewrite Hp.
  - destruct (load_prior_goal _ _ _ _ _) as [prior|e] eqn:El; [|by eexists].
    apply load_prior_row in El as (row & Er & Ho & Hst & Hdeps). rewrite Hst.
    case_bool_decide as Ha; [|by eexists]. unfold draft_from_payload. rewrite Hdeps.
    destruct (successor_topology db _ _ (default (sg_motivated_by prior) (mod_motivated_by req)) evidence Hok Er Hev)
      as [topology Et]. rewrite Et. cbn [ok]. eexists. split; [reflexivity|]. intros insert [= <-]. split; [|done].
    apply topology_distinct in Et as [Hd He]. split; try done. exists row. split; [by left|]. rewrite Ha. by split_and!.
Qed.

Lemma plan_child_ok tx req child db insert : (tx_store_number tx < 2 ^ 16)%N ->
  plan_child tx req child db = Ok insert -> insert_ok db insert /\ child_goal req insert.
Proof.
  intros Hs. unfold plan_child, child_draft. cbv zeta. intros E.
  destruct (validate_evidence_in_owner _ _ _); [|discriminate E].
  destruct (GoalTopologyWrite.new _ _ _) as [topology|] eqn:Et; [|discriminate E]. injection E as <-.
  pose proof Et as (_ & _ & Ht)%topology_new. apply topology_distinct in Et as [Hd He]. split; [by split|].
  split_and!; try done. cbn. rewrite Ht. cbn. set_solver.
Qed.

(** ** The guard *)

Lemma goal_children_spec s owner parent db t state : goals_ok db -> goal_reads s owner = true ->
  (t, state) ∈ goal_children s owner parent db <->
  exists handle head row, gd_heads db !! handle = Some head /\ ghead_t head = t /\ goal_state row = state /\
    goal_owner row = owner /\ child_of db parent handle row.
Proof.
  intros Hok Hr. unfold goal_children. rewrite list_elem_of_omap. split.
  - intros ([handle head0] & _ & E). cbn [fst] in E.
    destruct (select_goal_head _ _ _) as [head|] eqn:Eh; [|discriminate E]. apply select_head_row in Eh.
    destruct (select_goal_owned _ _ _ _) as [row|] eqn:Er; [|discriminate E].
    apply select_owned_goal in Er as (Er & Ho & _). destruct (_ && _) eqn:Ec; [|discriminate E].
    apply andb_prop in Ec as [_ Hp%bool_decide_eq_true]. injection E as <- <-. exists handle, head, row.
    split_and!; try done. split; [by exists head|done].
  - intros (handle & head & row & Eh & <- & <- & Ho & [(head' & Eh' & Er) Hp]). rewrite Eh in Eh'. injection Eh' as <-.
    destruct (gok_head _ Hok _ _ Eh) as (row' & Er' & Hh & Hho). rewrite Er in Er'. injection Er' as <-.
    exists (handle, head). split; [by apply sort_by_elem_of, elem_of_map_to_list|]. cbn [fst].
    unfold select_goal_head, select_goal_owned, select_goal.
    rewrite Eh. cbv beta iota. rewrite <-Hho, Ho, Hr, Er. cbv beta iota. rewrite Ho, Hr. cbv beta iota.
    rewrite Ho, N.eqb_refl. cbv beta iota. rewrite Hh, N.eqb_refl. by rewrite (bool_decide_eq_true_2 _ Hp).
Qed.

Lemma open_children_closed rows : open_children rows = Ok tt -> forall t state, (t, state) ∈ rows -> is_open state = false.
Proof.
  unfold open_children. cbv zeta. intros E t state Hin. apply not_true_is_false. intros Hopen.
  destruct (is_empty _) eqn:Ee; [|discriminate E]. apply is_empty_true, fmap_nil_inv in Ee.
  assert ((t, state) ∈ filter (fun row : Uuid * GoalState => is_open row.2 = true) rows) as Hf by by apply list_elem_of_filter.
  rewrite Ee in Hf. by apply not_elem_of_nil in Hf.
Qed.

Lemma children_rule_closed rule rows : children_rule rule rows = Ok tt ->
  (forall t state, (t, state) ∈ rows -> is_open state = false) /\
  (rule = ClosedWithAchieved -> forall t state, (t, state) ∈ rows -> exists t', (t', Achieved) ∈ rows).
Proof.
  destruct rule; cbn; [by split; [apply open_children_closed|]|]. unfold children_verdict. intros E.
  destruct (is_empty rows) eqn:Ee; [apply is_empty_true in Ee as ->; split; intros; set_solver|].
  destruct (open_children rows) as [[]|] eqn:Eo; [|discriminate E]. split; [by apply open_children_closed|].
  intros _ t state _. destruct (existsb _ _) eqn:Ex; [|discriminate E]. apply existsb_exists in Ex as ([t' st] & Hin & Hst).
  apply bool_decide_eq_true in Hst as [= ->]. exists t'. by apply list_elem_of_In.
Qed.

Lemma guard_closes db tx declaration insert p : goals_ok db -> locked_ok db tx declaration insert p ->
  guard_step tx insert p db = Ok tt ->
  guarded db insert p.
Proof.
  intros Hok [Hi _ Hp _ Hhead] E Hprior Hclosed. destruct (in_expected_prior insert) as [prior|] eqn:Ep; [|by destruct Hprior].
  destruct (Hhead _ eq_refl) as [Hw [row (head & Eh & Ht & Er & Ho & _ & _)]].
  pose proof (io_state _ _ Hi) as Hst. rewrite Ep in Hst. destruct Hst as (row' & Hseen & Hown & _ & Hfits).
  rewrite (seen_live _ _ _ _ Hseen Er) in Hown.
  set (owner := OwnerId_0 (dr_owner (in_draft insert))) in *.
  assert (goal_reads (tx_session tx) owner = true) as Hr by (unfold goal_reads; by rewrite Hw).
  assert (forall h r, child_of db (pg_handle p) h r -> exists hd, gd_heads db !! h = Some hd /\
            (ghead_t hd, goal_state r) ∈ goal_children (tx_session tx) owner (pg_handle p) db) as Hin.
  { intros h r Hc. pose proof Hc as [(hd & Ehd & _) _]. exists hd. split; [done|]. apply goal_children_spec; [done..|].
    exists h, hd, r. split_and!; try done. rewrite (child_owner db (pg_handle p) h r row); [done..|].
    exists head. by rewrite Ht. }
  unfold guard_step, ensure_goal_children_closed in E. fold owner in E. unfold guard_fits in Hfits.
  destruct (dr_state (in_draft insert)) eqn:Es; try discriminate Hclosed; rewrite Hfits in E; cbn [guard_rule] in E;
    apply children_rule_closed in E as [Hall Hach]; split; try done.
  1,3: intros h r (hd & _ & Hx)%Hin; by eapply Hall.
  intros _ h r (hd & _ & Hx)%Hin. destruct (Hach eq_refl _ _ Hx) as [t' Ht'].
  apply goal_children_spec in Ht' as (h' & ? & r' & _ & _ & ? & _ & Hc'); [|done..]. by exists h', r'.
Qed.

End transactions.
