(* ===== verification/GoalInvariant.v ===== *)
(** * Schedules of goal transactions

    The invariant of every world a schedule reaches: the tables are well-formed,
    each transaction's facts hold at its point, and no two hold the same lock;
    and what follows for trees, histories, requests and progress. *)

From S2P Require Import Prelude Ids Bytes GroupForest Text Json Publication Errors OwnerScope Authz Groups MemoryUuid.
From S2P Require Import Idempotency MemoryStore Admission MemoryLifecycle MemorySeries GoalWrite GoalStore GoalSteps.
From S2P Require Import GoalTree GoalTransactions.

Section schedules.
Context `{PgText, Digest, UuidText, Jsonb}.

(** ** Writes of one transaction *)

Definition writes (locks : list Uuid) : GoalDb -> GoalDb -> Prop :=
  rtc (fun db db' => exists t row, appended locks db db' t row).

Lemma writes_ok locks db db' : goals_ok db -> writes locks db db' -> goals_ok db'.
Proof. intros Hok Hw. induction Hw as [|db db1 db' (t & row & Hap) _ IH]; [done|]. apply IH. by eapply append_ok. Qed.

Lemma writes_undisturbed locks db db' tx : goals_ok db -> writes locks db db' ->
  (forall u, u ∈ locks -> u ∉ tx_targets tx) -> undisturbed tx db db'.
Proof.
  intros Hok Hw Hdisj. induction Hw as [|db db1 db' (t & row & Hap) _ IH]; [apply undisturbed_refl|].
  eapply undisturbed_trans; [by eapply append_undisturbed|]. apply IH. by eapply append_ok.
Qed.

(** A write that begins a series, and several. *)
Definition begins (locks : list Uuid) : GoalDb -> GoalDb -> Prop :=
  rtc (fun db db' => exists t row, appended locks db db' t row /\ gd_heads db !! goal_handle row = None).

Lemma begins_writes locks db db' : begins locks db db' -> writes locks db db'.
Proof. induction 1 as [|db db1 db' (t & row & Hap & _) _ IH]; [apply rtc_refl|]. eapply rtc_l; [by eauto|done]. Qed.

Lemma begins_heads locks db db' handle head : begins locks db db' ->
  gd_heads db !! handle = Some head -> gd_heads db' !! handle = Some head.
Proof.
  induction 1 as [|db db1 db' (t & row & Hap & Hnone) _ IH]; [done|]. intros Hh. apply IH.
  rewrite (ap_head_lookup _ _ _ _ _ Hap); [done|]. intros ->. congruence.
Qed.

(** The children of a decomposition, one after another. *)
Lemma persist_child_ok env s tx req child p db db' outcome :
  goals_ok db -> child_ok db tx req child -> pc_prepared child = Some p -> parent_held db tx req ->
  (forall t, t ∈ pg_targets p -> t ∈ tx_targets tx) ->
  persist_goal env s (pc_insert child) p (pc_declaration child) db = Some (Ok (db', outcome)) ->
  (exists t row, appended (tx_targets tx) db db' t row /\ gd_heads db !! goal_handle row = None) /\ parent_held db' tx req.
Proof.
  intros Hok [Hi (Hprior & Hchange & Hown & Hdep) Hp] Ep (prow & Hheld & Hact) Htg E.
  apply persist_shape in E as [Hper _]. destruct (Hp _ Ep) as [Hprep Hfence].
  assert (exists schema, appended (tx_targets tx) db db' (pg_t p) (goal_revision p schema)) as [schema Hap].
  { eapply persisted_appended; try done.
    - intros Hs. rewrite Hprior in Hs. by destruct Hs.
    - intros parent _ Ec. rewrite Hchange in Ec. injection Ec as <-.
      destruct Hheld as (head & Eh & Ht & Er & Ho & Hin & Hf). split; [done|]. exists head, prow. split_and!; try done.
      rewrite (po_owner _ _ _ Hprep), Hown. congruence. }
  assert (gd_heads db !! pg_handle p = None) as Hnone.
  { pose proof (po_series _ _ _ Hprep) as Hs. rewrite Hprior, Hchange in Hs. destruct Hs as [Hfresh _].
    destruct (per_held _ _ _ _ _ _ Hper) as [Hnone|(? & _ & Hf & _)]; congruence. }
  split; [by eauto|]. exists prow. split; [|done]. eapply append_holds; [done..| |done]. cbn. intros head Eh. congruence.
Qed.

Lemma persist_children_ok env s tx req children db db' outcomes :
  goals_ok db -> Forall (child_ok db tx req) children -> children = [] \/ parent_held db tx req ->
  (forall t, t ∈ children_targets children -> t ∈ tx_targets tx) ->
  persist_children env s children db = Some (Ok (db', outcomes)) -> begins (tx_targets tx) db db'.
Proof.
  revert env db outcomes. induction children as [|child children IH]; intros env db outcomes Hok Hall Hparent Htg E; cbn [persist_children] in E.
  { injection E as <- _. apply rtc_refl. }
  destruct Hparent as [?|Hparent]; [done|]. destruct (pc_prepared child) as [p|] eqn:Ep; [|discriminate E].
  destruct (persist_goal _ _ _ _ _ _) as [[[db1 o]|]|] eqn:E1; [|discriminate E..].
  destruct (persist_children _ _ _ _) as [[[db2 rest]|]|] eqn:E2; [|discriminate E..]. injection E as <- _.
  apply list.Forall_cons in Hall as [Hc Hall].
  assert (forall t, t ∈ pg_targets p \/ t ∈ children_targets children -> t ∈ tx_targets tx) as Htg'.
  { intros t Ht. apply Htg. unfold children_targets. cbn. rewrite Ep. apply elem_of_app. exact Ht. }
  eapply persist_child_ok in E1 as [(t & row & Hap & Hnone) Hheld]; eauto. eapply rtc_l; [by eauto|].
  apply (IH (fun i => env (S i)) _ rest); eauto.
  - by eapply append_ok.
  - eapply children_ok_later; [by eapply append_seen|done].
Qed.

(** The write of a command. *)
Lemma persist_goal_ok env s tx declaration insert p db db' outcome :
  goals_ok db -> locked_ok db tx declaration insert p -> guarded db insert p ->
  persist_goal env s insert p declaration db = Some (Ok (db', outcome)) ->
  persisted s insert p declaration db db' /\
  exists schema, appended (tx_targets tx) db db' (pg_t p) (goal_revision p schema).
Proof.
  intros Hok [Hi Hone Hp Htg Hh] Hguard [Hper _]%persist_shape. split; [done|].
  eapply persisted_appended; eauto. intros parent Eprior Ec. destruct Hone as (command & _ & _ & [_ _ _ Hset]).
  rewrite (Hset Eprior) in Ec. discriminate Ec.
Qed.

(** ** Worlds *)

Record world_ok (w : GoalWorld) : Prop := mk_world_ok {
  wo_goals : goals_ok (gw_db w);
  wo_generators process : generator_ok (goal_generator w process);
  wo_txs id tx : gw_txs w !! id = Some tx -> tx_ok (gw_db w) tx;
  wo_exclusive id id' tx tx' t : id <> id' -> gw_txs w !! id = Some tx -> gw_txs w !! id' = Some tx' ->
    t ∈ tx_targets tx -> t ∉ tx_targets tx';
}.

(** What a step of a transaction keeps. *)
Record stepped (w : GoalWorld) (id : nat) (tx tx' : GoalTx) (db' : GoalDb) (g' : Generator) : Prop := mk_stepped {
  sp_tx : tx_ok db' tx';
  sp_generator : generator_ok g';
  sp_writes : writes (tx_targets tx) (gw_db w) db';
  sp_targets t : t ∈ tx_targets tx' -> t ∈ tx_targets tx \/
    forall other tx2, other <> id -> gw_txs w !! other = Some tx2 -> t ∉ tx_targets tx2;
}.

(** Facts survive taking more locks. *)
Record holds_more (tx tx' : GoalTx) : Prop := mk_holds_more {
  hm_session : tx_session tx' = tx_session tx;
  hm_request : tx_request tx' = tx_request tx;
  hm_targets t : t ∈ tx_targets tx -> t ∈ tx_targets tx';
  hm_fence owner : tx_fence tx = Some owner -> tx_fence tx' = Some owner;
}.

Lemma child_ok_more db tx tx' req child : holds_more tx tx' -> child_ok db tx req child -> child_ok db tx' req child.
Proof. intros [_ _ _ Hf] [Hi Hc Hp]. split; [done..|]. intros p E. destruct (Hp _ E). eauto. Qed.

Lemma pc_ok_more db tx tx' pc : holds_more tx tx' -> pc_ok db tx pc -> pc_ok db tx' pc.
Proof.
  intros Hm. pose proof Hm as [Hs Hr Ht Hf].
  assert (forall h r t, holds_head db tx h r t -> holds_head db tx' h r t) as Hh.
  { intros h r t (head & ? & ? & ? & ? & ? & ?). exists head. eauto 10. }
  assert (forall d, declared tx d -> declared tx' d) as Hd by (unfold declared; by rewrite Hr).
  assert (forall d insert, commanded tx d insert -> commanded tx' d insert) as Hcm by (unfold commanded; by rewrite Hr).
  assert (forall d insert p, locked_ok db tx d insert p -> locked_ok db tx' d insert p) as Hl.
  { intros d insert p [Hi Ho Hp Htg Hhd]. split; eauto. intros prior E. destruct (Hhd _ E) as [? [row ?]]. rewrite Hs. eauto. }
  assert (forall req l, Forall (child_ok db tx req) l -> Forall (child_ok db tx' req) l) as Hc.
  { intros req l. apply Forall_impl. intros c. by apply child_ok_more. }
  destruct pc; cbn [pc_ok]; try (intros Hp; destruct_and? Hp; split_and?; by eauto).
  intros (? & [?|(row & ? & ?)] & ?); split_and!; eauto. right. exists row. eauto.
Qed.

Section one_step.
Context (w : GoalWorld) (id : nat) (tx : GoalTx) (Hw : world_ok w) (Htx : gw_txs w !! id = Some tx).

Abbreviation db := (gw_db w).
Abbreviation g := (goal_generator w (tx_process tx)).

(** A step that writes nothing. *)
Lemma quiet_stepped pc tx1 g' : generator_ok g' -> pc_ok db tx1 pc ->
  tx_store_number tx1 = tx_store_number tx -> tx_request tx1 = tx_request tx -> tx_targets tx1 = tx_targets tx ->
  stepped w id tx (goto pc tx1) db g'.
Proof.
  intros Hg Hpc Es Er Et. destruct (wo_txs _ Hw _ _ Htx) as [Hs Hr _]. split; [split|done|apply rtc_refl|].
  - by rewrite <-Es in Hs.
  - by rewrite <-Er in Hr.
  - by eapply pc_ok_more; [|exact Hpc].
  - cbn. rewrite Et. by left.
Qed.

Lemma goto_stepped pc g' : generator_ok g' -> pc_ok db tx pc -> stepped w id tx (goto pc tx) db g'.
Proof. intros Hg Hpc. by apply quiet_stepped. Qed.

Lemma answered_stepped answer db' g' : generator_ok g' -> writes (tx_targets tx) db db' ->
  stepped w id tx (answered answer tx) db' g'.
Proof. intros Hg Hwr. destruct (wo_txs _ Hw _ _ Htx) as [Hs Hr _]. split; [by split|done..|]. by intros t ?%not_elem_of_nil. Qed.

Lemma refused_stepped answer g' : generator_ok g' -> stepped w id tx (answered answer tx) db g'.
Proof. intros Hg. apply answered_stepped; [done|apply rtc_refl]. Qed.

Hint Resolve wo_generators wo_goals goto_stepped refused_stepped : core.

Lemma probe_stepped env : tx_pc tx = Probe -> stepped w id tx (probe_step env tx db) db g.
Proof.
  intros _. unfold probe_step. destruct (tx_request tx) as [command|] eqn:Er.
  - destruct (GoalCommand.screen _ _); [|eauto]. destruct (if tx_goal_permit tx then _ else _); [|eauto].
    destruct (GoalCommand.declaration command) as [declaration|] eqn:Ed; [|eauto].
    destruct (resolve_goal_replay _ _ _ _ _) as [[]|]; [unfold answer_replay; eauto| |eauto].
    apply goto_stepped; [eauto|]. by exists command.
  - destruct (let? declarations := _ in _) as [[? []]|]; [eauto|by apply goto_stepped; eauto|eauto].
Qed.

Lemma evidence_stepped declaration : tx_pc tx = Evidence declaration ->
  stepped w id tx (evidence_step tx declaration db) db g.
Proof.
  intros Hpc. destruct (wo_txs _ Hw _ _ Htx) as [_ _ Hd]. rewrite Hpc in Hd. pose proof Hd as (command & Er & _).
  unfold evidence_step. rewrite Er. destruct (GoalCommand.evidence _ _ _ _) as [ev|] eqn:E; [|eauto].
  apply goto_stepped; [eauto|]. split; [done|]. by eapply evidence_distinct; eauto.
Qed.

Lemma plan_stepped declaration evidence : tx_pc tx = Plan declaration evidence ->
  stepped w id tx (plan_step tx declaration evidence db) db g.
Proof.
  intros Hpc. destruct (wo_txs _ Hw _ _ Htx) as [Hs Hr Hd]. rewrite Hpc in Hd. destruct Hd as [(command & Er & Ed) Hev].
  rewrite Er in Hr. unfold plan_step. rewrite Er.
  destruct (plan_ok command (tx_session tx) (tx_writer tx) (tx_store_number tx) evidence db) as (r & -> & Hins); eauto.
  destruct r as [insert|]; [|eauto]. destruct (Hins _ eq_refl) as [Hi Hc]. apply goto_stepped; [eauto|].
  split; [done|]. by exists command.
Qed.

Lemma hold_request_stepped key pc : pc_ok db tx pc -> stepped w id tx (goto pc (hold_request key tx)) db g.
Proof. intros Hpc. apply quiet_stepped; eauto. by eapply pc_ok_more; [|exact Hpc]. Qed.

Lemma hold_targets_stepped targets pc : targets_free w id targets = true -> pc_ok db (hold_targets targets tx) pc ->
  stepped w id tx (goto pc (hold_targets targets tx)) db g.
Proof.
  intros Hfree Hpc. destruct (wo_txs _ Hw _ _ Htx) as [Hs Hr _]. split; [split; try done|eauto|apply rtc_refl|].
  { by eapply pc_ok_more; [|exact Hpc]. }
  cbn. intros t [Ht|Ht]%elem_of_app; [right|by left]. intros other tx2 Hne E2.
  apply bool_decide_eq_true in Hfree. destruct (Hfree _ _ E2) as [?|Hall]; [done|]. by eapply (Forall_elem _ _ _ Hall).
Qed.

Lemma prepare_stepped env declaration insert retried r g' : tx_pc tx = Prepare declaration insert retried ->
  goal_draws_ok env -> prepare_goal_insert env (tx_session tx) insert g db = Some (r, g') ->
  stepped w id tx match r with
                  | Ok p => goto (Lock declaration insert retried p) (hold_fence (OwnerId_0 (dr_owner (in_draft insert))) tx)
                  | Err e => answered (Err e) tx
                  end db g'.
Proof.
  intros Hpc Henv E. destruct (wo_txs _ Hw _ _ Htx) as [_ _ Hi]. rewrite Hpc in Hi. destruct Hi as [Hi Hone].
  apply prepare_insert_ok in E as [Hg Hp]; eauto. destruct r as [p|e]; [|eauto]. apply quiet_stepped; try done.
  split_and!; try done. by apply Hp.
Qed.

Lemma lock_stepped declaration insert retried p : tx_pc tx = Lock declaration insert retried p ->
  targets_free w id (pg_targets p) = true -> lock_and_validate_prepared_goal_write (tx_session tx) p db = Ok tt ->
  stepped w id tx (goto (Guard declaration insert retried p) (hold_targets (pg_targets p) tx)) db g.
Proof.
  intros Hpc Hfree Hlock. destruct (wo_txs _ Hw _ _ Htx) as [_ _ Hi]. rewrite Hpc in Hi.
  destruct Hi as (Hi & Hone & Hp & Hfence). apply hold_targets_stepped; [done|]. split; try done.
  { intros t Ht. apply elem_of_app. by left. }
  intros prior Eprior. apply locked_head in Hlock as [Hhead Hprior]. pose proof (po_prior _ _ _ Hp) as Ep.
  rewrite Eprior in Ep. rewrite Hprior, Ep in Hhead by (rewrite Ep; by eexists).
  apply for_update_head in Hhead as (head & Eh & Ht & Hwr).
  destruct (gok_head _ (wo_goals _ Hw) _ _ Eh) as (row & Er & _ & Ho). rewrite Ht in Er.
  pose proof (io_state _ _ Hi) as Hst. rewrite Eprior in Hst. destruct Hst as (row' & Hseen & Hown & _).
  rewrite (seen_live _ _ _ _ Hseen Er) in Hown. rewrite <-Hown, Ho. split; [done|]. exists row, head. split_and!; try done.
  - apply elem_of_app. left. apply (po_targets _ _ _ Hp). by left.
  - cbn. rewrite Hfence. congruence.
Qed.

Lemma guard_stepped declaration insert retried p : tx_pc tx = Guard declaration insert retried p ->
  guard_step tx insert p db = Ok tt -> stepped w id tx (goto (Persist declaration insert retried p) tx) db g.
Proof.
  intros Hpc Hguard. destruct (wo_txs _ Hw _ _ Htx) as [_ _ Hl]. rewrite Hpc in Hl. apply goto_stepped; [eauto|].
  split; [done|]. eapply guard_closes; eauto.
Qed.

Lemma retry_stepped declaration insert retried p e : tx_pc tx = Persist declaration insert retried p ->
  stepped w id tx (retry_or_answer tx declaration insert retried e) db g.
Proof.
  intros Hpc. destruct (wo_txs _ Hw _ _ Htx) as [Hs Hr Hl]. rewrite Hpc in Hl. destruct Hl as [[Hi Ho _ _ _] _].
  unfold retry_or_answer. destruct e; eauto. destruct retried; [eauto|].
  split; [by split|eauto|apply rtc_refl|by intros t ?%not_elem_of_nil].
Qed.

Lemma persist_stepped env declaration insert retried p tx' db' : tx_pc tx = Persist declaration insert retried p ->
  persist_step env tx declaration insert retried p db = Some (tx', db') -> stepped w id tx tx' db' g.
Proof.
  intros Hpc. unfold persist_step.
  destruct (persist_goal _ _ _ _ _ _) as [[[db1 outcome]|e]|] eqn:E; [|intros [= <- <-]; by eapply retry_stepped|done].
  destruct (wo_txs _ Hw _ _ Htx) as [Hs Hr Hl]. rewrite Hpc in Hl. destruct Hl as [Hl Hguard].
  destruct (if tx_goal_permit tx then _ else _); intros [= <- <-]; [|eauto].
  apply answered_stepped; [eauto|]. apply rtc_once. eapply persist_goal_ok in E as [_ [schema Hap]]; eauto.
Qed.

(** *** Decomposition *)

Lemma plan_child_stepped req child declaration todo done_ insert :
  tx_pc tx = PlanChild req ((child, declaration) :: todo) done_ -> plan_child tx req child db = Ok insert ->
  stepped w id tx (goto (LockChild req insert declaration todo done_) tx) db g.
Proof.
  intros Hpc E. destruct (wo_txs _ Hw _ _ Htx) as [Hs _ Hall]. rewrite Hpc in Hall.
  apply plan_child_ok in E as [Hi Hc]; [|done]. apply goto_stepped; [eauto|]. by split_and!.
Qed.

Lemma all_prepared_each children l : all_prepared children = Some l -> Forall (fun c => is_Some (pc_prepared c)) children.
Proof.
  unfold all_prepared. revert l. induction children as [|c children IH]; intros l E; [constructor|]. cbn in E.
  destruct (pc_prepared c) as [p|] eqn:Ep; [|discriminate E]. cbn in E.
  destruct (mapM _ children) as [rest|]; [|discriminate E]. constructor; [by rewrite Ep; eexists|by eapply IH].
Qed.

Lemma planned_stepped req done_ : tx_pc tx = PlanChild req [] done_ -> stepped w id tx (goto (prepared_all req done_) tx) db g.
Proof.
  intros Hpc. destruct (wo_txs _ Hw _ _ Htx) as [Hs _ Hall]. rewrite Hpc in Hall. apply goto_stepped; [eauto|].
  unfold prepared_all. destruct (all_prepared done_) as [l|] eqn:E; [|done]. split; [done|]. by eapply all_prepared_each.
Qed.

Lemma lock_child_stepped req insert declaration todo done_ : tx_pc tx = LockChild req insert declaration todo done_ ->
  forall found : bool, stepped w id tx
    (goto (if found then PlanChild req todo (done_ ++ [mk_PreparedChild insert None declaration])
           else PrepareChild req insert declaration todo done_) (hold_request (insert_key_of insert) tx)) db g.
Proof.
  intros Hpc found. destruct (wo_txs _ Hw _ _ Htx) as [Hs _ Hall]. rewrite Hpc in Hall. destruct Hall as (Hall & Hi & Hc).
  apply hold_request_stepped. destruct found; [|by split_and!]. apply Forall_app. split; [done|]. constructor; [by split|constructor].
Qed.

Lemma prepare_child_stepped env req insert declaration todo done_ r g' :
  tx_pc tx = PrepareChild req insert declaration todo done_ -> goal_draws_ok env ->
  prepare_goal_insert env (tx_session tx) insert g db = Some (r, g') ->
  stepped w id tx match r with
                  | Ok p => goto (PlanChild req todo (done_ ++ [mk_PreparedChild insert (Some p) declaration]))
                              (hold_fence (OwnerId_0 (dr_owner (in_draft insert))) tx)
                  | Err e => answered (Err e) tx
                  end db g'.
Proof.
  intros Hpc Henv E. destruct (wo_txs _ Hw _ _ Htx) as [_ _ Hall]. rewrite Hpc in Hall. destruct Hall as (Hall & Hi & Hc).
  apply prepare_insert_ok in E as [Hg Hp]; eauto. destruct r as [p|e]; [|eauto]. apply quiet_stepped; try done.
  pose proof Hc as (_ & _ & Hown & _). cbn [pc_ok]. apply Forall_app. split; [|constructor; [|constructor]].
  - eapply list.Forall_impl; [exact Hall|]. intros c [Hci Hcc Hcp]. split; [done..|]. intros q Eq. destruct (Hcp _ Eq).
    split; [done|]. cbn. by rewrite Hown.
  - split; [done..|]. intros q [= <-]. split; [by apply Hp|]. cbn. by rewrite Hown.
Qed.

Lemma active_head s owner goal_id d : validate_active_head s owner goal_id d = Ok tt ->
  exists row head, gd_rows d !! GoalId_0 goal_id = Some row /\ goal_owner row = OwnerId_0 owner /\ goal_state row = Active /\
    gd_heads d !! goal_handle row = Some head /\ ghead_t head = GoalId_0 goal_id.
Proof.
  unfold validate_active_head. intros E. destruct (select_goal_owned _ _ _ _) as [row|] eqn:Er; [|discriminate E].
  apply select_owned_goal in Er as (Er & Ho & _). case_bool_decide as Ha; [|discriminate E]. cbn [negb] in E.
  destruct (select_goal_head _ _ _) as [head|] eqn:Eh; [|discriminate E]. apply select_head_row in Eh. cbn in E.
  destruct (_ =? _)%N eqn:Et; [|discriminate E]. apply N.eqb_eq in Et. by exists row, head.
Qed.

Lemma lock_children_stepped req children : tx_pc tx = LockChildren req children ->
  targets_free w id (children_targets children) = true ->
  validate_active_head (tx_session tx) (dec_owner req) (dec_parent_goal_id req) db = Ok tt ->
  stepped w id tx (goto (PersistChildren req children) (hold_targets (children_targets children) tx)) db g.
Proof.
  intros Hpc Hfree Hparent. destruct (wo_txs _ Hw _ _ Htx) as [_ _ Hall]. rewrite Hpc in Hall. destruct Hall as [Hall Hprep].
  apply hold_targets_stepped; [done|]. split_and!.
  - eapply list.Forall_impl; [exact Hall|]. intros c. apply child_ok_more. split; [done..| |done]. intros t Ht. apply elem_of_app. by right.
  - destruct children as [|c children]; [by left|right]. apply active_head in Hparent as (row & head & Er & Ho & Ha & Eh & Ht).
    apply list.Forall_cons in Hall as [[Hi (_ & _ & _ & Hdep) Hp] _]. apply list.Forall_cons in Hprep as [[p Ep] _].
    destruct (Hp _ Ep) as [Hpok Hfence]. destruct (gok_head _ (wo_goals _ Hw) _ _ Eh) as (row' & Er' & _ & Hho).
    rewrite Ht, Er in Er'. injection Er' as <-. exists row. split; [|done]. exists head. split_and!; try done.
    + apply elem_of_app. left. unfold children_targets. cbn. rewrite Ep. apply elem_of_app. left.
      apply (po_targets _ _ _ Hpok). right. destruct (po_command _ _ _ Hpok) as (_ & -> & _). by apply list_elem_of_fmap_2.
    + cbn. rewrite Hfence. congruence.
  - intros t Ht. apply elem_of_app. by left.
Qed.

Lemma persist_children_stepped env req children written : tx_pc tx = PersistChildren req children ->
  persist_children env (tx_session tx) children db = Some written ->
  stepped w id tx
    (answered match written with Ok (_, outcomes) => Ok (WroteChildren (mk_DecomposeGoalOutcome outcomes false)) | Err e => Err e end tx)
    match written with Ok (db', _) => db' | Err _ => db end g.
Proof.
  intros Hpc E. destruct (wo_txs _ Hw _ _ Htx) as [_ _ Hall]. rewrite Hpc in Hall. destruct Hall as (Hall & Hparent & Htg).
  destruct written as [[db' outcomes]|e]; [|eauto]. apply answered_stepped; [eauto|].
  eapply begins_writes, persist_children_ok; eauto.
Qed.

(** Every step keeps the transaction's facts. *)
Lemma tx_step_ok env tx' db' g' : (forall i, goal_draws_ok (env i)) ->
  tx_step w id env tx = Some (tx', db', g') -> stepped w id tx tx' db' g'.
Proof.
  intros Henv E. unfold tx_step in E. cbv zeta in E. destruct (tx_pc tx) eqn:Hpc.
  - injection E as <- <- <-. by apply probe_stepped.
  - injection E as <- <- <-. by apply evidence_stepped.
  - injection E as <- <- <-. by eapply plan_stepped.
  - destruct (request_free _ _ _); [|discriminate E]. injection E as <- <- <-. apply hold_request_stepped.
    destruct (wo_txs _ Hw _ _ Htx) as [_ _ Hi]. rewrite Hpc in Hi.
    destruct (found_request _ _ _); [|done]. destruct Hi as (_ & command & ? & ? & _). by exists command.
  - destruct (prepare_goal_insert _ _ _ _ _) as [[r g1]|] eqn:Ep; [|discriminate E].
    eapply prepare_stepped in Ep; [|done..]. by destruct r; injection E as <- <- <-.
  - destruct (targets_free _ _ _) eqn:Hfree; [|discriminate E].
    destruct (lock_and_validate_prepared_goal_write _ _ _) as [[]|] eqn:El; injection E as <- <- <-; [|eauto].
    by apply lock_stepped.
  - destruct (guard_step _ _ _ _) as [[]|] eqn:Eg; injection E as <- <- <-; [by apply guard_stepped|eauto].
  - destruct (persist_step _ _ _ _ _ _ _) as [[tx1 db1]|] eqn:Ep; [|discriminate E]. injection E as <- <- <-.
    by eapply persist_stepped.
  - destruct (tx_request tx); [|discriminate E]. injection E as <- <- <-. unfold answer_replay. eauto.
  - destruct (validate_active_head _ _ _ _) as [[]|]; injection E as <- <- <-; [|eauto]. apply goto_stepped; [eauto|constructor].
  - destruct todo as [|[child declaration] todo]; [injection E as <- <- <-; by apply planned_stepped|].
    destruct (plan_child _ _ _ _) as [insert|] eqn:Ec; injection E as <- <- <-; [|eauto]. by eapply plan_child_stepped.
  - destruct (request_free _ _ _); [|discriminate E]. injection E as <- <- <-. by apply lock_child_stepped.
  - destruct (prepare_goal_insert _ _ _ _ _) as [[r g1]|] eqn:Ep; [|discriminate E].
    eapply prepare_child_stepped in Ep; [|done..]. by destruct r; injection E as <- <- <-.
  - injection E as <- <- <-. eauto.
  - destruct (targets_free _ _ _) eqn:Hfree; [|discriminate E].
    destruct (validate_active_head _ _ _ _) as [[]|] eqn:El; injection E as <- <- <-; [|eauto]. by apply lock_children_stepped.
  - destruct (persist_children _ _ _ _) as [written|] eqn:Ep; [|discriminate E]. eapply persist_children_stepped in Ep; [|done].
    by destruct written as [[db1 outcomes]|]; injection E as <- <- <-.
  - discriminate E.
  - discriminate E.
Qed.

End one_step.

(** ** Every schedule *)

Lemma generator_insert w db' txs process g' p :
  (forall q, generator_ok (goal_generator w q)) -> generator_ok g' ->
  generator_ok (goal_generator (mk_GoalWorld db' (<[process := g']> (gw_generators w)) txs) p).
Proof.
  intros Hall Hg. unfold goal_generator. cbn. destruct (decide (p = process)) as [->|Hne].
  - by rewrite lookup_insert_eq.
  - rewrite lookup_insert_ne by done. apply Hall.
Qed.

(** The tables change, and nothing a transaction relies on. *)
Lemma quiet_world w db' : world_ok w -> goals_ok db' ->
  (forall id tx, gw_txs w !! id = Some tx -> undisturbed tx (gw_db w) db') ->
  world_ok (mk_GoalWorld db' (gw_generators w) (gw_txs w)).
Proof.
  intros [Hg Hgen Htxs Hex] Hok Hun. split; try done. cbn. intros id tx E. eapply tx_ok_later; [by eapply Hun|by eapply Htxs].
Qed.

Lemma run_ok_world w id tx tx' db' g' : world_ok w -> gw_txs w !! id = Some tx ->
  stepped w id tx tx' db' g' ->
  world_ok (mk_GoalWorld db' (<[tx_process tx := g']> (gw_generators w)) (<[id := tx']> (gw_txs w))).
Proof.
  intros Hw Htx [Hok Hg Hwr Htg]. pose proof Hw as [Hgoals Hgen Htxs Hex]. split.
  - by eapply writes_ok.
  - intros p. by apply generator_insert.
  - cbn. intros id' tx2. destruct (decide (id' = id)) as [->|Hne].
    + rewrite lookup_insert_eq. by intros [= <-].
    + rewrite lookup_insert_ne by done. intros E. eapply tx_ok_later; [|by eapply Htxs].
      eapply writes_undisturbed; [done..|]. intros t. by eapply (Hex id id').
  - cbn. intros i j txi txj t Hne Ei Ej Hi Hj.
    destruct (decide (i = id)) as [->|Hi']; [|rewrite lookup_insert_ne in Ei by done];
      (destruct (decide (j = id)) as [->|Hj']; [|rewrite lookup_insert_ne in Ej by done]); try done.
    + rewrite lookup_insert_eq in Ei. injection Ei as <-. destruct (Htg _ Hi) as [Hold|Hfree]; [|by eapply Hfree].
      by eapply (Hex id j).
    + rewrite lookup_insert_eq in Ej. injection Ej as <-. destruct (Htg _ Hj) as [Hold|Hfree]; [|by eapply Hfree].
      by eapply (Hex id i).
    + by eapply (Hex i j).
Qed.

Lemma exec_ok w w' e : world_ok w -> event_ok e -> exec w e = Some w' -> world_ok w'.
Proof.
  intros Hw He E. pose proof Hw as [Hgoals Hgen Htxs Hex]. destruct e; cbn [exec] in E.
  - destruct (gw_txs w !! id) eqn:En; [discriminate E|]. injection E as <-. destruct He. split; cbn; try done.
    + intros i tx [[<- <-]|[_ E]]%lookup_insert_Some; [by split|by eapply Htxs].
    + intros i j txi txj t Hne [[<- <-]|[? Ei]]%lookup_insert_Some [[<- <-]|[? Ej]]%lookup_insert_Some; try done.
      * by intros ?%not_elem_of_nil.
      * intros _. by intros ?%not_elem_of_nil.
      * by apply (Hex i j).
  - destruct (gw_txs w !! id) as [tx|] eqn:Etx; [|discriminate E].
    destruct (tx_step w id env tx) as [[[tx' db'] g']|] eqn:Es; [|discriminate E]. injection E as <-.
    eapply run_ok_world; [done..|]. by eapply tx_step_ok.
  - injection E as <-. split; cbn; try done.
    + intros i tx [_ E]%lookup_delete_Some. by eapply Htxs.
    + intros i j txi txj t Hne [_ Ei]%lookup_delete_Some [_ Ej]%lookup_delete_Some. by apply (Hex i j).
  - destruct (owner_free w owner) eqn:Hfree; [|discriminate E]. injection E as <-.
    apply bool_decide_eq_true in Hfree. apply quiet_world; [done|by apply erase_goals_ok|].
    intros i tx Ei. apply erase_undisturbed; [done|]. by apply (Hfree i).
  - destruct (_ && _) eqn:Ec; [|discriminate E]. injection E as <-. apply andb_prop in Ec as [_ Hm%bool_decide_eq_true].
    apply quiet_world; [done|by apply elsewhere_ok|]. intros i tx Ei. by apply elsewhere_undisturbed.
Qed.

Lemma empty_goals_ok m : world_ok (empty_goals m).
Proof.
  split; cbn; try done. split; cbn; try done.
  - by exists (fun _ => 0).
  - by intros handle row (head & ? & _).
  - by intros t t' row row' (? & _).
Qed.

Lemma goal_world_ok w : reachable w -> world_ok w.
Proof.
  intros [m Hr]. revert Hr. apply (rtc_ind_r (fun w => world_ok w)); [apply empty_goals_ok|].
  intros x y _ (e & He & E) Hx. by eapply exec_ok.
Qed.

End schedules.
