(* ===== verification/Goals.v ===== *)
(** * Goals: what every schedule of goal writes guarantees

    Of the worlds of [GoalSteps.reachable]: goal trees and histories, no lost
    update, requests written once and replayed, and transactions that end. *)

From S2P Require Import Prelude Ids Bytes GroupForest Text Json Publication Errors OwnerScope Authz Groups MemoryUuid.
From S2P Require Import Idempotency MemoryStore Admission MemoryLifecycle MemorySeries GoalWrite GoalStore GoalSteps.
From S2P Require Import GoalTree GoalTransactions GoalInvariant.

Section goals.
Context `{PgText, Digest, UuidText, Jsonb}.

Lemma exec_all_steps w w' events : Forall event_ok events -> exec_all w events = Some w' -> rtc goal_step w w'.
Proof.
  intros Hev. revert w. induction Hev as [|e events He _ IH]; intros w E; cbn in E; [injection E as <-; apply rtc_refl|].
  destruct (exec w e) as [w1|] eqn:E1; [|discriminate E]. eapply rtc_l; [by exists e|by apply IH].
Qed.

(** ** Trees *)

(** [child] is decomposed under [parent]. *)
Definition decomposed (db : GoalDb) (child parent : Uuid) : Prop := exists row, child_of db parent child row.

Lemma decomposed_acyclic db handle : goals_ok db -> ~ tc (decomposed db) handle handle.
Proof.
  intros Hok. destruct (gok_rank _ Hok) as [rank Hrank].
  assert (forall a b, tc (decomposed db) a b -> rank b < rank a) as Hdown.
  { assert (forall a b, decomposed db a b -> rank b < rank a) as Hone.
    { intros a b (row & (head & Eh & Er) & Hp). destruct (gok_head _ Hok _ _ Eh) as (r & Er' & <- & _).
      rewrite Er in Er'. injection Er' as <-. by eapply Hrank. }
    intros a b Hab. induction Hab as [a b Hab|a b c Hab _ IH]; [by apply Hone|]. specialize (Hone _ _ Hab). lia. }
  intros Hc%Hdown. lia.
Qed.

(** C11. Whatever order goal writes, retries, crashes and erasures come in, the
    goals form trees: no goal is its own ancestor and a child has its parent's
    owner; a closed goal has no open child; and an achieved goal with children
    has an achieved child. *)
Theorem goal_trees_close (w : GoalWorld) (Hw : reachable w) (parent : Uuid) (prow : GoalRow)
    (Hparent : current (gw_db w) parent prow) :
  ~ tc (decomposed (gw_db w)) parent parent /\
  (forall handle row, child_of (gw_db w) parent handle row ->
     goal_owner row = goal_owner prow /\
     (is_open (goal_state prow) = false -> is_open (goal_state row) = false) /\
     (goal_state prow = Achieved ->
        exists handle' row', child_of (gw_db w) parent handle' row' /\ goal_state row' = Achieved)).
Proof.
  apply goal_world_ok in Hw as [Hok _ _ _]. split; [by apply decomposed_acyclic|]. intros handle row Hc.
  pose proof (gok_closed _ Hok _ _ Hparent) as Hcc. split_and!; [by eapply child_owner| |].
  - intros Hclosed. destruct (Hcc Hclosed) as [Hall _]. by eapply Hall.
  - intros Hst. destruct Hcc as [_ Hach]; [by rewrite Hst|]. by eapply Hach.
Qed.

(** ** Histories *)

(** The versions of a series, oldest first. *)
Definition history (db : GoalDb) (handle : Uuid) : list (Uuid * GoalRow) :=
  sort_by (fun a b => (a.1 <=? b.1)%N)
    (filter (fun entry : Uuid * GoalRow => goal_handle entry.2 = handle) (map_to_list (gd_rows db))).

Lemma history_elem db handle t row : (t, row) ∈ history db handle <-> gd_rows db !! t = Some row /\ goal_handle row = handle.
Proof. unfold history. rewrite sort_by_elem_of, list_elem_of_filter, elem_of_map_to_list. cbn. tauto. Qed.

Lemma history_sorted db handle i j t row t' row' : i < j ->
  history db handle !! i = Some (t, row) -> history db handle !! j = Some (t', row') -> (t < t')%N.
Proof.
  intros Hlt Ei Ej. assert ((t <=? t')%N = true) as Hle.
  { apply (StronglySorted_lookup (fun a b : Uuid * GoalRow => (a.1 <=? b.1)%N = true) (history db handle) i j (t, row) (t', row'));
      [|done..].
    apply sort_by_StronglySorted.
    - intros a b. rewrite !N.leb_le. lia.
    - intros a b c. rewrite !N.leb_le. lia. }
  apply N.leb_le in Hle. assert (t <> t') as Hne; [|lia]. intros <-.
  assert (row = row') as <-.
  { apply list_elem_of_lookup_2, history_elem in Ei as [Ei _], Ej as [Ej _]. congruence. }
  assert (NoDup (history db handle)) as Hnd.
  { unfold history. rewrite sort_by_NoDup. apply list.NoDup_filter, NoDup_map_to_list. }
  pose proof (NoDup_lookup _ _ _ _ Hnd Ei Ej). lia.
Qed.

(** Position and age agree. *)
Lemma history_position db handle i j t row t' row' : history db handle !! i = Some (t, row) ->
  history db handle !! j = Some (t', row') -> (t <= t')%N -> i <= j.
Proof.
  intros Ei Ej Hle. destruct (decide (i <= j)); [done|]. assert (t' < t)%N; [|lia].
  eapply (history_sorted db handle j i); [lia|done..].
Qed.

Lemma history_index db handle t row : gd_rows db !! t = Some row -> goal_handle row = handle ->
  exists i, history db handle !! i = Some (t, row).
Proof. intros Er Hh. by apply list_elem_of_lookup_1, history_elem. Qed.

Lemma history_next db handle i t row t' row' : history db handle !! i = Some (t, row) ->
  history db handle !! S i = Some (t', row') -> succeeds db t t' row row'.
Proof.
  intros Ei Ej. pose proof (history_sorted _ _ i (S i) _ _ _ _ ltac:(lia) Ei Ej) as Hlt.
  pose proof Ei as [Er Hh]%list_elem_of_lookup_2%history_elem. pose proof Ej as [Er' Hh']%list_elem_of_lookup_2%history_elem.
  split_and!; try done; [congruence|]. intros u between Eu Hu. destruct (history_index db handle u between) as [k Ek]; [done|congruence|].
  destruct (decide (k <= i)) as [Hk|Hk]; [left|right].
  - destruct (decide (u <= t)%N); [done|]. pose proof (history_position _ _ _ _ _ _ _ _ Ei Ek ltac:(lia)) as Hik.
    assert (k = i) as -> by lia. rewrite Ei in Ek. injection Ek as <- <-. lia.
  - destruct (decide (t' <= u)%N); [done|]. pose proof (history_position _ _ _ _ _ _ _ _ Ek Ej ltac:(lia)) as Hkj.
    assert (k = S i) as -> by lia. rewrite Ej in Ek. injection Ek as <- <-. lia.
Qed.

(** C13. Every series' history is a legal one: it begins Active, each version
    moves to a state the one before allows, only the last may be closed, and
    that last one is the series' head; owner and parent never change. *)
Theorem goal_histories_are_legal (w : GoalWorld) (Hw : reachable w) (handle : Uuid) (head : GoalHeadRow)
    (Hhead : gd_heads (gw_db w) !! handle = Some head) :
  let versions := history (gw_db w) handle in
  (exists t row, versions !! 0 = Some (t, row) /\ goal_state row = Active) /\
  (forall i t row t' row', versions !! i = Some (t, row) -> versions !! S i = Some (t', row') ->
     (t < t')%N /\ legal_next (goal_state row) (goal_state row') = true /\ is_open (goal_state row) = true /\
     goal_owner row' = goal_owner row /\ goal_parent_handle row' = goal_parent_handle row) /\
  exists row, versions !! pred (length versions) = Some (ghead_t head, row) /\ goal_owner row = ghead_owner head.
Proof.
  apply goal_world_ok in Hw as [Hok _ _ _]. set (db := gw_db w) in *. intros versions.
  destruct (gok_head _ Hok _ _ Hhead) as (hrow & Ehr & Hhh & Hho).
  destruct (history_index db handle _ _ Ehr Hhh) as [n En]. split_and!.
  - destruct (history db handle) as [|[t row] l] eqn:El; [discriminate En|]. exists t, row.
    split; [done|]. assert (history db handle !! 0 = Some (t, row)) as E0 by by rewrite El.
    pose proof E0 as [Er Hh]%list_elem_of_lookup_2%history_elem. apply (gok_first _ Hok _ _ Er).
    intros u other Eu Hu. destruct (history_index db handle u other) as [[|k] Ek]; [done|congruence| |].
    + rewrite E0 in Ek. injection Ek as <- _. lia.
    + pose proof (history_sorted db handle 0 (S k) _ _ _ _ ltac:(lia) E0 Ek). lia.
  - intros i t row t' row' Ei Ej. pose proof (history_next _ _ _ _ _ _ _ Ei Ej) as Hs.
    pose proof (gok_next _ Hok _ _ _ _ Hs) as Hlegal. destruct Hs as (Er & Er' & Hh & Hlt & _).
    split_and!; [done|done|by eapply legal_next_open|by eapply same_series_owner|by eapply (gok_fixed _ Hok)].
  - exists hrow. split; [|done]. unfold versions.
    destruct (history db handle !! pred (length (history db handle))) as [[t row]|] eqn:El.
    + pose proof El as [Er Hh]%list_elem_of_lookup_2%history_elem. destruct (gok_newest _ Hok _ _ Er) as (h & Eh & _ & Hle & _).
      rewrite Hh, Hhead in Eh. injection Eh as <-.
      pose proof (history_position _ _ _ _ _ _ _ _ El En Hle). apply lookup_lt_Some in En as Hn.
      assert (n = pred (length (history db handle))) as -> by lia. congruence.
    + apply lookup_ge_None in El. apply lookup_lt_Some in En. lia.
Qed.

(** ** Updates *)

(** Only the last step of a transaction writes. *)
Lemma tx_step_db w id env tx tx' db' g' : tx_step w id env tx = Some (tx', db', g') ->
  db' = gw_db w \/
  (exists declaration insert retried p outcome, tx_pc tx = Persist declaration insert retried p /\
     persist_goal (env 0) (tx_session tx) insert p declaration (gw_db w) = Some (Ok (db', outcome)) /\
     tx' = answered (Ok (WroteGoal outcome)) tx) \/
  exists req children outcomes, tx_pc tx = PersistChildren req children /\
     persist_children env (tx_session tx) children (gw_db w) = Some (Ok (db', outcomes)).
Proof.
  intros E. unfold tx_step in E. cbv zeta in E. destruct (tx_pc tx) eqn:Hpc;
    try (repeat case_match; simplify_eq; left; done).
  - unfold persist_step in E. destruct (persist_goal _ _ _ _ _ _) as [[[db1 outcome]|e]|] eqn:Ep; [|left; by injection E|done].
    destruct (if tx_goal_permit tx then _ else _); injection E as <- <- <-; [|by left].
    right. left. by exists declaration, insert, retried, p, outcome.
  - destruct (persist_children _ _ _ _) as [[[db1 outcomes]|]|] eqn:Ep; [|left; by injection E|done].
    injection E as <- <- <-. right. right. by exists req, children, outcomes.
Qed.

Lemma run_tx w w' id env : exec w (Run id env) = Some w' -> exists tx tx' g', gw_txs w !! id = Some tx /\
  tx_step w id env tx = Some (tx', gw_db w', g') /\ gw_txs w' !! id = Some tx'.
Proof.
  cbn [exec]. destruct (gw_txs w !! id) as [tx|] eqn:Etx; [|done].
  destruct (tx_step w id env tx) as [[[tx' db'] g']|] eqn:Es; [|done]. intros [= <-]. exists tx, tx', g'.
  split_and!; [done|done|]. cbn. by rewrite lookup_insert_eq.
Qed.

(** A command moves the head it named. *)
Lemma persist_goal_moves env s tx declaration insert p db db' outcome handle head :
  goals_ok db -> locked_ok db tx declaration insert p -> guarded db insert p ->
  persist_goal env s insert p declaration db = Some (Ok (db', outcome)) -> gd_heads db !! handle = Some head ->
  gd_heads db' !! handle = Some head \/
  in_expected_prior insert = Some (mk_GoalId (ghead_t head)) /\ OwnerId_0 (dr_owner (in_draft insert)) = ghead_owner head /\
  exists head' row row', gd_heads db' !! handle = Some head' /\ (ghead_t head < ghead_t head')%N /\
    gd_rows db !! ghead_t head = Some row /\ gd_rows db' !! ghead_t head' = Some row' /\
    legal_next (goal_state row) (goal_state row') = true /\ goal_request_id row' = dr_request_id (in_draft insert).
Proof.
  intros Hok Hl Hguard E Hh. pose proof Hl as [_ _ Hp _ _].
  eapply persist_goal_ok in E as [Hper [schema Hap]]; [|done..]. destruct (decide (handle = pg_handle p)) as [->|Hne].
  2:{ left. by rewrite (ap_head_lookup _ _ _ _ _ Hap). }
  right. destruct (ap_series _ _ _ _ _ Hap) as [(Hnone & _)|(h & prior & Eh & Er & _ & Ho & Hlt & _ & Hlegal & _)];
    cbn in *; [congruence|]. rewrite Hh in Eh. injection Eh as <-.
  pose proof (po_series _ _ _ Hp) as Hs. destruct (in_expected_prior insert) as [named|] eqn:En.
  2:{ assert (pg_fresh_handle p = true) as Hf by (destruct (in_change insert); apply Hs).
      destruct (per_held _ _ _ _ _ _ Hper) as [?|(? & _ & ? & _)]; congruence. }
  destruct (locked_head _ _ _ (per_locked _ _ _ _ _ _ Hper)) as [Hhead Hprior]. rewrite (po_prior _ _ _ Hp), En in Hprior.
  rewrite Hprior in Hhead by (by eexists). apply for_update_head in Hhead as (h & Eh & Ht & _).
  rewrite Hh in Eh. injection Eh as <-. split; [rewrite Ht; by destruct named|].
  split; [by rewrite <-(po_owner _ _ _ Hp)|]. destruct (ap_head_new _ _ _ _ _ Hap) as (head' & Eh' & Ht' & _).
  exists head', prior, (goal_revision p schema). rewrite Ht'. split_and!; try done.
  - by rewrite (ap_lookup _ _ _ _ _ Hap), decide_True.
  - by destruct (po_command _ _ _ Hp) as (_ & _ & _ & ?).
Qed.

(** C12. No update is lost: an event leaves a series' head where it is, or erases
    its owner, or is the write of a command that named exactly this head as its
    prior; then the new version is newer, of the command's request, and in a
    state the old one allows, so the head of a closed series never moves. *)
Theorem head_moves_only_from_its_prior (w w' : GoalWorld) (e : GoalEvent) (Hw : reachable w) (He : event_ok e)
    (Hexec : exec w e = Some w') (handle : Uuid) (head : GoalHeadRow)
    (Hhead : gd_heads (gw_db w) !! handle = Some head) :
  gd_heads (gw_db w') !! handle = Some head \/
  (e = EraseOwner (ghead_owner head) /\ gd_heads (gw_db w') !! handle = None) \/
  exists id env tx command head' row row', e = Run id env /\ gw_txs w !! id = Some tx /\ tx_request tx = OneGoal command /\
    prior_of command = Some (mk_GoalId (ghead_t head)) /\ OwnerId_0 (GoalCommand.owner command) = ghead_owner head /\
    gd_heads (gw_db w') !! handle = Some head' /\ (ghead_t head < ghead_t head')%N /\
    gd_rows (gw_db w) !! ghead_t head = Some row /\ gd_rows (gw_db w') !! ghead_t head' = Some row' /\
    legal_next (goal_state row) (goal_state row') = true /\ goal_request_id row' = GoalCommand.request_id command.
Proof.
  apply goal_world_ok in Hw. destruct e as [id process s permit writer store request|id env|id|owner|m].
  - left. cbn [exec] in Hexec. destruct (gw_txs w !! id); [done|]. by injection Hexec as <-.
  - apply run_tx in Hexec as (tx & tx' & g' & Etx & Es & _).
    destruct (tx_step_db _ _ _ _ _ _ _ Es) as [->|[(declaration & insert & retried & p & outcome & Hpc & Ep & _)
                                                     |(req & children & outcomes & Hpc & Ep)]]; [by left| |left].
    + destruct (wo_txs _ Hw _ _ Etx) as [_ _ Hl]. rewrite Hpc in Hl. destruct Hl as [Hl Hguard].
      pose proof Hl as [_ (command & Er & _ & [Hprior Hown Hrid _]) _ _ _].
      eapply persist_goal_moves in Ep as [?|(Hp & Ho & head' & row & row' & ? & ? & ? & ? & ? & Hr)]; eauto using wo_goals.
      right. right. exists id, env, tx, command, head', row, row'. split_and!; congruence.
    + destruct (wo_txs _ Hw _ _ Etx) as [_ _ Hall]. rewrite Hpc in Hall. destruct Hall as (Hall & Hparent & Htg).
      eapply begins_heads; [|done]. eapply persist_children_ok; eauto using wo_goals.
  - left. by injection Hexec as <-.
  - cbn [exec] in Hexec. destruct (owner_free w owner); [|done]. injection Hexec as <-. cbn [gw_db].
    destruct (decide (ghead_owner head = owner)) as [Ho|Ho]; [right; left|left; by apply erase_heads].
    split; [by rewrite Ho|]. apply eq_None_not_Some. intros [h [Eh Hne]%erase_heads]. congruence.
  - left. cbn [exec] in Hexec. destruct (_ && _); [|done]. by injection Hexec as <-.
Qed.

(** ** Requests *)

(** The goal a request wrote, and its declaration. *)
Definition recorded (db : GoalDb) (key : Uuid * rstring) (d : GoalReplayRow) (row : GoalRow) : Prop :=
  gd_declarations db !! key = Some d /\ gd_rows db !! grep_goal_t d = Some row /\ goal_owner row = key.1.

Lemma writes_recorded locks db db' key d row : writes locks db db' -> recorded db key d row -> recorded db' key d row.
Proof.
  induction 1 as [|db db1 db' (t & r & Hap) _ IH]; [done|]. intros (Ed & Er & Ho). apply IH. split_and!; [|by eapply ap_old|done].
  destruct (ap_declared _ _ _ _ _ Hap) as (d0 & _ & Hnone & ->). rewrite lookup_insert_ne; [done|]. congruence.
Qed.

Lemma exec_recorded w w' e key d row : world_ok w -> event_ok e -> e <> EraseOwner key.1 -> exec w e = Some w' ->
  recorded (gw_db w) key d row -> recorded (gw_db w') key d row.
Proof.
  intros Hw He Hne E Hrec. destruct e; cbn [exec] in E.
  - destruct (gw_txs w !! id); [done|]. by injection E as <-.
  - apply run_tx in E as (tx & tx' & g' & Etx & Es & _). apply tx_step_ok in Es as [_ _ Hwr _]; [|done..].
    by eapply writes_recorded.
  - by injection E as <-.
  - destruct (owner_free w owner); [|done]. injection E as <-. destruct Hrec as (Ed & Er & Ho). cbn [gw_db].
    split_and!; [|by apply erase_rows; split; [|congruence]|done]. apply erase_declarations. split; [done|congruence].
  - destruct (_ && _); [|done]. by injection E as <-.
Qed.

Lemma exec_all_recorded w w' events key d row : world_ok w -> Forall event_ok events -> EraseOwner key.1 ∉ events ->
  exec_all w events = Some w' -> recorded (gw_db w) key d row -> world_ok w' /\ recorded (gw_db w') key d row.
Proof.
  revert w. induction events as [|e events IH]; intros w Hw Hev Hne E Hrec; cbn in E; [by injection E as <-|].
  destruct (exec w e) as [w1|] eqn:E1; [|done]. apply list.Forall_cons in Hev as [He Hev].
  apply not_elem_of_cons in Hne as [Hne1 Hne]. apply (IH w1); [by eapply exec_ok|done..|].
  eapply exec_recorded; [done..| |done|done]. congruence.
Qed.

(** What a request with this key is answered. *)
Lemma resolve_recorded s owner request_id declaration db d row key :
  recorded db (OwnerId_0 owner, request_id) d row -> goal_reads s (OwnerId_0 owner) = true ->
  IdempotencyKey.new request_id = Ok key ->
  resolve_goal_replay s owner request_id declaration db =
    if jsonb_eq (grep_declaration d) declaration
    then Ok (Some (mk_GoalWriteOutcome (mk_GoalId (grep_goal_t d)) (mk_GoalHandle (goal_handle row)) (grep_edge_count d) true))
    else Err (StorageIdempotencyConflict (IdempotencyKey.as_str key) (Some (grep_goal_t d))).
Proof.
  intros (Ed & Er & Ho) Hr Hk. unfold resolve_goal_replay, select_request, select_goal. rewrite Ed. cbv beta iota zeta.
  rewrite Er. cbv beta iota. cbn [fst] in Ho. rewrite Ho, Hr, Hk. cbn. by destruct (jsonb_eq _ _).
Qed.

Lemma replay_marked s owner request_id declaration db outcome :
  resolve_goal_replay s owner request_id declaration db = Ok (Some outcome) -> gw_idempotent_replay outcome = true.
Proof.
  unfold resolve_goal_replay. intros E. destruct (select_request _ _ _ _) as [[[t row] stored]|]; [|discriminate E].
  destruct (map_err _ _) as [key|]; [|discriminate E]. cbv zeta in E. destruct (judge _ _) as [[|t']|]; [discriminate E| |discriminate E].
  unfold replay_outcome_of in E. destruct (ok_or _ _) as [count|]; [|discriminate E]. by injection E as <-.
Qed.

(** Only its own write answers a transaction with a new goal. *)
Lemma fresh_answer w id env tx tx' db' g' outcome : tx_step w id env tx = Some (tx', db', g') ->
  tx_pc tx' = Answered (Ok (WroteGoal outcome)) -> gw_idempotent_replay outcome = false ->
  exists declaration insert retried p, tx_pc tx = Persist declaration insert retried p /\
    persist_goal (env 0) (tx_session tx) insert p declaration (gw_db w) = Some (Ok (db', outcome)).
Proof.
  intros E Hans Hnew. unfold tx_step in E. cbv zeta in E. destruct (tx_pc tx) eqn:Hpc.
  - injection E as <- <- <-. unfold probe_step, answer_replay in Hans. destruct (tx_request tx) as [command|].
    + destruct (GoalCommand.screen _ _); [|discriminate Hans].
      destruct (if tx_goal_permit tx then _ else _); [|discriminate Hans].
      destruct (GoalCommand.declaration command) as [declaration|]; [|discriminate Hans].
      destruct (resolve_goal_replay _ _ _ _ _) as [[replay|]|] eqn:Er; [|discriminate Hans..].
      cbn in Hans. injection Hans as <-. apply replay_marked in Er. congruence.
    + by destruct (let? declarations := _ in _) as [[? []]|].
  - injection E as <- <- <-. unfold evidence_step in Hans. destruct (tx_request tx); [|congruence].
    by destruct (GoalCommand.evidence _ _ _ _).
  - injection E as <- <- <-. unfold plan_step in Hans. destruct (tx_request tx); [|congruence].
    by destruct (GoalCommand.plan _ _ _ _ _ _) as [[]|].
  - destruct (request_free _ _ _); [|done]. injection E as <- <- <-. cbn in Hans. by destruct (found_request _ _ _).
  - destruct (prepare_goal_insert _ _ _ _ _) as [[[] ?]|]; [by injection E as <- <- <-..|done].
  - destruct (targets_free _ _ _); [|done]. by destruct (lock_and_validate_prepared_goal_write _ _ _); injection E as <- <- <-.
  - by destruct (guard_step _ _ _ _); injection E as <- <- <-.
  - unfold persist_step in E. destruct (persist_goal _ _ _ _ _ _) as [[[db1 o]|e]|] eqn:Ep; [| |done].
    + destruct (if tx_goal_permit tx then _ else _); injection E as <- <- <-; [|discriminate Hans].
      injection Hans as <-. by exists declaration, insert, retried, p.
    + injection E as <- <- <-. by destruct e, retried.
  - destruct (tx_request tx); [|done]. injection E as <- <- <-. unfold answer_replay, require_goal_replay in Hans.
    destruct (resolve_goal_replay _ _ _ _ _) as [[replay|]|] eqn:Er; [|discriminate Hans..]. cbn in Hans.
    destruct (if tx_goal_permit tx then _ else _); [|discriminate Hans]. injection Hans as <-. apply replay_marked in Er. congruence.
  - by destruct (validate_active_head _ _ _ _); injection E as <- <- <-.
  - destruct todo as [|[child declaration] todo].
    + injection E as <- <- <-. cbn in Hans. unfold prepared_all in Hans. by destruct (all_prepared _).
    + by destruct (plan_child _ _ _ _); injection E as <- <- <-.
  - destruct (request_free _ _ _); [|done]. injection E as <- <- <-. cbn in Hans. by destruct (found_request _ _ _).
  - destruct (prepare_goal_insert _ _ _ _ _) as [[[] ?]|]; [by injection E as <- <- <-..|done].
  - injection E as <- <- <-. cbn in Hans. destruct (resolve_decompose_replay_set _ _ _ _) as [[]|]; discriminate Hans.
  - destruct (targets_free _ _ _); [|done]. by destruct (validate_active_head _ _ _ _); injection E as <- <- <-.
  - destruct (persist_children _ _ _ _) as [[[db1 outcomes]|]|]; [by injection E as <- <- <-..|done].
  - done.
  - done.
Qed.

(** C14. A command that committed is answered from its record ever after: until
    its owner is erased, its request id replays the very outcome to a request
    of equal declaration, and refuses any other naming the goal it wrote; and no
    other goal was or will be written under that id. *)
Theorem committed_command_replays `{!JsonbLaws} (w w1 w2 : GoalWorld) (id : nat) (env : nat -> GoalEnv) (tx tx' : GoalTx)
    (command : GoalCommand) (outcome : GoalWriteOutcome) (events : list GoalEvent) (s : GoalSession) (key : IdempotencyKey)
    (Hw : reachable w) (Henv : event_ok (Run id env)) (Hrun : exec w (Run id env) = Some w1)
    (Htx : gw_txs w !! id = Some tx) (Hcommand : tx_request tx = OneGoal command) (Htx' : gw_txs w1 !! id = Some tx')
    (Hwrote : tx_pc tx' = Answered (Ok (WroteGoal outcome))) (Hnew : gw_idempotent_replay outcome = false)
    (Hevents : Forall event_ok events) (Hkept : EraseOwner (OwnerId_0 (GoalCommand.owner command)) ∉ events)
    (Hlater : exec_all w1 events = Some w2) (Hreads : goal_reads s (OwnerId_0 (GoalCommand.owner command)) = true)
    (Hkey : IdempotencyKey.new (GoalCommand.request_id command) = Ok key) :
  let replay := mk_GoalWriteOutcome (gw_goal_id outcome) (gw_goal_handle outcome) (gw_edge_count outcome) true in
  (exists declaration, GoalCommand.declaration command = Ok declaration /\
    resolve_goal_replay s (GoalCommand.owner command) (GoalCommand.request_id command) declaration (gw_db w2) = Ok (Some replay) /\
    forall other, resolve_goal_replay s (GoalCommand.owner command) (GoalCommand.request_id command) other (gw_db w2) =
      if jsonb_eq declaration other then Ok (Some replay)
      else Err (StorageIdempotencyConflict (IdempotencyKey.as_str key) (Some (GoalId_0 (gw_goal_id outcome))))) /\
  (forall t row, gd_rows (gw_db w2) !! t = Some row -> goal_owner row = OwnerId_0 (GoalCommand.owner command) ->
     goal_request_id row = GoalCommand.request_id command -> t = GoalId_0 (gw_goal_id outcome)).
Proof.
  pose proof (goal_world_ok _ Hw) as Hok. pose proof (exec_ok _ _ _ Hok Henv Hrun) as Hok1.
  apply run_tx in Hrun as (tx0 & tx1 & g' & Etx & Es & Etx'). rewrite Htx in Etx. injection Etx as <-.
  rewrite Htx' in Etx'. injection Etx' as <-. intros replay.
  destruct (fresh_answer _ _ _ _ _ _ _ _ Es Hwrote Hnew) as (declaration & insert & retried & p & Hpc & Ep).
  destruct (wo_txs _ Hok _ _ Htx) as [_ _ Hl]. rewrite Hpc in Hl. destruct Hl as [[_ (c & Er & Ed & [_ Hown Hrid _]) Hprep _ _] _].
  rewrite Hcommand in Er. injection Er as <-.
  pose proof (persist_shape _ _ _ _ _ _ _ _ Ep) as [Hper Hout]. destruct (per_declared _ _ _ _ _ _ Hper) as [_ Hdecl].
  destruct (po_command _ _ _ Hprep) as (_ & _ & _ & Hcr). rewrite (po_owner _ _ _ Hprep), Hown, Hcr, Hrid in Hdecl.
  destruct (per_rows _ _ _ _ _ _ Hper) as [schema Hrows].
  assert (recorded (gw_db w1) (OwnerId_0 (GoalCommand.owner command), GoalCommand.request_id command)
            (mk_GoalReplayRow (pg_t p) declaration (in_edge_count insert)) (goal_revision p schema)) as Hrec.
  { split_and!; [by rewrite Hdecl, lookup_insert_eq|by rewrite Hrows, lookup_insert_eq|].
    cbn. by rewrite (po_owner _ _ _ Hprep), Hown. }
  destruct (exec_all_recorded _ _ _ (OwnerId_0 (GoalCommand.owner command), _) _ _ Hok1 Hevents Hkept Hlater Hrec) as [Hok2 Hrec2].
  assert (forall other, resolve_goal_replay s (GoalCommand.owner command) (GoalCommand.request_id command) other (gw_db w2) =
    if jsonb_eq declaration other then Ok (Some replay)
    else Err (StorageIdempotencyConflict (IdempotencyKey.as_str key) (Some (GoalId_0 (gw_goal_id outcome))))) as Hall.
  { intros other. rewrite (resolve_recorded _ _ _ _ _ _ _ _ Hrec2 Hreads Hkey). unfold replay. by rewrite Hout. }
  split; [exists declaration; split_and!; [done|by rewrite Hall, jsonb_eq_refl|done]|].
  intros t row Er Ho Hr. destruct (gok_declared _ (wo_goals _ Hok2) _ _ Er) as (d & Ed2 & <-).
  destruct Hrec2 as (Ed2' & _). rewrite Ho, Hr, Ed2' in Ed2. injection Ed2 as <-. by rewrite Hout.
Qed.

(** ** Progress *)

(** How many steps a transaction has before it, at most: one attempt is retried
    once, and each child of a decomposition takes three. *)
Definition attempt_steps (retried : bool) : nat := if retried then 0 else 5.
Definition steps_left (tx : GoalTx) : nat :=
  match tx_pc tx with
  | Probe => match tx_request tx with OneGoal _ => 13 | Decompose req => 5 + 3 * length (dec_children req) end
  | Evidence _ => 12
  | Plan _ _ => 11
  | LockRequest _ _ retried => 5 + attempt_steps retried
  | Prepare _ _ retried => 4 + attempt_steps retried
  | Lock _ _ retried _ => 3 + attempt_steps retried
  | Guard _ _ retried _ => 2 + attempt_steps retried
  | Persist _ _ retried _ => 1 + attempt_steps retried
  | RequireReplay _ | ReplayChildren _ _ | PersistChildren _ _ => 1
  | CheckParent req _ => 4 + 3 * length (dec_children req)
  | PlanChild _ todo _ => 3 + 3 * length todo
  | LockChild _ _ _ todo _ => 5 + 3 * length todo
  | PrepareChild _ _ _ todo _ => 4 + 3 * length todo
  | LockChildren _ _ => 2
  | Panicked | Answered _ => 0
  end.

Lemma step_spends w id env tx tx' db' g' : tx_ok (gw_db w) tx ->
  tx_step w id env tx = Some (tx', db', g') -> steps_left tx' < steps_left tx.
Proof.
  intros Hok E. unfold steps_left. unfold tx_step in E. cbv zeta in E. destruct Hok as [_ _ Hpc]. destruct (tx_pc tx) eqn:Epc.
  - injection E as <- <- <-. unfold probe_step, answer_replay. destruct (tx_request tx).
    + destruct (let? _ := _ in _) as [[? []]|]; cbn; lia.
    + destruct (let? _ := _ in _) as [[? []]|]; cbn; lia.
  - injection E as <- <- <-. destruct Hpc as (command & Er & _). unfold evidence_step. rewrite Er.
    destruct (GoalCommand.evidence _ _ _ _); cbn; lia.
  - injection E as <- <- <-. destruct Hpc as [(command & Er & _) _]. unfold plan_step. rewrite Er.
    destruct (GoalCommand.plan _ _ _ _ _ _) as [[]|]; cbn; lia.
  - destruct (request_free _ _ _); [|done]. injection E as <- <- <-. cbn. destruct (found_request _ _ _); lia.
  - destruct (prepare_goal_insert _ _ _ _ _) as [[[] ?]|]; [injection E as <- <- <-; cbn; lia..|done].
  - destruct (targets_free _ _ _); [|done]. destruct (lock_and_validate_prepared_goal_write _ _ _); injection E as <- <- <-; cbn; lia.
  - destruct (guard_step _ _ _ _); injection E as <- <- <-; cbn; lia.
  - unfold persist_step in E. destruct (persist_goal _ _ _ _ _ _) as [[[db1 o]|e]|]; [| |done].
    + destruct (if tx_goal_permit tx then _ else _); injection E as <- <- <-; cbn; lia.
    + injection E as <- <- <-. destruct e, retried; cbn; lia.
  - destruct (tx_request tx); [|done]. injection E as <- <- <-. cbn. lia.
  - destruct (validate_active_head _ _ _ _); injection E as <- <- <-; cbn; rewrite ?length_zip; lia.
  - destruct todo as [|[child declaration] todo].
    + injection E as <- <- <-. unfold prepared_all. destruct (all_prepared _); cbn; lia.
    + destruct (plan_child _ _ _ _); injection E as <- <- <-; cbn; lia.
  - destruct (request_free _ _ _); [|done]. injection E as <- <- <-. cbn. destruct (found_request _ _ _); lia.
  - destruct (prepare_goal_insert _ _ _ _ _) as [[[] ?]|]; [injection E as <- <- <-; cbn; lia..|done].
  - injection E as <- <- <-. cbn. lia.
  - destruct (targets_free _ _ _); [|done]. destruct (validate_active_head _ _ _ _); injection E as <- <- <-; cbn; lia.
  - destruct (persist_children _ _ _ _) as [[[db1 outcomes]|]|]; [injection E as <- <- <-; cbn; lia..|done].
  - done.
  - done.
Qed.

(** Facts written at reserved identities draw nothing, so no write panics. *)
Lemma ingest_answers env s owner writer schema identity tables m :
  ingest_unpinned_fact_at env s owner writer schema identity tables m <> None.
Proof.
  unfold ingest_unpinned_fact_at. cbv zeta.
  destruct (prepare_memory_admission_at _ _ _ _ _ _) as [[r g]|] eqn:E; [done|]. unfold prepare_memory_admission_at in E.
  cbn -[admission_fences select_head] in E. by destruct (admission_fences _ _ _ _).
Qed.

Lemma write_act_answers env s p identity m : ingest_write_act_at env s p identity m <> None.
Proof. destruct identity; [apply ingest_answers|done]. Qed.

Lemma persist_answers env s insert p declaration db : persist_goal env s insert p declaration db <> None.
Proof.
  unfold persist_goal, persist_prepared_goal_write, persist_goal_lifecycle_rows, persist_goal_change_fact.
  destruct (ensure_owner_row _ _ _) as [[groups o]|]; [|done].
  destruct (lock_and_validate_prepared_goal_write _ _ _); [|done].
  destruct (validate_goal_targets_live _ _ _ _ _); [|done].
  destruct (ingest_write_act_at _ _ _ (pg_write_act_identity p) _) as [[m1|]|] eqn:E1; [|done|by apply write_act_answers in E1].
  destruct (ingest_write_act_at _ _ _ (pg_close_fact_identity p) _) as [[m2|]|] eqn:E2; [|done|by apply write_act_answers in E2].
  destruct (advance_goal_head _ _ _) as [db1|]; [|done]. destruct (insert_goal_revision _ _ _) as [db2|]; [|done].
  destruct (ge_sidecar _ _ _ _); [|done]. destruct (pg_change_fact_identity p) as [identity|].
  - cbv zeta. destruct (_ <? 2 ^ 32)%N; [|done]. destruct (_ =? 0)%N; [done|].
    destruct (ingest_unpinned_fact_at _ _ _ _ _ _ _ _) as [[m3|]|] eqn:E3; [|done|by apply ingest_answers in E3].
    destruct (ge_capture _ _); [|done]. by destruct (record_goal_replay_declaration _ _ _ _).
  - by destruct (record_goal_replay_declaration _ _ _ _).
Qed.

Lemma persist_children_answers env s children db : persist_children env s children db <> None.
Proof.
  revert env db. induction children as [|child children IH]; intros env db; cbn [persist_children]; [done|].
  destruct (pc_prepared child) as [p|]; [|done].
  destruct (persist_goal _ _ _ _ _ _) as [[[db1 o]|]|] eqn:E1; [|done|by apply persist_answers in E1].
  destruct (persist_children _ _ _ _) as [[[db2 rest]|]|] eqn:E2; [done..|by apply IH in E2].
Qed.

(** ** Mints

    A preparation draws at most eight identifiers.  A mint panics on a clock
    before the epoch, and at the end of the 48-bit range of milliseconds, which
    every mint brings at most one nearer. *)

Definition near_end (millis : N) : Prop := (MAX_MILLIS < millis + 8)%N.

#[local] Instance near_end_dec millis : Decision (near_end millis).
Proof. unfold near_end. apply _. Defined.

(** A clock reading the mint refuses, now or within a preparation. *)
Definition bad_clock (now : SystemTime) : Prop :=
  match clock_millis now with Some millis => near_end millis | None => True end.

#[local] Instance bad_clock_dec now : Decision (bad_clock now).
Proof. unfold bad_clock. destruct (clock_millis now); apply _. Defined.

Definition stored_version (db : GoalDb) (t : Uuid) : Prop :=
  is_Some (gd_rows db !! t) \/ exists handle head, gd_heads db !! handle = Some head /\ ghead_t head = t.

(** A preparation's mints may panic: a clock it reads is bad, or the process has
    minted, or a Goal version is stored, at the very end of the range. *)
Definition mint_panics (env : GoalEnv) (g : Generator) (db : GoalDb) : Prop :=
  (exists i, i < 8 /\ bad_clock (ge_draw env i).1) \/
  (exists position, g_previous g = Some position /\ near_end position.1) \/
  (exists t, stored_version db t /\ near_end (timestamp_millis t)).

(** The generator has passed at most [k] milliseconds of the last eight. *)
Definition within (k : N) (g : Generator) : Prop :=
  forall position, g_previous g = Some position -> (position.1 + 8 <= MAX_MILLIS + k)%N.

Lemma mint_within k g millis random store_number floor :
  within k g -> ~ near_end millis -> (forall t, floor = Some t -> ~ near_end (timestamp_millis t)) -> (k < 8)%N ->
  exists id g', Generator.mint g millis random store_number floor = (Some id, g') /\ within (k + 1) g'.
Proof.
  unfold within, near_end. intros Hg Hm Hf Hk. unfold Generator.mint. set (seed := N.land _ _). clearbody seed.
  destruct (Generator.advance _ _ _) as [m c] eqn:E.
  assert (m + 8 <= MAX_MILLIS + (k + 1))%N as Hle.
  { unfold Generator.advance in E. destruct (opt_max _ _) as [[pm pc]|] eqn:Eo; [|injection E as <- <-; lia].
    assert (pm + 8 <= MAX_MILLIS + k)%N as Hp.
    { destruct (g_previous g) as [[gm gc]|], floor as [f|]; cbn -[timestamp_millis uuid_counter] in Eo;
        try discriminate Eo; try destruct (pos_leb _ _);
        injection Eo as <- <-; first [exact (Hg _ eq_refl)|pose proof (Hf f eq_refl); lia]. }
    destruct (millis <=? pm)%N; [destruct (_ =? _)%N|]; injection E as <- <-; lia. }
  destruct (N.ltb_spec MAX_MILLIS m); [lia|]. eexists _, _. split; [done|]. by intros position [= <-].
Qed.

Section mints.
Context (env : GoalEnv) (Hclock : forall i, i < 8 -> ~ bad_clock (ge_draw env i).1).

Lemma draw_within k i store_number g : within k g -> i < 8 -> (k < 8)%N ->
  exists id g', draw_goal_uuid env i store_number g = Some (id, g') /\ within (k + 1) g'.
Proof.
  intros Hg Hi Hk. apply Hclock in Hi. unfold bad_clock in Hi. unfold draw_goal_uuid, new_memory_uuid, mint_memory_uuid.
  destruct (ge_draw env i) as [now random]. cbn in *. destruct (clock_millis now) as [millis|]; [|done]. cbn.
  destruct (mint_within k g millis random store_number None) as (id & g' & -> & Hg'); [done..|]. cbn. by exists id, g'.
Qed.

Lemma reserve_within k i store_number g : within k g -> S i < 8 -> (k + 1 < 8)%N ->
  exists identity g', reserve_fact_identity env i store_number g = Some (identity, g') /\ within (k + 2) g'.
Proof.
  intros Hg Hi Hk. unfold reserve_fact_identity.
  destruct (draw_within k i store_number g) as (t & g1 & -> & Hg1); [done|lia|lia|]. cbn.
  destruct (draw_within (k + 1) (S i) store_number g1) as (h & g2 & -> & Hg2); [done|lia|done|]. cbn.
  eexists _, g2. split; [done|]. by replace (k + 2)%N with (k + 1 + 1)%N by lia.
Qed.

Lemma goal_t_within k store_number floor g : within k g -> (k < 8)%N ->
  (forall t, floor = Some t -> ~ near_end (timestamp_millis t)) ->
  exists t g', goal_t env 3 store_number floor g = Some (Ok t, g') /\ within (k + 1) g'.
Proof.
  intros Hg Hk Hf. unfold goal_t. destruct floor as [floor|].
  - assert (~ bad_clock (ge_draw env 3).1) as Hc by (apply Hclock; lia). unfold bad_clock in Hc.
    destruct (ge_draw env 3) as [now random]. unfold new_memory_uuid_after, mint_memory_uuid. cbn in *.
    destruct (clock_millis now) as [millis|]; [|done]. cbn.
    destruct (mint_within k g millis random store_number (Some floor)) as (t & g' & -> & Hg'); [done..|]. by exists t, g'.
  - destruct (draw_within k 3 store_number g) as (t & g' & -> & Hg'); [done|lia|done|]. by exists t, g'.
Qed.

Lemma within_more k k' g : within k g -> (k <= k')%N -> within k' g.
Proof. intros Hg Hk position Hp. specialize (Hg position Hp). lia. Qed.

Lemma prepare_write_within s owner writer draft prior store_number g db : within 0 g ->
  (forall t, prior = Some t -> stored_version db t) ->
  (exists t, stored_version db t /\ near_end (timestamp_millis t)) \/
  exists p g', prepare_goal_write env s owner writer draft prior store_number g db = Some (Ok p, g') /\ within 4 g'.
Proof.
  intros Hg Hprior. unfold prepare_goal_write.
  assert (exists identity g1, (if gc_mint_write_act draft
    then let* (identity, g) := reserve_fact_identity env 0 store_number g in Some (Some identity, g)
    else Some (None, g)) = Some (identity, g1) /\ within 2 g1) as (identity & g1 & -> & Hg1).
  { destruct (gc_mint_write_act draft); [|eexists _, g; split; [done|by apply (within_more 0)]].
    destruct (reserve_within 0 0 store_number g) as (identity & g1 & -> & Hg1); [done|lia|done|]. by eexists _, g1. }
  cbn -[draw_goal_uuid goal_t].
  assert (exists handle g2, match gc_handle draft with
    | Some handle => Some (handle, g1) | None => draw_goal_uuid env 2 store_number g1 end = Some (handle, g2) /\ within 3 g2)
    as (handle & g2 & -> & Hg2).
  { destruct (gc_handle draft) as [handle|]; [exists handle, g1; split; [done|by apply (within_more 2)]|].
    apply (draw_within 2); [done|lia|done]. }
  cbn -[goal_t]. set (floor := opt_uuid_max _ _).
  assert (forall t, floor = Some t -> stored_version db t) as Hfloor.
  { unfold floor, select_goal_head. intros t. destruct (gd_heads db !! handle) as [head|] eqn:Eh; cbn; [|by destruct prior; cbn; auto].
    destruct (goal_reads s (ghead_owner head)); cbn; [|by destruct prior; cbn; auto].
    assert (stored_version db (ghead_t head)) as Hh by (right; by exists handle, head).
    destruct prior as [q|]; cbn; intros [= <-]; [|done]. specialize (Hprior q eq_refl).
    destruct (N.max_spec (ghead_t head) q) as [[_ ->]|[_ ->]]; done. }
  destruct (decide (Exists (fun t => near_end (timestamp_millis t)) (option_list floor))) as [Hn|Hlow].
  { left. destruct floor as [t|]; cbn in Hn; [|by apply Exists_nil in Hn]. apply Exists_cons in Hn as [Hn|?%Exists_nil]; [|done].
    exists t. split; [by apply Hfloor|done]. }
  right. destruct (goal_t_within 3 store_number floor g2) as (t & g3 & -> & Hg3); [done|done| |].
  { intros t Et Hn. apply Hlow. rewrite Et. by constructor. }
  cbn. by eexists _, g3.
Qed.

Lemma prepare_within s insert g db : within 0 g ->
  (exists t, stored_version db t /\ near_end (timestamp_millis t)) \/
  is_Some (prepare_goal_insert env s insert g db).
Proof.
  intros Hg. unfold prepare_goal_insert. destruct (ensure_owner_row _ _ _); [|by right]. cbn -[prepare_goal_write].
  destruct (validate_goal_schema _ _); [|by right]. cbn -[prepare_goal_write].
  destruct (resolve_series_edge _ _ _ _ _) as [[handle parent]|] eqn:Er; [|by right].
  destruct (prepare_write_within s (dr_owner (in_draft insert)) (in_writer insert) (goal_command insert handle parent)
    (GoalId_0 <$> in_expected_prior insert) (in_store_number insert) g db) as [|(p & g1 & -> & Hg1)]; [done| |by left|].
  { intros t Ht. unfold resolve_series_edge in Er. destruct (in_expected_prior insert) as [prior|]; [|done].
    injection Ht as <-. left. unfold select_goal_owned, select_goal in Er. by destruct (gd_rows db !! GoalId_0 prior). }
  right. cbn -[reserve_fact_identity].
  assert (exists close g2, (if is_open (dr_state (in_draft insert)) then Some (None, g1)
    else let* (identity, g) := reserve_fact_identity env 4 (in_store_number insert) g1 in Some (Some identity, g))
    = Some (close, g2) /\ within 6 g2) as (close & g2 & -> & Hg2).
  { destruct (is_open _); [eexists _, g1; split; [done|by apply (within_more 4)]|].
    destruct (reserve_within 4 4 (in_store_number insert) g1) as (identity & g2 & -> & Hg2); [done|lia|done|]. by eexists _, g2. }
  cbn -[reserve_fact_identity]. destruct (goal_change_stamp _) as [[]|]; [|done..].
  destruct (reserve_within 6 6 (in_store_number insert) g2) as (identity & g3 & -> & _); [done|lia|done|]. done.
Qed.
End mints.

Lemma prepare_stops env s insert g db : prepare_goal_insert env s insert g db = None -> mint_panics env g db.
Proof.
  intros E. unfold mint_panics.
  destruct (decide (Exists (fun i => bad_clock (ge_draw env i).1) (seq 0 8))) as [Hbad|Hgood].
  { left. apply list.Exists_exists in Hbad as (i & [_ Hi]%elem_of_seq & Hbad). by exists i. }
  right. destruct (decide (Exists (fun position => near_end position.1) (option_list (g_previous g)))) as [Hn|Hlow]; [left|right].
  { destruct (g_previous g) as [position|]; cbn in Hn; [|by apply Exists_nil in Hn].
    apply Exists_cons in Hn as [Hn|?%Exists_nil]; [by exists position|done]. }
  destruct (prepare_within env) with (s := s) (insert := insert) (g := g) (db := db) as [|[r Er]]; [| |done|congruence].
  - intros i Hi Hc. apply Hgood, list.Exists_exists. exists i. split; [apply elem_of_seq; lia|done].
  - intros position Hp. destruct (decide (near_end position.1)) as [Hn|Hn]; [destruct Hlow; rewrite Hp; by constructor|].
    unfold near_end in Hn. lia.
Qed.

(** What keeps a transaction from its next step: another's lock, or a mint that
    panics, which takes the transaction with it. *)
Definition waits (w : GoalWorld) (id : nat) (env : GoalEnv) (tx : GoalTx) : Prop :=
  match tx_pc tx with
  | LockRequest _ insert _ | LockChild _ insert _ _ _ => request_free w id (insert_key_of insert) = false
  | Lock _ _ _ p => targets_free w id (pg_targets p) = false
  | LockChildren _ children => targets_free w id (children_targets children) = false
  | Prepare _ _ _ | PrepareChild _ _ _ _ _ => mint_panics env (goal_generator w (tx_process tx)) (gw_db w)
  | Answered _ => True
  | _ => False
  end.

Lemma stuck_waits w id env tx : tx_ok (gw_db w) tx -> tx_step w id env tx = None -> waits w id (env 0) tx.
Proof.
  intros [_ _ Hpc] E. unfold waits. unfold tx_step in E. cbv zeta in E. destruct (tx_pc tx) eqn:Epc; try done.
  - by destruct (request_free _ _ _).
  - destruct (prepare_goal_insert _ _ _ _ _) as [[[] ?]|] eqn:Ep; [done..|by eapply prepare_stops].
  - destruct (targets_free _ _ _); [|done]. by destruct (lock_and_validate_prepared_goal_write _ _ _).
  - by destruct (guard_step _ _ _ _).
  - unfold persist_step in E. destruct (persist_goal _ _ _ _ _ _) as [[[]|]|] eqn:Ep; [|done|by apply persist_answers in Ep].
    by destruct (if tx_goal_permit tx then _ else _).
  - destruct Hpc as (command & Er & _). by rewrite Er in E.
  - by destruct (validate_active_head _ _ _ _).
  - destruct todo as [|[child declaration] todo]; [done|]. by destruct (plan_child _ _ _ _).
  - by destruct (request_free _ _ _).
  - destruct (prepare_goal_insert _ _ _ _ _) as [[[] ?]|] eqn:Ep; [done..|by eapply prepare_stops].
  - destruct (targets_free _ _ _); [|done]. by destruct (validate_active_head _ _ _ _).
  - destruct (persist_children _ _ _ _) as [[[]|]|] eqn:Ep; [done..|by apply persist_children_answers in Ep].
Qed.

(** How often a transaction runs in a schedule. *)
Fixpoint runs (id : nat) (events : list GoalEvent) : nat :=
  match events with
  | [] => 0
  | Run i _ :: events => (if decide (i = id) then 1 else 0) + runs id events
  | _ :: events => runs id events
  end.

Lemma exec_spends w w' e id tx : world_ok w -> gw_txs w !! id = Some tx -> e <> Drop id -> exec w e = Some w' ->
  exists tx', gw_txs w' !! id = Some tx' /\ runs id [e] + steps_left tx' <= steps_left tx.
Proof.
  intros Hw Htx Hne E. destruct e as [id' process s permit writer store request|id' env|id'|owner|m]; cbn [exec] in E.
  - destruct (gw_txs w !! id') eqn:En; [done|]. injection E as <-. exists tx. cbn. rewrite lookup_insert_ne by congruence.
    split; [done|lia].
  - destruct (gw_txs w !! id') as [tx0|] eqn:En; [|done].
    destruct (tx_step w id' env tx0) as [[[tx1 db'] g']|] eqn:Es; [|done]. injection E as <-. cbn.
    destruct (decide (id' = id)) as [->|Hd].
    + rewrite Htx in En. injection En as <-. exists tx1. rewrite lookup_insert_eq. split; [done|].
      apply step_spends in Es; [lia|by eapply wo_txs].
    + exists tx. rewrite lookup_insert_ne by done. split; [done|lia].
  - injection E as <-. exists tx. cbn. rewrite lookup_delete_ne by congruence. split; [done|lia].
  - destruct (owner_free w owner); [|done]. injection E as <-. exists tx. split; [done|]. cbn. lia.
  - destruct (_ && _); [|done]. injection E as <-. exists tx. split; [done|]. cbn. lia.
Qed.

Lemma exec_all_spends w w' events id tx tx' : world_ok w -> Forall event_ok events -> Drop id ∉ events ->
  gw_txs w !! id = Some tx -> exec_all w events = Some w' -> gw_txs w' !! id = Some tx' ->
  runs id events + steps_left tx' <= steps_left tx.
Proof.
  revert w tx. induction events as [|e events IH]; intros w tx Hw Hev Hne Htx E Htx'; cbn [exec_all] in E.
  { injection E as <-. rewrite Htx in Htx'. by injection Htx' as <-. }
  destruct (exec w e) as [w1|] eqn:E1; [|done]. apply list.Forall_cons in Hev as [He Hev].
  apply not_elem_of_cons in Hne as [Hne1 Hne].
  destruct (exec_spends w w1 e id tx) as (tx1 & Htx1 & Hle); [done..|congruence|done|].
  pose proof (IH w1 tx1 (exec_ok _ _ _ Hw He E1) Hev Hne Htx1 E Htx') as Hrest.
  assert (runs id (e :: events) = runs id [e] + runs id events) as ->; [|lia]. destruct e; cbn; lia.
Qed.

(** C15. Goal transactions end: whatever else runs, every step of a transaction
    uses up one of its [steps_left], which are thirteen when it begins, or five
    and three per child of a decomposition.  It is kept from its next step only
    by another transaction's lock, or where it prepares a write by a mint that
    panics: a clock it reads is before the epoch or within eight milliseconds of
    the end of the 48-bit range, or its process has minted, or a Goal is stored,
    that late.  No other [expect] of it fails. *)
Theorem transactions_end (w : GoalWorld) (Hw : reachable w) (id : nat) (tx : GoalTx) (Htx : gw_txs w !! id = Some tx) :
  (forall events w' tx', Forall event_ok events -> Drop id ∉ events -> exec_all w events = Some w' ->
     gw_txs w' !! id = Some tx' -> runs id events + steps_left tx' <= steps_left tx) /\
  tx_pc tx <> Panicked /\
  forall env, exec w (Run id env) = None -> waits w id (env 0) tx.
Proof.
  apply goal_world_ok in Hw. pose proof (wo_txs _ Hw _ _ Htx) as Hok. split_and!.
  - intros events w' tx' Hev Hne E Htx'. by eapply exec_all_spends.
  - intros Hp. destruct Hok as [_ _ Hpc]. by rewrite Hp in Hpc.
  - intros env E. apply stuck_waits; [done|]. cbn [exec] in E. rewrite Htx in E.
    by destruct (tx_step w id env tx) as [[[? ?] ?]|].
Qed.

(** The same request, with other motivations. *)
Definition with_motivations (motivated_by : option (list MemoryId)) (req : ModifyGoalAtomicRequest) : ModifyGoalAtomicRequest :=
  mk_ModifyGoal (mod_owner req) (mod_prior_goal_id req) (mod_replacement req) (mod_authorship req) (mod_request_id req)
    (mod_context req) (mod_evidence req) motivated_by.

(** C40. A modification's declaration leaves its motivations out: once it is
    recorded, a retry under the same request id that changes them is answered
    as a replay of the first, where other changed content conflicts. *)
Theorem changed_motivations_replay `{!JsonbLaws} (db : GoalDb) (req : ModifyGoalAtomicRequest) (d : GoalReplayRow)
    (row : GoalRow) (motivated_by : option (list MemoryId)) (key : IdempotencyKey) (env : GoalEnv) (tx : GoalTx)
    (Hrecorded : recorded db (OwnerId_0 (mod_owner req), IdempotencyKey.as_str (mod_request_id req)) d row)
    (Hdeclared : modify_replay_declaration req = Ok (grep_declaration d))
    (Hretry : tx_request tx = OneGoal (ModifyGoal (with_motivations motivated_by req)))
    (Hpermit : tx_goal_permit tx = false) (Hreads : goal_reads (tx_session tx) (OwnerId_0 (mod_owner req)) = true)
    (Hkey : IdempotencyKey.new (IdempotencyKey.as_str (mod_request_id req)) = Ok key) :
  probe_step env tx db =
    answered (Ok (WroteGoal (mk_GoalWriteOutcome (mk_GoalId (grep_goal_t d)) (mk_GoalHandle (goal_handle row))
                               (grep_edge_count d) true))) tx.
Proof.
  unfold probe_step, answer_replay. rewrite Hretry, Hpermit. cbn [GoalCommand.screen andb].
  assert (GoalCommand.declaration (ModifyGoal (with_motivations motivated_by req)) = Ok (grep_declaration d)) as -> by exact Hdeclared.
  rewrite (resolve_recorded (tx_session tx) (mod_owner req) _ _ db d row key Hrecorded Hreads Hkey : resolve_goal_replay (tx_session tx)
    (GoalCommand.owner (ModifyGoal (with_motivations motivated_by req)))
    (GoalCommand.request_id (ModifyGoal (with_motivations motivated_by req))) (grep_declaration d) db = _).
  by rewrite jsonb_eq_refl.
Qed.

End goals.

(** ** A goal, decomposed and achieved, run *)

Module SampleGoals.
Import SampleMemory.

(** Declarations as lists of texts. *)
Definition payload_code (p : ReplayPayload) : list (list N) :=
  [rp_schema_id p; [rp_schema_version p]; rp_title p; rp_text p; rp_payload p;
   match rp_sidecar p with Some c => rs_schema_id c | None => [] end].
Definition topology_code (t : ReplayTopology) : list (list N) := [rt_motivated_by t; rt_dependencies t; rt_evidence t].
Definition state_code (state : GoalState) : list N := GoalState.filter_label state.
Definition declaration_code (declaration : ReplayDeclaration) : list (list N) :=
  match declaration with
  | DeclareCreate draft =>
      [[0%N]] ++ payload_code (rd_payload draft) ++ [state_code (rd_state draft)] ++ topology_code (rd_topology draft)
      ++ [to_list (rd_supersedes_goal_id draft); rd_authorship draft]
  | DeclareTransition prior state authorship pending =>
      [[1%N]; [prior]; state_code state; authorship; match pending with Some Keep => [1%N] | Some Discard => [2%N] | None => [] end]
  | DeclareAchieve prior authorship evidence => [[2%N]; [prior]; authorship; default [] evidence]
  | DeclareModify prior replacement authorship evidence =>
      [[3%N]; [prior]; authorship; default [] evidence] ++ payload_code replacement
  | DeclareDecomposeChild parent authorship topology index payload evidence =>
      [[4%N]; [parent]; authorship; [index]; evidence] ++ topology_code topology ++ payload_code payload
  end.

#[export] Instance sample_jsonb : Jsonb := fun a b => bool_decide (declaration_code a = declaration_code b).
#[export] Instance sample_jsonb_laws : JsonbLaws.
Proof. intros declaration. by apply bool_decide_eq_true_2. Qed.

Definition goal_session : GoalSession := mk_GoalSession session [owner] [owner].
Definition writer : WriterAttribution := mk_WriterAttribution owner None.
Definition schema : SchemaId := mk_SchemaId (str "goal").
Definition context : GoalAtomicContext := mk_GoalAtomicContext [(schema, 1%N)] false false.
Definition payload (title : rstring) : GoalPayloadWrite := mk_GoalPayloadWrite schema 1 title (str "text") [] None.
Definition key (raw : rstring) : IdempotencyKey := mk_IdempotencyKey raw.
Definition nothing : GoalTopologyWrite := mk_GoalTopologyWrite [] [] [].

Definition goal_env (millis : Z) : GoalEnv :=
  mk_GoalEnv (fun _ => ((millis * 1000000)%Z, repeat 0%N 16)) (env millis) (fun _ _ _ => Ok tt) [] (fun _ => Ok tt) (Ok tt).

Lemma goal_env_draws millis : goal_draws_ok (goal_env millis).
Proof. intros i. split; [done|]. by repeat constructor. Qed.

Definition begin (id : nat) (request : GoalRequest) : GoalEvent := Begin id 1 goal_session false writer 3 request.
Definition run (id : nat) : GoalEvent := Run id (fun _ => goal_env 1000).
Definition steps (id n : nat) (request : GoalRequest) : list GoalEvent := begin id request :: repeat (run id) n.

(** Two Perspectives, to motivate goals. *)
Definition perspective (handle : Uuid) : MemoryRow :=
  mk_MemoryRow handle PerspectiveMemory owner schema None None None None [] [] [] [] [] None writer None None None.
Definition start : GoalWorld :=
  empty_goals (mk_MemoryDb (mk_GroupDb ∅ ∅ ∅ ∅) ∅ ∅ {[ 500%N := perspective 50; 501%N := perspective 51 ]} ∅ ∅ ∅).
Definition world (events : list GoalEvent) : GoalWorld := default start (exec_all start events).

Definition create : GoalRequest :=
  OneGoal (CreateGoal (mk_CreateGoal
    (GoalDraft.active_from_payload_write (mk_OwnerId owner) (payload (str "parent")) nothing AuthorUser (key (str "k1")))
    context None)).
Definition created : list GoalEvent := steps 1 8 create.

(** The goal a transaction wrote. *)
Definition wrote (id : nat) (w : GoalWorld) : GoalWriteOutcome :=
  match tx_pc <$> gw_txs w !! id with
  | Some (Answered (Ok (WroteGoal outcome))) => outcome
  | Some (Answered (Ok (WroteChildren outcome))) =>
      default (mk_GoalWriteOutcome (mk_GoalId 0) (mk_GoalHandle 0) 0 false) (head (dg_children outcome))
  | _ => mk_GoalWriteOutcome (mk_GoalId 0) (mk_GoalHandle 0) 0 false
  end.
Definition parent : GoalId := gw_goal_id (wrote 1 (world created)).

Definition decompose : GoalRequest :=
  Decompose (mk_DecomposeGoal (mk_OwnerId owner) parent AuthorUser context nothing
    [mk_ChildGoal (payload (str "child")) [] (key (str "k2"))]).
Definition decomposed_parent : list GoalEvent := created ++ steps 2 8 decompose.
Definition child : GoalId := gw_goal_id (wrote 2 (world decomposed_parent)).

Definition achieve (goal : GoalId) (raw : rstring) : GoalCommand :=
  AchieveGoal (mk_AchieveGoal (mk_OwnerId owner) goal AuthorUser (key raw) context []).
Definition achieved_child : list GoalEvent := decomposed_parent ++ steps 3 8 (OneGoal (achieve child (str "k3"))).

(** The parent's achievement, and its abandonment at the same time. *)
Definition abandon : GoalCommand :=
  TransitionGoal (mk_TransitionGoal (mk_OwnerId owner) parent Abandon AuthorUser (key (str "k5")) context).
Definition about_to_achieve : list GoalEvent :=
  achieved_child ++ [begin 5 (OneGoal abandon); run 5; run 5; run 5] ++ steps 4 7 (OneGoal (achieve parent (str "k4"))).
Definition achieved_parent : list GoalEvent := about_to_achieve ++ [run 4].

Ltac event_ok := first [exact I | intros i; apply goal_env_draws | split; [reflexivity|first [exact I | split; [|reflexivity]; by exists [], [], []]]].
Ltac events_ok := repeat (apply Forall_cons_2; [event_ok|]); apply Forall_nil_2.

Lemma world_reachable events : Forall event_ok events -> is_some (exec_all start events) = true -> reachable (world events).
Proof.
  intros Hev E. unfold world. destruct (exec_all start events) as [w|] eqn:Er; [|discriminate E].
  eexists. by eapply exec_all_steps.
Qed.

Lemma about_to_achieve_ok : Forall event_ok about_to_achieve.
Proof. events_ok. Qed.

Lemma about_to_achieve_reachable : reachable (world about_to_achieve).
Proof. apply world_reachable; [exact about_to_achieve_ok|vm_compute; reflexivity]. Qed.

Lemma achieved_parent_reachable : reachable (world achieved_parent).
Proof. apply world_reachable; [|vm_compute; reflexivity]. apply Forall_app_2; [exact about_to_achieve_ok|events_ok]. Qed.

Definition parent_handle : Uuid := GoalHandle_0 (gw_goal_handle (wrote 1 (world created))).
Definition child_handle : Uuid := GoalHandle_0 (gw_goal_handle (wrote 2 (world decomposed_parent))).
Definition no_head : GoalHeadRow := mk_GoalHeadRow schema 0 0.
Definition head_in (w : GoalWorld) (handle : Uuid) : GoalHeadRow := default no_head (gd_heads (gw_db w) !! handle).
Definition no_row : GoalRow := mk_GoalRow 0 0 schema [] None Active [] None [] [] [] None writer None.
Definition row_in (w : GoalWorld) (handle : Uuid) : GoalRow := default no_row (gd_rows (gw_db w) !! ghead_t (head_in w handle)).

Lemma goal_trees_close_witness : is_open (goal_state (row_in (world achieved_parent) child_handle)) = false.
Proof.
  apply (goal_trees_close (world achieved_parent) achieved_parent_reachable parent_handle
    (row_in (world achieved_parent) parent_handle)) with (handle := child_handle).
  - exists (head_in (world achieved_parent) parent_handle). split; vm_compute; reflexivity.
  - split; [exists (head_in (world achieved_parent) child_handle); split|]; vm_compute; reflexivity.
  - vm_compute. reflexivity.
Defined.

Lemma goal_histories_are_legal_witness :
  exists t row, history (gw_db (world achieved_parent)) parent_handle !! 0 = Some (t, row) /\ goal_state row = Active.
Proof.
  apply (goal_histories_are_legal (world achieved_parent) achieved_parent_reachable parent_handle
    (head_in (world achieved_parent) parent_handle)). vm_compute. reflexivity.
Defined.

Lemma run_ok_event id : event_ok (run id).
Proof. intros i. apply goal_env_draws. Qed.

Lemma head_moves_only_from_its_prior_witness :
  gd_heads (gw_db (world achieved_parent)) !! parent_handle = Some (head_in (world about_to_achieve) parent_handle) \/
  (run 4 = EraseOwner (ghead_owner (head_in (world about_to_achieve) parent_handle)) /\
   gd_heads (gw_db (world achieved_parent)) !! parent_handle = None) \/
  exists id env tx command head' row row', run 4 = Run id env /\ gw_txs (world about_to_achieve) !! id = Some tx /\
    tx_request tx = OneGoal command /\
    prior_of command = Some (mk_GoalId (ghead_t (head_in (world about_to_achieve) parent_handle))) /\
    OwnerId_0 (GoalCommand.owner command) = ghead_owner (head_in (world about_to_achieve) parent_handle) /\
    gd_heads (gw_db (world achieved_parent)) !! parent_handle = Some head' /\
    (ghead_t (head_in (world about_to_achieve) parent_handle) < ghead_t head')%N /\
    gd_rows (gw_db (world about_to_achieve)) !! ghead_t (head_in (world about_to_achieve) parent_handle) = Some row /\
    gd_rows (gw_db (world achieved_parent)) !! ghead_t head' = Some row' /\
    legal_next (goal_state row) (goal_state row') = true /\ goal_request_id row' = GoalCommand.request_id command.
Proof.
  apply (head_moves_only_from_its_prior (world about_to_achieve) (world achieved_parent) (run 4)
    about_to_achieve_reachable (run_ok_event 4)); vm_compute; reflexivity.
Defined.

(** The abandonment went on, and lost: the goal it names is no longer current. *)
Definition settled : list GoalEvent := achieved_parent ++ [run 5; run 5; run 5].
Definition achieving : GoalTx := default (mk_GoalTx 0 goal_session false writer 0 create [] None [] Probe)
                                   (gw_txs (world about_to_achieve) !! 4).
Definition achieved_tx : GoalTx := default achieving (gw_txs (world achieved_parent) !! 4).

Example abandonment_lost : tx_pc <$> gw_txs (world settled) !! 5 = Some (Answered (Err (Conflict PRIOR_NOT_CURRENT))).
Proof. vm_compute. reflexivity. Qed.

Lemma committed_command_replays_witness :
  exists declaration, GoalCommand.declaration (achieve parent (str "k4")) = Ok declaration /\
    resolve_goal_replay goal_session (mk_OwnerId owner) (str "k4") declaration (gw_db (world settled)) =
      Ok (Some (mk_GoalWriteOutcome (gw_goal_id (wrote 4 (world achieved_parent)))
                  (gw_goal_handle (wrote 4 (world achieved_parent))) 0 true)).
Proof.
  destruct (committed_command_replays (world about_to_achieve) (world achieved_parent) (world settled) 4
    (fun _ => goal_env 1000) achieving achieved_tx (achieve parent (str "k4")) (wrote 4 (world achieved_parent))
    [run 5; run 5; run 5] goal_session (key (str "k4"))) as [(declaration & Ed & Er & _) _].
  1: exact about_to_achieve_reachable.
  1: exact (run_ok_event 4).
  1-6: vm_compute; reflexivity.
  1: events_ok.
  1: { rewrite !not_elem_of_cons. split_and!; [discriminate..|apply not_elem_of_nil]. }
  1-3: vm_compute; reflexivity.
  exists declaration. split; [exact Ed|]. exact Er.
Defined.

(** A clock at its thousandth millisecond is far from the end: the creation
    about to be prepared can mint. *)
Example creation_can_mint :
  (exists command insert retried, tx_pc <$> gw_txs (world (steps 1 4 create)) !! 1 = Some (Prepare command insert retried)) /\
  ~ mint_panics (goal_env 1000) (goal_generator (world (steps 1 4 create)) 1) (gw_db (world (steps 1 4 create))).
Proof.
  split; [eexists _, _, _; vm_compute; reflexivity|].
  intros [(i & _ & Hc)|[(position & Hp & _)|(t & [[row Hr]|(handle & head & Hh & _)] & _)]].
  - vm_compute in Hc. discriminate Hc.
  - vm_compute in Hp. discriminate Hp.
  - assert (gd_rows (gw_db (world (steps 1 4 create))) = ∅) as E by (vm_compute; reflexivity). by rewrite E in Hr.
  - assert (gd_heads (gw_db (world (steps 1 4 create))) = ∅) as E by (vm_compute; reflexivity). by rewrite E in Hh.
Qed.

Lemma transactions_end_witness : runs 4 [run 4] + steps_left achieved_tx <= steps_left achieving.
Proof.
  assert (gw_txs (world about_to_achieve) !! 4 = Some achieving) as Htx by (vm_compute; reflexivity).
  refine (proj1 (transactions_end (world about_to_achieve) about_to_achieve_reachable 4 achieving Htx) [run 4]
    (world achieved_parent) achieved_tx _ _ _ _).
  - events_ok.
  - rewrite !not_elem_of_cons. split; [discriminate|apply not_elem_of_nil].
  - vm_compute. reflexivity.
  - vm_compute. reflexivity.
Defined.

(** A modification motivated by one Perspective, and its retry with another. *)
Definition modify : ModifyGoalAtomicRequest :=
  mk_ModifyGoal (mk_OwnerId owner) parent (payload (str "parent, revised")) AuthorUser (key (str "k6")) context None
    (Some [mk_MemoryId 500]).
Definition modified : list GoalEvent := created ++ steps 6 8 (OneGoal (ModifyGoal modify)).
Definition retry : GoalTx :=
  mk_GoalTx 1 goal_session false writer 3 (OneGoal (ModifyGoal (with_motivations (Some [mk_MemoryId 501]) modify))) [] None []
    Probe.
Definition modified_record : GoalReplayRow :=
  default (mk_GoalReplayRow 0 (DeclareAchieve 0 [] None) 0) (gd_declarations (gw_db (world modified)) !! (owner, str "k6")).

Lemma changed_motivations_replay_witness :
  goal_motivated_by (row_in (world modified) parent_handle) = [500%N] /\
  probe_step (goal_env 1000) retry (gw_db (world modified)) =
    answered (Ok (WroteGoal (mk_GoalWriteOutcome (mk_GoalId (grep_goal_t modified_record)) (mk_GoalHandle parent_handle) 1 true)))
      retry.
Proof.
  split; [vm_compute; reflexivity|].
  assert (recorded (gw_db (world modified)) (owner, str "k6") modified_record (row_in (world modified) parent_handle)) as Hrec
    by (split_and!; vm_compute; reflexivity).
  exact (changed_motivations_replay (gw_db (world modified)) modify modified_record (row_in (world modified) parent_handle)
    (Some [mk_MemoryId 501]) (key (str "k6")) (goal_env 1000) retry Hrec eq_refl eq_refl eq_refl eq_refl eq_refl).
Defined.
End SampleGoals.
